(* ===== verification/_CoqProject ===== *)
-Q . S2P
Prelude.v
ModArith.v
Machine.v
Doubles.v
Gmp.v
PrimeGap.v
PaillierUtils.v
PowMod.v
Paillier.v
PaillierFacts.v
PaillierProps.v
CrtPack.v
PyPaillier.v
PyPaillierProps.v
Aby3Op.v
PartyProg.v
MpcDiv.v
MpcDivProps.v
Regression.v
Aby3ML.v
MLOrder.v
ExprParse.v
ExprConfig.v
ExprLocal.v
ExprMpc.v
MpcCompare.v
MpcProg.v
SharedOps.v
Parallel.v
StrUtil.v
Json.v
Common.v
PsiData.v
PsiTyped.v
Statistics.v
StatProps.v
Wire.v
PsiNet.v
NetMany.v
Psi.v
PsiKkrt.v
TeePsi.v
PsiTask.v
PyPsi.v
MpcStatistics.v
MpcTask.v
Launcher.v
Arithmetic.v
ArithProps.v
Logistic.v
LogisticProps.v
MissingVal.v
Abnormal.v
MissingProps.v
MetaService.v
CsvFile.v
Config.v
DataStore.v
Drivers.v
DatasetService.v
DatasetProps.v
Worker.v
NodeImpl.v
Dispatch.v
DispatchProps.v
Peers.v
Grpc.v
Channels.v
Exchange.v
Download.v
Commands.v
Cli.v
CliProps.v
Execute.v
ExecuteProps.v
PirOperator.v
PirProps.v
PirTask.v
PirTaskProps.v
