(* ===== verification/Prelude.v ===== *)
(** * PrimiHub: a verification development

    PrimiHub is a platform for privacy-preserving computation.  A node receives
    tasks, schedules them to parties, runs each party's part in a worker and moves
    messages between the parties; the tasks are secret-shared computations on
    columns (MPC), private set intersection (PSI), private retrieval (PIR) and
    others; data sets are registered at a meta service and read through drivers; a
    command line client submits tasks and waits for them; a library provides the
    Paillier cryptosystem to Python.  This development models the parts of the C++
    code under [src/primihub] that carry this logic and proves what makes them
    correct.  File names below are relative to that directory.

    ** Conventions

    This file fixes the outcome of a C++ function ([res]: a value, an exception, or
    undefined behaviour that the execution reaches), the return codes, tactics and
    hint databases.  [Machine] has 64-bit integers (shares wrap, overflow of user
    data is undefined), doubles as the Standard Library's [spec_float] at binary64,
    and [atol] and [std::stod]; [Doubles] shows which computations on doubles are
    exact.  [ModArith] has the number theory and [PrimeGap] a bound on the distance to
    the next prime; they model no code.  [Json] has the
    values of the JSON texts that requests carry and [StrUtil] the splitting of
    texts.  A [std::string] is a list of characters, a [std::map] a [gmap] (or an
    association list where its order shows), a pointer into a table of objects a
    number.  A loop that is not structural has a fuel it cannot exhaust: the length
    of the text for [Wire.decode_loop], [StrUtil.split_loop] and
    [Grpc.split_packages]; thirty-two turns for the shift loops of [PaillierUtils];
    ten digits for a 32-bit number in [Common]; one turn more than rows for
    [Regression.getSubset]; one turn for each text in [PyPaillier.pack_loop]; one
    turn for each poll in [Cli.CheckTaskStauts].  Code outside the repository is a
    type class of operations with a class of laws that states its documented
    behaviour, and an instance shows that the laws can be met.

    ** Paillier: [algorithm/opt_paillier], [pybind_warpper/algorithm]

    [Gmp] is the interface to GMP; [PaillierUtils] models [utils.cc], [PowMod]
    [powmod.cc], [Paillier] [paillier.cc] (key generation from the drawn bytes,
    three encryptions, two decryptions, homomorphic operations, signed
    plaintexts), [CrtPack] [crt_datapack.cc], [PyPaillier] the functions Python
    calls ([opt_paillier_c2py.cc]).  [PaillierFacts] has the lemmas and
    [PaillierProps] and [PyPaillierProps] the theorems: decryption inverts
    encryption for every key pair that key generation yields (at every security level
    of its table the two moduli are distinct primes, by the bound of [PrimeGap]), the
    CRT and fixed-base variants agree with the plain ones, addition and scalar
    multiplication act on plaintexts modulo [n], signed decimal texts and packed
    sequences survive the round trip, keys survive the way through Python objects,
    and lists of any length that are packed, encrypted, added and decrypted there
    are the lists of sums.

    ** Shared computation: [operator], [executor], [algorithm]

    [Aby3Op] models the linear operations of [operator/aby3_operator.cc] on
    replicated shares; [PartyProg] and [MpcProg] are the programs of three parties
    and how they run together; [MpcCompare] the comparison, [MpcDiv] the division
    of [operator/aby3_operator.h] ([MpcDivProps]: the parties obtain the quotient
    within a stated error, for at most twenty fraction bits; the rank search takes
    six rounds because the rank is below 64), [SharedOps] the sharing of a matrix
    whose shape only the owner knows and constants on single shared numbers.

    [ExprParse] models the infix parser of [executor/express.cc], [ExprConfig] its
    column configuration and feed dictionary, [ExprLocal] the evaluation on plain
    columns, [ExprMpc] the evaluation by three parties and the reveal.  The parser
    prints back every expression tree in postfix form, local evaluation computes
    the tree's value row by row, and the three parties' programs fit together call
    by call and reveal that value to the parties asked for (modulo 2^64 for
    integers; for fixed-point within the laws of the aby3 interface).  A comparison
    compares by party number; [MpcCompare] shows when that is not the order of the
    operands.

    [Statistics] and [StatProps] model [executor/statistics.cc]: sums, averages,
    minima and maxima of the parties' joint columns, exact within stated bounds but for
    a negative maximum, which comes out as 0.
    [Regression] and [Aby3ML] model the training of [algorithm/regression.h] and
    [aby3ML.h] for any engine and on shares; [MLOrder] the rest of [aby3ML.h]:
    tests for zero and order, sorting and removing duplicates on shared columns,
    powers and averages.

    The tasks on top of them: [MpcTask] models [task/semantic/mpc_task.cc] over the
    interface [Algorithm] of [algorithm/base.h]; [MpcStatistics] ([mpc_statistics.cc]),
    [Arithmetic] with [ArithProps] ([arithmetic.cc]), [Logistic] with
    [LogisticProps] ([logistic.cc]) and [MissingVal] with [MissingProps]
    ([missing_val_processing.cc]) are its instances, and [Abnormal] how the SQLite
    cursor reads columns in which numbers are missing.  The theorems follow a task
    from the request and the three parties' tables to the saved result (numbers are
    saved as doubles).
    [Launcher] models the executor with which Python starts a statistic
    ([task/pybind_wrapper/mpc_task_wrapper.cc]): under every schedule the parties and
    the auxiliary node come to work on one sub-task of one shape.

    ** Private set intersection: [kernel/psi], [task/semantic/psi_task.cc]

    [Parallel] has threads that write one vector under every interleaving,
    [Common] the roles and nodes of [common/common.h], [PsiData] the loading of
    rows from tables and the saving of results, [PsiTyped] the loading from typed
    columns, [Wire] the length-prefixed framing, [PsiNet] two parties that exchange
    messages through mailboxes with a confluence result (one complete schedule
    decides them all) and [NetMany] the same for any number, [Psi] the base and the
    ECDH operators, [PsiKkrt] the KKRT operator's own part, [TeePsi] the operator
    with a trusted executor over the interface of its enclave library, [PsiTask] the
    task from request to saved table, [PyPsi] the executor for Python
    ([task/pybind_wrapper/psi_wrapper.cc], [task_wrapper.cc]).  The theorems: the threads load exactly the
    table's records and extract exactly the selected rows; the ECDH client and
    server end under every schedule with the rows that match the server's setup
    message, no common row missing, and the server gets the same list when it is
    synchronised; two tasks save those rows; two Python programs that use ECDH get the
    common integers.  With the trusted executor the three parties end under every schedule
    with the common rows, provided two functions that lack a return statement come
    back, which the language does not promise.

    ** Private retrieval: [kernel/pir], [task/semantic/pir_task.cc]

    [PirOperator] models the keyword operator's server and client around the APSI
    library, [PirProps] its properties, [PirTask] and [PirTaskProps] the task: the
    rows of a key are grouped for the server, and under every schedule the client
    gets for each query the labels of its key, with the padding of the label after the
    last row, and a miss for a key that is absent.

    ** Data: [service/dataset], [data_store], [node/ds.cc]

    [MetaService] models the meta data and its JSON form, [CsvFile], [DataStore]
    and [Drivers] the CSV, SQLite, MySQL and image drivers with their cursors,
    [DatasetService] the registration of data sets over an interface to the meta
    store, [Config] the configuration of a node ([common/config]) over an interface to
    YAML and the identity of a device.  [DatasetProps]: a registered data set is found again and reads the same
    data; which table an SQL cursor yields; what becomes of numbers on the way.

    ** The node: [node], [util/network], [task/semantic]

    [Worker] models the scheduler side of [node/worker/worker.cc], [NodeImpl] the
    bookkeeping of [node/node_impl.cc], [Grpc] the message path through
    [util/network/grpc_link_context.cc], [node/node_interface.cc] and the data
    functions of [node_impl.cc], [Dispatch] the parsers and schedulers of
    [task/semantic] and [task/language], [Peers] the lists of peers and data sets made
    from meta data, [Download] the files a node sends, [Channels] the channels of
    three MPC parties ([algorithm/base.cc], [util/network/mpc_channel.cc],
    [mem_channel.cc]), [Exchange] requests with answers and the completion queues,
    [Commands] the commands to other nodes with their retries, [Execute] the
    execution of a task on a node, from the call to the process that runs it.  The
    theorems: a task's promise is decided exactly as the reports of its parties
    dictate, under every interleaving; dispatch, reports and polls refine that
    contract, with what changes when reports precede the party count; the operation
    queue conserves the worker references and keeps every
    container non-empty; a resent task is run once per window; the messages
    of a key pass through one queue, whatever becomes of the calls, and arrive whole,
    once and in order when all calls are answered; every party gets its request, with
    party numbers that are consistent and links that match, and a PIR server learns
    nothing of the query ([DispatchProps]); the channels of three parties with clear
    names behave as one queue for every ordered pair; requests and answers stay in
    step; a repeated report changes nothing; the verdict on a task is failure when the
    task of a party failed and success when all succeeded, if a report comes after the
    party count ([ExecuteProps]).  Several theorems state where the code falls short: a
    party count set after the last report, an id dispatched again, a node that refuses a
    task and is not counted, a send to a finished task, [submitTask], a download whose
    reading thread falls off its function, a call that never returns because its task
    could not start.

    ** The client: [cli]

    [Cli] models the configuration files, the requests made from them, submission,
    polling and downloads.  [CliProps]: a request written as a configuration is read
    back, and a client stops polling exactly when the scheduler has its verdict.

    ** What is not modelled

    Cryptographic secrecy; Arrow, gRPC, protobuf, aby3, GMP, APSI, OpenMined PSI,
    libPSI, nlohmann and rapidjson beyond their interfaces ([util/json.hpp] is a
    vendored library); process start-up and signals, sockets and certificates; the
    enclave behind [TeePsi]; weak memory (an atomic block is a step).  [std::stod]
    covers decimal texts.  Left out because nothing of the program calls them or they
    only call a library: the superseded loader of [kernel/psi/util.cc], the builds with
    [MPC_SOCKET_CHANNEL], the event bus, the peer-to-peer stub, the drivers for the
    Falcon and CrypTFlow2 libraries and for the plain regression,
    [pybind_warpper/express_wrapper.cc] (written for an earlier form of the executor,
    which is a template now), federated-learning tasks (they start Python code), and
    wrappers of logging, Redis, Eigen and OpenSSL. *)

From stdpp Require Import base option list gmap strings.
From Stdlib Require Import ZArith Lia.

(** ** Outcomes of C++ functions

    [Ret] is a normal return, [Throw] a C++ exception leaving the function
    (the [RaiseException] macro, [std::stod] on a bad string, ...), [Undef]
    undefined behaviour reached by the execution (popping an empty
    [std::stack], reading past a buffer, dividing by zero). *)
Inductive res (A : Type) : Type :=
| Ret (a : A)
| Throw
| Undef.
Arguments Ret {A} a.
Arguments Throw {A}.
Arguments Undef {A}.

#[export] Instance res_ret : MRet res := fun A a => Ret a.
#[export] Instance res_bind : MBind res := fun A B f r =>
  match r with Ret a => f a | Throw => Throw | Undef => Undef end.
#[export] Instance res_fmap : FMap res := fun A B f r =>
  match r with Ret a => Ret (f a) | Throw => Throw | Undef => Undef end.

(** The return codes every component of the node uses. *)
Inductive retcode : Type := SUCCESS | FAIL.
#[export] Instance retcode_eq_dec : EqDecision retcode.
Proof. solve_decision. Defined.

(** Reading a slot that must exist: anything else is undefined behaviour. *)
Definition or_undef {A} (o : option A) : res A :=
  match o with Some a => Ret a | None => Undef end.

Lemma res_bind_Ret {A B} (c : res A) (f : A -> res B) b :
  c ≫= f = Ret b <-> exists a, c = Ret a /\ f a = Ret b.
Proof. destruct c as [a| |]; split; simpl; naive_solver. Qed.

Lemma or_undef_Ret {A} (o : option A) a : or_undef o = Ret a <-> o = Some a.
Proof. destruct o; simpl; naive_solver. Qed.

(** ** Tactics *)

(** Split every [match]/[if] of the goal or of a hypothesis, keeping the
    equations, and clear the impossible cases. *)
Ltac split_matches :=
  repeat (simplify_eq/=; case_match); simplify_eq/=.

(** Take a monadic success apart. *)
Ltac res_inv :=
  repeat match goal with
  | H : (_ ≫= _) = Ret _ |- _ => apply res_bind_Ret in H as (? & ? & ?)
  | H : or_undef _ = Ret _ |- _ => apply or_undef_Ret in H
  | H : Ret _ = Ret _ |- _ => injection H as H
  end.

Create HintDb ph discriminated.
Create Rewrite HintDb ph.
