(* ===== verification/ModArith.v ===== *)
(** * Modular arithmetic on [Z]

    Congruence modulo [m] as a setoid, the two-modulus Chinese remainder
    argument, Fermat's little theorem in the form the Paillier proofs use, and
    the facts on [m ^ 2] that make Paillier's decryption linear.  Nothing here
    models code; the numeric components ([PowMod], [Paillier], [CrtPack])
    share these lemmas. *)

From stdpp Require Import base tactics.
From Stdlib Require Import ZArith Lia Znumtheory Zdivisibility Zcong Zmod.
From S2P Require Import Prelude.

Local Open Scope Z_scope.

Declare Scope cong_scope.
Delimit Scope cong_scope with cong.

Definition cong (m a b : Z) : Prop := (m | a - b).
Notation "a =[ m ]= b" := (cong m a b)
  (at level 70, m at level 200, no associativity, format "a  =[ m ]=  b") : cong_scope.
Local Open Scope cong_scope.

#[export] Instance cong_equiv m : Equivalence (cong m).
Proof.
  split.
  - intros a. exists 0. lia.
  - intros a b [k H]. exists (- k). lia.
  - intros a b c [k H] [l K]. exists (k + l). lia.
Qed.

#[export] Instance cong_add m : Proper (cong m ==> cong m ==> cong m) Z.add.
Proof. intros a b [k H] c d [l K]. exists (k + l). lia. Qed.

#[export] Instance cong_sub m : Proper (cong m ==> cong m ==> cong m) Z.sub.
Proof. intros a b [k H] c d [l K]. exists (k - l). lia. Qed.

#[export] Instance cong_opp m : Proper (cong m ==> cong m) Z.opp.
Proof. intros a b [k H]. exists (- k). lia. Qed.

#[export] Instance cong_mul m : Proper (cong m ==> cong m ==> cong m) Z.mul.
Proof.
  intros a b [k H] c d [l K]. exists (k * c + b * l).
  replace (a * c - b * d) with ((a - b) * c + b * (c - d)) by ring.
  rewrite H, K. ring.
Qed.

#[export] Instance cong_pow m : Proper (cong m ==> eq ==> cong m) Z.pow.
Proof.
  intros a b H e ? <-.
  destruct (Z.lt_ge_cases e 0) as [He|He].
  { rewrite !Z.pow_neg_r by done. reflexivity. }
  revert e He. apply natlike_ind; [reflexivity|].
  intros e He IH. rewrite !Z.pow_succ_r by done. by apply cong_mul.
Qed.

Lemma cong_mod_iff m a b : m <> 0 -> a =[ m ]= b <-> a mod m = b mod m.
Proof.
  intros Hm. split.
  - intros [k H]. replace a with (b + k * m) by lia. by apply Z.mod_add.
  - intros H. exists (a / m - b / m).
    pose proof (Z.div_mod a m Hm). pose proof (Z.div_mod b m Hm). lia.
Qed.

Lemma mod_cong m a : m <> 0 -> a mod m =[ m ]= a.
Proof. intros Hm. apply cong_mod_iff; [done|]. by apply Z.mod_mod. Qed.

(** Two representatives in range that are congruent are equal. *)
Lemma cong_small_eq m a b : 0 <= a < m -> 0 <= b < m -> a =[ m ]= b -> a = b.
Proof.
  intros Ha Hb H%cong_mod_iff; [|lia]. rewrite !Z.mod_small in H; lia.
Qed.

Lemma mod_eq_cong m a b : 0 <= b < m -> a =[ m ]= b -> a mod m = b.
Proof.
  intros Hb H%cong_mod_iff; [|lia]. rewrite H. by apply Z.mod_small.
Qed.

Lemma cong_divide m m' a b : (m' | m) -> a =[ m ]= b -> a =[ m' ]= b.
Proof. intros Hd H. by eapply Z.divide_trans. Qed.

Lemma mod_cong_divide m m' a : m <> 0 -> (m' | m) -> a mod m =[ m' ]= a.
Proof. intros Hm Hd. eapply cong_divide; [done|]. by apply mod_cong. Qed.

Lemma cong_mul_l m a : m * a =[ m ]= 0.
Proof. exists a. lia. Qed.

Lemma cong_mul_r m a : a * m =[ m ]= 0.
Proof. exists a. lia. Qed.

(** ** Coprimality and the Chinese remainder theorem *)

Lemma coprime_sym a b : Z.coprime a b -> Z.coprime b a.
Proof. unfold Z.coprime. by rewrite Z.gcd_comm. Qed.

Lemma coprime_divide_mul a b x :
  Z.coprime a b -> (a | x) -> (b | x) -> (a * b | x).
Proof.
  intros Hc Ha [k Hk]. subst x.
  rewrite Z.mul_comm in Ha.
  apply Z.gauss in Ha; [|done]. destruct Ha as [l ->]. exists l. ring.
Qed.

Lemma cong_crt a b x y :
  Z.coprime a b -> x =[ a ]= y -> x =[ b ]= y -> x =[ a * b ]= y.
Proof. apply coprime_divide_mul. Qed.

(** Garner's recombination, as the code computes it: [cp + (cq - cp) * e],
    with [e] a multiple of [a] that is one modulo [b]. *)
Lemma crt_combine a b e cp cq x :
  Z.coprime a b ->
  e =[ a ]= 0 -> e =[ b ]= 1 ->
  cp =[ a ]= x -> cq =[ b ]= x ->
  cp + (cq - cp) * e =[ a * b ]= x.
Proof.
  intros Hc Ha Hb Hp Hq. apply cong_crt; [done|..].
  - rewrite Ha, Z.mul_0_r, Z.add_0_r. done.
  - rewrite Hb, Z.mul_1_r. replace (cp + (cq - cp)) with cq by ring. done.
Qed.

Lemma coprime_square a b : Z.coprime a b -> Z.coprime (a * a) (b * b).
Proof. intros. by repeat (apply Z.coprime_mul_l || apply Z.coprime_mul_r). Qed.

Lemma primes_coprime p q : Z.prime p -> Z.prime q -> p <> q -> Z.coprime p q.
Proof.
  intros Hp Hq Hne. apply Z.coprime_prime_l; [done|].
  intros H. by apply Z.divide_prime_prime in H.
Qed.

Lemma prime_not_divide_small p a : Z.prime p -> 0 < a < p -> ~ (p | a).
Proof. intros Hp Ha H. apply Z.divide_pos_le in H; lia. Qed.

(** ** Fermat, and lifting from [m] to [m ^ 2] *)

Lemma fermat_cong p a : Z.prime p -> Z.coprime a p -> a ^ (p - 1) =[ p ]= 1.
Proof.
  intros Hp Hc. pose proof (Z.prime_ge_2 p Hp).
  apply cong_mod_iff; [lia|]. rewrite (Z.mod_small 1) by lia.
  apply Z.fermat_nz; [done|]. intros H0%Z.mod_divide; [|lia].
  apply coprime_sym, Z.coprime_prime_l_iff in Hc; tauto.
Qed.

Lemma pow_mul_cong m a e k : 0 <= e -> 0 <= k ->
  a ^ e =[ m ]= 1 -> a ^ (e * k) =[ m ]= 1.
Proof. intros. rewrite Z.pow_mul_r by done. rewrite H1, Z.pow_1_l by done. reflexivity. Qed.

(** [(1 + x m)^k = 1 + k x m] modulo [m ^ 2]. *)
Lemma binomial_square m x k : 0 <= k ->
  (1 + x * m) ^ k =[ m * m ]= 1 + k * x * m.
Proof.
  revert k. apply natlike_ind; [reflexivity|].
  intros k Hk IH. rewrite Z.pow_succ_r, IH by done.
  exists (x * x * k). lia.
Qed.

(** Congruent modulo [m] implies [m]-th powers congruent modulo [m ^ 2]. *)
Lemma pow_lift m a b : 0 <= m -> a =[ m ]= b -> a ^ m =[ m * m ]= b ^ m.
Proof.
  intros Hm [k Hk]. replace a with (b + k * m) by lia. clear Hk.
  assert (H : forall e, 0 <= e ->
    (b + k * m) ^ (1 + e) =[ m * m ]= b ^ (1 + e) + (1 + e) * k * m * b ^ e).
  { apply natlike_ind; [exists 0; rewrite ?Z.pow_1_r; simpl; lia|].
    intros e He IH.
    replace (1 + Z.succ e) with (Z.succ (1 + e)) by lia.
    rewrite Z.pow_succ_r, IH by lia.
    rewrite (Z.pow_succ_r b (1 + e)) by lia.
    rewrite (Z.pow_add_r b 1 e), Z.pow_1_r, Z.pow_succ_r by lia.
    exists (k * k * (1 + e) * b ^ e). unfold Z.succ. ring. }
  destruct (Z.eq_dec m 0) as [->|]; [reflexivity|].
  specialize (H (m - 1) ltac:(lia)).
  replace (1 + (m - 1)) with m in H by lia. rewrite H.
  exists (k * b ^ (m - 1)). ring.
Qed.

Lemma pow_lift_one m a : 0 <= m -> a =[ m ]= 1 -> a ^ m =[ m * m ]= 1.
Proof. intros Hm Ha. rewrite (pow_lift m a 1 Hm Ha), Z.pow_1_l by done. reflexivity. Qed.

(** ** The number [L(c) = (c - 1) / m] of Paillier's decryption *)

Lemma paillier_L m x c :
  0 < m -> 0 <= c < m * m -> c =[ m * m ]= 1 + x * m ->
  (m | c - 1) /\ (c - 1) / m =[ m ]= x.
Proof.
  intros Hm Hc [k Hk].
  assert (E : c - 1 = (x + k * m) * m) by lia.
  split; [exists (x + k * m); done|].
  rewrite E, Z.div_mul by lia. exists k. ring.
Qed.
