(* ===== verification/Machine.v ===== *)
(** * Machine arithmetic: [int64_t], [double] and their text forms

    What the expression executor and the share arithmetic use of the language:
    64-bit two's complement integers (wrapping for shares, undefined on overflow
    for user data), IEEE binary64 values as the Standard Library's [spec_float]
    at precision 53, and the conversions [atol] and [std::stod]. *)

From Stdlib Require Import Ascii String ZArith Lia SpecFloat.
From stdpp Require Import base tactics list option strings.
From S2P Require Import Prelude ModArith.

Local Open Scope Z_scope.
Local Open Scope cong_scope.

(** ** 64-bit integers *)

Definition W64 : Z := 2 ^ 64.

(** The two's complement value of [z] at 64 bits. *)
Definition wrap (z : Z) : Z := (z + 2 ^ 63) mod W64 - 2 ^ 63.

Definition in_i64 (z : Z) : bool := (- 2 ^ 63 <=? z) && (z <? 2 ^ 63).

(** Signed arithmetic of user data: an overflow is undefined behaviour. *)
Definition i64 (z : Z) : res Z := if in_i64 z then Ret z else Undef.

Lemma wrap_cong z : wrap z =[ W64 ]= z.
Proof.
  unfold wrap. assert (H := Z.div_mod (z + 2 ^ 63) W64 ltac:(unfold W64; lia)).
  exists (- ((z + 2 ^ 63) / W64)). lia.
Qed.

Lemma wrap_eq a b : wrap a = wrap b <-> a =[ W64 ]= b.
Proof.
  split.
  - intros H. rewrite <- (wrap_cong a), H. apply wrap_cong.
  - intros [k H]. unfold wrap. do 1 f_equal.
    replace (a + 2 ^ 63) with (b + 2 ^ 63 + k * W64) by lia. apply Z.mod_add. unfold W64; lia.
Qed.

Lemma wrap_range z : - 2 ^ 63 <= wrap z < 2 ^ 63.
Proof. unfold wrap. assert (H := Z.mod_pos_bound (z + 2 ^ 63) W64 ltac:(unfold W64; lia)). unfold W64 in *. lia. Qed.

Lemma in_i64_spec z : in_i64 z = true <-> - 2 ^ 63 <= z < 2 ^ 63.
Proof. unfold in_i64. rewrite andb_true_iff, Z.leb_le, Z.ltb_lt. done. Qed.

Lemma wrap_id z : in_i64 z = true -> wrap z = z.
Proof. rewrite in_i64_spec. intros H. unfold wrap. rewrite Z.mod_small by (unfold W64; lia). lia. Qed.

Lemma wrap_wrap z : wrap (wrap z) = wrap z.
Proof. apply wrap_eq, wrap_cong. Qed.

(** Decide an equality of wrapped values by linear or ring reasoning on the
    values themselves. *)
Ltac wrap_ring :=
  apply wrap_eq; rewrite ?wrap_cong;
  match goal with |- ?a =[ _ ]= ?b => replace a with b by ring; reflexivity end.

Lemma wrap_add_l a b : wrap (wrap a + b) = wrap (a + b).
Proof. wrap_ring. Qed.
Lemma wrap_mul_l a b : wrap (wrap a * b) = wrap (a * b).
Proof. wrap_ring. Qed.

#[export] Hint Rewrite wrap_add_l wrap_mul_l wrap_wrap : ph.

(** ** Doubles *)

Abbreviation double := spec_float.

Definition d_prec : Z := 53.
Definition d_emax : Z := 1024.
Definition dadd : double -> double -> double := SFadd d_prec d_emax.
Definition dsub : double -> double -> double := SFsub d_prec d_emax.
Definition dmul : double -> double -> double := SFmul d_prec d_emax.
Definition ddiv : double -> double -> double := SFdiv d_prec d_emax.

(** [static_cast<double>] of an integer: round to nearest, ties to even. *)
Definition d_of_int (z : Z) : double := binary_normalize d_prec d_emax z 0 false.

(** [m / 10 ^ k], correctly rounded. *)
Definition d_of_decimal (sgn : bool) (m : Z) (k : Z) : double :=
  if m =? 0 then S754_zero sgn
  else
    let '(mz, ez, lz) := SFdiv_core_binary d_prec d_emax (m * 10 ^ Z.max 0 (- k)) 0 (10 ^ Z.max 0 k) 0 in
    binary_round_aux d_prec d_emax sgn mz ez lz.

#[export] Instance spec_float_eq_dec : EqDecision double.
Proof. solve_decision. Defined.

(** ** Text to number *)

Abbreviation str := (list ascii).

Coercion chars (s : string) : str := list_ascii_of_string s.
Arguments chars !s : simpl nomatch.

Definition is_space (c : ascii) : bool :=
  bool_decide (c ∈ [" "; "009"; "010"; "011"; "012"; "013"]%char).

Definition digit (c : ascii) : option Z :=
  let n := Z.of_nat (nat_of_ascii c) in
  if (48 <=? n) && (n <=? 57) then Some (n - 48) else None.

Fixpoint skip_space (s : str) : str :=
  match s with c :: s' => if is_space c then skip_space s' else s | [] => [] end.

(** An optional sign: [true] when negative. *)
Definition take_sign (s : str) : bool * str :=
  match s with
  | c :: s' => if decide (c = "-"%char) then (true, s') else if decide (c = "+"%char) then (false, s') else (false, s)
  | [] => (false, [])
  end.

(** A run of digits: its value on top of [acc], its length, the rest. *)
Fixpoint take_digits (acc : Z) (n : nat) (s : str) : Z * nat * str :=
  match s with
  | c :: s' => match digit c with Some d => take_digits (10 * acc + d) (S n) s' | None => (acc, n, s) end
  | [] => (acc, n, [])
  end.

(** [atol]: the longest numeral at the start, 0 without one; [strtol] saturates. *)
Definition atol (s : str) : Z :=
  let '(neg, s) := take_sign (skip_space s) in
  let '(v, _, _) := take_digits 0 0 s in
  Z.max (- 2 ^ 63) (Z.min (2 ^ 63 - 1) (if neg then - v else v)).

(** The exponent after the digits, when it is complete. *)
Definition take_exponent (s : str) : Z :=
  match s with
  | c :: s' =>
      if decide (c = "e"%char \/ c = "E"%char) then
        let '(neg, s1) := take_sign s' in
        let '(v, n, _) := take_digits 0 0 s1 in
        if decide (n = O) then 0 else if neg then - v else v
      else 0
  | [] => 0
  end.

(** [std::stod] on decimal numerals (optional blanks and sign, digits with an
    optional point and exponent): the longest numeral at the start of the text,
    correctly rounded; it throws when there is none ([std::invalid_argument])
    and when the value is out of range ([std::out_of_range]).  The hexadecimal
    and [inf]/[nan] spellings are treated as having no decimal numeral. *)
Definition stod (s : str) : res double :=
  let '(neg, s) := take_sign (skip_space s) in
  let '(m, n, s) := take_digits 0 0 s in
  let '(m, nf, s) :=
    match s with
    | c :: s' => if decide (c = "."%char) then take_digits m 0 s' else (m, O, s)
    | [] => (m, O, [])
    end in
  if decide (n + nf = 0)%nat then Throw
  else
    let d := d_of_decimal neg m (Z.of_nat nf - take_exponent s) in
    match d with
    | S754_infinity _ | S754_nan => Throw
    | S754_zero _ => if m =? 0 then Ret d else Throw
    | S754_finite _ mx _ => if Z.pos mx <? 2 ^ 52 then Throw else Ret d
    end.

Example atol_ex : atol (chars "-100A") = -100. Proof. reflexivity. Qed.
Example stod_ex : stod (chars "1.25") = Ret (ddiv (d_of_int 5) (d_of_int 4)).
Proof. vm_compute. reflexivity. Qed.
Example stod_bad : stod (chars "A") = Throw. Proof. reflexivity. Qed.
