(* ===== verification/Doubles.v ===== *)
(** * Exact arithmetic on doubles

    The statistics and the missing-value code sum, compare and negate columns of
    integers as [double]s.  This file has the facts about the binary64 operations
    of [Machine] that make those computations exact: a value with at most 53
    significant bits is not rounded, integers below [2^53] in absolute value are
    converted, compared and added exactly, and multiplying by [-1] changes only
    the sign.  It models no code of the repository. *)

From Stdlib Require Import ZArith Lia SpecFloat.
From stdpp Require Import base tactics list option.
From S2P Require Import Prelude ModArith Machine.

Local Open Scope Z_scope.

(** ** Digits *)

Lemma digits2_log2 p : Z.pos (digits2_pos p) = Z.log2 (Z.pos p) + 1.
Proof.
  induction p as [p IH|p IH|]; cbn [digits2_pos]; [| |reflexivity].
  - rewrite Pos2Z.inj_succ, IH, (Pos2Z.inj_xI p), Z.log2_succ_double by lia. lia.
  - rewrite Pos2Z.inj_succ, IH, (Pos2Z.inj_xO p), Z.log2_double by lia. lia.
Qed.

Lemma digits2_bound p : Z.pos p < 2 ^ 53 <-> Z.pos (digits2_pos p) <= 53.
Proof. rewrite digits2_log2. rewrite (Z.log2_lt_pow2 (Z.pos p) 53) by lia. lia. Qed.

Lemma digits2_shift p n : 0 <= n -> Zdigits2 (Z.pos p * 2 ^ n) = Z.pos (digits2_pos p) + n.
Proof.
  intros Hn. assert (H := Z.pow_pos_nonneg 2 n ltac:(lia) Hn).
  destruct (Z.pos p * 2 ^ n) as [|q|q] eqn:E; [lia| |lia].
  cbn [Zdigits2]. rewrite !digits2_log2, <- E, Z.log2_mul_pow2 by lia. lia.
Qed.

(** ** Shifts that lose nothing *)

Definition shr_even (m : Z) : shr_record := Build_shr_record m false false.

Lemma shr_1_even m : shr_1 (shr_even (2 * m)) = shr_even m.
Proof. destruct m; reflexivity. Qed.

Lemma iter_pos_iter {A} (f : A -> A) p x : SpecFloat.iter_pos f p x = Pos.iter f x p.
Proof.
  revert x. induction p as [p IH|p IH|]; intros x; cbn [SpecFloat.iter_pos Pos.iter]; rewrite ?IH; [|done..].
  by rewrite !Pos.iter_swap.
Qed.

Lemma shr_exact m e n : 0 <= n -> shr (shr_even (m * 2 ^ n)) e n = (shr_even m, e + n).
Proof.
  destruct n as [|p|p]; intros Hn; [|clear Hn|lia].
  { cbn [shr Z.pow]. by rewrite Z.mul_1_r, Z.add_0_r. }
  unfold shr. f_equal. rewrite iter_pos_iter. induction p as [|p IH] using Pos.peano_ind.
  { cbn [Pos.iter]. rewrite (Z.mul_comm m). apply (shr_1_even m). }
  rewrite Pos.iter_succ_r, Pos2Z.inj_succ, Z.pow_succ_r by lia.
  replace (m * (2 * 2 ^ Z.pos p)) with (2 * (m * 2 ^ Z.pos p)) by ring. by rewrite shr_1_even.
Qed.

Lemma shl_align_value m e e' : e' <= e -> Z.pos (shl_align m e e').1 = Z.pos m * 2 ^ (e - e') /\ (shl_align m e e').2 = e'.
Proof.
  intros H. unfold shl_align. destruct (e' - e) as [|p|p] eqn:E; [|lia|].
  { replace (e - e') with 0 by lia. simpl. lia. }
  replace (e - e') with (Z.pos p) by lia. simpl. split; [|done]. clear E H.
  induction p as [|p IH] using Pos.peano_ind; [simpl; lia|].
  rewrite Pos.iter_succ, Pos2Z.inj_xO, IH, Pos2Z.inj_succ, Z.pow_succ_r by lia. ring.
Qed.

(** ** Rounding a representable value *)

Abbreviation dfexp := (fexp d_prec d_emax).

(** [m * 2^e] is a double in its canonical form. *)
Definition canonical (m : positive) (e : Z) : Prop := dfexp (Z.pos (digits2_pos m) + e) = e /\ e <= 971.

Lemma round_aux_exact s m e n : canonical m e -> 0 <= n ->
  binary_round_aux d_prec d_emax s (Z.pos m * 2 ^ n) (e - n) loc_Exact = S754_finite s m e.
Proof.
  intros [Hc He] Hn. unfold binary_round_aux, shr_fexp. rewrite digits2_shift by done.
  replace (Z.pos (digits2_pos m) + n + (e - n)) with (Z.pos (digits2_pos m) + e) by lia. rewrite Hc.
  replace (e - (e - n)) with n by lia. cbn [shr_record_of_loc]. change (Build_shr_record (Z.pos m * 2 ^ n) false false) with (shr_even (Z.pos m * 2 ^ n)).
  rewrite shr_exact by done. cbn [shr_even shr_m loc_of_shr_record round_nearest_even Zdigits2 shr_record_of_loc].
  replace (e - n + n) with e by lia. rewrite Hc, Z.sub_diag. cbn [shr shr_m].
  rewrite (proj2 (Z.leb_le _ _)) by (unfold d_emax, d_prec; lia). reflexivity.
Qed.

(** A value of at most 53 bits, written with any number of trailing zeros. *)
Definition mant (p : positive) : positive := Z.to_pos (Z.pos p * 2 ^ (53 - Z.pos (digits2_pos p))).
Definition expo (p : positive) : Z := Z.pos (digits2_pos p) - 53.

Lemma mant_value p : Z.pos p < 2 ^ 53 -> Z.pos (mant p) = Z.pos p * 2 ^ (- expo p).
Proof.
  rewrite digits2_bound. intros H. unfold mant, expo.
  assert (H1 := Z.pow_pos_nonneg 2 (53 - Z.pos (digits2_pos p)) ltac:(lia) ltac:(lia)).
  rewrite Z2Pos.id by lia. do 2 f_equal. lia.
Qed.

Lemma mant_digits p : Z.pos p < 2 ^ 53 -> Z.pos (digits2_pos (mant p)) = 53.
Proof.
  intros H. assert (H' := proj1 (digits2_bound p) H).
  change (Z.pos (digits2_pos (mant p))) with (Zdigits2 (Z.pos (mant p))).
  rewrite mant_value, digits2_shift by (done || (unfold expo; lia)). unfold expo. lia.
Qed.

Lemma mant_canonical p : Z.pos p < 2 ^ 53 -> canonical (mant p) (expo p).
Proof.
  intros H. assert (H' := proj1 (digits2_bound p) H). unfold canonical. rewrite mant_digits by done.
  unfold fexp, emin, d_prec, d_emax, expo. lia.
Qed.

Lemma binary_round_exact s p m j : 0 <= j -> Z.pos p < 2 ^ 53 -> Z.pos m = Z.pos p * 2 ^ j ->
  binary_round d_prec d_emax s m (- j) = S754_finite s (mant p) (expo p).
Proof.
  intros Hj Hp Hm. unfold binary_round.
  assert (Hd : Z.pos (digits2_pos m) = Z.pos (digits2_pos p) + j).
  { change (Z.pos (digits2_pos m)) with (Zdigits2 (Z.pos m)). by rewrite Hm, digits2_shift. }
  assert (Hp' := proj1 (digits2_bound p) Hp).
  assert (Hf : dfexp (Z.pos (digits2_pos m) + - j) = expo p) by (rewrite Hd; unfold fexp, emin, d_prec, d_emax, expo; lia).
  rewrite Hf. assert (Hc := mant_canonical p Hp).
  destruct (Z.le_ge_cases (expo p) (- j)) as [Hle|Hge].
  - destruct (shl_align m (- j) (expo p)) as [mz ez] eqn:E.
    destruct (shl_align_value m (- j) (expo p) Hle) as [H1 H2]. rewrite E in H1, H2. simpl in H1, H2. subst ez.
    replace (Z.pos mz) with (Z.pos (mant p) * 2 ^ 0).
    + rewrite <- (Z.sub_0_r (expo p)) at 1. by rewrite round_aux_exact.
    + rewrite H1, mant_value, Hm by done. rewrite Z.mul_1_r, <- Z.mul_assoc, <- Z.pow_add_r by lia. do 2 f_equal. lia.
  - replace (shl_align m (- j) (expo p)) with (m, - j).
    2:{ unfold shl_align. destruct (expo p - - j) eqn:E; [done|done|lia]. }
    replace (Z.pos m) with (Z.pos (mant p) * 2 ^ (expo p + j)).
    + replace (- j) with (expo p - (expo p + j)) by lia. apply round_aux_exact; [done|lia].
    + rewrite mant_value, Hm by done. rewrite <- Z.mul_assoc, <- Z.pow_add_r by (unfold expo in *; lia). do 2 f_equal. lia.
Qed.

(** ** Integers as doubles *)

Definition small (z : Z) : Prop := Z.abs z < 2 ^ 53.

#[export] Instance small_dec z : Decision (small z).
Proof. unfold small. apply _. Defined.

(** The signed integer [z] at scale [2^-j]. *)
Lemma normalize_scaled z j : small z -> 0 <= j ->
  binary_normalize d_prec d_emax (z * 2 ^ j) (- j) false = d_of_int z.
Proof.
  intros Hz Hj. unfold d_of_int, small in *. assert (H := Z.pow_pos_nonneg 2 j ltac:(lia) Hj).
  destruct z as [|p|p]; [reflexivity| |].
  - destruct (Z.pos p * 2 ^ j) as [|m|m] eqn:E; [lia| |lia]. cbn [binary_normalize].
    rewrite (binary_round_exact false p m j) by (done || lia).
    symmetry. apply (binary_round_exact false p p 0); lia.
  - destruct (Z.neg p * 2 ^ j) as [|m|m] eqn:E; [lia|lia|]. cbn [binary_normalize].
    rewrite (binary_round_exact true p m j) by (done || lia).
    symmetry. apply (binary_round_exact true p p 0); lia.
Qed.

Lemma d_of_int_pos p : Z.pos p < 2 ^ 53 -> d_of_int (Z.pos p) = S754_finite false (mant p) (expo p).
Proof. intros H. apply (binary_round_exact false p p 0); lia. Qed.
Lemma d_of_int_neg p : Z.pos p < 2 ^ 53 -> d_of_int (Z.neg p) = S754_finite true (mant p) (expo p).
Proof. intros H. apply (binary_round_exact true p p 0); lia. Qed.

Lemma expo_le p : Z.pos p < 2 ^ 53 -> expo p <= 0.
Proof. rewrite digits2_bound. unfold expo. lia. Qed.

(** The operand [z], aligned to the exponent [e] of a sum. *)
Lemma aligned p e : Z.pos p < 2 ^ 53 -> e <= expo p ->
  Z.pos (shl_align (mant p) (expo p) e).1 = Z.pos p * 2 ^ (- e).
Proof.
  intros Hp He. destruct (shl_align_value (mant p) (expo p) e He) as [-> _]. assert (Hx := expo_le p Hp).
  rewrite mant_value, <- Z.mul_assoc, <- Z.pow_add_r by (done || lia). do 2 f_equal. lia.
Qed.

(** Integers of at most 53 bits are added exactly. *)
Lemma dadd_int x y : small x -> small y -> small (x + y) -> dadd (d_of_int x) (d_of_int y) = d_of_int (x + y).
Proof.
  intros Hx Hy Hs. unfold small in *.
  assert (Hsum : forall e, e <= 0 -> binary_normalize d_prec d_emax (x * 2 ^ (- e) + y * 2 ^ (- e)) e false = d_of_int (x + y)).
  { intros e He. rewrite <- (normalize_scaled (x + y) (- e)) by (done || lia). f_equal; lia. }
  destruct x as [|p|p]; [destruct y as [|q|q]; [done|by rewrite Z.add_0_l, d_of_int_pos by lia|by rewrite Z.add_0_l, d_of_int_neg by lia]| |];
    (destruct y as [|q|q]; [rewrite Z.add_0_r, ?d_of_int_pos, ?d_of_int_neg by lia; done| |]);
    rewrite ?(d_of_int_pos p), ?(d_of_int_neg p), ?(d_of_int_pos q), ?(d_of_int_neg q) by lia; unfold dadd, SFadd;
    rewrite !aligned by lia; cbn [cond_Zopp];
    assert (H1 := expo_le p ltac:(lia)); rewrite <- (Hsum (Z.min (expo p) (expo q))) by lia; f_equal; lia.
Qed.

Lemma mant_lt p q : Z.pos p < 2 ^ 53 -> Z.pos q < 2 ^ 53 -> expo p = expo q -> (mant p ?= mant q)%positive = (p ?= q)%positive.
Proof.
  intros Hp Hq He. assert (Hx := expo_le p Hp).
  assert (Hpow := Z.pow_pos_nonneg 2 (- expo p) ltac:(lia) ltac:(lia)).
  change ((Z.pos (mant p) ?= Z.pos (mant q)) = (Z.pos p ?= Z.pos q)).
  rewrite !mant_value, <- He by done. symmetry. by apply Zmult_compare_compat_r; lia.
Qed.

Lemma expo_mono p q : Z.pos p <= Z.pos q -> expo p <= expo q.
Proof. unfold expo. rewrite !digits2_log2. intros H. assert (H' := Z.log2_le_mono _ _ H). lia. Qed.

Lemma magnitude_compare p q : Z.pos p < 2 ^ 53 -> Z.pos q < 2 ^ 53 ->
  match expo p ?= expo q with Lt => Lt | Gt => Gt | Eq => Pos.compare_cont Eq (mant p) (mant q) end = (p ?= q)%positive.
Proof.
  intros Hp Hq. destruct (Z.compare_spec (expo p) (expo q)) as [E|H|H].
  - by apply mant_lt.
  - symmetry. apply Pos.compare_lt_iff. assert (H' := expo_mono q p). lia.
  - symmetry. apply Pos.compare_gt_iff. assert (H' := expo_mono p q). lia.
Qed.

(** ... and compared exactly. *)
Lemma d_of_int_compare x y : small x -> small y -> SFcompare (d_of_int x) (d_of_int y) = Some (x ?= y).
Proof.
  unfold small. intros Hx Hy.
  destruct x as [|p|p]; destruct y as [|q|q];
    rewrite ?(d_of_int_pos p), ?(d_of_int_neg p), ?(d_of_int_pos q), ?(d_of_int_neg q) by lia; try reflexivity;
    cbn [SFcompare]; f_equal.
  - rewrite magnitude_compare by lia. reflexivity.
  - transitivity (CompOpp (p ?= q)%positive); [|cbn; by rewrite <- Pos.compare_antisym].
    rewrite <- (magnitude_compare p q) by lia. by destruct (expo p ?= expo q).
Qed.

Lemma d_of_int_ltb x y : small x -> small y -> SFltb (d_of_int x) (d_of_int y) = (x <? y).
Proof. intros Hx Hy. unfold SFltb. rewrite d_of_int_compare by done. unfold Z.ltb. by destruct (x ?= y). Qed.

Lemma d_of_int_leb x y : small x -> small y -> SFleb (d_of_int x) (d_of_int y) = (x <=? y).
Proof. intros Hx Hy. unfold SFleb. rewrite d_of_int_compare by done. unfold Z.leb. by destruct (x ?= y). Qed.

(** Multiplying by [-1] changes the sign of a double. *)
Definition d_neg_one : double := d_of_int (-1).

Lemma dmul_neg_one d : valid_binary d_prec d_emax d = true -> dmul d_neg_one d = SFopp d.
Proof.
  destruct d as [s|s| |s m e]; intros Hv; [by destruct s..|done|].
  unfold valid_binary, bounded, canonical_mantissa in Hv. apply andb_true_iff in Hv as [Hv1%Z.eqb_eq Hv2%Z.leb_le].
  unfold d_neg_one. rewrite d_of_int_neg by lia. unfold dmul, SFmul.
  rewrite Pos2Z.inj_mul, mant_value by lia. change (expo 1) with (-52).
  replace (Z.pos 1 * 2 ^ (- -52) * Z.pos m) with (Z.pos m * 2 ^ 52) by lia.
  replace (-52 + e) with (e - 52) by lia. rewrite round_aux_exact; [by destruct s| |lia].
  split; [done|]. unfold d_emax, d_prec in Hv2. lia.
Qed.
