(* ===== verification/Gmp.v ===== *)
(** * The GMP interface used by the optimised Paillier library

    [mpz_t] is an unbounded integer, so it is [Z]; [mpz_add], [mpz_sub],
    [mpz_mul], [mpz_neg], [mpz_cmp], [mpz_mod] with a positive modulus,
    [mpz_setbit] and [mpz_clrbit] are the operations of [Z].  The functions
    whose algorithm is GMP's own are the fields of the class [GmpOps], and
    [GmpLaws] states their documented contract; every client theorem is proved
    against the class.  The instance [gmp_model] shows that the laws can be met
    by executable functions and is what the witnesses run. *)

From stdpp Require Import base tactics list.
From Stdlib Require Import ZArith Lia Znumtheory Zdivisibility Zcong Zpow_facts.
From Stdlib Require Import String DecimalString DecimalZ.
From S2P Require Import Prelude ModArith.

Local Open Scope Z_scope.

Class GmpOps := {
  mpz_powm : Z -> Z -> Z -> Z;            (* base, exponent, modulus *)
  mpz_invert : Z -> Z -> Z;               (* operand, modulus *)
  mpz_nextprime : Z -> Z;
  mpz_probab_prime_p : Z -> Z -> Z;       (* operand, repetitions *)
  mpz_get_str : Z -> Z -> string;         (* radix, operand *)
  mpz_set_str : string -> Z -> Z;         (* string, radix *)
}.

Class GmpLaws (G : GmpOps) := {
  mpz_powm_spec : forall b e m, 0 <= e -> 0 < m -> mpz_powm b e m = b ^ e mod m;
  mpz_invert_spec : forall a m, 1 < m -> Z.coprime a m ->
    0 <= mpz_invert a m < m /\ mpz_invert a m * a mod m = 1;
  mpz_nextprime_spec : forall x, 0 <= x ->
    x < mpz_nextprime x /\ Z.prime (mpz_nextprime x);
  mpz_nextprime_least : forall x r, 0 <= x -> Z.prime r -> x < r -> mpz_nextprime x <= r;
  (** The number of repetitions makes a composite answer negligible; the model
      takes a positive answer at face value. *)
  mpz_probab_prime_sound : forall n reps, 1 < n -> mpz_probab_prime_p n reps <> 0 -> Z.prime n;
  mpz_str_roundtrip : forall z, mpz_set_str (mpz_get_str 10 z) 10 = z;
}.

(** ** Primality by trial division, for the executable instance *)

Fixpoint no_divisor (fuel : nat) (p n : Z) : bool :=
  match fuel with
  | O => true
  | S k => if p mod n =? 0 then false else no_divisor k p (n + 1)
  end.

Definition primeb (p : Z) : bool := (1 <? p) && no_divisor (Z.to_nat (p - 2)) p 2.

Lemma no_divisor_spec fuel p n : 0 < n ->
  no_divisor fuel p n = true <-> forall k, n <= k < n + Z.of_nat fuel -> ~ (k | p).
Proof.
  revert n. induction fuel as [|fuel IH]; intros n Hn; simpl.
  - split; [|done]. intros _ k ?. lia.
  - destruct (Z.eqb_spec (p mod n) 0) as [E|E].
    + split; [done|]. intros H. exfalso. apply (H n); [lia|].
      by apply Z.mod_divide; [lia|].
    + rewrite IH by lia. split.
      * intros H k Hk. destruct (Z.eq_dec k n) as [->|]; [|apply H; lia].
        rewrite <- Z.mod_divide by lia. done.
      * intros H k Hk. apply H. lia.
Qed.

Lemma primeb_spec p : primeb p = true <-> Z.prime p.
Proof.
  unfold primeb, Z.prime. rewrite andb_true_iff, Z.ltb_lt, no_divisor_spec by lia.
  split; intros [H1 H2]; split; try done; intros k Hk; apply H2; lia.
Qed.

(** ** A prime above [x]: the least divisor above one of [x! + 1] *)

(** First of the [2 ^ n] candidates from [x] on that satisfies [P]. *)
Fixpoint search (n : nat) (P : Z -> bool) (x : Z) : option Z :=
  match n with
  | O => if P x then Some x else None
  | S k => match search k P x with
           | Some r => Some r
           | None => search k P (x + 2 ^ Z.of_nat k)
           end
  end.

Lemma search_spec n P x :
  match search n P x with
  | Some r => x <= r < x + 2 ^ Z.of_nat n /\ P r = true /\ forall k, x <= k < r -> P k = false
  | None => forall k, x <= k < x + 2 ^ Z.of_nat n -> P k = false
  end.
Proof.
  revert x. induction n as [|n IH]; intros x; cbn [search].
  - change (2 ^ Z.of_nat 0) with 1. destruct (P x) eqn:E.
    + repeat split; try lia; try done.
    + intros k Hk. by replace k with x by lia.
  - rewrite Nat2Z.inj_succ, Z.pow_succ_r by lia.
    pose proof (IH x) as H1. destruct (search n P x) as [r|].
    { destruct H1 as (? & ? & ?). repeat split; try lia; done. }
    pose proof (IH (x + 2 ^ Z.of_nat n)) as H2.
    assert (Hlow : forall k, k < x + 2 ^ Z.of_nat n -> x <= k -> P k = false) by (intros; apply H1; lia).
    destruct (search n P (x + 2 ^ Z.of_nat n)) as [r|].
    + destruct H2 as (? & ? & H2). repeat split; try lia; [done|]. intros k Hk.
      destruct (Z.lt_ge_cases k (x + 2 ^ Z.of_nat n)); [apply Hlow|apply H2]; lia.
    + intros k Hk. destruct (Z.lt_ge_cases k (x + 2 ^ Z.of_nat n)); [apply Hlow|apply H2]; lia.
Qed.

Lemma prime_divisor_exists n : 1 < n -> exists p, Z.prime p /\ (p | n).
Proof.
  intros Hn. set (P := fun k => n mod k =? 0).
  assert (HPn : P n = true) by (unfold P; rewrite Z.mod_same by lia; done).
  assert (Hb : n < 2 ^ Z.of_nat (Z.to_nat n)) by (rewrite Z2Nat.id by lia; apply Z.pow_gt_lin_r; lia).
  pose proof (search_spec (Z.to_nat n) P 2) as H. destruct (search _ P 2) as [p|].
  2: { rewrite H in HPn; [done|lia]. }
  destruct H as (H1 & H2 & H3).
  assert (Hpn : (p | n)) by (apply Z.mod_divide; [lia|]; by apply Z.eqb_eq).
  exists p. split; [|done]. split; [lia|]. intros k Hk Hkp.
  specialize (H3 k ltac:(lia)). apply Z.eqb_neq in H3. apply H3, Z.mod_divide; [lia|].
  by eapply Z.divide_trans.
Qed.

Fixpoint zfact (n : nat) : Z :=
  match n with O => 1 | S k => Z.of_nat n * zfact k end.

Lemma zfact_pos n : 0 < zfact n.
Proof. induction n as [|n IH]; cbn [zfact]; nia. Qed.

Lemma zfact_divide n k : 0 < k <= Z.of_nat n -> (k | zfact n).
Proof.
  induction n as [|n IH]; intros Hk; [lia|]. cbn [zfact].
  destruct (Z.eq_dec k (Z.of_nat (S n))) as [->|].
  - apply Z.divide_factor_l.
  - apply Z.divide_mul_r, IH. lia.
Qed.

Definition next_prime (x : Z) : Z :=
  default 0 (search (Z.to_nat (Z.log2_up (zfact (Z.to_nat x) + 2))) primeb (x + 1)).

Lemma prime_above x : 0 <= x -> exists p, x < p <= zfact (Z.to_nat x) + 1 /\ Z.prime p.
Proof.
  intros Hx. pose proof (zfact_pos (Z.to_nat x)) as Hf.
  destruct (prime_divisor_exists (zfact (Z.to_nat x) + 1)) as (p & Hp & Hd); [lia|].
  exists p. split; [|done]. split; [|by apply Z.divide_pos_le; [lia|]].
  destruct (Z.lt_ge_cases x p) as [|Hle]; [done|]. exfalso.
  pose proof (Z.prime_ge_2 p Hp). assert (H1 : (p | 1)).
  { replace 1 with (zfact (Z.to_nat x) + 1 - zfact (Z.to_nat x)) by ring.
    apply Z.divide_sub_r; [done|]. apply zfact_divide. lia. }
  apply Z.divide_1_r in H1. lia.
Qed.

Lemma next_prime_spec x : 0 <= x -> x < next_prime x /\ Z.prime (next_prime x).
Proof.
  intros Hx. destruct (prime_above x Hx) as (p & Hle & Hp).
  pose proof (zfact_pos (Z.to_nat x)). unfold next_prime.
  set (b := Z.log2_up (zfact (Z.to_nat x) + 2)).
  assert (Hb : zfact (Z.to_nat x) + 2 <= 2 ^ Z.of_nat (Z.to_nat b)).
  { unfold b. rewrite Z2Nat.id by apply Z.log2_up_nonneg. apply Z.log2_up_spec. lia. }
  pose proof (search_spec (Z.to_nat b) primeb (x + 1)) as H1.
  destruct (search _ primeb (x + 1)) as [r|]; simpl.
  - destruct H1 as (? & ? & _). split; [lia|]. by apply primeb_spec.
  - apply primeb_spec in Hp. rewrite H1 in Hp; [done|lia].
Qed.

Lemma next_prime_least x r : 0 <= x -> Z.prime r -> x < r -> next_prime x <= r.
Proof.
  intros Hx Hr Hlt. destruct (next_prime_spec x Hx) as [Hgt _]. unfold next_prime in *.
  pose proof (search_spec (Z.to_nat (Z.log2_up (zfact (Z.to_nat x) + 2))) primeb (x + 1)) as H1.
  destruct (search _ primeb (x + 1)) as [p|]; simpl in *; [|lia]. destruct H1 as (_ & _ & Hl).
  destruct (Z.le_gt_cases p r) as [|Hrp]; [done|]. apply primeb_spec in Hr. by rewrite Hl in Hr by lia.
Qed.

(** ** The instance *)

#[export] Instance gmp_model : GmpOps := {
  mpz_powm := Zpow_mod;
  mpz_invert := Z.invmod;
  mpz_nextprime := next_prime;
  mpz_probab_prime_p n _ := if primeb n then 2 else 0;
  mpz_get_str _ z := NilZero.string_of_int (Z.to_int z);
  mpz_set_str s _ := default 0 (Z.of_int <$> NilZero.int_of_string s);
}.

#[export] Instance gmp_model_laws : GmpLaws gmp_model.
Proof.
  split; simpl.
  - intros. apply Zpow_mod_correct. lia.
  - intros a m Hm Hc. split.
    + rewrite <- Z.mod_invmod. apply Z.mod_pos_bound. lia.
    + apply Z.invmod_coprime; [lia|done].
  - apply next_prime_spec.
  - apply next_prime_least.
  - intros n _ _ H. destruct (primeb n) eqn:E; [by apply primeb_spec|done].
  - intros z. rewrite NilZero.isi; [simpl; apply DecimalZ.of_to|..]; intros E;
      pose proof (DecimalZ.of_to z) as Hz; rewrite E in Hz; subst z; discriminate E.
Qed.
