(* ===== verification/PrimeGap.v ===== *)
(** * A bound on the gap to the next prime

    Key generation takes the next prime above a random number and relies on it staying
    of about the same length.  Here: above every number of [b] bits there is a prime of
    at most [t] bits, as soon as [t * 2 ^ b <= 2 ^ (t - 1)], that is for [t] about
    [b + log2 b + 1].  The proof bounds the least common multiple [L] of [1 .. m] from
    both sides: every [(n + 1) * C(n, k)] with [n < m] divides it, so that
    [2 ^ n <= L] for [m = 2 n + 1]; and no prime power above [m] divides it, so that
    [L <= m ^ k] when it has [k] prime divisors. *)

From stdpp Require Import base tactics list.
From Stdlib Require Import ZArith Lia Znumtheory Zdivisibility.
From S2P Require Import Prelude ModArith Gmp.

Local Open Scope Z_scope.

(** ** Binomial coefficients *)

Fixpoint binom (n k : nat) : Z :=
  match n, k with
  | _, O => 1
  | O, S _ => 0
  | S n, S k => binom n k + binom n (S k)
  end.

Lemma binom_0_r n : binom n 0 = 1.
Proof. by destruct n. Qed.

Lemma binom_step n k : binom (S n) (S k) = binom n k + binom n (S k).
Proof. done. Qed.

Lemma binom_nonneg n k : 0 <= binom n k.
Proof. revert k. induction n as [|n IH]; intros [|k]; cbn [binom]; [lia..|]. pose proof (IH k). pose proof (IH (S k)). lia. Qed.

Lemma binom_absorb n k : (Z.of_nat k + 1) * binom (S n) (S k) = (Z.of_nat n + 1) * binom n k.
Proof.
  revert k. induction n as [|n IH]; intros k; [by destruct k; cbn; lia|]. rewrite (binom_step (S n) k). destruct k as [|k].
  - pose proof (IH 0%nat) as H. rewrite !binom_0_r in *. lia.
  - pose proof (IH k) as H1. pose proof (IH (S k)) as H2. rewrite (binom_step n k) in *. lia.
Qed.

Lemma binom_central n : 2 ^ Z.of_nat n <= binom (2 * n) n.
Proof.
  induction n as [|n IH]; [done|]. replace (2 * S n)%nat with (S (S (2 * n))) by lia.
  pose proof (binom_absorb (S (2 * n)) n) as Ha. assert (E : binom (S (S (2 * n))) (S n) = 2 * binom (S (2 * n)) n) by nia. rewrite E.
  assert (Hm : binom (2 * n) n <= binom (S (2 * n)) n).
  { destruct n as [|n]; [done|]. rewrite binom_step. pose proof (binom_nonneg (2 * S n) n). lia. }
  rewrite Nat2Z.inj_succ, Z.pow_succ_r by lia. lia.
Qed.

(** ** The least common multiple of [1 .. m] *)

Fixpoint lcm_upto (m : nat) : Z :=
  match m with O => 1 | S k => Z.lcm (Z.of_nat (S k)) (lcm_upto k) end.

Lemma lcm_upto_pos m : 0 < lcm_upto m.
Proof.
  induction m as [|m IH]; cbn [lcm_upto]; [lia|]. pose proof (Z.lcm_nonneg (Z.of_nat (S m)) (lcm_upto m)).
  assert (Z.lcm (Z.of_nat (S m)) (lcm_upto m) <> 0); [|lia]. intros E. apply Z.lcm_eq_0 in E. lia.
Qed.

Lemma lcm_upto_divide m k : 0 < k <= Z.of_nat m -> (k | lcm_upto m).
Proof.
  induction m as [|m IH]; intros Hk; [lia|]. cbn [lcm_upto]. destruct (Z.eq_dec k (Z.of_nat (S m))) as [->|]; [apply Z.divide_lcm_l|].
  etransitivity; [apply IH; lia|apply Z.divide_lcm_r].
Qed.

(** The denominators of Leibniz's triangle divide it. *)
Lemma lcm_upto_binom k n m : (k <= n)%nat -> (n < m)%nat -> ((Z.of_nat n + 1) * binom n k | lcm_upto m).
Proof.
  revert n. induction k as [|k IH]; intros n Hk Hm; [rewrite binom_0_r, Z.mul_1_r; apply lcm_upto_divide; lia|].
  destruct n as [|n]; [lia|]. destruct (IH n ltac:(lia) ltac:(lia)) as [c1 H1]. destruct (IH (S n) ltac:(lia) ltac:(lia)) as [c2 H2].
  rewrite <- binom_absorb in H1. pose proof (binom_absorb (S n) k) as H3. rewrite (binom_step (S n) k) in H3.
  exists (c1 - c2). set (A := binom (S n) k) in *. set (B := binom (S n) (S k)) in *.
  apply (Z.mul_reg_l _ _ (Z.of_nat k + 1)); [lia|]. set (K := Z.of_nat k + 1) in *. set (N := Z.of_nat (S n) + 1) in *.
  assert (Hkb : K * B = N * A - K * A) by lia. set (L := lcm_upto m) in *.
  replace (K * ((c1 - c2) * (N * B))) with (N * (c1 * (K * B)) - c2 * N * (K * B)) by ring. rewrite <- H1, Hkb.
  replace (c2 * N * (N * A - K * A)) with (N * (c2 * (N * A)) - K * (c2 * (N * A))) by ring. rewrite <- H2. ring.
Qed.

(** ** Prime powers *)

#[local] Instance divide_dec p n : Decision (p | n).
Proof.
  destruct (decide (p = 0)) as [->|Hp].
  - destruct (decide (n = 0)) as [->|Hn]; [left; by exists 0|right; by intros H%Z.divide_0_l].
  - destruct (decide (n mod p = 0)) as [H|H]; [left|right]; by rewrite <- Z.mod_divide.
Defined.

Lemma prime_power_lcm p a u v : Z.prime p -> 0 <= a -> 0 < u -> 0 < v -> (p ^ a | Z.lcm u v) -> (p ^ a | u) \/ (p ^ a | v).
Proof.
  intros Hp Ha Hu Hv H. destruct (Z.gcd_divide_l u v) as [u' Eu]. destruct (Z.gcd_divide_r u v) as [v' Ev].
  pose proof (Z.gcd_nonneg u v). set (g := Z.gcd u v) in *. assert (Hg : g <> 0) by (intros E; subst g; nia).
  assert (Hl : (Z.lcm u v | g * u' * v')) by (apply Z.lcm_least; [exists v'; lia|exists u'; lia]).
  assert (Hd : (p ^ a | g * u' * v')) by (by etransitivity).
  assert (Hcop : Z.gcd u' v' = 1).
  { replace u' with (u / g) by (rewrite Eu; apply Z.div_mul; done). replace v' with (v / g) by (rewrite Ev; apply Z.div_mul; done).
    apply Z.gcd_div_gcd; [done|reflexivity]. }
  destruct (decide (p | u')) as [Hpu|Hpu].
  - left. assert (Hpv : ~ (p | v')).
    { intros Hpv. assert (Hp1 : (p | 1)) by (rewrite <- Hcop; by apply Z.gcd_greatest). apply Z.divide_1_r in Hp1. pose proof (Z.prime_ge_2 p Hp). lia. }
    apply (Z.gauss _ v'); [rewrite Eu; by replace (v' * (u' * g)) with (g * u' * v') by ring|]. by apply Z.coprime_pow_l, Z.coprime_prime_l.
  - right. apply (Z.gauss _ u'); [rewrite Ev; by replace (u' * (v' * g)) with (g * u' * v') by ring|]. by apply Z.coprime_pow_l, Z.coprime_prime_l.
Qed.

Lemma lcm_upto_power m p a : Z.prime p -> 0 < a -> (p ^ a | lcm_upto m) -> p ^ a <= Z.of_nat m.
Proof.
  intros Hp Ha. pose proof (Z.prime_ge_2 p Hp). induction m as [|m IH]; cbn [lcm_upto]; intros H1.
  - apply Z.divide_1_r_nonneg in H1; [|lia]. pose proof (Z.pow_gt_1 p a ltac:(lia)). lia.
  - apply prime_power_lcm in H1 as [H1|H1]; [|apply IH in H1; lia|done|lia|lia|apply lcm_upto_pos]. apply Z.divide_pos_le in H1; lia.
Qed.

Lemma split_power p n : Z.prime p -> 0 < n -> exists a r, 0 <= a /\ 0 < r /\ n = p ^ a * r /\ ~ (p | r).
Proof.
  intros Hp. pose proof (Z.prime_ge_2 p Hp). induction n as [n IH] using (well_founded_ind (Z.lt_wf 0)). intros Hn.
  destruct (decide (p | n)) as [[k Ek]|Hd]; [|exists 0, n; rewrite Z.pow_0_r; split_and!; lia || done].
  destruct (IH k) as (a & r & Ha & Hr & E & Hnd); [nia|nia|]. exists (a + 1), r. rewrite Z.pow_add_r, Z.pow_1_r by lia. split_and!; [lia..| |done]. rewrite Ek, E. ring.
Qed.

(** A number is at most the product of the largest prime powers that divide it. *)
Lemma prime_powers_bound m (S : list Z) n : 1 <= m -> 0 < n ->
  (forall p, Z.prime p -> (p | n) -> p ∈ S) -> (forall p a, Z.prime p -> 0 < a -> (p ^ a | n) -> p ^ a <= m) -> n <= m ^ Z.of_nat (length S).
Proof.
  intros Hm. revert n. induction S as [|p S IH]; intros n Hn Hin Hpow.
  - cbn [length]. rewrite Z.pow_0_r. destruct (Z.le_gt_cases n 1) as [|H1]; [done|]. destruct (prime_divisor_exists n H1) as (p & Hp & Hd). by apply (Hin p), not_elem_of_nil in Hp.
  - cbn [length]. rewrite Nat2Z.inj_succ, Z.pow_succ_r by lia. assert (Hpos : 0 < m ^ Z.of_nat (length S)) by (apply Z.pow_pos_nonneg; lia).
    assert (Hskip : (forall q, Z.prime q -> (q | n) -> q <> p) -> n <= m * m ^ Z.of_nat (length S)).
    { intros Hne. assert (n <= m ^ Z.of_nat (length S)); [|nia]. apply IH; [done| |done]. intros q Hq Hd. pose proof (Hin q Hq Hd) as H. apply elem_of_cons in H as [->|H]; [by destruct (Hne p)|done]. }
    destruct (decide (primeb p = true)) as [Hp%primeb_spec|Hp]; [|apply Hskip; intros q Hq _ ->; by apply Hp, primeb_spec].
    destruct (split_power p n Hp Hn) as (a & r & Ha & Hr & En & Hnd).
    assert (Hrest : r <= m ^ Z.of_nat (length S)).
    { apply IH; [done| |].
      - intros q Hq Hd. assert (Hqn : (q | n)) by (rewrite En; by apply Z.divide_mul_r). pose proof (Hin q Hq Hqn) as H. apply elem_of_cons in H as [->|H]; done.
      - intros q b Hq Hb Hd. apply Hpow; [done..|]. rewrite En. by apply Z.divide_mul_r. }
    assert (Hpa : p ^ a <= m).
    { destruct (Z.eq_dec a 0) as [->|Ha0]; [rewrite Z.pow_0_r; lia|]. apply Hpow; [done|lia|]. rewrite En. apply Z.divide_factor_l. }
    rewrite En. pose proof (Z.prime_ge_2 p Hp). assert (0 < p ^ a) by (apply Z.pow_pos_nonneg; lia). nia.
Qed.

(** ** Primes of a given length *)

(** Too few primes below [2 n + 2] would make the common multiple too small. *)
Lemma primes_needed n x : 0 <= x -> (forall p, Z.prime p -> p <= 2 * Z.of_nat n + 1 -> p <= x) -> 2 ^ Z.of_nat n <= (2 * Z.of_nat n + 1) ^ x.
Proof.
  intros Hx Hno. set (m := (2 * n + 1)%nat). assert (Em : Z.of_nat m = 2 * Z.of_nat n + 1) by lia.
  assert (Hlow : 2 ^ Z.of_nat n <= lcm_upto m).
  { pose proof (lcm_upto_binom n (2 * n) m ltac:(lia) ltac:(lia)) as Hd. apply Z.divide_pos_le in Hd; [|apply lcm_upto_pos].
    pose proof (binom_central n). pose proof (binom_nonneg (2 * n) n). nia. }
  etransitivity; [exact Hlow|]. rewrite <- Em.
  replace x with (Z.of_nat (length (Z.of_nat <$> seq 1 (Z.to_nat x)))) at 1 by (rewrite length_fmap, length_seq; lia).
  apply prime_powers_bound; [lia|apply lcm_upto_pos| |intros p a Hp Ha; by apply lcm_upto_power].
  intros p Hp Hd. pose proof (Z.prime_ge_2 p Hp). assert (Hle : p <= x).
  { apply Hno; [done|]. rewrite <- Em. replace p with (p ^ 1) at 1 by apply Z.pow_1_r. apply lcm_upto_power; [done|lia|by rewrite Z.pow_1_r]. }
  apply list_elem_of_fmap. exists (Z.to_nat p). split; [lia|]. apply elem_of_seq. lia.
Qed.

Lemma prime_of_length b t x : 1 <= b -> 0 <= x < 2 ^ b -> 0 < t -> t * 2 ^ b <= 2 ^ (t - 1) -> exists p, Z.prime p /\ x < p < 2 ^ t.
Proof.
  intros Hb Hx Ht Hbt. assert (Hb2 : 2 <= 2 ^ b) by (change 2 with (2 ^ 1) at 1; apply Z.pow_le_mono_r; lia).
  assert (Ht2 : 2 <= t) by (destruct (Z.eq_dec t 1) as [->|]; [cbn in Hbt; lia|lia]).
  assert (E2 : 2 ^ t = 2 * 2 ^ (t - 1)) by (rewrite <- Z.pow_succ_r by lia; f_equal; lia).
  pose proof (search_spec (Z.to_nat t) (fun k => primeb k && (k <? 2 ^ t)) (x + 1)) as Hs. rewrite Z2Nat.id in Hs by lia.
  destruct (search _ _ (x + 1)) as [p|].
  - destruct Hs as (Hr & [Hp%primeb_spec Hl%Z.ltb_lt]%andb_true_iff & _). exists p. split; [done|lia].
  - exfalso. assert (Hn : 2 ^ Z.of_nat (Z.to_nat (2 ^ (t - 1) - 1)) <= (2 * Z.of_nat (Z.to_nat (2 ^ (t - 1) - 1)) + 1) ^ x).
    { apply primes_needed; [lia|]. intros p Hp Hle. destruct (Z.le_gt_cases p x) as [|Hgt]; [done|]. pose proof (Hs p) as Hf.
      apply primeb_spec in Hp. rewrite Hp in Hf. cbn [andb] in Hf. assert (Hlt : p < 2 ^ t) by lia. apply Z.ltb_lt in Hlt. rewrite Hlt in Hf. apply Z.ltb_lt in Hlt.
      assert (true = false) by (apply Hf; lia). done. }
    rewrite Z2Nat.id in Hn by lia.
    assert (Hup : (2 * (2 ^ (t - 1) - 1) + 1) ^ x <= 2 ^ (t * x)) by (rewrite Z.pow_mul_r by lia; apply Z.pow_le_mono_l; lia).
    assert (Hle : 2 ^ (t - 1) - 1 <= t * x) by (apply (Z.pow_le_mono_r_iff 2); [lia|nia|lia]). nia.
Qed.
