(* ===== verification/PaillierUtils.v ===== *)
(** * Helpers of the optimised Paillier library

    Models [algorithm/opt_paillier/src/utils.cc]: the integer logarithms and
    the random integer [aby_prng] builds from the bytes of [/dev/urandom].  The
    bytes read are an argument; opening and reading the device is not
    modelled. *)

From stdpp Require Import base tactics list option.
From Stdlib Require Import ZArith Lia.
From S2P Require Import Prelude.

Local Open Scope Z_scope.

(** ** Logarithms on [int] *)

(** [while (bitstemp >>= 1) ++targetlevel;].  On a negative [int] the
    arithmetic shift never reaches zero; [None] stands for running on. *)
Fixpoint shift_loop (fuel : nat) (bitstemp targetlevel : Z) : option Z :=
  match fuel with
  | O => None
  | S k =>
      let b := Z.shiftr bitstemp 1 in
      if b =? 0 then Some targetlevel else shift_loop k b (targetlevel + 1)
  end.

(** An [int] has 32 bits, so 32 iterations are enough when the loop ends. *)
Definition int_bits : nat := 32.

Definition round_up (bits targetlevel : Z) : Z :=
  targetlevel + (if Z.shiftl 1 targetlevel <? bits then 1 else 0).

Definition ceil_log2 (bits : Z) : option Z :=
  if bits =? 1 then Some 1
  else round_up bits <$> shift_loop int_bits bits 0.

Definition ceil_log2_min1 (bits : Z) : option Z :=
  if bits <=? 1 then Some 1
  else round_up bits <$> shift_loop int_bits bits 0.

Definition ceil_log2_real (bits : Z) : option Z :=
  if bits =? 1 then Some 0
  else round_up bits <$> shift_loop int_bits bits 0.

Definition floor_log2 (bits : Z) : option Z :=
  if bits =? 1 then Some 1 else shift_loop int_bits bits 0.

(** ** Random integers *)

Definition ceil_divide (x y : Z) : Z := (x + y - 1) / y.

(** [mpz_import(rnd, byte_count, 1, 1, 0, 0, data)]: most significant byte first. *)
Definition mpz_import (data : list Z) : Z :=
  fold_left (fun acc b => acc * 256 + b) data 0.

Definition clear_msbs (rnd byte_count : Z) (count : nat) : Z :=
  fold_left (fun r i => Z.clearbit r (byte_count * 8 - Z.of_nat i - 1)) (seq 0 count) rnd.

(** [data] are the [ceil_divide(bitlen, 8)] bytes read from the device. *)
Definition aby_prng (data : list Z) (bitlen : Z) : Z :=
  let byte_count := ceil_divide bitlen 8 in
  let rnd := mpz_import data in
  if bitlen mod 8 =? 0 then rnd
  else clear_msbs rnd byte_count (Z.to_nat (8 - bitlen mod 8)).

(** What a successful read of the device delivers for [bitlen] bits. *)
Definition device_bytes (data : list Z) (bitlen : Z) : Prop :=
  Z.of_nat (length data) = ceil_divide bitlen 8 /\ Forall (fun b => 0 <= b < 256) data.

(** ** Lemmas *)

Lemma shift_loop_log2 fuel bits lvl :
  0 < bits < 2 ^ Z.of_nat fuel -> shift_loop fuel bits lvl = Some (lvl + Z.log2 bits).
Proof.
  revert bits lvl. induction fuel as [|fuel IH]; intros bits lvl Hb.
  { simpl in Hb. lia. }
  cbn [shift_loop]. rewrite Z.shiftr_div_pow2 by lia. change (2 ^ 1) with 2.
  rewrite Nat2Z.inj_succ, Z.pow_succ_r in Hb by lia.
  destruct (Z.eqb_spec (bits / 2) 0) as [E|E].
  - assert (bits = 1) as -> by (apply Z.div_small_iff in E; lia).
    simpl. f_equal. lia.
  - assert (H1 : 0 < bits / 2 < 2 ^ Z.of_nat fuel).
    { split; [pose proof (Z.div_pos bits 2); lia|apply Z.div_lt_upper_bound; lia]. }
    rewrite IH by done. f_equal.
    assert (E2 : Z.log2 (bits / 2) = Z.log2 bits - 1).
    { assert (1 < bits).
      { destruct (Z.lt_ge_cases 1 bits); [done|]. rewrite Z.div_small in H1; lia. }
      pose proof (Z.log2_pos bits ltac:(lia)).
      change 2 with (2 ^ 1). rewrite <- Z.shiftr_div_pow2, Z.log2_shiftr by lia. lia. }
    lia.
Qed.

Lemma shift_loop_negative fuel bits lvl : bits < 0 -> shift_loop fuel bits lvl = None.
Proof.
  revert bits lvl. induction fuel as [|fuel IH]; intros bits lvl Hb; [done|].
  cbn [shift_loop].
  assert (Z.shiftr bits 1 < 0) by by apply Z.shiftr_neg.
  destruct (Z.eqb_spec (Z.shiftr bits 1) 0); [lia|]. by apply IH.
Qed.

Lemma round_up_log2 bits : 1 < bits -> round_up bits (Z.log2 bits) = Z.log2_up bits.
Proof.
  intros Hb. unfold round_up. rewrite Z.shiftl_1_l.
  pose proof (Z.log2_spec bits ltac:(lia)). pose proof (Z.log2_nonneg bits).
  destruct (Z.ltb_spec (2 ^ Z.log2 bits) bits) as [Hlt|Hge].
  - symmetry. apply Z.log2_up_unique; [lia|].
    replace (Z.pred (Z.log2 bits + 1)) with (Z.log2 bits) by lia.
    rewrite <- Z.add_1_r in *. lia.
  - rewrite Z.add_0_r. assert (E : bits = 2 ^ Z.log2 bits) by lia.
    rewrite E at 2. by rewrite Z.log2_up_pow2.
Qed.

Lemma shift_loop_round bits : 1 < bits < 2 ^ 31 ->
  round_up bits <$> shift_loop int_bits bits 0 = Some (Z.log2_up bits).
Proof.
  intros Hb. rewrite shift_loop_log2 by (unfold int_bits; change (2 ^ Z.of_nat 32) with (2 * 2 ^ 31); lia).
  simpl. by rewrite round_up_log2 by lia.
Qed.

Lemma mpz_import_bound_acc data acc : 0 <= acc -> Forall (fun b => 0 <= b < 256) data ->
  acc * 256 ^ Z.of_nat (length data)
    <= fold_left (fun a b => a * 256 + b) data acc
    < (acc + 1) * 256 ^ Z.of_nat (length data).
Proof.
  intros Ha Hf. revert acc Ha. induction Hf as [|b data Hb Hf IH]; intros acc Ha.
  - simpl. lia.
  - cbn [fold_left length]. rewrite Nat2Z.inj_succ, Z.pow_succ_r by lia.
    specialize (IH (acc * 256 + b) ltac:(lia)).
    assert (0 < 256 ^ Z.of_nat (length data)) by (apply Z.pow_pos_nonneg; lia). nia.
Qed.

Lemma mpz_import_bound data : Forall (fun b => 0 <= b < 256) data ->
  0 <= mpz_import data < 2 ^ (8 * Z.of_nat (length data)).
Proof.
  intros Hf. pose proof (mpz_import_bound_acc data 0 ltac:(lia) Hf) as H.
  unfold mpz_import. rewrite Z.pow_mul_r by lia. change (2 ^ 8) with 256. lia.
Qed.

Lemma bits_above_bound x n : 0 <= n -> 0 <= x ->
  (forall i, n <= i -> Z.testbit x i = false) -> x < 2 ^ n.
Proof.
  intros Hn Hx H. destruct (Z.eq_dec x 0) as [->|].
  { apply Z.pow_pos_nonneg; lia. }
  apply Z.log2_lt_pow2; [lia|].
  destruct (Z.lt_ge_cases (Z.log2 x) n) as [|Hge]; [done|].
  specialize (H _ Hge). rewrite Z.bit_log2 in H by lia. done.
Qed.

Lemma clear_msbs_testbit rnd bc count i :
  0 <= bc * 8 - Z.of_nat count ->
  Z.testbit (clear_msbs rnd bc count) i =
    Z.testbit rnd i && negb ((bc * 8 - Z.of_nat count <=? i) && (i <? bc * 8)).
Proof.
  unfold clear_msbs. induction count as [|count IH]; intros Hc.
  { simpl. destruct (Z.leb_spec (bc * 8 - Z.of_nat 0) i), (Z.ltb_spec i (bc * 8));
      simpl; rewrite ?andb_true_r; done || lia. }
  rewrite seq_S, fold_left_app. cbn [fold_left]. rewrite Z.clearbit_eqb by lia.
  simpl (0 + count)%nat. rewrite IH by lia.
  destruct (Z.testbit rnd i); simpl; [|done].
  destruct (Z.eqb_spec (bc * 8 - Z.of_nat count - 1) i), (Z.leb_spec (bc * 8 - Z.of_nat count) i),
    (Z.leb_spec (bc * 8 - Z.of_nat (S count)) i), (Z.ltb_spec i (bc * 8)); simpl; done || lia.
Qed.

Lemma clear_msbs_nonneg rnd bc count : 0 <= rnd -> 0 <= clear_msbs rnd bc count.
Proof.
  unfold clear_msbs. generalize (seq 0 count). intros l. revert rnd.
  induction l as [|i l IH]; intros rnd H; simpl; [done|].
  apply IH. unfold Z.clearbit. apply Z.ldiff_nonneg. auto.
Qed.

Lemma aby_prng_range data bitlen : 0 <= bitlen -> device_bytes data bitlen ->
  0 <= aby_prng data bitlen < 2 ^ bitlen.
Proof.
  intros Hb [Hlen Hf]. pose proof (mpz_import_bound data Hf) as Hi.
  unfold ceil_divide in Hlen. unfold aby_prng.
  pose proof (Z.div_mod bitlen 8 ltac:(lia)) as Hdm.
  pose proof (Z.mod_pos_bound bitlen 8 ltac:(lia)) as Hm.
  destruct (Z.eqb_spec (bitlen mod 8) 0) as [E|E].
  - assert (Z.of_nat (length data) = bitlen / 8) as El.
    { rewrite Hlen. symmetry. apply (Z.div_unique_pos _ _ _ 7); lia. }
    rewrite El in Hi. replace (8 * (bitlen / 8)) with bitlen in Hi by lia. done.
  - assert (Ec : ceil_divide bitlen 8 = bitlen / 8 + 1).
    { unfold ceil_divide. symmetry. apply (Z.div_unique_pos _ _ _ (bitlen mod 8 - 1)); lia. }
    unfold ceil_divide in Ec. rewrite Ec in Hlen. rewrite Hlen in Hi.
    unfold ceil_divide. rewrite Ec. split; [apply clear_msbs_nonneg; lia|].
    apply bits_above_bound; [lia|apply clear_msbs_nonneg; lia|].
    intros i Hge. rewrite clear_msbs_testbit by lia.
    rewrite Z2Nat.id by lia.
    destruct (Z.leb_spec ((bitlen / 8 + 1) * 8 - (8 - bitlen mod 8)) i); [|lia].
    destruct (Z.ltb_spec i ((bitlen / 8 + 1) * 8)); simpl; [apply andb_false_r|].
    rewrite andb_true_r.
    destruct (Z.eq_dec (mpz_import data) 0) as [->|]; [apply Z.testbit_0_l|].
    apply Z.bits_above_log2; [lia|].
    apply Z.lt_le_trans with (8 * (bitlen / 8 + 1)); [|lia].
    apply Z.log2_lt_pow2; lia.
Qed.
