(* ===== verification/PowMod.v ===== *)
(** * Fixed-base windowed exponentiation

    Models [algorithm/opt_paillier/src/powmod.cc]: the table of powers
    [base ^ (h ^ i) mod m] with [h = 2 ^ w], the base-[h] digits of the
    exponent, and the double loop that multiplies the table entries by
    decreasing digit value.  [m_e] is a heap array of [m_t + 1] slots; an
    exponent with more digits writes past it, which is [Undef]. *)

From stdpp Require Import base tactics list option.
From Stdlib Require Import ZArith Lia Zdivisibility.
From S2P Require Import Prelude ModArith Gmp.

Local Open Scope Z_scope.
Local Open Scope cong_scope.

Record fb_instance := {
  m_mod : Z;
  m_table_G : list Z;
  m_h : Z;
  m_t : Z;
  m_w : Z;
}.

(** [ROUNDUP(a,b)] on [size_t] operands. *)
Definition ROUNDUP (a b : Z) : Z := ((a - 1) mod 2 ^ 64) / b + 1.

Section ops.
Context `{G : GmpOps}.

Definition fbpowmod_init_extend (base mod_ maxbits winsize : Z) : fb_instance :=
  let h := Z.shiftl 1 winsize in
  let t := ROUNDUP maxbits winsize in
  {| m_w := winsize;
     m_h := h;
     m_t := t;
     m_mod := mod_;
     m_table_G := (fun i : nat => mpz_powm base (h ^ Z.of_nat i) mod_)
                    <$> seq 0 (Z.to_nat (t + 1)) |}.
End ops.

(** The digit loop: [slots] is what is left of the array [m_e]. *)
Fixpoint fb_digits (slots : nat) (h w m_exp : Z) : res (list Z) :=
  if m_exp <=? 0 then Ret []
  else match slots with
       | O => Undef
       | S k => ds ← fb_digits k h w (Z.shiftr m_exp w); Ret (m_exp mod h :: ds)
       end.

(** [for i < t: if (m_e[i] == j) temp = temp * G[i] mod m]. *)
Definition fb_inner (mod_ j : Z) (l : list (Z * Z)) (temp : Z) : Z :=
  fold_left (fun tmp eg => if eg.1 =? j then (tmp * eg.2) mod mod_ else tmp) l temp.

(** [for j = h - 1 .. 1: inner; result = result * temp mod m]. *)
Fixpoint fb_outer (mod_ : Z) (j : nat) (l : list (Z * Z)) (temp result : Z) : Z :=
  match j with
  | O => result
  | S k =>
      let temp' := fb_inner mod_ (Z.of_nat j) l temp in
      fb_outer mod_ k l temp' ((result * temp') mod mod_)
  end.

Definition fbpowmod_extend (fb : fb_instance) (exp : Z) : res Z :=
  m_e ← fb_digits (Z.to_nat (m_t fb + 1)) (m_h fb) (m_w fb) exp;
  Ret (fb_outer (m_mod fb) (Z.to_nat (m_h fb - 1)) (zip m_e (m_table_G fb)) 1 1).

(** ** Lemmas on the loops *)

Section loops.
Context (m : Z) (Hm : 0 < m).

(** Product of the entries whose digit is at least [j]. *)
Definition geprod (j : Z) (l : list (Z * Z)) : Z :=
  foldr (fun eg acc => (if j <=? eg.1 then eg.2 else 1) * acc) 1 l.

(** Product of the entries, each to the power of its digit capped at [j]. *)
Definition powprod (j : Z) (l : list (Z * Z)) : Z :=
  foldr (fun eg acc => eg.2 ^ Z.min eg.1 j * acc) 1 l.

Lemma fb_inner_cong j l temp t : temp =[ m ]= t ->
  fb_inner m j l temp =[ m ]= t * foldr (fun eg acc => (if eg.1 =? j then eg.2 else 1) * acc) 1 l.
Proof.
  revert temp t. induction l as [|[e g] l IH]; intros temp t Ht; simpl.
  - by rewrite Z.mul_1_r.
  - destruct (e =? j).
    + etransitivity; [apply IH|rewrite Z.mul_assoc; reflexivity].
      rewrite mod_cong by lia. by rewrite Ht.
    + rewrite Z.mul_1_l. by apply IH.
Qed.

Lemma geprod_step j l :
  geprod j l = geprod (j + 1) l * foldr (fun eg acc => (if eg.1 =? j then eg.2 else 1) * acc) 1 l.
Proof.
  induction l as [|[e g] l IH]; simpl; [done|]. rewrite IH.
  destruct (Z.leb_spec j e), (Z.leb_spec (j + 1) e), (Z.eqb_spec e j); lia || ring.
Qed.

Lemma powprod_step j l : 0 <= j -> Forall (fun eg => 0 <= eg.1) l ->
  powprod (j + 1) l = powprod j l * geprod (j + 1) l.
Proof.
  intros Hj. induction 1 as [|[e g] l He Hf IH]; simpl in *; [done|]. rewrite IH.
  destruct (Z.leb_spec (j + 1) e).
  - rewrite !Z.min_r by lia. rewrite Z.pow_add_r, Z.pow_1_r by lia. ring.
  - rewrite !Z.min_l by lia. ring.
Qed.

Lemma powprod_0 l : Forall (fun eg => 0 <= eg.1) l -> powprod 0 l = 1.
Proof. induction 1 as [|[e g] l He Hf IH]; simpl in *; [done|]. rewrite IH, Z.min_r by lia. done. Qed.

Lemma fb_outer_cong j l temp result r :
  Forall (fun eg => 0 <= eg.1) l ->
  temp =[ m ]= geprod (Z.of_nat j + 1) l -> result =[ m ]= r ->
  fb_outer m j l temp result =[ m ]= r * powprod (Z.of_nat j) l.
Proof.
  intros Hf. revert temp result r. induction j as [|j IH]; intros temp result r Ht Hr.
  { simpl. rewrite powprod_0, Z.mul_1_r by done. done. }
  cbn [fb_outer]. set (temp' := fb_inner m (Z.of_nat (S j)) l temp).
  assert (Ht' : temp' =[ m ]= geprod (Z.of_nat j + 1) l).
  { unfold temp'. rewrite (fb_inner_cong _ _ _ _ Ht), <- geprod_step.
    replace (Z.of_nat (S j)) with (Z.of_nat j + 1) by lia. reflexivity. }
  rewrite (IH temp' _ (r * temp')); [|done|rewrite mod_cong, Hr by lia; reflexivity].
  replace (Z.of_nat (S j)) with (Z.of_nat j + 1) by lia.
  rewrite powprod_step, Ht' by (done || lia). 
  replace (r * geprod (Z.of_nat j + 1) l * powprod (Z.of_nat j) l)
    with (r * (powprod (Z.of_nat j) l * geprod (Z.of_nat j + 1) l)) by ring. reflexivity.
Qed.

Lemma fb_outer_range j l temp result : (0 < j)%nat -> 0 <= fb_outer m j l temp result < m.
Proof.
  revert temp result. induction j as [|j IH]; intros temp result Hj; [lia|].
  cbn [fb_outer]. destruct j as [|j].
  - simpl. apply Z.mod_pos_bound. lia.
  - apply IH. lia.
Qed.
End loops.

(** ** Lemmas on the digits *)

(** The number a list of base-[h] digits stands for, least digit first. *)
Definition of_digits (h : Z) (ds : list Z) : Z := foldr (fun d acc => d + h * acc) 0 ds.

Lemma fb_digits_ok slots w e : 0 < w -> 0 <= e < 2 ^ (w * Z.of_nat slots) ->
  exists ds, fb_digits slots (2 ^ w) w e = Ret ds /\ of_digits (2 ^ w) ds = e /\
    Forall (fun d => 0 <= d < 2 ^ w) ds /\ (length ds <= slots)%nat.
Proof.
  intros Hw. revert e. induction slots as [|k IH]; intros e He.
  { rewrite Z.mul_0_r in He. assert (e = 0) as -> by (simpl in He; lia).
    exists []. repeat split; constructor. }
  cbn [fb_digits]. destruct (Z.leb_spec e 0) as [Hle|Hgt].
  { assert (e = 0) as -> by lia. exists []. repeat split; [constructor|simpl; lia]. }
  assert (H2 : 0 < 2 ^ w) by (apply Z.pow_pos_nonneg; lia).
  rewrite Z.shiftr_div_pow2 by lia.
  destruct (IH (e / 2 ^ w)) as (ds & E & Ev & Hd & Hlen).
  { split; [apply Z.div_pos; lia|]. apply Z.div_lt_upper_bound; [lia|].
    rewrite <- Z.pow_add_r by lia. replace (w + w * Z.of_nat k) with (w * Z.of_nat (S k)) by lia. lia. }
  rewrite E. exists (e mod 2 ^ w :: ds). repeat split; simpl; [|constructor; [|done]|lia].
  - rewrite Ev. pose proof (Z.div_mod e (2 ^ w)). lia.
  - apply Z.mod_pos_bound. lia.
Qed.

(** One digit too many for the array: the loop runs past it. *)
Lemma fb_digits_overflow slots w e : 0 < w -> 2 ^ (w * Z.of_nat slots) <= e ->
  fb_digits slots (2 ^ w) w e = Undef.
Proof.
  intros Hw. revert e. induction slots as [|k IH]; intros e He.
  { rewrite Z.mul_0_r in He. simpl in *. destruct (Z.leb_spec e 0); [lia|done]. }
  assert (0 < 2 ^ (w * Z.of_nat (S k))) by (apply Z.pow_pos_nonneg; lia).
  cbn [fb_digits]. destruct (Z.leb_spec e 0) as [|_]; [lia|].
  rewrite Z.shiftr_div_pow2 by lia. rewrite IH; [done|].
  apply Z.div_le_lower_bound; [apply Z.pow_pos_nonneg; lia|].
  rewrite <- Z.pow_add_r by lia. replace (w + w * Z.of_nat k) with (w * Z.of_nat (S k)) by lia. lia.
Qed.

(** ** The whole routine *)

Section correct.
Context `{GL : GmpLaws}.
Context (base m : Z) (Hm : 0 < m).

Lemma powprod_table ds s j h : 0 < h -> Forall (fun d => 0 <= d < h) ds -> h - 1 <= j ->
  forall n, (length ds <= n)%nat ->
  powprod j (zip ds ((fun i : nat => mpz_powm base (h ^ Z.of_nat i) m) <$> seq s n))
    =[ m ]= base ^ (h ^ Z.of_nat s * of_digits h ds).
Proof.
  intros Hh Hf Hj. revert s. induction Hf as [|d ds Hd Hf IH]; intros s n Hn; simpl in *.
  { rewrite Z.mul_0_r. reflexivity. }
  destruct n as [|n]; [lia|]. simpl. rewrite (IH (S s) n) by lia.
  rewrite Z.min_l by lia. 
  assert (0 <= h ^ Z.of_nat s) by (apply Z.pow_nonneg; lia).
  assert (0 <= of_digits h ds).
  { clear -Hh Hf. induction Hf; simpl; [lia|]. nia. }
  rewrite mpz_powm_spec, mod_cong by lia.
  rewrite <- Z.pow_mul_r, <- Z.pow_add_r by (try apply Z.mul_nonneg_nonneg; try apply Z.pow_nonneg; lia).
  rewrite Nat2Z.inj_succ, Z.pow_succ_r by lia.
  replace (h ^ Z.of_nat s * d + h * h ^ Z.of_nat s * of_digits h ds)
    with (h ^ Z.of_nat s * (d + h * of_digits h ds)) by ring. reflexivity.
Qed.

Lemma fbpowmod_extend_ok maxbits w e :
  0 < w -> 0 < maxbits < 2 ^ 64 -> 0 <= e < 2 ^ (w * (ROUNDUP maxbits w + 1)) ->
  fbpowmod_extend (fbpowmod_init_extend base m maxbits w) e = Ret (base ^ e mod m).
Proof.
  intros Hw Hmb He.
  assert (Ht : 0 <= ROUNDUP maxbits w).
  { unfold ROUNDUP. rewrite Z.mod_small by lia.
    pose proof (Z.div_pos (maxbits - 1) w). lia. }
  assert (2 <= 2 ^ w) by (change 2 with (2 ^ 1) at 1; apply Z.pow_le_mono_r; lia).
  unfold fbpowmod_extend, fbpowmod_init_extend. cbn [m_t m_h m_w m_mod m_table_G].
  rewrite Z.shiftl_1_l. set (t := ROUNDUP maxbits w) in *.
  destruct (fb_digits_ok (Z.to_nat (t + 1)) w e) as (ds & -> & Ev & Hd & Hlen);
    [done|rewrite Z2Nat.id by lia; done|].
  simpl. f_equal. symmetry. apply mod_eq_cong; [apply fb_outer_range; lia|].
  assert (Hp : base ^ e =[ m ]=
    powprod (2 ^ w - 1) (zip ds ((fun i : nat => mpz_powm base ((2 ^ w) ^ Z.of_nat i) m)
      <$> seq 0 (Z.to_nat (t + 1))))).
  { rewrite powprod_table by (done || lia). simpl. rewrite Z.mul_1_l, Ev. reflexivity. }
  rewrite Hp. symmetry. rewrite (fb_outer_cong m Hm _ _ _ _ 1).
  - rewrite Z.mul_1_l, Z2Nat.id by lia. reflexivity.
  - clear -Hd. generalize ((fun i : nat => mpz_powm base ((2 ^ w) ^ Z.of_nat i) m)
      <$> seq 0 (Z.to_nat (t + 1))). induction Hd as [|d ds Hd0 Hd IH]; intros [|g l]; simpl;
      constructor; simpl; [lia|apply IH].
  - rewrite Z2Nat.id by lia. replace (2 ^ w - 1 + 1) with (2 ^ w) by lia.
    enough (forall l, geprod (2 ^ w) (zip ds l) = 1) as -> by reflexivity.
    clear -Hd. induction Hd as [|d ds Hd0 Hd IH]; intros [|g l]; simpl; [done..|].
    rewrite IH. destruct (Z.leb_spec (2 ^ w) d); lia.
  - reflexivity.
Qed.

(** What the callers use: [maxbits] bits always fit. *)
Lemma roundup_covers maxbits w : 0 < w -> 0 < maxbits < 2 ^ 64 ->
  maxbits <= w * (ROUNDUP maxbits w + 1).
Proof.
  intros Hw Hmb. unfold ROUNDUP. rewrite Z.mod_small by lia.
  pose proof (Z.mul_succ_div_gt (maxbits - 1) w ltac:(lia)). lia.
Qed.

Lemma fbpowmod_extend_bits maxbits w e :
  0 < w -> 0 < maxbits < 2 ^ 64 -> 0 <= e < 2 ^ maxbits ->
  fbpowmod_extend (fbpowmod_init_extend base m maxbits w) e = Ret (base ^ e mod m).
Proof.
  intros Hw Hmb He. apply fbpowmod_extend_ok; [done..|]. split; [lia|].
  eapply Z.lt_le_trans; [apply He|]. apply Z.pow_le_mono_r; [lia|].
  by apply roundup_covers.
Qed.
End correct.
