(* ===== verification/Paillier.v ===== *)
(** * The optimised Paillier cryptosystem

    Models [algorithm/opt_paillier/src/paillier.cc] and the two key structs of
    [include/paillier.h]: key generation from what it reads from the device, the
    three encryption routines, the two decryption routines, the homomorphic
    operations and the conversions of signed plaintexts.  Memory management
    ([mpz_init], [mpz_clear], [free]) has no counterpart on [Z]. *)

From stdpp Require Import base tactics list option.
From Stdlib Require Import ZArith Lia Zdivisibility String.
From S2P Require Import Prelude ModArith Gmp PaillierUtils PowMod.

Local Open Scope Z_scope.
Local Open Scope cong_scope.

(** ** Keys *)

Record opt_public_key_t := {
  nbits : Z;
  lbits : Z;
  n : Z;
  half_n : Z;
  n_squared : Z;
  h_s : Z;
  fb_mod_P_sqaured : fb_instance;
  fb_mod_Q_sqaured : fb_instance;
}.

Record opt_secret_key_t := {
  p : Z;
  q : Z;
  p_ : Z;
  q_ : Z;
  alpha : Z;
  beta : Z;
  P : Z;
  Q : Z;
  P_squared : Z;
  Q_squared : Z;
  double_alpha : Z;
  double_beta : Z;
  double_alpha_inverse : Z;
  P_squared_mul_P_squared_inverse : Z;
  P_mul_P_inverse : Z;
  double_p : Z;
  double_q : Z;
  Q_mul_double_p_inverse : Z;
  P_mul_double_q_inverse : Z;
}.

(** [{112, {2048, 448}}, {128, {3072, 512}}, {192, {7680, 768}}] *)
Definition mapTo_nbits_lbits (k_sec : Z) : option (Z * Z) :=
  if k_sec =? 112 then Some (2048, 448)
  else if k_sec =? 128 then Some (3072, 512)
  else if k_sec =? 192 then Some (7680, 768)
  else None.

Definition prob : Z := 30.

(** [mpz_divexact]: GMP defines the result only when the division is exact. *)
Definition mpz_divexact (a b : Z) : res Z :=
  if (b =? 0) || negb (a mod b =? 0) then Undef else Ret (a / b).

Section ops.
Context `{G : GmpOps}.

(** *** Key generation *)

(** [aby_prng(x, bits); mpz_setbit(x, bits); mpz_nextprime(x, x);] *)
Definition draw_prime (bits : Z) (data : list Z) : Z :=
  mpz_nextprime (Z.setbit (aby_prng data bits) bits).

(** A draw is one read of the device: the bytes it gives for the number of bits asked.
    Each of the four loops consumes one or two draws per turn; [None] means the draws
    supplied ran out before the loop was left. *)
Fixpoint sample_long (bits : Z) (draws : list (Z -> list Z)) : option (Z * Z * list (Z -> list Z)) :=
  match draws with
  | d1 :: d2 :: rest =>
      let p_ := draw_prime bits (d1 bits) in
      let q_ := draw_prime bits (d2 bits) in
      if p_ =? q_ then sample_long bits rest else Some (p_, q_, rest)
  | _ => None
  end.

Fixpoint sample_P (bits p_ : Z) (draws : list (Z -> list Z)) : option (Z * Z * list (Z -> list Z)) :=
  match draws with
  | d :: rest =>
      let p := draw_prime bits (d bits) in
      let P := p * p_ * 2 + 1 in
      if mpz_probab_prime_p P prob =? 0 then sample_P bits p_ rest else Some (p, P, rest)
  | [] => None
  end.

Fixpoint sample_Q (bits p q_ : Z) (draws : list (Z -> list Z)) : option (Z * Z * list (Z -> list Z)) :=
  match draws with
  | d :: rest =>
      let q := draw_prime bits (d bits) in
      if p =? q then sample_Q bits p q_ rest
      else
        let Q := q * q_ * 2 + 1 in
        if mpz_probab_prime_p Q prob =? 0 then sample_Q bits p q_ rest else Some (q, Q, rest)
  | [] => None
  end.

(** [mpz_sizeinbase(n, 2)] of a positive number is its bit length. *)
Fixpoint sample_y (n : Z) (draws : list (Z -> list Z)) : option (Z * list (Z -> list Z)) :=
  match draws with
  | d :: rest =>
      let bits := Z.log2 n + 1 + 128 in
      let y := aby_prng (d bits) bits mod n in
      if Z.gcd y n =? 1 then Some (y, rest) else sample_y n rest
  | [] => None
  end.

Definition hs_of (y double_beta n n_squared : Z) : Z :=
  mpz_powm (- mpz_powm y double_beta n) n n_squared.

(** Everything computed once the primes and [y] are drawn. *)
Definition build_keys (nb lb p q p_ q_ P Q y : Z) : opt_public_key_t * opt_secret_key_t :=
  let alpha := p * q in
  let beta := p_ * q_ in
  let double_alpha := alpha * 2 in
  let double_beta := beta * 2 in
  let P_squared := P * P in
  let Q_squared := Q * Q in
  let double_p := p * 2 in
  let double_q := q * 2 in
  let n := P * Q in
  let n_squared := n * n in
  let h_s := hs_of y double_beta n n_squared in
  ({| nbits := nb; lbits := lb;
      n := n; half_n := n / 2; n_squared := n_squared; h_s := h_s;
      fb_mod_P_sqaured := fbpowmod_init_extend (h_s mod P_squared) P_squared (lb + 1) 4;
      fb_mod_Q_sqaured := fbpowmod_init_extend (h_s mod Q_squared) Q_squared (lb + 1) 4 |},
   {| p := p; q := q; p_ := p_; q_ := q_; alpha := alpha; beta := beta; P := P; Q := Q;
      P_squared := P_squared; Q_squared := Q_squared;
      double_alpha := double_alpha; double_beta := double_beta;
      double_alpha_inverse := mpz_invert double_alpha n;
      P_squared_mul_P_squared_inverse := mpz_invert P_squared Q_squared * P_squared;
      P_mul_P_inverse := mpz_invert P Q * P;
      double_p := double_p; double_q := double_q;
      Q_mul_double_p_inverse := mpz_invert (Q * double_p) P;
      P_mul_double_q_inverse := mpz_invert (P * double_q) Q |}).

Definition keygen_with (nb lb : Z) (draws : list (Z -> list Z))
    : option (opt_public_key_t * opt_secret_key_t) :=
  let l_dividetwo := lb / 2 in
  let n_dividetwo := nb / 2 in
  '(p_, q_, draws) ← sample_long (n_dividetwo - l_dividetwo - 1) draws;
  '(p, P, draws) ← sample_P l_dividetwo p_ draws;
  '(q, Q, draws) ← sample_Q l_dividetwo p q_ draws;
  '(y, _) ← sample_y (P * Q) draws;
  Some (build_keys nb lb p q p_ q_ P Q y).

(** An unknown security level reads [[0]] of an empty vector. *)
Definition opt_paillier_keygen (k_sec : Z) (draws : list (Z -> list Z))
    : res (option (opt_public_key_t * opt_secret_key_t)) :=
  '(nb, lb) ← or_undef (mapTo_nbits_lbits k_sec);
  Ret (keygen_with nb lb draws).

(** *** Exponentiation modulo n^2 through P^2 and Q^2 *)

Definition opt_paillier_mod_n_squared_crt (base exp : Z)
    (pub : opt_public_key_t) (prv : opt_secret_key_t) : Z :=
  let cp := mpz_powm (base mod P_squared prv) exp (P_squared prv) in
  let cq := mpz_powm (base mod Q_squared prv) exp (Q_squared prv) in
  (cp + (cq - cp) * P_squared_mul_P_squared_inverse prv) mod n_squared pub.

Definition opt_paillier_mod_n_squared_crt_fb (exp : Z)
    (pub : opt_public_key_t) (prv : opt_secret_key_t) : res Z :=
  cp ← fbpowmod_extend (fb_mod_P_sqaured pub) exp;
  cq ← fbpowmod_extend (fb_mod_Q_sqaured pub) exp;
  Ret ((cp + (cq - cp) * P_squared_mul_P_squared_inverse prv) mod n_squared pub).

(** *** Plaintext conversion *)

Definition opt_paillier_set_plaintext (plaintext : string) (pub : opt_public_key_t)
    (radix : Z) : Z :=
  let z := mpz_set_str plaintext radix in
  if z <? 0 then (z + n pub) mod n pub else z.

Definition opt_paillier_get_plaintext (mpz_plaintext : Z) (pub : opt_public_key_t)
    (radix : Z) : string :=
  if half_n pub <=? mpz_plaintext then mpz_get_str radix (mpz_plaintext - n pub)
  else mpz_get_str radix mpz_plaintext.

Definition validate_message (msg : Z) (pub : opt_public_key_t) : bool :=
  if msg <? 0 then false else if n pub <=? msg then false else true.

(** *** Encryption; [data] are the bytes drawn for the mask [r] *)

Definition opt_paillier_encrypt (data : list Z) (pub : opt_public_key_t) (plaintext : Z) : Z :=
  let r := aby_prng data (lbits pub) in
  let r := mpz_powm (h_s pub) r (n_squared pub) in
  ((plaintext * n pub + 1) * r) mod n_squared pub.

Definition opt_paillier_encrypt_crt (data : list Z) (pub : opt_public_key_t)
    (prv : opt_secret_key_t) (plaintext : Z) : Z :=
  let r := aby_prng data (lbits pub) in
  let r := opt_paillier_mod_n_squared_crt (h_s pub) r pub prv in
  ((plaintext * n pub + 1) * r) mod n_squared pub.

Definition opt_paillier_encrypt_crt_fb (data : list Z) (pub : opt_public_key_t)
    (prv : opt_secret_key_t) (plaintext : Z) : res Z :=
  let r := aby_prng data (lbits pub) in
  r ← opt_paillier_mod_n_squared_crt_fb r pub prv;
  Ret (((plaintext * n pub + 1) * r) mod n_squared pub).

(** *** Decryption *)

Definition opt_paillier_decrypt (pub : opt_public_key_t) (prv : opt_secret_key_t)
    (ciphertext : Z) : res Z :=
  let c := mpz_powm ciphertext (double_alpha prv) (n_squared pub) in
  l ← mpz_divexact (c - 1) (n pub);
  Ret ((l * double_alpha_inverse prv) mod n pub).

Definition opt_paillier_decrypt_crt (pub : opt_public_key_t) (prv : opt_secret_key_t)
    (ciphertext : Z) : res Z :=
  let cp := mpz_powm (ciphertext mod P_squared prv) (double_p prv) (P_squared prv) in
  lp ← mpz_divexact (cp - 1) (P prv);
  let cp := (lp * Q_mul_double_p_inverse prv) mod P prv in
  let cq := mpz_powm (ciphertext mod Q_squared prv) (double_q prv) (Q_squared prv) in
  lq ← mpz_divexact (cq - 1) (Q prv);
  let cq := (lq * P_mul_double_q_inverse prv) mod Q prv in
  Ret ((cp + (cq - cp) * P_mul_P_inverse prv) mod n pub).

(** *** Homomorphic operations *)

Definition opt_paillier_add (op1 op2 : Z) (pub : opt_public_key_t) : Z :=
  (op1 * op2) mod n_squared pub.

Definition opt_paillier_constant_mul (op1 op2 : Z) (pub : opt_public_key_t) : Z :=
  mpz_powm op1 op2 (n_squared pub).
End ops.

(** ** What a generated key pair satisfies *)

Record keypair_ok (pub : opt_public_key_t) (prv : opt_secret_key_t) : Prop := {
  ok_P : Z.prime (P prv);
  ok_Q : Z.prime (Q prv);
  ok_PQ : P prv <> Q prv;
  ok_P_eq : P prv = p prv * p_ prv * 2 + 1;
  ok_Q_eq : Q prv = q prv * q_ prv * 2 + 1;
  ok_p : 0 < p prv;  ok_q : 0 < q prv;  ok_p_ : 0 < p_ prv;  ok_q_ : 0 < q_ prv;
  ok_n : n pub = P prv * Q prv;
  ok_half : half_n pub = n pub / 2;
  ok_n2 : n_squared pub = n pub * n pub;
  ok_lbits : 0 <= lbits pub < 2 ^ 63;
  ok_P2 : P_squared prv = P prv * P prv;
  ok_Q2 : Q_squared prv = Q prv * Q prv;
  ok_dalpha : double_alpha prv = p prv * q prv * 2;
  ok_dbeta : double_beta prv = p_ prv * q_ prv * 2;
  ok_dp : double_p prv = p prv * 2;
  ok_dq : double_q prv = q prv * 2;
  (** the short primes are smaller than the moduli, so they are units there *)
  ok_q_P : q prv < P prv;
  ok_p_Q : p prv < Q prv;
  ok_hs : exists y, Z.coprime y (n pub) /\
    h_s pub = (- (y ^ double_beta prv mod n pub)) ^ n pub mod n_squared pub;
  ok_dalpha_inv : double_alpha_inverse prv * double_alpha prv =[ n pub ]= 1;
  ok_P2_inv_P : P_squared_mul_P_squared_inverse prv =[ P_squared prv ]= 0;
  ok_P2_inv_Q : P_squared_mul_P_squared_inverse prv =[ Q_squared prv ]= 1;
  ok_P_inv_P : P_mul_P_inverse prv =[ P prv ]= 0;
  ok_P_inv_Q : P_mul_P_inverse prv =[ Q prv ]= 1;
  ok_Qp_inv : Q_mul_double_p_inverse prv * (Q prv * double_p prv) =[ P prv ]= 1;
  ok_Pq_inv : P_mul_double_q_inverse prv * (P prv * double_q prv) =[ Q prv ]= 1;
  ok_fb : forall e, 0 <= e < 2 ^ (lbits pub + 1) ->
    fbpowmod_extend (fb_mod_P_sqaured pub) e = Ret ((h_s pub mod P_squared prv) ^ e mod P_squared prv) /\
    fbpowmod_extend (fb_mod_Q_sqaured pub) e = Ret ((h_s pub mod Q_squared prv) ^ e mod Q_squared prv);
}.

(** [c] is a ciphertext of [m] under [pub]. *)
Definition is_cipher (pub : opt_public_key_t) (m c : Z) : Prop :=
  0 <= c < n_squared pub /\
  exists r, 0 <= r /\ c =[ n_squared pub ]= (m * n pub + 1) * h_s pub ^ r.
