(* ===== verification/PaillierFacts.v ===== *)
(** * Correctness of the optimised Paillier cryptosystem

    Decryption inverts encryption, the CRT and fixed-base variants agree with
    the plain ones, the homomorphic operations act on plaintexts modulo [n],
    signed decimal plaintexts survive the round trip, and key generation
    produces pairs for which all of this holds. *)

From stdpp Require Import base tactics list option.
From Stdlib Require Import ZArith Lia Zdivisibility String.
From S2P Require Import Prelude ModArith Gmp PrimeGap PaillierUtils PowMod Paillier.

Local Open Scope Z_scope.
Local Open Scope cong_scope.

(** ** Arithmetic of a good key pair *)

Section keypair.
Context `{GL : GmpLaws}.
Context (pub : opt_public_key_t) (prv : opt_secret_key_t) (K : keypair_ok pub prv).

Lemma n_pos : 1 < n pub.
Proof using K.
  pose proof (Z.prime_ge_2 _ (ok_P _ _ K)). pose proof (Z.prime_ge_2 _ (ok_Q _ _ K)).
  rewrite (ok_n _ _ K). nia.
Qed.

Lemma n2_pos : 1 < n_squared pub.
Proof using K. pose proof n_pos. rewrite (ok_n2 _ _ K). nia. Qed.

Lemma PQ_coprime : Z.coprime (P prv) (Q prv).
Proof using K. destruct K. by apply primes_coprime. Qed.

Lemma n2_split : n_squared pub = P_squared prv * Q_squared prv.
Proof using K. destruct K. rewrite ok_n2, ok_n, ok_P2, ok_Q2. ring. Qed.

Lemma n_square_P : (P prv | n pub).
Proof using K. rewrite (ok_n _ _ K). apply Z.divide_factor_l. Qed.

Lemma n_square_Q : (Q prv | n pub).
Proof using K. rewrite (ok_n _ _ K). apply Z.divide_factor_r. Qed.

(** The base of the masks: [-(y ^ (2 beta))] modulo [n]. *)
Lemma hs_root : exists g y, Z.coprime y (n pub) /\
  h_s pub =[ n_squared pub ]= g ^ n pub /\ g =[ n pub ]= - (y ^ double_beta prv).
Proof using K.
  pose proof n_pos. pose proof n2_pos.
  destruct (ok_hs _ _ K) as (y & Hy & E). exists (- (y ^ double_beta prv mod n pub)), y.
  split; [done|]. split.
  - rewrite E. by rewrite mod_cong by lia.
  - by rewrite mod_cong by lia.
Qed.

(** An even power of [-x] is the power of [x]. *)
Lemma pow_opp_double x e : 0 <= e -> (- x) ^ (e * 2) = x ^ (e * 2).
Proof. intros He. rewrite Z.mul_comm, !Z.pow_mul_r by lia. f_equal. lia. Qed.

(** [g ^ (2 p)] is one modulo [P]: the exponent becomes a multiple of [P - 1]. *)
Lemma root_pow_P g y : Z.coprime y (n pub) -> g =[ n pub ]= - (y ^ double_beta prv) ->
  g ^ (p prv * 2) =[ P prv ]= 1.
Proof using K.
  intros Hy Hg. destruct K.
  assert (HgP : g =[ P prv ]= - (y ^ double_beta prv)) by (eapply cong_divide; [apply n_square_P|done]).
  rewrite HgP, pow_opp_double, <- Z.pow_mul_r by (rewrite ?ok_dbeta; nia).
  rewrite ok_dbeta. replace (p_ prv * q_ prv * 2 * (p prv * 2)) with ((P prv - 1) * (q_ prv * 2))
    by (rewrite ok_P_eq; ring).
  pose proof (Z.prime_ge_2 _ ok_P). apply pow_mul_cong; [lia..|].
  apply fermat_cong; [done|]. rewrite ok_n in Hy.
  apply Z.Bezout_coprime_iff in Hy as (u & v & E). apply Z.Bezout_coprime_iff.
  exists u, (v * Q prv). rewrite <- E. ring.
Qed.

Lemma root_pow_Q g y : Z.coprime y (n pub) -> g =[ n pub ]= - (y ^ double_beta prv) ->
  g ^ (q prv * 2) =[ Q prv ]= 1.
Proof using K.
  intros Hy Hg. destruct K.
  assert (HgQ : g =[ Q prv ]= - (y ^ double_beta prv)) by (eapply cong_divide; [apply n_square_Q|done]).
  rewrite HgQ, pow_opp_double, <- Z.pow_mul_r by (rewrite ?ok_dbeta; nia).
  rewrite ok_dbeta. replace (p_ prv * q_ prv * 2 * (q prv * 2)) with ((Q prv - 1) * (p_ prv * 2))
    by (rewrite ok_Q_eq; ring).
  pose proof (Z.prime_ge_2 _ ok_Q). apply pow_mul_cong; [lia..|].
  apply fermat_cong; [done|]. rewrite ok_n in Hy.
  apply Z.Bezout_coprime_iff in Hy as (u & v & E). apply Z.Bezout_coprime_iff.
  exists u, (v * P prv). rewrite <- E. ring.
Qed.

(** [x ^ (m k)] is one modulo [m ^ 2] when [x] is one modulo [m]. *)
Lemma pow_lift_multiple m x k : 0 <= m -> 0 <= k -> x =[ m ]= 1 -> x ^ (m * k) =[ m * m ]= 1.
Proof. intros Hm Hk Hx. apply pow_mul_cong; [done..|]. by apply pow_lift_one. Qed.

Lemma pow_swap x a b c : 0 <= a -> 0 <= b -> 0 <= c -> ((x ^ a) ^ b) ^ c = (x ^ c) ^ (a * b).
Proof. intros. rewrite <- (Z.pow_mul_r x a b), <- !Z.pow_mul_r by nia. f_equal. ring. Qed.

Lemma hs_pow_P r : 0 <= r -> (h_s pub ^ r) ^ double_p prv =[ P_squared prv ]= 1.
Proof using K.
  intros Hr. destruct hs_root as (g & y & Hy & Hh & Hg). destruct K.
  assert (HhP : h_s pub =[ P_squared prv ]= g ^ n pub).
  { eapply cong_divide; [|done]. rewrite n2_split. apply Z.divide_factor_l. }
  rewrite HhP, ok_dp. pose proof (Z.prime_ge_2 _ ok_P). pose proof (Z.prime_ge_2 _ ok_Q).
  rewrite pow_swap by nia.
  replace (n pub * r) with (P prv * (Q prv * r)) by (rewrite ok_n; ring).
  rewrite ok_P2. apply pow_lift_multiple; [lia|nia|].
  by apply (root_pow_P g y).
Qed.

Lemma hs_pow_Q r : 0 <= r -> (h_s pub ^ r) ^ double_q prv =[ Q_squared prv ]= 1.
Proof using K.
  intros Hr. destruct hs_root as (g & y & Hy & Hh & Hg). destruct K.
  assert (HhQ : h_s pub =[ Q_squared prv ]= g ^ n pub).
  { eapply cong_divide; [|done]. rewrite n2_split. apply Z.divide_factor_r. }
  rewrite HhQ, ok_dq. pose proof (Z.prime_ge_2 _ ok_P). pose proof (Z.prime_ge_2 _ ok_Q).
  rewrite pow_swap by nia.
  replace (n pub * r) with (Q prv * (P prv * r)) by (rewrite ok_n; ring).
  rewrite ok_Q2. apply pow_lift_multiple; [lia|nia|].
  by apply (root_pow_Q g y).
Qed.

Lemma hs_pow_alpha r : 0 <= r -> (h_s pub ^ r) ^ double_alpha prv =[ n_squared pub ]= 1.
Proof using K.
  intros Hr. rewrite n2_split. apply cong_crt.
  - rewrite (ok_P2 _ _ K), (ok_Q2 _ _ K). apply coprime_square, PQ_coprime.
  - pose proof (hs_pow_P r Hr) as H. destruct K. rewrite ok_dp in H. rewrite ok_dalpha.
    replace (p prv * q prv * 2) with (p prv * 2 * q prv) by ring. apply pow_mul_cong; [lia..|done].
  - pose proof (hs_pow_Q r Hr) as H. destruct K. rewrite ok_dq in H. rewrite ok_dalpha.
    replace (p prv * q prv * 2) with (q prv * 2 * p prv) by ring. apply pow_mul_cong; [lia..|done].
Qed.

(** ** The masks of the three encryption routines agree *)

Lemma mod_n_squared_crt_ok base e : 0 <= e ->
  opt_paillier_mod_n_squared_crt base e pub prv = base ^ e mod n_squared pub.
Proof using K GL.
  intros He. unfold opt_paillier_mod_n_squared_crt. pose proof n2_pos as Hn2.
  pose proof (Z.prime_ge_2 _ (ok_P _ _ K)). pose proof (Z.prime_ge_2 _ (ok_Q _ _ K)).
  assert (0 < P_squared prv) by (rewrite (ok_P2 _ _ K); nia).
  assert (0 < Q_squared prv) by (rewrite (ok_Q2 _ _ K); nia).
  rewrite !mpz_powm_spec by done.
  apply cong_mod_iff; [lia|]. rewrite n2_split. apply crt_combine.
  - rewrite (ok_P2 _ _ K), (ok_Q2 _ _ K). apply coprime_square, PQ_coprime.
  - apply (ok_P2_inv_P _ _ K).
  - apply (ok_P2_inv_Q _ _ K).
  - rewrite !mod_cong by lia. reflexivity.
  - rewrite !mod_cong by lia. reflexivity.
Qed.

Lemma mod_n_squared_crt_fb_ok e : 0 <= e < 2 ^ (lbits pub + 1) ->
  opt_paillier_mod_n_squared_crt_fb e pub prv = Ret (h_s pub ^ e mod n_squared pub).
Proof using K GL.
  intros He. unfold opt_paillier_mod_n_squared_crt_fb.
  destruct (ok_fb _ _ K e He) as [-> ->]. simpl. f_equal.
  rewrite <- (mod_n_squared_crt_ok _ e) by lia. unfold opt_paillier_mod_n_squared_crt.
  pose proof (Z.prime_ge_2 _ (ok_P _ _ K)). pose proof (Z.prime_ge_2 _ (ok_Q _ _ K)).
  rewrite !mpz_powm_spec; [done|lia|rewrite (ok_Q2 _ _ K); nia|lia|rewrite (ok_P2 _ _ K); nia].
Qed.

Lemma mask_range data : device_bytes data (lbits pub) -> 0 <= aby_prng data (lbits pub) < 2 ^ lbits pub.
Proof using K. apply aby_prng_range. apply (ok_lbits _ _ K). Qed.

Lemma encrypt_is_cipher data m : device_bytes data (lbits pub) ->
  is_cipher pub m (opt_paillier_encrypt data pub m).
Proof using K GL.
  intros Hd. pose proof (mask_range _ Hd) as Hr. pose proof n2_pos.
  unfold opt_paillier_encrypt. split; [apply Z.mod_pos_bound; lia|].
  exists (aby_prng data (lbits pub)). split; [lia|].
  rewrite mpz_powm_spec, !mod_cong by lia. reflexivity.
Qed.

(** ** Decryption of a ciphertext *)

Lemma cipher_pow_alpha m c : is_cipher pub m c ->
  c ^ double_alpha prv =[ n pub * n pub ]= 1 + double_alpha prv * m * n pub.
Proof using K.
  intros [_ (r & Hr & Hc)]. pose proof (ok_dalpha _ _ K). destruct K.
  rewrite <- ok_n2, Hc, Z.pow_mul_l, hs_pow_alpha, Z.mul_1_r by lia.
  rewrite (Z.add_comm (m * n pub) 1), ok_n2. apply binomial_square. nia.
Qed.

Lemma divexact_ok a b : b <> 0 -> (b | a) -> mpz_divexact a b = Ret (a / b).
Proof.
  intros Hb Hd. unfold mpz_divexact. apply Z.mod_divide in Hd; [|done]. rewrite Hd.
  destruct (Z.eqb_spec b 0); [done|]. reflexivity.
Qed.

Lemma decrypt_cipher m c : is_cipher pub m c -> opt_paillier_decrypt pub prv c = Ret (m mod n pub).
Proof using K GL.
  intros Hc. pose proof (cipher_pow_alpha m c Hc) as Hpow. pose proof n_pos. pose proof n2_pos.
  assert (Hda : 0 <= double_alpha prv) by (destruct K; rewrite ok_dalpha; nia).
  unfold opt_paillier_decrypt. rewrite mpz_powm_spec by lia.
  destruct (paillier_L (n pub) (double_alpha prv * m) (c ^ double_alpha prv mod n_squared pub))
    as [Hdiv HL]; [lia|rewrite <- (ok_n2 _ _ K); apply Z.mod_pos_bound; lia| |].
  { rewrite (ok_n2 _ _ K). rewrite mod_cong by nia. exact Hpow. }
  rewrite divexact_ok by (done || lia). simpl. f_equal.
  apply cong_mod_iff; [lia|]. rewrite HL.
  replace (double_alpha prv * m * double_alpha_inverse prv)
    with (double_alpha_inverse prv * double_alpha prv * m) by ring.
  rewrite (ok_dalpha_inv _ _ K), Z.mul_1_l. reflexivity.
Qed.

(** One half of the CRT decryption: the residue of the plaintext modulo a
    prime factor [f] of [n], whose cofactor is [k]. *)
Lemma crt_half f k d inv m c :
  1 < f -> 0 <= d -> c ^ d =[ f * f ]= 1 + d * (m * k) * f -> inv * (k * d) =[ f ]= 1 ->
  exists l, mpz_divexact (mpz_powm (c mod (f * f)) d (f * f) - 1) f = Ret l /\
    (l * inv) mod f =[ f ]= m.
Proof using GL.
  intros Hf Hd Hc Hi. rewrite mpz_powm_spec by nia.
  destruct (paillier_L f (d * (m * k)) ((c mod (f * f)) ^ d mod (f * f))) as [Hdiv HL];
    [lia|apply Z.mod_pos_bound; nia| |].
  { rewrite !mod_cong by nia. exact Hc. }
  eexists. split; [apply divexact_ok; [lia|done]|].
  rewrite mod_cong, HL by lia.
  replace (d * (m * k) * inv) with (inv * (k * d) * m) by ring. rewrite Hi, Z.mul_1_l. reflexivity.
Qed.

Lemma cipher_pow_half m c f k d : 0 <= d -> n pub = f * k ->
  (forall r, 0 <= r -> (h_s pub ^ r) ^ d =[ f * f ]= 1) -> is_cipher pub m c ->
  c ^ d =[ f * f ]= 1 + d * (m * k) * f.
Proof using K.
  intros Hd Hn Hh [_ (r & Hr & Hc)].
  assert (Hcf : c =[ f * f ]= (m * n pub + 1) * h_s pub ^ r).
  { eapply cong_divide; [|exact Hc]. rewrite (ok_n2 _ _ K), Hn. exists (k * k). ring. }
  rewrite Hcf, Z.pow_mul_l, Hh, Z.mul_1_r by done.
  rewrite Hn. replace (m * (f * k) + 1) with (1 + m * k * f) by ring. by apply binomial_square.
Qed.

Lemma decrypt_crt_cipher m c : is_cipher pub m c ->
  opt_paillier_decrypt_crt pub prv c = Ret (m mod n pub).
Proof using K GL.
  intros Hc. pose proof (Z.prime_ge_2 _ (ok_P _ _ K)). pose proof (Z.prime_ge_2 _ (ok_Q _ _ K)).
  assert (Hdp : 0 <= double_p prv) by (destruct K; rewrite ok_dp; lia).
  assert (Hdq : 0 <= double_q prv) by (destruct K; rewrite ok_dq; lia).
  pose proof n_pos.
  unfold opt_paillier_decrypt_crt. rewrite (ok_P2 _ _ K), (ok_Q2 _ _ K).
  destruct (crt_half (P prv) (Q prv) (double_p prv) (Q_mul_double_p_inverse prv) m c)
    as (lp & -> & Hp); [lia|done| |apply (ok_Qp_inv _ _ K)|].
  { apply cipher_pow_half; [done|apply (ok_n _ _ K)| |done].
    intros. rewrite <- (ok_P2 _ _ K). by apply hs_pow_P. }
  destruct (crt_half (Q prv) (P prv) (double_q prv) (P_mul_double_q_inverse prv) m c)
    as (lq & Eq & Hq); [lia|done| |apply (ok_Pq_inv _ _ K)|].
  { apply cipher_pow_half; [done|rewrite (ok_n _ _ K); ring| |done].
    intros. rewrite <- (ok_Q2 _ _ K). by apply hs_pow_Q. }
  simpl. rewrite Eq. simpl. f_equal. apply cong_mod_iff; [lia|].
  rewrite (ok_n _ _ K). apply crt_combine; [apply PQ_coprime|apply (ok_P_inv_P _ _ K)|
    apply (ok_P_inv_Q _ _ K)|done|done].
Qed.

(** ** Homomorphic operations on ciphertexts *)

Lemma add_is_cipher m1 m2 c1 c2 : is_cipher pub m1 c1 -> is_cipher pub m2 c2 ->
  is_cipher pub (m1 + m2) (opt_paillier_add c1 c2 pub).
Proof using K.
  intros [_ (r1 & Hr1 & H1)] [_ (r2 & Hr2 & H2)]. pose proof n2_pos.
  unfold opt_paillier_add. split; [apply Z.mod_pos_bound; lia|].
  exists (r1 + r2). split; [lia|]. rewrite mod_cong, H1, H2, Z.pow_add_r by lia.
  assert (E : (m1 * n pub + 1) * (m2 * n pub + 1) =[ n_squared pub ]= (m1 + m2) * n pub + 1).
  { rewrite (ok_n2 _ _ K). exists (m1 * m2). ring. }
  replace ((m1 * n pub + 1) * h_s pub ^ r1 * ((m2 * n pub + 1) * h_s pub ^ r2))
    with ((m1 * n pub + 1) * (m2 * n pub + 1) * (h_s pub ^ r1 * h_s pub ^ r2)) by ring.
  by rewrite E.
Qed.

Lemma constant_mul_is_cipher m c k : 0 <= k -> is_cipher pub m c ->
  is_cipher pub (k * m) (opt_paillier_constant_mul c k pub).
Proof using K GL.
  intros Hk [_ (r & Hr & H)]. pose proof n2_pos.
  unfold opt_paillier_constant_mul. rewrite mpz_powm_spec by lia.
  split; [apply Z.mod_pos_bound; lia|].
  exists (r * k). split; [nia|]. rewrite mod_cong, H, Z.pow_mul_l, <- Z.pow_mul_r by lia.
  assert (E : (m * n pub + 1) ^ k =[ n_squared pub ]= k * m * n pub + 1).
  { rewrite (ok_n2 _ _ K), (Z.add_comm (m * n pub)), binomial_square, Z.add_comm by done. reflexivity. }
  by rewrite E.
Qed.

End keypair.

(** ** Key generation *)

Section keygen.
Context `{GL : GmpLaws}.

Lemma invert_cong a m : 1 < m -> Z.coprime a m -> mpz_invert a m * a =[ m ]= 1.
Proof using GL.
  intros Hm Hc. destruct (mpz_invert_spec a m Hm Hc) as [_ H].
  apply cong_mod_iff; [lia|]. rewrite H, Z.mod_small; lia.
Qed.

Lemma invert_mul_cong_l a m : mpz_invert a m * a =[ a ]= 0.
Proof. apply cong_mul_r. Qed.

Lemma prime_coprime_small f a : Z.prime f -> 0 < a < f -> Z.coprime a f.
Proof. intros Hf Ha. apply coprime_sym, Z.coprime_prime_l; [done|]. by apply prime_not_divide_small. Qed.

(** The four primes drawn, and the two moduli built from them. *)
Record primes_ok (p q p_ q_ P Q : Z) : Prop := {
  pr_p : Z.prime p; pr_q : Z.prime q; pr_p_ : Z.prime p_; pr_q_ : Z.prime q_;
  pr_P : Z.prime P; pr_Q : Z.prime Q;
  pr_P_eq : P = p * p_ * 2 + 1; pr_Q_eq : Q = q * q_ * 2 + 1;
  pr_ne : p <> q;
}.

(** The short primes stay below the long ones: [lbits / 2] bits against
    [nbits / 2 - lbits / 2 - 1]. *)
Definition lengths_apart (p q p_ q_ : Z) : Prop := p < q_ /\ q < p_.

Lemma moduli_differ p q p_ q_ P Q :
  primes_ok p q p_ q_ P Q -> lengths_apart p q p_ q_ -> P <> Q.
Proof.
  intros [] [H1 H2] E.
  assert (Hd : (p | q * q_)) by (exists p_; lia).
  apply Z.divide_prime_mul in Hd as [Hd|Hd]; [| |done]; apply Z.divide_prime_prime in Hd; lia || done.
Qed.

Lemma build_keys_ok nb lb p q p_ q_ P Q y pub prv :
  primes_ok p q p_ q_ P Q -> lengths_apart p q p_ q_ -> 0 <= lb < 2 ^ 63 ->
  Z.coprime y (P * Q) -> build_keys nb lb p q p_ q_ P Q y = (pub, prv) ->
  keypair_ok pub prv.
Proof using GL.
  intros Hpr Hl Hlb Hy [= <- <-]. pose proof (moduli_differ _ _ _ _ _ _ Hpr Hl) as Hne.
  destruct Hpr, Hl as [Hpq_ Hqp_].
  pose proof (Z.prime_ge_2 _ pr_p0). pose proof (Z.prime_ge_2 _ pr_q0).
  pose proof (Z.prime_ge_2 _ pr_p_0). pose proof (Z.prime_ge_2 _ pr_q_0).
  assert (HqP : q < P) by nia. assert (HpQ : p < Q) by nia.
  assert (HpP : p * 2 < P) by nia. assert (HqQ : q * 2 < Q) by nia.
  assert (HPQ : Z.coprime P Q) by (by apply primes_coprime).
  assert (HdP : Z.coprime (p * q * 2) P).
  { replace (p * q * 2) with (p * 2 * q) by ring.
    apply Z.coprime_mul_l; apply prime_coprime_small; lia || done. }
  assert (HdQ : Z.coprime (p * q * 2) Q).
  { replace (p * q * 2) with (q * 2 * p) by ring.
    apply Z.coprime_mul_l; apply prime_coprime_small; lia || done. }
  assert (0 < P * Q) by nia.
  split; simpl; try done; try lia; try reflexivity; try apply invert_mul_cong_l.
  - exists y. split; [done|]. unfold hs_of. rewrite !mpz_powm_spec by nia. done.
  - apply invert_cong; [nia|]. by apply Z.coprime_mul_r.
  - apply invert_cong; [nia|]. by apply coprime_square.
  - by apply invert_cong; [lia|].
  - apply invert_cong; [lia|]. apply Z.coprime_mul_l; [by apply coprime_sym|].
    apply prime_coprime_small; lia || done.
  - apply invert_cong; [lia|]. apply Z.coprime_mul_l; [done|].
    apply prime_coprime_small; lia || done.
  - intros e He. assert (lb + 1 < 2 ^ 64) by (change (2 ^ 64) with (2 * 2 ^ 63); lia).
    split; apply fbpowmod_extend_bits; lia || nia || done.
Qed.

(** *** The primes drawn *)

(** A read of the device gives as many bytes as it was asked for. *)
Definition device_read (d : Z -> list Z) : Prop := forall bits, 0 <= bits -> device_bytes (d bits) bits.

(** The bit lengths leave room: a short prime, the next one above a number of
    [lb / 2 + 1] bits, has at most [t] bits ([prime_of_length]), and the long primes have
    more. *)
Definition sizes_fit (nb lb : Z) : Prop :=
  exists t, 0 < t /\ t * 2 ^ (lb / 2 + 1) <= 2 ^ (t - 1) /\ t <= nb / 2 - lb / 2 - 1.

Lemma setbit_range x bits : 0 <= bits -> 0 <= x < 2 ^ bits -> 2 ^ bits <= Z.setbit x bits < 2 ^ (bits + 1).
Proof.
  intros Hb Hx. assert (Hl : Z.land x (2 ^ bits) = 0).
  { apply Z.bits_inj_iff'. intros i Hi. rewrite Z.land_spec, Z.bits_0, Z.pow2_bits_eqb by done.
    destruct (Z.eqb_spec bits i) as [<-|]; [|apply andb_false_r]. rewrite andb_true_r.
    destruct (Z.eq_dec x 0) as [->|]; [apply Z.bits_0|]. apply Z.bits_above_log2; [lia|]. apply Z.log2_lt_pow2; lia. }
  assert (E : Z.setbit x bits = x + 2 ^ bits) by (unfold Z.setbit; rewrite Z.shiftl_1_l, <- Z.lxor_lor, <- Z.add_nocarry_lxor by done; done).
  rewrite E, Z.pow_add_r, Z.pow_1_r by lia. lia.
Qed.

Lemma draw_prime_ok bits d : 0 <= bits -> device_read d -> Z.prime (draw_prime bits (d bits)) /\ 2 ^ bits < draw_prime bits (d bits).
Proof using GL.
  intros Hb Hd. pose proof (setbit_range _ bits Hb (aby_prng_range (d bits) bits Hb (Hd bits Hb))) as Hr.
  destruct (mpz_nextprime_spec (Z.setbit (aby_prng (d bits) bits) bits)) as [H1 H2]; [lia|]. split; [exact H2|]. unfold draw_prime. lia.
Qed.

Lemma draw_prime_short bits t d : 0 <= bits -> device_read d -> 0 < t -> t * 2 ^ (bits + 1) <= 2 ^ (t - 1) -> draw_prime bits (d bits) < 2 ^ t.
Proof using GL.
  intros Hb Hd Ht Hbt. pose proof (setbit_range _ bits Hb (aby_prng_range (d bits) bits Hb (Hd bits Hb))) as Hr.
  assert (0 < 2 ^ bits) by (apply Z.pow_pos_nonneg; lia).
  destruct (prime_of_length (bits + 1) t (Z.setbit (aby_prng (d bits) bits) bits)) as (r & Hp & Hlt); [lia..|].
  unfold draw_prime. pose proof (mpz_nextprime_least (Z.setbit (aby_prng (d bits) bits) bits) r ltac:(lia) Hp ltac:(lia)). lia.
Qed.

Lemma sample_long_ok bits draws p_ q_ rest : 0 <= bits ->
  Forall device_read draws -> sample_long bits draws = Some (p_, q_, rest) ->
  (Z.prime p_ /\ 2 ^ bits < p_) /\ (Z.prime q_ /\ 2 ^ bits < q_) /\ Forall device_read rest.
Proof using GL.
  intros Hb. revert draws. fix IH 1. intros [|d1 [|d2 draws]] Hf H; simpl in H; [discriminate H..|].
  rewrite !list.Forall_cons in Hf. destruct Hf as (H1 & H2 & Hf).
  destruct (Z.eqb_spec (draw_prime bits (d1 bits)) (draw_prime bits (d2 bits))); [exact (IH draws Hf H)|].
  clear IH. simplify_eq. auto using draw_prime_ok.
Qed.

(** What the loops for the short primes leave: the prime is one of the draws. *)
Lemma sample_P_ok bits p_ draws p P rest : 0 <= bits -> 0 < p_ ->
  Forall device_read draws -> sample_P bits p_ draws = Some (p, P, rest) ->
  (exists d, device_read d /\ p = draw_prime bits (d bits)) /\ Z.prime P /\ P = p * p_ * 2 + 1 /\ Forall device_read rest.
Proof using GL.
  intros Hb Hp_. induction 1 as [|d draws Hd Hf IH]; simpl; [done|].
  destruct (Z.eqb_spec (mpz_probab_prime_p (draw_prime bits (d bits) * p_ * 2 + 1) prob) 0); [done|].
  intros [= <- <- <-]. destruct (draw_prime_ok bits d Hb Hd) as [Hp _]. pose proof (Z.prime_ge_2 _ Hp).
  split_and!; [by exists d| |done|done]. eapply mpz_probab_prime_sound; [nia|done].
Qed.

Lemma sample_Q_ok bits p q_ draws q Q rest : 0 <= bits -> 0 < q_ ->
  Forall device_read draws -> sample_Q bits p q_ draws = Some (q, Q, rest) ->
  (exists d, device_read d /\ q = draw_prime bits (d bits)) /\ Z.prime Q /\ Q = q * q_ * 2 + 1 /\ p <> q /\ Forall device_read rest.
Proof using GL.
  intros Hb Hq_. induction 1 as [|d draws Hd Hf IH]; simpl; [done|].
  destruct (Z.eqb_spec p (draw_prime bits (d bits))) as [|Hne]; [done|].
  destruct (Z.eqb_spec (mpz_probab_prime_p (draw_prime bits (d bits) * q_ * 2 + 1) prob) 0); [done|].
  intros [= <- <- <-]. destruct (draw_prime_ok bits d Hb Hd) as [Hp _]. pose proof (Z.prime_ge_2 _ Hp).
  split_and!; [by exists d| |done|done|done]. eapply mpz_probab_prime_sound; [nia|done].
Qed.

Lemma sample_y_ok N draws y rest : 1 < N -> sample_y N draws = Some (y, rest) -> Z.coprime y N.
Proof.
  intros HN. induction draws as [|d draws IH]; simpl; [done|].
  destruct (Z.eqb_spec (Z.gcd (aby_prng (d (Z.log2 N + 1 + 128)) (Z.log2 N + 1 + 128) mod N) N) 1); [|done].
  by intros [= <- <-].
Qed.

(** Key generation for lengths that leave room. *)
Lemma keygen_ok nb lb draws pub prv : Forall device_read draws -> 0 <= lb < 2 ^ 63 -> sizes_fit nb lb ->
  keygen_with nb lb draws = Some (pub, prv) -> keypair_ok pub prv /\ nbits pub = nb /\ lbits pub = lb.
Proof using GL.
  intros Hf Hlb (t & Ht & Hbt & Hnb) H. unfold keygen_with in H. assert (Hs : 0 <= lb / 2) by (apply Z.div_pos; lia).
  destruct (sample_long _ draws) as [[[p_ q_] d1]|] eqn:E1; simpl in H; [|done].
  destruct (sample_long_ok (nb / 2 - lb / 2 - 1) _ _ _ _ ltac:(lia) Hf E1) as ((Hp_ & Lp) & (Hq_ & Lq) & Hf1).
  pose proof (Z.prime_ge_2 _ Hp_). pose proof (Z.prime_ge_2 _ Hq_).
  destruct (sample_P _ _ d1) as [[[p P] d2]|] eqn:E2; simpl in H; [|done].
  apply sample_P_ok in E2 as ((dp & Hdp & Ep) & HP & EP & Hf2); [|lia..|done].
  destruct (sample_Q _ _ _ d2) as [[[q Q] d3]|] eqn:E3; simpl in H; [|done].
  apply sample_Q_ok in E3 as ((dq & Hdq & Eq) & HQ & EQ & Hpq & Hf3); [|lia..|done].
  destruct (sample_y _ d3) as [[y d4]|] eqn:E4; simpl in H; [|done].
  pose proof (Z.prime_ge_2 _ HP). pose proof (Z.prime_ge_2 _ HQ).
  apply sample_y_ok in E4; [|nia]. injection H as Epub Eprv. split; [|by subst].
  assert (Hlong : 2 ^ t <= 2 ^ (nb / 2 - lb / 2 - 1)) by (apply Z.pow_le_mono_r; lia).
  pose proof (draw_prime_short (lb / 2) t dp Hs Hdp Ht Hbt). pose proof (draw_prime_short (lb / 2) t dq Hs Hdq Ht Hbt).
  destruct (draw_prime_ok (lb / 2) dp Hs Hdp) as [Pp _]. destruct (draw_prime_ok (lb / 2) dq Hs Hdq) as [Pq _]. rewrite <- Ep in *. rewrite <- Eq in *.
  eapply (build_keys_ok nb lb p q p_ q_ P Q y); [by split|split; lia|done|done|by rewrite <- Epub, <- Eprv].
Qed.

(** Every security level of the table leaves room. *)
Lemma levels_fit k_sec nb lb : mapTo_nbits_lbits k_sec = Some (nb, lb) -> 0 <= lb < 2 ^ 63 /\ sizes_fit nb lb.
Proof.
  unfold mapTo_nbits_lbits, sizes_fit. destruct (k_sec =? 112); [|destruct (k_sec =? 128); [|destruct (k_sec =? 192); [|done]]]; intros [= <- <-];
    (split; [lia|]); [exists 235|exists 268|exists 396]; by vm_compute.
Qed.

End keygen.
