(* ===== verification/PaillierProps.v ===== *)
(** * Properties of the optimised Paillier cryptosystem

    The theorems a caller of the library relies on, each with an instance on a
    small key pair produced by the model's own key generation. *)

From stdpp Require Import base tactics list option.
From Stdlib Require Import ZArith Lia Zdivisibility String.
From S2P Require Import Prelude ModArith Gmp PaillierUtils PowMod Paillier PaillierFacts.

Local Open Scope Z_scope.
Local Open Scope cong_scope.

(** A key pair for the witnesses: [p = 5], [q = 3], [p_ = 7], [q_ = 11], so
    [P = 71], [Q = 67] and [n = 4757]. *)
Definition toy_keys : opt_public_key_t * opt_secret_key_t :=
  build_keys 8 2 5 3 7 11 71 67 2.

Lemma toy_primes : primes_ok 5 3 7 11 71 67.
Proof. split; try (apply primeb_spec; vm_compute; reflexivity); reflexivity || done. Qed.

Lemma toy_keys_ok : keypair_ok toy_keys.1 toy_keys.2.
Proof.
  apply (build_keys_ok 8 2 5 3 7 11 71 67 2); [apply toy_primes|unfold lengths_apart; lia|lia| |];
    reflexivity.
Qed.

Lemma toy_mask : device_bytes [3] (lbits toy_keys.1).
Proof. split; [reflexivity|]. repeat constructor; lia. Qed.

Section props.
Context `{GL : GmpLaws}.

(** C1: decrypting an encryption, by either decryption routine, returns the
    plaintext modulo [n], whatever random bytes masked it, and no exact
    division is ever applied to a non-multiple. *)
Theorem paillier_decrypt_encrypt pub prv data m :
  keypair_ok pub prv -> device_bytes data (lbits pub) ->
  opt_paillier_decrypt pub prv (opt_paillier_encrypt data pub m) = Ret (m mod n pub) /\
  opt_paillier_decrypt_crt pub prv (opt_paillier_encrypt data pub m) = Ret (m mod n pub).
Proof using GL.
  intros K Hd. pose proof (encrypt_is_cipher _ _ K data m Hd) as Hc.
  split; [by apply decrypt_cipher|by apply decrypt_crt_cipher].
Qed.

(** C30: with the same random bytes the CRT encryption and the fixed-base CRT
    encryption (whose window table never overflows) return exactly the
    ciphertext of the plain encryption. *)
Theorem paillier_encrypt_variants_agree pub prv data m :
  keypair_ok pub prv -> device_bytes data (lbits pub) ->
  opt_paillier_encrypt_crt data pub prv m = opt_paillier_encrypt data pub m /\
  opt_paillier_encrypt_crt_fb data pub prv m = Ret (opt_paillier_encrypt data pub m).
Proof using GL.
  intros K Hd. pose proof (mask_range _ _ K _ Hd) as Hr. pose proof (n2_pos _ _ K).
  assert (Hr' : 0 <= aby_prng data (lbits pub) < 2 ^ (lbits pub + 1)).
  { destruct (ok_lbits _ _ K). rewrite Z.pow_add_r by lia. lia. }
  unfold opt_paillier_encrypt_crt, opt_paillier_encrypt_crt_fb, opt_paillier_encrypt.
  rewrite (mod_n_squared_crt_ok _ _ K), (mod_n_squared_crt_fb_ok _ _ K), mpz_powm_spec by (done || lia).
  done.
Qed.

(** C8: multiplying ciphertexts adds plaintexts and raising a ciphertext to a
    non-negative constant multiplies its plaintext, modulo [n], for the results
    of encryption and of any further homomorphic operation. *)
Theorem paillier_homomorphic pub prv m1 m2 c1 c2 k :
  keypair_ok pub prv -> is_cipher pub m1 c1 -> is_cipher pub m2 c2 -> 0 <= k ->
  opt_paillier_decrypt pub prv (opt_paillier_add c1 c2 pub) = Ret ((m1 + m2) mod n pub) /\
  opt_paillier_decrypt pub prv (opt_paillier_constant_mul c1 k pub) = Ret ((k * m1) mod n pub) /\
  is_cipher pub (m1 + m2) (opt_paillier_add c1 c2 pub) /\
  is_cipher pub (k * m1) (opt_paillier_constant_mul c1 k pub).
Proof using GL.
  intros K H1 H2 Hk. pose proof (add_is_cipher _ _ K _ _ _ _ H1 H2) as Ha.
  pose proof (constant_mul_is_cipher _ _ K _ _ k Hk H1) as Hm.
  repeat split; try apply Ha; try apply Hm; by apply (decrypt_cipher _ _ K).
Qed.

(** a decimal string of an integer between [-(n / 2) - 1] and [n / 2 - 1]
    survives set_plaintext, encryption, decryption and get_plaintext, and the
    encoded message is one [validate_message] accepts. *)
Theorem paillier_signed_roundtrip pub prv data z :
  keypair_ok pub prv -> device_bytes data (lbits pub) ->
  - half_n pub - 1 <= z < half_n pub ->
  let s := mpz_get_str 10 z in
  let m := opt_paillier_set_plaintext s pub 10 in
  validate_message m pub = true /\
  (d ← opt_paillier_decrypt pub prv (opt_paillier_encrypt data pub m);
   Ret (opt_paillier_get_plaintext d pub 10)) = Ret s.
Proof using GL.
  intros K Hd Hz s m. pose proof (n_pos _ _ K) as Hn.
  assert (Hh : n pub = half_n pub * 2 + 1).
  { destruct K. rewrite ok_half. 
    assert (E : n pub mod 2 = 1).
    { rewrite ok_n, ok_P_eq, ok_Q_eq.
      replace ((p prv * p_ prv * 2 + 1) * (q prv * q_ prv * 2 + 1))
        with (1 + (p prv * p_ prv * (q prv * q_ prv * 2 + 1) + q prv * q_ prv) * 2) by ring.
      rewrite Z.mod_add by lia. done. }
    pose proof (Z.div_mod (n pub) 2). lia. }
  assert (Hm : m = if z <? 0 then z + n pub else z).
  { unfold m, s, opt_paillier_set_plaintext. rewrite mpz_str_roundtrip.
    destruct (Z.ltb_spec z 0); [|done]. apply Z.mod_small. lia. }
  assert (Hmr : 0 <= m < n pub) by (rewrite Hm; destruct (Z.ltb_spec z 0); lia).
  split.
  - unfold validate_message. destruct (Z.ltb_spec m 0); [lia|]. destruct (Z.leb_spec (n pub) m); lia || done.
  - rewrite (decrypt_cipher _ _ K m) by (by apply (encrypt_is_cipher _ _ K)). simpl. f_equal.
    rewrite Z.mod_small by done. unfold opt_paillier_get_plaintext.
    clearbody m. destruct (Z.leb_spec (half_n pub) m), (Z.ltb_spec z 0); unfold s; f_equal; lia.
Qed.

(** C29: whenever key generation returns, its two moduli are distinct primes and every
    precomputed field (inverses, CRT coefficients, fixed-base tables, the generator
    [h_s]) is the value the encryption and decryption proofs need.  This holds for
    every security level of the table, and for all other bit lengths that leave room
    between the short and the long primes; that the short ones, found by
    [mpz_nextprime], stay below the long ones is proved from a bound on prime gaps.
    The only assumption on the device is that a read gives the bytes asked for. *)
Theorem paillier_keygen_ok draws : Forall device_read draws ->
  (forall k_sec pub prv, opt_paillier_keygen k_sec draws = Ret (Some (pub, prv)) ->
    keypair_ok pub prv /\ mapTo_nbits_lbits k_sec = Some (nbits pub, lbits pub)) /\
  (forall nb lb pub prv, 0 <= lb < 2 ^ 63 -> sizes_fit nb lb -> keygen_with nb lb draws = Some (pub, prv) ->
    keypair_ok pub prv /\ nbits pub = nb /\ lbits pub = lb).
Proof using GL.
  intros Hf. split; [|intros nb lb pub prv; by apply keygen_ok].
  intros k_sec pub prv. unfold opt_paillier_keygen. destruct (mapTo_nbits_lbits k_sec) as [[nb lb]|] eqn:Em; [|done]. intros [= H].
  destruct (levels_fit k_sec nb lb Em) as [Hlb Hs]. by destruct (keygen_ok nb lb draws pub prv Hf Hlb Hs H) as (K & -> & ->).
Qed.

End props.

(** Both decryption routines on the toy key pair. *)
Lemma paillier_decrypt_encrypt_witness :
  opt_paillier_decrypt toy_keys.1 toy_keys.2 (opt_paillier_encrypt [3] toy_keys.1 1234) = Ret 1234 /\
  opt_paillier_decrypt_crt toy_keys.1 toy_keys.2 (opt_paillier_encrypt [3] toy_keys.1 1234) = Ret 1234.
Proof.
  apply (paillier_decrypt_encrypt toy_keys.1 toy_keys.2 [3] 1234); [apply toy_keys_ok|apply toy_mask].
Defined.

Lemma paillier_encrypt_variants_agree_witness :
  opt_paillier_encrypt_crt [3] toy_keys.1 toy_keys.2 99 = opt_paillier_encrypt [3] toy_keys.1 99 /\
  opt_paillier_encrypt_crt_fb [3] toy_keys.1 toy_keys.2 99 = Ret (opt_paillier_encrypt [3] toy_keys.1 99).
Proof.
  apply (paillier_encrypt_variants_agree toy_keys.1 toy_keys.2 [3] 99); [apply toy_keys_ok|apply toy_mask].
Defined.

Lemma paillier_homomorphic_witness :
  let c := opt_paillier_encrypt [3] toy_keys.1 in
  opt_paillier_decrypt toy_keys.1 toy_keys.2 (opt_paillier_add (c 4000) (c 1000) toy_keys.1)
    = Ret ((4000 + 1000) mod n toy_keys.1) /\
  opt_paillier_decrypt toy_keys.1 toy_keys.2 (opt_paillier_constant_mul (c 4000) 2 toy_keys.1)
    = Ret ((2 * 4000) mod n toy_keys.1).
Proof.
  intros c.
  destruct (paillier_homomorphic toy_keys.1 toy_keys.2 4000 1000 (c 4000) (c 1000) 2) as (H1 & H2 & _);
    [apply toy_keys_ok|apply (encrypt_is_cipher _ _ toy_keys_ok), toy_mask..|lia|].
  exact (conj H1 H2).
Defined.

Lemma paillier_signed_roundtrip_witness :
  let s := mpz_get_str 10 (-2000) in
  let m := opt_paillier_set_plaintext s toy_keys.1 10 in
  s = "-2000"%string /\ validate_message m toy_keys.1 = true /\
  (d ← opt_paillier_decrypt toy_keys.1 toy_keys.2 (opt_paillier_encrypt [3] toy_keys.1 m);
   Ret (opt_paillier_get_plaintext d toy_keys.1 10)) = Ret s.
Proof.
  intros s m. split; [vm_compute; reflexivity|].
  refine (paillier_signed_roundtrip toy_keys.1 toy_keys.2 [3] (-2000) toy_keys_ok toy_mask _).
  vm_compute; split; congruence.
Defined.

(** A read that gives the byte [v] after zeros. *)
Definition toy_read (v bits : Z) : list Z :=
  match Z.to_nat (ceil_divide bits 8) with O => [] | S k => replicate k 0 ++ [v] end.

Lemma toy_read_ok v : 0 <= v < 256 -> device_read (toy_read v).
Proof.
  intros Hv bits Hb. unfold toy_read, device_bytes. assert (Hc : 0 <= ceil_divide bits 8) by (apply Z.div_pos; lia).
  destruct (Z.to_nat (ceil_divide bits 8)) as [|k] eqn:E; [split; [simpl; lia|constructor]|]. rewrite length_app, length_replicate. split; [simpl; lia|].
  apply Forall_app. split; [by apply Forall_replicate|by constructor].
Qed.

(** With 16 and 2 bits: [p_ = 73], [q_ = 97], [p = 3], [q = 5], so [P = 439], [Q = 971]. *)
Definition toy_draws : list (Z -> list Z) := toy_read <$> [7; 25; 0; 1; 2].

Lemma paillier_keygen_ok_witness :
  exists pub prv, keygen_with 16 2 toy_draws = Some (pub, prv) /\ keypair_ok pub prv /\ n pub = 439 * 971.
Proof.
  eexists (build_keys 16 2 3 5 73 97 439 971 2).1, (build_keys 16 2 3 5 73 97 439 971 2).2.
  assert (E : keygen_with 16 2 toy_draws = Some ((build_keys 16 2 3 5 73 97 439 971 2).1, (build_keys 16 2 3 5 73 97 439 971 2).2)) by (vm_compute; reflexivity).
  split; [exact E|]. split; [|reflexivity].
  refine (proj1 (proj2 (paillier_keygen_ok toy_draws _) 16 2 _ _ _ _ E)).
  - unfold toy_draws. repeat constructor; apply toy_read_ok; lia.
  - lia.
  - exists 6. vm_compute. repeat split; congruence.
Defined.

(** the fixed-base window exponentiation returns [base ^ e mod m], the value
    [mpz_powm] gives, for every exponent of at most the [maxbits] bits its table
    was built for; an exponent with more digits than [m_t + 1] writes past the
    digit array. *)
Theorem fbpowmod_correct `{GL : GmpLaws} base m maxbits w e :
  0 < m -> 0 < w -> 0 < maxbits < 2 ^ 64 -> 0 <= e ->
  (e < 2 ^ maxbits ->
   fbpowmod_extend (fbpowmod_init_extend base m maxbits w) e = Ret (mpz_powm base e m)) /\
  (2 ^ (w * (ROUNDUP maxbits w + 1)) <= e ->
   fbpowmod_extend (fbpowmod_init_extend base m maxbits w) e = Undef).
Proof.
  intros Hm Hw Hmb He. split; intros Hb.
  - rewrite mpz_powm_spec by done. by apply fbpowmod_extend_bits.
  - unfold fbpowmod_extend, fbpowmod_init_extend. cbn [m_t m_h m_w]. rewrite Z.shiftl_1_l.
    rewrite fb_digits_overflow; [done..|]. rewrite Z2Nat.id; [done|].
    pose proof (roundup_covers maxbits w Hw Hmb). unfold ROUNDUP in *. rewrite Z.mod_small in * by lia.
    pose proof (Z.div_pos (maxbits - 1) w). lia.
Qed.

Lemma fbpowmod_correct_witness :
  fbpowmod_extend (fbpowmod_init_extend 3 1009 9 4) 300 = Ret (mpz_powm 3 300 1009) /\
  fbpowmod_extend (fbpowmod_init_extend 3 1009 9 4) 65536 = Undef.
Proof.
  split.
  - apply (fbpowmod_correct 3 1009 9 4 300); lia.
  - apply (fbpowmod_correct 3 1009 9 4 65536); [lia..|]. vm_compute. congruence.
Defined.

(** the random integer built from the device's bytes has at most [bitlen]
    bits: the surplus bits of the top byte are cleared, for every bit length. *)
Theorem aby_prng_bounds data bitlen :
  0 <= bitlen -> device_bytes data bitlen -> 0 <= aby_prng data bitlen < 2 ^ bitlen.
Proof. apply aby_prng_range. Qed.

Lemma aby_prng_bounds_witness : 0 <= aby_prng [255; 255] 11 < 2 ^ 11.
Proof.
  apply (aby_prng_bounds [255; 255] 11); [lia|]. split; [reflexivity|repeat constructor; lia].
Defined.

(** On positive [int]s the three ceiling logarithms return the ceiling of
    the binary logarithm, except that [ceil_log2] and [ceil_log2_min1] answer 1
    for 1, and [floor_log2] the floor, except that it too answers 1 for 1; on
    negative ones the shift loop of [ceil_log2_real] and [floor_log2] does not
    end. *)
Theorem log2_functions bits :
  (0 < bits < 2 ^ 31 ->
   ceil_log2 bits = Some (Z.max 1 (Z.log2_up bits)) /\
   ceil_log2_min1 bits = Some (Z.max 1 (Z.log2_up bits)) /\
   ceil_log2_real bits = Some (Z.log2_up bits) /\
   floor_log2 bits = Some (Z.max 1 (Z.log2 bits))) /\
  (bits < 0 -> forall fuel lvl, shift_loop fuel bits lvl = None).
Proof.
  split; [|intros; by apply shift_loop_negative].
  intros Hb. unfold ceil_log2, ceil_log2_min1, ceil_log2_real, floor_log2.
  destruct (Z.eqb_spec bits 1) as [->|Hne]; [repeat split|].
  destruct (Z.leb_spec bits 1) as [|_]; [lia|].
  assert (1 <= Z.log2 bits) by (change 1 with (Z.log2 2); apply Z.log2_le_mono; lia).
  pose proof (Z.le_log2_log2_up bits).
  rewrite shift_loop_round, shift_loop_log2 by (unfold int_bits; change (2 ^ Z.of_nat 32) with (2 * 2 ^ 31); lia).
  rewrite !Z.max_r, Z.add_0_l by lia. done.
Qed.

Lemma log2_functions_witness :
  ceil_log2 1000 = Some 10 /\ (forall fuel lvl, shift_loop fuel (-5) lvl = None).
Proof.
  split; [apply (proj1 (log2_functions 1000)); lia|apply (proj2 (log2_functions (-5))); lia].
Defined.
