(* ===== verification/CrtPack.v ===== *)
(** * Packing several plaintexts into one by the Chinese remainder theorem

    Models [algorithm/opt_paillier/src/crt_datapack.cc]: the moduli are
    successive primes above a random start, a sequence of signed decimal
    strings is packed into one residue modulo their product, and retrieved
    again by reduction. *)

From Stdlib Require Import ZArith Lia Zdivisibility.
From stdpp Require Import base tactics list option sets strings.
From S2P Require Import Prelude ModArith Gmp PaillierUtils Paillier PaillierFacts.

Local Open Scope Z_scope.
Local Open Scope cong_scope.

Record CrtMod := {
  crt_mod : list Z;
  crt_half_mod : list Z;
  crt_size : nat;
  mod_size : Z;
}.

Section ops.
Context `{G : GmpOps}.

(** [for i: mod[i] = nextprime(cur); cur = mod[i]]. *)
Fixpoint crt_moduli (count : nat) (cur : Z) : list Z :=
  match count with
  | O => []
  | S k => let m := mpz_nextprime cur in m :: crt_moduli k m
  end.

Definition init_crt (data : list Z) (size : nat) (msize : Z) : CrtMod :=
  let ms := crt_moduli size (Z.setbit (aby_prng data msize) msize) in
  {| crt_mod := ms;
     crt_half_mod := (fun m => m / 2) <$> ms;
     crt_size := size;
     mod_size := msize |}.

Definition prodZ (l : list Z) : Z := foldr Z.mul 1 l.

(** One turn of the packing loop for the string [s] and the modulus [m]. *)
Definition pack_step (radix muls : Z) (acc : Z) (sm : string * Z) : Z :=
  let '(s, m) := sm in
  let cur := mpz_set_str s radix in
  let cur := if cur <? 0 then (cur + m) mod m else cur in
  let coef := muls / m in
  (acc + cur * coef * mpz_invert coef m) mod muls.

Definition data_packing_crt (seq : list string) (crtmod : CrtMod) (radix : Z) : res Z :=
  if (crt_size crtmod <? length seq)%nat then Throw
  else
    let ms := take (length seq) (crt_mod crtmod) in
    Ret (fold_left (pack_step radix (prodZ ms)) (zip seq ms) 0).

Definition data_retrieve_crt (pack : Z) (crtmod : CrtMod) (data_size : nat) (radix : Z)
    : res (list string) :=
  if (crt_size crtmod <? data_size)%nat then Throw
  else
    Ret ((fun mh : Z * Z =>
            let cur := pack mod mh.1 in
            mpz_get_str radix (if mh.2 <=? cur then cur - mh.1 else cur))
         <$> take data_size (zip (crt_mod crtmod) (crt_half_mod crtmod))).
End ops.

(** ** Invariant of the moduli *)

Definition pairwise_coprime (ms : list Z) : Prop :=
  forall l1 m l2, ms = l1 ++ m :: l2 -> Forall (Z.coprime m) (l1 ++ l2).

Record crtmod_ok (c : CrtMod) : Prop := {
  cm_len : length (crt_mod c) = crt_size c;
  cm_odd : Forall (fun m => 2 < m /\ m mod 2 = 1) (crt_mod c);
  cm_half : crt_half_mod c = (fun m => m / 2) <$> crt_mod c;
  cm_coprime : pairwise_coprime (crt_mod c);
}.

(** The integers a modulus [m] can carry with their sign. *)
Definition fits (z m : Z) : Prop := - (m / 2) - 1 <= z < m / 2.

(** ** Lemmas *)

Lemma prodZ_middle l1 m l2 : prodZ (l1 ++ m :: l2) = m * prodZ (l1 ++ l2).
Proof. induction l1 as [|a l1 IH]; simpl; [done|]. rewrite IH. ring. Qed.

Lemma prodZ_divide x l : x ∈ l -> (x | prodZ l).
Proof. induction 1; simpl; [apply Z.divide_factor_l|by apply Z.divide_mul_r]. Qed.

Lemma prodZ_pos l : Forall (fun m => 0 < m) l -> 0 < prodZ l.
Proof. induction 1; simpl; nia. Qed.

Lemma prodZ_coprime m l : Forall (Z.coprime m) l -> Z.coprime m (prodZ l).
Proof. induction 1; simpl; [apply Z.coprime_1_r|by apply Z.coprime_mul_r]. Qed.

Lemma pairwise_take k ms : pairwise_coprime ms -> pairwise_coprime (take k ms).
Proof.
  intros H l1 m l2 E. specialize (H l1 m (l2 ++ drop k ms)).
  rewrite app_assoc in H. rewrite Forall_app in H. apply H.
  rewrite <- (take_drop k ms) at 1. rewrite E, <- app_assoc. done.
Qed.

Section facts.
Context `{GL : GmpLaws}.

(** The signed value [z] sits in slot [m] of the packed number [x]. *)
Definition slot_ok (x : Z) (zm : Z * Z) : Prop := x =[ zm.2 ]= zm.1.

(** The contribution of one slot: its value modulo its own modulus, nothing
    modulo the others. *)
Lemma pack_step_slot l1 m l2 acc s z :
  Forall (fun x => 0 < x) (l1 ++ m :: l2) -> 1 < m -> pairwise_coprime (l1 ++ m :: l2) ->
  mpz_set_str s 10 = z ->
  pack_step 10 (prodZ (l1 ++ m :: l2)) acc (s, m) =[ m ]= acc + z /\
  Forall (fun m' => pack_step 10 (prodZ (l1 ++ m :: l2)) acc (s, m) =[ m' ]= acc) (l1 ++ l2).
Proof using GL.
  intros Hpos Hm Hpc Hs. pose proof (prodZ_pos _ Hpos) as Hmul.
  specialize (Hpc l1 m l2 eq_refl) as Hc. unfold pack_step. rewrite Hs.
  set (cur := if z <? 0 then (z + m) mod m else z).
  assert (Hcur : cur =[ m ]= z).
  { unfold cur. destruct (z <? 0); [|reflexivity]. rewrite mod_cong by lia. exists 1. lia. }
  assert (Hcoef : prodZ (l1 ++ m :: l2) / m = prodZ (l1 ++ l2)).
  { rewrite prodZ_middle, Z.mul_comm, Z.div_mul by lia. done. }
  rewrite Hcoef. split.
  - etransitivity; [apply mod_cong_divide; [lia|rewrite prodZ_middle; apply Z.divide_factor_l]|].
    replace (cur * prodZ (l1 ++ l2) * mpz_invert (prodZ (l1 ++ l2)) m)
      with (mpz_invert (prodZ (l1 ++ l2)) m * prodZ (l1 ++ l2) * cur) by ring.
    rewrite invert_cong, Z.mul_1_l, Hcur by (done || by apply coprime_sym, prodZ_coprime). reflexivity.
  - rewrite Forall_forall. intros m' Hm'.
    etransitivity; [apply mod_cong_divide; [lia|rewrite prodZ_middle; by apply Z.divide_mul_r, prodZ_divide]|].
    destruct (prodZ_divide _ _ Hm') as [k ->].
    exists (cur * k * mpz_invert (k * m') m). ring.
Qed.

Lemma pack_fold ms : Forall (fun x => 2 < x) ms -> pairwise_coprime ms ->
  forall (todo done : list (Z * Z)) acc,
  ms = (done ++ todo).*2 ->
  Forall (slot_ok acc) done -> Forall (fun zm => acc =[ zm.2 ]= 0) todo ->
  Forall (slot_ok (fold_left (pack_step 10 (prodZ ms))
    ((fun zm => (mpz_get_str 10 zm.1, zm.2)) <$> todo) acc)) (done ++ todo).
Proof using GL.
  intros Hbig Hpc. induction todo as [|[z m] todo IH]; intros dn acc Hms Hd Ht.
  { by rewrite app_nil_r. }
  cbn [fmap list_fmap fold_left fst snd].
  assert (Hms' : ms = dn.*2 ++ m :: todo.*2) by (rewrite Hms, fmap_app; done).
  destruct (pack_step_slot dn.*2 m todo.*2 acc (mpz_get_str 10 z) z) as [Hm Ho].
  { rewrite <- Hms'. eapply Forall_impl; [exact Hbig|simpl; lia]. }
  { rewrite Hms', Forall_app, Forall_cons in Hbig. lia. }
  { by rewrite <- Hms'. }
  { apply mpz_str_roundtrip. }
  rewrite <- Hms' in Hm, Ho.
  apply Forall_cons in Ht as [Hm0 Ht]. simpl in Hm0. apply Forall_app in Ho as [Ho1 Ho2].
  rewrite Forall_fmap in Ho1, Ho2.
  specialize (IH (dn ++ [(z, m)]) (pack_step 10 (prodZ ms) acc (mpz_get_str 10 z, m))).
  rewrite <- app_assoc in IH. apply IH; [done| |].
  - apply Forall_app. split.
    + rewrite Forall_forall in *. intros zm Hzm. unfold slot_ok. etransitivity; [apply (Ho1 zm Hzm)|by apply Hd].
    + constructor; [|constructor]. unfold slot_ok. simpl. rewrite Hm, Hm0, Z.add_0_l. reflexivity.
  - rewrite Forall_forall in *. intros zm Hzm. etransitivity; [apply (Ho2 zm Hzm)|by apply Ht].
Qed.

(** Reading one slot back. *)
Lemma retrieve_slot x z m : m mod 2 = 1 -> 0 < m -> fits z m -> x =[ m ]= z ->
  (if m / 2 <=? x mod m then x mod m - m else x mod m) = z.
Proof.
  intros Hodd Hm [Hl Hu] Hx. pose proof (Z.div_mod m 2 ltac:(lia)) as Hdm.
  assert (E : x mod m = if z <? 0 then z + m else z).
  { apply mod_eq_cong; [destruct (Z.ltb_spec z 0); lia|]. rewrite Hx.
    destruct (z <? 0); [exists (-1); lia|reflexivity]. }
  rewrite E. destruct (Z.ltb_spec z 0), (Z.leb_spec (m / 2) (if z <? 0 then z + m else z));
    destruct (Z.leb_spec (m / 2) (z + m)), (Z.leb_spec (m / 2) z); lia.
Qed.

Lemma crt_moduli_primes count cur : 0 <= cur -> 
  Forall (fun m => Z.prime m /\ cur < m) (crt_moduli count cur) /\ NoDup (crt_moduli count cur).
Proof using GL.
  revert cur. induction count as [|k IH]; intros cur Hc; simpl; [split; constructor|].
  destruct (mpz_nextprime_spec cur Hc) as [Hlt Hp].
  destruct (IH (mpz_nextprime cur)) as [Hf Hn]; [lia|].
  split; constructor; [done| | |done].
  - eapply Forall_impl; [exact Hf|]. simpl. intros m [? ?]. split; [done|lia].
  - intros Hin. rewrite Forall_forall in Hf. specialize (Hf _ Hin) as [_ ?]. lia.
Qed.

Lemma distinct_primes_coprime ms : Forall Z.prime ms -> NoDup ms -> pairwise_coprime ms.
Proof.
  intros Hp Hn l1 m l2 ->. apply Forall_forall. intros x Hx.
  rewrite Forall_forall in Hp.
  assert (Hxm : m <> x).
  { intros ->. apply NoDup_app in Hn as (_ & Hd & Hn). apply NoDup_cons in Hn as [Hn _].
    apply elem_of_app in Hx as [Hx|Hx]; [|done]. apply (Hd x Hx). constructor. }
  apply primes_coprime; [|apply Hp|done]; [apply Hp|]; set_solver.
Qed.

End facts.

(** ** Properties *)

Section props.
Context `{GL : GmpLaws}.

Lemma pack_slots c zs : crtmod_ok c -> (length zs <= crt_size c)%nat ->
  exists x, data_packing_crt (mpz_get_str 10 <$> zs) c 10 = Ret x /\
    Forall (slot_ok x) (zip zs (take (length zs) (crt_mod c))).
Proof using GL.
  intros K Hlen. unfold data_packing_crt. rewrite length_fmap.
  destruct (Nat.ltb_spec (crt_size c) (length zs)); [lia|].
  eexists. split; [reflexivity|].
  set (ms := take (length zs) (crt_mod c)).
  assert (Hms : length ms = length zs).
  { unfold ms. rewrite length_take, (cm_len _ K). lia. }
  assert (Hz : zip (mpz_get_str 10 <$> zs) ms
    = (fun zm : Z * Z => (mpz_get_str 10 zm.1, zm.2)) <$> zip zs ms).
  { clearbody ms. revert zs Hms Hlen H. induction ms as [|m ms IH]; intros [|z zs] Hms ? ?; simpl in *;
      try done. f_equal. apply IH; lia. }
  rewrite Hz. apply (pack_fold ms) with (done := []).
  - apply Forall_take. eapply Forall_impl; [apply (cm_odd _ K)|simpl; lia].
  - apply pairwise_take, (cm_coprime _ K).
  - simpl. rewrite snd_zip; [done|lia].
  - constructor.
  - apply Forall_forall. intros zm _. reflexivity.
Qed.

Lemma retrieve_slots c zs x : crtmod_ok c -> (length zs <= crt_size c)%nat ->
  Forall (fun zm => fits zm.1 zm.2) (zip zs (take (length zs) (crt_mod c))) ->
  Forall (slot_ok x) (zip zs (take (length zs) (crt_mod c))) ->
  data_retrieve_crt x c (length zs) 10 = Ret (mpz_get_str 10 <$> zs).
Proof using GL.
  intros K Hlen Hfit Hs. unfold data_retrieve_crt.
  destruct (Nat.ltb_spec (crt_size c) (length zs)); [lia|]. f_equal.
  rewrite (cm_half _ K). pose proof (cm_len _ K) as Hcl. pose proof (cm_odd _ K) as Hodd.
  assert (Hml : (length zs <= length (crt_mod c))%nat) by lia. clear K Hlen H Hcl.
  revert zs Hfit Hs Hml. induction Hodd as [|m ms [Hm2 Hm] Ho IH]; intros [|z zs] Hfit Hs Hml;
    simpl in *; try done; [lia|].
  apply Forall_cons in Hfit as [Hf Hfit]. apply Forall_cons in Hs as [Hz Hs].
  f_equal; [|apply IH; (done || lia)]. f_equal. by apply retrieve_slot; [|lia|..].
Qed.

(** C32: packing signed integers that fit their moduli and retrieving as many
    slots returns the same strings; asking for more slots than there are moduli
    raises in both directions. *)
Theorem crt_pack_roundtrip c zs :
  crtmod_ok c ->
  ((length zs <= crt_size c)%nat ->
   Forall (fun zm => fits zm.1 zm.2) (zip zs (take (length zs) (crt_mod c))) ->
   (x ← data_packing_crt (mpz_get_str 10 <$> zs) c 10;
    data_retrieve_crt x c (length zs) 10) = Ret (mpz_get_str 10 <$> zs)) /\
  ((crt_size c < length zs)%nat ->
   data_packing_crt (mpz_get_str 10 <$> zs) c 10 = Throw /\
   forall x, data_retrieve_crt x c (length zs) 10 = Throw).
Proof using GL.
  intros K. split.
  - intros Hlen Hfit. destruct (pack_slots c zs K Hlen) as (x & -> & Hs). by apply retrieve_slots.
  - intros Hlen. unfold data_packing_crt, data_retrieve_crt. rewrite length_fmap.
    destruct (Nat.ltb_spec (crt_size c) (length zs)); [done|lia].
Qed.

(** the sum of two packed numbers packs the slotwise sums, so one
    homomorphic addition adds every slot, as long as the sums fit. *)
Theorem crt_pack_additive c xs ys x y :
  crtmod_ok c -> length xs = length ys -> (length xs <= crt_size c)%nat ->
  data_packing_crt (mpz_get_str 10 <$> xs) c 10 = Ret x ->
  data_packing_crt (mpz_get_str 10 <$> ys) c 10 = Ret y ->
  Forall (fun zm => fits zm.1 zm.2) (zip (zip_with Z.add xs ys) (take (length xs) (crt_mod c))) ->
  data_retrieve_crt (x + y) c (length xs) 10 = Ret (mpz_get_str 10 <$> zip_with Z.add xs ys).
Proof using GL.
  intros K Hl Hlen Hx Hy Hfit.
  destruct (pack_slots c xs K Hlen) as (x' & Ex & Hsx). rewrite Hx in Ex. injection Ex as <-.
  destruct (pack_slots c ys K ltac:(lia)) as (y' & Ey & Hsy). rewrite Hy in Ey. injection Ey as <-.
  assert (El : length (zip_with Z.add xs ys) = length xs) by (rewrite length_zip_with; lia).
  rewrite <- El. apply retrieve_slots; [done|lia|by rewrite El|]. rewrite El, Hl in *.
  clear -Hl Hsx Hsy. revert Hsx Hsy. generalize (take (length ys) (crt_mod c)). intros ms.
  revert ms ys Hl. induction xs as [|a xs IH]; intros ms [|b ys] Hl Hsx Hsy; simpl in *; try done.
  destruct ms as [|m ms]; [done|]. simpl in *.
  apply Forall_cons in Hsx as [Ha Hsx]. apply Forall_cons in Hsy as [Hb Hsy].
  constructor; [|apply IH; (done || lia)]. unfold slot_ok in *. simpl in *. by rewrite Ha, Hb.
Qed.

(** the moduli [init_crt] draws are odd, pairwise coprime and as many as
    asked for, with their halves beside them. *)
Theorem crt_init_ok data size msize :
  device_bytes data msize -> 1 <= msize -> crtmod_ok (init_crt data size msize).
Proof using GL.
  intros Hd Hm. pose proof (aby_prng_range data msize ltac:(lia) Hd) as Hr.
  set (cur := Z.setbit (aby_prng data msize) msize).
  assert (Hc : 2 <= cur).
  { unfold cur. rewrite <- (Z.pow_1_r 2). eapply Z.le_trans;
      [apply (Z.pow_le_mono_r 2 1 msize); lia|]. unfold Z.setbit. rewrite Z.shiftl_1_l.
    apply Z.ldiff_le; [apply Z.lor_nonneg; split; [lia|apply Z.pow_nonneg; lia]|].
    apply Z.bits_inj'. intros i Hi. rewrite Z.ldiff_spec, Z.lor_spec, Z.bits_0.
    by destruct (Z.testbit (2 ^ msize) i), (Z.testbit (aby_prng data msize) i). }
  destruct (crt_moduli_primes size cur ltac:(lia)) as [Hp Hn].
  split; simpl.
  - fold cur. clearbody cur. clear. revert cur. induction size as [|k IH]; intros cur; simpl; [done|].
    by rewrite IH.
  - eapply Forall_impl; [exact Hp|]. simpl. intros m [[H1 H2] Hlt]. split; [lia|].
    pose proof (Z.mod_pos_bound m 2 ltac:(lia)). destruct (Z.eq_dec (m mod 2) 0) as [E|]; [|lia].
    exfalso. apply (H2 2); [lia|]. by apply Z.mod_divide.
  - done.
  - apply distinct_primes_coprime; [|done]. eapply Forall_impl; [exact Hp|]. simpl. tauto.
Qed.

End props.

(** What [init_crt [9] 3 4] draws: the three primes above [2 ^ 4 + 9]. *)
Definition toy_crt : CrtMod :=
  {| crt_mod := [29; 31; 37]; crt_half_mod := [14; 15; 18]; crt_size := 3; mod_size := 4 |}.

Lemma toy_crt_init : init_crt [9] 3 4 = toy_crt.
Proof. vm_compute. reflexivity. Qed.

Lemma toy_crt_ok : crtmod_ok toy_crt.
Proof.
  split; [reflexivity|repeat constructor; lia|reflexivity|].
  apply distinct_primes_coprime; [|by apply (bool_decide_unpack _); vm_compute].
  repeat constructor; apply primeb_spec; vm_compute; reflexivity.
Qed.

Lemma crt_pack_roundtrip_witness :
  let seq := mpz_get_str 10 <$> [-14; 3; 17] in
  seq = ["-14"; "3"; "17"]%string /\
  (x ← data_packing_crt seq toy_crt 10; data_retrieve_crt x toy_crt 3 10) = Ret seq.
Proof.
  intros seq. split; [vm_compute; reflexivity|].
  refine (proj1 (crt_pack_roundtrip toy_crt [-14; 3; 17] toy_crt_ok) _ _); [simpl; lia|].
  repeat constructor; vm_compute; congruence.
Defined.

Lemma crt_pack_additive_witness :
  data_retrieve_crt (285 + 153) toy_crt 2 10 = Ret (mpz_get_str 10 <$> [3; 4]).
Proof.
  refine (crt_pack_additive toy_crt [-5; 6] [8; -2] _ _ toy_crt_ok eq_refl _ _ _ _);
    [simpl; lia|vm_compute; reflexivity..|].
  repeat constructor; vm_compute; congruence.
Defined.

Lemma crt_init_ok_witness : crtmod_ok (init_crt [9] 3 4).
Proof.
  apply (crt_init_ok [9] 3 4); [split; [reflexivity|repeat constructor; lia]|lia].
Defined.
