(* ===== verification/PyPaillier.v ===== *)
(** * The Python layer of the Paillier library

    Models [pybind_warpper/algorithm/opt_paillier_c2py.cc]: keys, ciphertexts and
    packed ciphertexts live in the [__dict__] of Python objects, numbers as decimal
    texts; every function reads its keys back, computes with the library of
    [Paillier] and [CrtPack] and writes the result.  Lists of numbers are packed
    28 at a time.  A missing key or a short list raises. *)

From Stdlib Require Import ZArith Lia Zdivisibility String.
From stdpp Require Import base tactics list option strings.
From S2P Require Import Prelude ModArith Gmp PaillierUtils PowMod Paillier PaillierFacts PaillierProps CrtPack.

Local Open Scope Z_scope.
Local Open Scope cong_scope.

(** ** Python values *)

Inductive pyval :=
| PyNone
| PyStr (s : string)
| PyInt (z : Z)
| PyList (l : list pyval)
| PyDict (d : list (string * pyval)).

Abbreviation pydict := (list (string * pyval)).

Fixpoint dict_get (k : string) (d : pydict) : res pyval :=
  match d with
  | [] => Throw
  | (k', v) :: d => if decide (k' = k) then Ret v else dict_get k d
  end.

Fixpoint dict_set (k : string) (v : pyval) (d : pydict) : pydict :=
  match d with
  | [] => [(k, v)]
  | (k', v') :: d => if decide (k' = k) then (k, v) :: d else (k', v') :: dict_set k v d
  end.

Definition dict_update (new : pydict) (d : pydict) : pydict := fold_left (fun d e => dict_set e.1 e.2 d) new d.

(** Python's own conversions: [str], [int], [list] and [dict] of a value that is no
    text, no number, no list or no dictionary already. *)
Class PyConv := {
  repr : pyval -> string;
  number : pyval -> res Z;
  seq_of : pyval -> res (list pyval);
  dict_of : pyval -> res pydict;
}.

Definition as_list `{PyConv} (v : pyval) : res (list pyval) := match v with PyList l => Ret l | _ => seq_of v end.
Definition as_dict `{PyConv} (v : pyval) : res pydict := match v with PyDict d => Ret d | _ => dict_of v end.

(** An index beyond a Python list raises. *)
Definition list_at (l : list pyval) (i : nat) : res pyval := match l !! i with Some v => Ret v | None => Throw end.

Definition BASE : Z := 10.
Definition PYTHON_INPUT_BASE : Z := 10.
Definition CRT_MOD_MAX_DIMENSION : nat := 28.
Definition CRT_MOD_SIZE : Z := 70.

Section Layer.
Context `{G : GmpOps} `{PC : PyConv}.

Definition py_str (v : pyval) : string := match v with PyStr s => s | _ => repr v end.
(** [py::int_] into a [size_t]. *)
Definition py_size (v : pyval) : res Z :=
  z ← match v with PyInt z => Ret z | _ => number v end;
  if (0 <=? z) && (z <? 2 ^ 64) then Ret z else Undef.
Definition mpz_text (z : Z) : pyval := PyStr (mpz_get_str BASE z).
Definition mpz_of (v : pyval) : Z := mpz_set_str (py_str v) BASE.

Definition get_mpz (d : pydict) (k : string) : res Z := v ← dict_get k d; Ret (mpz_of v).
Definition get_size (d : pydict) (k : string) : res Z := v ← dict_get k d; py_size v.

(** ** Keys *)

(** The table has [m_t + 1] entries. *)
Definition fb_instance_2_pydict (fb : fb_instance) : res pydict :=
  t ← or_undef (mapM (fun i => m_table_G fb !! i) (seq 0 (Z.to_nat (m_t fb + 1))));
  Ret [("m_mod", mpz_text (m_mod fb)); ("m_table_G", PyList (mpz_text <$> t)); ("m_h", PyInt (m_h fb)); ("m_t", PyInt (m_t fb)); ("m_w", PyInt (m_w fb))]%string.

Definition pydict_2_fb_instance (v : pyval) : res fb_instance :=
  d ← as_dict v;
  m ← get_mpz d "m_mod";
  t ← get_size d "m_t";
  v ← dict_get "m_table_G" d; l ← as_list v;
  g ← mapM (fun i => v ← list_at l i; Ret (mpz_of v)) (seq 0 (Z.to_nat (t + 1)));
  h ← get_size d "m_h";
  w ← get_size d "m_w";
  Ret {| m_mod := m; m_table_G := g; m_h := h; m_t := t; m_w := w |}.

Definition pub_entries (pub : opt_public_key_t) : res pydict :=
  fp ← fb_instance_2_pydict (fb_mod_P_sqaured pub);
  fq ← fb_instance_2_pydict (fb_mod_Q_sqaured pub);
  Ret [("nbits", PyInt (nbits pub)); ("lbits", PyInt (lbits pub)); ("n", mpz_text (n pub)); ("half_n", mpz_text (half_n pub));
    ("n_squared", mpz_text (n_squared pub)); ("h_s", mpz_text (h_s pub)); ("fb_mod_P_sqaured", PyDict fp); ("fb_mod_Q_sqaured", PyDict fq)]%string.

Definition prv_entries (prv : opt_secret_key_t) : pydict :=
  [("p", mpz_text (p prv)); ("q", mpz_text (q prv)); ("p_", mpz_text (p_ prv)); ("q_", mpz_text (q_ prv)); ("alpha", mpz_text (alpha prv));
   ("beta", mpz_text (beta prv)); ("P", mpz_text (P prv)); ("Q", mpz_text (Q prv)); ("P_squared", mpz_text (P_squared prv));
   ("Q_squared", mpz_text (Q_squared prv)); ("double_alpha", mpz_text (double_alpha prv)); ("double_beta", mpz_text (double_beta prv));
   ("double_alpha_inverse", mpz_text (double_alpha_inverse prv));
   ("P_squared_mul_P_squared_inverse", mpz_text (P_squared_mul_P_squared_inverse prv)); ("P_mul_P_inverse", mpz_text (P_mul_P_inverse prv));
   ("double_p", mpz_text (double_p prv)); ("double_q", mpz_text (double_q prv)); ("Q_mul_double_p_inverse", mpz_text (Q_mul_double_p_inverse prv));
   ("P_mul_double_q_inverse", mpz_text (P_mul_double_q_inverse prv))]%string.

(** The dictionaries of the two key objects afterwards. *)
Definition opt_paillier_keygen_warpper (k_sec : Z) (draws : list (Z -> list Z)) (py_pub py_prv : pydict) : res (option (pydict * pydict)) :=
  o ← opt_paillier_keygen k_sec draws;
  match o with
  | None => Ret None
  | Some (pub, prv) => e ← pub_entries pub; Ret (Some (dict_update e py_pub, dict_update (prv_entries prv) py_prv))
  end.

Definition py_pub_2_cpp_pub (d : pydict) : res opt_public_key_t :=
  nb ← get_size d "nbits"; lb ← get_size d "lbits";
  n_ ← get_mpz d "n"; hn ← get_mpz d "half_n"; n2 ← get_mpz d "n_squared"; hs ← get_mpz d "h_s";
  vp ← dict_get "fb_mod_P_sqaured" d; fp ← pydict_2_fb_instance vp;
  vq ← dict_get "fb_mod_Q_sqaured" d; fq ← pydict_2_fb_instance vq;
  Ret {| nbits := nb; lbits := lb; n := n_; half_n := hn; n_squared := n2; h_s := hs; fb_mod_P_sqaured := fp; fb_mod_Q_sqaured := fq |}.

Definition py_prv_2_cpp_prv (d : pydict) : res opt_secret_key_t :=
  v1 ← get_mpz d "p"; v2 ← get_mpz d "q"; v3 ← get_mpz d "p_"; v4 ← get_mpz d "q_"; v5 ← get_mpz d "alpha"; v6 ← get_mpz d "beta";
  v7 ← get_mpz d "P"; v8 ← get_mpz d "Q"; v9 ← get_mpz d "P_squared"; v10 ← get_mpz d "Q_squared"; v11 ← get_mpz d "double_alpha";
  v12 ← get_mpz d "double_beta"; v13 ← get_mpz d "double_alpha_inverse"; v14 ← get_mpz d "P_squared_mul_P_squared_inverse";
  v15 ← get_mpz d "P_mul_P_inverse"; v16 ← get_mpz d "double_p"; v17 ← get_mpz d "double_q"; v18 ← get_mpz d "Q_mul_double_p_inverse";
  v19 ← get_mpz d "P_mul_double_q_inverse";
  Ret {| p := v1; q := v2; p_ := v3; q_ := v4; alpha := v5; beta := v6; P := v7; Q := v8; P_squared := v9; Q_squared := v10;
    double_alpha := v11; double_beta := v12; double_alpha_inverse := v13; P_squared_mul_P_squared_inverse := v14; P_mul_P_inverse := v15;
    double_p := v16; double_q := v17; Q_mul_double_p_inverse := v18; P_mul_double_q_inverse := v19 |}.

(** ** Single ciphertexts *)

Definition set_ciphertext (c : Z) (d : pydict) : pydict := dict_set "ciphertext" (mpz_text c) d.

Definition opt_paillier_encrypt_warpper (data : list Z) (cipher py_pub : pydict) (text : string) : res pydict :=
  pub ← py_pub_2_cpp_pub py_pub;
  Ret (set_ciphertext (opt_paillier_encrypt data pub (opt_paillier_set_plaintext text pub PYTHON_INPUT_BASE)) cipher).

Definition opt_paillier_encrypt_crt_warpper (data : list Z) (cipher py_pub py_prv : pydict) (text : string) : res pydict :=
  pub ← py_pub_2_cpp_pub py_pub; prv ← py_prv_2_cpp_prv py_prv;
  c ← opt_paillier_encrypt_crt_fb data pub prv (opt_paillier_set_plaintext text pub PYTHON_INPUT_BASE);
  Ret (set_ciphertext c cipher).

Definition opt_paillier_decrypt_crt_warpper (py_pub py_prv cipher : pydict) : res string :=
  pub ← py_pub_2_cpp_pub py_pub; prv ← py_prv_2_cpp_prv py_prv;
  c ← get_mpz cipher "ciphertext";
  m ← opt_paillier_decrypt_crt pub prv c;
  Ret (opt_paillier_get_plaintext m pub PYTHON_INPUT_BASE).

Definition opt_paillier_add_warpper (out op1 op2 py_pub : pydict) : res pydict :=
  pub ← py_pub_2_cpp_pub py_pub; c1 ← get_mpz op1 "ciphertext"; c2 ← get_mpz op2 "ciphertext";
  Ret (set_ciphertext (opt_paillier_add c1 c2 pub) out).

Definition opt_paillier_cons_mul_warpper (out cipher : pydict) (text : string) (py_pub : pydict) : res pydict :=
  pub ← py_pub_2_cpp_pub py_pub; c ← get_mpz cipher "ciphertext";
  Ret (set_ciphertext (opt_paillier_constant_mul c (opt_paillier_set_plaintext text pub 10) pub) out).

(** ** Packed ciphertexts *)

(** [crtMod_2_dict] reads [crt_size] entries of both arrays. *)
Definition crtMod_2_dict (c : CrtMod) : res pydict :=
  hs ← or_undef (mapM (fun i => crt_half_mod c !! i) (seq 0 (crt_size c)));
  ms ← or_undef (mapM (fun i => crt_mod c !! i) (seq 0 (crt_size c)));
  Ret [("crt_half_mod", PyList (mpz_text <$> hs)); ("crt_mod", PyList (mpz_text <$> ms)); ("crt_size", PyInt (Z.of_nat (crt_size c))); ("mod_size", PyInt (mod_size c))]%string.

Definition dict_2_CrtMod (v : pyval) : res CrtMod :=
  d ← as_dict v;
  size ← get_size d "crt_size"; ms ← get_size d "mod_size";
  vh ← dict_get "crt_half_mod" d; lh ← as_list vh;
  vm ← dict_get "crt_mod" d; lm ← as_list vm;
  l ← mapM (fun i => h ← list_at lh i; m ← list_at lm i; Ret (mpz_of h, mpz_of m)) (seq 0 (Z.to_nat size));
  Ret {| crt_mod := l.*2; crt_half_mod := l.*1; crt_size := Z.to_nat size; mod_size := ms |}.

(** The moduli given, or new ones. *)
Definition moduli_of (crt_data : list Z) (v : pyval) : res CrtMod :=
  match v with PyNone => Ret (init_crt crt_data CRT_MOD_MAX_DIMENSION CRT_MOD_SIZE) | _ => dict_2_CrtMod v end.

(** The loop over the texts, [CRT_MOD_MAX_DIMENSION] at a time; one mask for each
    ciphertext.  As many rounds as texts are enough. *)
Fixpoint pack_loop (fuel : nat) (enc : list Z -> Z -> Z) (c : CrtMod) (draws : list (list Z)) (texts : list string) : res (list Z) :=
  match texts, fuel with
  | [], _ => Ret []
  | _, O => Undef
  | _, S fuel =>
      data ← or_undef (head draws);
      pack ← data_packing_crt (take CRT_MOD_MAX_DIMENSION texts) c PYTHON_INPUT_BASE;
      rest ← pack_loop fuel enc c (tail draws) (drop CRT_MOD_MAX_DIMENSION texts);
      Ret (enc data pack :: rest)
  end.

Definition pack_object (cs : list Z) (c : CrtMod) (size : Z) (d : pydict) : res pydict :=
  e ← crtMod_2_dict c;
  Ret (dict_update [("ciphertexts", PyList (mpz_text <$> cs)); ("crtMod", PyDict e); ("pack_size", PyInt size)]%string d).

Definition opt_paillier_pack_encrypt_warpper (crt_data : list Z) (draws : list (list Z)) (out py_pub : pydict) (plain : list pyval) (py_crt_mod : pyval) : res pydict :=
  pub ← py_pub_2_cpp_pub py_pub;
  c ← moduli_of crt_data py_crt_mod;
  cs ← pack_loop (length plain) (fun data => opt_paillier_encrypt data pub) c draws (py_str <$> plain);
  pack_object cs c (Z.of_nat (length plain)) out.

Definition opt_paillier_pack_encrypt_crt_warpper (crt_data : list Z) (draws : list (list Z)) (out py_pub py_prv : pydict) (plain : list pyval) (py_crt_mod : pyval)
  : res pydict :=
  pub ← py_pub_2_cpp_pub py_pub; prv ← py_prv_2_cpp_prv py_prv;
  c ← moduli_of crt_data py_crt_mod;
  cs ← pack_loop (length plain) (fun data => opt_paillier_encrypt_crt data pub prv) c draws (py_str <$> plain);
  pack_object cs c (Z.of_nat (length plain)) out.

(** The number of values left is a [size_t] and may pass below 0 at the end. *)
Fixpoint unpack_loop (pub : opt_public_key_t) (prv : opt_secret_key_t) (c : CrtMod) (left : Z) (cs : list pyval) : res (list string) :=
  match cs with
  | [] => Ret []
  | v :: cs =>
      let data_size := Z.min (Z.of_nat CRT_MOD_MAX_DIMENSION) left in
      m ← opt_paillier_decrypt_crt pub prv (mpz_of v);
      l ← data_retrieve_crt m c (Z.to_nat data_size) PYTHON_INPUT_BASE;
      rest ← unpack_loop pub prv c ((left - Z.of_nat CRT_MOD_MAX_DIMENSION) mod 2 ^ 64) cs;
      Ret (l ++ rest)
  end.

Definition opt_paillier_pack_decrypt_crt_warpper (py_pub py_prv py_pack : pydict) : res (list string) :=
  pub ← py_pub_2_cpp_pub py_pub; prv ← py_prv_2_cpp_prv py_prv;
  v ← dict_get "ciphertexts" py_pack; cs ← as_list v;
  size ← get_size py_pack "pack_size";
  vc ← dict_get "crtMod" py_pack; c ← dict_2_CrtMod vc;
  unpack_loop pub prv c size cs.

(** The moduli and the size of the first operand are kept unseen. *)
Definition opt_paillier_pack_add_warpper (out op1 op2 py_pub : pydict) : res pydict :=
  pub ← py_pub_2_cpp_pub py_pub;
  v1 ← dict_get "ciphertexts" op1; l1 ← as_list v1;
  v2 ← dict_get "ciphertexts" op2; l2 ← as_list v2;
  cs ← mapM (fun i => a ← list_at l1 i; b ← list_at l2 i; Ret (opt_paillier_add (mpz_of a) (mpz_of b) pub)) (seq 0 (length l1));
  vc ← dict_get "crtMod" op1; vs ← dict_get "pack_size" op1;
  Ret (dict_update [("ciphertexts", PyList (mpz_text <$> cs)); ("crtMod", vc); ("pack_size", vs)]%string out).
End Layer.
