(* ===== verification/PyPaillierProps.v ===== *)
(** * Properties of the Python layer

    Keys written into Python objects are read back, and lists of numbers that are
    packed, encrypted and added decrypt to the sums. *)

From Stdlib Require Import ZArith Lia Zdivisibility String.
From stdpp Require Import base tactics list option strings.
From S2P Require Import Prelude ModArith Gmp PaillierUtils PowMod Paillier PaillierFacts PaillierProps CrtPack PyPaillier.

Local Open Scope Z_scope.
Local Open Scope cong_scope.

(** ** Dictionaries *)

Lemma dict_get_set_eq k v d : dict_get k (dict_set k v d) = Ret v.
Proof. induction d as [|[k' v'] d IH]; cbn; [by rewrite decide_True|]. case_decide as Hk; cbn; [by rewrite decide_True|by rewrite decide_False]. Qed.

Lemma dict_get_set_ne k k' v d : k' <> k -> dict_get k (dict_set k' v d) = dict_get k d.
Proof.
  intros Hk. induction d as [|[k0 v0] d IH]; cbn; [by rewrite decide_False|].
  destruct (decide (k0 = k')) as [->|H0]; cbn; [by rewrite !decide_False by done|]. destruct (decide (k0 = k)); [done|exact IH].
Qed.

Lemma dict_get_update_other k new d : k ∉ new.*1 -> dict_get k (dict_update new d) = dict_get k d.
Proof.
  revert d. induction new as [|[k' v] new IH]; intros d Hk; [done|]. rewrite fmap_cons, not_elem_of_cons in Hk. destruct Hk as [H1 H2].
  unfold dict_update. cbn [fold_left fst snd]. fold (dict_update new (dict_set k' v d)). rewrite IH by done. by apply dict_get_set_ne, not_eq_sym.
Qed.

(** What an update enters is found. *)
Lemma dict_get_update k v new d : NoDup new.*1 -> dict_get k new = Ret v -> dict_get k (dict_update new d) = Ret v.
Proof.
  revert d. induction new as [|[k' v'] new IH]; intros d Hnd H; [done|]. rewrite fmap_cons in Hnd. apply NoDup_cons in Hnd as [Hk Hnd].
  cbn in H. unfold dict_update. cbn [fold_left fst snd]. fold (dict_update new (dict_set k' v' d)). destruct (decide (k' = k)) as [->|Hne].
  - injection H as ->. rewrite dict_get_update_other by done. apply dict_get_set_eq.
  - by apply IH.
Qed.

Lemma mapM_seq {A} (f : nat -> res A) l : (forall i x, l !! i = Some x -> f i = Ret x) -> mapM f (seq 0 (length l)) = Ret l.
Proof.
  intros H. assert (H' : forall k, (forall i x, l !! i = Some x -> f (k + i)%nat = Ret x) -> mapM f (seq k (length l)) = Ret l); [|by apply H'].
  clear H. induction l as [|a l IH]; intros k Hk; [done|]. cbn [length seq mapM]. rewrite <- (Nat.add_0_r k) at 1. rewrite (Hk 0%nat a eq_refl). cbn [mbind res_bind].
  rewrite (IH (S k)); [done|]. intros i x Hi. rewrite Nat.add_succ_l, <- Nat.add_succ_r. by apply Hk.
Qed.

Lemma mapM_lookup {A} (l : list A) : mapM (fun i => l !! i) (seq 0 (length l)) = Some l.
Proof.
  apply mapM_Some_2, Forall2_same_length_lookup. split; [by rewrite length_seq|].
  intros i x y [-> _]%lookup_seq Hy. exact Hy.
Qed.

(** ** Keys and moduli are read back *)

Definition is_size (z : Z) : Prop := 0 <= z < 2 ^ 64.

Section Read.
Context `{GL : GmpLaws} `{PC : PyConv}.

Lemma mpz_of_text z : mpz_of (mpz_text z) = z.
Proof using GL. apply mpz_str_roundtrip. Qed.

Lemma py_size_int z : is_size z -> py_size (PyInt z) = Ret z.
Proof. intros [H1 H2]. unfold py_size. cbn [mbind res_bind]. rewrite (proj2 (Z.leb_le _ _) H1), (proj2 (Z.ltb_lt _ _) H2). done. Qed.

Lemma get_mpz_at k z d : dict_get k d = Ret (mpz_text z) -> get_mpz d k = Ret z.
Proof using GL. intros H. unfold get_mpz. rewrite H. cbn [mbind res_bind]. by rewrite mpz_of_text. Qed.

Lemma get_size_at k z d : dict_get k d = Ret (PyInt z) -> is_size z -> get_size d k = Ret z.
Proof. intros H Hz. unfold get_size. rewrite H. cbn [mbind res_bind]. by apply py_size_int. Qed.

Lemma read_texts l : mapM (fun i => v ← list_at (mpz_text <$> l) i; Ret (mpz_of v)) (seq 0 (length l)) = Ret l.
Proof using GL.
  apply mapM_seq. intros i x Hi. unfold list_at. rewrite list_lookup_fmap, Hi. cbn. by rewrite mpz_of_text.
Qed.

(** A table as [fbpowmod_init_extend] makes it. *)
Definition fb_table_ok (fb : fb_instance) : Prop :=
  length (m_table_G fb) = Z.to_nat (m_t fb + 1) /\ is_size (m_h fb) /\ is_size (m_t fb) /\ is_size (m_w fb).

Lemma fb_roundtrip fb : fb_table_ok fb -> exists d, fb_instance_2_pydict fb = Ret d /\ pydict_2_fb_instance (PyDict d) = Ret fb.
Proof using GL.
  intros (Hl & Hh & Ht & Hw). unfold fb_instance_2_pydict. rewrite <- Hl, mapM_lookup. cbn [or_undef mbind res_bind]. eexists. split; [reflexivity|].
  unfold pydict_2_fb_instance. cbn [as_dict mbind res_bind]. set (d := [_; _; _; _; _]).
  rewrite (get_mpz_at "m_mod" (m_mod fb) d) by reflexivity. cbn [mbind res_bind].
  rewrite (get_size_at "m_t" (m_t fb) d) by (reflexivity || done). cbn [mbind res_bind].
  change (dict_get "m_table_G" d) with (Ret (PyList (mpz_text <$> m_table_G fb))). cbn [mbind res_bind as_list].
  rewrite <- Hl, read_texts. cbn [mbind res_bind].
  rewrite (get_size_at "m_h" (m_h fb) d) by (reflexivity || done). cbn [mbind res_bind].
  rewrite (get_size_at "m_w" (m_w fb) d) by (reflexivity || done). cbn [mbind res_bind]. by destruct fb.
Qed.

(** The dictionary of a public key object. *)
Definition pub_ok (pub : opt_public_key_t) : Prop :=
  is_size (nbits pub) /\ is_size (lbits pub) /\ fb_table_ok (fb_mod_P_sqaured pub) /\ fb_table_ok (fb_mod_Q_sqaured pub).

Lemma pub_roundtrip pub d : pub_ok pub -> exists e, pub_entries pub = Ret e /\ py_pub_2_cpp_pub (dict_update e d) = Ret pub.
Proof using GL.
  intros (Hn & Hl & HP & HQ). destruct (fb_roundtrip _ HP) as (dp & EP & RP), (fb_roundtrip _ HQ) as (dq & EQ & RQ).
  unfold pub_entries. rewrite EP. cbn [mbind res_bind]. rewrite EQ. cbn [mbind res_bind]. eexists. split; [reflexivity|].
  set (e := [_; _; _; _; _; _; _; _]). assert (Hnd : NoDup e.*1) by (apply (bool_decide_unpack _); vm_compute; exact I).
  assert (Hget : forall k v, dict_get k e = Ret v -> dict_get k (dict_update e d) = Ret v) by (intros k v; by apply dict_get_update).
  unfold py_pub_2_cpp_pub.
  rewrite (get_size_at "nbits" (nbits pub)) by (done || by apply Hget). cbn [mbind res_bind].
  rewrite (get_size_at "lbits" (lbits pub)) by (done || by apply Hget). cbn [mbind res_bind].
  rewrite (get_mpz_at "n" (n pub)) by (by apply Hget). cbn [mbind res_bind].
  rewrite (get_mpz_at "half_n" (half_n pub)) by (by apply Hget). cbn [mbind res_bind].
  rewrite (get_mpz_at "n_squared" (n_squared pub)) by (by apply Hget). cbn [mbind res_bind].
  rewrite (get_mpz_at "h_s" (h_s pub)) by (by apply Hget). cbn [mbind res_bind].
  rewrite (Hget "fb_mod_P_sqaured" (PyDict dp)) by reflexivity. cbn [mbind res_bind]. rewrite RP. cbn [mbind res_bind].
  rewrite (Hget "fb_mod_Q_sqaured" (PyDict dq)) by reflexivity. cbn [mbind res_bind]. rewrite RQ. cbn [mbind res_bind]. by destruct pub.
Qed.

Lemma prv_roundtrip prv d : py_prv_2_cpp_prv (dict_update (prv_entries prv) d) = Ret prv.
Proof using GL.
  assert (Hnd : NoDup (prv_entries prv).*1) by (apply (bool_decide_unpack _); vm_compute; exact I).
  assert (Hget : forall k z, dict_get k (prv_entries prv) = Ret (mpz_text z) -> get_mpz (dict_update (prv_entries prv) d) k = Ret z).
  { intros k z H. by apply get_mpz_at, dict_get_update. }
  unfold py_prv_2_cpp_prv.
  repeat (erewrite Hget by reflexivity; cbn [mbind res_bind]). by destruct prv.
Qed.

(** The dictionary of the moduli. *)
Lemma crtmod_roundtrip c : crtmod_ok c -> is_size (Z.of_nat (crt_size c)) -> is_size (mod_size c) ->
  exists d, crtMod_2_dict c = Ret d /\ dict_2_CrtMod (PyDict d) = Ret c.
Proof using GL.
  intros K Hs Hm. assert (Hl := cm_len _ K). assert (Hh : length (crt_half_mod c) = crt_size c) by (rewrite (cm_half _ K), length_fmap; done).
  unfold crtMod_2_dict.
  assert (Mh : mapM (fun i => crt_half_mod c !! i) (seq 0 (crt_size c)) = Some (crt_half_mod c)) by (rewrite <- Hh; apply mapM_lookup).
  assert (Mm : mapM (fun i => crt_mod c !! i) (seq 0 (crt_size c)) = Some (crt_mod c)) by (rewrite <- Hl; apply mapM_lookup).
  rewrite Mh, Mm. cbn [or_undef mbind res_bind].
  eexists. split; [reflexivity|]. unfold dict_2_CrtMod. cbn [as_dict mbind res_bind]. set (d := [_; _; _; _]).
  rewrite (get_size_at "crt_size" (Z.of_nat (crt_size c)) d) by (reflexivity || done). cbn [mbind res_bind].
  rewrite (get_size_at "mod_size" (mod_size c) d) by (reflexivity || done). cbn [mbind res_bind].
  change (dict_get "crt_half_mod" d) with (Ret (PyList (mpz_text <$> crt_half_mod c))). cbn [mbind res_bind as_list].
  change (dict_get "crt_mod" d) with (Ret (PyList (mpz_text <$> crt_mod c))). cbn [mbind res_bind as_list].
  rewrite Nat2Z.id. set (f := fun i : nat => _).
  assert (Mz : mapM f (seq 0 (crt_size c)) = Ret (zip (crt_half_mod c) (crt_mod c))).
  { assert (Hz : length (zip (crt_half_mod c) (crt_mod c)) = crt_size c) by (rewrite length_zip_with; lia).
    rewrite <- Hz. apply mapM_seq. intros i [h m] Hi. apply lookup_zip_with_Some in Hi as (h' & m' & [= <- <-] & H1 & H2).
    unfold f, list_at. rewrite !list_lookup_fmap, H1, H2. cbn. by rewrite !mpz_of_text. }
  rewrite Mz. cbn [mbind res_bind]. rewrite fst_zip, snd_zip by lia. by destruct c.
Qed.
End Read.

(** ** Packed numbers *)

Lemma prodZ_take_mono k j ms : Forall (fun m => 2 < m) ms -> (k <= j)%nat -> prodZ (take k ms) <= prodZ (take j ms).
Proof.
  intros H. revert k j. induction H as [|m ms Hm H IH]; intros k j Hkj; [by rewrite !take_nil|].
  assert (Hp : forall i, 0 < prodZ (take i ms)) by (intros i; apply prodZ_pos, Forall_take; eapply Forall_impl; [exact H|cbn; lia]).
  destruct k as [|k], j as [|j]; [done| |lia|].
  - change (1 <= m * prodZ (take j ms)). specialize (Hp j). nia.
  - change (m * prodZ (take k ms) <= m * prodZ (take j ms)). specialize (IH k j ltac:(lia)). nia.
Qed.

(** What packing computes is reduced. *)
Lemma pack_range `{G : GmpOps} texts c radix x : crtmod_ok c -> data_packing_crt texts c radix = Ret x -> 0 <= x < prodZ (take (length texts) (crt_mod c)).
Proof.
  intros K H. unfold data_packing_crt in H. destruct (Nat.ltb_spec (crt_size c) (length texts)); [done|]. injection H as <-.
  set (ms := take (length texts) (crt_mod c)).
  assert (Hp : 0 < prodZ ms) by (apply prodZ_pos, Forall_take; eapply Forall_impl; [apply (cm_odd _ K)|cbn; lia]).
  assert (Hf : forall l acc, 0 <= acc < prodZ ms -> 0 <= fold_left (pack_step radix (prodZ ms)) l acc < prodZ ms); [|by apply Hf].
  induction l as [|[s m] l IH]; intros acc Ha; [done|]. cbn [fold_left]. apply IH. unfold pack_step. by apply Z.mod_pos_bound.
Qed.

Section Packed.
Context `{GL : GmpLaws} (pub : opt_public_key_t) (prv : opt_secret_key_t) (K : keypair_ok pub prv) (c : CrtMod) (C : crtmod_ok c).

Definition prod28 : Z := prodZ (take CRT_MOD_MAX_DIMENSION (crt_mod c)).

(** The ciphertexts [cs] carry the numbers [zs], 28 in each, as sums of at most
    [b] packed numbers. *)
Inductive carries (b : Z) : list Z -> list Z -> Prop :=
| carries_nil : carries b [] []
| carries_cons zs x k cs : zs <> [] -> 0 <= x <= b * (prod28 - 1) -> Forall (slot_ok x) (zip (take CRT_MOD_MAX_DIMENSION zs) (crt_mod c)) ->
    is_cipher pub x k -> carries b (drop CRT_MOD_MAX_DIMENSION zs) cs -> carries b zs (k :: cs).

Lemma pack_loop_carries fuel enc draws zs :
  (forall data m, device_bytes data (lbits pub) -> is_cipher pub m (enc data m)) ->
  (length zs <= fuel)%nat -> (Nat.min CRT_MOD_MAX_DIMENSION (length zs) <= crt_size c)%nat ->
  Forall (fun data => device_bytes data (lbits pub)) draws -> (length zs <= CRT_MOD_MAX_DIMENSION * length draws)%nat ->
  exists cs, pack_loop fuel enc c draws (mpz_get_str 10 <$> zs) = Ret cs /\ carries 1 zs cs.
Proof using GL C.
  intros He. revert zs draws. induction fuel as [|fuel IH]; intros zs draws Hf Hs Hd Hn.
  { destruct zs; [|cbn in Hf; lia]. exists []. split; [done|constructor]. }
  destruct zs as [|z zs]; [exists []; split; [done|constructor]|]. set (l := z :: zs) in *.
  destruct draws as [|data draws]; [unfold l in Hn; cbn in Hn; lia|]. apply Forall_cons in Hd as [Hd0 Hd].
  destruct (pack_slots c (take CRT_MOD_MAX_DIMENSION l) C) as (x & Ex & Hx); [by rewrite length_take|].
  rewrite zip_with_take_r in Hx. pose proof (pack_range _ _ _ _ C Ex) as Hr. rewrite length_fmap in Hr.
  destruct (IH (drop CRT_MOD_MAX_DIMENSION l) draws) as (cs & Ec & Hc).
  { rewrite length_drop. unfold l in *. cbn [length] in *. unfold CRT_MOD_MAX_DIMENSION. lia. }
  { rewrite length_drop. lia. }
  { done. }
  { rewrite length_drop. cbn [length] in Hn. lia. }
  exists (enc data x :: cs). split.
  - assert (Hstep : pack_loop (S fuel) enc c (data :: draws) (mpz_get_str 10 <$> l) =
      (pack ← data_packing_crt (take CRT_MOD_MAX_DIMENSION (mpz_get_str 10 <$> l)) c 10;
       rest ← pack_loop fuel enc c draws (drop CRT_MOD_MAX_DIMENSION (mpz_get_str 10 <$> l)); Ret (enc data pack :: rest))) by reflexivity.
    rewrite Hstep, <- fmap_take, <- fmap_drop, Ex. cbn [mbind res_bind]. rewrite Ec. done.
  - apply carries_cons with (x := x); [done| |done|by apply He|done].
    assert (H1 : prodZ (take (length (take CRT_MOD_MAX_DIMENSION l)) (crt_mod c)) <= prod28).
    { apply prodZ_take_mono; [eapply Forall_impl; [apply (cm_odd _ C)|cbn; lia]|]. rewrite length_take. lia. }
    lia.
Qed.

Lemma zip_slots_add x y xs ys ms : length xs = length ys -> Forall (slot_ok x) (zip xs ms) -> Forall (slot_ok y) (zip ys ms) ->
  Forall (slot_ok (x + y)) (zip (zip_with Z.add xs ys) ms).
Proof.
  revert ys ms. induction xs as [|a xs IH]; intros [|b ys] ms Hl Hx Hy; cbn in *; try done. destruct ms as [|m ms]; [done|]. cbn in *.
  apply Forall_cons in Hx as [Hx0 Hx]. apply Forall_cons in Hy as [Hy0 Hy]. constructor; [|apply IH; (done || lia)].
  unfold slot_ok in *. cbn in *. by rewrite Hx0, Hy0.
Qed.

(** Adding the ciphertexts pairwise adds the numbers. *)
Lemma add_carries b1 b2 xs ys k1 k2 : length xs = length ys -> carries b1 xs k1 -> carries b2 ys k2 ->
  carries (b1 + b2) (zip_with Z.add xs ys) (zip_with (fun a b => opt_paillier_add a b pub) k1 k2) /\ length k1 = length k2.
Proof using K.
  intros Hl H1. revert ys k2 Hl. induction H1 as [|xs x k cs Hne Hr Hs Hk H1 IH]; intros ys k2 Hl H2.
  { destruct ys; [|done]. inversion H2; subst; [|done]. split; [constructor|done]. }
  destruct H2 as [|ys y k' cs' Hne' Hr' Hs' Hk' H2]; [destruct xs; done|].
  destruct (IH (drop CRT_MOD_MAX_DIMENSION ys) cs') as [IH1 IH2]; [rewrite !length_drop; lia|done|]. split; [|cbn; by rewrite IH2].
  cbn [zip_with]. apply carries_cons with (x := x + y).
  - destruct xs, ys; done.
  - lia.
  - rewrite zip_with_take. apply zip_slots_add; [rewrite !length_take; lia|done|done].
  - by apply (add_is_cipher pub prv K).
  - by rewrite zip_with_drop.
Qed.

(** The numbers fit the moduli of their positions. *)
Definition all_fit (zs : list Z) : Prop :=
  forall i z m, zs !! i = Some z -> crt_mod c !! (i mod CRT_MOD_MAX_DIMENSION)%nat = Some m -> fits z m.

Lemma unpack_carries `{PC : PyConv} b zs cs : carries b zs cs -> b * (prod28 - 1) < n pub -> all_fit zs ->
  (Nat.min CRT_MOD_MAX_DIMENSION (length zs) <= crt_size c)%nat -> is_size (Z.of_nat (length zs)) ->
  unpack_loop pub prv c (Z.of_nat (length zs)) (mpz_text <$> cs) = Ret (mpz_get_str 10 <$> zs).
Proof using GL K C.
  intros H Hb. induction H as [|zs x k cs Hne Hr Hs Hk H IH]; intros Hfit Hlen Hsz; [done|].
  rewrite fmap_cons. cbn [unpack_loop]. rewrite mpz_of_text, (decrypt_crt_cipher pub prv K x) by done. cbn [mbind res_bind].
  rewrite (Z.mod_small x) by lia.
  replace (Z.to_nat (Z.min (Z.of_nat CRT_MOD_MAX_DIMENSION) (Z.of_nat (length zs)))) with (length (take CRT_MOD_MAX_DIMENSION zs)) by (rewrite length_take; lia).
  rewrite (retrieve_slots c (take CRT_MOD_MAX_DIMENSION zs) x C).
  2: { rewrite length_take. lia. }
  2: { rewrite zip_with_take_r. apply Forall_lookup_2. intros i [z m] Hi. apply lookup_zip_with_Some in Hi as (z' & m' & [= <- <-] & H1 & H2).
       apply lookup_take_Some in H1 as [H1 Hi]. apply (Hfit i z m H1). by rewrite Nat.mod_small. }
  2: { by rewrite zip_with_take_r. }
  cbn [mbind res_bind]. transitivity (Ret ((mpz_get_str 10 <$> take CRT_MOD_MAX_DIMENSION zs) ++ (mpz_get_str 10 <$> drop CRT_MOD_MAX_DIMENSION zs)));
    [|by rewrite <- fmap_app, take_drop].
  destruct (decide (length zs <= CRT_MOD_MAX_DIMENSION)%nat) as [Hle|Hgt].
  - rewrite drop_ge in H |- * by done. inversion H; subst; [|done]. done.
  - replace ((Z.of_nat (length zs) - Z.of_nat CRT_MOD_MAX_DIMENSION) mod 2 ^ 64) with (Z.of_nat (length (drop CRT_MOD_MAX_DIMENSION zs))).
    2: { rewrite length_drop, Z.mod_small by (destruct Hsz; lia). lia. }
    rewrite IH; [done| | |].
    + intros i z m Hi Hm. rewrite lookup_drop in Hi. apply (Hfit _ z m Hi).
      replace (CRT_MOD_MAX_DIMENSION + i)%nat with (i + 1 * CRT_MOD_MAX_DIMENSION)%nat by lia. by rewrite Nat.Div0.mod_add.
    + rewrite length_drop. lia.
    + rewrite length_drop. destruct Hsz. split; lia.
Qed.

Lemma encrypt_crt_is_cipher data m : device_bytes data (lbits pub) -> is_cipher pub m (opt_paillier_encrypt_crt data pub prv m).
Proof using GL K.
  intros Hd. pose proof (mask_range pub prv K _ Hd) as Hr. pose proof (n2_pos pub prv K).
  unfold opt_paillier_encrypt_crt. rewrite (mod_n_squared_crt_ok pub prv K) by lia.
  split; [apply Z.mod_pos_bound; lia|]. exists (aby_prng data (lbits pub)). split; [lia|]. rewrite !mod_cong by lia. reflexivity.
Qed.
End Packed.

(** ** The packed functions composed *)

Section Python.
Context `{GL : GmpLaws} `{PC : PyConv}.
Context (pub : opt_public_key_t) (prv : opt_secret_key_t) (K : keypair_ok pub prv) (HP : pub_ok pub).
Context (c : CrtMod) (C : crtmod_ok c) (Cs : is_size (Z.of_nat (crt_size c))) (Cm : is_size (mod_size c)).

(** The object of packed numbers: its ciphertexts carry them. *)
Definition pack_obj (b : Z) (zs : list Z) (d : pydict) : Prop :=
  exists cs e, carries pub c b zs cs /\ crtMod_2_dict c = Ret e /\ dict_get "ciphertexts" d = Ret (PyList (mpz_text <$> cs)) /\
    dict_get "crtMod" d = Ret (PyDict e) /\ dict_get "pack_size" d = Ret (PyInt (Z.of_nat (length zs))).

Lemma pack_entries_get cs e z d (new := [("ciphertexts", PyList cs); ("crtMod", e); ("pack_size", z)]%string) :
  dict_get "ciphertexts" (dict_update new d) = Ret (PyList cs) /\ dict_get "crtMod" (dict_update new d) = Ret e /\ dict_get "pack_size" (dict_update new d) = Ret z.
Proof.
  assert (Hnd : NoDup new.*1) by (apply (bool_decide_unpack _); vm_compute; exact I).
  by repeat split; apply dict_get_update.
Qed.

Lemma pack_object_ok b zs cs d : carries pub c b zs cs -> exists d', pack_object cs c (Z.of_nat (length zs)) d = Ret d' /\ pack_obj b zs d'.
Proof using GL PC C Cs Cm.
  intros H. destruct (crtmod_roundtrip c C Cs Cm) as (e & Ee & _). unfold pack_object. rewrite Ee. cbn [mbind res_bind].
  eexists. split; [reflexivity|]. exists cs, e. by destruct (pack_entries_get (mpz_text <$> cs) (PyDict e) (PyInt (Z.of_nat (length zs))) d) as (-> & -> & ->).
Qed.

Lemma pack_add_ok b1 b2 xs ys d1 d2 out e dp : length xs = length ys -> pack_obj b1 xs d1 -> pack_obj b2 ys d2 -> pub_entries pub = Ret e ->
  exists d3, opt_paillier_pack_add_warpper out d1 d2 (dict_update e dp) = Ret d3 /\ pack_obj (b1 + b2) (zip_with Z.add xs ys) d3.
Proof using GL K HP.
  intros Hl (k1 & e1 & H1 & E1 & G1 & M1 & S1) (k2 & e2 & H2 & E2 & G2 & M2 & S2) He.
  destruct (pub_roundtrip pub dp HP) as (e' & Ee' & Rp). rewrite He in Ee'. injection Ee' as <-.
  destruct (add_carries pub prv K c b1 b2 xs ys k1 k2 Hl H1 H2) as [H3 Hk].
  unfold opt_paillier_pack_add_warpper. rewrite Rp, G1, G2, M1, S1. cbn [mbind res_bind as_list]. rewrite length_fmap. set (f := fun i : nat => _).
  assert (M : mapM f (seq 0 (length k1)) = Ret (zip_with (fun a b => opt_paillier_add a b pub) k1 k2)).
  { replace (length k1) with (length (zip_with (fun a b => opt_paillier_add a b pub) k1 k2)) by (rewrite length_zip_with; lia).
    apply mapM_seq. intros i z Hi. apply lookup_zip_with_Some in Hi as (x & y & -> & Hx & Hy).
    unfold f, list_at. rewrite !list_lookup_fmap, Hx, Hy. cbn. by rewrite !mpz_of_text. }
  rewrite M. cbn [mbind res_bind]. eexists. split; [reflexivity|]. exists (zip_with (fun a b => opt_paillier_add a b pub) k1 k2), e1.
  replace (length (zip_with Z.add xs ys)) with (length xs) by (rewrite length_zip_with; lia).
  by destruct (pack_entries_get (mpz_text <$> zip_with (fun a b => opt_paillier_add a b pub) k1 k2) (PyDict e1) (PyInt (Z.of_nat (length xs))) out) as (-> & -> & ->).
Qed.

Lemma pack_decrypt_ok b zs d e dp ds : pack_obj b zs d -> b * (prod28 c - 1) < n pub -> all_fit c zs ->
  (Nat.min CRT_MOD_MAX_DIMENSION (length zs) <= crt_size c)%nat -> is_size (Z.of_nat (length zs)) -> pub_entries pub = Ret e ->
  opt_paillier_pack_decrypt_crt_warpper (dict_update e dp) (dict_update (prv_entries prv) ds) d = Ret (mpz_get_str 10 <$> zs).
Proof using GL K HP C Cs Cm.
  intros (cs & ec & H & Ec & Gc & M & S) Hb Hf Hl Hs He.
  destruct (pub_roundtrip pub dp HP) as (e' & Ee' & Rp). rewrite He in Ee'. injection Ee' as <-.
  destruct (crtmod_roundtrip c C Cs Cm) as (ec' & Ec' & Rc). rewrite Ec in Ec'. injection Ec' as <-.
  unfold opt_paillier_pack_decrypt_crt_warpper. rewrite Rp, prv_roundtrip, Gc. cbn [mbind res_bind as_list].
  rewrite (get_size_at "pack_size" _ _ S Hs), M. cbn [mbind res_bind]. rewrite Rc. cbn [mbind res_bind].
  by apply (unpack_carries pub prv K c C b).
Qed.

(** What both encryptions need: enough moduli and a mask for every 28 numbers. *)
Definition enough (zs : list Z) (draws : list (list Z)) : Prop :=
  (Nat.min CRT_MOD_MAX_DIMENSION (length zs) <= crt_size c)%nat /\ is_size (Z.of_nat (length zs)) /\
  Forall (fun data => device_bytes data (lbits pub)) draws /\ (length zs <= CRT_MOD_MAX_DIMENSION * length draws)%nat.

Lemma pack_loop_object enc draws zs plain out :
  (forall data m, device_bytes data (lbits pub) -> is_cipher pub m (enc data m)) -> enough zs draws -> py_str <$> plain = mpz_get_str 10 <$> zs ->
  exists d, (cs ← pack_loop (length plain) enc c draws (py_str <$> plain); pack_object cs c (Z.of_nat (length plain)) out) = Ret d /\ pack_obj 1 zs d.
Proof using GL PC C Cs Cm.
  intros He (Hs & _ & Hd & Hn) Hp. assert (Hlen : length plain = length zs) by (apply (f_equal length) in Hp; by rewrite !length_fmap in Hp).
  destruct (pack_loop_carries pub c C (length plain) enc draws zs He ltac:(lia) Hs Hd Hn) as (cs & Ec & Hc).
  rewrite Hp, Ec. cbn [mbind res_bind]. rewrite Hlen. by apply pack_object_ok.
Qed.

Lemma pack_encrypt_ok crt_data draws zs plain out e dp ec : enough zs draws -> py_str <$> plain = mpz_get_str 10 <$> zs ->
  pub_entries pub = Ret e -> crtMod_2_dict c = Ret ec ->
  exists d, opt_paillier_pack_encrypt_warpper crt_data draws out (dict_update e dp) plain (PyDict ec) = Ret d /\ pack_obj 1 zs d.
Proof using GL K HP C Cs Cm.
  intros Hen Hp He Hc.
  destruct (pub_roundtrip pub dp HP) as (e' & Ee' & Rp). rewrite He in Ee'. injection Ee' as <-.
  destruct (crtmod_roundtrip c C Cs Cm) as (ec' & Ec' & Rc). rewrite Hc in Ec'. injection Ec' as <-.
  unfold opt_paillier_pack_encrypt_warpper, moduli_of. rewrite Rp, Rc. cbn [mbind res_bind].
  apply pack_loop_object; [|done|done]. intros. by apply (encrypt_is_cipher pub prv K).
Qed.

Lemma pack_encrypt_crt_ok crt_data draws zs plain out e dp ds ec : enough zs draws -> py_str <$> plain = mpz_get_str 10 <$> zs ->
  pub_entries pub = Ret e -> crtMod_2_dict c = Ret ec ->
  exists d, opt_paillier_pack_encrypt_crt_warpper crt_data draws out (dict_update e dp) (dict_update (prv_entries prv) ds) plain (PyDict ec) = Ret d /\
    pack_obj 1 zs d.
Proof using GL K HP C Cs Cm.
  intros Hen Hp He Hc.
  destruct (pub_roundtrip pub dp HP) as (e' & Ee' & Rp). rewrite He in Ee'. injection Ee' as <-.
  destruct (crtmod_roundtrip c C Cs Cm) as (ec' & Ec' & Rc). rewrite Hc in Ec'. injection Ec' as <-.
  unfold opt_paillier_pack_encrypt_crt_warpper, moduli_of. rewrite Rp, prv_roundtrip, Rc. cbn [mbind res_bind].
  apply pack_loop_object; [|done|done]. intros. by apply encrypt_crt_is_cipher.
Qed.

(** C33: lists of numbers given as texts, one encrypted under the public key object,
    the other with the CRT under the objects of both keys, added as packed objects
    and decrypted, are the texts of the sums, however many numbers there are, when
    the moduli given are pairwise coprime, the sums fit them and twice their product
    is within the key's modulus. *)
Theorem packed_sums_correct xs ys px py e ec dp ds o1 o2 o3 crt_data draws1 draws2 :
  length xs = length ys -> enough xs draws1 -> enough ys draws2 -> py_str <$> px = mpz_get_str 10 <$> xs -> py_str <$> py = mpz_get_str 10 <$> ys ->
  pub_entries pub = Ret e -> crtMod_2_dict c = Ret ec ->
  all_fit c (zip_with Z.add xs ys) -> 2 * prod28 c <= n pub ->
  (d1 ← opt_paillier_pack_encrypt_warpper crt_data draws1 o1 (dict_update e dp) px (PyDict ec);
   d2 ← opt_paillier_pack_encrypt_crt_warpper crt_data draws2 o2 (dict_update e dp) (dict_update (prv_entries prv) ds) py (PyDict ec);
   d3 ← opt_paillier_pack_add_warpper o3 d1 d2 (dict_update e dp);
   opt_paillier_pack_decrypt_crt_warpper (dict_update e dp) (dict_update (prv_entries prv) ds) d3)
  = Ret (mpz_get_str 10 <$> zip_with Z.add xs ys).
Proof using GL K HP C Cs Cm.
  intros Hl Hx Hy Px Py He Hc Hf Hn.
  destruct (pack_encrypt_ok crt_data draws1 xs px o1 e dp ec Hx Px He Hc) as (d1 & E1 & O1). rewrite E1. cbn [mbind res_bind].
  destruct (pack_encrypt_crt_ok crt_data draws2 ys py o2 e dp ds ec Hy Py He Hc) as (d2 & E2 & O2). rewrite E2. cbn [mbind res_bind].
  destruct (pack_add_ok 1 1 xs ys d1 d2 o3 e dp Hl O1 O2 He) as (d3 & E3 & O3). rewrite E3. cbn [mbind res_bind].
  destruct Hx as (Hx1 & Hx2 & _). apply (pack_decrypt_ok (1 + 1) _ _ e); [done|lia|done| | |done]; by rewrite length_zip_with, <- Hl, Nat.min_id.
Qed.
End Python.

(** ** Key objects *)

Lemma init_extend_table_ok `{G : GmpOps} base m lb : is_size lb -> lb + 1 < 2 ^ 64 -> fb_table_ok (fbpowmod_init_extend base m (lb + 1) 4).
Proof.
  intros [H1 H2] H3. unfold fb_table_ok, fbpowmod_init_extend. cbn [m_t m_h m_w m_table_G]. rewrite length_fmap, length_seq. split; [done|].
  repeat split; try done; unfold ROUNDUP; rewrite Z.mod_small by lia; pose proof (Z.div_mod (lb + 1 - 1) 4 ltac:(lia)); pose proof (Z.mod_pos_bound (lb + 1 - 1) 4 ltac:(lia)); lia.
Qed.

Lemma build_keys_pub_ok `{G : GmpOps} nb lb p q p_ q_ P Q y : is_size nb -> is_size lb -> lb + 1 < 2 ^ 64 -> pub_ok (build_keys nb lb p q p_ q_ P Q y).1.
Proof. intros Hn Hl H. split; [done|]. split; [done|]. split; by apply init_extend_table_ok. Qed.

Lemma keygen_with_build `{G : GmpOps} nb lb draws k : keygen_with nb lb draws = Some k -> exists p q p_ q_ P Q y, k = build_keys nb lb p q p_ q_ P Q y.
Proof.
  unfold keygen_with. intros H. apply bind_Some in H as ([[p_ q_] d1] & _ & H). apply bind_Some in H as ([[p P] d2] & _ & H).
  apply bind_Some in H as ([[q Q] d3] & _ & H). apply bind_Some in H as ([y d4] & _ & H). injection H as <-. by exists p, q, p_, q_, P, Q, y.
Qed.

Lemma security_level_sizes k_sec nb lb : mapTo_nbits_lbits k_sec = Some (nb, lb) -> is_size nb /\ is_size lb /\ lb + 1 < 2 ^ 64.
Proof.
  intros H. unfold mapTo_nbits_lbits in H. unfold is_size.
  repeat case_match; simplify_eq; lia.
Qed.

(** Key generation on two objects: what the other functions read from them is the
    pair it made. *)
Lemma keygen_objects `{GL : GmpLaws} `{PC : PyConv} k_sec draws o1 o2 d1 d2 :
  opt_paillier_keygen_warpper k_sec draws o1 o2 = Ret (Some (d1, d2)) ->
  exists pub prv, opt_paillier_keygen k_sec draws = Ret (Some (pub, prv)) /\ py_pub_2_cpp_pub d1 = Ret pub /\ py_prv_2_cpp_prv d2 = Ret prv.
Proof.
  unfold opt_paillier_keygen_warpper, opt_paillier_keygen. destruct (mapTo_nbits_lbits k_sec) as [[nb lb]|] eqn:Em; [|done]. cbn [or_undef mbind res_bind].
  destruct (keygen_with nb lb draws) as [[pub prv]|] eqn:Ek; [|done]. intros H. exists pub, prv. split; [done|].
  apply security_level_sizes in Em as (Hn & Hl & H1). apply keygen_with_build in Ek as (p & q & p' & q' & P & Q & y & Ek).
  assert (Hp : pub_ok pub) by (replace pub with (build_keys nb lb p q p' q' P Q y).1 by (by rewrite <- Ek); by apply build_keys_pub_ok).
  destruct (pub_roundtrip pub o1 Hp) as (e & Ee & Re). rewrite Ee in H. cbn [mbind res_bind] in H. injection H as <- <-.
  split; [done|apply prv_roundtrip].
Qed.

(** ** Single ciphertexts *)

Section Single.
Context `{GL : GmpLaws} `{PC : PyConv}.
Context (pub : opt_public_key_t) (prv : opt_secret_key_t) (K : keypair_ok pub prv).
Context (d_pub d_prv : pydict) (Rp : py_pub_2_cpp_pub d_pub = Ret pub) (Rs : py_prv_2_cpp_prv d_prv = Ret prv).

(** The object of a ciphertext of [m]. *)
Definition cipher_obj (m : Z) (d : pydict) : Prop := exists c, dict_get "ciphertext" d = Ret (mpz_text c) /\ is_cipher pub m c.

Lemma set_cipher_obj m c d : is_cipher pub m c -> cipher_obj m (set_ciphertext c d).
Proof. intros H. exists c. split; [apply dict_get_set_eq|done]. Qed.

Lemma encrypt_obj data out s : device_bytes data (lbits pub) ->
  exists d, opt_paillier_encrypt_warpper data out d_pub s = Ret d /\ cipher_obj (opt_paillier_set_plaintext s pub 10) d.
Proof using GL K Rp.
  intros Hd. unfold opt_paillier_encrypt_warpper. rewrite Rp. eexists. split; [reflexivity|]. by apply set_cipher_obj, (encrypt_is_cipher pub prv K).
Qed.

(** A mask computed another way. *)
Lemma masked_is_cipher r m : 0 <= r -> is_cipher pub m (((m * n pub + 1) * (h_s pub ^ r mod n_squared pub)) mod n_squared pub).
Proof using K.
  intros Hr. pose proof (n2_pos pub prv K). split; [apply Z.mod_pos_bound; lia|]. exists r. split; [done|]. rewrite !mod_cong by lia. reflexivity.
Qed.

Lemma encrypt_crt_obj data out s : device_bytes data (lbits pub) ->
  exists d, opt_paillier_encrypt_crt_warpper data out d_pub d_prv s = Ret d /\ cipher_obj (opt_paillier_set_plaintext s pub 10) d.
Proof using GL K Rp Rs.
  intros Hd. unfold opt_paillier_encrypt_crt_warpper, opt_paillier_encrypt_crt_fb. rewrite Rp, Rs. cbn [mbind res_bind].
  pose proof (mask_range pub prv K _ Hd) as Hr.
  assert (Hlb := ok_lbits _ _ K). rewrite (mod_n_squared_crt_fb_ok pub prv K) by (rewrite Z.pow_add_r by lia; lia). cbn [mbind res_bind].
  eexists. split; [reflexivity|]. apply set_cipher_obj, masked_is_cipher; lia.
Qed.

Lemma get_cipher m d : cipher_obj m d -> exists c, get_mpz d "ciphertext" = Ret c /\ is_cipher pub m c.
Proof using GL. intros (c & H & Hc). exists c. split; [by apply get_mpz_at|done]. Qed.

Lemma add_obj m1 m2 d1 d2 out : cipher_obj m1 d1 -> cipher_obj m2 d2 ->
  exists d, opt_paillier_add_warpper out d1 d2 d_pub = Ret d /\ cipher_obj (m1 + m2) d.
Proof using GL K Rp.
  intros (c1 & G1 & H1)%get_cipher (c2 & G2 & H2)%get_cipher. unfold opt_paillier_add_warpper. rewrite Rp. cbn [mbind res_bind]. rewrite G1. cbn [mbind res_bind].
  rewrite G2. eexists. split; [reflexivity|]. by apply set_cipher_obj, (add_is_cipher pub prv K).
Qed.

Lemma set_plaintext_cong z : opt_paillier_set_plaintext (mpz_get_str 10 z) pub 10 =[ n pub ]= z /\ 0 <= opt_paillier_set_plaintext (mpz_get_str 10 z) pub 10.
Proof using GL K.
  pose proof (n_pos pub prv K). unfold opt_paillier_set_plaintext. rewrite mpz_str_roundtrip. destruct (Z.ltb_spec z 0); [|split; [reflexivity|done]].
  split; [|apply Z.mod_pos_bound; lia]. rewrite mod_cong by lia. exists 1. lia.
Qed.

Lemma cons_mul_obj m d k out : cipher_obj m d ->
  exists d', opt_paillier_cons_mul_warpper out d (mpz_get_str 10 k) d_pub = Ret d' /\
    cipher_obj (opt_paillier_set_plaintext (mpz_get_str 10 k) pub 10 * m) d'.
Proof using GL K Rp.
  intros (c & Gc & H)%get_cipher. unfold opt_paillier_cons_mul_warpper. rewrite Rp. cbn [mbind res_bind]. rewrite Gc. eexists. split; [reflexivity|].
  apply set_cipher_obj, (constant_mul_is_cipher pub prv K); [apply set_plaintext_cong|done].
Qed.

Lemma n_odd : n pub = half_n pub * 2 + 1.
Proof using K.
  destruct K. rewrite ok_half. assert (E : n pub mod 2 = 1).
  { rewrite ok_n, ok_P_eq, ok_Q_eq.
    replace ((p prv * p_ prv * 2 + 1) * (q prv * q_ prv * 2 + 1))
      with (1 + (p prv * p_ prv * (q prv * q_ prv * 2 + 1) + q prv * q_ prv) * 2) by ring.
    by rewrite Z.mod_add by lia. }
  pose proof (Z.div_mod (n pub) 2). lia.
Qed.

Lemma decrypt_obj m z d : cipher_obj m d -> m =[ n pub ]= z -> - half_n pub - 1 <= z < half_n pub ->
  opt_paillier_decrypt_crt_warpper d_pub d_prv d = Ret (mpz_get_str 10 z).
Proof using GL K Rp Rs.
  intros (c & Gc & H)%get_cipher Hm Hz. unfold opt_paillier_decrypt_crt_warpper. rewrite Rp, Rs. cbn [mbind res_bind]. rewrite Gc. cbn [mbind res_bind].
  rewrite (decrypt_crt_cipher pub prv K m) by done. cbn [mbind res_bind]. f_equal. pose proof (n_pos pub prv K). pose proof n_odd.
  assert (E : m mod n pub = if z <? 0 then z + n pub else z).
  { apply mod_eq_cong; [destruct (Z.ltb_spec z 0); lia|]. rewrite Hm. destruct (z <? 0); [exists (-1); lia|reflexivity]. }
  rewrite E. unfold opt_paillier_get_plaintext. destruct (Z.ltb_spec z 0).
  - destruct (Z.leb_spec (half_n pub) (z + n pub)); [f_equal; lia|lia].
  - destruct (Z.leb_spec (half_n pub) z); [lia|done].
Qed.

(** One encrypted and multiplied by a constant of either sign, another
    encrypted with the tables, both added: the object decrypts to the text of
    [k * x + y] when that fits. *)
Lemma weighted_sum_correct x y k data1 data2 o1 o2 o3 o4 :
  device_bytes data1 (lbits pub) -> device_bytes data2 (lbits pub) -> - half_n pub - 1 <= k * x + y < half_n pub ->
  (d1 ← opt_paillier_encrypt_warpper data1 o1 d_pub (mpz_get_str 10 x);
   d2 ← opt_paillier_encrypt_crt_warpper data2 o2 d_pub d_prv (mpz_get_str 10 y);
   d3 ← opt_paillier_cons_mul_warpper o3 d1 (mpz_get_str 10 k) d_pub;
   d4 ← opt_paillier_add_warpper o4 d3 d2 d_pub;
   opt_paillier_decrypt_crt_warpper d_pub d_prv d4) = Ret (mpz_get_str 10 (k * x + y)).
Proof using GL K Rp Rs.
  intros H1 H2 Hz. destruct (encrypt_obj data1 o1 (mpz_get_str 10 x) H1) as (d1 & -> & O1). cbn [mbind res_bind].
  destruct (encrypt_crt_obj data2 o2 (mpz_get_str 10 y) H2) as (d2 & -> & O2). cbn [mbind res_bind].
  destruct (cons_mul_obj _ d1 k o3 O1) as (d3 & -> & O3). cbn [mbind res_bind].
  destruct (add_obj _ _ d3 d2 o4 O3 O2) as (d4 & -> & O4). cbn [mbind res_bind].
  apply (decrypt_obj _ _ _ O4); [|done].
  rewrite (proj1 (set_plaintext_cong k)), (proj1 (set_plaintext_cong x)), (proj1 (set_plaintext_cong y)). reflexivity.
Qed.
End Single.

(** ** Concrete objects *)

(** Two moduli whose product fits the toy key. *)
Definition small_crt : CrtMod := {| crt_mod := [29; 31]; crt_half_mod := [14; 15]; crt_size := 2; mod_size := 4 |}.

Lemma small_crt_ok : crtmod_ok small_crt.
Proof.
  split; [reflexivity|repeat constructor; lia|reflexivity|].
  apply distinct_primes_coprime; [|by apply (bool_decide_unpack _); vm_compute].
  repeat constructor; apply primeb_spec; vm_compute; reflexivity.
Qed.

(** No conversions. *)
#[local] Instance no_conv : PyConv := {| repr _ := EmptyString; number _ := Throw; seq_of _ := Throw; dict_of _ := Throw |}.

Definition ret_or {A} (a : A) (r : res A) : A := match r with Ret x => x | _ => a end.

Lemma toy_pub_ok : pub_ok toy_keys.1.
Proof. apply build_keys_pub_ok; unfold is_size; lia. Qed.

Lemma toy_enough zs : (length zs <= 2)%nat -> enough toy_keys.1 small_crt zs [[3]].
Proof.
  intros H. unfold enough, is_size, CRT_MOD_MAX_DIMENSION. cbn [crt_size small_crt length].
  split; [lia|]. split; [lia|]. split; [|lia]. constructor; [apply toy_mask|constructor].
Qed.

Lemma small_fit z1 z2 : fits z1 29 -> fits z2 31 -> all_fit small_crt [z1; z2].
Proof. intros H1 H2 [|[|i]] z m Hi Hm; cbn in Hi; simplify_eq; cbn in Hm; by simplify_eq. Qed.

(** Two numbers each of two parties. *)
Lemma packed_sums_correct_witness :
  let e := ret_or [] (pub_entries toy_keys.1) in let s := prv_entries toy_keys.2 in let c := PyDict (ret_or [] (crtMod_2_dict small_crt)) in
  (d1 ← opt_paillier_pack_encrypt_warpper [] [[3]] [] (dict_update e []) [PyStr "-5"; PyStr "6"] c;
   d2 ← opt_paillier_pack_encrypt_crt_warpper [] [[3]] [] (dict_update e []) (dict_update s []) [PyStr "8"; PyStr "-12"] c;
   d3 ← opt_paillier_pack_add_warpper [] d1 d2 (dict_update e []);
   opt_paillier_pack_decrypt_crt_warpper (dict_update e []) (dict_update s []) d3) = Ret ["3"; "-6"]%string.
Proof.
  intros e s c.
  refine (packed_sums_correct toy_keys.1 toy_keys.2 toy_keys_ok toy_pub_ok small_crt small_crt_ok _ _ [-5; 6] [8; -12] _ _ e _ [] [] [] [] [] [] [[3]] [[3]]
    eq_refl (toy_enough _ _) (toy_enough _ _) _ _ _ _ _ _);
    [unfold is_size; cbn; lia|unfold is_size; cbn; lia|cbn; lia|cbn; lia|vm_compute; reflexivity..|apply small_fit; vm_compute; split; congruence|vm_compute; congruence].
Defined.

Lemma weighted_sum_example :
  let e := ret_or [] (pub_entries toy_keys.1) in let s := prv_entries toy_keys.2 in
  (d1 ← opt_paillier_encrypt_warpper [3] [] e "25";
   d2 ← opt_paillier_encrypt_crt_warpper [3] [] e s "7";
   d3 ← opt_paillier_cons_mul_warpper [] d1 "-4" e;
   d4 ← opt_paillier_add_warpper [] d3 d2 e;
   opt_paillier_decrypt_crt_warpper e s d4) = Ret "-93"%string.
Proof. vm_compute. reflexivity. Qed.

(** Other moduli, of the same number. *)
Definition other_crt : CrtMod := {| crt_mod := [31; 37]; crt_half_mod := [15; 18]; crt_size := 2; mod_size := 4 |}.

(** Packs made under different moduli, as two encryptions without given moduli are,
    are added without complaint: the sums of 1 and 2 and of 4 and -3 come out as -12
    and 6. *)
Lemma other_moduli_unnoticed :
  let e := ret_or [] (pub_entries toy_keys.1) in let s := prv_entries toy_keys.2 in
  (d1 ← opt_paillier_pack_encrypt_warpper [] [[3]] [] e [PyStr "1"; PyStr "4"] (PyDict (ret_or [] (crtMod_2_dict small_crt)));
   d2 ← opt_paillier_pack_encrypt_warpper [] [[3]] [] e [PyStr "2"; PyStr "-3"] (PyDict (ret_or [] (crtMod_2_dict other_crt)));
   d3 ← opt_paillier_pack_add_warpper [] d1 d2 e; opt_paillier_pack_decrypt_crt_warpper e s d3) = Ret ["-12"; "6"]%string.
Proof. vm_compute. reflexivity. Qed.
