(* ===== verification/Aby3Op.v ===== *)
(** * The MPC operator on replicated secret shares

    Models [operator/aby3_operator.{h,cc}].  A matrix of secret 64-bit values is
    held by three parties: with [x0 + x1 + x2] the secret modulo [2^64], party [i]
    holds [(x_i, x_{i-1})].  The linear operations ([MPC_Add], [MPC_Sub] and their
    constant forms) are the repository's own code and are modelled per party, with
    the party's index deciding which component a constant goes into; sharing,
    opening and multiplication are calls into the aby3 library, which is outside
    the repository: the interface [Aby3] names them and [Aby3Laws] says what is
    relied on.  [aby3_model] is a concrete instance.  Share arithmetic wraps. *)

From Stdlib Require Import Ascii String ZArith Lia SpecFloat.
From stdpp Require Import base tactics list option.
From S2P Require Import Prelude ModArith Machine.

Local Open Scope Z_scope.

(** ** Matrices and a party's shares *)

Record i64Matrix := Mat { rows : nat; cols : nat; cells : list Z }.

Definition mat_ok (m : i64Matrix) : Prop := length (cells m) = (rows m * cols m)%nat.
Definition same_shape (a b : i64Matrix) : Prop := rows a = rows b /\ cols a = cols b.

#[export] Instance i64Matrix_eq_dec : EqDecision i64Matrix.
Proof. solve_decision. Defined.

(** The double loop over rows and columns that writes [f] of each cell. *)
Definition mat_map (f : Z -> Z) (m : i64Matrix) : i64Matrix := Mat (rows m) (cols m) (f <$> cells m).
Definition mat_zip (f : Z -> Z -> Z) (a b : i64Matrix) : i64Matrix :=
  Mat (rows a) (cols a) (zip_with f (cells a) (cells b)).

(** What one party holds: [m[0]] is its own component, [m[1]] its predecessor's.
    [si64Matrix] and [sf64Matrix] have this same representation. *)
Record si64Matrix := Sh { sh0 : i64Matrix; sh1 : i64Matrix }.

Definition sh_rows (s : si64Matrix) : nat := rows (sh0 s).
Definition sh_cols (s : si64Matrix) : nat := cols (sh0 s).

(** One value per party. *)
Record trip (A : Type) := Trip { at0 : A; at1 : A; at2 : A }.
Arguments Trip {A} at0 at1 at2.
Arguments at0 {A} t.
Arguments at1 {A} t.
Arguments at2 {A} t.

Definition trip_map {A B} (f : A -> B) (t : trip A) : trip B := Trip (f (at0 t)) (f (at1 t)) (f (at2 t)).
(** The same program at each party, with the party's index. *)
Definition each {A B} (f : Z -> A -> B) (t : trip A) : trip B := Trip (f 0 (at0 t)) (f 1 (at1 t)) (f 2 (at2 t)).
Definition each2 {A B C} (f : Z -> A -> B -> C) (t : trip A) (u : trip B) : trip C :=
  Trip (f 0 (at0 t) (at0 u)) (f 1 (at1 t) (at1 u)) (f 2 (at2 t) (at2 u)).

(** ** Calls into aby3

    [Sh3Encryptor] ([localIntMatrix], [remoteIntMatrix] and the fixed-point
    forms), [Sh3Evaluator] ([asyncDotMul], [asyncMul], [asyncConstFixedMul]) and
    [Sh3Piecewise]: every party makes its call and the three receive their shares.
    A threshold or coefficient of a piecewise polynomial is assigned from an
    integer or from a double. *)
Inductive Coef := CoefInt (z : Z) | CoefDouble (d : double).

Inductive call :=
| LocalInt (m : i64Matrix)
| RemoteInt (r c : nat)
| LocalFixed (m : i64Matrix)
| RemoteFixed (r c : nat)
| DotMul (A B : si64Matrix)
| DotMulFixed (A B : si64Matrix)
| ConstFixedMul (c : Z) (A : si64Matrix)
(** [asyncMul] of fixed-point matrices, truncated by [shift] bits more than the decimals *)
| MatMulFixed (shift : Z) (A B : si64Matrix)
(** [Sh3Piecewise::eval] with the thresholds and coefficients of the object *)
| Piecewise (fixed : bool) (thresholds : list Coef) (coefficients : list (list Coef)) (A : si64Matrix)
(** [asyncConstMul_test] *)
| ConstMulTest (c : Z) (A : si64Matrix).

Class Aby3 := {
  share_add : si64Matrix -> si64Matrix -> si64Matrix;
  share_sub : si64Matrix -> si64Matrix -> si64Matrix;
  asyncConstMul : Z -> si64Matrix -> si64Matrix;
  to_fixed : double -> Z;
  of_fixed : Z -> double;
  (** the answers to the [n]-th round of calls; [None] when the calls do not fit
      together and the parties wait for each other *)
  joint : nat -> trip call -> option (trip si64Matrix);
  (** [Sh3Encryptor::reveal]: what the receiving party opens *)
  reveal_to : nat -> trip si64Matrix -> option i64Matrix;
  (** the relation between the fixed-point operands and the truncated product *)
  fixed_product : Z -> Z -> Z -> Prop;
  (** the number [D] of binary decimals of [sf64Matrix<D>] *)
  frac_bits : Z;
  (** [truncated k v z]: [z] is what truncating the shared [v] by [k] bits may give *)
  truncated : Z -> Z -> Z -> Prop;
}.

(** ** The shared secret *)

Definition open_cells (t : trip si64Matrix) : list Z :=
  zip_with (fun a b => wrap (a + b)) (zip_with (fun a b => wrap (a + b)) (cells (sh0 (at0 t))) (cells (sh0 (at1 t))))
    (cells (sh0 (at2 t))).

Definition opened (t : trip si64Matrix) : i64Matrix :=
  Mat (sh_rows (at0 t)) (sh_cols (at0 t)) (open_cells t).

(** The parties hold a replicated sharing of [m]. *)
Definition shares (t : trip si64Matrix) (m : i64Matrix) : Prop :=
  mat_ok (sh0 (at0 t)) /\ mat_ok (sh0 (at1 t)) /\ mat_ok (sh0 (at2 t)) /\
  same_shape (sh0 (at1 t)) (sh0 (at0 t)) /\ same_shape (sh0 (at2 t)) (sh0 (at0 t)) /\
  sh1 (at0 t) = sh0 (at2 t) /\ sh1 (at1 t) = sh0 (at0 t) /\ sh1 (at2 t) = sh0 (at1 t) /\
  opened t = m.

(** Party [i] owns [m]: it makes the local call, the others the remote one. *)
Definition owner_calls (loc rem : call) (i : Z) : trip call :=
  if i =? 0 then Trip loc rem rem else if i =? 1 then Trip rem loc rem else Trip rem rem loc.

(** What the development relies on from aby3. *)
Class Aby3Laws (E : Aby3) : Prop := {
  share_add_law A B : same_shape (sh0 A) (sh0 B) -> same_shape (sh1 A) (sh1 B) ->
    share_add A B = Sh (mat_zip (fun x y => wrap (x + y)) (sh0 A) (sh0 B)) (mat_zip (fun x y => wrap (x + y)) (sh1 A) (sh1 B));
  share_sub_law A B : same_shape (sh0 A) (sh0 B) -> same_shape (sh1 A) (sh1 B) ->
    share_sub A B = Sh (mat_zip (fun x y => wrap (x - y)) (sh0 A) (sh0 B)) (mat_zip (fun x y => wrap (x - y)) (sh1 A) (sh1 B));
  const_mul_law c A :
    asyncConstMul c A = Sh (mat_map (fun x => wrap (c * x)) (sh0 A)) (mat_map (fun x => wrap (c * x)) (sh1 A));
  to_fixed_range d : in_i64 (to_fixed d) = true;
  local_int_law n i m : 0 <= i < 3 -> mat_ok m -> Forall (fun x => in_i64 x = true) (cells m) ->
    exists t, joint n (owner_calls (LocalInt m) (RemoteInt (rows m) (cols m)) i) = Some t /\ shares t m;
  local_fixed_law n i m : 0 <= i < 3 -> mat_ok m -> Forall (fun x => in_i64 x = true) (cells m) ->
    exists t, joint n (owner_calls (LocalFixed m) (RemoteFixed (rows m) (cols m)) i) = Some t /\ shares t m;
  dot_mul_law n A B a b : shares A a -> shares B b -> same_shape a b ->
    exists t, joint n (each2 (fun _ => DotMul) A B) = Some t /\ shares t (mat_zip (fun x y => wrap (x * y)) a b);
  dot_mul_fixed_law n A B a b : shares A a -> shares B b -> same_shape a b ->
    exists t c, joint n (each2 (fun _ => DotMulFixed) A B) = Some t /\ shares t c /\ same_shape c a /\
      Forall2 (fun xy z => fixed_product (xy.1) (xy.2) z) (zip (cells a) (cells b)) (cells c);
  const_fixed_law n k A a : shares A a -> in_i64 k = true ->
    exists t c, joint n (trip_map (ConstFixedMul k) A) = Some t /\ shares t c /\ same_shape c a /\
      Forall2 (fun x z => fixed_product k x z) (cells a) (cells c);
  reveal_law n t m : shares t m -> reveal_to n t = Some m;
}.

(** *** Fixed-point numbers, piecewise polynomials and matrix products

    The thresholds cut the line into regions; a value equal to a threshold is in
    the upper region.  The list of a region holds the constant and, when there is
    one, the linear coefficient. *)
Definition coef_value `{E : Aby3} (fixed : bool) (c : Coef) : Z :=
  match c with CoefInt z => if fixed then z * 2 ^ frac_bits else z | CoefDouble d => if fixed then to_fixed d else 0 end.

Definition poly_value `{E : Aby3} (fixed : bool) (c : list Coef) (y : Z) : Z :=
  match c with
  | [] => 0
  | [c0] => coef_value fixed c0
  | c0 :: CoefInt k :: _ => wrap (coef_value fixed c0 + k * y)
  | c0 :: CoefDouble _ :: _ => 0
  end.

Fixpoint piece_value `{E : Aby3} (fixed : bool) (thresholds : list Coef) (coefficients : list (list Coef)) (y : Z) {struct coefficients} : Z :=
  match coefficients with
  | [] => 0
  | c :: coefficients =>
      match thresholds with
      | [] => poly_value fixed c y
      | t :: thresholds => if y <? coef_value fixed t then poly_value fixed c y else piece_value fixed thresholds coefficients y
      end
  end.

(** The regions the development uses: constants, or an integer linear
    coefficient (which needs no truncation); in an integer polynomial every
    number is an integer or zero. *)
Definition coef_ok `{E : Aby3} (fixed : bool) (c : Coef) : bool :=
  match c with
  | CoefInt z => in_i64 (coef_value fixed c)
  | CoefDouble d => fixed || match d with S754_zero _ => true | _ => false end
  end.

Definition poly_ok `{E : Aby3} (fixed : bool) (c : list Coef) : bool :=
  match c with
  | [] => true
  | [c0] => coef_ok fixed c0
  | [c0; CoefInt k] => coef_ok fixed c0
  | _ => false
  end.

Definition mat_row (m : i64Matrix) (i : nat) : list Z := take (cols m) (drop (i * cols m) (cells m)).
Definition mat_col (m : i64Matrix) (j : nat) : list Z :=
  (fun i => nth (i * cols m + j) (cells m) 0) <$> seq 0 (rows m).
Definition inner (u v : list Z) : Z := fold_right Z.add 0 (zip_with Z.mul u v).
(** The cells of the exact product, row by row. *)
Definition mat_prod (a b : i64Matrix) : list Z :=
  concat ((fun i => (fun j => inner (mat_row a i) (mat_col b j)) <$> seq 0 (cols b)) <$> seq 0 (rows a)).

(** What the fixed-point code relies on, with [ulp] the error of a truncation in
    units of the last place: the conversion of a double cuts off the places that
    do not fit, the conversion back divides by [2^D], a product that does not
    overflow is off by at most [ulp] units. *)
Class FixedPointLaws (E : Aby3) (ulp : Z) : Prop := {
  frac_bits_pos : 0 < frac_bits;
  ulp_pos : 1 <= ulp;
  to_fixed_law s m e : let v := Z.shiftl (Z.pos m * 2 ^ frac_bits) e in
    in_i64 v = true -> to_fixed (S754_finite s m e) = if s then - v else v;
  to_fixed_at_zero s : to_fixed (S754_zero s) = 0;
  of_fixed_law z : of_fixed z = binary_normalize d_prec d_emax z (- frac_bits) false;
  fixed_product_law x y z : fixed_product x y z -> Z.abs (x * y) < 2 ^ 62 ->
    Z.abs (z * 2 ^ frac_bits - x * y) <= ulp * 2 ^ frac_bits;
  truncated_law k v z : truncated k v z -> 0 <= k -> Z.abs v < 2 ^ 62 -> Z.abs (z * 2 ^ k - v) <= ulp * 2 ^ k;
  piecewise_law n fixed th co A a : shares A a -> cols a = 1%nat -> forallb (coef_ok fixed) th = true ->
    forallb (poly_ok fixed) co = true ->
    exists t, joint n (trip_map (Piecewise fixed th co) A) = Some t /\ shares t (mat_map (piece_value fixed th co) a);
  matmul_law n k A B a b : shares A a -> shares B b -> cols a = rows b -> 0 <= k ->
    exists t c, joint n (each2 (fun _ => MatMulFixed k) A B) = Some t /\ shares t c /\ rows c = rows a /\ cols c = cols b /\
      Forall2 (truncated (frac_bits + k)) (mat_prod a b) (cells c);
}.

(** What the tests for zero rely on: parties that pass the same constant hold shares
    of its product with the secret. *)
Class ZeroTestLaws (E : Aby3) : Prop := {
  const_mul_test_law n c A a : shares A a ->
    exists t, joint n (trip_map (ConstMulTest c) A) = Some t /\ shares t (mat_map (fun x => wrap (c * x)) a);
}.

(** ** The operations of the repository *)

Section Operator.
Context `{E : Aby3}.

(** [sharedInt[0]] of an empty vector is undefined. *)
Definition MPC_Add (sharedInt : list si64Matrix) : res si64Matrix :=
  match sharedInt with
  | [] => Undef
  | sum :: rest => Ret (fold_left share_add rest sum)
  end.

Definition MPC_Sub (minuend : si64Matrix) (subtrahends : list si64Matrix) : si64Matrix :=
  fold_left share_sub subtrahends minuend.

Definition MPC_Add_Const (partyIdx constInt : Z) (sharedIntMatrix : si64Matrix) : si64Matrix :=
  let temp := sharedIntMatrix in
  if partyIdx =? 0 then Sh (mat_map (fun x => wrap (x + constInt)) (sh0 sharedIntMatrix)) (sh1 temp)
  else if partyIdx =? 1 then Sh (sh0 temp) (mat_map (fun x => wrap (x + constInt)) (sh1 sharedIntMatrix))
  else temp.

Definition MPC_Sub_Const (partyIdx constInt : Z) (sharedIntMatrix : si64Matrix) (mode : bool) : si64Matrix :=
  let temp := sharedIntMatrix in
  let temp :=
    if partyIdx =? 0 then Sh (mat_map (fun x => wrap (x - constInt)) (sh0 sharedIntMatrix)) (sh1 temp)
    else if partyIdx =? 1 then Sh (sh0 temp) (mat_map (fun x => wrap (x - constInt)) (sh1 sharedIntMatrix))
    else temp in
  if mode then temp
  else Sh (mat_map (fun x => wrap (- x)) (sh0 temp)) (mat_map (fun x => wrap (- x)) (sh1 temp)).

Definition MPC_Mul_Const (constInt : Z) (sharedIntMatrix : si64Matrix) : si64Matrix :=
  asyncConstMul constInt sharedIntMatrix.

(** The shape check of [MPC_Dot_Mul]. *)
Definition dot_shapes (A B : si64Matrix) : bool :=
  bool_decide (sh_cols A = sh_cols B) && bool_decide (sh_rows A = sh_rows B).
End Operator.

(** ** Shares as three component vectors *)

Definition open3 (x0 x1 x2 : list Z) : list Z :=
  zip_with (fun a b => wrap (a + b)) (zip_with (fun a b => wrap (a + b)) x0 x1) x2.

Definition rep (r c : nat) (x0 x1 x2 : list Z) : trip si64Matrix :=
  Trip (Sh (Mat r c x0) (Mat r c x2)) (Sh (Mat r c x1) (Mat r c x0)) (Sh (Mat r c x2) (Mat r c x1)).

Lemma shares_rep r c x0 x1 x2 :
  length x0 = (r * c)%nat -> length x1 = (r * c)%nat -> length x2 = (r * c)%nat ->
  shares (rep r c x0 x1 x2) (Mat r c (open3 x0 x1 x2)).
Proof. intros. repeat split; done. Qed.

Lemma shares_inv t m : shares t m -> exists r c x0 x1 x2,
  t = rep r c x0 x1 x2 /\ m = Mat r c (open3 x0 x1 x2) /\
  length x0 = (r * c)%nat /\ length x1 = (r * c)%nat /\ length x2 = (r * c)%nat.
Proof.
  destruct t as [[[r c x0] b0] [[r1 c1 x1] b1] [[r2 c2 x2] b2]]. unfold shares, mat_ok, same_shape; simpl.
  intros (H0 & H1 & H2 & [-> ->] & [-> ->] & -> & -> & -> & <-). by exists r, c, x0, x1, x2.
Qed.

Lemma open3_length x0 x1 x2 n :
  length x0 = n -> length x1 = n -> length x2 = n -> length (open3 x0 x1 x2) = n.
Proof. intros. unfold open3. rewrite !length_zip_with. lia. Qed.

Lemma open3_range x0 x1 x2 : Forall (fun x => in_i64 x = true) (open3 x0 x1 x2).
Proof.
  unfold open3. generalize (zip_with (fun a b => wrap (a + b)) x0 x1). intros l. revert x2.
  induction l as [|a l IH]; intros [|b x2]; simpl; constructor; [|done].
  apply in_i64_spec, wrap_range.
Qed.

(** Facts about every secret that is shared. *)
Lemma shares_ok t m : shares t m ->
  mat_ok m /\ Forall (fun x => in_i64 x = true) (cells m) /\
  sh_rows (at0 t) = rows m /\ sh_cols (at0 t) = cols m /\ sh_rows (at1 t) = rows m /\ sh_cols (at1 t) = cols m /\
  sh_rows (at2 t) = rows m /\ sh_cols (at2 t) = cols m.
Proof.
  intros (r & c & x0 & x1 & x2 & -> & -> & ? & ? & ?)%shares_inv. unfold mat_ok. simpl.
  split; [by apply open3_length|]. split; [apply open3_range|done].
Qed.


Lemma open3_map (f g : Z -> Z) x0 x1 x2 n :
  length x0 = n -> length x1 = n -> length x2 = n ->
  (forall a b c, wrap (wrap (f a + f b) + f c) = g (wrap (wrap (a + b) + c))) ->
  open3 (f <$> x0) (f <$> x1) (f <$> x2) = g <$> open3 x0 x1 x2.
Proof.
  unfold open3. revert x0 x1 x2. induction n as [|n IH]; intros [|a x0] [|b x1] [|c x2] ??? H; try discriminate; simpl in *; [done|].
  rewrite H. f_equal. apply IH; [lia..|done].
Qed.

Lemma open3_map0 (f g : Z -> Z) x0 x1 x2 n :
  length x0 = n -> length x1 = n -> length x2 = n ->
  (forall a b c, wrap (wrap (f a + b) + c) = g (wrap (wrap (a + b) + c))) ->
  open3 (f <$> x0) x1 x2 = g <$> open3 x0 x1 x2.
Proof.
  unfold open3. revert x0 x1 x2. induction n as [|n IH]; intros [|a x0] [|b x1] [|c x2] ??? H; try discriminate; simpl in *; [done|].
  rewrite H. f_equal. apply IH; [lia..|done].
Qed.

Lemma open3_zip (f : Z -> Z -> Z) x0 x1 x2 y0 y1 y2 n :
  length x0 = n -> length x1 = n -> length x2 = n -> length y0 = n -> length y1 = n -> length y2 = n ->
  (forall a b c a' b' c', wrap (wrap (f a a' + f b b') + f c c') = f (wrap (wrap (a + b) + c)) (wrap (wrap (a' + b') + c'))) ->
  open3 (zip_with f x0 y0) (zip_with f x1 y1) (zip_with f x2 y2) = zip_with f (open3 x0 x1 x2) (open3 y0 y1 y2).
Proof.
  unfold open3. revert x0 x1 x2 y0 y1 y2.
  induction n as [|n IH]; intros [|a x0] [|b x1] [|c x2] [|a' y0] [|b' y1] [|c' y2] ?????? H; try discriminate; simpl in *; [done|].
  rewrite H. f_equal. apply IH; [lia..|done].
Qed.

(** Selecting cells commutes with opening. *)
Lemma open3_nth (idx : list nat) n x0 x1 x2 : length x0 = n -> length x1 = n -> length x2 = n -> Forall (fun i => (i < n)%nat) idx ->
  let pick x := (fun i => nth i x 0) <$> idx in open3 (pick x0) (pick x1) (pick x2) = pick (open3 x0 x1 x2).
Proof.
  intros H0 H1 H2 HF pick. unfold pick. induction HF as [|i idx Hi HF IH]; [done|]. cbn [fmap list_fmap].
  unfold open3 at 1. cbn [zip_with]. f_equal; [|apply IH]. symmetry. apply nth_lookup_Some. unfold open3.
  apply lookup_zip_with_Some.
  exists (wrap (nth i x0 0 + nth i x1 0)), (nth i x2 0). split; [done|].
  assert (Hl : forall x, length x = n -> x !! i = Some (nth i x 0)).
  { intros x Hx. destruct (x !! i) as [z|] eqn:Ez; [by rewrite (nth_lookup_Some _ _ _ _ Ez)|apply lookup_ge_None in Ez; lia]. }
  split; [|by apply Hl]. apply lookup_zip_with_Some. exists (nth i x0 0), (nth i x1 0). auto.
Qed.

(** ** The operations act on the secret *)

Section OperatorFacts.
Context `{L : Aby3Laws}.

Lemma shares_add A B a b : shares A a -> shares B b -> same_shape a b ->
  shares (each2 (fun _ => share_add) A B) (mat_zip (fun x y => wrap (x + y)) a b).
Proof.
  intros (r & c & x0 & x1 & x2 & -> & -> & ? & ? & ?)%shares_inv (r' & c' & y0 & y1 & y2 & -> & -> & ? & ? & ?)%shares_inv [Hr Hc].
  simpl in Hr, Hc. subst r' c'. unfold each2. simpl. rewrite !share_add_law by done. unfold mat_zip. simpl.
  rewrite <- open3_zip with (n := (r * c)%nat); [|done..|intros; wrap_ring].
  apply shares_rep; rewrite length_zip_with; lia.
Qed.

Lemma shares_sub A B a b : shares A a -> shares B b -> same_shape a b ->
  shares (each2 (fun _ => share_sub) A B) (mat_zip (fun x y => wrap (x - y)) a b).
Proof.
  intros (r & c & x0 & x1 & x2 & -> & -> & ? & ? & ?)%shares_inv (r' & c' & y0 & y1 & y2 & -> & -> & ? & ? & ?)%shares_inv [Hr Hc].
  simpl in Hr, Hc. subst r' c'. unfold each2. simpl. rewrite !share_sub_law by done. unfold mat_zip. simpl.
  rewrite <- open3_zip with (n := (r * c)%nat); [|done..|intros; wrap_ring].
  apply shares_rep; rewrite length_zip_with; lia.
Qed.

Lemma shares_add_const k A a : shares A a ->
  shares (each (fun i => MPC_Add_Const i k) A) (mat_map (fun x => wrap (x + k)) a).
Proof.
  intros (r & c & x0 & x1 & x2 & -> & -> & ? & ? & ?)%shares_inv. unfold mat_map. simpl.
  rewrite <- open3_map0 with (n := (r * c)%nat) (f := fun x => wrap (x + k)); [|done..|intros; wrap_ring].
  apply shares_rep; rewrite ?length_fmap; done.
Qed.

Lemma shares_neg A a : shares A a ->
  shares (trip_map (fun s => Sh (mat_map (fun x => wrap (- x)) (sh0 s)) (mat_map (fun x => wrap (- x)) (sh1 s))) A)
    (mat_map (fun x => wrap (- x)) a).
Proof.
  intros (r & c & x0 & x1 & x2 & -> & -> & ? & ? & ?)%shares_inv. unfold mat_map. simpl.
  rewrite <- open3_map with (n := (r * c)%nat) (f := fun x => wrap (- x)); [|done..|intros; wrap_ring].
  apply shares_rep; rewrite ?length_fmap; done.
Qed.

Lemma shares_sub_const k A a (mode : bool) : shares A a ->
  shares (each (fun i s => MPC_Sub_Const i k s mode) A)
    (mat_map (fun x => if mode then wrap (x - k) else wrap (k - x)) a).
Proof.
  intros H.
  assert (H1 : shares (each (fun i s => MPC_Sub_Const i k s true) A) (mat_map (fun x => wrap (x - k)) a)).
  { destruct (shares_inv _ _ H) as (r & c & x0 & x1 & x2 & -> & -> & ? & ? & ?). unfold mat_map. simpl.
    rewrite <- open3_map0 with (n := (r * c)%nat) (f := fun x => wrap (x - k)); [|done..|intros; wrap_ring].
    apply shares_rep; rewrite ?length_fmap; done. }
  destruct mode; [done|]. apply shares_neg in H1.
  replace (mat_map (fun x => wrap (k - x)) a) with (mat_map (fun x => wrap (- x)) (mat_map (fun x => wrap (x - k)) a)); [done|].
  unfold mat_map. simpl. f_equal. rewrite <- list_fmap_compose. apply list_fmap_ext. intros ? x _. simpl. wrap_ring.
Qed.

Lemma shares_mul_const k A a : shares A a ->
  shares (trip_map (MPC_Mul_Const k) A) (mat_map (fun x => wrap (k * x)) a).
Proof.
  intros (r & c & x0 & x1 & x2 & -> & -> & ? & ? & ?)%shares_inv. unfold trip_map, MPC_Mul_Const, mat_map. simpl.
  rewrite !const_mul_law. unfold mat_map. simpl.
  rewrite <- open3_map with (n := (r * c)%nat) (f := fun x => wrap (k * x)); [|done..|intros; wrap_ring].
  apply shares_rep; rewrite ?length_fmap; done.
Qed.
End OperatorFacts.

(** ** A concrete aby3

    Masks come from the round number; the evaluator opens, computes and shares
    again. *)

Definition reshare (n : nat) (m : i64Matrix) : trip si64Matrix :=
  let r := Z.of_nat n + 1 in
  rep (rows m) (cols m) ((fun x => wrap (x - r)) <$> cells m) ((fun _ => wrap (2 * r)) <$> cells m)
    ((fun _ => wrap (- r)) <$> cells m).

Definition model_local (n : nat) (m : i64Matrix) (c1 c2 c1' c2' : bool) : option (trip si64Matrix) :=
  if c1 && c2 && c1' && c2' then Some (reshare n m) else None.

Definition fixed_scale : Z := 2 ^ 16.

(** Round a double to a multiple of [2^-16]; out of range values become 0. *)
Definition model_to_fixed (d : double) : Z :=
  match d with
  | S754_finite s m e =>
      let v := Z.shiftl (Z.pos m * fixed_scale) e in
      let v := if s then - v else v in
      if in_i64 v then v else 0
  | _ => 0
  end.

Definition truncate (z : Z) : Z := wrap (z / fixed_scale).

(** The numbers of the instance, before its calls. *)
Definition model_numbers : Aby3 := {|
  share_add A B := A; share_sub A B := A; asyncConstMul c A := A; to_fixed := model_to_fixed; of_fixed z := S754_zero false;
  joint _ _ := None; reveal_to _ _ := None; fixed_product _ _ _ := False; frac_bits := 16; truncated _ _ _ := False |}.

Definition model_joint (n : nat) (t : trip call) : option (trip si64Matrix) :=
  match t with
  | Trip (LocalInt m) (RemoteInt r1 c1) (RemoteInt r2 c2)
  | Trip (RemoteInt r1 c1) (LocalInt m) (RemoteInt r2 c2)
  | Trip (RemoteInt r1 c1) (RemoteInt r2 c2) (LocalInt m)
  | Trip (LocalFixed m) (RemoteFixed r1 c1) (RemoteFixed r2 c2)
  | Trip (RemoteFixed r1 c1) (LocalFixed m) (RemoteFixed r2 c2)
  | Trip (RemoteFixed r1 c1) (RemoteFixed r2 c2) (LocalFixed m) =>
      model_local n m (bool_decide (r1 = rows m)) (bool_decide (c1 = cols m))
        (bool_decide (r2 = rows m)) (bool_decide (c2 = cols m))
  | Trip (DotMul A0 B0) (DotMul A1 B1) (DotMul A2 B2) =>
      Some (reshare n (mat_zip (fun x y => wrap (x * y)) (opened (Trip A0 A1 A2)) (opened (Trip B0 B1 B2))))
  | Trip (DotMulFixed A0 B0) (DotMulFixed A1 B1) (DotMulFixed A2 B2) =>
      Some (reshare n (mat_zip (fun x y => truncate (x * y)) (opened (Trip A0 A1 A2)) (opened (Trip B0 B1 B2))))
  | Trip (ConstFixedMul k A0) (ConstFixedMul _ A1) (ConstFixedMul _ A2) =>
      Some (reshare n (mat_map (fun x => truncate (k * x)) (opened (Trip A0 A1 A2))))
  | Trip (MatMulFixed k A0 B0) (MatMulFixed _ A1 B1) (MatMulFixed _ A2 B2) =>
      let a := opened (Trip A0 A1 A2) in let b := opened (Trip B0 B1 B2) in
      if decide (cols a = rows b)
      then Some (reshare n (Mat (rows a) (cols b) ((fun v => wrap (v / 2 ^ (16 + k))) <$> mat_prod a b)))
      else None
  | Trip (Piecewise fixed th co A0) (Piecewise _ _ _ A1) (Piecewise _ _ _ A2) =>
      Some (reshare n (mat_map (fun y => wrap (@piece_value model_numbers fixed th co y)) (opened (Trip A0 A1 A2))))
  | Trip (ConstMulTest k A0) (ConstMulTest _ A1) (ConstMulTest _ A2) =>
      Some (reshare n (mat_map (fun x => wrap (k * x)) (opened (Trip A0 A1 A2))))
  | _ => None
  end.

#[export] Instance aby3_model : Aby3 := {
  share_add A B := Sh (mat_zip (fun x y => wrap (x + y)) (sh0 A) (sh0 B)) (mat_zip (fun x y => wrap (x + y)) (sh1 A) (sh1 B));
  share_sub A B := Sh (mat_zip (fun x y => wrap (x - y)) (sh0 A) (sh0 B)) (mat_zip (fun x y => wrap (x - y)) (sh1 A) (sh1 B));
  asyncConstMul c A := Sh (mat_map (fun x => wrap (c * x)) (sh0 A)) (mat_map (fun x => wrap (c * x)) (sh1 A));
  to_fixed := model_to_fixed;
  of_fixed z := binary_normalize d_prec d_emax z (-16) false;
  joint := model_joint;
  reveal_to n t := Some (opened t);
  fixed_product x y z := z = truncate (x * y);
  frac_bits := 16;
  truncated k v z := z = wrap (v / 2 ^ k);
}.

Lemma reshare_shares n m : mat_ok m -> Forall (fun x => in_i64 x = true) (cells m) -> shares (reshare n m) m.
Proof.
  intros Hok Hr. destruct m as [r c l]. unfold reshare. simpl in *.
  replace (Mat r c l) with (Mat r c (open3 ((fun x => wrap (x - (Z.of_nat n + 1))) <$> l)
    ((fun _ => wrap (2 * (Z.of_nat n + 1))) <$> l) ((fun _ => wrap (- (Z.of_nat n + 1))) <$> l))).
  { apply shares_rep; rewrite length_fmap; done. }
  f_equal. clear Hok. unfold open3. induction Hr as [|x l Hx Hr IH]; simpl; [done|]. f_equal; [|done].
  rewrite <- (wrap_id x Hx) at 2. wrap_ring.
Qed.

Lemma opened_shares t m : shares t m -> opened t = m.
Proof. unfold shares. tauto. Qed.

Lemma zip_range (f : Z -> Z -> Z) l k : (forall x y, in_i64 (f x y) = true) ->
  Forall (fun x => in_i64 x = true) (zip_with f l k).
Proof. intros H. revert k. induction l as [|x l IH]; intros [|y k]; simpl; constructor; auto. Qed.

Lemma zip_with_Forall2 (f : Z -> Z -> Z) l k : length l = length k ->
  Forall2 (fun xy z => z = f (xy.1) (xy.2)) (zip l k) (zip_with f l k).
Proof. revert k. induction l as [|x l IH]; intros [|y k] H; try discriminate; simpl; constructor; auto. Qed.

Lemma in_i64_wrap z : in_i64 (wrap z) = true.
Proof. apply in_i64_spec, wrap_range. Qed.

Lemma mat_zip_ok f a b : mat_ok a -> mat_ok b -> same_shape a b -> mat_ok (mat_zip f a b).
Proof. unfold mat_ok, same_shape. intros Ha Hb [Hr Hc]. simpl. rewrite length_zip_with, Ha, Hb, Hr, Hc. lia. Qed.

#[export] Instance aby3_model_laws : Aby3Laws aby3_model.
Proof.
  split; try done.
  - intros [ | | |s m e]; simpl; try done. by case_match.
  - intros n i m Hi Hm Hr. exists (reshare n m). split; [|by apply reshare_shares].
    unfold owner_calls. assert (i = 0 \/ i = 1 \/ i = 2) as [-> | [-> | ->]] by lia; simpl;
      unfold model_local; by rewrite !bool_decide_eq_true_2 by done.
  - intros n i m Hi Hm Hr. exists (reshare n m). split; [|by apply reshare_shares].
    unfold owner_calls. assert (i = 0 \/ i = 1 \/ i = 2) as [-> | [-> | ->]] by lia; simpl;
      unfold model_local; by rewrite !bool_decide_eq_true_2 by done.
  - intros n [A0 A1 A2] [B0 B1 B2] a b HA HB Hs. simpl. rewrite (opened_shares _ _ HA), (opened_shares _ _ HB).
    eexists; split; [done|]. apply reshare_shares; [|apply zip_range; intros; apply in_i64_wrap].
    apply mat_zip_ok; [by apply (shares_ok _ _ HA)|by apply (shares_ok _ _ HB)|done].
  - intros n [A0 A1 A2] [B0 B1 B2] a b HA HB Hs. simpl. rewrite (opened_shares _ _ HA), (opened_shares _ _ HB).
    assert (HA' := proj1 (shares_ok _ _ HA)). assert (HB' := proj1 (shares_ok _ _ HB)).
    eexists _, _. split; [done|]. split; [apply reshare_shares|]; [by apply mat_zip_ok|apply zip_range; intros; apply in_i64_wrap|].
    split; [done|]. apply (zip_with_Forall2 (fun x y => truncate (x * y))).
    unfold mat_ok in *. destruct Hs as [Hr Hc]. rewrite HA', HB', Hr, Hc. done.
  - intros n k [A0 A1 A2] a HA Hk. simpl. rewrite (opened_shares _ _ HA).
    eexists _, _. split; [done|]. split; [apply reshare_shares|].
    + unfold mat_ok, mat_map. simpl. rewrite length_fmap. by apply (shares_ok _ _ HA).
    + unfold mat_map. simpl. apply Forall_fmap, Forall_true. intros x. apply in_i64_wrap.
    + split; [done|]. unfold mat_map. simpl. apply Forall2_fmap_r, Forall_Forall2_diag, Forall_true. done.
  - intros n t m H. simpl. by rewrite (opened_shares _ _ H).
Qed.

Lemma mat_prod_length a b : length (mat_prod a b) = (rows a * cols b)%nat.
Proof.
  unfold mat_prod. generalize 0%nat at 2. generalize (rows a). induction n as [|n IH]; intros k; [done|].
  cbn [seq fmap list_fmap concat]. rewrite length_app, length_fmap, length_seq. etransitivity; [|reflexivity].
  cbn [Nat.mul]. f_equal. apply IH.
Qed.

Lemma floor_error v k : 0 <= k -> Z.abs (v / 2 ^ k * 2 ^ k - v) <= 1 * 2 ^ k.
Proof. intros Hk. assert (0 < 2 ^ k) by lia. pose proof (Z.div_mod v (2 ^ k)). pose proof (Z.mod_pos_bound v (2 ^ k)). nia. Qed.

Lemma floor_range v k : 0 <= k -> Z.abs v < 2 ^ 62 -> in_i64 (v / 2 ^ k) = true.
Proof.
  intros Hk Hv. apply in_i64_spec. assert (1 <= 2 ^ k) by (apply Z.lt_pred_le; simpl; lia).
  split; [apply Z.div_le_lower_bound; nia|apply Z.div_lt_upper_bound; nia].
Qed.

Lemma piece_value_range `{L : Aby3Laws} fixed th co y : forallb (poly_ok fixed) co = true -> in_i64 (piece_value fixed th co y) = true.
Proof.
  assert (Hc : forall c, coef_ok fixed c = true -> in_i64 (coef_value fixed c) = true).
  { intros [z|d] H; [exact H|]. destruct fixed; [apply to_fixed_range|reflexivity]. }
  revert th. induction co as [|c co IH]; intros th H; [done|]. simpl in H. apply andb_true_iff in H as [Hp Hco].
  assert (Hv : in_i64 (poly_value fixed c y) = true).
  { destruct c as [|c0 [|[k|d] [|c2 c]]]; simpl in *; [done|by apply Hc|apply in_i64_wrap|apply in_i64_wrap|discriminate Hp..]. }
  destruct th as [|t th]; simpl; [done|]. case_match; auto.
Qed.

Lemma model_numbers_piece fixed th co y :
  @piece_value model_numbers fixed th co y = @piece_value aby3_model fixed th co y.
Proof. revert th. induction co as [|c co IH]; intros [|t th]; [reflexivity..|]. cbn [piece_value]. by rewrite IH. Qed.

#[export] Instance aby3_model_fixed_point : FixedPointLaws aby3_model 1.
Proof.
  split; try done.
  - intros s m e v Hv. simpl. unfold fixed_scale. subst v. change (@frac_bits aby3_model) with 16 in *. destruct s; [|by rewrite Hv].
    apply in_i64_spec in Hv. assert (0 <= Z.shiftl (Z.pos m * 2 ^ 16) e) by (apply Z.shiftl_nonneg; lia).
    destruct (in_i64 _) eqn:E; [done|]. apply not_true_iff_false in E. contradict E. apply in_i64_spec. lia.
  - intros x y z -> Hxy. unfold truncate, fixed_scale. change (@frac_bits aby3_model) with 16.
    rewrite wrap_id by (by apply (floor_range _ 16)). by apply (floor_error _ 16).
  - intros k v z -> Hk Hv. rewrite wrap_id by (by apply floor_range). by apply floor_error.
  - intros n fixed th co [A0 A1 A2] a HA Hc Hth Hco. simpl. rewrite (opened_shares _ _ HA). eexists. split; [done|].
    assert (Heq : mat_map (fun y => wrap (@piece_value model_numbers fixed th co y)) a = mat_map (@piece_value aby3_model fixed th co) a).
    { unfold mat_map. f_equal. apply list_fmap_ext. intros ? y _. rewrite model_numbers_piece. apply wrap_id. by apply piece_value_range. }
    rewrite Heq. apply reshare_shares.
    + unfold mat_ok, mat_map. simpl. rewrite length_fmap. by apply (shares_ok _ _ HA).
    + unfold mat_map. simpl. apply Forall_fmap, Forall_true. intros x. by apply piece_value_range.
  - intros n k [A0 A1 A2] [B0 B1 B2] a b HA HB Hab Hk. cbn [each2 joint aby3_model at0 at1 at2 model_joint].
    cbv zeta. rewrite (opened_shares _ _ HA), (opened_shares _ _ HB). case_decide; [|done]. eexists _, _. split; [done|].
    split; [apply reshare_shares|split; [done|split; [done|]]].
    + unfold mat_ok. cbn -[mat_prod]. by rewrite length_fmap, mat_prod_length.
    + cbn -[mat_prod]. apply Forall_fmap, Forall_true. intros x. apply in_i64_wrap.
    + cbn -[mat_prod Z.pow]. apply Forall2_fmap_r, Forall_Forall2_diag, Forall_true. done.
Qed.

#[export] Instance aby3_model_zero_test : ZeroTestLaws aby3_model.
Proof.
  split. intros n c [A0 A1 A2] a HA. cbn [trip_map joint aby3_model at0 at1 at2 model_joint]. rewrite (opened_shares _ _ HA). eexists. split; [done|].
  apply reshare_shares.
  - unfold mat_ok, mat_map. cbn [cells rows cols]. rewrite length_fmap. by apply (shares_ok _ _ HA).
  - unfold mat_map. cbn [cells]. apply Forall_fmap, Forall_true. intros x. apply in_i64_wrap.
Qed.

(** ** Property *)

Definition add_all (m : i64Matrix) (ms : list i64Matrix) : i64Matrix := fold_left (mat_zip (fun x y => wrap (x + y))) ms m.
Definition sub_all (m : i64Matrix) (ms : list i64Matrix) : i64Matrix := fold_left (mat_zip (fun x y => wrap (x - y))) ms m.

Lemma shares_fold `{L : Aby3Laws} (op : si64Matrix -> si64Matrix -> si64Matrix) (f : Z -> Z -> Z) t m ts ms :
  (forall A B a b, shares A a -> shares B b -> same_shape a b -> shares (each2 (fun _ => op) A B) (mat_zip f a b)) ->
  shares t m -> Forall2 shares ts ms -> Forall (same_shape m) ms ->
  shares (Trip (fold_left op (at0 <$> ts) (at0 t)) (fold_left op (at1 <$> ts) (at1 t)) (fold_left op (at2 <$> ts) (at2 t)))
    (fold_left (mat_zip f) ms m).
Proof.
  intros Hop Ht Hts. revert t m Ht. induction Hts as [|t' m' ts ms Ht' Hts IH]; intros t m Ht Hs; simpl; [by destruct t|].
  inversion_clear Hs. apply (IH (each2 (fun _ => op) t t') (mat_zip f m m')); [by apply Hop|done].
Qed.

(** the linear operations of the MPC operator compute on the secrets: when
    the three parties run [MPC_Add] on sharings of matrices of one shape, the
    results are a sharing of the sum modulo 2^64; [MPC_Sub] gives the difference;
    [MPC_Add_Const] adds the constant exactly once although two parties change a
    component; [MPC_Sub_Const] gives [x - k] or, with [mode] false, [k - x]; and
    the opened results are what any party reveals. *)
Theorem mpc_linear_operations `{L : Aby3Laws} t m ts ms k n :
  shares t m -> Forall2 shares ts ms -> Forall (same_shape m) ms ->
  (exists s, MPC_Add (at0 <$> t :: ts) = Ret (at0 s) /\ MPC_Add (at1 <$> t :: ts) = Ret (at1 s) /\
             MPC_Add (at2 <$> t :: ts) = Ret (at2 s) /\ reveal_to n s = Some (add_all m ms)) /\
  (let s := Trip (MPC_Sub (at0 t) (at0 <$> ts)) (MPC_Sub (at1 t) (at1 <$> ts)) (MPC_Sub (at2 t) (at2 <$> ts)) in
   reveal_to n s = Some (sub_all m ms)) /\
  reveal_to n (each (fun i => MPC_Add_Const i k) t) = Some (mat_map (fun x => wrap (x + k)) m) /\
  reveal_to n (each (fun i s => MPC_Sub_Const i k s true) t) = Some (mat_map (fun x => wrap (x - k)) m) /\
  reveal_to n (each (fun i s => MPC_Sub_Const i k s false) t) = Some (mat_map (fun x => wrap (k - x)) m).
Proof.
  intros Ht Hts Hs. split; [|split; [|split; [|split]]].
  - eexists (Trip _ _ _). do 3 (split; [done|]). apply reveal_law. apply shares_fold; [apply shares_add|done..].
  - apply reveal_law. apply shares_fold; [apply shares_sub|done..].
  - by apply reveal_law, shares_add_const.
  - apply reveal_law. apply (shares_sub_const k t m true Ht).
  - apply reveal_law. apply (shares_sub_const k t m false Ht).
Qed.

Lemma mpc_linear_operations_witness :
  reveal_to 7 (each (fun i s => MPC_Sub_Const i 5 s false) (reshare 3 (Mat 2 1 [8; -9]))) =
    Some (mat_map (fun x => wrap (5 - x)) (Mat 2 1 [8; -9])) /\ mat_map (fun x => wrap (5 - x)) (Mat 2 1 [8; -9]) = Mat 2 1 [-3; 14].
Proof.
  split; [|vm_compute; reflexivity].
  refine (proj2 (proj2 (proj2 (proj2 (mpc_linear_operations (reshare 3 (Mat 2 1 [8; -9])) (Mat 2 1 [8; -9]) [] [] 5 7 _ _ _))))).
  - apply reshare_shares; [done|repeat constructor].
  - constructor.
  - constructor.
Defined.
