(* ===== verification/PartyProg.v ===== *)
(** * Programs of three parties on shares

    What a party does with the operator of [operator/aby3_operator.h] is a program
    ([prog]) that makes aby3 calls, opens matrices and receives its shares.  [run3]
    runs the three programs together, a round at a time, and is [None] when the
    calls do not fit together; [steps] is the same as a relation that composes
    along [bind], and [returns] hides the round numbers. *)

From Stdlib Require Import ZArith Lia.
From stdpp Require Import base tactics list option.
From S2P Require Import Prelude ModArith Machine Aby3Op.

Local Open Scope Z_scope.

(** ** Programs of one party *)

Inductive prog (A : Type) : Type :=
| Done (r : res A)
| Call (c : call) (k : si64Matrix -> prog A)
| RevealRecv (s : si64Matrix) (k : i64Matrix -> prog A)
| RevealSend (s : si64Matrix) (to : Z) (k : prog A)
| RevealAll (s : si64Matrix) (k : i64Matrix -> prog A)
(** the size of a matrix goes to both other parties, or comes from party [from] *)
| SendSize (sz : nat * nat) (k : prog A)
| RecvSize (from : Z) (k : nat * nat -> prog A).
Arguments Done {A} r.
Arguments Call {A} c k.
Arguments RevealRecv {A} s k.
Arguments RevealSend {A} s to k.
Arguments RevealAll {A} s k.
Arguments SendSize {A} sz k.
Arguments RecvSize {A} from k.

#[export] Instance prog_ret : MRet prog := fun A a => Done (Ret a).

Fixpoint prog_bind {A B} (f : A -> prog B) (p : prog A) : prog B :=
  match p with
  | Done (Ret a) => f a
  | Done Throw => Done Throw
  | Done Undef => Done Undef
  | Call c k => Call c (fun s => prog_bind f (k s))
  | RevealRecv s k => RevealRecv s (fun m => prog_bind f (k m))
  | RevealSend s to k => RevealSend s to (prog_bind f k)
  | RevealAll s k => RevealAll s (fun m => prog_bind f (k m))
  | SendSize sz k => SendSize sz (prog_bind f k)
  | RecvSize from k => RecvSize from (fun sz => prog_bind f (k sz))
  end.
#[export] Instance prog_mbind : MBind prog := @prog_bind.

(** An aby3 call that answers with the party's shares. *)
Definition call3 (c : call) : prog si64Matrix := Call c (fun s => Done (Ret s)).
(** [revealAll]: everybody opens the matrix. *)
Definition revealAll3 (s : si64Matrix) : prog i64Matrix := RevealAll s (fun m => Done (Ret m)).

(** The three parties, round by round. *)
Fixpoint run3 `{E : Aby3} {A} (n : nat) (p0 p1 p2 : prog A) {struct p0} : option (trip (res A)) :=
  match p0, p1, p2 with
  | Done r0, Done r1, Done r2 => Some (Trip r0 r1 r2)
  | Call c0 k0, Call c1 k1, Call c2 k2 =>
      t ← joint n (Trip c0 c1 c2); run3 (S n) (k0 (at0 t)) (k1 (at1 t)) (k2 (at2 t))
  | RevealRecv s0 k0, RevealSend s1 to1 k1, RevealSend s2 to2 k2 =>
      if (to1 =? 0) && (to2 =? 0) then m ← reveal_to n (Trip s0 s1 s2); run3 (S n) (k0 m) k1 k2 else None
  | RevealSend s0 to0 k0, RevealRecv s1 k1, RevealSend s2 to2 k2 =>
      if (to0 =? 1) && (to2 =? 1) then m ← reveal_to n (Trip s0 s1 s2); run3 (S n) k0 (k1 m) k2 else None
  | RevealSend s0 to0 k0, RevealSend s1 to1 k1, RevealRecv s2 k2 =>
      if (to0 =? 2) && (to1 =? 2) then m ← reveal_to n (Trip s0 s1 s2); run3 (S n) k0 k1 (k2 m) else None
  | RevealAll s0 k0, RevealAll s1 k1, RevealAll s2 k2 =>
      m ← reveal_to n (Trip s0 s1 s2); run3 (S n) (k0 m) (k1 m) (k2 m)
  | SendSize sz k0, RecvSize f1 k1, RecvSize f2 k2 =>
      if (f1 =? 0) && (f2 =? 0) then run3 (S n) k0 (k1 sz) (k2 sz) else None
  | RecvSize f0 k0, SendSize sz k1, RecvSize f2 k2 =>
      if (f0 =? 1) && (f2 =? 1) then run3 (S n) (k0 sz) k1 (k2 sz) else None
  | RecvSize f0 k0, RecvSize f1 k1, SendSize sz k2 =>
      if (f0 =? 2) && (f1 =? 2) then run3 (S n) (k0 sz) (k1 sz) k2 else None
  | _, _, _ => None
  end.

(** ** Runs of the three parties that finish *)

Section Runs.
Context `{E : Aby3}.

(** From round [n] the programs return the values [a], after round [n']. *)
Inductive steps {A : Type} : nat -> trip (prog A) -> nat -> trip A -> Prop :=
| steps_done n a : steps n (trip_map (fun x => Done (Ret x)) a) n a
| steps_call n c k t n' a : joint n c = Some t ->
    steps (S n) (Trip (at0 k (at0 t)) (at1 k (at1 t)) (at2 k (at2 t))) n' a ->
    steps n (Trip (Call (at0 c) (at0 k)) (Call (at1 c) (at1 k)) (Call (at2 c) (at2 k))) n' a
| steps_reveal0 n s k k1 k2 m n' a : reveal_to n s = Some m -> steps (S n) (Trip (k m) k1 k2) n' a ->
    steps n (Trip (RevealRecv (at0 s) k) (RevealSend (at1 s) 0 k1) (RevealSend (at2 s) 0 k2)) n' a
| steps_reveal1 n s k k0 k2 m n' a : reveal_to n s = Some m -> steps (S n) (Trip k0 (k m) k2) n' a ->
    steps n (Trip (RevealSend (at0 s) 1 k0) (RevealRecv (at1 s) k) (RevealSend (at2 s) 1 k2)) n' a
| steps_reveal2 n s k k0 k1 m n' a : reveal_to n s = Some m -> steps (S n) (Trip k0 k1 (k m)) n' a ->
    steps n (Trip (RevealSend (at0 s) 2 k0) (RevealSend (at1 s) 2 k1) (RevealRecv (at2 s) k)) n' a
| steps_revealAll n s k m n' a : reveal_to n s = Some m -> steps (S n) (trip_map (fun f => f m) k) n' a ->
    steps n (Trip (RevealAll (at0 s) (at0 k)) (RevealAll (at1 s) (at1 k)) (RevealAll (at2 s) (at2 k))) n' a
| steps_size0 n sz k k1 k2 n' a : steps (S n) (Trip k (k1 sz) (k2 sz)) n' a ->
    steps n (Trip (SendSize sz k) (RecvSize 0 k1) (RecvSize 0 k2)) n' a
| steps_size1 n sz k k0 k2 n' a : steps (S n) (Trip (k0 sz) k (k2 sz)) n' a ->
    steps n (Trip (RecvSize 1 k0) (SendSize sz k) (RecvSize 1 k2)) n' a
| steps_size2 n sz k k0 k1 n' a : steps (S n) (Trip (k0 sz) (k1 sz) k) n' a ->
    steps n (Trip (RecvSize 2 k0) (RecvSize 2 k1) (SendSize sz k)) n' a.

Lemma steps_run3 {A} n (p : trip (prog A)) n' a : steps n p n' a ->
  run3 n (at0 p) (at1 p) (at2 p) = Some (trip_map Ret a).
Proof.
  induction 1 as [n a|n [c0 c1 c2] [k0 k1 k2] t n' a Hj _ IH|n [s0 s1 s2] k k1 k2 m n' a Hr _ IH
    |n [s0 s1 s2] k k0 k2 m n' a Hr _ IH|n [s0 s1 s2] k k0 k1 m n' a Hr _ IH|n [s0 s1 s2] k m n' a Hr _ IH
    |n sz k k1 k2 n' a _ IH|n sz k k0 k2 n' a _ IH|n sz k k0 k1 n' a _ IH]; simpl in *; [done| | | | | |done..].
  - by rewrite Hj.
  - by rewrite Hr.
  - by rewrite Hr.
  - by rewrite Hr.
  - by rewrite Hr.
Qed.

Definition bind3 {A B} (f : trip (A -> prog B)) (p : trip (prog A)) : trip (prog B) :=
  Trip (prog_bind (at0 f) (at0 p)) (prog_bind (at1 f) (at1 p)) (prog_bind (at2 f) (at2 p)).

Definition app3 {A B} (f : trip (A -> B)) (a : trip A) : trip B :=
  Trip (at0 f (at0 a)) (at1 f (at1 a)) (at2 f (at2 a)).

Lemma steps_bind {A B} n (p : trip (prog A)) n1 a (f : trip (A -> prog B)) n2 b :
  steps n p n1 a -> steps n1 (app3 f a) n2 b -> steps n (bind3 f p) n2 b.
Proof.
  intros H Hb. induction H as [n [a0 a1 a2]|n c k t n' a Hj _ IH|n s k k1 k2 m n' a Hr _ IH
    |n s k k0 k2 m n' a Hr _ IH|n s k k0 k1 m n' a Hr _ IH|n s k m n' a Hr _ IH
    |n sz k k1 k2 n' a _ IH|n sz k k0 k2 n' a _ IH|n sz k k0 k1 n' a _ IH]; [done|..]; specialize (IH Hb).
  - apply (steps_call n c (Trip (fun s => prog_bind (at0 f) (at0 k s)) (fun s => prog_bind (at1 f) (at1 k s))
      (fun s => prog_bind (at2 f) (at2 k s))) t n2 b Hj IH).
  - apply (steps_reveal0 n s (fun x => prog_bind (at0 f) (k x)) _ _ m n2 b Hr IH).
  - apply (steps_reveal1 n s (fun x => prog_bind (at1 f) (k x)) _ _ m n2 b Hr IH).
  - apply (steps_reveal2 n s (fun x => prog_bind (at2 f) (k x)) _ _ m n2 b Hr IH).
  - apply (steps_revealAll n s (Trip (fun x => prog_bind (at0 f) (at0 k x)) (fun x => prog_bind (at1 f) (at1 k x))
      (fun x => prog_bind (at2 f) (at2 k x))) m n2 b Hr IH).
  - apply (steps_size0 n sz _ (fun x => prog_bind (at1 f) (k1 x)) (fun x => prog_bind (at2 f) (k2 x)) n2 b IH).
  - apply (steps_size1 n sz _ (fun x => prog_bind (at0 f) (k0 x)) (fun x => prog_bind (at2 f) (k2 x)) n2 b IH).
  - apply (steps_size2 n sz _ (fun x => prog_bind (at0 f) (k0 x)) (fun x => prog_bind (at1 f) (k1 x)) n2 b IH).
Qed.

(** One round of calls. *)
Lemma steps_call3 n c t : joint n c = Some t -> steps n (trip_map call3 c) (S n) t.
Proof.
  intros H. apply (steps_call n c (Trip _ _ _) t _ _ H). destruct t. apply steps_done.
Qed.

Lemma steps_open `{L : !Aby3Laws E} n s m : shares s m -> steps n (trip_map revealAll3 s) (S n) (Trip m m m).
Proof.
  intros H. apply (steps_revealAll n s (Trip _ _ _) m _ _ (reveal_law _ _ _ H)). apply (steps_done (S n) (Trip m m m)).
Qed.

(** Sequencing programs that return what [P] says, at whatever round. *)
Definition returns {A} (p : trip (prog A)) (P : trip A -> Prop) : Prop :=
  forall n, exists n' a, steps n p n' a /\ P a.

Lemma returns_bind {A B} (p : trip (prog A)) (f : trip (A -> prog B)) (P : trip A -> Prop) (Q : trip B -> Prop) :
  returns p P -> (forall a, P a -> returns (app3 f a) Q) -> returns (bind3 f p) Q.
Proof.
  intros Hp Hf n. destruct (Hp n) as (n1 & a & S1 & Ha). destruct (Hf a Ha n1) as (n2 & b & S2 & Hb).
  exists n2, b. split; [by apply (steps_bind n p n1 a f)|done].
Qed.

Lemma returns_done {A} (a : trip A) (P : trip A -> Prop) : P a -> returns (trip_map (fun x => Done (Ret x)) a) P.
Proof. intros H n. exists n, a. split; [constructor|done]. Qed.

Lemma returns_mono {A} (p : trip (prog A)) (P Q : trip A -> Prop) : (forall a, P a -> Q a) -> returns p P -> returns p Q.
Proof. intros H Hp n. destruct (Hp n) as (n' & a & ? & ?). eauto. Qed.

Lemma returns_run3 {A} (p : trip (prog A)) (P : trip A -> Prop) n : returns p P ->
  exists a, run3 n (at0 p) (at1 p) (at2 p) = Some (trip_map Ret a) /\ P a.
Proof. intros Hp. destruct (Hp n) as (n' & a & S1 & Ha). exists a. split; [by eapply steps_run3|done]. Qed.

Lemma returns_call c (P : trip si64Matrix -> Prop) : (forall n, exists t, joint n c = Some t /\ P t) -> returns (trip_map call3 c) P.
Proof. intros H n. destruct (H n) as (t & Hj & Ht). exists (S n), t. split; [by apply steps_call3|done]. Qed.

Lemma returns_open `{L : !Aby3Laws E} s m : shares s m -> returns (trip_map revealAll3 s) (fun a => a = Trip m m m).
Proof. intros H n. exists (S n), (Trip m m m). split; [by apply steps_open|done]. Qed.
End Runs.

