(* ===== verification/MpcDiv.v ===== *)
(** * Secure division

    Models [MPC_Abs], [MPC_QuoDertermine], [MPC_DReLu], [MPC_Pow], [MPC_Pow2] and
    [MPC_Div] of [operator/aby3_operator.h]: the divisor's binary rank is found by
    a binary search whose comparisons are opened, the divisor is normalised with
    it, and Goldschmidt's iteration runs on the shares.  The piecewise objects are
    cached in the operator and only ever hold one function each, so they are
    constants here; the openings inside [VLOG(6)] are not made at the default log
    level and are left out. *)

From Stdlib Require Import ZArith Lia SpecFloat.
From stdpp Require Import base tactics list option.
From S2P Require Import Prelude ModArith Machine Doubles Aby3Op PartyProg.

Local Open Scope Z_scope.

(** ** The operations *)

Section Division.
Context `{E : Aby3}.

Definition mAbs (Y : si64Matrix) : call :=
  Piecewise true [CoefInt 0] [[CoefInt 0; CoefInt (-1)]; [CoefInt 0; CoefInt 1]] Y.
Definition mQuoDertermine (Y : si64Matrix) : call := Piecewise true [CoefInt 0] [[CoefInt (-1)]; [CoefInt 1]] Y.
Definition mdivision (Y : si64Matrix) : call :=
  Piecewise true [CoefInt 0] [[CoefInt 0; CoefInt 0]; [CoefInt 1; CoefInt 0]] Y.

Definition MPC_Abs (Y : si64Matrix) : prog si64Matrix := call3 (mAbs Y).
Definition MPC_QuoDertermine (Y : si64Matrix) : prog si64Matrix := call3 (mQuoDertermine Y).
Definition MPC_DReLu (Y : si64Matrix) : prog si64Matrix := call3 (mdivision Y).

(** A public matrix becomes a sharing: party 0 shares it. *)
Definition share_public (partyIdx : Z) (m : i64Matrix) : prog si64Matrix :=
  if partyIdx =? 0 then call3 (LocalFixed m) else call3 (RemoteFixed (rows m) (cols m)).

(** [pow(2, k)] for a small integer exponent, and the cast of a small double that
    is not negative to [u64]. *)
Definition dpow2 (k : Z) : double := binary_normalize d_prec d_emax 1 k false.
Definition cast_u64 (d : double) : Z := match d with S754_finite false m e => Z.shiftl (Z.pos m) e | _ => 0 end.

(** The loop of [MPC_Pow] ([below] false: compare [Y - 2^r]) and of [MPC_Pow2]
    (compare [2^-r - Y]), from the round numbers 5 to 0. *)
Definition rank_probe (below : bool) (r : Z) : double := if below then dpow2 (r * -1) else d_of_int (2 ^ r).

Fixpoint rank_loop (below : bool) (partyIdx : Z) (Y : si64Matrix) (rounds : list Z) (Alpha_matrix : list Z) : prog (list Z) :=
  match rounds with
  | [] => mret Alpha_matrix
  | i :: rounds =>
      let round_bound := Z.shiftl 1 i in
      let rank_matrix := (fun a => a + round_bound) <$> Alpha_matrix in
      sfrank_temp ← share_public partyIdx (Mat (sh_rows Y) (sh_cols Y) ((fun r => to_fixed (rank_probe below r)) <$> rank_matrix));
      drelu_result ← MPC_DReLu (if below then share_sub sfrank_temp Y else share_sub Y sfrank_temp);
      drelu_result_temp ← revealAll3 drelu_result;
      rank_loop below partyIdx Y rounds
        (zip_with (fun a d => a + round_bound * cast_u64 (of_fixed d)) Alpha_matrix (cells drelu_result_temp))
  end.

Definition rank_rounds : list Z := [5; 4; 3; 2; 1; 0].

(** Divisors from one half on. *)
Definition MPC_Pow (partyIdx : Z) (Y : si64Matrix) : prog (list Z) :=
  Alpha_matrix ← rank_loop false partyIdx Y rank_rounds (replicate (sh_rows Y * sh_cols Y) 0);
  mret (map (fun a => a + 1) Alpha_matrix).

(** Divisors below one half. *)
Definition MPC_Pow2 (partyIdx : Z) (Y : si64Matrix) : prog (list Z) :=
  Alpha_matrix ← rank_loop true partyIdx Y rank_rounds (replicate (sh_rows Y * sh_cols Y) 0);
  mret (map (fun a => a * -1) Alpha_matrix).

(** The rows of a column with the given indices. *)
Definition pick_rows (idx : list nat) (s : si64Matrix) : si64Matrix :=
  let pick m := Mat (length idx) 1 ((fun i => nth (i * cols m) (cells m) 0) <$> idx) in Sh (pick (sh0 s)) (pick (sh1 s)).

(** [rank(idx[i], 0) = ranks(i, 0)] for every [i]. *)
Fixpoint put_ranks (idx : list nat) (ranks : list Z) (rank : list Z) : list Z :=
  match idx, ranks with
  | i :: idx, r :: ranks => put_ranks idx ranks (<[i := r]> rank)
  | _, _ => rank
  end.

(** The rank of each divisor: [MPC_Pow2] for the rows whose opened comparison
    with one half is 0, [MPC_Pow] for the others. *)
Definition half_test (partyIdx : Z) (denominator : si64Matrix) : prog (list bool) :=
  let n := sh_rows denominator in
  sfzeropointfive ← share_public partyIdx (Mat n 1 (replicate n (to_fixed (dpow2 (-1)))));
  drelu_result ← MPC_DReLu (share_sub denominator sfzeropointfive);
  drelu_result_temp ← revealAll3 drelu_result;
  mret ((fun d => SFeqb (of_fixed d) (S754_zero false)) <$> cells drelu_result_temp).

Definition index_where (b : bool) (less : list bool) : list nat :=
  filter (fun i => nth i less (negb b) = b) (seq 0 (length less)).

Definition ranks_of (partyIdx : Z) (denominator : si64Matrix) : prog (list Z) :=
  less ← half_test partyIdx denominator;
  let lessIdx := index_where true less in
  let moreIdx := index_where false less in
  rankLess ← (if decide (lessIdx = []) then mret [] else MPC_Pow2 partyIdx (pick_rows lessIdx denominator));
  rankMore ← (if decide (moreIdx = []) then mret [] else MPC_Pow partyIdx (pick_rows moreIdx denominator));
  mret (put_ranks moreIdx rankMore (put_ranks lessIdx rankLess (replicate (sh_rows denominator) 0))).

Definition MPC_Dotproduct (A B : si64Matrix) : prog si64Matrix := call3 (DotMulFixed A B).

Definition twopotnine_value : double := d_of_decimal false 29142 4.

(** The quotient from the normalised divisor. *)
Definition goldschmidt (partyIdx : Z) (numerator denominator : si64Matrix) (rank : list Z) : prog si64Matrix :=
  let n := sh_rows denominator in
  sftwopotnine ← share_public partyIdx (Mat n 1 (replicate n (to_fixed twopotnine_value)));
  sfconstant_one ← share_public partyIdx (Mat n 1 (replicate n (to_fixed (d_of_int 1))));
  sfnormalization ← share_public partyIdx (Mat n 1 ((fun r => to_fixed (dpow2 (r * -1))) <$> rank));
  c ← MPC_Dotproduct denominator sfnormalization;
  let temp_twoc := asyncConstMul 2 c in
  let w0 := share_sub sftwopotnine temp_twoc in
  w0 ← MPC_Dotproduct w0 sfnormalization;
  bw0 ← MPC_Dotproduct denominator w0;
  aw0 ← MPC_Dotproduct numerator w0;
  let epsilon0 := share_sub sfconstant_one bw0 in
  let epsilon0_one := share_add sfconstant_one epsilon0 in
  epsilon_prod ← MPC_Dotproduct epsilon0_one aw0;
  epsilon_i ← MPC_Dotproduct epsilon0 epsilon0;
  let epsilon_i_one := share_add sfconstant_one epsilon_i in
  MPC_Dotproduct epsilon_prod epsilon_i_one.

(** Only column 0 of the ranks is computed: with more columns the rest of the
    constants is read uninitialised. *)
Definition MPC_Div (partyIdx : Z) (A B : si64Matrix) : prog si64Matrix :=
  if negb (dot_shapes A B) then Done Throw
  else
    denominator_sign ← MPC_QuoDertermine B;
    denominator ← MPC_Abs B;
    numerator_sign ← MPC_QuoDertermine A;
    numerator ← MPC_Abs A;
    quotient_sign ← MPC_Dotproduct denominator_sign numerator_sign;
    if negb (bool_decide (sh_cols B = 1%nat)) then Done Undef
    else
      rank ← ranks_of partyIdx denominator;
      epsilon_prod ← goldschmidt partyIdx numerator denominator rank;
      MPC_Dotproduct epsilon_prod quotient_sign.
End Division.

(** ** Other operations of the operator *)

(** [MPC_sfmatrixTosfvec] and [MPC_sfvecTosfmatrix]: the cells with the party's two
    components, row by row; the assertion on the size comes first. *)
Definition MPC_sfmatrixTosfvec (X : si64Matrix) : list (Z * Z) := zip (cells (sh0 X)) (cells (sh1 X)).

Definition MPC_sfvecTosfmatrix (X : list (Z * Z)) (rows cols : nat) : res si64Matrix :=
  if bool_decide (rows * cols = length X)%nat then Ret (Sh (Mat rows cols X.*1) (Mat rows cols X.*2)) else Throw.

(** [MPC_Mul] of fixed-point matrices: the product of the vector's matrices in
    order; the first element of an empty vector is undefined. *)
Fixpoint mul_rest (prod : si64Matrix) (l : list si64Matrix) : prog si64Matrix :=
  match l with
  | [] => mret prod
  | A :: l => prod ← call3 (MatMulFixed 0 prod A); mul_rest prod l
  end.

Definition MPC_Mul (sharedFixedInt : list si64Matrix) : prog si64Matrix :=
  match sharedFixedInt with [] => Done Undef | prod :: l => mul_rest prod l end.

Lemma sfvec_roundtrip X : mat_ok (sh0 X) -> mat_ok (sh1 X) -> same_shape (sh1 X) (sh0 X) ->
  MPC_sfvecTosfmatrix (MPC_sfmatrixTosfvec X) (sh_rows X) (sh_cols X) = Ret X.
Proof.
  destruct X as [[r c a] [r' c' b]]. unfold mat_ok, same_shape, MPC_sfvecTosfmatrix, MPC_sfmatrixTosfvec, sh_rows, sh_cols. simpl.
  intros Ha Hb [-> ->]. rewrite bool_decide_eq_true_2 by (rewrite length_zip_with; lia).
  by rewrite fst_zip, snd_zip by lia.
Qed.

(** ** Columns of secrets, as functions of the row *)

Section Columns.
Context `{L : Aby3Laws} {ulp : Z} {F : FixedPointLaws E ulp}.

Definition column (n : nat) (v : nat -> Z) : i64Matrix := Mat n 1 (v <$> seq 0 n).
Definition holds (s : trip si64Matrix) (n : nat) (v : nat -> Z) : Prop := shares s (column n v).

Lemma column_of n (l : list Z) : length l = n -> Mat n 1 l = column n (fun i => nth i l 0).
Proof.
  intros <-. unfold column. f_equal. apply list_eq. intros i. rewrite list_lookup_fmap.
  destruct (decide (i < length l)%nat) as [Hi|Hi].
  - rewrite lookup_seq_lt by done. simpl. destruct (l !! i) as [x|] eqn:E1; [|apply lookup_ge_None in E1; lia].
    f_equal. symmetry. by apply nth_lookup_Some.
  - rewrite lookup_seq_ge by lia. simpl. apply lookup_ge_None. lia.
Qed.

Lemma holds_ext s n v w : (forall i, (i < n)%nat -> v i = w i) -> holds s n v -> holds s n w.
Proof.
  intros H. unfold holds, column. replace (w <$> seq 0 n) with (v <$> seq 0 n); [done|].
  apply list_fmap_ext. intros k i Hk. apply lookup_seq in Hk as [-> Hk]. by apply H.
Qed.

Lemma holds_rows s n v : holds s n v ->
  (sh_rows (at0 s) = n /\ sh_rows (at1 s) = n /\ sh_rows (at2 s) = n) /\
  (sh_cols (at0 s) = 1 /\ sh_cols (at1 s) = 1 /\ sh_cols (at2 s) = 1)%nat.
Proof. intros H. apply shares_ok in H as (_ & _ & H). simpl in H. tauto. Qed.

Lemma holds_range s n v i : holds s n v -> (i < n)%nat -> in_i64 (v i) = true.
Proof.
  intros H Hi. apply shares_ok in H as (_ & H & _). simpl in H. rewrite Forall_fmap in H.
  apply (Forall_lookup_1 _ _ i i H). by apply lookup_seq_lt.
Qed.

Lemma map_column f n v : mat_map f (column n v) = column n (fun i => f (v i)).
Proof. unfold mat_map, column. simpl. f_equal. by rewrite <- list_fmap_compose. Qed.

Lemma zip_column f n v w : mat_zip f (column n v) (column n w) = column n (fun i => f (v i) (w i)).
Proof.
  unfold mat_zip, column. simpl. f_equal. induction (seq 0 n) as [|i l IH]; [done|].
  cbn [fmap list_fmap zip_with]. f_equal. apply IH.
Qed.

Lemma column_shape n v w : same_shape (column n v) (column n w).
Proof. by split. Qed.

Lemma holds_sub s t n v w : holds s n v -> holds t n w -> holds (each2 (fun _ => share_sub) s t) n (fun i => wrap (v i - w i)).
Proof. intros H1 H2. unfold holds. rewrite <- (zip_column (fun x y => wrap (x - y))). by apply shares_sub. Qed.

Lemma holds_add s t n v w : holds s n v -> holds t n w -> holds (each2 (fun _ => share_add) s t) n (fun i => wrap (v i + w i)).
Proof. intros H1 H2. unfold holds. rewrite <- (zip_column (fun x y => wrap (x + y))). by apply shares_add. Qed.

Lemma holds_const_mul k s n v : holds s n v -> holds (trip_map (asyncConstMul k) s) n (fun i => wrap (k * v i)).
Proof. intros H. unfold holds. rewrite <- (map_column (fun x => wrap (k * x))). by apply shares_mul_const. Qed.

(** ** The calls on columns *)

(** Sequencing three programs. *)
Lemma returns_seq {A B} (p0 p1 p2 : prog A) (f0 f1 f2 : A -> prog B) (P : trip A -> Prop) (Q : trip B -> Prop) :
  returns (Trip p0 p1 p2) P -> (forall a, P a -> returns (Trip (f0 (at0 a)) (f1 (at1 a)) (f2 (at2 a))) Q) ->
  returns (Trip (p0 ≫= f0) (p1 ≫= f1) (p2 ≫= f2)) Q.
Proof. intros Hp Hf. exact (returns_bind (Trip p0 p1 p2) (Trip f0 f1 f2) P Q Hp Hf). Qed.

Lemma returns_ret {A} (a0 a1 a2 : A) (Q : trip A -> Prop) : Q (Trip a0 a1 a2) -> returns (Trip (mret a0) (mret a1) (mret a2)) Q.
Proof. apply (returns_done (Trip a0 a1 a2)). Qed.

Lemma piecewise_column th co s n v : holds s n v -> forallb (coef_ok true) th = true -> forallb (poly_ok true) co = true ->
  returns (Trip (call3 (Piecewise true th co (at0 s))) (call3 (Piecewise true th co (at1 s))) (call3 (Piecewise true th co (at2 s))))
    (fun t => holds t n (fun i => piece_value true th co (v i))).
Proof.
  intros H Hth Hco. apply (returns_call (trip_map (Piecewise true th co) s)). intros k.
  destruct (piecewise_law k true th co s _ H eq_refl Hth Hco) as (t & Hj & Ht). exists t. split; [done|].
  unfold holds. by rewrite <- map_column.
Qed.

Lemma dot_column s t n v w : holds s n v -> holds t n w ->
  returns (Trip (MPC_Dotproduct (at0 s) (at0 t)) (MPC_Dotproduct (at1 s) (at1 t)) (MPC_Dotproduct (at2 s) (at2 t)))
    (fun u => exists z, holds u n z /\ forall i, (i < n)%nat -> fixed_product (v i) (w i) (z i)).
Proof.
  intros H1 H2. apply (returns_call (each2 (fun _ => DotMulFixed) s t)). intros k.
  destruct (dot_mul_fixed_law k s t _ _ H1 H2 (column_shape n v w)) as (u & [r c l] & Hj & Hu & [Hr Hc] & HF).
  exists u. split; [done|]. simpl in Hr, Hc. subst r c. assert (Hl := shares_ok _ _ Hu). destruct Hl as [Hl _].
  unfold mat_ok in Hl. simpl in Hl. rewrite Nat.mul_1_r in Hl. rewrite (column_of n l Hl) in Hu.
  exists (fun i => nth i l 0). split; [done|]. intros i Hi. simpl in HF.
  destruct (l !! i) as [z|] eqn:Ez; [|apply lookup_ge_None in Ez; lia].
  destruct (Forall2_lookup_r _ _ _ _ _ HF Ez) as ([x y] & Exy & Hp).
  apply lookup_zip_with_Some in Exy as (x' & y' & Heq & Ex & Ey). injection Heq as <- <-.
  rewrite list_lookup_fmap, lookup_seq_lt in Ex, Ey by lia. simpl in Ex, Ey. simplify_eq.
  by rewrite (nth_lookup_Some _ _ _ _ Ez).
Qed.

Lemma public_column n v : (forall i, (i < n)%nat -> in_i64 (v i) = true) ->
  returns (Trip (share_public 0 (column n v)) (share_public 1 (column n v)) (share_public 2 (column n v))) (fun t => holds t n v).
Proof.
  intros Hr. apply (returns_call (owner_calls (LocalFixed (column n v)) (RemoteFixed n 1) 0)). intros k.
  apply (local_fixed_law k 0 (column n v)); [lia|unfold mat_ok; simpl; rewrite length_fmap, length_seq; lia|].
  simpl. apply Forall_fmap, Forall_seq. intros i Hi. apply Hr. lia.
Qed.

Lemma open_column s n v : holds s n v ->
  returns (Trip (revealAll3 (at0 s)) (revealAll3 (at1 s)) (revealAll3 (at2 s))) (fun a => a = Trip (column n v) (column n v) (column n v)).
Proof. apply (returns_open s). Qed.
End Columns.

(** ** The search for the rank *)

(** The loop on one row, with the outcome of a comparison as a predicate. *)
Fixpoint rank_search (ok : Z -> bool) (rounds : list Z) (alpha : Z) : Z :=
  match rounds with
  | [] => alpha
  | i :: rounds => rank_search ok rounds (if ok (alpha + 2 ^ i) then alpha + 2 ^ i else alpha)
  end.

Fixpoint countdown (k : nat) : list Z := match k with O => [] | S k => Z.of_nat k :: countdown k end.

(** The search ends at a rank that passes the test (or where it began) while the
    next one fails. *)
Lemma rank_search_spec ok k alpha : ok (alpha + 2 ^ Z.of_nat k) = false ->
  let r := rank_search ok (countdown k) alpha in
  (r = alpha \/ ok r = true) /\ ok (r + 1) = false /\ alpha <= r < alpha + 2 ^ Z.of_nat k.
Proof.
  revert alpha. induction k as [|k IH]; intros alpha H; cbn [rank_search countdown].
  - change (2 ^ Z.of_nat 0) with 1 in *. split; [by left|]. split; [done|lia].
  - assert (Hp : 2 ^ Z.of_nat (S k) = 2 ^ Z.of_nat k + 2 ^ Z.of_nat k) by (rewrite Nat2Z.inj_succ, Z.pow_succ_r; lia).
    assert (0 < 2 ^ Z.of_nat k) by (apply Z.pow_pos_nonneg; lia). rewrite Hp in *.
    destruct (ok (alpha + 2 ^ Z.of_nat k)) eqn:E1.
    + rewrite Z.add_assoc in H. destruct (IH _ H) as ([Hr|Hr] & Hn & Hb); (split; [|split; [done|lia]]); right; [by rewrite Hr|done].
    + destruct (IH _ E1) as (Hr & Hn & Hb). split; [done|]. split; [done|lia].
Qed.

Section Rank.
Context `{L : Aby3Laws} {ulp : Z} {F : FixedPointLaws E ulp}.
Context (few_bits : frac_bits <= 20).

Lemma frac_range : 0 < frac_bits <= 20.
Proof using F few_bits. assert (H := frac_bits_pos). lia. Qed.

Lemma one_in_range : in_i64 (2 ^ frac_bits) = true.
Proof using F few_bits.
  assert (H := frac_range). apply in_i64_spec. assert (2 ^ frac_bits <= 2 ^ 20) by (apply Z.pow_le_mono_r; lia).
  assert (0 < 2 ^ frac_bits) by (apply Z.pow_pos_nonneg; lia). lia.
Qed.

Lemma drelu_value y : piece_value true [CoefInt 0] [[CoefInt 0; CoefInt 0]; [CoefInt 1; CoefInt 0]] y =
  if y <? 0 then 0 else 2 ^ frac_bits.
Proof using F few_bits.
  cbn [piece_value poly_value coef_value]. rewrite !Z.mul_0_l, Z.mul_1_l, !Z.add_0_r. case_match; [done|].
  by apply wrap_id, one_in_range.
Qed.

Lemma one_ok : in_i64 (1 * 2 ^ frac_bits) = true.
Proof using F few_bits. rewrite Z.mul_1_l. apply one_in_range. Qed.

Lemma drelu_column s n v : holds s n v ->
  returns (Trip (MPC_DReLu (at0 s)) (MPC_DReLu (at1 s)) (MPC_DReLu (at2 s)))
    (fun t => holds t n (fun i => if v i <? 0 then 0 else 2 ^ frac_bits)).
Proof using L F few_bits.
  intros H. eapply returns_mono; [|apply (piecewise_column [CoefInt 0] [[CoefInt 0; CoefInt 0]; [CoefInt 1; CoefInt 0]] s n v H)].
  - intros t. apply holds_ext. intros i _. apply drelu_value.
  - done.
  - cbn [forallb poly_ok coef_ok coef_value]. by rewrite one_ok.
Qed.

Lemma of_fixed_one : of_fixed (2 ^ frac_bits) = d_of_int 1.
Proof using F few_bits.
  assert (H := frac_range). rewrite of_fixed_law. rewrite <- (Z.mul_1_l (2 ^ frac_bits)). apply normalize_scaled; [done|lia].
Qed.

Lemma of_fixed_zero : of_fixed 0 = S754_zero false.
Proof using F. by rewrite of_fixed_law. Qed.

Lemma cast_drelu (b : bool) : cast_u64 (of_fixed (if b then 0 else 2 ^ frac_bits)) = if b then 0 else 1.
Proof using F few_bits. destruct b; [by rewrite of_fixed_zero|by rewrite of_fixed_one]. Qed.

(** One comparison of the loop. *)
Definition rank_test (below : bool) (y r : Z) : bool :=
  let p := to_fixed (rank_probe below r) in 0 <=? wrap (if below then p - y else y - p).

Lemma rank_loop_column below rounds s n v al : holds s n v -> Forall (fun i => 0 <= i) rounds ->
  returns (Trip (rank_loop below 0 (at0 s) rounds (al <$> seq 0 n)) (rank_loop below 1 (at1 s) rounds (al <$> seq 0 n))
      (rank_loop below 2 (at2 s) rounds (al <$> seq 0 n)))
    (fun a => let l := (fun i => rank_search (rank_test below (v i)) rounds (al i)) <$> seq 0 n in a = Trip l l l).
Proof using L F few_bits.
  intros H Hpos. destruct (holds_rows _ _ _ H) as [(R0 & R1 & R2) (C0 & C1 & C2)].
  revert al. induction Hpos as [|i rounds Hi Hpos IH]; intros al; cbn [rank_loop rank_search]; [by apply returns_ret|].
  set (probe := fun j => to_fixed (rank_probe below (al j + Z.shiftl 1 i))).
  assert (Ec : Mat n 1 ((fun r => to_fixed (rank_probe below r)) <$> ((fun a => a + Z.shiftl 1 i) <$> (al <$> seq 0 n))) = column n probe).
  { unfold column. f_equal. by rewrite <- !list_fmap_compose. }
  rewrite R0, R1, R2, C0, C1, C2, Ec.
  eapply returns_seq; [apply public_column; intros; apply to_fixed_range|]. intros p Hp. cbv beta in Hp.
  set (diff := each2 (fun _ a b => if below then share_sub b a else share_sub a b) s p).
  assert (Hd : holds diff n (fun j => wrap (if below then probe j - v j else v j - probe j))).
  { unfold diff. destruct below; [apply (holds_sub p s n _ _ Hp H)|apply (holds_sub s p n _ _ H Hp)]. }
  eapply returns_seq; [apply (drelu_column diff n _ Hd)|]. intros d Hdr. cbv beta in Hdr.
  eapply returns_seq; [apply (open_column d n _ Hdr)|]. intros a ->. cbn [at0 at1 at2 cells column].
  set (al' := fun j => if rank_test below (v j) (al j + 2 ^ i) then al j + 2 ^ i else al j).
  assert (El : zip_with (fun a d => a + Z.shiftl 1 i * cast_u64 (of_fixed d)) (al <$> seq 0 n)
      ((fun j => if wrap (if below then probe j - v j else v j - probe j) <? 0 then 0 else 2 ^ frac_bits) <$> seq 0 n) = al' <$> seq 0 n).
  { clear -F few_bits. induction (seq 0 n) as [|j l IHl]; [done|]. cbn [fmap list_fmap zip_with]. f_equal; [|apply IHl].
    rewrite cast_drelu. unfold al', rank_test, probe. rewrite Z.shiftl_1_l. set (w := wrap _).
    destruct (Z.ltb_spec w 0); destruct (Z.leb_spec 0 w); lia. }
  rewrite El. apply (IH al').
Qed.
End Rank.

(** ** What the ranks are *)

Lemma dpow2_exact k : -64 <= k <= 64 -> dpow2 k = S754_finite false (2 ^ 52) (k - 52).
Proof.
  assert (H : forallb (fun k => bool_decide (dpow2 k = S754_finite false (2 ^ 52) (k - 52))) (seqZ (-64) 129) = true) by (vm_compute; reflexivity).
  rewrite forallb_forall in H. intros Hk. specialize (H k). rewrite bool_decide_eq_true in H. apply H.
  apply list_elem_of_In, elem_of_seqZ. lia.
Qed.

Lemma d_of_int_pow2 r : 0 <= r <= 52 -> d_of_int (2 ^ r) = dpow2 r.
Proof.
  assert (H : forallb (fun k => bool_decide (d_of_int (2 ^ k) = dpow2 k)) (seqZ 0 53) = true) by (vm_compute; reflexivity).
  rewrite forallb_forall in H. intros Hk. specialize (H r). rewrite bool_decide_eq_true in H. apply H.
  apply list_elem_of_In, elem_of_seqZ. lia.
Qed.

(** [2^k] in units of the last place, 0 when that is less than one unit. *)
Definition units (k : Z) : Z := if 0 <=? k then 2 ^ k else 0.

Lemma units_pos k : 0 <= k -> units k = 2 ^ k /\ 0 < 2 ^ k.
Proof. intros H. unfold units. rewrite (proj2 (Z.leb_le 0 k)) by done. split; [done|]. by apply Z.pow_pos_nonneg. Qed.

Lemma units_neg k : k < 0 -> units k = 0.
Proof. intros H. unfold units. case_match; [lia|done]. Qed.

Lemma units_succ k : units k <= units (k + 1) <= 2 * units k + 1.
Proof.
  unfold units. destruct (Z.leb_spec 0 k), (Z.leb_spec 0 (k + 1)); try lia.
  - rewrite Z.pow_add_r by lia. assert (0 < 2 ^ k) by (apply Z.pow_pos_nonneg; lia). lia.
  - replace (k + 1) with 0 by lia. lia.
Qed.

Lemma units_bound k m : k <= m -> 0 <= m -> 0 <= units k <= 2 ^ m.
Proof.
  intros H Hm. assert (0 < 2 ^ m) by (by apply Z.pow_pos_nonneg). destruct (decide (0 <= k)) as [Hk|Hk]; [|rewrite units_neg; lia].
  destruct (units_pos k Hk) as [-> ?]. split; [lia|]. apply Z.pow_le_mono_r; lia.
Qed.

Section Ranks.
Context `{L : Aby3Laws} {ulp : Z} {F : FixedPointLaws E ulp}.
Context (few_bits : frac_bits <= 20).

Lemma to_fixed_dpow2 k : -64 <= k -> k + frac_bits < 63 -> to_fixed (dpow2 k) = units (frac_bits + k).
Proof using F few_bits.
  intros H1 H2. assert (HD := frac_range few_bits). rewrite dpow2_exact by lia.
  assert (Ev : Z.shiftl (Z.pos (2 ^ 52) * 2 ^ frac_bits) (k - 52) = units (frac_bits + k)).
  { change (Z.pos (2 ^ 52)) with (2 ^ 52). rewrite <- Z.pow_add_r by lia. unfold units.
    destruct (Z.leb_spec 52 k).
    - rewrite Z.shiftl_mul_pow2, <- Z.pow_add_r by lia. rewrite (proj2 (Z.leb_le _ _)) by lia. f_equal. lia.
    - replace (k - 52) with (- (52 - k)) by lia. rewrite Z.shiftl_opp_r, Z.shiftr_div_pow2 by lia.
      destruct (Z.leb_spec 0 (frac_bits + k)).
      + replace (52 + frac_bits) with ((frac_bits + k) + (52 - k)) by lia. rewrite Z.pow_add_r by lia.
        apply Z.div_mul. apply Z.pow_nonzero; lia.
      + apply Z.div_small. split; [apply Z.pow_nonneg; lia|]. apply Z.pow_lt_mono_r; lia. }
  assert (Hb : 0 <= units (frac_bits + k) <= 2 ^ 62) by (apply units_bound; lia).
  assert (Hlaw := to_fixed_law false (2 ^ 52) (k - 52)). cbv zeta in Hlaw. rewrite Ev in Hlaw. apply Hlaw.
  apply in_i64_spec. change (2 ^ 63) with (2 * 2 ^ 62). lia.
Qed.

Lemma test_above y r : 0 <= y < 2 ^ 63 -> 0 <= r <= 32 -> rank_test false y r = (2 ^ (frac_bits + r) <=? y).
Proof using F few_bits.
  intros Hy Hr. assert (HD := frac_range few_bits). unfold rank_test, rank_probe.
  rewrite d_of_int_pow2, to_fixed_dpow2 by lia. destruct (units_pos (frac_bits + r)) as [-> Hp]; [lia|].
  assert (2 ^ (frac_bits + r) <= 2 ^ 62) by (apply Z.pow_le_mono_r; lia). change (2 ^ 63) with (2 * 2 ^ 62) in *.
  rewrite wrap_id by (apply in_i64_spec; change (2 ^ 63) with (2 * 2 ^ 62); lia).
  destruct (Z.leb_spec 0 (y - 2 ^ (frac_bits + r))), (Z.leb_spec (2 ^ (frac_bits + r)) y); lia.
Qed.

Lemma test_below y r : 0 <= y < 2 ^ 62 -> 0 <= r <= 64 -> rank_test true y r = (y <=? units (frac_bits - r)).
Proof using F few_bits.
  intros Hy Hr. assert (HD := frac_range few_bits). unfold rank_test, rank_probe.
  replace (r * -1) with (- r) by lia. rewrite to_fixed_dpow2 by lia. replace (frac_bits + - r) with (frac_bits - r) by lia.
  assert (Hb : 0 <= units (frac_bits - r) <= 2 ^ 20) by (apply units_bound; lia).
  rewrite wrap_id by (apply in_i64_spec; lia).
  destruct (Z.leb_spec 0 (units (frac_bits - r) - y)), (Z.leb_spec y (units (frac_bits - r))); lia.
Qed.

(** The rank of one divisor and its normalisation factor. *)
Definition rank_of (y : Z) : Z :=
  if wrap (y - 2 ^ (frac_bits - 1)) <? 0 then rank_search (rank_test true y) rank_rounds 0 * -1
  else rank_search (rank_test false y) rank_rounds 0 + 1.

Lemma rank_below y : 0 < y < 2 ^ (frac_bits - 1) ->
  exists a, rank_of y = - a /\ 1 <= a <= frac_bits /\ 2 ^ (frac_bits - a) < 2 * y /\ y <= 2 ^ (frac_bits - a).
Proof using F few_bits.
  intros Hy. assert (HD := frac_range few_bits).
  assert (Hh : 2 ^ (frac_bits - 1) <= 2 ^ 20) by (apply Z.pow_le_mono_r; lia).
  unfold rank_of. rewrite wrap_id by (apply in_i64_spec; lia). rewrite (proj2 (Z.ltb_lt _ _)) by lia. change rank_rounds with (countdown 6).
  destruct (rank_search_spec (rank_test true y) 6 0) as (Hr & Hn & Hb).
  { rewrite test_below by lia. rewrite units_neg by lia. apply Z.leb_gt. lia. }
  set (a := rank_search _ _ _) in *. change (2 ^ Z.of_nat 6) with 64 in Hb. exists a. split; [lia|].
  rewrite test_below in Hn by lia. apply Z.leb_gt in Hn.
  destruct Hr as [Hr|Hr].
  { rewrite Hr in Hn. replace (frac_bits - (0 + 1)) with (frac_bits - 1) in Hn by lia.
    destruct (units_pos (frac_bits - 1)); lia. }
  rewrite test_below in Hr by lia. apply Z.leb_le in Hr.
  assert (Ha : 0 <= frac_bits - a). { destruct (decide (0 <= frac_bits - a)); [done|]. rewrite units_neg in Hr by lia. lia. }
  assert (Hs := units_succ (frac_bits - (a + 1))). replace (frac_bits - (a + 1) + 1) with (frac_bits - a) in Hs by lia.
  destruct (units_pos (frac_bits - a) Ha) as [Eu Hp]. rewrite Eu in *.
  assert (H1 : 1 <= a). { destruct (decide (1 <= a)); [done|]. assert (a = 0) as Ea by lia. rewrite Ea in Hn.
    replace (frac_bits - (0 + 1)) with (frac_bits - 1) in Hn by lia. destruct (units_pos (frac_bits - 1)); lia. }
  split; [lia|]. split; [|lia].
  destruct (decide (0 <= frac_bits - (a + 1))) as [Hq|Hq].
  - replace (frac_bits - a) with (frac_bits - (a + 1) + 1) by lia. rewrite Z.pow_add_r by lia.
    rewrite (proj1 (units_pos _ Hq)) in Hn. lia.
  - replace (frac_bits - a) with 0 by lia. lia.
Qed.

Lemma rank_above y : 2 ^ (frac_bits - 1) <= y < 2 ^ (2 * frac_bits) ->
  exists a, rank_of y = a + 1 /\ 0 <= a < frac_bits /\ (a = 0 \/ 2 ^ (frac_bits + a) <= y) /\ y < 2 ^ (frac_bits + a + 1).
Proof using F few_bits.
  intros Hy. assert (HD := frac_range few_bits).
  assert (Hh : 2 ^ (2 * frac_bits) <= 2 ^ 40) by (apply Z.pow_le_mono_r; lia).
  assert (Hh2 : 2 ^ (2 * frac_bits) <= 2 ^ (frac_bits + 32)) by (apply Z.pow_le_mono_r; lia).
  assert (H0 : 0 < 2 ^ (frac_bits - 1)) by (apply Z.pow_pos_nonneg; lia).
  unfold rank_of. rewrite wrap_id by (apply in_i64_spec; lia). rewrite (proj2 (Z.ltb_ge _ _)) by lia.
  replace (rank_search (rank_test false y) rank_rounds 0) with (rank_search (rank_test false y) (countdown 5) 0).
  2:{ change rank_rounds with (5 :: countdown 5). cbn [rank_search]. rewrite test_above by lia.
      rewrite (proj2 (Z.leb_gt _ _)); [done|]. change (0 + 2 ^ 5) with 32. lia. }
  destruct (rank_search_spec (rank_test false y) 5 0) as (Hr & Hn & Hb).
  { rewrite test_above by lia. apply Z.leb_gt. change (0 + 2 ^ Z.of_nat 5) with 32. lia. }
  set (a := rank_search _ _ _) in *. change (2 ^ Z.of_nat 5) with 32 in Hb. exists a. split; [lia|].
  rewrite test_above in Hn by lia. apply Z.leb_gt in Hn. rewrite Z.add_assoc in Hn.
  assert (Hr' : a = 0 \/ 2 ^ (frac_bits + a) <= y).
  { destruct Hr as [Hr|Hr]; [by left|right]. rewrite test_above in Hr by lia. lia. }
  split; [|done]. split; [lia|]. destruct Hr' as [->|Hr']; [lia|].
  destruct (decide (a < frac_bits)) as [|Hq]; [done|]. assert (2 ^ (2 * frac_bits) <= 2 ^ (frac_bits + a)) by (apply Z.pow_le_mono_r; lia). lia.
Qed.

Definition norm_of (y : Z) : Z := to_fixed (dpow2 (rank_of y * -1)).

(** The normalised divisor is between one quarter and one, and at least one half
    unless the divisor was in [1/2, 1). *)
Lemma norm_spec y : 0 < y < 2 ^ (2 * frac_bits) ->
  0 < norm_of y <= 2 ^ (2 * frac_bits) /\ 2 ^ (2 * frac_bits) <= 4 * (y * norm_of y) /\ y * norm_of y <= 2 ^ (2 * frac_bits) /\
  (y < 2 ^ (frac_bits - 1) \/ 2 ^ frac_bits <= y -> 2 ^ (2 * frac_bits) <= 2 * (y * norm_of y)).
Proof using F few_bits.
  intros Hy. assert (HD := frac_range few_bits). unfold norm_of.
  destruct (decide (y < 2 ^ (frac_bits - 1))) as [Hl|Hl].
  - destruct (rank_below y ltac:(lia)) as (a & -> & Ha & H1 & H2). replace (- a * -1) with a by lia.
    rewrite to_fixed_dpow2 by lia. destruct (units_pos (frac_bits + a)) as [-> Hp]; [lia|].
    assert (E2 : 2 ^ (2 * frac_bits) = 2 ^ (frac_bits - a) * 2 ^ (frac_bits + a)) by (rewrite <- Z.pow_add_r by lia; f_equal; lia).
    assert (2 ^ (frac_bits + a) <= 2 ^ (2 * frac_bits)) by (apply Z.pow_le_mono_r; lia). rewrite E2 in *. nia.
  - destruct (rank_above y ltac:(lia)) as (a & -> & Ha & H1 & H2). replace ((a + 1) * -1) with (- (a + 1)) by lia.
    rewrite to_fixed_dpow2 by lia. destruct (units_pos (frac_bits + - (a + 1))) as [-> Hp]; [lia|].
    assert (E2 : 2 ^ (2 * frac_bits) = 2 ^ (frac_bits + a + 1) * 2 ^ (frac_bits + - (a + 1))) by (rewrite <- Z.pow_add_r by lia; f_equal; lia).
    assert (2 ^ (frac_bits + - (a + 1)) <= 2 ^ (2 * frac_bits)) by (apply Z.pow_le_mono_r; lia).
    assert (Ea : 2 ^ (frac_bits + a + 1) = 2 * 2 ^ (frac_bits + a)) by (rewrite Z.pow_add_r by lia; lia).
    assert (Hd : 2 ^ frac_bits = 2 * 2 ^ (frac_bits - 1)) by (rewrite <- Z.pow_succ_r by lia; f_equal; lia).
    rewrite E2, Ea in *. destruct H1 as [Hz|H1]; [|nia]. rewrite Hz in *. rewrite Z.add_0_r in *. nia.
Qed.
End Ranks.

(** ** The ranks of a column *)

Lemma fmap_nth_seq {A} (h : nat -> A) (idx : list nat) : (fun k => h (nth k idx 0%nat)) <$> seq 0 (length idx) = h <$> idx.
Proof.
  apply list_eq. intros k. rewrite !list_lookup_fmap. destruct (idx !! k) as [i|] eqn:Ek.
  - rewrite lookup_seq_lt by (by eapply lookup_lt_Some). simpl. by rewrite (nth_lookup_Some _ _ _ _ Ek).
  - rewrite lookup_seq_ge; [done|]. by apply lookup_ge_None in Ek.
Qed.

Lemma const_seq {A} (a : A) n : replicate n a = (fun _ => a) <$> seq 0 n.
Proof. generalize 0%nat. induction n as [|n IH]; intros k; [done|]. cbn. f_equal. apply IH. Qed.

Lemma map_fmap {A B C} (f : B -> C) (g : A -> B) l : map f (g <$> l) = (fun i => f (g i)) <$> l.
Proof. induction l as [|x l IH]; [done|]. cbn. f_equal. apply IH. Qed.

Lemma put_ranks_lookup (f : nat -> Z) idx rank i : (i < length rank)%nat ->
  put_ranks idx (f <$> idx) rank !! i = if decide (i ∈ idx) then Some (f i) else rank !! i.
Proof.
  revert rank. induction idx as [|j idx IH]; intros rank Hi; [by rewrite decide_False by apply not_elem_of_nil|].
  cbn [fmap list_fmap put_ranks]. rewrite IH by (by rewrite length_insert).
  destruct (decide (i ∈ idx)) as [Hin|Hin]; [by rewrite decide_True by (by apply list_elem_of_further)|].
  destruct (decide (i = j)) as [->|Hne].
  - rewrite list_lookup_insert_eq by done. by rewrite decide_True by apply list_elem_of_here.
  - rewrite list_lookup_insert_ne by done. rewrite decide_False; [done|]. rewrite elem_of_cons. tauto.
Qed.

Lemma put_ranks_length idx ranks rank : length (put_ranks idx ranks rank) = length rank.
Proof. revert ranks rank. induction idx as [|j idx IH]; intros [|r ranks] rank; simpl; [done..|]. by rewrite IH, length_insert. Qed.

Lemma index_where_spec b (f : nat -> bool) n i : i ∈ index_where b (f <$> seq 0 n) <-> (i < n)%nat /\ f i = b.
Proof.
  unfold index_where. rewrite list_elem_of_filter, elem_of_seq, length_fmap, length_seq.
  assert (Hn : (i < n)%nat -> nth i (f <$> seq 0 n) (negb b) = f i).
  { intros Hi. apply nth_lookup_Some. by rewrite list_lookup_fmap, lookup_seq_lt by done. }
  split; [intros [H1 H2]; rewrite Hn in H1 by lia; split; [lia|done]|intros [H1 H2]; rewrite Hn by done; split; [done|lia]].
Qed.

Lemma holds_pick idx s n v : holds s n v -> Forall (fun i => (i < n)%nat) idx ->
  holds (trip_map (pick_rows idx) s) (length idx) (fun k => v (nth k idx 0%nat)).
Proof.
  intros H HF. unfold holds in *. destruct (shares_inv _ _ H) as (r & c & x0 & x1 & x2 & -> & Em & H0 & H1 & H2).
  unfold column in Em. injection Em as <- <- Ev. unfold trip_map, pick_rows, rep. cbn [at0 at1 at2 sh0 sh1 cols cells].
  unfold column. rewrite (fmap_nth_seq v idx). rewrite Nat.mul_1_r in *.
  assert (Ei : forall x : list Z, (fun i => nth (i * 1) x 0) <$> idx = (fun i => nth i x 0) <$> idx).
  { intros x. apply list_fmap_ext. intros ? i _. by rewrite Nat.mul_1_r. }
  rewrite !Ei. replace (v <$> idx) with (open3 ((fun i => nth i x0 0) <$> idx) ((fun i => nth i x1 0) <$> idx) ((fun i => nth i x2 0) <$> idx)).
  { apply shares_rep; rewrite length_fmap; lia. }
  rewrite (open3_nth idx n) by done. rewrite <- Ev. apply list_fmap_ext. intros k i Hi. rewrite Forall_lookup in HF.
  apply nth_lookup_Some. by rewrite list_lookup_fmap, lookup_seq_lt by (by eapply HF).
Qed.

Section RankColumn.
Context `{L : Aby3Laws} {ulp : Z} {F : FixedPointLaws E ulp}.
Context (few_bits : frac_bits <= 20).

Definition all3 {A} (x : A) (a : trip A) : Prop := a = Trip x x x.

Lemma rank_column (below : bool) s n v : holds s n v ->
  returns (Trip (rank_loop below 0 (at0 s) rank_rounds (replicate (sh_rows (at0 s) * sh_cols (at0 s)) 0))
      (rank_loop below 1 (at1 s) rank_rounds (replicate (sh_rows (at1 s) * sh_cols (at1 s)) 0))
      (rank_loop below 2 (at2 s) rank_rounds (replicate (sh_rows (at2 s) * sh_cols (at2 s)) 0)))
    (all3 ((fun i => rank_search (rank_test below (v i)) rank_rounds 0) <$> seq 0 n)).
Proof using L F few_bits.
  intros H. destruct (holds_rows _ _ _ H) as [(-> & -> & ->) (-> & -> & ->)]. rewrite Nat.mul_1_r, const_seq.
  apply (rank_loop_column few_bits below rank_rounds s n v (fun _ => 0) H). repeat (constructor; [lia|]). constructor.
Qed.

Lemma pow_column idx s n v : holds s n v -> Forall (fun i => (i < n)%nat) idx ->
  returns (Trip (MPC_Pow 0 (pick_rows idx (at0 s))) (MPC_Pow 1 (pick_rows idx (at1 s))) (MPC_Pow 2 (pick_rows idx (at2 s))))
    (all3 ((fun i => rank_search (rank_test false (v i)) rank_rounds 0 + 1) <$> idx)).
Proof using L F few_bits.
  intros H HF. apply (holds_pick idx) in H; [|done]. eapply returns_seq; [apply (rank_column false _ _ _ H)|].
  intros a ->. apply returns_ret. unfold all3. cbn [at0 at1 at2].
  rewrite (fmap_nth_seq (fun i => rank_search (rank_test false (v i)) rank_rounds 0) idx). by rewrite map_fmap.
Qed.

Lemma pow2_column idx s n v : holds s n v -> Forall (fun i => (i < n)%nat) idx ->
  returns (Trip (MPC_Pow2 0 (pick_rows idx (at0 s))) (MPC_Pow2 1 (pick_rows idx (at1 s))) (MPC_Pow2 2 (pick_rows idx (at2 s))))
    (all3 ((fun i => rank_search (rank_test true (v i)) rank_rounds 0 * -1) <$> idx)).
Proof using L F few_bits.
  intros H HF. apply (holds_pick idx) in H; [|done]. eapply returns_seq; [apply (rank_column true _ _ _ H)|].
  intros a ->. apply returns_ret. unfold all3. cbn [at0 at1 at2].
  rewrite (fmap_nth_seq (fun i => rank_search (rank_test true (v i)) rank_rounds 0) idx). by rewrite map_fmap.
Qed.

Lemma half_column s n v : holds s n v ->
  returns (Trip (half_test 0 (at0 s)) (half_test 1 (at1 s)) (half_test 2 (at2 s)))
    (all3 ((fun i => wrap (v i - 2 ^ (frac_bits - 1)) <? 0) <$> seq 0 n)).
Proof using L F few_bits.
  intros H. destruct (holds_rows _ _ _ H) as [(R0 & R1 & R2) _]. unfold half_test. rewrite R0, R1, R2.
  assert (HD := frac_range few_bits). rewrite to_fixed_dpow2 by lia.
  change (frac_bits + -1) with (frac_bits - 1). destruct (units_pos (frac_bits - 1)) as [-> Hp]; [lia|].
  assert (2 ^ (frac_bits - 1) <= 2 ^ 20) by (apply Z.pow_le_mono_r; lia).
  assert (Ec : Mat n 1 (replicate n (2 ^ (frac_bits - 1))) = column n (fun _ => 2 ^ (frac_bits - 1))).
  { unfold column. by rewrite const_seq. }
  rewrite Ec. eapply returns_seq; [apply public_column; intros; apply in_i64_spec; lia|]. intros p Hpub. cbv beta in Hpub.
  eapply returns_seq; [apply (drelu_column few_bits _ n _ (holds_sub _ _ n _ _ H Hpub))|]. intros d Hdr. cbv beta in Hdr.
  eapply returns_seq; [apply (open_column d n _ Hdr)|]. intros a ->. cbn [at0 at1 at2]. apply returns_ret. unfold all3.
  assert (El : (fun d => SFeqb (of_fixed d) (S754_zero false)) <$> cells (column n (fun i => if wrap (v i - 2 ^ (frac_bits - 1)) <? 0 then 0 else 2 ^ frac_bits)) =
    (fun i => wrap (v i - 2 ^ (frac_bits - 1)) <? 0) <$> seq 0 n); [|by rewrite El].
  cbn [cells column]. rewrite <- list_fmap_compose. apply list_fmap_ext. intros k i _. cbn [compose].
  destruct (wrap (v i - 2 ^ (frac_bits - 1)) <? 0); [by rewrite (of_fixed_zero (ulp := ulp))|by rewrite (of_fixed_one few_bits)].
Qed.

Lemma ranks_column s n v : holds s n v ->
  returns (Trip (ranks_of 0 (at0 s)) (ranks_of 1 (at1 s)) (ranks_of 2 (at2 s))) (all3 ((fun i => rank_of (v i)) <$> seq 0 n)).
Proof using L F few_bits.
  intros H. destruct (holds_rows _ _ _ H) as [(R0 & R1 & R2) _]. unfold ranks_of. rewrite R0, R1, R2.
  eapply returns_seq; [apply (half_column s n v H)|]. intros a ->. cbn [at0 at1 at2].
  set (less := fun i => wrap (v i - 2 ^ (frac_bits - 1)) <? 0).
  assert (HF : forall b, Forall (fun i => (i < n)%nat) (index_where b (less <$> seq 0 n))).
  { intros b. apply Forall_forall. intros i Hi. apply list_elem_of_In in Hi. apply (index_where_spec b less n i) in Hi. tauto. }
  set (lessIdx := index_where true (less <$> seq 0 n)). set (moreIdx := index_where false (less <$> seq 0 n)).
  apply (returns_seq _ _ _ _ _ _ (all3 ((fun i => rank_search (rank_test true (v i)) rank_rounds 0 * -1) <$> lessIdx))).
  { destruct (decide (lessIdx = [])) as [->|_]; [by apply returns_ret|apply (pow2_column _ s n); [done|apply HF]]. }
  intros a ->. cbn [at0 at1 at2].
  apply (returns_seq _ _ _ _ _ _ (all3 ((fun i => rank_search (rank_test false (v i)) rank_rounds 0 + 1) <$> moreIdx))).
  { destruct (decide (moreIdx = [])) as [->|_]; [by apply returns_ret|apply (pow_column _ s n); [done|apply HF]]. }
  intros a ->. cbn [at0 at1 at2]. apply returns_ret. unfold all3.
  match goal with |- Trip ?l _ _ = Trip ?r _ _ => assert (El : l = r); [|by rewrite El] end.
  apply list_eq. intros i. rewrite list_lookup_fmap. destruct (decide (i < n)%nat) as [Hi|Hi].
  - rewrite lookup_seq_lt by done. cbn [fmap option_fmap option_map Nat.add].
    rewrite put_ranks_lookup by (by rewrite put_ranks_length, length_replicate). rewrite put_ranks_lookup by (by rewrite length_replicate).
    unfold rank_of. fold (less i). destruct (less i) eqn:El.
    + rewrite decide_False by (intros [_ Hc]%index_where_spec; congruence). by rewrite decide_True by (by apply index_where_spec).
    + by rewrite decide_True by (by apply index_where_spec).
  - rewrite lookup_seq_ge by lia. apply lookup_ge_None. rewrite !put_ranks_length, length_replicate. lia.
Qed.
End RankColumn.

(** ** The quotient of a column *)

Section Quotient.
Context `{L : Aby3Laws} {ulp : Z} {F : FixedPointLaws E ulp}.
Context (few_bits : frac_bits <= 20).

(** The computation on one row: the numbers the parties share, each product up to
    the library's truncation. *)
Definition goldschmidt_row (a b q : Z) : Prop :=
  exists c w bw aw p e,
    fixed_product b (norm_of b) c /\
    fixed_product (wrap (to_fixed twopotnine_value - wrap (2 * c))) (norm_of b) w /\
    fixed_product b w bw /\ fixed_product a w aw /\
    fixed_product (wrap (2 ^ frac_bits + wrap (2 ^ frac_bits - bw))) aw p /\
    fixed_product (wrap (2 ^ frac_bits - bw)) (wrap (2 ^ frac_bits - bw)) e /\
    fixed_product p (wrap (2 ^ frac_bits + e)) q.

Definition sign_of (y : Z) : Z := if y <? 0 then - 2 ^ frac_bits else 2 ^ frac_bits.

(** [MPC_Abs]; the least integer keeps its sign. *)
Definition abs_of (y : Z) : Z := if y <? 0 then wrap (- y) else y.

Definition div_row (a b q : Z) : Prop :=
  exists p s, goldschmidt_row (abs_of a) (abs_of b) p /\ fixed_product (sign_of b) (sign_of a) s /\ fixed_product p s q.

Lemma to_fixed_one : to_fixed (d_of_int 1) = 2 ^ frac_bits.
Proof using F few_bits.
  assert (HD := frac_range few_bits). change (d_of_int 1) with (d_of_int (2 ^ 0)).
  rewrite d_of_int_pow2, to_fixed_dpow2 by lia. rewrite Z.add_0_r. by apply units_pos; lia.
Qed.

Lemma goldschmidt_column s t n a b : holds s n a -> holds t n b ->
  let rank := (fun i => rank_of (b i)) <$> seq 0 n in
  returns (Trip (goldschmidt 0 (at0 s) (at0 t) rank) (goldschmidt 1 (at1 s) (at1 t) rank) (goldschmidt 2 (at2 s) (at2 t) rank))
    (fun u => exists q, holds u n q /\ forall i, (i < n)%nat -> goldschmidt_row (a i) (b i) (q i)).
Proof using L F few_bits.
  intros Hs Ht rank. destruct (holds_rows _ _ _ Ht) as [(R0 & R1 & R2) _]. unfold goldschmidt. rewrite R0, R1, R2.
  assert (Ec : forall x, Mat n 1 (replicate n x) = column n (fun _ => x)) by (intros; unfold column; by rewrite const_seq).
  assert (En : Mat n 1 ((fun r => to_fixed (dpow2 (r * -1))) <$> rank) = column n (fun i => norm_of (b i))).
  { unfold column, rank. by rewrite <- list_fmap_compose. }
  rewrite !Ec, En, to_fixed_one.
  eapply returns_seq; [apply public_column; intros; apply to_fixed_range|]. intros t29 H29. cbv beta in H29.
  eapply returns_seq; [apply public_column; intros; apply (one_in_range few_bits)|]. intros t1 H1. cbv beta in H1.
  eapply returns_seq; [apply public_column; intros; apply to_fixed_range|]. intros tn Hn. cbv beta in Hn.
  eapply returns_seq; [apply (dot_column _ _ n _ _ Ht Hn)|]. intros tc (c & Hc & Pc).
  assert (Hw' := holds_sub _ _ n _ _ H29 (holds_const_mul 2 _ n _ Hc)).
  eapply returns_seq; [apply (dot_column _ _ n _ _ Hw' Hn)|]. intros tw (w & Hw & Pw).
  eapply returns_seq; [apply (dot_column _ _ n _ _ Ht Hw)|]. intros tb (bw & Hb & Pb).
  eapply returns_seq; [apply (dot_column _ _ n _ _ Hs Hw)|]. intros ta (aw & Ha & Pa).
  assert (He := holds_sub _ _ n _ _ H1 Hb). assert (He1 := holds_add _ _ n _ _ H1 He).
  eapply returns_seq; [apply (dot_column _ _ n _ _ He1 Ha)|]. intros tp (p & Hp & Pp).
  eapply returns_seq; [apply (dot_column _ _ n _ _ He He)|]. intros te (e & Hee & Pe).
  eapply returns_mono; [|apply (dot_column _ _ n _ _ Hp (holds_add _ _ n _ _ H1 Hee))].
  intros u (q & Hq & Pq). exists q. split; [done|]. intros i Hi.
  exists (c i), (w i), (bw i), (aw i), (p i), (e i). auto 10.
Qed.

Lemma abs_of_abs y : - 2 ^ 63 < y < 2 ^ 63 -> abs_of y = Z.abs y.
Proof. intros Hy. unfold abs_of. destruct (Z.ltb_spec y 0); [|lia]. rewrite wrap_id; [lia|]. apply in_i64_spec. lia. Qed.

Lemma abs_column s n v : holds s n v ->
  returns (Trip (MPC_Abs (at0 s)) (MPC_Abs (at1 s)) (MPC_Abs (at2 s))) (fun t => holds t n (fun i => abs_of (v i))).
Proof using L F few_bits.
  intros H. eapply returns_mono; [|apply (piecewise_column [CoefInt 0] [[CoefInt 0; CoefInt (-1)]; [CoefInt 0; CoefInt 1]] s n v H); done].
  intros t. apply holds_ext. intros i Hi. cbn [piece_value poly_value coef_value]. unfold abs_of. rewrite !Z.mul_0_l, !Z.add_0_l.
  destruct (v i <? 0); [f_equal; lia|]. rewrite Z.mul_1_l. apply wrap_id. by apply (holds_range _ _ _ i H).
Qed.

Lemma sign_column s n v : holds s n v ->
  returns (Trip (MPC_QuoDertermine (at0 s)) (MPC_QuoDertermine (at1 s)) (MPC_QuoDertermine (at2 s))) (fun t => holds t n (fun i => sign_of (v i))).
Proof using L F few_bits.
  intros H. assert (R := one_in_range few_bits). apply in_i64_spec in R. assert (0 < 2 ^ frac_bits) by (apply Z.pow_pos_nonneg; [lia|]; destruct (frac_range few_bits); lia).
  eapply returns_mono; [|apply (piecewise_column [CoefInt 0] [[CoefInt (-1)]; [CoefInt 1]] s n v H); [done|]].
  - intros t. apply holds_ext. intros i Hi. cbn [piece_value poly_value coef_value]. unfold sign_of. rewrite Z.mul_0_l. case_match; lia.
  - cbn [forallb poly_ok coef_ok coef_value]. rewrite !andb_true_r. apply andb_true_iff. split; apply in_i64_spec; lia.
Qed.

(** The three parties' division computes [div_row] on every row. *)
Lemma div_column s t n a b : holds s n a -> holds t n b ->
  returns (Trip (MPC_Div 0 (at0 s) (at0 t)) (MPC_Div 1 (at1 s) (at1 t)) (MPC_Div 2 (at2 s) (at2 t)))
    (fun u => exists q, holds u n q /\ forall i, (i < n)%nat -> div_row (a i) (b i) (q i)).
Proof using L F few_bits.
  intros Hs Ht. unfold MPC_Div, dot_shapes.
  destruct (holds_rows _ _ _ Hs) as [(-> & -> & ->) (-> & -> & ->)]. destruct (holds_rows _ _ _ Ht) as [(-> & -> & ->) (-> & -> & ->)].
  rewrite !bool_decide_eq_true_2 by done. cbn [andb negb].
  eapply returns_seq; [apply (sign_column _ n _ Ht)|]. intros ds Hds. cbv beta in Hds.
  eapply returns_seq; [apply (abs_column _ n _ Ht)|]. intros d Hd. cbv beta in Hd.
  eapply returns_seq; [apply (sign_column _ n _ Hs)|]. intros ns Hns. cbv beta in Hns.
  eapply returns_seq; [apply (abs_column _ n _ Hs)|]. intros m Hm. cbv beta in Hm.
  eapply returns_seq; [apply (dot_column _ _ n _ _ Hds Hns)|]. intros qs (sg & Hsg & Psg).
  eapply returns_seq; [apply (ranks_column few_bits _ n _ Hd)|]. intros r ->. cbn [at0 at1 at2].
  eapply returns_seq; [apply (goldschmidt_column _ _ n _ _ Hm Hd)|]. intros p (pv & Hp & Pp).
  eapply returns_mono; [|apply (dot_column _ _ n _ _ Hp Hsg)].
  intros u (q & Hq & Pq). exists q. split; [done|]. intros i Hi. exists (pv i), (sg i). auto.
Qed.
End Quotient.
