(* ===== verification/MpcDivProps.v ===== *)
(** * Accuracy of the secure division

    The error analysis of [MpcDiv]: the real-number facts about Goldschmidt's
    iteration started from [2.9142 - 2x] with the library's truncation error in
    every product, the bounds that exclude overflow, and the theorem on the three
    parties' runs. *)

From Stdlib Require Import ZArith Lia SpecFloat Reals Lra Psatz.
From stdpp Require Import base tactics list option.
From S2P Require Import Prelude ModArith Machine Doubles Aby3Op PartyProg MpcDiv.

(** ** Real-number facts *)

Section RealFacts.
Local Open Scope R_scope.

(** [y] is within [e] of [x]. *)
Definition near (e x y : R) : Prop := - e <= y - x <= e.

Lemma near_abs e x y : near e x y <-> Rabs (y - x) <= e.
Proof. unfold near. split; [apply Rabs_le|]. intros H. pose proof (Rle_abs (y - x)). pose proof (Rle_abs (- (y - x))). rewrite Rabs_Ropp in *. lra. Qed.

Lemma mul_bound x y a b : - a <= x <= a -> - b <= y <= b -> - (a * b) <= x * y <= a * b.
Proof.
  intros [H1 H2] [H3 H4].
  assert (P1 : 0 <= (a - x) * (b + y)) by (apply Rmult_le_pos; lra). assert (P2 : 0 <= (a + x) * (b - y)) by (apply Rmult_le_pos; lra).
  assert (P3 : 0 <= (a + x) * (b + y)) by (apply Rmult_le_pos; lra). assert (P4 : 0 <= (a - x) * (b - y)) by (apply Rmult_le_pos; lra).
  lra.
Qed.

(** The relative error [1 - x(2.9142 - 2x)] of the first approximation. *)
Definition first_error (x : R) : R := 1 - 2.9142 * x + 2 * (x * x).

Lemma first_error_quarter x : 1/4 <= x <= 1 -> -0.0617 <= first_error x <= 0.3965.
Proof. unfold first_error. intros H. pose proof (Rle_0_sqr (x - 0.72855)) as Hq. unfold Rsqr in Hq. split; nra. Qed.

Lemma first_error_half x : 1/2 <= x <= 1 -> -0.0617 <= first_error x <= 0.0858.
Proof. unfold first_error. intros H. pose proof (Rle_0_sqr (x - 0.72855)) as Hq. unfold Rsqr in Hq. split; nra. Qed.

Context (u beta N k c w : R).
Context (Hu : 0 <= u) (Hbeta : 0 < beta) (HN : 0 < N) (Hsmall : (3 + beta) * u <= 1/100).
Context (Hx : 1/4 <= beta * N <= 1).
Context (Hk : near u 2.9142 k) (Hc : near u (beta * N) c) (Hw : near u ((k - 2 * c) * N) w).

Lemma u_bound : u <= 1/300.
Proof using Hu Hbeta Hsmall. nra. Qed.

Lemma start_bound : 0 <= k - 2 * c <= 3.
Proof using Hu Hbeta HN Hsmall Hx Hk Hc. pose proof u_bound. unfold near in *. lra. Qed.

(** The relative error of the first approximation of the inverse. *)
Lemma theta_near : near (1/100) (first_error (beta * N)) (1 - beta * w).
Proof using Hu Hbeta HN Hsmall Hx Hk Hc Hw.
  unfold near, first_error in *. set (x := beta * N) in *.
  assert (He : beta * w = x * (k - 2 * c) + beta * (w - (k - 2 * c) * N)) by (unfold x; ring).
  set (e2 := w - (k - 2 * c) * N) in *. assert (H2 : - (beta * u) <= beta * e2 <= beta * u) by (split; nra).
  assert (H1 : - (3 * u) <= x * ((k - 2.9142) - 2 * (c - x)) <= 3 * u).
  { assert (- (3 * u) <= (k - 2.9142) - 2 * (c - x) <= 3 * u) by lra. nra. }
  replace (1 - beta * w - (1 - 2.9142 * x + 2 * (x * x))) with (- (x * ((k - 2.9142) - 2 * (c - x))) - beta * e2) by (rewrite He; ring).
  lra.
Qed.

Lemma theta_bound : -0.08 <= 1 - beta * w <= 0.41.
Proof using Hu Hbeta HN Hsmall Hx Hk Hc Hw. pose proof theta_near. pose proof (first_error_quarter _ Hx). unfold near in *. lra. Qed.

Lemma theta_bound_half : 1/2 <= beta * N -> -0.08 <= 1 - beta * w <= 0.1.
Proof using Hu Hbeta HN Hsmall Hx Hk Hc Hw.
  intros Hh. pose proof theta_near. pose proof (first_error_half (beta * N)). unfold near in *. lra.
Qed.
End RealFacts.

(** The iteration, from an inverse with relative error [th]. *)
Section Iteration.
Local Open Scope R_scope.
Context (u Q th bw aw p e q : R).
Context (Hu : 0 <= u <= 1/300) (HQ : 0 <= Q) (Hth : -0.08 <= th <= 0.41).
Context (Hbw : near u (1 - th) bw) (Haw : near u (Q * (1 - th)) aw).

Lemma bw_bound : 0 <= 1 + (1 - bw) <= 1.42 /\ -0.09 <= 1 - bw <= 0.42.
Proof using Hu Hth Hbw. unfold near in *. lra. Qed.

Lemma aw_bound : - u <= aw <= 1.08 * Q + u.
Proof using Hu HQ Hth Haw. unfold near in *. nra. Qed.

Context (Hp : near u ((1 + (1 - bw)) * aw) p) (He : near u ((1 - bw) * (1 - bw)) e).

Lemma p_error : near ((1.1 * Q + 2.42) * u) (Q * (1 - th * th)) p.
Proof using Hu HQ Hth Hbw Haw Hp.
  unfold near in *. set (e3 := bw - (1 - th)) in *. set (e4 := aw - Q * (1 - th)) in *. set (e5 := p - _) in Hp.
  replace (p - Q * (1 - th * th)) with (- (e3 * (Q * (1 - th))) + (1 + th - e3) * e4 + e5) by (unfold e3, e4, e5; ring).
  assert (H1 : - (u * (1.08 * Q)) <= e3 * (Q * (1 - th)) <= u * (1.08 * Q)) by (apply mul_bound; [lra|nra]).
  assert (H2 : - (1.42 * u) <= (1 + th - e3) * e4 <= 1.42 * u) by (apply mul_bound; lra). nra.
Qed.

Lemma e_error : near (1.83 * u) (th * th) e.
Proof using Hu Hth Hbw He.
  unfold near in *. set (e3 := bw - (1 - th)) in *. set (e6 := e - _) in He.
  replace (e - th * th) with (e3 * (e3 - 2 * th) + e6) by (unfold e3, e6; ring).
  assert (H1 : - (u * 0.83) <= e3 * (e3 - 2 * th) <= u * 0.83) by (apply mul_bound; lra). lra.
Qed.

Lemma p_bound : - (1.1 * Q + 0.01) <= p <= 1.1 * Q + 0.01.
Proof using Hu HQ Hth Hbw Haw Hp.
  pose proof p_error as H. unfold near in H. assert (0 <= th * th <= 0.17) by (split; nra).
  assert (0 <= Q * (th * th) <= 0.17 * Q) by (split; nra). assert (Q * u <= Q * (1/300)) by nra. nra.
Qed.

Lemma e_bound : -0.01 <= e <= 0.18.
Proof using Hu Hth Hbw He. pose proof e_error as H. unfold near in H. nra. Qed.

Context (Hq : near u (p * (1 + e)) q).

Lemma quotient_error : near (Q * (th * th * (th * th)) + (4 * Q + 4) * u) Q q.
Proof using Hu HQ Hth Hbw Haw Hp He Hq.
  pose proof p_error as HA. pose proof e_error as HB. unfold near in *.
  set (A := p - Q * (1 - th * th)) in *. set (B := e - th * th) in *. set (e7 := q - p * (1 + e)) in *.
  assert (Ht : 0 <= th * th <= 0.1681) by (split; nra). set (t2 := th * th) in *.
  replace (q - Q) with (- (Q * (t2 * t2)) + A * (1 + t2) + Q * ((1 - t2) * B) + A * B + e7) by (unfold A, B, e7; ring).
  assert (H0 : 0 <= Q * (t2 * t2)) by (apply Rmult_le_pos; nra).
  assert (H1 : - ((1.1 * Q + 2.42) * u * 1.1681) <= A * (1 + t2) <= (1.1 * Q + 2.42) * u * 1.1681) by (apply mul_bound; lra).
  assert (H2 : - (1 * (1.83 * u)) <= (1 - t2) * B <= 1 * (1.83 * u)) by (apply mul_bound; lra).
  assert (H3 : - (Q * (1.83 * u)) <= Q * ((1 - t2) * B) <= Q * (1.83 * u)) by (split; nra).
  assert (H4 : - ((1.1 * Q + 2.42) * u * 0.0061) <= A * B <= (1.1 * Q + 2.42) * u * 0.0061) by (apply mul_bound; lra).
  assert (H5 : 0 <= Q * u) by (apply Rmult_le_pos; lra). split; lra.
Qed.

Lemma quotient_bound : - (1.1 * Q + 0.02) <= q <= 1.1 * Q + 0.02.
Proof using Hu HQ Hth Hbw Haw Hp He Hq.
  pose proof quotient_error as H. unfold near in H. assert (0 <= th * th <= 0.1681) by (split; nra). set (t2 := th * th) in *.
  assert (0 <= t2 * t2 <= 0.03) by (split; nra). assert (0 <= Q * (t2 * t2) <= 0.03 * Q) by (split; nra).
  assert (0 <= Q * u <= Q * (1/300)) by (split; nra). split; lra.
Qed.

Context (sg s ret : R) (Hsg : sg = 1 \/ sg = -1) (Hs : near u sg s) (Hr : near u (q * s) ret).

Lemma signed_error : near (Q * (th * th * (th * th)) + (5.2 * Q + 5.1) * u) (sg * Q) ret.
Proof using Hu HQ Hth Hbw Haw Hp He Hq Hsg Hs Hr.
  pose proof quotient_error as H. pose proof quotient_bound as Hb. unfold near in *.
  set (es := s - sg) in *. set (e8 := ret - q * s) in *.
  replace (ret - sg * Q) with (sg * (q - Q) + q * es + e8) by (unfold es, e8; ring).
  assert (H1 : - ((1.1 * Q + 0.02) * u) <= q * es <= (1.1 * Q + 0.02) * u) by (apply mul_bound; lra).
  destruct Hsg as [-> | ->]; lra.
Qed.
End Iteration.

(** ** From the shared integers to real numbers *)

Section Accuracy.
Context `{L : Aby3Laws} {ulp : Z} {F : FixedPointLaws E ulp}.
Context (few_bits : (frac_bits <= 20)%Z).
Local Open Scope R_scope.

Definition scale : R := IZR (2 ^ frac_bits).
Definition value (x : Z) : R := IZR x / scale.
Definition err : R := IZR ulp / scale.

Lemma scale_bound : 2 <= scale <= 1048576.
Proof using F few_bits.
  assert (HD := frac_range few_bits). unfold scale. split; apply IZR_le.
  - change 2%Z with (2 ^ 1)%Z at 1. apply Z.pow_le_mono_r; lia.
  - change 1048576%Z with (2 ^ 20)%Z. apply Z.pow_le_mono_r; lia.
Qed.

Lemma value_scale x : value x * scale = IZR x.
Proof using F few_bits. pose proof scale_bound. unfold value. field. lra. Qed.

Lemma value_sub x y : value (x - y) = value x - value y.
Proof. unfold value. rewrite minus_IZR. lra. Qed.
Lemma value_add x y : value (x + y) = value x + value y.
Proof. unfold value. rewrite plus_IZR. lra. Qed.
Lemma value_two x : value (2 * x) = 2 * value x.
Proof. unfold value. rewrite mult_IZR. lra. Qed.
Lemma value_one : value (2 ^ frac_bits) = 1.
Proof using F few_bits. pose proof scale_bound. unfold value. fold scale. field. lra. Qed.

Lemma err_bound : / scale <= err.
Proof using F few_bits.
  pose proof scale_bound. unfold err. assert (Hu : 1 <= IZR ulp) by (apply IZR_le; apply ulp_pos).
  assert (0 < / scale) by (apply Rinv_0_lt_compat; lra). unfold Rdiv. nra.
Qed.

(** Products below this bound do not overflow. *)
Definition room : R := IZR (2 ^ 62) / (scale * scale).

Lemma room_bound : 3 * scale < room.
Proof using F few_bits.
  pose proof scale_bound as H. unfold room. assert (0 < scale * scale) by nra.
  apply (Rmult_lt_reg_r (scale * scale)); [done|].
  replace (IZR (2 ^ 62) / (scale * scale) * (scale * scale)) with (IZR (2 ^ 62)) by (field; lra).
  change (IZR (2 ^ 62)) with 4611686018427387904. assert (scale * scale <= 1048576 * 1048576) by nra.
  assert (scale * (scale * scale) <= 1048576 * (1048576 * 1048576)) by nra. lra.
Qed.

Lemma product_near x y z B : fixed_product x y z -> - B <= value x * value y <= B -> B < room -> near err (value x * value y) (value z).
Proof using F few_bits.
  intros Hp HB Hroom. pose proof scale_bound as Hs. assert (Hss : 0 < scale * scale) by nra.
  assert (Exy : IZR (x * y) = value x * value y * (scale * scale)) by (rewrite mult_IZR, <- !value_scale; ring).
  assert (HR : room * (scale * scale) = IZR (2 ^ 62)) by (unfold room; field; lra).
  assert (Hz : (Z.abs (x * y) < 2 ^ 62)%Z).
  { assert (Hb : - IZR (2 ^ 62) < IZR (x * y) < IZR (2 ^ 62)) by (rewrite Exy, <- HR; split; nra).
    rewrite <- opp_IZR in Hb. destruct Hb as [Hb1 Hb2]. apply lt_IZR in Hb1, Hb2. lia. }
  assert (Hl := fixed_product_law x y z Hp Hz).
  assert (Hr : - (IZR ulp * scale) <= IZR z * scale - IZR (x * y) <= IZR ulp * scale).
  { unfold scale. rewrite <- !mult_IZR, <- minus_IZR, <- opp_IZR. split; apply IZR_le; lia. }
  unfold near. rewrite Exy, <- (value_scale z) in Hr.
  assert (Hf : IZR ulp = err * scale) by (unfold err; field; lra). rewrite Hf in Hr.
  split; apply (Rmult_le_reg_r (scale * scale)); lra.
Qed.

Lemma wrap_small z : -4 <= value z <= 4 -> wrap z = z.
Proof using F few_bits.
  intros H. pose proof scale_bound as Hs. assert (Hb : IZR (-4194304) <= IZR z <= IZR 4194304).
  { rewrite <- (value_scale z). change (IZR (-4194304)) with (-4194304). split; nra. }
  destruct Hb as [H1 H2]. apply le_IZR in H1, H2. apply wrap_id, in_i64_spec. lia.
Qed.

(** The constant 2.9142. *)
Lemma constant_near : near err 2.9142 (value (to_fixed twopotnine_value)).
Proof using F few_bits.
  pose proof scale_bound as Hs. pose proof err_bound as He. assert (HD := frac_range few_bits).
  assert (Hc : twopotnine_value = S754_finite false 6562195017041550 (-51)) by (vm_compute; reflexivity).
  assert (Hp : (0 < 2 ^ frac_bits <= 2 ^ 20)%Z) by (split; [apply Z.pow_pos_nonneg; lia|apply Z.pow_le_mono_r; lia]).
  assert (Hlaw := to_fixed_law false 6562195017041550 (-51)). cbv zeta in Hlaw. rewrite <- Hc in Hlaw.
  change (-51)%Z with (- (51))%Z in Hlaw. rewrite Z.shiftl_opp_r, Z.shiftr_div_pow2 in Hlaw by lia.
  set (P := (2 ^ frac_bits)%Z) in *. set (v := (6562195017041550 * P / 2 ^ 51)%Z) in *.
  assert (Hm := Z.div_mod (6562195017041550 * P) (2 ^ 51) ltac:(lia)). fold v in Hm.
  assert (Hm2 := Z.mod_pos_bound (6562195017041550 * P) (2 ^ 51) ltac:(lia)).
  set (r := (_ mod _)%Z) in *. clearbody r v. change (2 ^ 51)%Z with 2251799813685248%Z in *.
  rewrite Hlaw by (apply in_i64_spec; lia).
  assert (Hv : (2251799813685248 * v <= 6562195017041550 * P < 2251799813685248 * v + 2251799813685248)%Z) by lia.
  destruct Hv as [Hv1 Hv2]. apply IZR_le in Hv1. apply IZR_lt in Hv2. rewrite plus_IZR, !mult_IZR in Hv2. rewrite !mult_IZR in Hv1.
  assert (Es : IZR P = scale) by reflexivity. rewrite Es, <- (value_scale v) in *.
  assert (Hi : / scale * scale = 1) by (field; lra). assert (9 / 10000000 <= / scale).
  { apply (Rmult_le_reg_r scale); [lra|]. rewrite Hi. lra. }
  unfold near. split; apply (Rmult_le_reg_r scale); nra.
Qed.

(** The row of the iteration, in real numbers. *)
Section Row.
Context (a b q : Z) (Ha : (0 <= a)%Z) (Hb : (0 < b < 2 ^ (2 * frac_bits))%Z).
Context (Hprec : (100 * ulp * (3 * 2 ^ frac_bits + b) <= 2 ^ (2 * frac_bits))%Z) (Hfit : (a * 2 ^ (2 * frac_bits) <= b * 2 ^ 60)%Z).

Lemma scale_square : IZR (2 ^ (2 * frac_bits)) = scale * scale.
Proof using F few_bits.
  assert (HD := frac_range few_bits). unfold scale. rewrite <- mult_IZR, <- Z.pow_add_r by lia. do 2 f_equal. lia.
Qed.

Lemma beta_pos : 0 < value b.
Proof using F few_bits Hb. pose proof scale_bound. unfold value. apply Rdiv_lt_0_compat; [apply IZR_lt; lia|lra]. Qed.

Lemma norm_real : 0 < value (norm_of b) <= scale /\ 1/4 <= value b * value (norm_of b) <= 1 /\
  ((b < 2 ^ (frac_bits - 1) \/ 2 ^ frac_bits <= b)%Z -> 1/2 <= value b * value (norm_of b)).
Proof using F few_bits Hb.
  pose proof scale_bound as Hs. destruct (norm_spec few_bits b Hb) as ([N1 N2] & N3 & N4 & N5).
  assert (E2 : IZR (b * norm_of b) = value b * value (norm_of b) * (scale * scale)) by (rewrite mult_IZR, <- !value_scale; ring).
  apply IZR_lt in N1. apply IZR_le in N2, N3, N4. rewrite scale_square in N2, N3, N4. rewrite mult_IZR, E2 in N3. rewrite E2 in N4.
  rewrite <- (value_scale (norm_of b)) in N1, N2. assert (Hss : 0 < scale * scale) by nra.
  split; [split; [apply (Rmult_lt_reg_r scale); lra|apply (Rmult_le_reg_r scale); lra]|]. split; [split; apply (Rmult_le_reg_r (scale * scale)); lra|].
  intros Hh. specialize (N5 Hh). apply IZR_le in N5. rewrite scale_square, mult_IZR, E2 in N5. apply (Rmult_le_reg_r (scale * scale)); lra.
Qed.

Lemma precision_real : (3 + value b) * err <= 1/100.
Proof using F few_bits Hb Hprec.
  pose proof scale_bound as Hs. apply IZR_le in Hprec. rewrite scale_square, !mult_IZR, plus_IZR, mult_IZR in Hprec. fold scale in Hprec.
  rewrite <- (value_scale b) in Hprec. assert (Hf : IZR ulp = err * scale) by (unfold err; field; lra). rewrite Hf in Hprec.
  assert (Hss : 0 < scale * scale) by nra. apply (Rmult_le_reg_r (scale * scale)); lra.
Qed.

Lemma quotient_real : 0 <= value a / value b <= room / 4.
Proof using F few_bits Ha Hb Hfit.
  pose proof scale_bound as Hs. pose proof beta_pos as Hbp. assert (Hss : 0 < scale * scale) by nra.
  assert (0 <= value a) by (unfold value; apply Rmult_le_pos; [by apply IZR_le|left; apply Rinv_0_lt_compat; lra]).
  split; [apply Rmult_le_pos; [done|left; by apply Rinv_0_lt_compat]|].
  apply IZR_le in Hfit. rewrite !mult_IZR, scale_square, <- (value_scale a), <- (value_scale b) in Hfit.
  assert (HR : room * (scale * scale) = 4 * IZR (2 ^ 60)).
  { unfold room. change (IZR (2 ^ 62)) with 4611686018427387904. change (IZR (2 ^ 60)) with 1152921504606846976. field. lra. }
  apply (Rmult_le_reg_r (value b)); [done|]. replace (value a / value b * value b) with (value a) by (field; lra).
  apply (Rmult_le_reg_r (scale * (scale * scale))); [apply Rmult_lt_0_compat; lra|].
  replace (room / 4 * value b * (scale * (scale * scale))) with (value b * scale * (room * (scale * scale) / 4)) by field.
  rewrite HR. lra.
Qed.

(** What the row computes is the quotient up to the fourth power of the first
    error and a few truncations; [th] is the first error. *)
Lemma row_iteration : goldschmidt_row a b q -> exists th bw aw p e,
  let u := err in let Q := value a / value b in
  -0.08 <= th <= 0.41 /\ ((b < 2 ^ (frac_bits - 1) \/ 2 ^ frac_bits <= b)%Z -> -0.08 <= th <= 0.1) /\
  near u (1 - th) bw /\ near u (Q * (1 - th)) aw /\ near u ((1 + (1 - bw)) * aw) p /\ near u ((1 - bw) * (1 - bw)) e /\
  near u (p * (1 + e)) (value q).
Proof using F few_bits Ha Hb Hprec Hfit.
  intros (c & w & bw & aw & p & e & Pc & Pw & Pb & Pa & Pp & Pe & Pq).
  pose proof scale_bound as Hs. pose proof room_bound as Hroom. pose proof beta_pos as Hbp. pose proof err_bound as He0.
  destruct norm_real as ([N1 N2] & Hx & Hhalf). pose proof precision_real as Hprec'. destruct quotient_real as [HQ1 HQ2].
  assert (Hu : 0 <= err) by (assert (0 < / scale) by (apply Rinv_0_lt_compat; lra); lra).
  pose proof (u_bound err (value b) Hu Hbp Hprec') as Hu2. pose proof constant_near as Hk.
  apply (product_near _ _ _ 1) in Pc; [|lra|lra].
  assert (Hst := start_bound _ _ _ _ _ Hu Hbp N1 Hprec' Hx Hk Pc).
  assert (E2c : wrap (2 * c) = (2 * c)%Z) by (apply wrap_small; rewrite value_two; unfold near in Pc; lra).
  rewrite E2c, wrap_small in Pw by (rewrite value_sub, value_two; lra).
  apply (product_near _ _ _ (3 * scale)) in Pw; [|rewrite value_sub, value_two; split; nra|lra].
  rewrite value_sub, value_two in Pw.
  assert (Hth := theta_bound _ _ _ _ _ _ Hu Hbp N1 Hprec' Hx Hk Pc Pw).
  assert (Hth2 := theta_bound_half _ _ _ _ _ _ Hu Hbp N1 Hprec' Hx Hk Pc Pw).
  set (th := 1 - value b * value w) in *. set (Q := value a / value b) in *.
  assert (Ebw : value b * value w = 1 - th) by (unfold th; ring).
  assert (Eaw : value a * value w = Q * (1 - th)) by (unfold th, Q; field; lra).
  apply (product_near _ _ _ 2) in Pb; [|lra|lra]. rewrite Ebw in Pb.
  apply (product_near _ _ _ (2 * Q)) in Pa; [|rewrite Eaw; split; nra|lra]. rewrite Eaw in Pa.
  destruct (bw_bound _ _ _ (conj Hu Hu2) Hth Pb) as [B1 B2]. assert (B3 := aw_bound _ _ _ _ (conj Hu Hu2) HQ1 Hth Pa).
  assert (E1 : wrap (2 ^ frac_bits - bw) = (2 ^ frac_bits - bw)%Z) by (apply wrap_small; rewrite value_sub, value_one; lra).
  rewrite E1 in Pp, Pe. rewrite wrap_small in Pp by (rewrite value_add, value_sub, value_one; lra).
  apply (product_near _ _ _ (2 * Q + 1)) in Pp; [|rewrite value_add, value_sub, value_one; split; nra|lra].
  apply (product_near _ _ _ 1) in Pe; [|rewrite value_sub, value_one; split; nra|lra].
  rewrite value_add, value_sub, value_one in Pp. rewrite value_sub, value_one in Pe.
  assert (B4 := p_bound _ _ _ _ _ _ (conj Hu Hu2) HQ1 Hth Pb Pa Pp). assert (B5 := e_bound _ _ _ _ (conj Hu Hu2) Hth Pb Pe).
  rewrite wrap_small in Pq by (rewrite value_add, value_one; lra).
  apply (product_near _ _ _ (2 * Q + 1)) in Pq; [|rewrite value_add, value_one; split; nra|lra].
  rewrite value_add, value_one in Pq.
  exists th, (value bw), (value aw), (value p), (value e). cbv zeta. tauto.
Qed.
End Row.
End Accuracy.

(** ** The theorem *)

Section DivTheorem.
Context `{L : Aby3Laws} {ulp : Z} {F : FixedPointLaws E ulp}.
Local Open Scope Z_scope.

(** The operands for which the division is accurate: the divisor is not 0, below
    [2^D] and small enough for the precision, the quotient fits. *)
Definition divisible (a b : Z) : Prop :=
  0 < Z.abs b < 2 ^ (2 * frac_bits) /\ 100 * ulp * (3 * 2 ^ frac_bits + Z.abs b) <= 2 ^ (2 * frac_bits) /\
  Z.abs a * 2 ^ (2 * frac_bits) <= Z.abs b * 2 ^ 60.

(** The relative error in ten-thousandths: 283 for a divisor in [1/2, 1), which the
    rank rank_search normalises to below one half, and 1 otherwise. *)
Definition slack (b : Z) : Z := if (2 ^ (frac_bits - 1) <=? Z.abs b) && (Z.abs b <? 2 ^ frac_bits) then 283 else 1.

Definition quotient_within (a b q : Z) : Prop :=
  10000 * Z.abs (q * b - a * 2 ^ frac_bits) <= slack b * Z.abs a * 2 ^ frac_bits + 60000 * ulp * (Z.abs a + Z.abs b).

Context (few_bits : frac_bits <= 20).

Lemma sign_real b : exists s : R, (s = 1 \/ s = -1)%R /\ (value (sign_of b) = s)%R /\ (value b = s * value (Z.abs b))%R.
Proof using F few_bits.
  unfold sign_of. destruct (Z.ltb_spec b 0).
  - exists (-1)%R. split; [by right|]. rewrite Z.abs_neq by lia. unfold value. rewrite !opp_IZR.
    pose proof (scale_bound few_bits) as Hs. fold scale. split; [field; lra|lra].
  - exists 1%R. split; [by left|]. rewrite Z.abs_eq by lia. split; [apply (value_one few_bits)|lra].
Qed.

Lemma slack_power (th : R) b : (-0.08 <= th <= 0.41)%R ->
  (Z.abs b < 2 ^ (frac_bits - 1) \/ 2 ^ frac_bits <= Z.abs b -> (-0.08 <= th <= 0.1)%R) ->
  (0 <= th * th * (th * th) <= IZR (slack b) / 10000)%R.
Proof.
  intros H1 H2. assert (Ht : (0 <= th * th)%R) by nra. split; [nra|]. unfold slack.
  destruct ((2 ^ (frac_bits - 1) <=? Z.abs b) && (Z.abs b <? 2 ^ frac_bits)) eqn:E1.
  - assert (th * th <= 0.1681)%R by nra. nra.
  - assert (-0.08 <= th <= 0.1)%R by (apply H2; apply andb_false_iff in E1; lia). assert (th * th <= 0.01)%R by nra. nra.
Qed.

Lemma real_to_units a b q : b <> 0 ->
  (near (Rabs (value a / value b) * (IZR (slack b) / 10000) + 6 * (Rabs (value a / value b) + 1) * (IZR ulp / scale)) (value a / value b) (value q))%R ->
  quotient_within a b q.
Proof using F few_bits.
  intros Hb H. pose proof (scale_bound few_bits) as Hs. apply near_abs in H. unfold quotient_within.
  assert (Hbr : IZR b <> 0%R) by (by apply not_0_IZR). assert (Hab : (0 < Rabs (IZR b))%R) by (by apply Rabs_pos_lt).
  assert (EQ : (value a / value b = IZR a / IZR b)%R) by (unfold value; field; lra). rewrite EQ in H.
  assert (Ea : (Rabs (IZR a / IZR b) * Rabs (IZR b) = Rabs (IZR a))%R) by (rewrite <- Rabs_mult; f_equal; field; exact Hbr).
  assert (Ed : (Rabs (value q - IZR a / IZR b) * (Rabs (IZR b) * scale) = Rabs (IZR q * IZR b - IZR a * scale))%R).
  { rewrite <- (Rabs_pos_eq scale) at 1 by lra. rewrite <- !Rabs_mult. f_equal. unfold value. field. split; first [exact Hbr|lra]. }
  apply le_IZR. rewrite !plus_IZR, !mult_IZR, !abs_IZR, minus_IZR, plus_IZR, !mult_IZR, !abs_IZR. fold scale. rewrite <- Ed.
  apply (Rmult_le_compat_r (Rabs (IZR b) * scale)) in H; [|apply Rmult_le_pos; lra].
  replace (IZR (slack b) * Rabs (IZR a) * scale + 60000 * IZR ulp * (Rabs (IZR a) + Rabs (IZR b)))%R
    with (10000 * ((Rabs (IZR a / IZR b) * (IZR (slack b) / 10000) + 6 * (Rabs (IZR a / IZR b) + 1) * (IZR ulp / scale)) * (Rabs (IZR b) * scale)))%R; [lra|].
  rewrite <- Ea. field. lra.
Qed.

Lemma div_row_accurate a b q : div_row a b q -> divisible a b -> quotient_within a b q.
Proof using L F few_bits.
  intros (p & s & Hg & Ps & Pq) (Hb & Hprec & Hfit). apply real_to_units; [lia|]. assert (HD := frac_range few_bits).
  assert (Hp40 : 2 ^ (2 * frac_bits) <= 2 ^ 40) by (apply Z.pow_le_mono_r; lia).
  rewrite !abs_of_abs in Hg by (assert (Z.abs a < 2 ^ 60) by nia; lia).
  pose proof (scale_bound few_bits) as Hs. pose proof (room_bound few_bits) as Hroom.
  destruct (row_iteration few_bits (Z.abs a) (Z.abs b) p (Z.abs_nonneg a) Hb Hprec Hfit Hg) as (th & bw & aw & p' & e & H). cbv zeta in H.
  destruct H as (Hth & Hth2 & Hbw & Haw & Hp & He & Hq).
  pose proof (quotient_real few_bits (Z.abs a) (Z.abs b) (Z.abs_nonneg a) Hb Hfit) as [HQ1 HQ2].
  pose proof (beta_pos few_bits (Z.abs b) Hb) as Hbp. pose proof (precision_real few_bits (Z.abs b) Hb Hprec) as Hpr.
  pose proof (err_bound few_bits) as He0. set (Q := (value (Z.abs a) / value (Z.abs b))%R) in *. set (u := err) in *.
  assert (Hu : (0 <= u <= 1/300)%R). { assert (0 < / scale)%R by (apply Rinv_0_lt_compat; lra). split; [lra|nra]. }
  destruct (sign_real b) as (sb & Hsb & Esb & Eb). destruct (sign_real a) as (sa & Hsa & Esa & Ea).
  assert (Hsg : (sb * sa = 1 \/ sb * sa = -1)%R) by (destruct Hsb as [-> | ->], Hsa as [-> | ->]; lra).
  apply (product_near few_bits _ _ _ 1) in Ps; [|rewrite Esb, Esa; lra|lra]. rewrite Esb, Esa in Ps. fold u in Ps.
  assert (Hqb := quotient_bound _ _ _ _ _ _ _ _ Hu HQ1 Hth Hbw Haw Hp He Hq).
  assert (Hss : (-1.01 <= value s <= 1.01)%R) by (unfold near in Ps; destruct Hsg as [Hg1|Hg1]; rewrite Hg1 in Ps; lra).
  apply (product_near few_bits _ _ _ ((1.1 * Q + 0.02) * 1.01)%R) in Pq; [|apply mul_bound; lra|lra]. fold u in Pq.
  assert (Hfin := signed_error _ _ _ _ _ _ _ _ Hu HQ1 Hth Hbw Haw Hp He Hq _ _ _ Hsg Ps Pq).
  assert (EQ : (value a / value b = sb * sa * Q)%R).
  { unfold Q. rewrite Ea, Eb. destruct Hsb as [-> | ->]; field; lra. }
  assert (EA : (Rabs (value a / value b) = Q)%R).
  { rewrite EQ, Rabs_mult, (Rabs_pos_eq Q) by done. destruct Hsg as [-> | ->]; [rewrite Rabs_R1; lra|].
    rewrite (Rabs_left (-1)) by lra. lra. }
  rewrite EA, EQ. assert (Hsl := slack_power th b Hth Hth2). change (IZR ulp / scale)%R with u. unfold near in *.
  assert ((0 <= Q * (th * th * (th * th)) <= Q * (IZR (slack b) / 10000))%R) by (split; nra).
  assert ((0 <= Q * u)%R) by (apply Rmult_le_pos; lra). lra.
Qed.
End DivTheorem.

(** C16: three parties that divide a shared column [a] by a shared column [b] with
    [MPC_Div] all finish, and hold a sharing of a column [q] of quotients: with [D]
    binary decimals and a truncation error of [ulp] units per product, [q/2^D]
    differs from [a/b] by at most one ten-thousandth of [|a/b|] (283 of them when
    the divisor is in [1/2, 1)) plus [6 (|a/b| + 1)] truncation errors, whenever
    the divisor is not 0 and small enough and the quotient fits. *)
Theorem mpc_div_accurate `{L : Aby3Laws} {ulp : Z} {F : FixedPointLaws E ulp} (s t : trip si64Matrix) (n : nat) (a b : list Z) (k : nat) :
  (frac_bits <= 20)%Z -> shares s (Mat n 1 a) -> shares t (Mat n 1 b) ->
  (forall i x y, a !! i = Some x -> b !! i = Some y -> divisible (ulp := ulp) x y) ->
  exists u q, run3 k (MPC_Div 0 (at0 s) (at0 t)) (MPC_Div 1 (at1 s) (at1 t)) (MPC_Div 2 (at2 s) (at2 t)) = Some (trip_map Ret u) /\
    shares u (Mat n 1 q) /\ length q = n /\
    forall i x y z, a !! i = Some x -> b !! i = Some y -> q !! i = Some z -> quotient_within (ulp := ulp) x y z.
Proof.
  intros Hfew Hs Ht Hd.
  assert (La : length a = n) by (apply shares_ok in Hs as [Hs _]; unfold mat_ok in Hs; simpl in Hs; lia).
  assert (Lb : length b = n) by (apply shares_ok in Ht as [Ht _]; unfold mat_ok in Ht; simpl in Ht; lia).
  rewrite (column_of n a La) in Hs. rewrite (column_of n b Lb) in Ht. fold (holds s n (fun i => nth i a 0%Z)) in Hs. fold (holds t n (fun i => nth i b 0%Z)) in Ht.
  assert (Hl : forall (l : list Z) i, length l = n -> (i < n)%nat -> l !! i = Some (nth i l 0%Z)).
  { intros l i Hll Hi. destruct (l !! i) as [z|] eqn:Ez; [by rewrite (nth_lookup_Some _ _ _ _ Ez)|apply lookup_ge_None in Ez; lia]. }
  assert (Hdi : forall i, (i < n)%nat -> divisible (ulp := ulp) (nth i a 0%Z) (nth i b 0%Z)) by (intros i Hi; apply (Hd i); by apply Hl).
  destruct (returns_run3 _ _ k (div_column (ulp := ulp) Hfew s t n _ _ Hs Ht))
    as (u & Hrun & q & Hq & Hrow).
  exists u, (q <$> seq 0 n). split; [exact Hrun|]. split; [exact Hq|]. split; [by rewrite length_fmap, length_seq|].
  intros i x y z Hx Hy Hz. assert (Hi : (i < n)%nat) by (rewrite <- La; by eapply lookup_lt_Some).
  rewrite Hl in Hx, Hy by done. rewrite list_lookup_fmap, lookup_seq_lt in Hz by done. simpl in Hz. simplify_eq.
  apply (div_row_accurate (ulp := ulp) Hfew); [by apply Hrow|by apply Hdi].
Qed.

Lemma mpc_div_accurate_witness : exists u q,
  let s := reshare 3 (Mat 2 1 [458752; -655360]%Z) in let t := reshare 4 (Mat 2 1 [131072; 196608]%Z) in
  run3 0 (MPC_Div 0 (at0 s) (at0 t)) (MPC_Div 1 (at1 s) (at1 t)) (MPC_Div 2 (at2 s) (at2 t)) = Some (trip_map Ret u) /\
  shares u (Mat 2 1 q) /\ length q = 2%nat /\
  forall i x y z, [458752; -655360]%Z !! i = Some x -> [131072; 196608]%Z !! i = Some y -> q !! i = Some z -> quotient_within (ulp := 1) x y z.
Proof.
  apply (mpc_div_accurate (ulp := 1)).
  - vm_compute. discriminate.
  - apply reshare_shares; [done|repeat constructor].
  - apply reshare_shares; [done|repeat constructor].
  - intros [|[|i]] x y Hx Hy; simpl in Hx, Hy; simplify_eq; vm_compute; repeat split; discriminate.
Defined.

(** ** What the division does elsewhere *)

Definition divide (a b : list Z) : option (list Z) :=
  let s := reshare 9 (Mat (length a) 1 a) in let t := reshare 9 (Mat (length b) 1 b) in
  match run3 0 (MPC_Div 0 (at0 s) (at0 t)) (MPC_Div 1 (at1 s) (at1 t)) (MPC_Div 2 (at2 s) (at2 t)) with
  | Some (Trip (Ret x) (Ret y) (Ret z)) => Some (cells (opened (Trip x y z)))
  | _ => None
  end.

(** [1 / 0.5] is computed as 1.9505. *)
Lemma divide_by_half : divide [65536]%Z [32768]%Z = Some [127832]%Z.
Proof. vm_compute. reflexivity. Qed.

(** From [2^16] on the normalisation factor is less than one unit and every
    quotient is 0: [300000 / 100000]. *)
Lemma divide_by_large : divide [300000 * 65536]%Z [100000 * 65536]%Z = Some [0]%Z.
Proof. vm_compute. reflexivity. Qed.
