(* ===== verification/Regression.v ===== *)
(** * Regression by stochastic gradient descent

    Models [algorithm/regression.h], whose functions are templates over an engine
    that multiplies matrices: [getSubset] samples the mini-batches, [extractBatch]
    copies their rows, [SGD_Linear] and [SGD_Logistic] train, [test_linearModel]
    and [test_logisticModel] score.  The template parameter is the class [Engine]
    over a monad, so that the same code is run by three parties on shares
    ([Aby3ML]) and read as a relation on the secrets. *)

From Stdlib Require Import ZArith Lia SpecFloat Permutation.
From stdpp Require Import base tactics list option.
From S2P Require Import Prelude ModArith Machine Doubles.

Local Open Scope Z_scope.

(** [mIterations] and [mBatchSize] are [u64]. *)
Record RegressionParam := Params { mIterations : Z; mBatchSize : Z; mLearningRate : double }.

(** ** Mini-batches *)

(** [oc::PRNG] and [std::shuffle] with it: the state of the generator and the
    shuffled vector. *)
Class Prng := { prng : Type; seeded : Z -> prng; shuffle : list nat -> prng -> list nat * prng }.

(** [std::shuffle] permutes. *)
Class PrngLaws (G : Prng) : Prop := { shuffle_perm l g : Permutation (shuffle l g).1 l }.

Section Batches.
Context `{G : Prng}.

(** The pool of indices, the position of [poolIter] in it and the generator. *)
Record sampler := Sampler { pool : list nat; pool_iter : nat; gen : prng }.

(** The loop of [getSubset], [left] entries from the end of [dest]; [None] when
    the fuel runs out. *)
Fixpoint subset_loop (fuel left : nat) (s : sampler) : option (list nat * sampler) :=
  match left with
  | O => Some ([], s)
  | _ =>
      match fuel with
      | O => None
      | S fuel =>
          let step := Nat.min (length (pool s) - pool_iter s) left in
          let copied := take step (drop (pool_iter s) (pool s)) in
          let it := (pool_iter s + step)%nat in
          let s' := if bool_decide (it = length (pool s))
                    then let '(p, g) := shuffle (pool s) (gen s) in Sampler p 0 g
                    else Sampler (pool s) it (gen s) in
          '(rest, s'') ← subset_loop fuel (left - step) s'; Some (copied ++ rest, s'')
      end
  end.

(** One round more than entries is enough ([subset_terminates]). *)
Definition getSubset (n : nat) (s : sampler) : option (list nat * sampler) := subset_loop (S n) n s.

(** The sampler at the start of a training: the iterator is at the end. *)
Definition new_sampler (rows : nat) (seed : Z) : sampler := Sampler (seq 0 rows) rows (seeded seed).

Definition sampler_ok (s : sampler) : Prop := (pool_iter s <= length (pool s))%nat /\ pool s <> [].

(** What is left of the pool. *)
Definition pending (s : sampler) : list nat := drop (pool_iter s) (pool s).

(** One round. *)
Definition round_step (left : nat) (s : sampler) : nat := Nat.min (length (pool s) - pool_iter s) left.
Definition round_next (left : nat) (s : sampler) : sampler :=
  let it := (pool_iter s + round_step left s)%nat in
  if bool_decide (it = length (pool s)) then let '(p, g) := shuffle (pool s) (gen s) in Sampler p 0 g
  else Sampler (pool s) it (gen s).

Lemma subset_loop_S fuel left s : left <> 0%nat -> subset_loop (S fuel) left s =
  '(rest, s'') ← subset_loop fuel (left - round_step left s) (round_next left s);
  Some (take (round_step left s) (pending s) ++ rest, s'').
Proof. by destruct left. Qed.

Context `{!PrngLaws G}.

Lemma round_next_ok left s : sampler_ok s -> sampler_ok (round_next left s) /\ Permutation (pool (round_next left s)) (pool s) /\
  (left <> 0%nat -> pool_iter (round_next left s) <> length (pool (round_next left s))) .
Proof.
  intros [Hi Hp]. unfold round_next. assert (Hsh := shuffle_perm (pool s) (gen s)). case_bool_decide as Hd.
  - destruct (shuffle (pool s) (gen s)) as [p g]. simpl in *. unfold sampler_ok. simpl. split; [split; [lia|]|].
    + intros ->. apply Permutation_nil in Hsh. done.
    + split; [done|]. intros _ Hz. destruct p; [|done]. by apply Permutation_nil in Hsh.
  - unfold sampler_ok. simpl. unfold round_step in *. split; [split; [lia|done]|]. done.
Qed.

(** ** The loop ends *)

Lemma subset_loop_ends fuel left s : sampler_ok s ->
  (left + (if bool_decide (pool_iter s = length (pool s)) then 1 else 0) <= fuel)%nat ->
  exists out s', subset_loop fuel left s = Some (out, s') /\ length out = left /\ sampler_ok s'.
Proof using PrngLaws0.
  revert left s. induction fuel as [|fuel IH]; intros left s Hok Hf.
  - assert (left = 0%nat) as -> by lia. by exists [], s.
  - destruct (decide (left = 0%nat)) as [->|Hl]; [by exists [], s|]. rewrite subset_loop_S by done.
    destruct (round_next_ok left s Hok) as (Hok' & _ & Hne). destruct Hok as [Hi Hp].
    assert (Hs : bool_decide (pool_iter s = length (pool s)) = false -> (1 <= round_step left s)%nat).
    { intros Hb%bool_decide_eq_false. unfold round_step. lia. }
    destruct (IH (left - round_step left s)%nat (round_next left s) Hok') as (out & s' & Hr & Hlen & Hok'').
    { rewrite (bool_decide_eq_false_2 (pool_iter (round_next left s) = _)) by (by apply Hne).
      destruct (bool_decide (pool_iter s = length (pool s))); [lia|]. specialize (Hs eq_refl). lia. }
    rewrite Hr. simpl. eexists _, s'. split; [done|]. split; [|done].
    rewrite length_app, length_take, Hlen. unfold pending. rewrite length_drop. unfold round_step. lia.
Qed.

Lemma subset_terminates n s : sampler_ok s -> exists out s', getSubset n s = Some (out, s') /\ length out = n /\ sampler_ok s'.
Proof using PrngLaws0. intros H. apply subset_loop_ends; [done|]. case_bool_decide; lia. Qed.

(** With an empty pool it never does: no index is ever copied. *)
Lemma subset_empty_pool n fuel s : pool s = [] -> n <> 0%nat -> subset_loop fuel n s = None.
Proof using PrngLaws0.
  intros Hp Hn. revert s Hp. induction fuel as [|fuel IH]; intros s Hp; [by destruct n|].
  rewrite subset_loop_S by done. assert (Hs : round_step n s = 0%nat) by (unfold round_step; rewrite Hp; simpl; lia).
  rewrite Hs, Nat.sub_0_r, IH; [done|]. unfold round_next. assert (Hsh := shuffle_perm (pool s) (gen s)). case_bool_decide; [|done].
  destruct (shuffle (pool s) (gen s)) as [p g]. simpl in *. rewrite Hp in Hsh. by apply Permutation_nil.
Qed.

(** ** Sampling is without replacement *)

(** The indices taken are the rest of the pool and then whole permutations of it. *)
Lemma subset_loop_stream fuel left s out s' : sampler_ok s -> subset_loop fuel left s = Some (out, s') ->
  exists ps, Forall (fun p => Permutation p (pool s)) ps /\ pending s ++ concat ps = out ++ pending s' /\ Permutation (pool s') (pool s).
Proof using PrngLaws0.
  revert left s out s'. induction fuel as [|fuel IH]; intros left s out s' Hok H.
  - destruct left; [|done]. injection H as <- <-. exists []. by rewrite app_nil_r.
  - destruct (decide (left = 0%nat)) as [->|Hl]. { injection H as <- <-. exists []. by rewrite app_nil_r. }
    rewrite subset_loop_S in H by done. destruct (round_next_ok left s Hok) as (Hok' & Hperm & _).
    destruct (subset_loop fuel _ (round_next left s)) as [[rest s'']|] eqn:E1; [|done]. simpl in H. injection H as <- <-.
    destruct (IH _ _ _ _ Hok' E1) as (ps & Hps & Heq & Hp'').
    assert (Hps' : Forall (fun p => Permutation p (pool s)) ps) by (eapply Forall_impl; [|exact Hps]; simpl; intros p Hp; by rewrite Hp).
    assert (Hpend : exists k, Forall (fun p => Permutation p (pool s)) k /\
      pending s ++ concat k = take (round_step left s) (pending s) ++ pending (round_next left s)).
    { unfold round_next in *. case_bool_decide as Hd.
      - destruct (shuffle (pool s) (gen s)) as [p g] eqn:Esh. simpl in Hperm. exists [p]. split; [by constructor|].
        unfold pending. simpl. rewrite app_nil_r, drop_0. f_equal. symmetry. apply take_ge. rewrite length_drop. lia.
      - exists []. split; [done|]. unfold pending. simpl. rewrite app_nil_r. rewrite <- drop_drop. by rewrite take_drop. }
    destruct Hpend as (k & Hk & Ek). exists (k ++ ps). split; [by apply Forall_app|]. split; [|by rewrite Hp''].
    rewrite concat_app, app_assoc, Ek, <- !app_assoc. f_equal. exact Heq.
Qed.

(** [k] mini-batches of [n] rows. *)
Fixpoint batches (k n : nat) (s : sampler) : option (list (list nat) * sampler) :=
  match k with
  | O => Some ([], s)
  | S k => '(b, s) ← getSubset n s; '(bs, s) ← batches k n s; Some (b :: bs, s)
  end.

Lemma batches_stream k n s : sampler_ok s -> exists bs s' ps, batches k n s = Some (bs, s') /\ length bs = k /\
  Forall (fun b => length b = n) bs /\ Forall (fun p => Permutation p (pool s)) ps /\
  pending s ++ concat ps = concat bs ++ pending s' /\ sampler_ok s' /\ Permutation (pool s') (pool s).
Proof using PrngLaws0.
  revert s. induction k as [|k IH]; intros s Hok.
  { exists [], s, []. rewrite app_nil_r. repeat (split; [done|]). done. }
  destruct (subset_terminates n s Hok) as (b & s1 & E1 & Hb & Hok1). destruct (subset_loop_stream _ _ _ _ _ Hok E1) as (ps1 & F1 & S1 & P1).
  destruct (IH s1 Hok1) as (bs & s2 & ps2 & E2 & Hk & F2 & Fp & S2 & Hok2 & P2).
  exists (b :: bs), s2, (ps1 ++ ps2). cbn [batches]. rewrite E1. cbn. rewrite E2. cbn. split; [done|]. split; [lia|]. split; [by constructor|].
  split; [apply Forall_app; split; [done|]; eapply Forall_impl; [|exact Fp]; simpl; intros p Hp; by rewrite Hp|].
  split; [|split; [done|by rewrite P2]]. rewrite concat_app, app_assoc, S1, <- !app_assoc. f_equal. exact S2.
Qed.

(** C39: the mini-batches of a training are drawn without replacement.  Starting
    from the sampler of a training on at least one row, every batch is found (the
    loop that fills it ends) and has the requested size, and the batches read one
    after the other run through whole permutations of the rows: no row is used
    twice before all have been used. *)
Theorem minibatch_epochs rows seed k n : (0 < rows)%nat -> exists bs s' ps rest,
  batches k n (new_sampler rows seed) = Some (bs, s') /\ length bs = k /\ Forall (fun b => length b = n) bs /\
  Forall (fun p => Permutation p (seq 0 rows)) ps /\ concat ps = concat bs ++ rest.
Proof using PrngLaws0.
  intros Hr. assert (Hok : sampler_ok (new_sampler rows seed)).
  { unfold sampler_ok, new_sampler. simpl. rewrite length_seq. split; [lia|]. by destruct rows; [lia|]. }
  destruct (batches_stream k n _ Hok) as (bs & s' & ps & H1 & H2 & H3 & H4 & H5 & _). exists bs, s', ps, (pending s').
  split_and!; try done. rewrite <- H5. unfold pending at 1. simpl. rewrite drop_ge by (by rewrite length_seq). done.
Qed.
End Batches.

(** A generator whose shuffle rotates. *)
Definition rotating : Prng := {| prng := Z; seeded s := s; shuffle l g := (drop 1 l ++ take 1 l, g + 1) |}.

Lemma rotating_laws : PrngLaws rotating.
Proof. split. intros [|x l] g; [done|]. simpl. rewrite drop_0. symmetry. apply Permutation_cons_append. Qed.

Lemma minibatch_epochs_witness : exists bs s' ps rest,
  batches (G := rotating) 4 2 (new_sampler (G := rotating) 3 234543234) = Some (bs, s') /\ length bs = 4%nat /\ Forall (fun b => length b = 2%nat) bs /\
  Forall (fun p => Permutation p (seq 0 3)) ps /\ concat ps = concat bs ++ rest.
Proof. apply (minibatch_epochs (G := rotating) (PrngLaws0 := rotating_laws) 3 234543234 4 2). lia. Defined.

(** ** The engine *)

(** What the templates ask of the engine and of its matrices; [e_outcome] is a
    computation that does not use the engine: an exception or undefined
    behaviour. *)
Class Engine (M : Type -> Type) (X : Type) := {
  e_ret :: MRet M;
  e_bind :: MBind M;
  e_outcome : forall {A}, res A -> M A;
  e_rows : X -> nat;
  e_cols : X -> nat;
  (** the rows with the given indices *)
  e_extract : list nat -> X -> X;
  e_transpose : X -> X;
  e_minus : X -> X -> X;
  e_mul : X -> X -> M X;
  e_mulTruncate : X -> X -> Z -> M X;
  e_logisticFunc : X -> M X;
  e_reveal : X -> M (list double);
}.

Section Templates.
Context {M : Type -> Type} {X : Type} `{Eng : !Engine M X} `{G : Prng} (log2 : double -> double).

(** The conversion of a double to [u64], undefined outside the range. *)
Definition to_u64 (d : double) : res Z :=
  match d with
  | S754_zero _ => Ret 0
  | S754_finite s m e =>
      let v := Z.shiftl (Z.pos m) e in
      if s then (if v =? 0 then Ret 0 else Undef) else if v <? 2 ^ 64 then Ret v else Undef
  | _ => Undef
  end.

(** The learning rate in log2 form. *)
Definition shift_of (params : RegressionParam) : res Z :=
  to_u64 (log2 (ddiv (d_of_int 1) (ddiv (mLearningRate params) (d_of_int (mBatchSize params))))).

Definition extractBatch (batch : nat) (x y : X) (indices : list nat) : res (X * X) :=
  if bool_decide (batch = length indices) then Ret (e_extract indices x, e_extract indices y) else Throw.

(** [std::vector<u64>] of more entries than this throws. *)
Definition max_size : Z := 2 ^ 60 - 1.

Definition d_half : double := S754_finite false (2 ^ 52) (-53).

Definition first_of (l : list double) : double := nth 0 l (S754_zero false).

Definition test_linearModel (w x y : X) : M double :=
  xw ← e_mul x w;
  let error := e_minus xw y in
  l2 ← e_mul (e_transpose error) error;
  v ← e_reveal (e_extract [0%nat] l2);
  mret (ddiv (first_of v) (d_of_int (Z.of_nat (e_rows y)))).

(** The mean square error and the share of rows on the right side of one half. *)
Definition test_logisticModel (w x y : X) : M (double * double) :=
  xw ← e_mul x w;
  fxw ← e_logisticFunc xw;
  let error := e_minus fxw y in
  l2 ← e_mul (e_transpose error) error;
  pp ← e_reveal fxw;
  yy ← e_reveal y;
  let count := length (filter (fun b => b = true) (zip_with (fun p q => eqb (SFltb d_half p) (SFltb d_half q)) pp yy)) in
  v ← e_reveal (e_extract [0%nat] l2);
  let n := d_of_int (Z.of_nat (e_rows y)) in
  mret (ddiv (first_of v) n, ddiv (d_of_int (Z.of_nat count)) n).

(** The checks and the set-up both trainings start with. *)
Definition sgd_start (params : RegressionParam) (x y : X) : res Z :=
  if negb (bool_decide (e_rows x = e_rows y)) || negb (bool_decide (e_cols y = 1%nat)) then Throw
  else if max_size <? mBatchSize params then Throw
  else shift_of params.

(** The iterations from [i] on, [n] of them. *)
Fixpoint linear_loop (batch : nat) (aB : Z) (x y : X) (tests : option (X * X)) (n i : nat) (s : sampler) (w : X) : M X :=
  match n with
  | O => mret w
  | S n =>
      '(batchIndices, s) ← e_outcome (or_undef (getSubset batch s));
      '(XX, YY) ← e_outcome (extractBatch batch x y batchIndices);
      xw ← e_mul XX w;
      let error := e_minus xw YY in
      update ← e_mulTruncate (e_transpose XX) error aB;
      let w := e_minus w update in
      match tests with
      | Some (xt, yt) =>
          if (i mod 1000 =? 0)%nat then
            _ ← test_linearModel w xt yt; linear_loop batch aB x y tests n (S i) s w
          else linear_loop batch aB x y tests n (S i) s w
      | None => linear_loop batch aB x y tests n (S i) s w
      end
  end.

Definition SGD_Linear (params : RegressionParam) (x y w : X) (tests : option (X * X)) : M X :=
  aB ← e_outcome (sgd_start params x y);
  linear_loop (Z.to_nat (mBatchSize params)) aB x y tests (Z.to_nat (mIterations params)) 0 (new_sampler (e_rows x) 234543234) w.

Fixpoint logistic_loop (batch : nat) (aB : Z) (x y : X) (tests : option (X * X)) (n i : nat) (s : sampler) (w : X) : M X :=
  match n with
  | O => mret w
  | S n =>
      '(batchIndices, s) ← e_outcome (or_undef (getSubset batch s));
      '(XX, YY) ← e_outcome (extractBatch batch x y batchIndices);
      xw ← e_mul XX w;
      fxw ← e_logisticFunc xw;
      let error := e_minus fxw YY in
      update ← e_mulTruncate (e_transpose XX) error aB;
      let w := e_minus w update in
      match tests with
      | Some (xt, yt) =>
          if (i mod 10 =? 0)%nat then
            _ ← test_logisticModel w xt yt; logistic_loop batch aB x y tests n (S i) s w
          else logistic_loop batch aB x y tests n (S i) s w
      | None => logistic_loop batch aB x y tests n (S i) s w
      end
  end.

Definition SGD_Logistic (params : RegressionParam) (x y w : X) (tests : option (X * X)) : M X :=
  aB ← e_outcome (sgd_start params x y);
  logistic_loop (Z.to_nat (mBatchSize params)) aB x y tests (Z.to_nat (mIterations params)) 0 (new_sampler (e_rows x) 234543234) w.

Definition pred_linear (x w : X) : M X := e_mul x w.
End Templates.

(** ** The templates read as a relation

    A computation that may return any of several values: the monad of the
    specification. *)

Definition rel (A : Type) : Type := A -> Prop.
#[export] Instance rel_ret : MRet rel := fun A a b => a = b.
#[export] Instance rel_bind : MBind rel := fun A B f m b => exists a, m a /\ f a b.
