(* ===== verification/Aby3ML.v ===== *)
(** * The shared engine of the training

    Models [algorithm/aby3ML.h]: the engine that runs the templates of
    [Regression] on shares, its piecewise object and the functions that
    reconfigure it.  [aby3_engine] is the engine a party uses, [secret_engine] the
    same operations as a relation on the secrets, and [sgd_logistic_sim] shows
    that three parties that train on shares obtain shares of a model the relation
    allows. *)

From Stdlib Require Import ZArith Lia SpecFloat Permutation.
From stdpp Require Import base tactics list option.
From S2P Require Import Prelude ModArith Machine Doubles Aby3Op PartyProg Regression.

Local Open Scope Z_scope.

(** ** The piecewise object *)

(** [Sh3Piecewise]: [mLogistic] is shared by [logisticFunc] and [lt]. *)
Record Sh3Piecewise := Pw { mThresholds : list Coef; mCoefficients : list (list Coef) }.
Definition fresh_piecewise : Sh3Piecewise := Pw [] [].

(** [std::vector::resize]. *)
Definition resize {A} (n : nat) (a : A) (l : list A) : list A := take n l ++ replicate (n - length l) a.

Definition d_minus_half : double := S754_finite true (2 ^ 52) (-53).

(** The thresholds and coefficients are set only when there are none. *)
Definition set_logistic (p : Sh3Piecewise) : Sh3Piecewise :=
  if decide (mThresholds p = []) then
    let c := resize 3 [] (mCoefficients p) in
    Pw [CoefDouble d_minus_half; CoefDouble d_half] [nth 0 c []; [CoefDouble d_half; CoefInt 1]; [CoefInt 1]]
  else p.

(** [lt] overwrites the thresholds and the coefficients of the lower region; those
    of the upper region stay what they were. *)
Definition set_lt (threshold : double) (p : Sh3Piecewise) : Sh3Piecewise :=
  let c := resize 2 [] (mCoefficients p) in Pw [CoefDouble threshold] [[CoefInt 1]; nth 1 c []].

Definition pw_call (fixed : bool) (p : Sh3Piecewise) (Y : si64Matrix) : call := Piecewise fixed (mThresholds p) (mCoefficients p) Y.

Section Functions.
Context `{E : Aby3}.

Definition logisticFunc (p : Sh3Piecewise) (Y : si64Matrix) : prog (si64Matrix * Sh3Piecewise) :=
  let p := set_logistic p in out ← call3 (pw_call true p Y); mret (out, p).

Definition lt_fixed (p : Sh3Piecewise) (Y : si64Matrix) (threshold : double) : prog (si64Matrix * Sh3Piecewise) :=
  let p := set_lt threshold p in out ← call3 (pw_call true p Y); mret (out, p).

Definition lt_int (p : Sh3Piecewise) (Y : si64Matrix) (threshold : double) : prog (si64Matrix * Sh3Piecewise) :=
  let p := set_lt threshold p in out ← call3 (pw_call false p Y); mret (out, p).

(** [lt(const sf64&, const sf64&)]: the difference is compared with 0 as an
    integer, and the result opened to everybody. *)
Definition lt_shared (p : Sh3Piecewise) (X Y : si64Matrix) : prog (bool * Sh3Piecewise) :=
  '(out, p) ← lt_int p (share_sub X Y) (S754_zero false);
  dest ← revealAll3 out;
  mret (negb (nth 0 (cells dest) 0 =? 0), p).

(** *** Inputs *)

(** [localInput]: the size goes to the others, then the matrix is shared. *)
Definition localInput (val : i64Matrix) : prog si64Matrix := SendSize (rows val, cols val) (call3 (LocalFixed val)).

(** [remoteInput(partyIdx)] at the party [me]. *)
Definition remoteInput (me partyIdx : Z) : prog si64Matrix :=
  if (partyIdx =? (me + 1) mod 3) || (partyIdx =? (me + 2) mod 3)
  then RecvSize partyIdx (fun size => call3 (RemoteFixed size.1 size.2))
  else Done Throw.
End Functions.

(** From a fresh object every call of [logisticFunc] evaluates this one. *)
Definition logistic_piecewise : Sh3Piecewise := set_logistic fresh_piecewise.

Lemma set_logistic_stable : set_logistic logistic_piecewise = logistic_piecewise.
Proof. reflexivity. Qed.

(** After a comparison it evaluates the comparison instead, and a comparison after
    it gives [1/2 + y] for the values that are not less. *)
Lemma logistic_after_lt t p : set_logistic (set_lt t p) = set_lt t p.
Proof. reflexivity. Qed.

Lemma lt_after_logistic `{E : Aby3} t y : to_fixed t <= y ->
  piece_value true (mThresholds (set_lt t logistic_piecewise)) (mCoefficients (set_lt t logistic_piecewise)) y = wrap (to_fixed d_half + 1 * y).
Proof. intros H. cbn. destruct (Z.ltb_spec y (to_fixed t)); [lia|done]. Qed.

(** ** Matrices *)

(** The cells with the given indices, as a matrix. *)
Definition reindex (r c : nat) (idx : list nat) (m : i64Matrix) : i64Matrix := Mat r c ((fun i => nth i (cells m) 0) <$> idx).

(** The indices of a grid of cells, row by row. *)
Definition grid (f : nat -> nat -> nat) (rs : list nat) (n : nat) : list nat := concat ((fun i => f i <$> seq 0 n) <$> rs).

Definition m_extract (idx : list nat) (m : i64Matrix) : i64Matrix :=
  reindex (length idx) (cols m) (grid (fun i j => i * cols m + j)%nat idx (cols m)) m.
Definition m_transpose (m : i64Matrix) : i64Matrix :=
  reindex (cols m) (rows m) (grid (fun j i => i * cols m + j)%nat (seq 0 (cols m)) (rows m)) m.

Definition both (f : i64Matrix -> i64Matrix) (s : si64Matrix) : si64Matrix := Sh (f (sh0 s)) (f (sh1 s)).

Lemma grid_length f rs n : length (grid f rs n) = (length rs * n)%nat.
Proof. unfold grid. induction rs as [|i rs IH]; [done|]. cbn. by rewrite length_app, length_fmap, length_seq, IH. Qed.

Lemma grid_bound f rs n k : (forall i j, i ∈ rs -> (j < n)%nat -> (f i j < k)%nat) -> Forall (fun x => (x < k)%nat) (grid f rs n).
Proof.
  intros H. unfold grid. apply Forall_concat, Forall_fmap, Forall_forall. intros i Hi. simpl. apply Forall_fmap, Forall_seq.
  intros j Hj. simpl. apply H; [by apply list_elem_of_In|lia].
Qed.

Lemma shares_reindex r c idx t m : shares t m -> length idx = (r * c)%nat -> Forall (fun i => (i < length (cells m))%nat) idx ->
  shares (trip_map (both (reindex r c idx)) t) (reindex r c idx m).
Proof.
  intros (r0 & c0 & x0 & x1 & x2 & -> & -> & H0 & H1 & H2)%shares_inv Hl HF. simpl in HF.
  rewrite (open3_length x0 x1 x2 (r0 * c0)) in HF by done. unfold reindex. simpl.
  rewrite <- (open3_nth idx (r0 * c0)) by done. apply shares_rep; by rewrite length_fmap.
Qed.

(** ** The engines *)

Section Engines.
Context `{E : Aby3}.

#[export] Instance aby3_engine : Engine prog si64Matrix := {
  e_outcome A r := Done r;
  e_rows := sh_rows;
  e_cols := sh_cols;
  e_extract idx := both (m_extract idx);
  e_transpose := both m_transpose;
  e_minus := share_sub;
  e_mul A B := call3 (MatMulFixed 0 A B);
  e_mulTruncate A B shift := call3 (MatMulFixed shift A B);
  e_logisticFunc Y := call3 (pw_call true logistic_piecewise Y);
  e_reveal s := m ← revealAll3 s; mret (of_fixed <$> cells m);
}.

(** The product of fixed-point matrices, truncated cell by cell. *)
Definition fixed_matmul (shift : Z) (a b c : i64Matrix) : Prop :=
  rows c = rows a /\ cols c = cols b /\ Forall2 (truncated (frac_bits + shift)) (mat_prod a b) (cells c).

(** The piecewise linear stand-in for the logistic function: 0 below -1/2, 1 from
    1/2 on, [1/2 + y] between. *)
Definition sigmoid (y : Z) : Z :=
  if y <? to_fixed d_minus_half then 0 else if y <? to_fixed d_half then wrap (to_fixed d_half + 1 * y) else 2 ^ frac_bits.

#[export] Instance secret_engine : Engine rel i64Matrix := {
  e_outcome A r a := r = Ret a;
  e_rows := rows;
  e_cols := cols;
  e_extract := m_extract;
  e_transpose := m_transpose;
  e_minus := mat_zip (fun x y => wrap (x - y));
  e_mul := fixed_matmul 0;
  e_mulTruncate a b shift := fixed_matmul shift a b;
  e_logisticFunc y z := z = mat_map sigmoid y;
  e_reveal m l := l = of_fixed <$> cells m;
}.
End Engines.

(** ** The shared engine simulates the relation *)

Section Simulation.
Context `{L : Aby3Laws} {ulp : Z} {F : FixedPointLaws E ulp}.
Context (few_bits : frac_bits <= 20).

(** The three programs return values that [R] relates to an outcome of [q]. *)
Definition sim {A B} (R : trip A -> B -> Prop) (p : trip (prog A)) (q : rel B) : Prop := returns p (fun a => exists b, q b /\ R a b).

Lemma sim_bind {A B A' B'} (R : trip A -> B -> Prop) (R' : trip A' -> B' -> Prop) p0 p1 p2 q f0 f1 f2 (g : B -> rel B') :
  sim R (Trip p0 p1 p2) q -> (forall a b, R a b -> sim R' (Trip (f0 (at0 a)) (f1 (at1 a)) (f2 (at2 a))) (g b)) ->
  sim R' (Trip (p0 ≫= f0) (p1 ≫= f1) (p2 ≫= f2)) (q ≫= g).
Proof.
  intros Hp Hf. apply (returns_bind (Trip p0 p1 p2) (Trip f0 f1 f2) (fun a => exists b, q b /\ R a b)); [exact Hp|].
  intros a (b & Hq & HR). eapply returns_mono; [|exact (Hf a b HR)]. intros a' (b' & Hg & HR'). exists b'. split; [by exists b|done].
Qed.

Lemma sim_ret {A B} (R : trip A -> B -> Prop) a0 a1 a2 b : R (Trip a0 a1 a2) b -> sim R (Trip (mret a0) (mret a1) (mret a2)) (mret b).
Proof. intros H. apply (returns_done (Trip a0 a1 a2)). by exists b. Qed.

(** The same value everywhere. *)
Definition same {A} (t : trip A) (a : A) : Prop := t = Trip a a a.

Lemma sim_outcome {A} (r : A) :
  sim (fun a b => a = Trip r r r /\ b = r) (Trip (e_outcome (M := prog) (Ret r)) (e_outcome (M := prog) (Ret r)) (e_outcome (M := prog) (Ret r))) (e_outcome (M := rel) (Ret r)).
Proof. apply (returns_done (Trip r r r)). by exists r. Qed.

(** A sharing of an [r] by [c] matrix. *)
Definition holds_mat (r c : nat) (t : trip si64Matrix) (m : i64Matrix) : Prop := shares t m /\ rows m = r /\ cols m = c.

Lemma holds_mat_cells r c t m : holds_mat r c t m -> length (cells m) = (r * c)%nat.
Proof. intros (H & <- & <-). apply (shares_ok _ _ H). Qed.

Lemma sim_matmul k r d c A a B b : 0 <= k -> holds_mat r d A a -> holds_mat d c B b ->
  sim (holds_mat r c) (Trip (call3 (MatMulFixed k (at0 A) (at0 B))) (call3 (MatMulFixed k (at1 A) (at1 B))) (call3 (MatMulFixed k (at2 A) (at2 B))))
    (fixed_matmul k a b).
Proof using L F.
  intros Hk (HA & Ra & Ca) (HB & Rb & Cb). apply (returns_call (each2 (fun _ => MatMulFixed k) A B)). intros n.
  destruct (matmul_law n k A B a b HA HB ltac:(congruence) Hk) as (t & m & Hj & Ht & Hr & Hc & HF).
  exists t. split; [done|]. exists m. unfold holds_mat. rewrite Hr, Hc. done.
Qed.

Lemma sigmoid_piece y : piece_value true (mThresholds logistic_piecewise) (mCoefficients logistic_piecewise) y = sigmoid y.
Proof. unfold sigmoid. rewrite <- (Z.mul_1_l (2 ^ frac_bits)). reflexivity. Qed.

Lemma sim_logistic r A a : holds_mat r 1 A a ->
  sim (holds_mat r 1) (Trip (e_logisticFunc (at0 A)) (e_logisticFunc (at1 A)) (e_logisticFunc (at2 A))) (e_logisticFunc a).
Proof using L F few_bits.
  intros (HA & Ra & Ca). apply (returns_call (trip_map (pw_call true logistic_piecewise) A)). intros n.
  destruct (piecewise_law n true (mThresholds logistic_piecewise) (mCoefficients logistic_piecewise) A a HA Ca) as (t & Hj & Ht).
  - done.
  - assert (Hp := frac_bits_pos). assert (Hr : in_i64 (1 * 2 ^ frac_bits) = true); 
      [|change (mCoefficients logistic_piecewise) with [[]; [CoefDouble d_half; CoefInt 1]; [CoefInt 1]];
        cbn [forallb poly_ok coef_ok coef_value]; by rewrite Hr].
    assert (1 * 2 ^ frac_bits <= 2 ^ 20) by (rewrite Z.mul_1_l; apply Z.pow_le_mono_r; lia).
    assert (0 < 2 ^ frac_bits) by (apply Z.pow_pos_nonneg; lia). apply in_i64_spec. lia.
  - exists t. split; [done|]. eexists. split; [reflexivity|]. split; [|done].
    replace (mat_map sigmoid a) with (mat_map (piece_value true (mThresholds logistic_piecewise) (mCoefficients logistic_piecewise)) a); [done|].
    unfold mat_map. f_equal. apply list_fmap_ext. intros ? y _. apply sigmoid_piece.
Qed.

Lemma sim_reveal r c A a : holds_mat r c A a ->
  sim same (Trip (e_reveal (at0 A)) (e_reveal (at1 A)) (e_reveal (at2 A))) (e_reveal a).
Proof using L.
  intros (HA & _ & _). eapply (returns_bind (trip_map revealAll3 A) (Trip _ _ _)); [apply (returns_open A a HA)|].
  intros x ->. apply (returns_done (Trip _ _ _)). eexists. split; reflexivity.
Qed.

(** One party inputs a matrix. *)
Definition input (me o : Z) (m : i64Matrix) : prog si64Matrix := if me =? o then localInput m else remoteInput me o.

Lemma input_returns o (m : trip i64Matrix) (a : i64Matrix) : 0 <= o < 3 -> a = (if o =? 0 then at0 m else if o =? 1 then at1 m else at2 m) ->
  mat_ok a -> Forall (fun x => in_i64 x = true) (cells a) ->
  returns (Trip (input 0 o (at0 m)) (input 1 o (at1 m)) (input 2 o (at2 m))) (fun t => shares t a).
Proof using L.
  intros Ho Ha Hok Hr n. destruct (local_fixed_law (S n) o a Ho Hok Hr) as (t & Hj & Ht). exists (S (S n)), t. split; [|done].
  apply steps_call3 in Hj. unfold owner_calls in Hj.
  assert (o = 0 \/ o = 1 \/ o = 2) as [-> | [-> | ->]] by lia; cbn [Z.eqb Pos.eqb] in *; rewrite Ha in Hj.
  - apply steps_size0. exact Hj.
  - apply (steps_size1 n _ _ (fun size => call3 (RemoteFixed size.1 size.2)) (fun size => call3 (RemoteFixed size.1 size.2))). exact Hj.
  - apply (steps_size2 n _ _ (fun size => call3 (RemoteFixed size.1 size.2)) (fun size => call3 (RemoteFixed size.1 size.2))). exact Hj.
Qed.

(** *** The operations that need no call *)

Lemma minus_mat r c A a B b : holds_mat r c A a -> holds_mat r c B b ->
  holds_mat r c (Trip (share_sub (at0 A) (at0 B)) (share_sub (at1 A) (at1 B)) (share_sub (at2 A) (at2 B))) (e_minus a b).
Proof using L. intros (HA & Ra & Ca) (HB & Rb & Cb). split; [|done]. apply (shares_sub A B a b HA HB). split; congruence. Qed.

Lemma shape_of_party r c A a : holds_mat r c A a ->
  let d m := rows m = r /\ cols m = c in
  d (sh0 (at0 A)) /\ d (sh1 (at0 A)) /\ d (sh0 (at1 A)) /\ d (sh1 (at1 A)) /\ d (sh0 (at2 A)) /\ d (sh1 (at2 A)).
Proof.
  intros (HA & <- & <-). destruct (shares_inv _ _ HA) as (r0 & c0 & x0 & x1 & x2 & -> & -> & _). repeat split.
Qed.

Lemma holds_mat_rows r c A a : holds_mat r c A a ->
  sh_rows (at0 A) = r /\ sh_rows (at1 A) = r /\ sh_rows (at2 A) = r /\ rows a = r.
Proof. intros (HA & <- & <-). apply shares_ok in HA. tauto. Qed.

Lemma holds_mat_cols r c A a : holds_mat r c A a ->
  sh_cols (at0 A) = c /\ sh_cols (at1 A) = c /\ sh_cols (at2 A) = c /\ cols a = c.
Proof. intros (HA & <- & <-). apply shares_ok in HA. tauto. Qed.

Lemma extract_mat idx r c A a : holds_mat r c A a -> Forall (fun i => (i < r)%nat) idx ->
  holds_mat (length idx) c (Trip (e_extract idx (at0 A)) (e_extract idx (at1 A)) (e_extract idx (at2 A))) (e_extract idx a).
Proof.
  intros H HF. assert (Hs := shape_of_party _ _ _ _ H). assert (Hl := holds_mat_cells _ _ _ _ H). destruct H as (HA & Ra & Ca).
  split; [|split; [done|exact Ca]]. cbn [e_extract aby3_engine secret_engine]. unfold both, m_extract. rewrite Ca.
  destruct Hs as ((_ & ->) & (_ & ->) & (_ & ->) & (_ & ->) & (_ & ->) & (_ & ->)).
  apply (shares_reindex (length idx) c _ A a HA).
  - apply grid_length.
  - rewrite Hl. apply grid_bound. intros i j Hi Hj. rewrite Forall_forall in HF. specialize (HF i ltac:(by apply list_elem_of_In)). nia.
Qed.

Lemma transpose_mat r c A a : holds_mat r c A a ->
  holds_mat c r (Trip (e_transpose (at0 A)) (e_transpose (at1 A)) (e_transpose (at2 A))) (e_transpose a).
Proof.
  intros H. assert (Hs := shape_of_party _ _ _ _ H). assert (Hl := holds_mat_cells _ _ _ _ H). destruct H as (HA & Ra & Ca).
  split; [|split; [exact Ca|exact Ra]]. cbn [e_transpose aby3_engine secret_engine]. unfold both, m_transpose. rewrite Ca, Ra.
  destruct Hs as ((-> & ->) & (-> & ->) & (-> & ->) & (-> & ->) & (-> & ->) & (-> & ->)).
  apply (shares_reindex c r _ A a HA).
  - by rewrite grid_length, length_seq.
  - rewrite Hl. apply grid_bound. intros i j Hi%elem_of_seq Hj. nia.
Qed.
End Simulation.

(** ** Training *)

Lemma pool_bound `{G : Prng} `{!PrngLaws G} n s N out s' : sampler_ok s -> Forall (fun i => (i < N)%nat) (pool s) ->
  getSubset n s = Some (out, s') -> Forall (fun i => (i < N)%nat) out /\ Forall (fun i => (i < N)%nat) (pool s').
Proof.
  intros Hok HF H. destruct (subset_loop_stream _ _ _ _ _ Hok H) as (ps & Hps & Heq & Hp). split; [|by rewrite Hp].
  assert (Hall : Forall (fun i => (i < N)%nat) (out ++ pending s')); [|by apply Forall_app in Hall as [? _]].
  rewrite <- Heq. apply Forall_app. split; [by apply Forall_drop|]. apply Forall_concat.
  eapply Forall_impl; [|exact Hps]. simpl. intros p Hpp. by rewrite Hpp.
Qed.

Section Training.
Context `{L : Aby3Laws} {ulp : Z} {F : FixedPointLaws E ulp}.
Context (few_bits : frac_bits <= 20).
Context `{G : Prng} `{!PrngLaws G} (log2 : double -> double).

Lemma sim_test_linear d n W w X x Y y : holds_mat d 1 W w -> holds_mat n d X x -> holds_mat n 1 Y y ->
  sim same (Trip (test_linearModel (at0 W) (at0 X) (at0 Y)) (test_linearModel (at1 W) (at1 X) (at1 Y)) (test_linearModel (at2 W) (at2 X) (at2 Y)))
    (test_linearModel w x y).
Proof using L F.
  intros HW HX HY. assert (Hn := holds_mat_rows _ _ _ _ HY). destruct Hn as (R0 & R1 & R2 & Ry).
  eapply sim_bind; [apply (sim_matmul 0 n d 1 X x W w ltac:(lia) HX HW)|]. intros T t HT.
  assert (HE := minus_mat _ _ _ _ _ _ HT HY). assert (HET := transpose_mat _ _ _ _ HE).
  eapply sim_bind; [apply (sim_matmul 0 1 n 1 _ _ _ _ ltac:(lia) HET HE)|]. intros L2 l2 HL2.
  eapply sim_bind; [apply (sim_reveal 1 1 _ _ (extract_mat [0%nat] _ _ _ _ HL2 ltac:(by repeat constructor)))|]. intros v0 v ->.
  cbn [at0 at1 at2 e_rows aby3_engine secret_engine]. rewrite R0, R1, R2, Ry. by apply sim_ret.
Qed.

Lemma sim_test_logistic d n W w X x Y y : holds_mat d 1 W w -> holds_mat n d X x -> holds_mat n 1 Y y ->
  sim same (Trip (test_logisticModel (at0 W) (at0 X) (at0 Y)) (test_logisticModel (at1 W) (at1 X) (at1 Y)) (test_logisticModel (at2 W) (at2 X) (at2 Y)))
    (test_logisticModel w x y).
Proof using L F few_bits.
  intros HW HX HY. assert (Hn := holds_mat_rows _ _ _ _ HY). destruct Hn as (R0 & R1 & R2 & Ry).
  eapply sim_bind; [apply (sim_matmul 0 n d 1 X x W w ltac:(lia) HX HW)|]. intros T t HT.
  eapply sim_bind; [apply (sim_logistic few_bits n T t HT)|]. intros P p HP.
  assert (HE := minus_mat _ _ _ _ _ _ HP HY). assert (HET := transpose_mat _ _ _ _ HE).
  eapply sim_bind; [apply (sim_matmul 0 1 n 1 _ _ _ _ ltac:(lia) HET HE)|]. intros L2 l2 HL2.
  eapply sim_bind; [apply (sim_reveal _ _ _ _ HP)|]. intros pp0 pp ->.
  eapply sim_bind; [apply (sim_reveal _ _ _ _ HY)|]. intros yy0 yy ->.
  eapply sim_bind; [apply (sim_reveal 1 1 _ _ (extract_mat [0%nat] _ _ _ _ HL2 ltac:(by repeat constructor)))|]. intros v0 v ->.
  cbn [at0 at1 at2 e_rows aby3_engine secret_engine]. rewrite R0, R1, R2, Ry. by apply sim_ret.
Qed.

(** The test data, when there is any. *)
Definition holds_tests (d : nat) (tests : trip (option (si64Matrix * si64Matrix))) (q : option (i64Matrix * i64Matrix)) : Prop :=
  match q with
  | None => tests = Trip None None None
  | Some (x, y) => exists n X Y, tests = Trip (Some (at0 X, at0 Y)) (Some (at1 X, at1 Y)) (Some (at2 X, at2 Y)) /\
                                 holds_mat n d X x /\ holds_mat n 1 Y y
  end.

(** One batch, at the three parties and on the secrets. *)
Lemma sim_batch {A' B'} (R' : trip A' -> B' -> Prop) batch s n d X x Y y
    (f0 f1 f2 : list nat * sampler -> prog A') (g : list nat * sampler -> rel B') :
  sampler_ok s -> Forall (fun i => (i < n)%nat) (pool s) ->
  (forall idx s', length idx = batch -> Forall (fun i => (i < n)%nat) idx -> sampler_ok s' -> Forall (fun i => (i < n)%nat) (pool s') ->
     sim R' (Trip (f0 (idx, s')) (f1 (idx, s')) (f2 (idx, s'))) (g (idx, s'))) ->
  holds_mat n d X x -> holds_mat n 1 Y y ->
  sim R' (Trip (e_outcome (or_undef (getSubset batch s)) ≫= f0) (e_outcome (or_undef (getSubset batch s)) ≫= f1)
      (e_outcome (or_undef (getSubset batch s)) ≫= f2)) (e_outcome (or_undef (getSubset batch s)) ≫= g).
Proof using PrngLaws0.
  intros Hok HF Hf HX HY. destruct (subset_terminates batch s Hok) as (idx & s' & Hs & Hl & Hok'). rewrite Hs. cbn [or_undef].
  destruct (pool_bound _ _ _ _ _ Hok HF Hs) as [Hi Hp].
  eapply sim_bind; [apply sim_outcome|]. intros a b [-> ->]. by apply Hf.
Qed.

Lemma sim_logistic_loop batch aB n d X x Y y T t k : 0 <= aB -> holds_mat n d X x -> holds_mat n 1 Y y -> holds_tests d T t ->
  forall i s W w, sampler_ok s -> Forall (fun i => (i < n)%nat) (pool s) -> holds_mat d 1 W w ->
  sim (holds_mat d 1) (Trip (logistic_loop batch aB (at0 X) (at0 Y) (at0 T) k i s (at0 W)) (logistic_loop batch aB (at1 X) (at1 Y) (at1 T) k i s (at1 W))
      (logistic_loop batch aB (at2 X) (at2 Y) (at2 T) k i s (at2 W))) (logistic_loop batch aB x y t k i s w).
Proof using L F few_bits PrngLaws0.
  intros HaB HX HY HT. induction k as [|k IH]; intros i s W w Hok HF HW; cbn [logistic_loop].
  { apply sim_ret. by destruct W. }
  eapply (sim_batch _ batch s n d X x Y y); [done..| |done|done]. intros idx s' Hl Hidx Hok' HF'. cbv beta.
  unfold extractBatch. rewrite bool_decide_eq_true_2 by done.
  eapply (sim_bind (fun a b => a = Trip (e_extract idx (at0 X), e_extract idx (at0 Y)) (e_extract idx (at1 X), e_extract idx (at1 Y))
      (e_extract idx (at2 X), e_extract idx (at2 Y)) /\ b = (e_extract idx x, e_extract idx y))).
  { apply (returns_done (Trip _ _ _)). eexists. split; [reflexivity|done]. }
  intros a b [-> ->]. cbn [at0 at1 at2].
  assert (HXX := extract_mat idx _ _ _ _ HX Hidx). assert (HYY := extract_mat idx _ _ _ _ HY Hidx).
  eapply sim_bind; [apply (sim_matmul 0 _ d 1 _ _ W w ltac:(lia) HXX HW)|]. intros P p HP.
  eapply sim_bind; [apply (sim_logistic few_bits _ P p HP)|]. intros Q q HQ.
  assert (HE := minus_mat _ _ _ _ _ _ HQ HYY). assert (HXT := transpose_mat _ _ _ _ HXX).
  eapply sim_bind; [apply (sim_matmul aB _ _ 1 _ _ _ _ HaB HXT HE)|]. intros U u HU.
  assert (HW' := minus_mat _ _ _ _ _ _ HW HU).
  destruct t as [[xt yt]|]; cbn [holds_tests] in HT.
  - destruct HT as (m & XT & YT & -> & HXt & HYt). cbn [at0 at1 at2] in *. destruct (i mod 10 =? 0)%nat.
    + eapply (sim_bind same); [apply (sim_test_logistic d m _ _ XT xt YT yt HW' HXt HYt)|]. intros _ _ _. exact (IH (S i) s' _ _ Hok' HF' HW').
    + exact (IH (S i) s' _ _ Hok' HF' HW').
  - subst T. exact (IH (S i) s' _ _ Hok' HF' HW').
Qed.

(** Three parties that train a logistic model on shares of the data return shares
    of a model that the relation on the secrets allows. *)
Lemma sgd_logistic_sim params aB n d X x Y y W w T t :
  (0 < n)%nat -> mBatchSize params <= max_size -> shift_of log2 params = Ret aB -> 0 <= aB ->
  holds_mat n d X x -> holds_mat n 1 Y y -> holds_mat d 1 W w -> holds_tests d T t ->
  sim (holds_mat d 1) (Trip (SGD_Logistic log2 params (at0 X) (at0 Y) (at0 W) (at0 T)) (SGD_Logistic log2 params (at1 X) (at1 Y) (at1 W) (at1 T))
      (SGD_Logistic log2 params (at2 X) (at2 Y) (at2 W) (at2 T))) (SGD_Logistic log2 params x y w t).
Proof using L F few_bits PrngLaws0.
  intros Hn Hb Hsh HaB HX HY HW HT. destruct (holds_mat_rows _ _ _ _ HX) as (X0 & X1 & X2 & Xr).
  destruct (holds_mat_rows _ _ _ _ HY) as (Y0 & Y1 & Y2 & Yr). destruct (holds_mat_cols _ _ _ _ HY) as (C0 & C1 & C2 & Cr).
  unfold SGD_Logistic, sgd_start. cbn [e_rows e_cols aby3_engine secret_engine]. rewrite X0, X1, X2, Xr, Y0, Y1, Y2, Yr, C0, C1, C2, Cr.
  rewrite !bool_decide_eq_true_2 by done. cbn [negb orb]. rewrite (proj2 (Z.ltb_ge _ _)) by done. rewrite Hsh.
  eapply sim_bind; [apply sim_outcome|]. intros a b [-> ->]. cbn [at0 at1 at2].
  apply sim_logistic_loop with (n := n); [done..| | |done].
  - unfold sampler_ok, new_sampler. simpl. rewrite length_seq. split; [lia|]. by destruct n; [lia|].
  - unfold new_sampler. simpl. apply Forall_seq. lia.
Qed.
End Training.
