(* ===== verification/MLOrder.v ===== *)
(** * Comparisons, sorting and powers of shared values

    Models the rest of [algorithm/aby3ML.h]: the tests of a shared value for zero and
    sign, [gt], [sort], [unique_unsorted], [FixedPow] and [average].  A shared scalar
    ([si64], [sf64]) is a 1 by 1 matrix.  A test for zero multiplies the secret by a
    random integer, opens the product and compares it with 0; the integer comes from
    a generator seeded with the seconds of the party's clock.  [sort_sorts] shows that
    three parties that sort shares end with shares of the sorted values. *)

From Stdlib Require Import ZArith Lia SpecFloat Permutation Sorted.
From stdpp Require Import base tactics list option.
From S2P Require Import Prelude ModArith Machine Doubles Aby3Op PartyProg Regression Aby3ML.

Local Open Scope Z_scope.

(** ** Random integers *)

(** [std::default_random_engine] of libstdc++ ([minstd_rand0]). *)
Definition minstd_modulus : Z := 2147483647.
Definition minstd_seed (t : Z) : Z := if t mod minstd_modulus =? 0 then 1 else t mod minstd_modulus.
Definition minstd_next (x : Z) : Z := 16807 * x mod minstd_modulus.

(** [get_randaom]: the engine is asked twice. *)
Definition get_randaom (now : Z) : Z :=
  let e1 := minstd_next (minstd_seed now) in
  let e2 := minstd_next e1 in
  if decide (e1 <> 0) then e2 else e2 + 1.

Lemma minstd_next_range x : 0 < x < minstd_modulus -> 0 < minstd_next x < minstd_modulus.
Proof.
  intros Hx. unfold minstd_next. pose proof (Z.mod_pos_bound (16807 * x) minstd_modulus ltac:(done)).
  assert (16807 * x mod minstd_modulus <> 0); [|lia]. intros H0. apply Z.mod_divide in H0; [|done].
  apply Z.gauss in H0; [|reflexivity]. apply Z.divide_pos_le in H0; lia.
Qed.

Lemma get_randaom_range now : 0 < get_randaom now < minstd_modulus.
Proof.
  unfold get_randaom. assert (Hs : 0 < minstd_seed now < minstd_modulus).
  { unfold minstd_seed. pose proof (Z.mod_pos_bound now minstd_modulus ltac:(done)). destruct (Z.eqb_spec (now mod minstd_modulus) 0); [done|lia]. }
  pose proof (minstd_next_range _ Hs) as H1. pose proof (minstd_next_range _ H1) as H2. case_decide; lia.
Qed.

(** ** The operations *)

Section Operations.
Context `{E : Aby3}.

Definition zero_threshold : double := S754_zero false.
Definition the_cell (m : i64Matrix) : Z := nth 0 (cells m) 0.

(** [lt(const si64&, double)]. *)
Definition lt_value (p : Sh3Piecewise) (X : si64Matrix) (threshold : double) : prog (bool * Sh3Piecewise) :=
  '(out, p) ← lt_int p X threshold;
  dest ← revealAll3 out;
  mret (negb (the_cell dest =? 0), p).

Definition is_zero (now : Z) (X : si64Matrix) : prog bool :=
  dest ← call3 (ConstMulTest (get_randaom now) X);
  result ← revealAll3 dest;
  mret (the_cell result =? 0).

(** [eq(const si64&, const si64&)]. *)
Definition eq_value (now : Z) (X Y : si64Matrix) : prog bool :=
  let Z := share_sub X Y in
  dest ← call3 (ConstMulTest (get_randaom now) Z);
  result ← revealAll3 dest;
  mret (the_cell result =? 0).

(** [eq] of matrices: the masked differences, not opened. *)
Definition eq_matrix (now : Z) (X Y : si64Matrix) : prog si64Matrix :=
  let Z := share_sub X Y in call3 (ConstMulTest (get_randaom now) Z).

(** [gt]: the second test is for zero, whatever the threshold. *)
Definition gt (p : Sh3Piecewise) (now : Z) (X : si64Matrix) (threshold : double) : prog (bool * Sh3Piecewise) :=
  '(lt_flag, p) ← lt_value p X threshold;
  if (lt_flag : bool) then mret (false, p)
  else z ← is_zero now X; mret (negb z, p).

Definition Sign (p : Sh3Piecewise) (now : Z) (X : si64Matrix) : prog (Z * Sh3Piecewise) :=
  '(lt_flag, p) ← lt_value p X zero_threshold;
  if (lt_flag : bool) then mret (-1, p)
  else
    zero_flag ← is_zero now X;
    if (zero_flag : bool) then mret (0, p) else mret (1, p).

(** The loops of [sort]; [now i j] is the clock at a comparison. *)
Fixpoint sort_row (now : nat -> Z) (i : nat) (js : list nat) (p : Sh3Piecewise) (Y : list si64Matrix) : prog (list si64Matrix * Sh3Piecewise) :=
  match js with
  | [] => mret (Y, p)
  | j :: js =>
      match Y !! i, Y !! j with
      | Some yi, Some yj =>
          '(g, p) ← gt p (now j) (share_sub yi yj) zero_threshold;
          sort_row now i js p (if (g : bool) then <[j := yi]> (<[i := yj]> Y) else Y)
      | _, _ => Done Undef
      end
  end.

Fixpoint sort_rows (now : nat -> nat -> Z) (size : nat) (todo : list nat) (p : Sh3Piecewise) (Y : list si64Matrix) : prog (list si64Matrix * Sh3Piecewise) :=
  match todo with
  | [] => mret (Y, p)
  | i :: todo =>
      '(Y, p) ← sort_row (now i) i (seq (S i) (size - S i)) p Y;
      sort_rows now size todo p Y
  end.

(** Copying [size] elements of a vector into another. *)
Definition copy_front (size : nat) (Y dest : list si64Matrix) : res (list si64Matrix) :=
  if decide (size <= length Y /\ size <= length dest)%nat then Ret (take size Y ++ drop size dest) else Undef.

Definition sort (now : nat -> nat -> Z) (p : Sh3Piecewise) (X : list si64Matrix) (size : nat) (dest : list si64Matrix) :
    prog (Z * list si64Matrix * Sh3Piecewise) :=
  if decide (length X < 1)%nat then mret (0, dest, p)
  else if decide (length X < size)%nat then Done Undef
  else
    '(Y, p) ← sort_rows now size (seq 0 size) p (take size X);
    dest ← Done (copy_front size Y dest);
    mret (1, dest, p).

(** The inner loop of [unique_unsorted]: [fuel] bounds its rounds; after an
    element is erased the next one moves to [j] and is passed over. *)
Fixpoint unique_row (now : nat -> Z) (fuel : nat) (size i j count : nat) (Y : list si64Matrix) : prog (list si64Matrix * nat) :=
  match fuel with
  | O => mret (Y, count)
  | S fuel =>
      if decide (j < size - count)%nat then
        match Y !! i, Y !! j with
        | Some yi, Some yj =>
            e ← eq_value (now j) yi yj;
            if (e : bool) then unique_row now fuel size i (S j) (S count) (delete j Y)
            else unique_row now fuel size i (S j) count Y
        | _, _ => Done Undef
        end
      else mret (Y, count)
  end.

Fixpoint unique_rows (now : nat -> nat -> Z) (size : nat) (todo : list nat) (count : nat) (Y : list si64Matrix) : prog (list si64Matrix * nat) :=
  match todo with
  | [] => mret (Y, count)
  | i :: todo =>
      '(Y, count) ← unique_row (now i) size size i (S i) count Y;
      unique_rows now size todo count Y
  end.

Definition unique_unsorted (now : nat -> nat -> Z) (X : list si64Matrix) (size : nat) (dest : list si64Matrix) (dest_size : nat) :
    prog (Z * list si64Matrix * nat) :=
  if decide (length X < 2 \/ size < 2)%nat then mret (0, dest, dest_size)
  else if decide (length X < size)%nat then Done Undef
  else
    '(Y, count) ← unique_rows now size (seq 0 size) 0 (take size X);
    dest ← Done (copy_front (size - count) Y dest);
    mret (1, dest, (size - count)%nat).

(** [mul] of scalars and of matrices. *)
Definition ml_mul (left right : si64Matrix) : prog si64Matrix := call3 (MatMulFixed 0 left right).

Definition constMul (a : Z) (vals : si64Matrix) : si64Matrix := asyncConstMul a vals.
Definition constFixedMul (a : double) (vals : si64Matrix) : prog si64Matrix := call3 (ConstFixedMul (to_fixed a) vals).

(** [average]: [A] has [n] elements, [1.0 / n] is a double. *)
Definition average (A : list si64Matrix) : prog si64Matrix :=
  let inv := SFdiv d_prec d_emax (d_of_int 1) (d_of_int (Z.of_nat (length A))) in
  match A with
  | [] => Done Undef
  | a :: rest => constFixedMul inv (fold_left share_add rest a)
  end.
End Operations.

(** *** Powers *)

(** [while (((n >> i) & 1) == 0) i--] from [i = 3]. *)
Fixpoint top_bit (n : Z) (i : nat) : nat :=
  match i with
  | O => O
  | S i' => if Z.land (Z.shiftr n (Z.of_nat i)) 1 =? 0 then top_bit n i' else i
  end.

Section Power.
Context {M : Type -> Type} `{!MRet M, !MBind M} {X : Type} (mul : X -> X -> M X).

Fixpoint pow_loop (n : Z) (B : X) (bits : nat) (C : X) : M X :=
  match bits with
  | O => mret C
  | S j =>
      C ← mul C C;
      if Z.land (Z.shiftr n (Z.of_nat j)) 1 =? 0 then pow_loop n B j C
      else C ← mul C B; pow_loop n B j C
  end.

Definition FixedPow (throw : M X) (n : Z) (B : X) : M X :=
  if (16 <=? n) || (n =? 0) then throw else pow_loop n B (top_bit n 3) B.
End Power.

(** ** Sorting by exchanges *)

Definition exchange (i j : nat) (v : list Z) : list Z :=
  match v !! i, v !! j with
  | Some a, Some b => if b <? a then <[j := a]> (<[i := b]> v) else v
  | _, _ => v
  end.

Definition exchange_row (i : nat) (js : list nat) (v : list Z) : list Z := fold_left (fun v j => exchange i j v) js v.
Definition exchange_rows (size : nat) (todo : list nat) (v : list Z) : list Z :=
  fold_left (fun v i => exchange_row i (seq (S i) (size - S i)) v) todo v.

Lemma exchange_perm i j v : exchange i j v ≡ₚ v.
Proof. unfold exchange. repeat case_match; [|done..]. by apply Permutation_insert_swap. Qed.

Lemma exchange_row_perm i js v : exchange_row i js v ≡ₚ v.
Proof. revert v. induction js as [|j js IH]; intros v; [done|]. etransitivity; [apply IH|apply exchange_perm]. Qed.

Lemma exchange_rows_perm size todo v : exchange_rows size todo v ≡ₚ v.
Proof. revert v. induction todo as [|i todo IH]; intros v; [done|]. etransitivity; [apply IH|apply exchange_row_perm]. Qed.

(** What a row does: position [i] gets the least of the elements seen, the positions
    before it are left alone and no element moves before it. *)
Record row_done (i m : nat) (v v' : list Z) : Prop := {
  rd_length : length v' = length v;
  rd_before a : (a < i)%nat -> v' !! a = v !! a;
  rd_least x b y : v' !! i = Some x -> (i < b <= i + m)%nat -> v' !! b = Some y -> x <= y;
  rd_after b y : (i <= b)%nat -> v' !! b = Some y -> exists b', (i <= b')%nat /\ v !! b' = Some y;
}.

Lemma exchange_step i j v : (i < j < length v)%nat ->
  exists a b, v !! i = Some a /\ v !! j = Some b /\
    exchange i j v !! i = Some (Z.min a b) /\ exchange i j v !! j = Some (Z.max a b) /\
    (forall k, k <> i -> k <> j -> exchange i j v !! k = v !! k).
Proof.
  intros H. destruct (lookup_lt_is_Some_2 v i ltac:(lia)) as [a Ha]. destruct (lookup_lt_is_Some_2 v j ltac:(lia)) as [b Hb].
  exists a, b. unfold exchange. rewrite Ha, Hb. destruct (Z.ltb_spec b a).
  - rewrite Z.min_r, Z.max_l by lia. split_and!; [done..| | |].
    + rewrite list_lookup_insert_ne by lia. rewrite list_lookup_insert_eq; [done|lia].
    + rewrite list_lookup_insert_eq; [done|]. rewrite length_insert. lia.
    + intros k Hi Hj. by rewrite !list_lookup_insert_ne by done.
  - rewrite Z.min_l, Z.max_r by lia. by split_and!.
Qed.

Lemma exchange_row_done i m v : (i + m < length v)%nat -> row_done i m v (exchange_row i (seq (S i) m) v).
Proof.
  induction m as [|m IH]; intros Hm; [split; [done|done|intros; lia|by eauto]|]. destruct (IH ltac:(lia)) as [Hl Hb Hle Ha].
  unfold exchange_row. rewrite seq_S, fold_left_app. fold (exchange_row i (seq (S i) m) v). cbn [fold_left].
  set (w := exchange_row i (seq (S i) m) v) in *. replace (S i + m)%nat with (S (i + m)) by lia.
  destruct (exchange_step i (S (i + m)) w ltac:(lia)) as (a & b & Ea & Eb & Ei & Ej & Ek). split.
  - unfold exchange. by repeat case_match; rewrite ?length_insert.
  - intros c Hc. rewrite Ek by lia. by apply Hb.
  - intros x c y Hx Hc Hy. rewrite Ei in Hx. injection Hx as <-. destruct (decide (c = S (i + m))) as [-> |].
    + rewrite Ej in Hy. injection Hy as <-. lia.
    + rewrite Ek in Hy by lia. pose proof (Hle a c y Ea ltac:(lia) Hy). lia.
  - intros c y Hc Hy. destruct (decide (c = i)) as [-> |]; [|destruct (decide (c = S (i + m))) as [-> |]].
    + rewrite Ei in Hy. injection Hy as <-. destruct (Z.min_spec a b) as [[_ ->] | [_ ->]]; [apply (Ha i)|apply (Ha (S (i + m)))]; [lia|done|lia|done].
    + rewrite Ej in Hy. injection Hy as <-. destruct (Z.max_spec a b) as [[_ ->] | [_ ->]]; [apply (Ha (S (i + m)))|apply (Ha i)]; [lia|done|lia|done].
    + rewrite Ek in Hy by done. by apply (Ha c).
Qed.

(** The first [k] elements are in place. *)
Definition sorted_to (k : nat) (v : list Z) : Prop := forall a b x y, (a < k)%nat -> (a < b)%nat -> v !! a = Some x -> v !! b = Some y -> x <= y.

Lemma exchange_rows_sorted k v : (k <= length v)%nat -> sorted_to k (exchange_rows (length v) (seq 0 k) v) /\ length (exchange_rows (length v) (seq 0 k) v) = length v.
Proof.
  induction k as [|k IH]; intros Hk; [split; [intros ?; lia|done]|]. destruct (IH ltac:(lia)) as [Hs Hl].
  unfold exchange_rows. rewrite seq_S, fold_left_app. fold (exchange_rows (length v) (seq 0 k) v). cbn [fold_left Nat.add].
  set (w := exchange_rows (length v) (seq 0 k) v) in *.
  destruct (exchange_row_done k (length v - S k) w ltac:(lia)) as [H1 H2 H3 H4]. split; [|congruence].
  intros a b x y Ha Hab Hx Hy. destruct (decide (a = k)) as [-> |].
  - apply (H3 x b y Hx); [|done]. apply lookup_lt_Some in Hy. lia.
  - rewrite H2 in Hx by lia. destruct (decide (b < k)%nat).
    + rewrite H2 in Hy by lia. apply (Hs a b x y); [lia|lia|done|done].
    + destruct (H4 b y ltac:(lia) Hy) as (b' & Hb' & Hy'). apply (Hs a b' x y); [lia|lia|done|done].
Qed.

Lemma exchange_sorts v : StronglySorted Z.le (exchange_rows (length v) (seq 0 (length v)) v) /\ exchange_rows (length v) (seq 0 (length v)) v ≡ₚ v.
Proof.
  split; [|apply exchange_rows_perm]. destruct (exchange_rows_sorted (length v) v (le_n _)) as [Hs Hl].
  set (w := exchange_rows (length v) (seq 0 (length v)) v) in *. rewrite <- Hl in Hs. clear Hl. clearbody w.
  induction w as [|x w IH]; [constructor|]. constructor.
  - apply IH. intros a b y z Ha Hab Hy Hz. apply (Hs (S a) (S b)); [cbn; lia|lia|done|done].
  - apply Forall_lookup. intros b y Hb. apply (Hs 0%nat (S b)); [cbn; lia|lia|done|done].
Qed.

(** ** The operations on shares *)

Section Shared.
Context `{L : Aby3Laws} {ulp : Z} {F : FixedPointLaws E ulp} {T : ZeroTestLaws E}.

(** The three parties share the integer [x]. *)
Definition holds_int (A : trip si64Matrix) (x : Z) : Prop := shares A (Mat 1 1 [x]).

Lemma returns_bind3 {A B} (p0 p1 p2 : prog A) (f0 f1 f2 : A -> prog B) (P : trip A -> Prop) (Q : trip B -> Prop) :
  returns (Trip p0 p1 p2) P -> (forall a, P a -> returns (Trip (f0 (at0 a)) (f1 (at1 a)) (f2 (at2 a))) Q) ->
  returns (Trip (p0 ≫= f0) (p1 ≫= f1) (p2 ≫= f2)) Q.
Proof using. apply (returns_bind (Trip p0 p1 p2) (Trip f0 f1 f2)). Qed.

Lemma returns_same {A} (x : A) : returns (Trip (mret x) (mret x) (mret x)) (fun r => r = Trip x x x).
Proof using. by apply (returns_done (Trip x x x)). Qed.

(** An object whose upper region is empty: no logistic function was computed with it. *)
Definition lt_ready (p : Sh3Piecewise) : Prop := nth 1 (resize 2 [] (mCoefficients p)) [] = [].
Definition lt_object : Sh3Piecewise := set_lt zero_threshold fresh_piecewise.

Lemma set_lt_ready p : lt_ready p -> set_lt zero_threshold p = lt_object.
Proof using. unfold lt_ready, set_lt. by intros ->. Qed.

Lemma lt_returns A x p0 p1 p2 : holds_int A x -> lt_ready p0 -> lt_ready p1 -> lt_ready p2 ->
  returns (Trip (lt_value p0 (at0 A) zero_threshold) (lt_value p1 (at1 A) zero_threshold) (lt_value p2 (at2 A) zero_threshold))
    (fun r => r = Trip (x <? 0, lt_object) (x <? 0, lt_object) (x <? 0, lt_object)).
Proof using L F.
  intros HA H0 H1 H2. unfold lt_value, lt_int. rewrite !set_lt_ready by done.
  eapply returns_bind3 with (P := fun r => exists t, r = Trip (at0 t, lt_object) (at1 t, lt_object) (at2 t, lt_object) /\ holds_int t (if x <? 0 then 1 else 0)).
  - eapply returns_bind3; [apply (returns_call (trip_map (pw_call false lt_object) A) (fun t => holds_int t (if x <? 0 then 1 else 0)))|].
    + intros n. destruct (piecewise_law n false (mThresholds lt_object) (mCoefficients lt_object) A _ HA) as (t & Hj & Ht); [done..|].
      exists t. split; [exact Hj|]. exact Ht.
    + intros t Ht. apply (returns_done (Trip _ _ _)). eauto.
  - intros r (t & -> & Ht). cbn [at0 at1 at2]. eapply returns_bind3; [apply (returns_open t _ Ht)|]. intros m ->. cbn [at0 at1 at2 the_cell cells nth].
    replace (negb ((if x <? 0 then 1 else 0) =? 0)) with (x <? 0) by (by destruct (x <? 0)). apply returns_same.
Qed.

(** The test for zero is right for values up to [2^33], the masked product of a
    larger one can be 0 modulo [2^64]. *)
Definition zero_shown (now x : Z) : bool := wrap (get_randaom now * x) =? 0.

Lemma zero_shown_small now x : Z.abs x < 2 ^ 33 -> zero_shown now x = (x =? 0).
Proof using.
  intros Hx. unfold zero_shown. pose proof (get_randaom_range now) as Hr. unfold minstd_modulus in Hr.
  destruct (Z.eqb_spec x 0) as [-> |]; [by rewrite Z.mul_0_r|]. apply Z.eqb_neq. intros H0.
  destruct (wrap_cong (get_randaom now * x)) as [k Hk]. rewrite H0 in Hk. unfold W64 in Hk. nia.
Qed.

Lemma zero_returns now A x : holds_int A x ->
  returns (Trip (is_zero now (at0 A)) (is_zero now (at1 A)) (is_zero now (at2 A))) (fun r => r = Trip (zero_shown now x) (zero_shown now x) (zero_shown now x)).
Proof using L T.
  intros HA. unfold is_zero.
  eapply returns_bind3; [apply (returns_call (trip_map (ConstMulTest (get_randaom now)) A) (fun t => holds_int t (wrap (get_randaom now * x))))|].
  - intros n. apply (const_mul_test_law n _ A _ HA).
  - intros t Ht. eapply returns_bind3; [apply (returns_open t _ Ht)|]. intros m ->. apply returns_same.
Qed.

Lemma diff_holds A B x y : holds_int A x -> holds_int B y ->
  holds_int (Trip (share_sub (at0 A) (at0 B)) (share_sub (at1 A) (at1 B)) (share_sub (at2 A) (at2 B))) (wrap (x - y)).
Proof using L. intros HA HB. exact (shares_sub A B _ _ HA HB (conj eq_refl eq_refl)). Qed.

(** [gt] with the threshold 0. *)
Lemma gt_returns now A x p0 p1 p2 : holds_int A x -> lt_ready p0 -> lt_ready p1 -> lt_ready p2 -> Z.abs x < 2 ^ 33 ->
  returns (Trip (gt p0 now (at0 A) zero_threshold) (gt p1 now (at1 A) zero_threshold) (gt p2 now (at2 A) zero_threshold))
    (fun r => r = Trip (0 <? x, lt_object) (0 <? x, lt_object) (0 <? x, lt_object)).
Proof using L F T.
  intros HA H0 H1 H2 Hx. unfold gt. eapply returns_bind3; [by apply (lt_returns A x)|]. intros r ->. cbn [at0 at1 at2].
  destruct (Z.ltb_spec x 0).
  - rewrite (proj2 (Z.ltb_ge 0 x)) by lia. apply returns_same.
  - eapply returns_bind3; [by apply (zero_returns now A x)|]. intros r ->. cbn [at0 at1 at2]. rewrite zero_shown_small by done.
    replace (negb (x =? 0)) with (0 <? x) by (destruct (Z.eqb_spec x 0), (Z.ltb_spec 0 x); cbn; lia). apply returns_same.
Qed.

Lemma sign_returns now A x p0 p1 p2 : holds_int A x -> lt_ready p0 -> lt_ready p1 -> lt_ready p2 -> Z.abs x < 2 ^ 33 ->
  returns (Trip (Sign p0 now (at0 A)) (Sign p1 now (at1 A)) (Sign p2 now (at2 A)))
    (fun r => r = Trip (Z.sgn x, lt_object) (Z.sgn x, lt_object) (Z.sgn x, lt_object)).
Proof using L F T.
  intros HA H0 H1 H2 Hx. unfold Sign. eapply returns_bind3; [by apply (lt_returns A x)|]. intros r ->. cbn [at0 at1 at2].
  destruct (Z.ltb_spec x 0).
  - rewrite Z.sgn_neg by lia. apply returns_same.
  - eapply returns_bind3; [by apply (zero_returns now A x)|]. intros r ->. cbn [at0 at1 at2]. rewrite zero_shown_small by done.
    destruct (Z.eqb_spec x 0) as [-> |]; [apply returns_same|]. rewrite Z.sgn_pos by lia. apply returns_same.
Qed.

(** *** Vectors of shares *)

Record holds_ints (Y : trip (list si64Matrix)) (v : list Z) : Prop := {
  hi_length : length (at0 Y) = length v /\ length (at1 Y) = length v /\ length (at2 Y) = length v;
  hi_lookup k x : v !! k = Some x -> exists A, at0 Y !! k = Some (at0 A) /\ at1 Y !! k = Some (at1 A) /\ at2 Y !! k = Some (at2 A) /\ holds_int A x;
}.

Definition insert3 (k : nat) (A : trip si64Matrix) (Y : trip (list si64Matrix)) : trip (list si64Matrix) :=
  Trip (<[k := at0 A]> (at0 Y)) (<[k := at1 A]> (at1 Y)) (<[k := at2 A]> (at2 Y)).

Lemma insert3_holds k A x Y v : holds_ints Y v -> holds_int A x -> holds_ints (insert3 k A Y) (<[k := x]> v).
Proof using.
  intros [(H0 & H1 & H2) Hv] HA. split; [by cbn; rewrite !length_insert|]. intros k' x' Hx. cbn.
  destruct (decide (k' = k)) as [-> |].
  - assert (k < length v)%nat by (apply lookup_lt_Some in Hx; by rewrite length_insert in Hx).
    rewrite list_lookup_insert_eq in Hx by done. injection Hx as <-. exists A. by rewrite !list_lookup_insert_eq by congruence.
  - rewrite list_lookup_insert_ne in Hx by done. destruct (Hv k' x' Hx) as (B & ?). exists B. by rewrite !list_lookup_insert_ne by done.
Qed.

Definition in_bound (x : Z) : Prop := Z.abs x < 2 ^ 32.

Lemma exchange_bound i j v : Forall in_bound v -> Forall in_bound (exchange i j v).
Proof using. by rewrite exchange_perm. Qed.

(** What the parties have after some exchanges. *)
Definition holds_sorting (r : trip (list si64Matrix * Sh3Piecewise)) (v : list Z) : Prop :=
  holds_ints (trip_map fst r) v /\ lt_ready (at0 r).2 /\ lt_ready (at1 r).2 /\ lt_ready (at2 r).2.

Lemma sort_row_returns now i js Y p0 p1 p2 v : holds_sorting (Trip (at0 Y, p0) (at1 Y, p1) (at2 Y, p2)) v -> Forall in_bound v ->
  (i < length v)%nat -> Forall (fun j => (j < length v)%nat) js ->
  returns (Trip (sort_row now i js p0 (at0 Y)) (sort_row now i js p1 (at1 Y)) (sort_row now i js p2 (at2 Y)))
    (fun r => holds_sorting r (exchange_row i js v)).
Proof using L F T.
  intros (HY & H0 & H1 & H2) Hb Hi Hjs. revert Y p0 p1 p2 v HY H0 H1 H2 Hb Hi Hjs.
  induction js as [|j js IH]; intros Y p0 p1 p2 v HY H0 H1 H2 Hb Hi Hjs; [by apply (returns_done (Trip _ _ _))|].
  apply Forall_cons_1 in Hjs as [Hj Hjs]. destruct (lookup_lt_is_Some_2 v i Hi) as [a Ea]. destruct (lookup_lt_is_Some_2 v j Hj) as [b Eb].
  cbn [trip_map at0 at1 at2 fst] in HY.
  destruct (hi_lookup _ _ HY i a Ea) as (A & A0 & A1 & A2 & HA). destruct (hi_lookup _ _ HY j b Eb) as (B & B0 & B1 & B2 & HB).
  cbn [trip_map at0 at1 at2 fst snd] in *. cbn [sort_row]. rewrite A0, A1, A2, B0, B1, B2.
  assert (in_bound a) by (by eapply Forall_lookup_1). assert (in_bound b) by (by eapply Forall_lookup_1). unfold in_bound in *.
  pose proof (diff_holds A B a b HA HB) as HD. rewrite wrap_id in HD by (apply in_i64_spec; lia).
  eapply returns_bind3; [apply (gt_returns (now j) _ _ p0 p1 p2 HD); [done..|lia]|]. intros r ->. cbn [at0 at1 at2].
  assert (Hx : exchange i j v = if 0 <? a - b then <[j := a]> (<[i := b]> v) else v).
  { unfold exchange. rewrite Ea, Eb. destruct (Z.ltb_spec b a), (Z.ltb_spec 0 (a - b)); try done; lia. }
  cbn [exchange_row fold_left]. fold (exchange_row i js (exchange i j v)). pose proof (exchange_bound i j v Hb) as Hb'. rewrite Hx in *.
  destruct (0 <? a - b).
  - apply (IH (insert3 j A (insert3 i B Y)) lt_object lt_object lt_object); [|done..| |].
    + apply insert3_holds; [|done]. apply insert3_holds; [|done]. by destruct Y.
    + by rewrite !length_insert.
    + by rewrite !length_insert.
  - by apply (IH Y).
Qed.

Lemma exchange_row_length i js v : length (exchange_row i js v) = length v.
Proof using. apply Permutation_length, exchange_row_perm. Qed.

Lemma sort_rows_returns now size todo Y p0 p1 p2 v : holds_sorting (Trip (at0 Y, p0) (at1 Y, p1) (at2 Y, p2)) v -> Forall in_bound v ->
  (size <= length v)%nat -> Forall (fun i => (i < size)%nat) todo ->
  returns (Trip (sort_rows now size todo p0 (at0 Y)) (sort_rows now size todo p1 (at1 Y)) (sort_rows now size todo p2 (at2 Y)))
    (fun r => holds_sorting r (exchange_rows size todo v)).
Proof using L F T.
  revert Y p0 p1 p2 v. induction todo as [|i todo IH]; intros Y p0 p1 p2 v HY Hb Hs Ht; [by apply (returns_done (Trip _ _ _))|].
  apply Forall_cons_1 in Ht as [Hi Ht]. cbn [sort_rows]. eapply returns_bind3.
  - apply (sort_row_returns (now i) i (seq (S i) (size - S i)) Y p0 p1 p2 v HY Hb); [lia|]. apply Forall_seq. lia.
  - intros [[Y0 q0] [Y1 q1] [Y2 q2]] Hr. apply (IH (Trip Y0 Y1 Y2) q0 q1 q2 (exchange_row i (seq (S i) (size - S i)) v)); [done| |by rewrite exchange_row_length|done].
    by rewrite exchange_row_perm.
Qed.

Lemma holds_ints_take k Y v : holds_ints Y v -> holds_ints (trip_map (take k) Y) (take k v).
Proof using.
  intros [(H0 & H1 & H2) Hv]. split; [by cbn; rewrite !length_take; split_and!; congruence|]. intros i x Hx. cbn.
  apply lookup_take_Some in Hx as [Hx Hi]. destruct (Hv i x Hx) as (A & ?). exists A. by rewrite !lookup_take_lt by done.
Qed.

Lemma copy_front_returns {B} size Y d0 d1 d2 v (g0 g1 g2 : list si64Matrix -> prog B) (Q : trip B -> Prop) : holds_ints Y v -> length v = size ->
  (size <= length d0 /\ size <= length d1 /\ size <= length d2)%nat ->
  returns (Trip (g0 (at0 Y ++ drop size d0)) (g1 (at1 Y ++ drop size d1)) (g2 (at2 Y ++ drop size d2))) Q ->
  returns (Trip (Done (copy_front size (at0 Y) d0) ≫= g0) (Done (copy_front size (at1 Y) d1) ≫= g1) (Done (copy_front size (at2 Y) d2) ≫= g2)) Q.
Proof using.
  intros [(H0 & H1 & H2) _] Hl (D0 & D1 & D2) H. unfold copy_front. rewrite !decide_True by lia. rewrite !take_ge by lia. exact H.
Qed.

(** sorting on shares sorts.  Three parties whose piecewise objects computed no
    logistic function, with shares of integers of at most 32 bits in [X] and clocks that
    agree, come to the end of [sort]: each reports 1, and the first [size] places of
    their results are shares of the first [size] integers in ascending order, whatever
    the remaining places held. *)
Theorem sort_sorts now size X v p0 p1 p2 d0 d1 d2 n : holds_ints X v -> Forall in_bound v -> lt_ready p0 -> lt_ready p1 -> lt_ready p2 ->
  (0 < length v /\ size <= length v /\ size <= length d0 /\ size <= length d1 /\ size <= length d2)%nat ->
  exists Y w q, run3 n (sort now p0 (at0 X) size d0) (sort now p1 (at1 X) size d1) (sort now p2 (at2 X) size d2) =
      Some (Trip (Ret (1, at0 Y ++ drop size d0, at0 q)) (Ret (1, at1 Y ++ drop size d1, at1 q)) (Ret (1, at2 Y ++ drop size d2, at2 q))) /\
    holds_ints Y w /\ StronglySorted Z.le w /\ w ≡ₚ take size v.
Proof using L F T.
  intros HX Hb R0 R1 R2 (Hv & Hs & D0 & D1 & D2). pose proof (hi_length _ _ HX) as (L0 & L1 & L2).
  set (u := take size v). assert (Hu : length u = size) by (unfold u; rewrite length_take; lia).
  destruct (returns_run3 (Trip (sort now p0 (at0 X) size d0) (sort now p1 (at1 X) size d1) (sort now p2 (at2 X) size d2))
    (fun r => exists Y q, r = Trip (1, at0 Y ++ drop size d0, at0 q) (1, at1 Y ++ drop size d1, at1 q) (1, at2 Y ++ drop size d2, at2 q) /\
      holds_ints Y (exchange_rows size (seq 0 size) u)) n) as (r & Hr & Y & q & -> & HY).
  - unfold sort. rewrite !(decide_False (P := (_ < 1)%nat)) by lia. rewrite !(decide_False (P := (_ < size)%nat)) by lia.
    eapply returns_bind3.
    + apply (sort_rows_returns now size (seq 0 size) (trip_map (take size) X) p0 p1 p2 u).
      * split; [by apply (holds_ints_take size X v)|done].
      * by apply Forall_take.
      * lia.
      * apply Forall_seq. lia.
    + intros [[Y0 q0] [Y1 q1] [Y2 q2]] (HY & _). apply (copy_front_returns size (Trip Y0 Y1 Y2) d0 d1 d2 (exchange_rows size (seq 0 size) u)); [done| |lia|].
      * by rewrite exchange_rows_perm.
      * apply (returns_done (Trip _ _ _)). by exists (Trip Y0 Y1 Y2), (Trip q0 q1 q2).
  - exists Y, (exchange_rows size (seq 0 size) u), q. split; [exact Hr|]. split; [done|]. rewrite <- Hu. apply exchange_sorts.
Qed.

(** *** Duplicates *)

(** [unique_row] and [unique_rows] on the integers. *)
Fixpoint dedup_row (fuel size i j count : nat) (v : list Z) : list Z * nat :=
  match fuel with
  | O => (v, count)
  | S fuel =>
      if decide (j < size - count)%nat then
        match v !! i, v !! j with
        | Some a, Some b => if a =? b then dedup_row fuel size i (S j) (S count) (delete j v) else dedup_row fuel size i (S j) count v
        | _, _ => (v, count)
        end
      else (v, count)
  end.
Fixpoint dedup_rows (size : nat) (todo : list nat) (count : nat) (v : list Z) : list Z * nat :=
  match todo with
  | [] => (v, count)
  | i :: todo => let '(v, count) := dedup_row size size i (S i) count v in dedup_rows size todo count v
  end.

(** What is left of [v]: no element is lost, no order changed. *)
Record thinned (size : nat) (v v' : list Z) (count' : nat) : Prop := {
  th_length : (length v' + count' = size)%nat;
  th_sublist : sublist v' v;
  th_elements x : x ∈ v -> x ∈ v';
}.

Lemma thinned_trans size v v' v'' c' c'' : thinned size v v' c' -> thinned size v' v'' c'' -> thinned size v v'' c''.
Proof using. intros [H1 H2 H3] [H4 H5 H6]. split; [done|by etransitivity|auto]. Qed.

Lemma thinned_delete size i j count v a : (length v + count = size)%nat -> (i < j)%nat -> v !! i = Some a -> v !! j = Some a ->
  thinned size v (delete j v) (S count).
Proof using.
  intros Hl Hij Hi Hj. split.
  - rewrite length_delete by eauto. apply lookup_lt_Some in Hj. lia.
  - apply sublist_delete.
  - intros x Hx. destruct (decide (x = a)) as [-> |].
    + apply (list_elem_of_lookup_2 _ i). by rewrite list_lookup_delete_lt by done.
    + apply list_elem_of_lookup in Hx as [k Hk]. apply list_elem_of_lookup. destruct (decide (k < j)%nat).
      * exists k. by rewrite list_lookup_delete_lt by done.
      * assert (k <> j) by congruence. exists (k - 1)%nat. rewrite list_lookup_delete_ge by lia. by replace (S (k - 1)) with k by lia.
Qed.

Lemma dedup_row_thinned fuel size i j count v : (length v + count = size)%nat -> (i < j)%nat ->
  let '(v', count') := dedup_row fuel size i j count v in thinned size v v' count'.
Proof using.
  revert j count v. induction fuel as [|fuel IH]; intros j count v Hl Hij; cbn; [by split|].
  destruct (decide (j < size - count)%nat) as [Hj|]; [|by split].
  destruct (v !! i) as [a|] eqn:Ea; [|by split]. destruct (v !! j) as [b|] eqn:Eb; [|by split].
  destruct (Z.eqb_spec a b) as [<- |].
  - pose proof (thinned_delete size i j count v a Hl Hij Ea Eb) as Hd. specialize (IH (S j) (S count) (delete j v) (th_length _ _ _ _ Hd) ltac:(lia)).
    destruct (dedup_row _ _ _ _ _ _) as [v' c']. by eapply thinned_trans.
  - apply IH; [done|lia].
Qed.

Lemma dedup_rows_thinned size todo count v : (length v + count = size)%nat -> let '(v', count') := dedup_rows size todo count v in thinned size v v' count'.
Proof using.
  revert count v. induction todo as [|i todo IH]; intros count v Hl; cbn; [by split|].
  pose proof (dedup_row_thinned size size i (S i) count v Hl ltac:(lia)) as H. destruct (dedup_row _ _ _ _ _ _) as [v' c'].
  specialize (IH c' v' (th_length _ _ _ _ H)). destruct (dedup_rows _ _ _ _) as [v'' c'']. by eapply thinned_trans.
Qed.

(** *** Duplicates on shares *)

Lemma eq_returns now A B a b : holds_int A a -> holds_int B b -> in_bound a -> in_bound b ->
  returns (Trip (eq_value now (at0 A) (at0 B)) (eq_value now (at1 A) (at1 B)) (eq_value now (at2 A) (at2 B))) (fun r => r = Trip (a =? b) (a =? b) (a =? b)).
Proof using L T.
  intros HA HB Ha Hb. unfold in_bound in *. pose proof (diff_holds A B a b HA HB) as HD. rewrite wrap_id in HD by (apply in_i64_spec; lia).
  pose proof (zero_returns now _ _ HD) as H. rewrite zero_shown_small in H by lia.
  replace (a =? b) with (a - b =? 0) by (destruct (Z.eqb_spec a b), (Z.eqb_spec (a - b) 0); lia). exact H.
Qed.

Definition delete3 (k : nat) (Y : trip (list si64Matrix)) : trip (list si64Matrix) := trip_map (delete k) Y.

Lemma delete3_holds k Y v : (k < length v)%nat -> holds_ints Y v -> holds_ints (delete3 k Y) (delete k v).
Proof using.
  intros Hk [(H0 & H1 & H2) Hv]. split.
  - cbn. rewrite !length_delete by (apply lookup_lt_is_Some; lia). lia.
  - intros i x Hx. cbn. destruct (decide (i < k)%nat).
    + rewrite list_lookup_delete_lt in Hx by done. destruct (Hv i x Hx) as (A & ?). exists A. by rewrite !list_lookup_delete_lt by done.
    + rewrite list_lookup_delete_ge in Hx by lia. destruct (Hv _ x Hx) as (A & ?). exists A. by rewrite !list_lookup_delete_ge by lia.
Qed.

(** The parties agree on the count and hold what is left. *)
Definition holds_left (r : trip (list si64Matrix * nat)) (vc : list Z * nat) : Prop :=
  holds_ints (trip_map fst r) vc.1 /\ trip_map snd r = Trip vc.2 vc.2 vc.2.

Lemma unique_row_returns now fuel size i j count Y v : holds_ints Y v -> Forall in_bound v -> (length v + count = size)%nat -> (i < j)%nat ->
  returns (trip_map (unique_row now fuel size i j count) Y) (fun r => holds_left r (dedup_row fuel size i j count v)).
Proof using L T.
  revert j count Y v. induction fuel as [|fuel IH]; intros j count Y v HY Hb Hl Hij.
  { apply (returns_done (Trip _ _ _)). split; [by destruct Y|done]. }
  cbn [unique_row dedup_row trip_map]. destruct (decide (j < size - count)%nat) as [Hj|].
  2: { apply (returns_done (Trip _ _ _)). split; [by destruct Y|done]. }
  destruct (lookup_lt_is_Some_2 v i ltac:(lia)) as [a Ea]. destruct (lookup_lt_is_Some_2 v j ltac:(lia)) as [b Eb]. rewrite Ea, Eb.
  unfold trip_map.
  destruct (hi_lookup _ _ HY i a Ea) as (A & -> & -> & -> & HA). destruct (hi_lookup _ _ HY j b Eb) as (B & -> & -> & -> & HB).
  assert (in_bound a) by (by eapply Forall_lookup_1). assert (in_bound b) by (by eapply Forall_lookup_1).
  eapply returns_bind3; [by apply (eq_returns (now j) A B a b)|]. intros r ->. cbn [at0 at1 at2]. destruct (a =? b).
  - apply (IH (S j) (S count) (delete3 j Y) (delete j v)); [apply delete3_holds; [lia|done]|by apply Forall_delete| |lia].
    rewrite length_delete by eauto. lia.
  - apply (IH (S j) count Y v); [done|done|done|lia].
Qed.

Lemma unique_rows_returns now size todo count Y v : holds_ints Y v -> Forall in_bound v -> (length v + count = size)%nat ->
  returns (trip_map (unique_rows now size todo count) Y) (fun r => holds_left r (dedup_rows size todo count v)).
Proof using L T.
  revert count Y v. induction todo as [|i todo IH]; intros count Y v HY Hb Hl.
  { apply (returns_done (Trip _ _ _)). split; [by destruct Y|done]. }
  pose proof (dedup_row_thinned size size i (S i) count v Hl ltac:(lia)) as Hd.
  pose proof (unique_row_returns (now i) size size i (S i) count Y v HY Hb Hl ltac:(lia)) as Hr.
  cbn [unique_rows dedup_rows]. destruct (dedup_row size size i (S i) count v) as [v' c']. unfold trip_map. eapply returns_bind3; [exact Hr|].
  intros [[Y0 q0] [Y1 q1] [Y2 q2]] [HY' Hc]. cbn in Hc. injection Hc as -> -> ->. destruct Hd as [H1 H2 _].
  apply (IH c' (Trip Y0 Y1 Y2) v'); [done| |done]. apply Forall_lookup. intros k x Hk. eapply Forall_forall; [exact Hb|].
  apply list_elem_of_In. eapply elem_of_sublist; [by eapply list_elem_of_lookup_2|exact H2].
Qed.

(** [unique_unsorted] on shares: every integer is still there, in the order of the
    input, and nothing else. *)
Lemma unique_keeps now size X v d0 d1 d2 ds n : holds_ints X v -> Forall in_bound v ->
  (2 <= size <= length v /\ size <= length d0 /\ size <= length d1 /\ size <= length d2)%nat ->
  exists Y w, run3 n (unique_unsorted now (at0 X) size d0 ds) (unique_unsorted now (at1 X) size d1 ds) (unique_unsorted now (at2 X) size d2 ds) =
      Some (Trip (Ret (1, at0 Y ++ drop (length w) d0, length w)) (Ret (1, at1 Y ++ drop (length w) d1, length w)) (Ret (1, at2 Y ++ drop (length w) d2, length w))) /\
    holds_ints Y w /\ w = (dedup_rows size (seq 0 size) 0 (take size v)).1 /\ sublist w (take size v) /\ (forall x, x ∈ take size v -> x ∈ w).
Proof using L T.
  intros HX Hb (Hs & D0 & D1 & D2). pose proof (hi_length _ _ HX) as (L0 & L1 & L2).
  assert (Hu : length (take size v) = size) by (rewrite length_take; lia).
  pose proof (dedup_rows_thinned size (seq 0 size) 0 (take size v) ltac:(lia)) as Hd.
  pose proof (unique_rows_returns now size (seq 0 size) 0 _ _ (holds_ints_take size X v HX) ltac:(by apply Forall_take) ltac:(lia)) as Hrows.
  destruct (dedup_rows size (seq 0 size) 0 (take size v)) as [w c]. destruct Hd as [H1 H2 H3].
  destruct (returns_run3 (Trip (unique_unsorted now (at0 X) size d0 ds) (unique_unsorted now (at1 X) size d1 ds) (unique_unsorted now (at2 X) size d2 ds))
    (fun r => exists Y, r = Trip (1, at0 Y ++ drop (length w) d0, length w) (1, at1 Y ++ drop (length w) d1, length w) (1, at2 Y ++ drop (length w) d2, length w) /\ holds_ints Y w) n)
    as (r & Hr & Y & -> & HY).
  - unfold unique_unsorted. rewrite !(decide_False (P := (_ < 2 \/ _)%nat)) by lia. rewrite !(decide_False (P := (_ < size)%nat)) by lia.
    eapply returns_bind3; [exact Hrows|]. intros [[Y0 q0] [Y1 q1] [Y2 q2]] [HY Hc]. cbn in Hc. injection Hc as -> -> ->. cbn [at0 at1 at2].
    assert (Hw : (size - c)%nat = length w) by lia. rewrite !Hw.
    apply (copy_front_returns (length w) (Trip Y0 Y1 Y2) d0 d1 d2 w); [done|done|lia|].
    apply (returns_done (Trip _ _ _)). by exists (Trip Y0 Y1 Y2).
  - exists Y, w. by split; [exact Hr|].
Qed.

(** *** Powers and averages *)

(** The powers with truncated products, as a relation. *)
Definition fixed_times (a b : i64Matrix) : rel i64Matrix := fixed_matmul 0 a b.

Lemma pow_loop_sim d n bits B b C c : holds_mat d d B b -> holds_mat d d C c ->
  sim (holds_mat d d) (Trip (pow_loop ml_mul n (at0 B) bits (at0 C)) (pow_loop ml_mul n (at1 B) bits (at1 C)) (pow_loop ml_mul n (at2 B) bits (at2 C)))
    (pow_loop fixed_times n b bits c).
Proof using L F.
  intros HB. revert C c. induction bits as [|j IH]; intros C c HC; [apply sim_ret; by destruct C|]. cbn [pow_loop].
  eapply sim_bind; [by apply (sim_matmul 0 d d d)|]. intros C' c' HC'. case_match; [by apply IH|].
  eapply sim_bind; [by apply (sim_matmul 0 d d d)|]. intros C'' c'' HC''. by apply IH.
Qed.

(** Powers of shared square matrices, and of scalars. *)
Lemma fixed_pow_shared d n B b : holds_mat d d B b -> 0 < n < 16 ->
  sim (holds_mat d d) (Trip (FixedPow ml_mul (Done Throw) n (at0 B)) (FixedPow ml_mul (Done Throw) n (at1 B)) (FixedPow ml_mul (Done Throw) n (at2 B)))
    (FixedPow (M := rel) fixed_times (fun _ => False) n b).
Proof using L F.
  intros HB Hn. unfold FixedPow. destruct (Z.leb_spec 16 n), (Z.eqb_spec n 0); try lia. cbn [orb]. by apply pow_loop_sim.
Qed.

(** The average: the sum times the fixed-point form of [1.0 / n]. *)
Lemma average_shared A a As as_ : shares A a -> Forall2 shares As as_ -> Forall (same_shape a) as_ ->
  returns (Trip (average (at0 A :: (at0 <$> As))) (average (at1 A :: (at1 <$> As))) (average (at2 A :: (at2 <$> As))))
    (fun t => exists c, shares t c /\
      Forall2 (fun x z => fixed_product (to_fixed (SFdiv d_prec d_emax (d_of_int 1) (d_of_int (Z.of_nat (S (length As)))))) x z) (cells (add_all a as_)) (cells c)).
Proof using L.
  intros HA HF Hs. unfold average, constFixedMul. cbn [length]. rewrite !length_fmap. set (k := to_fixed _).
  pose proof (shares_fold share_add _ A a As as_ shares_add HA HF Hs) as Hsum.
  eapply (returns_call (trip_map (ConstFixedMul k) (Trip _ _ _))). intros n.
  destruct (const_fixed_law n k _ _ Hsum (to_fixed_range _)) as (t & c & Hj & Ht & _ & Hc). exists t. split; [exact Hj|]. by exists c.
Qed.
End Shared.

(** With exact products, [FixedPow] is the power. *)
Lemma fixed_pow_exact n b : 0 <= n -> FixedPow (M := option) (fun x y => Some (x * y)) None n b = if decide (0 < n < 16) then Some (b ^ n) else None.
Proof.
  intros Hp.
  case_decide as Hn.
  - assert (n = 1 \/ n = 2 \/ n = 3 \/ n = 4 \/ n = 5 \/ n = 6 \/ n = 7 \/ n = 8 \/ n = 9 \/ n = 10 \/ n = 11 \/ n = 12 \/ n = 13 \/ n = 14 \/ n = 15) as Hc by lia.
    repeat destruct Hc as [-> | Hc]; [..|rewrite Hc]; cbn -[Z.mul Z.pow]; apply (f_equal Some); ring.
  - unfold FixedPow. destruct (Z.leb_spec 16 n), (Z.eqb_spec n 0); try done; lia.
Qed.

(** A multiple of [2^34] is taken for zero in the seconds where the integer is [2^30]. *)
Lemma large_taken_for_zero : get_randaom 737804154 = 2 ^ 30 /\ zero_shown 737804154 (2 ^ 34) = true.
Proof. split; vm_compute; reflexivity. Qed.

(** Of three equal integers in a row, two are left. *)
Lemma triple_survives x : dedup_rows 3 (seq 0 3) 0 [x; x; x] = ([x; x], 1%nat).
Proof. cbn. by rewrite Z.eqb_refl. Qed.

Definition sample_ints (v : list Z) : trip (list si64Matrix) :=
  let A x := reshare 0 (Mat 1 1 [x]) in Trip ((fun x => at0 (A x)) <$> v) ((fun x => at1 (A x)) <$> v) ((fun x => at2 (A x)) <$> v).

Lemma sample_ints_hold v : Forall in_bound v -> holds_ints (sample_ints v) v.
Proof.
  intros Hb. split; [by cbn; rewrite !length_fmap|]. intros k x Hx. exists (reshare 0 (Mat 1 1 [x])). cbn. rewrite !list_lookup_fmap, Hx.
  split_and!; [done..|]. apply reshare_shares; [done|]. constructor; [|constructor]. assert (in_bound x) by (by eapply Forall_lookup_1).
  unfold in_bound in *. apply in_i64_spec. lia.
Qed.

Lemma sort_sorts_witness : let X := sample_ints [5; -3; 4] in
  exists Y w q, run3 9 (sort (fun _ _ => 1700000000) fresh_piecewise (at0 X) 3 (at0 X)) (sort (fun _ _ => 1700000000) fresh_piecewise (at1 X) 3 (at1 X))
      (sort (fun _ _ => 1700000000) fresh_piecewise (at2 X) 3 (at2 X)) =
      Some (Trip (Ret (1, at0 Y ++ [], at0 q)) (Ret (1, at1 Y ++ [], at1 q)) (Ret (1, at2 Y ++ [], at2 q))) /\
    holds_ints Y w /\ StronglySorted Z.le w /\ w ≡ₚ [5; -3; 4].
Proof.
  intros X. apply (sort_sorts (fun _ _ => 1700000000) 3 X [5; -3; 4] fresh_piecewise fresh_piecewise fresh_piecewise (at0 X) (at1 X) (at2 X) 9).
  - apply sample_ints_hold. repeat constructor.
  - repeat constructor.
  - reflexivity.
  - reflexivity.
  - reflexivity.
  - cbn. lia.
Defined.
