(* ===== verification/ExprParse.v ===== *)
(** * The expression parser of the MPC executor

    Models [parseExpress], [checkExpress], [isOperator], [Priority] and
    [importExpress] of [executor/express.cc]: an infix string becomes a stack of
    tokens that reads, from its top, as the suffix (postfix) form.  A string is
    its list of characters; a [std::stack] is a list with its top first.  The
    loops move an index over the string, so the model carries the character
    before the index ([None] at index 0) and the characters from the index on.
    Reading past the terminating null of the string is [Undef]. *)

From Stdlib Require Import Ascii String ZArith Lia.
From stdpp Require Import base tactics list option strings.
From S2P Require Import Prelude Machine.



(** ** Character classes and priorities *)

Definition isOperator (op : ascii) : bool :=
  if decide (op = "+"%char \/ op = "-"%char \/ op = "*"%char \/ op = "/"%char) then true else false.

(** [isOperator(const std::string &)]. *)
Definition isOperatorStr (op : str) : bool :=
  if decide (op = ["+"%char]) then true
  else if decide (op = ["-"%char]) then true
  else if decide (op = ["*"%char]) then true
  else if decide (op = ["/"%char]) then true
  else false.

Definition Priority (c : ascii) : nat :=
  if decide (c = "+"%char) then 1
  else if decide (c = "-"%char) then 1
  else if decide (c = "*"%char) then 2
  else if decide (c = "/"%char) then 2
  else 0.

(** [s.c_str()[0]]: the null character on an empty string. *)
Definition first_char (s : str) : ascii := default zero (head s).

(** ** The loops of [parseExpress] *)

(** [while (!isOperator(expr[i])) { temp += expr[i]; i++; }].  The terminating
    null is not an operator, so without one the loop leaves the string. *)
Fixpoint take_until_op (rest : str) : res (str * str) :=
  match rest with
  | [] => Undef
  | c :: rest' =>
      if isOperator c then Ret ([], rest)
      else '(w, r) ← take_until_op rest'; Ret (c :: w, r)
  end.

(** [while (expr[i] != ')') { temp += expr[i]; i++; }]. *)
Fixpoint take_until_close (rest : str) : res (str * str) :=
  match rest with
  | [] => Undef
  | c :: rest' =>
      if decide (c = ")"%char) then Ret ([], rest)
      else '(w, r) ← take_until_close rest'; Ret (c :: w, r)
  end.

(** The parser's variables: [temp], [suffix_stk_] and [stk2]. *)
Record parser := { temp : str; suffix_stk : list str; stk2 : list str }.

(** [if (!temp.empty()) { stk2.push(temp); temp.clear(); }] *)
Definition flush (st : parser) : parser :=
  match temp st with
  | [] => st
  | t => {| temp := []; suffix_stk := suffix_stk st; stk2 := t :: stk2 st |}
  end.

(** The [while (1)] of the operator case: pop operators of no lower priority,
    then push [c]. *)
Fixpoint push_operator (c : ascii) (stk out : list str) : list str * list str :=
  match stk with
  | [] => ([[c]], out)
  | top :: stk' =>
      if decide (first_char top = "("%char) then ([c] :: stk, out)
      else if decide (Priority (first_char top) < Priority c) then ([c] :: stk, out)
      else push_operator c stk' (top :: out)
  end.

(** The [while] of the closing-bracket case; [temp] is pushed by its first
    turn only. *)
Fixpoint pop_to_open (stk out : list str) : list str * list str :=
  match stk with
  | [] => ([], out)
  | top :: stk' =>
      if decide (first_char top = "("%char) then (stk, out)
      else pop_to_open stk' (top :: out)
  end.

Definition close_bracket (st : parser) : parser :=
  let st := match suffix_stk st with
            | top :: _ => if decide (first_char top = "("%char) then st else flush st
            | [] => st
            end in
  let '(stk, out) := pop_to_open (suffix_stk st) (stk2 st) in
  {| temp := temp st; suffix_stk := tail stk; stk2 := out |}.

(** The character at the index, other than a sign. *)
Definition parse_char (c : ascii) (st : parser) : parser :=
  if isOperator c then
    let st := flush st in
    let '(stk, out) := push_operator c (suffix_stk st) (stk2 st) in
    {| temp := temp st; suffix_stk := stk; stk2 := out |}
  else if decide (c = "("%char) then
    {| temp := temp st; suffix_stk := [c] :: suffix_stk st; stk2 := stk2 st |}
  else if decide (c = ")"%char) then close_bracket st
  else {| temp := temp st ++ [c]; suffix_stk := suffix_stk st; stk2 := stk2 st |}.

Definition last_char (prev : option ascii) (w : str) : option ascii :=
  match last w with Some c => Some c | None => prev end.

Definition add_temp (w : str) (st : parser) : parser :=
  {| temp := temp st ++ w; suffix_stk := suffix_stk st; stk2 := stk2 st |}.

(** The [for] loop.  Every turn moves the index by one or more, so as many
    turns as characters are enough; [parse_loop_fuel] proves it. *)
Fixpoint parse_loop (fuel : nat) (prev : option ascii) (rest : str) (st : parser) : res parser :=
  match fuel with
  | O => Undef
  | S k =>
      match rest with
      | [] => Ret (flush st)
      | c :: rest' =>
          if decide (c = "-"%char /\ prev = None) then
            '(w, r) ← take_until_op rest';
            parse_loop k (last_char (Some c) w) r (add_temp (c :: w) st)
          else if decide (c = "-"%char /\ prev = Some "("%char) then
            '(w, r) ← take_until_close rest';
            parse_loop k (last_char (Some c) w) r (add_temp (c :: w) st)
          else parse_loop k (Some c) rest' (parse_char c st)
      end
  end.

(** The whole function, from the executor's [suffix_stk_] to its new value. *)
Definition parseExpress (expr : str) (suffix_stk_ : list str) : res (list str) :=
  st ← parse_loop (S (length expr)) None expr
         {| temp := []; suffix_stk := suffix_stk_; stk2 := [] |};
  Ret (rev (stk2 st) ++ suffix_stk st).

(** ** The checks on the suffix form *)

(** The operator counter is a [uint16_t]. *)
Definition count_operators (l : list str) : Z :=
  Z.of_nat (length (filter (fun s => isOperatorStr s = true) l)) `mod` 2 ^ 16.

Definition checkExpress (suffix_stk_ : list str) : bool :=
  if existsb (fun s => bool_decide (s = ["("%char] \/ s = [")"%char])) suffix_stk_ then false
  else
    let num_op := count_operators suffix_stk_ in
    if negb (Z.of_nat (length suffix_stk_) - num_op =? num_op + 1)%Z then false
    else negb (existsb (fun s => bool_decide ("("%char ∈ s \/ ")"%char ∈ s)) suffix_stk_).

(** [importExpress]: the new [suffix_stk_], and [expr_] when it is accepted. *)
Definition importExpress (expr : str) (suffix_stk_ : list str) : res (list str * option str) :=
  stk ← parseExpress expr suffix_stk_;
  Ret (stk, if checkExpress stk then Some expr else None).

(** ** The grammar the parser is meant for

    Sums of terms, products of factors, a factor being a name or number, a
    negated one in brackets, or a bracketed expression; operators of one
    priority associate to the left. *)
Inductive fac :=
| FAtom (a : str)
| FNeg (a : str)
| FParen (e : exp)
with trm :=
| TFac (f : fac)
| TMul (t : trm) (op : ascii) (f : fac)
with exp :=
| ETrm (t : trm)
| EAdd (e : exp) (op : ascii) (t : trm).

(** The concrete syntax. *)
Fixpoint print_fac (f : fac) : str :=
  match f with
  | FAtom a => a
  | FNeg a => "("%char :: "-"%char :: a ++ [")"%char]
  | FParen e => "("%char :: print_exp e ++ [")"%char]
  end
with print_trm (t : trm) : str :=
  match t with
  | TFac f => print_fac f
  | TMul t op f => print_trm t ++ op :: print_fac f
  end
with print_exp (e : exp) : str :=
  match e with
  | ETrm t => print_trm t
  | EAdd e op t => print_exp e ++ op :: print_trm t
  end.

(** The suffix form. *)
Fixpoint post_fac (f : fac) : list str :=
  match f with
  | FAtom a => [a]
  | FNeg a => ["-"%char :: a]
  | FParen e => post_exp e
  end
with post_trm (t : trm) : list str :=
  match t with
  | TFac f => post_fac f
  | TMul t op f => post_trm t ++ post_fac f ++ [[op]]
  end
with post_exp (e : exp) : list str :=
  match e with
  | ETrm t => post_trm t
  | EAdd e op t => post_exp e ++ post_trm t ++ [[op]]
  end.

Definition name_char (c : ascii) : Prop :=
  isOperator c = false /\ c <> "("%char /\ c <> ")"%char.
Definition atom_ok (a : str) : Prop := a <> [] /\ Forall name_char a.
Definition add_op (c : ascii) : Prop := c = "+"%char \/ c = "-"%char.
Definition mul_op (c : ascii) : Prop := c = "*"%char \/ c = "/"%char.

Fixpoint fac_ok (f : fac) : Prop :=
  match f with FAtom a | FNeg a => atom_ok a | FParen e => exp_ok e end
with trm_ok (t : trm) : Prop :=
  match t with TFac f => fac_ok f | TMul t op f => trm_ok t /\ mul_op op /\ fac_ok f end
with exp_ok (e : exp) : Prop :=
  match e with ETrm t => trm_ok t | EAdd e op t => exp_ok e /\ add_op op /\ trm_ok t end.

Scheme fac_ind3 := Induction for fac Sort Prop
  with trm_ind3 := Induction for trm Sort Prop
  with exp_ind3 := Induction for exp Sort Prop.
Combined Scheme syntax_ind from fac_ind3, trm_ind3, exp_ind3.

Example parse_ex :
  parseExpress "(A*B-C)/(-2)+D" [] = Ret (chars <$> ["A"; "B"; "*"; "C"; "-"; "-2"; "/"; "D"; "+"]%string).
Proof. vm_compute. reflexivity. Qed.

(** ** The fuel of the loop is enough *)

Lemma take_until_op_length rest w r : take_until_op rest = Ret (w, r) -> length r <= length rest.
Proof.
  revert w r. induction rest as [|c rest IH]; intros w r H; simpl in *; [done|].
  destruct (isOperator c); [by simplify_eq|].
  destruct (take_until_op rest) as [[w' r']| |]; simplify_eq/=. specialize (IH _ _ eq_refl). lia.
Qed.

Lemma take_until_close_length rest w r : take_until_close rest = Ret (w, r) -> length r <= length rest.
Proof.
  revert w r. induction rest as [|c rest IH]; intros w r H; simpl in *; [done|].
  case_decide; [by simplify_eq|].
  destruct (take_until_close rest) as [[w' r']| |]; simplify_eq/=. specialize (IH _ _ eq_refl). lia.
Qed.

Lemma parse_loop_fuel f1 f2 prev rest st :
  length rest < f1 -> length rest < f2 -> parse_loop f1 prev rest st = parse_loop f2 prev rest st.
Proof.
  revert f2 prev rest st. induction f1 as [|f1 IH]; intros [|f2] prev rest st H1 H2; [lia..|].
  cbn [parse_loop]. destruct rest as [|c rest]; [done|]. simpl in *.
  case_decide; [|case_decide; [|apply IH; lia]].
  - destruct (take_until_op rest) as [[w r]| |] eqn:E; simpl; [|done..].
    apply take_until_op_length in E. apply IH; lia.
  - destruct (take_until_close rest) as [[w r]| |] eqn:E; simpl; [|done..].
    apply take_until_close_length in E. apply IH; lia.
Qed.

(** The loop run to the end of the string. *)
Definition run (prev : option ascii) (rest : str) (st : parser) : res parser :=
  parse_loop (S (length rest)) prev rest st.

Lemma run_nil prev st : run prev [] st = Ret (flush st).
Proof. done. Qed.

Lemma parse_loop_cons k prev c rest st :
  parse_loop (S k) prev (c :: rest) st =
    if decide (c = "-"%char /\ prev = None) then
      '(w, r) ← take_until_op rest;
      parse_loop k (last_char (Some c) w) r (add_temp (c :: w) st)
    else if decide (c = "-"%char /\ prev = Some "("%char) then
      '(w, r) ← take_until_close rest;
      parse_loop k (last_char (Some c) w) r (add_temp (c :: w) st)
    else parse_loop k (Some c) rest (parse_char c st).
Proof. done. Qed.

Lemma run_char prev c rest st :
  (c <> "-"%char \/ (prev <> None /\ prev <> Some "("%char)) ->
  run prev (c :: rest) st = run (Some c) rest (parse_char c st).
Proof.
  intros H. unfold run. rewrite parse_loop_cons, !decide_False by naive_solver.
  apply parse_loop_fuel; simpl; lia.
Qed.

Lemma run_neg w rest st :
  Forall (fun c => c <> ")"%char) w ->
  run (Some "("%char) ("-"%char :: w ++ ")"%char :: rest) st
    = run (last_char (Some "-"%char) w) (")"%char :: rest) (add_temp ("-"%char :: w) st).
Proof.
  intros Hw. unfold run. rewrite parse_loop_cons.
  rewrite decide_False by naive_solver. rewrite decide_True by done.
  assert (E : take_until_close (w ++ ")"%char :: rest) = Ret (w, ")"%char :: rest)).
  { induction Hw as [|c w Hc Hw IH]; simpl; [done|]. rewrite decide_False by done. by rewrite IH. }
  rewrite E. cbn [mbind res_bind]. apply parse_loop_fuel; simpl; rewrite ?length_app; simpl; lia.
Qed.

(** ** What each phrase does to the parser *)

(** The tokens produced so far, with the pending one. *)
Definition produced (st : parser) : list str :=
  rev (stk2 st) ++ match temp st with [] => [] | t => [t] end.

(** An index past a complete phrase: a following sign is an operator. *)
Definition past (prev : option ascii) : Prop := prev <> None /\ prev <> Some "("%char.

Definition operator (c : ascii) : Prop := add_op c \/ mul_op c.

Lemma operator_is c : operator c -> isOperator c = true /\ c <> "("%char.
Proof. intros [[-> | ->]|[-> | ->]]; done. Qed.

Lemma flush_produced st : produced (flush st) = produced st /\ temp (flush st) = [] /\
  suffix_stk (flush st) = suffix_stk st.
Proof.
  unfold flush, produced. destruct st as [[|c t] s o]; simpl; [done|].
  rewrite <- app_assoc. done.
Qed.

(** The operators waiting below bind less than priority [k]. *)
Definition low (k : nat) (stk : list str) : Prop :=
  forall top stk', stk = top :: stk' -> first_char top = "("%char \/ Priority (first_char top) < k.

(** Popping operators of no lower priority than the incoming one. *)
Lemma push_operator_pop c ops stk out :
  Forall (fun o => exists d, o = [d] /\ operator d /\ Priority c <= Priority d) ops ->
  low (Priority c) stk ->
  push_operator c (ops ++ stk) out = ([c] :: stk, rev ops ++ out).
Proof.
  intros Hops Hstk. revert out. induction Hops as [|o ops (d & -> & Hd & Hp) Hops IH]; intros out; simpl.
  - destruct stk as [|top stk]; [done|]. simpl.
    destruct (Hstk _ _ eq_refl) as [E|E]; case_decide; try done. by rewrite decide_True.
  - destruct (operator_is d Hd). change (first_char [d]) with d.
    rewrite !decide_False by (done || lia). rewrite IH, <- app_assoc. done.
Qed.

Lemma parse_operator c ops stk st :
  operator c -> suffix_stk st = ops ++ stk ->
  Forall (fun o => exists d, o = [d] /\ operator d /\ Priority c <= Priority d) ops ->
  low (Priority c) stk ->
  temp (parse_char c st) = [] /\ suffix_stk (parse_char c st) = [c] :: stk /\
  produced (parse_char c st) = produced st ++ ops.
Proof.
  intros Hc Es Hops Hstk. destruct (operator_is c Hc) as [Hop _].
  unfold parse_char. rewrite Hop. destruct (flush_produced st) as (Ep & Et & Ef).
  rewrite Ef, Es, push_operator_pop by done. simpl. rewrite Et.
  repeat split. rewrite <- Ep. unfold produced. simpl. rewrite Et, !app_nil_r, rev_app_distr, rev_involutive.
  done.
Qed.

Lemma run_atom a prev rest st :
  Forall name_char a -> a <> [] ->
  exists prev', past prev' /\ run prev (a ++ rest) st = run prev' rest (add_temp a st).
Proof.
  intros Ha. revert prev st. induction Ha as [|c a (Hop & Ho & Hc) Ha IH]; intros prev st Hne; [done|].
  assert (Hm : c <> "-"%char) by (intros ->; done).
  assert (E : run prev ((c :: a) ++ rest) st = run (Some c) (a ++ rest) (add_temp [c] st)).
  { simpl. rewrite run_char by auto. f_equal. unfold parse_char.
    rewrite Hop. by rewrite !decide_False by done. }
  rewrite E. destruct a as [|c' a].
  - exists (Some c). split; [split; congruence|]. done.
  - destruct (IH (Some c) (add_temp [c] st)) as (prev' & Hp & ->); [done|].
    exists prev'. split; [done|]. f_equal. unfold add_temp. simpl. by rewrite <- app_assoc.
Qed.

Lemma pop_to_open_ops ops stk out :
  Forall (fun o => exists d, o = [d] /\ operator d) ops ->
  pop_to_open (ops ++ ["("%char] :: stk) out = (["("%char] :: stk, rev ops ++ out).
Proof.
  intros Hops. revert out. induction Hops as [|o ops (d & -> & Hd) Hops IH]; intros out; simpl.
  - done.
  - destruct (operator_is d Hd). change (first_char [d]) with d. rewrite decide_False by done.
    rewrite IH, <- app_assoc. done.
Qed.

Lemma parse_close ops stk st :
  suffix_stk st = ops ++ ["("%char] :: stk ->
  Forall (fun o => exists d, o = [d] /\ operator d) ops ->
  suffix_stk (parse_char ")"%char st) = stk /\
  produced (parse_char ")"%char st) = produced st ++ ops.
Proof.
  intros Es Hops. change (parse_char ")"%char st) with (close_bracket st).
  unfold close_bracket. rewrite Es. destruct Hops as [|o ops (d & -> & Hd) Hops]; simpl.
  - rewrite Es. simpl. rewrite app_nil_r. done.
  - destruct (operator_is d Hd). change (first_char [d]) with d. rewrite decide_False by done.
    destruct (flush_produced st) as (Ep & Et & Ef). rewrite Ef, Es.
    change (([d] :: ops) ++ ["("%char] :: stk) with ([[d]] ++ (ops ++ ["("%char] :: stk)) in *.
    rewrite app_assoc, pop_to_open_ops by (constructor; [by exists d|done]). simpl.
    split; [done|]. rewrite <- Ep. unfold produced. simpl.
    rewrite Et, !app_nil_r, !rev_app_distr, rev_involutive. simpl. rewrite <- ?app_assoc. done.
Qed.

(** Operators of priority at least [k], one per slot. *)
Definition ops_ge (k : nat) (ops : list str) : Prop :=
  Forall (fun o => exists d, o = [d] /\ operator d /\ k <= Priority d) ops.

Lemma ops_ge_operators k ops : ops_ge k ops -> Forall (fun o => exists d, o = [d] /\ operator d) ops.
Proof. intros H. eapply Forall_impl; [exact H|]. naive_solver. Qed.

Lemma add_op_facts c : add_op c -> operator c /\ Priority c = 1.
Proof. intros H. split; [by left|]. by destruct H as [-> | ->]. Qed.

Lemma mul_op_facts c : mul_op c -> operator c /\ Priority c = 2.
Proof. intros H. split; [by right|]. by destruct H as [-> | ->]. Qed.

(** A phrase that leaves operators of priority at least [k] waiting. *)
Definition phrase_run (k : nat) (w : str) (out : list str) : Prop :=
  forall prev rest st, temp st = [] -> low k (suffix_stk st) ->
  exists prev' st' ops, past prev' /\ run prev (w ++ rest) st = run prev' rest st' /\
    suffix_stk st' = ops ++ suffix_stk st /\ ops_ge k ops /\ produced st' ++ ops = produced st ++ out.

(** A factor leaves the operator stack alone. *)
Definition fac_run (w : str) (out : list str) : Prop :=
  forall prev rest st, temp st = [] ->
  exists prev' st', past prev' /\ run prev (w ++ rest) st = run prev' rest st' /\
    suffix_stk st' = suffix_stk st /\ produced st' = produced st ++ out.

Lemma produced_add_temp w st : temp st = [] -> w <> [] -> produced (add_temp w st) = produced st ++ [w].
Proof.
  intros Ht Hw. unfold produced, add_temp. simpl. rewrite Ht, app_nil_r. simpl. by destruct w.
Qed.

Lemma produced_no_temp st : temp st = [] -> produced st = rev (stk2 st).
Proof. intros Ht. unfold produced. by rewrite Ht, app_nil_r. Qed.

Lemma open_bracket st : temp st = [] ->
  temp (parse_char "("%char st) = [] /\ suffix_stk (parse_char "("%char st) = ["("%char] :: suffix_stk st /\
  produced (parse_char "("%char st) = produced st.
Proof. intros Ht. unfold parse_char, produced. simpl. by rewrite Ht. Qed.

Lemma run_fatom a : atom_ok a -> fac_run a [a].
Proof.
  intros [Hne Ha] prev rest st Ht.
  destruct (run_atom a prev rest st Ha Hne) as (prev' & Hp & E).
  exists prev', (add_temp a st). rewrite produced_add_temp by done. done.
Qed.

Lemma run_fneg a : atom_ok a -> fac_run ("("%char :: "-"%char :: a ++ [")"%char]) ["-"%char :: a].
Proof.
  intros [Hne Ha] prev rest st Ht. destruct (open_bracket st Ht) as (Ho1 & Ho2 & Ho3).
  set (st1 := parse_char "("%char st) in *.
  destruct (parse_close [] (suffix_stk st) (add_temp ("-"%char :: a) st1)) as [Hs Hp]; [done|constructor|].
  exists (Some ")"%char), (parse_char ")"%char (add_temp ("-"%char :: a) st1)).
  split; [split; congruence|]. split.
  - simpl. rewrite <- app_assoc. simpl. rewrite run_char by (left; done). fold st1.
    rewrite run_neg by (eapply Forall_impl; [exact Ha|unfold name_char; naive_solver]).
    rewrite run_char by (left; done). done.
  - split; [done|]. rewrite Hp, app_nil_r, produced_add_temp, Ho3 by done. done.
Qed.

Lemma run_fparen w out : phrase_run 1 w out -> fac_run ("("%char :: w ++ [")"%char]) out.
Proof.
  intros IH prev rest st Ht. destruct (open_bracket st Ht) as (Ho1 & Ho2 & Ho3).
  set (st1 := parse_char "("%char st) in *.
  destruct (IH (Some "("%char) ([")"%char] ++ rest) st1 Ho1) as (prev' & st' & ops & Hp & Er & Es & Hops & Ep).
  { intros top stk' E. left. rewrite Ho2 in E. by simplify_eq. }
  rewrite Ho2 in Es.
  destruct (parse_close ops (suffix_stk st) st') as [Hs Hpr]; [done|by eapply ops_ge_operators|].
  exists (Some ")"%char), (parse_char ")"%char st'). split; [split; congruence|]. split.
  - simpl. rewrite <- app_assoc, run_char by (left; done). fold st1. rewrite Er. simpl.
    rewrite run_char by (left; done). done.
  - by rewrite Hpr, Ep, Ho3.
Qed.

Lemma run_tfac k w out : fac_run w out -> phrase_run k w out.
Proof.
  intros IH prev rest st Ht _. destruct (IH prev rest st Ht) as (prev' & st' & Hp & Er & Es & Ep).
  exists prev', st', []. rewrite app_nil_r. repeat split; try done; try apply Hp. constructor.
Qed.

Lemma ops_ge_weaken k k' ops : k' <= k -> ops_ge k ops -> ops_ge k' ops.
Proof. intros Hk H. eapply Forall_impl; [exact H|]. naive_solver lia. Qed.

Lemma phrase_run_mono k k' w out : k' <= k -> phrase_run k w out -> phrase_run k' w out.
Proof.
  intros Hk IH prev rest st Ht Hlow. destruct (IH prev rest st Ht) as (p' & st' & ops & H1 & H2 & H3 & H4 & H5).
  { intros top stk' Es. destruct (Hlow top stk' Es); [by left|right; lia]. }
  exists p', st', ops. split; [done|]. split; [done|]. split; [done|]. split; [|done].
  by apply (ops_ge_weaken k).
Qed.

(** A binary operator between a phrase and the next operand. *)
Lemma run_binop k w1 w2 out1 out2 c :
  operator c -> Priority c = k -> phrase_run k w1 out1 ->
  phrase_run (S k) w2 out2 ->
  phrase_run k (w1 ++ c :: w2) (out1 ++ out2 ++ [[c]]).
Proof.
  intros Hc Hk IH1 IH2 prev rest st Ht Hlow.
  destruct (IH1 prev ((c :: w2) ++ rest) st Ht Hlow) as (p1 & st1 & ops1 & Hp1 & Er1 & Es1 & Hops1 & Ep1).
  destruct (parse_operator c ops1 (suffix_stk st) st1) as (Ht2 & Es2 & Ep2);
    [done|done|by rewrite Hk|by rewrite Hk|].
  destruct (IH2 (Some c) rest (parse_char c st1) Ht2) as (p3 & st3 & ops3 & Hp3 & Er3 & Es3 & Hops3 & Ep3).
  { intros top stk' E. rewrite Es2 in E. simplify_eq. right. change (first_char [c]) with c. lia. }
  exists p3, st3, (ops3 ++ [[c]]). split; [done|]. split.
  - rewrite <- app_assoc, Er1. simpl. rewrite run_char by (right; exact Hp1). done.
  - rewrite Es3, Es2, <- app_assoc. split; [done|]. split.
    + apply Forall_app. split; [by apply (ops_ge_weaken (S k)); [lia|]|]. constructor; [|constructor]. exists c. split; [done|]. split; [done|lia].
    + by rewrite app_assoc, Ep3, Ep2, Ep1, !app_assoc.
Qed.

Lemma phrases_run :
  (forall f, fac_ok f -> fac_run (print_fac f) (post_fac f)) /\
  (forall t, trm_ok t -> phrase_run 2 (print_trm t) (post_trm t)) /\
  (forall e, exp_ok e -> phrase_run 1 (print_exp e) (post_exp e)).
Proof.
  apply syntax_ind; simpl.
  - apply run_fatom.
  - apply run_fneg.
  - intros e IH He. by apply run_fparen, IH.
  - intros f IH Hf. by apply run_tfac, IH.
  - intros t IHt op f IHf (Ht & Hop & Hf). destruct (mul_op_facts op Hop).
    apply run_binop; [done|done|by apply IHt|by apply run_tfac, IHf].
  - intros t IH Ht. apply (phrase_run_mono 2); [lia|by apply IH].
  - intros e IHe op t IHt (He & Hop & Ht). destruct (add_op_facts op Hop).
    apply run_binop; [done|done|by apply IHe|by apply IHt].
Qed.

Lemma parse_print e : exp_ok e -> parseExpress (print_exp e) [] = Ret (post_exp e).
Proof.
  intros He. destruct phrases_run as (_ & _ & H).
  destruct (H e He None [] {| temp := []; suffix_stk := []; stk2 := [] |}) as
    (prev' & st' & ops & Hp & Er & Es & _ & Ep); [done|by intros ? ?|].
  rewrite app_nil_r in Er. unfold parseExpress. unfold run at 1 in Er. rewrite Er, run_nil.
  simpl. f_equal. destruct (flush_produced st') as (Ef & Et & Esf).
  rewrite Esf, Es, app_nil_r. simpl in Ep. rewrite <- Ep, <- Ef, produced_no_temp by done. done.
Qed.

(** ** The checks accept every suffix form of the grammar *)

Definition token_ok (s : str) : Prop := Forall (fun c => c <> "("%char /\ c <> ")"%char) s.
Definition nops (l : list str) : nat := length (filter (fun s => isOperatorStr s = true) l).

Lemma isOperatorStr_op d : operator d -> isOperatorStr [d] = true.
Proof. by intros [[-> | ->]|[-> | ->]]. Qed.

Lemma isOperatorStr_atom a : atom_ok a -> isOperatorStr a = false /\ isOperatorStr ("-"%char :: a) = false.
Proof.
  intros [Hne Ha]. destruct a as [|c a]; [done|]. apply Forall_cons in Ha as [(Hc & _) _].
  unfold isOperatorStr. split; repeat case_decide; simplify_eq; done.
Qed.

Lemma nops_app l1 l2 : nops (l1 ++ l2) = nops l1 + nops l2.
Proof. unfold nops. by rewrite filter_app, length_app. Qed.

Lemma nops_one s : nops [s] = if isOperatorStr s then 1 else 0.
Proof. unfold nops. rewrite filter_cons, filter_nil. by destruct (isOperatorStr s). Qed.

(** One more operand than operators, and no bracket in any token. *)
Definition balanced (l : list str) : Prop := length l = 2 * nops l + 1 /\ Forall token_ok l.

Lemma balanced_atom a : atom_ok a -> balanced [a] /\ balanced ["-"%char :: a].
Proof.
  intros Ha. destruct (isOperatorStr_atom a Ha) as [E1 E2]. destruct Ha as [_ Ha].
  assert (Ht : token_ok a) by (eapply Forall_impl; [exact Ha|unfold name_char; naive_solver]).
  unfold balanced. rewrite !nops_one, E1, E2. repeat split; repeat constructor; done.
Qed.

Lemma balanced_binop l1 l2 d : balanced l1 -> balanced l2 -> operator d -> balanced (l1 ++ l2 ++ [[d]]).
Proof.
  intros [E1 H1] [E2 H2] Hd. split.
  - rewrite !length_app, !nops_app, nops_one, isOperatorStr_op by done. simpl. lia.
  - repeat (apply Forall_app; split); try done. repeat constructor; by destruct Hd as [[-> | ->]|[-> | ->]].
Qed.

Lemma post_balanced :
  (forall f, fac_ok f -> balanced (post_fac f)) /\ (forall t, trm_ok t -> balanced (post_trm t)) /\
  (forall e, exp_ok e -> balanced (post_exp e)).
Proof.
  apply syntax_ind; simpl; try (intros; by apply balanced_atom); try tauto.
  - intros t IHt op f IHf (Ht & Hop & Hf). apply balanced_binop; [tauto..|by right].
  - intros e IHe op t IHt (He & Hop & Ht). apply balanced_binop; [tauto..|by left].
Qed.

Lemma balanced_check l : balanced l -> (Z.of_nat (nops l) < 2 ^ 16)%Z -> checkExpress l = true.
Proof.
  intros [El Hl] Hn. unfold checkExpress, count_operators. fold (nops l).
  rewrite Z.mod_small by lia.
  assert (H1 : existsb (fun s => bool_decide (s = ["("%char] \/ s = [")"%char])) l = false).
  { clear El Hn. induction Hl as [|s l Hs Hl IH]; simpl; [done|]. rewrite IH, orb_false_r.
    apply bool_decide_eq_false. intros [-> | ->]; apply Forall_cons in Hs as [[] _]; done. }
  assert (H2 : existsb (fun s => bool_decide ("("%char ∈ s \/ ")"%char ∈ s)) l = false).
  { clear El Hn H1. induction Hl as [|s l Hs Hl IH]; simpl; [done|]. rewrite IH, orb_false_r.
    apply bool_decide_eq_false. unfold token_ok in Hs. rewrite Forall_forall in Hs.
    intros [H|H]; destruct (Hs _ H); done. }
  rewrite H1, H2. destruct (Z.eqb_spec (Z.of_nat (length l) - Z.of_nat (nops l)) (Z.of_nat (nops l) + 1)); [done|lia].
Qed.

(** ** Properties of the parser *)

(** C9: for every expression of the grammar (left-associative sums and
    products, brackets, bracketed negative constants) with fewer than 65536
    operators, importing its text into a fresh executor succeeds and leaves
    exactly its suffix form on the stack. *)
Theorem express_parse_correct e :
  exp_ok e -> (Z.of_nat (nops (post_exp e)) < 2 ^ 16)%Z ->
  importExpress (print_exp e) [] = Ret (post_exp e, Some (print_exp e)).
Proof.
  intros He Hn. unfold importExpress. rewrite parse_print by done. cbn [mbind res_bind].
  rewrite balanced_check; [done| |done]. by apply post_balanced.
Qed.

(** [(A*B-C)/(-2)+D] *)
Definition sample_exp : exp :=
  EAdd (ETrm (TMul (TFac (FParen (EAdd (ETrm (TMul (TFac (FAtom "A")) "*" (FAtom "B"))) "-" (TFac (FAtom "C")))))
                   "/" (FNeg "2"))) "+" (TFac (FAtom "D")).

Lemma sample_exp_ok : exp_ok sample_exp.
Proof.
  assert (Ha : forall c : ascii, isOperator c = false -> c <> "("%char -> c <> ")"%char -> atom_ok [c]).
  { intros c H1 H2 H3. split; [done|]. by repeat constructor. }
  simpl. unfold mul_op, add_op. repeat split; try apply Ha; done || (by left) || (by right).
Qed.

Lemma express_parse_correct_witness :
  importExpress "(A*B-C)/(-2)+D" [] =
    Ret (chars <$> ["A"; "B"; "*"; "C"; "-"; "-2"; "/"; "D"; "+"]%string, Some (chars "(A*B-C)/(-2)+D")).
Proof. apply (express_parse_correct sample_exp); [apply sample_exp_ok|vm_compute; reflexivity]. Defined.

(** Every sign in [rest] has a character other than an opening bracket before it. *)
Fixpoint no_sign (prev : option ascii) (rest : str) : Prop :=
  match rest with
  | [] => True
  | c :: rest' => (c = "-"%char -> past prev) /\ no_sign (Some c) rest'
  end.

Lemma run_no_sign prev rest st : no_sign prev rest -> exists st', run prev rest st = Ret st'.
Proof.
  revert prev st. induction rest as [|c rest IH]; intros prev st H; [by eexists|].
  destruct H as [H1 H2]. rewrite run_char by (destruct (decide (c = "-"%char)); [right; by apply H1|by left]).
  by apply IH.
Qed.

(** C34: on any text whose minus signs are all binary the parser terminates
    without undefined behaviour, whatever the stack held before; a leading minus
    whose operand is not followed by an operator makes it read past the end of
    the text. *)
Theorem express_parse_termination expr stk :
  (no_sign None expr -> exists r, importExpress expr stk = Ret r) /\
  (forall a, Forall (fun c => isOperator c = false) a -> importExpress ("-"%char :: a) stk = Undef).
Proof.
  split.
  - intros H. unfold importExpress, parseExpress.
    destruct (run_no_sign None expr {| temp := []; suffix_stk := stk; stk2 := [] |} H) as [st' E].
    unfold run in E. rewrite E. by eexists.
  - intros a Ha. unfold importExpress, parseExpress.
    assert (E : take_until_op a = Undef).
    { induction Ha as [|c a Hc Ha IH]; simpl; [done|]. by rewrite Hc, IH. }
    simpl. by rewrite E.
Qed.

Lemma express_parse_termination_witness :
  (exists r, importExpress "A+B*C" [] = Ret r) /\ importExpress "-5" [] = Undef.
Proof.
  split; [apply (proj1 (express_parse_termination "A+B*C" []))|apply (proj2 (express_parse_termination "" []) "5")].
  - simpl. unfold past. repeat split; done.
  - repeat constructor.
Defined.

(** an unmatched closing bracket is accepted and acts as if the text before
    it were bracketed, and a text whose operator precedes both operands is
    accepted although its suffix form applies the operator to one operand. *)
Theorem express_check_misses :
  importExpress "A+B)*C" [] = Ret (chars <$> ["A"; "B"; "+"; "C"; "*"]%string, Some (chars "A+B)*C")) /\
  importExpress "+A)B" [] = Ret (chars <$> ["A"; "+"; "B"]%string, Some (chars "+A)B")).
Proof. vm_compute. done. Qed.
