(* ===== verification/ExprConfig.v ===== *)
(** * Columns and values of the MPC expression executor

    Models [ColumnConfig], [FeedDict], [TokenValue] and the configuration methods
    of [MPCExpressExecutor] in [executor/express.{h,cc}].  A [std::map] is a
    [gmap] keyed by the column name ([insert] keeps an existing entry); a method
    returns its [int] code with the new object; the pointers of the executor are
    [option]s and using a null one is [Undef]. *)

From Stdlib Require Import Ascii String ZArith Lia.
From stdpp Require Import base tactics list option gmap strings.
From S2P Require Import Prelude ModArith Machine Aby3Op ExprParse.

Local Open Scope Z_scope.

(** [std::map::insert]: an existing entry stays. *)
Definition map_insert {A} (k : str) (v : A) (m : gmap str A) : gmap str A :=
  match m !! k with Some _ => m | None => <[k := v]> m end.

(** ** ColumnConfig *)

Inductive ColDtype := INT64 | FP64.
#[export] Instance ColDtype_eq_dec : EqDecision ColDtype.
Proof. solve_decision. Defined.

Record ColumnConfig := {
  cc_party_id : Z;
  col_owner_ : gmap str Z;
  col_dtype_ : gmap str ColDtype;
  local_col_ : gmap str bool }.

Definition new_ColumnConfig (party_id : Z) : ColumnConfig :=
  {| cc_party_id := party_id; col_owner_ := ∅; col_dtype_ := ∅; local_col_ := ∅ |}.

Definition cc_importColumnDtype (c : ColumnConfig) (col_name : str) (dtype : ColDtype) : Z * ColumnConfig :=
  match col_dtype_ c !! col_name with
  | Some _ => (-1, c)
  | None => (0, {| cc_party_id := cc_party_id c; col_owner_ := col_owner_ c;
                   col_dtype_ := map_insert col_name dtype (col_dtype_ c); local_col_ := local_col_ c |})
  end.

Definition cc_importColumnOwner (c : ColumnConfig) (col_name : str) (party_id : Z) : res (Z * ColumnConfig) :=
  match col_owner_ c !! col_name with
  | Some _ => Throw
  | None => Ret (0, {| cc_party_id := cc_party_id c; col_owner_ := map_insert col_name party_id (col_owner_ c);
                       col_dtype_ := col_dtype_ c; local_col_ := local_col_ c |})
  end.

(** The [int] result is always 0: the failure is an exception. *)
Definition getColumnDtype (c : ColumnConfig) (col_name : str) : res (Z * ColDtype) :=
  match col_dtype_ c !! col_name with
  | None => Throw
  | Some dtype => Ret (0, dtype)
  end.

Definition resolveLocalColumn (c : ColumnConfig) : res (Z * ColumnConfig) :=
  if decide (size (col_dtype_ c) <> size (col_owner_ c)) then Throw
  else if decide (map_Forall (fun k _ => is_Some (col_dtype_ c !! k)) (col_owner_ c)) then
    Ret (0, {| cc_party_id := cc_party_id c; col_owner_ := col_owner_ c; col_dtype_ := col_dtype_ c;
               local_col_ := local_col_ c ∪ ((fun o => bool_decide (o = cc_party_id c)) <$> col_owner_ c) |})
  else Throw.

Definition getColumnLocality (c : ColumnConfig) (col_name : str) : res (Z * bool) :=
  match local_col_ c !! col_name with
  | None => Throw
  | Some is_local => Ret (0, is_local)
  end.

Definition hasFP64Column (c : ColumnConfig) : bool :=
  bool_decide (map_Exists (fun _ d => d = FP64) (col_dtype_ c)).

Definition cc_Clean (c : ColumnConfig) : ColumnConfig :=
  {| cc_party_id := cc_party_id c; col_owner_ := ∅; col_dtype_ := ∅; local_col_ := ∅ |}.

(** ** FeedDict

    [col_config_] points to the executor's configuration; the methods take it as
    an argument. *)

Record FeedDict := {
  float_run_ : bool;
  val_count_ : Z;
  fp64_col_ : gmap str (list double);
  int64_col_ : gmap str (list Z) }.

Definition new_FeedDict (float_run : bool) : FeedDict :=
  {| float_run_ := float_run; val_count_ := -1; fp64_col_ := ∅; int64_col_ := ∅ |}.

Definition set_count (f : FeedDict) (n : Z) : FeedDict :=
  {| float_run_ := float_run_ f; val_count_ := n; fp64_col_ := fp64_col_ f; int64_col_ := int64_col_ f |}.

Definition setOrCheckValueCount (f : FeedDict) (new_count : Z) : Z * FeedDict :=
  let f := if val_count_ f =? -1 then set_count f new_count else f in
  if val_count_ f =? new_count then (0, f) else (-1, f).

(** [importColumnValues(col_name, std::vector<double> &)]: code, object, and
    what is left in the caller's vector. *)
Definition importColumnValues_fp64 (c : ColumnConfig) (f : FeedDict) (col_name : str) (fp64_vec : list double)
  : res (Z * FeedDict * list double) :=
  '(ret, is_local) ← getColumnLocality c col_name;
  if ret <? 0 then Ret (-1, f, fp64_vec)
  else if negb is_local then Ret (-1, f, fp64_vec)
  else
    let '(rc, f) := setOrCheckValueCount f (Z.of_nat (length fp64_vec)) in
    if negb (rc =? 0) then Ret (-2, f, fp64_vec)
    else if negb (float_run_ f) then Ret (-1, f, fp64_vec)
    else match fp64_col_ f !! col_name with
         | Some _ => Ret (-2, f, fp64_vec)
         | None => Ret (0, {| float_run_ := float_run_ f; val_count_ := val_count_ f;
                              fp64_col_ := map_insert col_name fp64_vec (fp64_col_ f);
                              int64_col_ := int64_col_ f |}, [])
         end.

(** [importColumnValues(col_name, std::vector<int64_t> &)]. *)
Definition importColumnValues_i64 (c : ColumnConfig) (f : FeedDict) (col_name : str) (int64_vec : list Z)
  : res (Z * FeedDict * list Z) :=
  '(ret, is_local) ← getColumnLocality c col_name;
  if ret <? 0 then Ret (-1, f, int64_vec)
  else if negb is_local then Ret (-1, f, int64_vec)
  else
    '(ret, dtype) ← getColumnDtype c col_name;
    if negb (ret =? 0) then Ret (-2, f, int64_vec)
    else if decide (dtype <> INT64) then Ret (-2, f, int64_vec)
    else
      let '(rc, f) := setOrCheckValueCount f (Z.of_nat (length int64_vec)) in
      if negb (rc =? 0) then Ret (-2, f, int64_vec)
      else if float_run_ f then
        '(rc, f, fp64_vec) ← importColumnValues_fp64 c f col_name (d_of_int <$> int64_vec);
        if negb (rc =? 0) then Ret (-3, f, int64_vec)
        else Ret (0, {| float_run_ := float_run_ f; val_count_ := val_count_ f;
                        fp64_col_ := map_insert col_name fp64_vec (fp64_col_ f);
                        int64_col_ := int64_col_ f |}, [])
      else match int64_col_ f !! col_name with
           | Some _ => Ret (-4, f, int64_vec)
           | None => Ret (0, {| float_run_ := float_run_ f; val_count_ := val_count_ f; fp64_col_ := fp64_col_ f;
                                int64_col_ := map_insert col_name int64_vec (int64_col_ f) |}, [])
           end.

(** [getColumnValues] into an [int64_t] vector: the error code or the column. *)
Definition getColumnValues_i64 (c : ColumnConfig) (f : FeedDict) (col_name : str) : res (Z + list Z) :=
  '(ret, is_local) ← getColumnLocality c col_name;
  if ret <? 0 then Ret (inl (-1))
  else if negb is_local then Ret (inl (-1))
  else if float_run_ f then Ret (inl (-1))
  else match int64_col_ f !! col_name with
       | None => Ret (inl (-2))
       | Some v => Ret (inr v)
       end.

Definition getColumnValues_fp64 (c : ColumnConfig) (f : FeedDict) (col_name : str) : res (Z + list double) :=
  '(ret, is_local) ← getColumnLocality c col_name;
  if ret <? 0 then Ret (inl (-1))
  else if negb is_local then Ret (inl (-1))
  else if negb (float_run_ f) then Ret (inl (-1))
  else match fp64_col_ f !! col_name with
       | None => Ret (inl (-2))
       | Some v => Ret (inr v)
       end.

(** [getColumnValuesCount]: a [uint32_t]. *)
Definition getColumnValuesCount (f : FeedDict) : nat := Z.to_nat (val_count_ f mod 2 ^ 32).

(** ** Token values

    The tagged union, a constructor per [type]: 0 and 1 are vectors, 2 and 3
    constants, 4 a remote column, 5 and 6 shares. *)
Inductive TokenValue :=
| FP64Vec (v : list double)
| I64Vec (v : list Z)
| FP64Val (d : double)
| I64Val (z : Z)
| RemoteCol
| ShFP64 (m : si64Matrix)
| ShI64 (m : si64Matrix).

Definition val_type (v : TokenValue) : Z :=
  match v with
  | FP64Vec _ => 0 | I64Vec _ => 1 | FP64Val _ => 2 | I64Val _ => 3 | RemoteCol => 4 | ShFP64 _ => 5 | ShI64 _ => 6
  end.

Inductive TokenType := COLUMN | VALUE.

(** ** The executor *)

Record MPCExpressExecutor := {
  fp64_run_ : bool;
  expr_ : str;
  suffix_stk_ : list str;
  col_config_ : option ColumnConfig;
  feed_dict_ : option FeedDict;
  token_val_map_ : gmap str TokenValue;
  token_type_map_ : gmap str TokenType;
  party_id_ : Z }.

(** A fresh object; [fp64_run_] and [party_id_] are not initialised. *)
Definition new_executor (fp64_run : bool) (party_id : Z) : MPCExpressExecutor :=
  {| fp64_run_ := fp64_run; expr_ := []; suffix_stk_ := []; col_config_ := None; feed_dict_ := None;
     token_val_map_ := ∅; token_type_map_ := ∅; party_id_ := party_id |}.

Definition set_config (x : MPCExpressExecutor) (c : option ColumnConfig) : MPCExpressExecutor :=
  {| fp64_run_ := fp64_run_ x; expr_ := expr_ x; suffix_stk_ := suffix_stk_ x; col_config_ := c;
     feed_dict_ := feed_dict_ x; token_val_map_ := token_val_map_ x; token_type_map_ := token_type_map_ x;
     party_id_ := party_id_ x |}.

Definition set_feed (x : MPCExpressExecutor) (f : option FeedDict) : MPCExpressExecutor :=
  {| fp64_run_ := fp64_run_ x; expr_ := expr_ x; suffix_stk_ := suffix_stk_ x; col_config_ := col_config_ x;
     feed_dict_ := f; token_val_map_ := token_val_map_ x; token_type_map_ := token_type_map_ x;
     party_id_ := party_id_ x |}.

Definition initColumnConfig (x : MPCExpressExecutor) (party_id : Z) : MPCExpressExecutor :=
  set_config x (Some (new_ColumnConfig party_id)).

Definition importColumnDtype (x : MPCExpressExecutor) (col_name : str) (is_fp64 : bool) : res (Z * MPCExpressExecutor) :=
  c ← or_undef (col_config_ x);
  let '(rc, c) := cc_importColumnDtype c col_name (if is_fp64 then FP64 else INT64) in
  Ret (rc, set_config x (Some c)).

Definition importColumnOwner (x : MPCExpressExecutor) (col_name : str) (party_id : Z) : res (Z * MPCExpressExecutor) :=
  c ← or_undef (col_config_ x);
  '(rc, c) ← cc_importColumnOwner c col_name party_id;
  Ret (rc, set_config x (Some c)).

(** [importExpress]: [expr_] is kept when the check refuses the text. *)
Definition importExpr (x : MPCExpressExecutor) (expr : str) : res (Z * MPCExpressExecutor) :=
  '(stk, ok) ← importExpress expr (suffix_stk_ x);
  let set e := {| fp64_run_ := fp64_run_ x; expr_ := e; suffix_stk_ := stk; col_config_ := col_config_ x;
                  feed_dict_ := feed_dict_ x; token_val_map_ := token_val_map_ x;
                  token_type_map_ := token_type_map_ x; party_id_ := party_id_ x |} in
  Ret (match ok with Some e => (0, set e) | None => (-1, set (expr_ x)) end).

Definition InitFeedDict (x : MPCExpressExecutor) : MPCExpressExecutor :=
  match feed_dict_ x with
  | None => set_feed x (Some (new_FeedDict (fp64_run_ x)))
  | Some _ => x
  end.

Definition importValues_i64 (x : MPCExpressExecutor) (col_name : str) (v : list Z) : res (Z * MPCExpressExecutor * list Z) :=
  f ← or_undef (feed_dict_ x);
  c ← or_undef (col_config_ x);
  '(rc, f, v) ← importColumnValues_i64 c f col_name v;
  Ret (rc, set_feed x (Some f), v).

Definition importValues_fp64 (x : MPCExpressExecutor) (col_name : str) (v : list double)
  : res (Z * MPCExpressExecutor * list double) :=
  f ← or_undef (feed_dict_ x);
  c ← or_undef (col_config_ x);
  '(rc, f, v) ← importColumnValues_fp64 c f col_name v;
  Ret (rc, set_feed x (Some f), v).

(** The loop of [resolveRunMode] over a copy of the suffix stack. *)
Fixpoint scan_tokens (c : ColumnConfig) (l : list str) (types : gmap str TokenType) (has_div has_fp64 : bool)
  : res (gmap str TokenType * bool * bool) :=
  match l with
  | [] => Ret (types, has_div, has_fp64)
  | token :: l =>
      if isOperatorStr token then scan_tokens c l types (bool_decide (token = ["/"%char]) || has_div) has_fp64
      else
        '(ret, _) ← getColumnDtype c token;
        if ret =? 0 then scan_tokens c l (map_insert token COLUMN types) has_div has_fp64
        else scan_tokens c l (map_insert token VALUE types) has_div (bool_decide ("."%char ∈ token) || has_fp64)
  end.

Definition resolveRunMode (x : MPCExpressExecutor) : res (Z * MPCExpressExecutor) :=
  c ← or_undef (col_config_ x);
  '(ret, c) ← resolveLocalColumn c;
  if negb (ret =? 0) then Ret (-1, set_config x (Some c))
  else
    '(types, has_div_op, has_fp64_val) ← scan_tokens c (suffix_stk_ x) (token_type_map_ x) false false;
    Ret (0, {| fp64_run_ := has_div_op || hasFP64Column c || has_fp64_val; expr_ := expr_ x;
               suffix_stk_ := suffix_stk_ x; col_config_ := Some c; feed_dict_ := feed_dict_ x;
               token_val_map_ := token_val_map_ x; token_type_map_ := types; party_id_ := party_id_ x |}).

(** [Clean]: the share matrices are freed with the map. *)
Definition exec_Clean (x : MPCExpressExecutor) : MPCExpressExecutor :=
  {| fp64_run_ := fp64_run_ x; expr_ := expr_ x; suffix_stk_ := []; col_config_ := None; feed_dict_ := None;
     token_val_map_ := ∅; token_type_map_ := ∅; party_id_ := party_id_ x |}.

(** ** Facts *)

Lemma map_insert_fresh {A} k (v : A) m : m !! k = None -> map_insert k v m = <[k := v]> m.
Proof. intros H. unfold map_insert. by rewrite H. Qed.

Lemma map_insert_present {A} k (v : A) m : is_Some (m !! k) -> map_insert k v m = m.
Proof. intros [w H]. unfold map_insert. by rewrite H. Qed.

(** The invariant of a [FeedDict]: its columns are local to the party, all have
    [val_count_] rows, and lie in the map of the run mode; the integer columns
    were declared so. *)
Definition local_in (c : ColumnConfig) (k : str) : Prop := local_col_ c !! k = Some true.

Record feed_ok (c : ColumnConfig) (f : FeedDict) : Prop := {
  fo_fp64 : map_Forall (fun k v => Z.of_nat (length v) = val_count_ f /\ local_in c k) (fp64_col_ f);
  fo_i64 : map_Forall (fun k v => Z.of_nat (length v) = val_count_ f /\ local_in c k /\ col_dtype_ c !! k = Some INT64) (int64_col_ f);
  fo_mode : if float_run_ f then int64_col_ f = ∅ else fp64_col_ f = ∅ }.

Lemma feed_ok_new c b : feed_ok c (new_FeedDict b).
Proof. split; simpl; [apply map_Forall_empty..|by destruct b]. Qed.

(** [setOrCheckValueCount] changes the count only while no column is there. *)
Lemma count_spec f n rc f' : 0 <= n -> setOrCheckValueCount f n = (rc, f') ->
  (rc = 0 /\ (val_count_ f = -1 \/ val_count_ f = n) /\ f' = set_count f n) \/
  (rc = -1 /\ val_count_ f <> -1 /\ val_count_ f <> n /\ f' = f).
Proof.
  intros Hn. unfold setOrCheckValueCount. destruct (Z.eqb_spec (val_count_ f) (-1)) as [E|E]; simpl.
  - rewrite Z.eqb_refl. intros [= <- <-]. left. auto.
  - destruct (Z.eqb_spec (val_count_ f) n) as [E'|E']; intros [= <- <-]; [left|right; auto].
    split; [done|]. split; [by right|]. destruct f; simpl in *. by subst.
Qed.

Lemma count_same f n : 0 <= n -> val_count_ f = n -> setOrCheckValueCount f n = (0, f).
Proof.
  intros Hn Hc. unfold setOrCheckValueCount. rewrite (proj2 (Z.eqb_neq (val_count_ f) (-1))) by lia.
  by rewrite Hc, Z.eqb_refl.
Qed.

Lemma feed_ok_count c f n : 0 <= n -> val_count_ f = -1 \/ val_count_ f = n -> feed_ok c f -> feed_ok c (set_count f n).
Proof.
  intros Hn [E|E] [H1 H2 H3]; [|destruct f; simpl in *; by subst].
  rewrite E in H1, H2. split; simpl; [| |done].
  - intros k v Hk. destruct (H1 k v Hk) as [Hl _]. lia.
  - intros k v Hk. destruct (H2 k v Hk) as [Hl _]. lia.
Qed.

(** The possible outcomes of importing a vector of doubles. *)
Lemma import_fp64_inv c f k v rc f' v' : importColumnValues_fp64 c f k v = Ret (rc, f', v') ->
  (rc <> 0 /\ v' = v /\ (f' = f \/ f' = set_count f (Z.of_nat (length v)) /\ (val_count_ f = -1 \/ val_count_ f = Z.of_nat (length v)))) \/
  (rc = 0 /\ v' = [] /\ local_in c k /\ (val_count_ f = -1 \/ val_count_ f = Z.of_nat (length v)) /\ float_run_ f = true /\
   fp64_col_ f !! k = None /\
   f' = {| float_run_ := true; val_count_ := Z.of_nat (length v); fp64_col_ := <[k := v]> (fp64_col_ f); int64_col_ := int64_col_ f |}).
Proof.
  unfold importColumnValues_fp64, getColumnLocality. destruct (local_col_ c !! k) as [l|] eqn:El; simpl; [|done].
  destruct l; simpl; [|intros [= <- <- <-]; left; auto].
  destruct (setOrCheckValueCount f (Z.of_nat (length v))) as [r g] eqn:Eg.
  destruct (count_spec _ _ _ _ (Nat2Z.is_nonneg _) Eg) as [(-> & Hc & ->)|(-> & Hc & Hn & ->)]; simpl.
  - destruct (float_run_ f) eqn:Ef; simpl; [|intros [= <- <- <-]; left; split; [done|]; split; [done|]; by right].
    destruct (fp64_col_ f !! k) eqn:Ek; simpl; intros [= <- <- <-];
      [left; split; [done|]; split; [done|]; by right|].
    right. rewrite map_insert_fresh by done. auto 10.
  - intros [= <- <- <-]. left; auto.
Qed.

(** The possible outcomes of importing a vector of integers. *)
Lemma import_i64_inv c f k v rc f' v' : importColumnValues_i64 c f k v = Ret (rc, f', v') ->
  (rc <> 0 /\ v' = v /\ (f' = f \/ f' = set_count f (Z.of_nat (length v)) /\ (val_count_ f = -1 \/ val_count_ f = Z.of_nat (length v)))) \/
  (rc = 0 /\ v' = [] /\ local_in c k /\ col_dtype_ c !! k = Some INT64 /\ (val_count_ f = -1 \/ val_count_ f = Z.of_nat (length v)) /\
   f' = {| float_run_ := float_run_ f; val_count_ := Z.of_nat (length v);
           fp64_col_ := if float_run_ f then <[k := d_of_int <$> v]> (fp64_col_ f) else fp64_col_ f;
           int64_col_ := if float_run_ f then int64_col_ f else <[k := v]> (int64_col_ f) |} /\
   (if float_run_ f then fp64_col_ f !! k = None else int64_col_ f !! k = None)).
Proof.
  unfold importColumnValues_i64, getColumnLocality, getColumnDtype. destruct (local_col_ c !! k) as [l|] eqn:El; simpl; [|done].
  destruct l; simpl; [|intros [= <- <- <-]; left; auto].
  destruct (col_dtype_ c !! k) as [d|] eqn:Ed; simpl; [|done].
  destruct (decide (d <> INT64)) as [Hd|Hd]; [intros [= <- <- <-]; left; auto|].
  assert (d = INT64) as -> by (destruct d; [done|by destruct Hd]).
  destruct (setOrCheckValueCount f (Z.of_nat (length v))) as [r g] eqn:Eg.
  destruct (count_spec _ _ _ _ (Nat2Z.is_nonneg _) Eg) as [(-> & Hc & ->)|(-> & Hc & Hn & ->)]; simpl; [|intros [= <- <- <-]; left; auto].
  destruct (float_run_ f) eqn:Ef.
  - intros H. apply res_bind_Ret in H as ([[rc1 f1] v1] & E1 & H).
    apply import_fp64_inv in E1 as [(Hrc & -> & Hf)|(-> & -> & _ & _ & _ & Hk & ->)]; simpl in *.
    + rewrite (proj2 (Z.eqb_neq rc1 0)) in H by done. simpl in H. injection H as <- <- <-. left. split; [done|]. split; [done|].
      rewrite length_fmap in Hf. destruct Hf as [->|[-> _]]; right; auto.
    + injection H as <- <- <-. right. rewrite length_fmap, map_insert_present by (by rewrite lookup_insert_eq).
      auto 10.
  - destruct (int64_col_ f !! k) eqn:Ek; intros [= <- <- <-]; [left; split; [done|]; split; [done|]; by right|].
    right. rewrite map_insert_fresh by done. auto 10.
Qed.

Lemma feed_ok_import_i64 c f k v rc f' v' :
  importColumnValues_i64 c f k v = Ret (rc, f', v') -> feed_ok c f -> feed_ok c f'.
Proof.
  intros H Hf. apply import_i64_inv in H as [(_ & _ & [->|[-> Hc]])|(_ & _ & Hl & Hd & Hc & -> & Hk)]; [done|apply feed_ok_count; [lia|done..]|].
  apply (feed_ok_count c f _ (Nat2Z.is_nonneg (length v)) Hc) in Hf as [H1 H2 H3]. simpl in *.
  destruct (float_run_ f); simpl in *; split; simpl; try done.
  - apply map_Forall_insert; [done|]. rewrite length_fmap. auto.
  - apply map_Forall_insert; auto.
Qed.

Lemma feed_ok_import_fp64 c f k v rc f' v' :
  importColumnValues_fp64 c f k v = Ret (rc, f', v') -> feed_ok c f -> feed_ok c f'.
Proof.
  intros H Hf. apply import_fp64_inv in H as [(_ & _ & [->|[-> Hc]])|(_ & _ & Hl & Hc & Hm & Hk & ->)]; [done|apply feed_ok_count; [lia|done..]|].
  apply (feed_ok_count c f _ (Nat2Z.is_nonneg (length v)) Hc) in Hf as [H1 H2 H3]. simpl in *. rewrite Hm in H3.
  split; simpl; [|done..]. by apply map_Forall_insert.
Qed.

(** ** Properties of the feed dictionary *)

Inductive feed_step (c : ColumnConfig) : FeedDict -> FeedDict -> Prop :=
| step_import_i64 f k v rc f' v' : importColumnValues_i64 c f k v = Ret (rc, f', v') -> feed_step c f f'
| step_import_fp64 f k v rc f' v' : importColumnValues_fp64 c f k v = Ret (rc, f', v') -> feed_step c f f'.

Lemma feed_ok_reachable c f g : rtc (feed_step c) f g -> feed_ok c f -> feed_ok c g.
Proof.
  induction 1 as [|f g h Hs _ IH]; [done|]. intros Hf. apply IH.
  destruct Hs as [?????? E|?????? E]; [by eapply feed_ok_import_i64|by eapply feed_ok_import_fp64].
Qed.

(** after any sequence of column imports, accepted or refused, into a new
    feed dictionary, every stored column is local to the party, sits in the map
    of the run mode and has exactly [val_count_] rows, so that any two columns
    an evaluation reads have one length. *)
Theorem feed_dict_invariant c b f : rtc (feed_step c) (new_FeedDict b) f ->
  feed_ok c f /\ float_run_ f = b /\
  (forall k v, getColumnValues_i64 c f k = Ret (inr v) -> Z.of_nat (length v) = val_count_ f /\ b = false) /\
  (forall k v, getColumnValues_fp64 c f k = Ret (inr v) -> Z.of_nat (length v) = val_count_ f /\ b = true).
Proof.
  intros H. assert (Hf := feed_ok_reachable _ _ _ H (feed_ok_new c b)).
  assert (Hm : float_run_ f = b).
  { clear Hf. remember (new_FeedDict b) as g eqn:Eg. assert (Hg : float_run_ g = b) by (by subst). clear Eg.
    induction H as [|f g h Hs _ IH]; [done|]. apply IH. rewrite <- Hg.
    destruct Hs as [?????? E|?????? E].
    - apply import_i64_inv in E as [(_ & _ & [->|[-> _]])|(_ & _ & _ & _ & _ & -> & _)]; done.
    - apply import_fp64_inv in E as [(_ & _ & [->|[-> _]])|(_ & _ & _ & _ & Hr & _ & ->)]; done. }
  split; [done|]. split; [done|]. destruct Hf as [H1 H2 _]. split; intros k v.
  - unfold getColumnValues_i64, getColumnLocality. intros Hg. split_matches. split; [|done].
    by apply (H2 k v).
  - unfold getColumnValues_fp64, getColumnLocality. intros Hg.
    split_matches. split; [by apply (H1 k v)|]. by destruct (float_run_ f).
Qed.

Definition sample_config : ColumnConfig :=
  {| cc_party_id := 0; col_owner_ := {[ chars "A" := 0; chars "B" := 1 ]};
     col_dtype_ := {[ chars "A" := INT64; chars "B" := FP64 ]}; local_col_ := {[ chars "A" := true; chars "B" := false ]} |}.

Lemma feed_dict_invariant_witness : exists f, rtc (feed_step sample_config) (new_FeedDict false) f /\
  val_count_ f = 2 /\ feed_ok sample_config f.
Proof.
  eexists. assert (H : rtc (feed_step sample_config) (new_FeedDict false)
    {| float_run_ := false; val_count_ := 2; fp64_col_ := ∅; int64_col_ := {[ chars "A" := [3; 4] ]} |}).
  { apply rtc_once, (step_import_i64 _ _ (chars "A") [3; 4] 0 _ []). vm_compute. reflexivity. }
  split; [exact H|]. split; [done|]. exact (proj1 (feed_dict_invariant sample_config false _ H)).
Defined.

(** importing an integer column succeeds exactly when the column is local,
    declared [INT64], as long as the columns before it and not there yet; the
    values are then read back (as doubles in floating-point mode), the other
    columns read as before, and a second import is refused without effect. *)
Theorem feed_import_roundtrip c f k v :
  local_in c k -> col_dtype_ c !! k = Some INT64 ->
  ((exists f' v', importColumnValues_i64 c f k v = Ret (0, f', v')) <->
     (val_count_ f = -1 \/ val_count_ f = Z.of_nat (length v)) /\
     (if float_run_ f then fp64_col_ f !! k = None else int64_col_ f !! k = None)) /\
  (forall f' v', importColumnValues_i64 c f k v = Ret (0, f', v') ->
     v' = [] /\
     (if float_run_ f then getColumnValues_fp64 c f' k = Ret (inr (d_of_int <$> v))
      else getColumnValues_i64 c f' k = Ret (inr v)) /\
     (forall k', k' <> k -> getColumnValues_i64 c f' k' = getColumnValues_i64 c f k' /\
                            getColumnValues_fp64 c f' k' = getColumnValues_fp64 c f k') /\
     (exists rc, rc <> 0 /\ importColumnValues_i64 c f' k v = Ret (rc, f', v))).
Proof.
  intros Hl Hd. split; [split|].
  - intros (f' & v' & [(? & _)|(_ & _ & _ & _ & Hc & _ & Hk)]%import_i64_inv); [done|]. done.
  - intros [Hc Hk]. unfold importColumnValues_i64, getColumnLocality, getColumnDtype. rewrite Hl, Hd. simpl.
    assert (E : setOrCheckValueCount f (Z.of_nat (length v)) = (0, set_count f (Z.of_nat (length v)))).
    { destruct (setOrCheckValueCount f _) as [r g] eqn:E. apply count_spec in E; [|lia].
      destruct E as [(-> & _ & ->)|(_ & ? & ? & _)]; [done|lia]. }
    rewrite E. simpl. destruct (float_run_ f) eqn:Ef; simpl; [|rewrite Hk; eauto].
    unfold importColumnValues_fp64, getColumnLocality. rewrite Hl. simpl. rewrite length_fmap, count_same by (done || lia).
    simpl. rewrite Ef, Hk. simpl. eauto.
  - intros f' v' [(? & _)|(_ & -> & _ & _ & Hc & -> & Hk)]%import_i64_inv; [done|]. split; [done|].
    split; [|split].
    + unfold getColumnValues_fp64, getColumnValues_i64, getColumnLocality. rewrite Hl. simpl.
      destruct (float_run_ f); simpl; by rewrite lookup_insert_eq.
    + intros k' Hk'. unfold getColumnValues_fp64, getColumnValues_i64. simpl.
      destruct (float_run_ f); rewrite ?lookup_insert_ne by done; done.
    + unfold importColumnValues_i64, getColumnLocality, getColumnDtype. rewrite Hl, Hd. simpl.
      rewrite count_same by (done || lia). simpl. destruct (float_run_ f); simpl; [|rewrite lookup_insert_eq; by exists (-4)].
      unfold importColumnValues_fp64, getColumnLocality. rewrite Hl. simpl. rewrite length_fmap, count_same by (done || lia).
      simpl. rewrite lookup_insert_eq. by exists (-3).
Qed.

Lemma feed_import_roundtrip_witness :
  exists f' v', importColumnValues_i64 sample_config (new_FeedDict false) (chars "A") [3; 4] = Ret (0, f', v').
Proof.
  apply (proj1 (feed_import_roundtrip sample_config (new_FeedDict false) (chars "A") [3; 4] eq_refl eq_refl)).
  split; [by left|done].
Defined.

(** ** Properties of the run mode *)

Lemma scan_tokens_spec c l types d p r : scan_tokens c l types d p = Ret r ->
  let names := filter (fun t => isOperatorStr t = false) l in
  Forall (fun t => is_Some (col_dtype_ c !! t)) names /\
  r.2 = p /\ r.1.2 = (d || bool_decide (["/"%char] ∈ l)) /\
  (forall t, r.1.1 !! t = match types !! t with Some y => Some y | None => if decide (t ∈ names) then Some COLUMN else None end).
Proof.
  revert types d p. induction l as [|t l IH]; intros types d p H; simpl in H.
  - injection H as <-. simpl. split; [constructor|]. split; [done|]. split; [by rewrite orb_false_r|].
    intros t. by destruct (types !! t).
  - destruct (isOperatorStr t) eqn:Et.
    + apply IH in H as (H1 & H2 & H3 & H4). rewrite filter_cons_False by (by rewrite Et). split; [done|]. split; [done|]. split; [|done].
      rewrite H3, (orb_comm _ d), <- orb_assoc. f_equal. apply Bool.eq_iff_eq_true. rewrite orb_true_iff, !bool_decide_eq_true, elem_of_cons.
      naive_solver.
    + unfold getColumnDtype in H. destruct (col_dtype_ c !! t) as [y|] eqn:Ey; [|done]. simpl in H.
      apply IH in H as (H1 & H2 & H3 & H4). rewrite filter_cons_True by done. split; [by constructor|].
      split; [done|]. split.
      * rewrite H3. f_equal. apply bool_decide_ext. rewrite elem_of_cons. split; [auto|]. intros [<-|]; [|done].
        done.
      * intros s. rewrite H4. unfold map_insert. destruct (types !! t) eqn:Ett; [|destruct (decide (t = s)) as [->|Hts]].
        -- destruct (types !! s) eqn:Ess; [done|]. apply decide_ext. rewrite elem_of_cons. naive_solver.
        -- rewrite lookup_insert_eq, Ett. by rewrite decide_True by apply list_elem_of_here.
        -- rewrite lookup_insert_ne by done. destruct (types !! s); [done|]. apply decide_ext. rewrite elem_of_cons. naive_solver.
Qed.

Lemma scan_tokens_ok c l types d p :
  Forall (fun t => is_Some (col_dtype_ c !! t)) (filter (fun t => isOperatorStr t = false) l) ->
  exists r, scan_tokens c l types d p = Ret r.
Proof.
  revert types d p. induction l as [|t l IH]; intros types d p H; simpl; [eauto|].
  destruct (isOperatorStr t) eqn:Et; [rewrite filter_cons_False in H by (by rewrite Et); by apply IH|].
  rewrite filter_cons_True in H by done. inversion_clear H as [|?? [y Hy] H'].
  unfold getColumnDtype. rewrite Hy. simpl. by apply IH.
Qed.

(** What [resolveRunMode] needs and leaves. *)
Lemma resolve_run_mode_facts x c :
  col_config_ x = Some c -> local_col_ c = ∅ -> token_type_map_ x = ∅ ->
  let names := filter (fun t => isOperatorStr t = false) (suffix_stk_ x) in
  ((exists r, resolveRunMode x = Ret r) <->
     dom (col_owner_ c) = dom (col_dtype_ c) /\ Forall (fun t => t ∈ dom (col_dtype_ c)) names) /\
  (forall rc x', resolveRunMode x = Ret (rc, x') ->
     rc = 0 /\ suffix_stk_ x' = suffix_stk_ x /\
     (fp64_run_ x' = true <-> ["/"%char] ∈ suffix_stk_ x \/ exists k, col_dtype_ c !! k = Some FP64) /\
     (forall t, token_type_map_ x' !! t = if decide (t ∈ names) then Some COLUMN else None) /\
     exists c', col_config_ x' = Some c' /\ col_dtype_ c' = col_dtype_ c /\
       forall k, local_col_ c' !! k = (fun o => bool_decide (o = cc_party_id c)) <$> col_owner_ c !! k).
Proof.
  intros Hc Hl Ht names. unfold resolveRunMode. rewrite Hc. simpl. unfold resolveLocalColumn.
  assert (Hdom : size (col_dtype_ c) = size (col_owner_ c) ->
      map_Forall (fun k _ => is_Some (col_dtype_ c !! k)) (col_owner_ c) -> dom (col_owner_ c) = dom (col_dtype_ c)).
  { intros Hs Hf. apply leibniz_equiv. assert (Hsub : dom (col_owner_ c) ⊆ dom (col_dtype_ c)).
    { intros k [o Ho]%elem_of_dom. apply elem_of_dom. by apply (Hf k o). }
    apply set_subseteq_size_equiv; [done|]. rewrite !size_dom. lia. }
  split; [split|].
  - intros [r H]. case_decide as Hs; [done|]. case_decide as Hf; [|done]. simpl in H.
    apply res_bind_Ret in H as (r' & H & _). apply scan_tokens_spec in H as (H & _). simpl in H.
    split; [apply Hdom; [lia|done]|]. eapply Forall_impl; [exact H|]. intros t. simpl. by rewrite elem_of_dom.
  - intros [Hd Hn]. rewrite decide_False by (rewrite <- !size_dom, Hd; tauto).
    rewrite decide_True; [|intros k o Ho; apply elem_of_dom; rewrite <- Hd; by apply elem_of_dom_2 in Ho].
    simpl. edestruct (scan_tokens_ok) as [[[ty dv] fp] ->]; [|simpl; eauto].
    eapply Forall_impl; [exact Hn|]. intros t. simpl. by rewrite elem_of_dom.
  - intros rc x' H. case_decide as Hs; [done|]. case_decide as Hf; [|done]. simpl in H.
    apply res_bind_Ret in H as ([[ty dv] fp] & H & E). injection E as <- <-.
    apply scan_tokens_spec in H as (_ & H2 & H3 & H4). simpl in *. subst fp dv. split; [done|]. split; [done|].
    split; [|split].
    + rewrite orb_false_r, orb_true_iff. unfold hasFP64Column. rewrite !bool_decide_eq_true. simpl.
      unfold map_Exists. naive_solver.
    + intros t. rewrite H4, Ht, lookup_empty. done.
    + eexists; split; [done|]. simpl. split; [done|]. intros k. rewrite Hl, (left_id_L ∅ (∪)), lookup_fmap. done.
Qed.

(** with a fresh column configuration, [resolveRunMode] succeeds exactly
    when the owner and type tables name the same columns and every operand of
    the expression is one of them: an expression with a constant makes it throw.
    It then marks as local exactly this party's columns, types every operand as
    a column, and selects floating-point mode exactly when the expression divides
    or some column is [FP64]. *)
Theorem resolve_run_mode_spec x c :
  col_config_ x = Some c -> local_col_ c = ∅ -> token_type_map_ x = ∅ ->
  let names := filter (fun t => isOperatorStr t = false) (suffix_stk_ x) in
  ((exists r, resolveRunMode x = Ret r) <->
     dom (col_owner_ c) = dom (col_dtype_ c) /\ Forall (fun t => t ∈ dom (col_dtype_ c)) names) /\
  (forall rc x', resolveRunMode x = Ret (rc, x') ->
     rc = 0 /\ suffix_stk_ x' = suffix_stk_ x /\
     (fp64_run_ x' = true <-> ["/"%char] ∈ suffix_stk_ x \/ exists k, col_dtype_ c !! k = Some FP64) /\
     (forall t, token_type_map_ x' !! t = if decide (t ∈ names) then Some COLUMN else None) /\
     exists c', col_config_ x' = Some c' /\ col_dtype_ c' = col_dtype_ c /\
       forall k, local_col_ c' !! k = (fun o => bool_decide (o = cc_party_id c)) <$> col_owner_ c !! k).
Proof. apply resolve_run_mode_facts. Qed.

Definition sample_executor (text : str) : MPCExpressExecutor :=
  {| fp64_run_ := false; expr_ := []; suffix_stk_ := text :: [chars "B"; chars "*"];
     col_config_ := Some {| cc_party_id := 0; col_owner_ := col_owner_ sample_config;
                            col_dtype_ := col_dtype_ sample_config; local_col_ := ∅ |};
     feed_dict_ := None; token_val_map_ := ∅; token_type_map_ := ∅; party_id_ := 0 |}.

Lemma resolve_run_mode_spec_witness :
  (exists r, resolveRunMode (sample_executor (chars "A")) = Ret r) /\
  ~ (exists r, resolveRunMode (sample_executor (chars "100")) = Ret r).
Proof.
  split.
  - apply (proj1 (resolve_run_mode_spec (sample_executor (chars "A")) _ eq_refl eq_refl eq_refl)).
    split; [vm_compute; reflexivity|]. apply (bool_decide_unpack _). vm_compute. exact I.
  - intros H. apply (proj1 (resolve_run_mode_spec (sample_executor (chars "100")) _ eq_refl eq_refl eq_refl)) in H as [_ H].
    apply (bool_decide_pack _) in H. vm_compute in H. exact H.
Defined.
