(* ===== verification/ExprLocal.v ===== *)
(** * Local evaluation of expressions

    Models [LocalExpressExecutor] of [executor/express.{h,cc}]: the suffix form of
    the imported expression is run on a stack of tokens and a stack of values,
    whole columns at a time.  The specification is the row-by-row value of the
    expression tree; the theorem says the stack machine computes it.  Signed
    overflow, reading a union member that is not the one stored, and reading past
    the shorter of two columns are [Undef]. *)

From Stdlib Require Import Ascii String ZArith Lia SpecFloat.
From stdpp Require Import base tactics list option gmap strings.
From S2P Require Import Prelude ModArith Machine Aby3Op ExprParse ExprConfig.

Local Open Scope Z_scope.

(** ** Column arithmetic *)

Definition as_fp64_vec (v : TokenValue) : res (list double) := match v with FP64Vec l => Ret l | _ => Undef end.
Definition as_i64_vec (v : TokenValue) : res (list Z) := match v with I64Vec l => Ret l | _ => Undef end.
Definition as_fp64_val (v : TokenValue) : res double := match v with FP64Val d => Ret d | _ => Undef end.
Definition as_i64_val (v : TokenValue) : res Z := match v with I64Val z => Ret z | _ => Undef end.

(** [for (i = 0; i < v1.size(); i++) r[i] = f(v1[i], v2[i])]. *)
Fixpoint zip_res {A B} (f : A -> A -> res B) (v1 v2 : list A) : res (list B) :=
  match v1, v2 with
  | [], _ => Ret []
  | _ :: _, [] => Undef
  | a :: v1, b :: v2 => x ← f a b; xs ← zip_res f v1 v2; Ret (x :: xs)
  end.

Fixpoint map_res {A B} (f : A -> res B) (v : list A) : res (list B) :=
  match v with
  | [] => Ret []
  | a :: v => x ← f a; xs ← map_res f v; Ret (x :: xs)
  end.

(** The three loops of one operator in floating-point mode: both columns, the
    constant first, the constant second. *)
Definition fp64_op (vv cv vc : double -> double -> double) (val1 val2 : TokenValue) : res TokenValue :=
  if negb (val_type val1 =? 2) && negb (val_type val2 =? 2) then
    v1 ← as_fp64_vec val1; v2 ← as_fp64_vec val2;
    r ← zip_res (fun a b => Ret (vv a b)) v1 v2; Ret (FP64Vec r)
  else if val_type val1 =? 2 then
    v2 ← as_fp64_vec val2; c ← as_fp64_val val1;
    r ← map_res (fun b => Ret (cv c b)) v2; Ret (FP64Vec r)
  else
    v1 ← as_fp64_vec val1; c ← as_fp64_val val2;
    r ← map_res (fun a => Ret (vc c a)) v1; Ret (FP64Vec r).

(** The same in integer mode. *)
Definition i64_op (vv cv vc : Z -> Z -> Z) (val1 val2 : TokenValue) : res TokenValue :=
  if negb (val_type val1 =? 3) && negb (val_type val2 =? 3) then
    v1 ← as_i64_vec val1; v2 ← as_i64_vec val2;
    r ← zip_res (fun a b => i64 (vv a b)) v1 v2; Ret (I64Vec r)
  else if val_type val1 =? 3 then
    v2 ← as_i64_vec val2; c ← as_i64_val val1;
    r ← map_res (fun b => i64 (cv c b)) v2; Ret (I64Vec r)
  else
    v1 ← as_i64_vec val1; c ← as_i64_val val2;
    r ← map_res (fun a => i64 (vc c a)) v1; Ret (I64Vec r).

Definition local_add (fp64_run : bool) : TokenValue -> TokenValue -> res TokenValue :=
  if fp64_run then fp64_op (fun a b => dadd a b) (fun c b => dadd c b) (fun c a => dadd c a)
  else i64_op (fun a b => a + b) (fun c b => c + b) (fun c a => c + a).

Definition local_sub (fp64_run : bool) : TokenValue -> TokenValue -> res TokenValue :=
  if fp64_run then fp64_op (fun a b => dsub a b) (fun c b => dsub c b) (fun c a => dsub a c)
  else i64_op (fun a b => a - b) (fun c b => c - b) (fun c a => a - c).

Definition local_mul (fp64_run : bool) : TokenValue -> TokenValue -> res TokenValue :=
  if fp64_run then fp64_op (fun a b => dmul a b) (fun c b => dmul c b) (fun c a => dmul a c)
  else i64_op (fun a b => a * b) (fun c b => c * b) (fun c a => a * c).

(** Division does not look at the run mode. *)
Definition local_div : TokenValue -> TokenValue -> res TokenValue :=
  fp64_op (fun a b => ddiv a b) (fun c b => ddiv c b) (fun c a => ddiv a c).

(** ** The executor *)

Record LocalExpressExecutor := {
  mpc_exec_ : MPCExpressExecutor;
  l_token_val_map : gmap str TokenValue;
  new_feed : option FeedDict;
  new_col_cfg : option ColumnConfig;
  final_val_double : list double;
  final_val_int64 : list Z }.

Definition new_local (x : MPCExpressExecutor) : LocalExpressExecutor :=
  {| mpc_exec_ := x; l_token_val_map := ∅; new_feed := None; new_col_cfg := None;
     final_val_double := []; final_val_int64 := [] |}.

(** Every column the MPC configuration located becomes local. *)
Definition createNewColumnConfig (x : LocalExpressExecutor) : res LocalExpressExecutor :=
  c ← or_undef (col_config_ (mpc_exec_ x));
  Ret {| mpc_exec_ := mpc_exec_ x; l_token_val_map := l_token_val_map x; new_feed := new_feed x;
         new_col_cfg := Some {| cc_party_id := cc_party_id c; col_owner_ := ∅; col_dtype_ := col_dtype_ c;
                                local_col_ := (fun _ => true) <$> local_col_ c |};
         final_val_double := final_val_double x; final_val_int64 := final_val_int64 x |}.

Definition set_new_feed (x : LocalExpressExecutor) (f : FeedDict) : LocalExpressExecutor :=
  {| mpc_exec_ := mpc_exec_ x; l_token_val_map := l_token_val_map x; new_feed := Some f; new_col_cfg := new_col_cfg x;
     final_val_double := final_val_double x; final_val_int64 := final_val_int64 x |}.

Definition creatNewFeedDict (x : LocalExpressExecutor) : LocalExpressExecutor :=
  set_new_feed x (new_FeedDict (fp64_run_ (mpc_exec_ x))).

(** The import loop over a map of columns; return codes are dropped. *)
Fixpoint import_columns_i64 (c : ColumnConfig) (f : FeedDict) (l : list (str * list Z)) : res FeedDict :=
  match l with
  | [] => Ret f
  | (k, v) :: l => '(_, f, _) ← importColumnValues_i64 c f k v; import_columns_i64 c f l
  end.

Fixpoint import_columns_fp64 (c : ColumnConfig) (f : FeedDict) (l : list (str * list double)) : res FeedDict :=
  match l with
  | [] => Ret f
  | (k, v) :: l => '(_, f, _) ← importColumnValues_fp64 c f k v; import_columns_fp64 c f l
  end.

(** [init] with the columns in the order of the map: [inl] integers, [inr] doubles. *)
Definition local_init (x : LocalExpressExecutor) (cols : list (str * list Z) + list (str * list double))
  : res LocalExpressExecutor :=
  x ← createNewColumnConfig x;
  let x := creatNewFeedDict x in
  c ← or_undef (new_col_cfg x);
  f ← or_undef (new_feed x);
  f ← match cols with inl l => import_columns_i64 c f l | inr l => import_columns_fp64 c f l end;
  Ret (set_new_feed x f).

(** [BeforeMPCRun]: two tokens and two values come off the stacks. *)
Definition BeforeMPCRun (token_stk : list str) (val_stk : list TokenValue)
  : res (str * str * TokenValue * TokenValue * list str * list TokenValue) :=
  match token_stk, val_stk with
  | b :: a :: ts, val2 :: val1 :: vs => Ret (a, b, val1, val2, ts, vs)
  | _, _ => Undef
  end.

(** The variables of [runLocalEvaluate]: the two stacks, the value map and the
    executor's token types, in which a missing token is entered as [COLUMN]. *)
Record lstate := LState {
  stk1 : list str;
  val_stk : list TokenValue;
  val_map : gmap str TokenValue;
  types : gmap str TokenType }.

Definition token_type (m : gmap str TokenType) (token : str) : TokenType := default COLUMN (m !! token).

(** [LocalExpressExecutor::createTokenValue]: the value, or the error code. *)
Definition local_createTokenValue (fp64_run : bool) (c : ColumnConfig) (f : FeedDict) (type : TokenType) (token : str)
  : res (Z + TokenValue) :=
  match type with
  | COLUMN =>
      if fp64_run then
        r ← getColumnValues_fp64 c f token;
        Ret (match r with inl _ => inl (-1) | inr v => inr (FP64Vec v) end)
      else
        r ← getColumnValues_i64 c f token;
        Ret (match r with inl _ => inl (-1) | inr v => inr (I64Vec v) end)
  | VALUE =>
      if fp64_run then d ← stod token; Ret (inr (FP64Val d))
      else Ret (inr (I64Val (atol token)))
  end.

(** Pop the operands, apply [op], push the result under the token [(a op b)]. *)
Definition calculate (op : TokenValue -> TokenValue -> res TokenValue) (c : ascii) (st : lstate) : res lstate :=
  '(a, b, val1, val2, ts, vs) ← BeforeMPCRun (stk1 st) (val_stk st);
  v ← op val1 val2;
  let new_token := ["("%char] ++ a ++ [c] ++ b ++ [")"%char] in
  Ret (LState (new_token :: ts) (v :: vs) (<[new_token := v]> (val_map st)) (types st)).

(** The operators, by their token. *)
Definition local_operator (fp64_run : bool) (token : str) : option (ascii * (TokenValue -> TokenValue -> res TokenValue)) :=
  if decide (token = ["+"%char]) then Some ("+"%char, local_add fp64_run)
  else if decide (token = ["-"%char]) then Some ("-"%char, local_sub fp64_run)
  else if decide (token = ["*"%char]) then Some ("*"%char, local_mul fp64_run)
  else if decide (token = ["/"%char]) then Some ("/"%char, local_div)
  else None.

(** The [while] loop: the code (0, or -1 from the early return), the variables
    and what is left of [suffix_stk_]. *)
Fixpoint local_loop (fp64_run : bool) (c : ColumnConfig) (f : FeedDict) (suffix : list str) (st : lstate)
  : res (Z * lstate * list str) :=
  match suffix with
  | [] => Ret (0, st, [])
  | token :: suffix =>
      match local_operator fp64_run token with
      | Some (ch, op) => st ← calculate op ch st; local_loop fp64_run c f suffix st
      | None =>
          let type := token_type (types st) token in
          let tys := map_insert token COLUMN (types st) in
          r ← local_createTokenValue fp64_run c f type token;
          match r with
          | inl _ => Ret (-1, LState (token :: stk1 st) (val_stk st) (val_map st) tys, suffix)
          | inr v => local_loop fp64_run c f suffix
                       (LState (token :: stk1 st) (v :: val_stk st) (<[token := v]> (val_map st)) tys)
          end
      end
  end.

Definition set_exec (x : MPCExpressExecutor) (suffix : list str) (tys : gmap str TokenType) : MPCExpressExecutor :=
  {| fp64_run_ := fp64_run_ x; expr_ := expr_ x; suffix_stk_ := suffix; col_config_ := col_config_ x;
     feed_dict_ := feed_dict_ x; token_val_map_ := token_val_map_ x; token_type_map_ := tys; party_id_ := party_id_ x |}.

(** [while (!stk1.empty()) { suffix_stk.push(stk1.top()); stk1.pop(); }] *)
Definition drain (stk suffix : list str) : list str := fold_left (fun s t => t :: s) stk suffix.

Definition runLocalEvaluate (x : LocalExpressExecutor) : res (Z * LocalExpressExecutor) :=
  let e := mpc_exec_ x in
  suffix ← parseExpress (expr_ e) (suffix_stk_ e);
  c ← or_undef (new_col_cfg x);
  f ← or_undef (new_feed x);
  '(rc, st, rest) ← local_loop (fp64_run_ e) c f suffix (LState [] [] (l_token_val_map x) (token_type_map_ e));
  let done_with suffix dbl int :=
    {| mpc_exec_ := set_exec e suffix (types st); l_token_val_map := val_map st; new_feed := new_feed x;
       new_col_cfg := new_col_cfg x; final_val_double := dbl; final_val_int64 := int |} in
  if negb (rc =? 0) then Ret (-1, done_with rest (final_val_double x) (final_val_int64 x))
  else
    match drain (stk1 st) rest with
    | [] => Undef
    | final_token :: suffix =>
        finalVal ← or_undef (val_map st !! final_token);
        if val_type finalVal =? 0 then
          v ← as_fp64_vec finalVal; Ret (0, done_with suffix (final_val_double x ++ v) (final_val_int64 x))
        else
          v ← as_i64_vec finalVal; Ret (0, done_with suffix (final_val_double x) (final_val_int64 x ++ v))
    end.

(** ** Expression trees *)

Inductive etree := Leaf (t : str) | Node (op : ascii) (l r : etree).

Fixpoint tree_fac (f : fac) : etree :=
  match f with FAtom a => Leaf a | FNeg a => Leaf ("-"%char :: a) | FParen e => tree_exp e end
with tree_trm (t : trm) : etree :=
  match t with TFac f => tree_fac f | TMul t op f => Node op (tree_trm t) (tree_fac f) end
with tree_exp (e : exp) : etree :=
  match e with ETrm t => tree_trm t | EAdd e op t => Node op (tree_exp e) (tree_trm t) end.

Fixpoint post (t : etree) : list str :=
  match t with Leaf s => [s] | Node c l r => post l ++ post r ++ [[c]] end.

(** The token the executor builds for a tree. *)
Fixpoint name (t : etree) : str :=
  match t with Leaf s => s | Node c l r => ["("%char] ++ name l ++ [c] ++ name r ++ [")"%char] end.

(** Leaves are operands, nodes operators. *)
Fixpoint tree_ok (t : etree) : Prop :=
  match t with
  | Leaf s => isOperatorStr s = false
  | Node c l r => operator c /\ tree_ok l /\ tree_ok r
  end.

Lemma post_tree :
  (forall f, post (tree_fac f) = post_fac f) /\ (forall t, post (tree_trm t) = post_trm t) /\
  (forall e, post (tree_exp e) = post_exp e).
Proof. apply syntax_ind; simpl; congruence. Qed.

Lemma tree_ok_exp :
  (forall f, fac_ok f -> tree_ok (tree_fac f)) /\ (forall t, trm_ok t -> tree_ok (tree_trm t)) /\
  (forall e, exp_ok e -> tree_ok (tree_exp e)).
Proof.
  apply syntax_ind; simpl; auto.
  - intros a Ha. by apply isOperatorStr_atom.
  - intros a Ha. by apply isOperatorStr_atom.
  - intros t Ht op f Hf (H1 & H2 & H3). split; [by apply mul_op_facts|]. auto.
  - intros e He op t Ht (H1 & H2 & H3). split; [by apply add_op_facts|]. auto.
Qed.

(** The value of an expression at one row. *)
Fixpoint row_value {D} (leaf : str -> res D) (op : ascii -> D -> D -> res D) (t : etree) : res D :=
  match t with
  | Leaf s => leaf s
  | Node c l r => a ← row_value leaf op l; b ← row_value leaf op r; op c a b
  end.

Definition fp64_row_op (c : ascii) (a b : double) : res double :=
  if decide (c = "+"%char) then Ret (dadd a b)
  else if decide (c = "-"%char) then Ret (dsub a b)
  else if decide (c = "*"%char) then Ret (dmul a b)
  else Ret (ddiv a b).

(** In integer mode a division has no value. *)
Definition i64_row_op (c : ascii) (a b : Z) : res Z :=
  if decide (c = "+"%char) then i64 (a + b)
  else if decide (c = "-"%char) then i64 (a - b)
  else if decide (c = "*"%char) then i64 (a * b)
  else Undef.

(** An operand at row [i]. *)
Definition fp64_leaf (tys : gmap str TokenType) (f : FeedDict) (i : nat) (s : str) : res double :=
  match token_type tys s with
  | COLUMN => or_undef (fp64_col_ f !! s ≫= lookup i)
  | VALUE => stod s
  end.

Definition i64_leaf (tys : gmap str TokenType) (f : FeedDict) (i : nat) (s : str) : res Z :=
  match token_type tys s with
  | COLUMN => or_undef (int64_col_ f !! s ≫= lookup i)
  | VALUE => Ret (atol s)
  end.

Definition is_const (tys : gmap str TokenType) (t : etree) : bool :=
  match t with Leaf s => match token_type tys s with VALUE => true | COLUMN => false end | Node _ _ _ => false end.

(** No operator has two constants for operands. *)
Fixpoint mixed (tys : gmap str TokenType) (t : etree) : Prop :=
  match t with
  | Leaf _ => True
  | Node _ l r => is_const tys l && is_const tys r = false /\ mixed tys l /\ mixed tys r
  end.

Fixpoint leaves (t : etree) : list str :=
  match t with Leaf s => [s] | Node _ l r => leaves l ++ leaves r end.

Fixpoint divides (t : etree) : bool :=
  match t with Leaf _ => false | Node c l r => bool_decide (c = "/"%char) || divides l || divides r end.

(** ** The stack machine runs the tree *)

Lemma zip_res_ok {A B} (f : A -> A -> res B) v1 v2 :
  length v1 = length v2 ->
  (forall i a b, v1 !! i = Some a -> v2 !! i = Some b -> exists r, f a b = Ret r) ->
  exists rs, zip_res f v1 v2 = Ret rs /\ length rs = length v1 /\
    forall i a b r, v1 !! i = Some a -> v2 !! i = Some b -> f a b = Ret r -> rs !! i = Some r.
Proof.
  revert v2. induction v1 as [|a v1 IH]; intros [|b v2] Hl Hf; try discriminate; simpl.
  { exists []. done. }
  destruct (Hf O a b eq_refl eq_refl) as [r Hr]. rewrite Hr. simpl.
  destruct (IH v2) as (rs & -> & Hlen & Hrs); [simpl in Hl; lia|intros i; apply (Hf (S i))|]. simpl.
  exists (r :: rs). split; [done|]. split; [simpl; lia|]. intros [|i] x y z; simpl; [congruence|apply Hrs].
Qed.

Lemma map_res_ok {A B} (f : A -> res B) v :
  (forall i a, v !! i = Some a -> exists r, f a = Ret r) ->
  exists rs, map_res f v = Ret rs /\ length rs = length v /\
    forall i a r, v !! i = Some a -> f a = Ret r -> rs !! i = Some r.
Proof.
  induction v as [|a v IH]; intros Hf; simpl. { by exists []. }
  destruct (Hf O a eq_refl) as [r Hr]. rewrite Hr. simpl.
  destruct IH as (rs & -> & Hlen & Hrs); [intros i; apply (Hf (S i))|]. simpl.
  exists (r :: rs). split; [done|]. split; [simpl; lia|]. intros [|i] x z; simpl; [congruence|apply Hrs].
Qed.

Lemma token_type_insert m t s : token_type (map_insert t COLUMN m) s = token_type m s.
Proof.
  unfold token_type, map_insert. destruct (m !! t) eqn:E; [done|].
  destruct (decide (t = s)) as [->|]; [by rewrite lookup_insert_eq, E|by rewrite lookup_insert_ne].
Qed.

Section Machine.
Context (fp : bool) (c : ColumnConfig) (f : FeedDict) (tys : gmap str TokenType).

(** The value the machine holds for a tree. *)
Fixpoint value_of (t : etree) : res TokenValue :=
  match t with
  | Leaf s =>
      r ← local_createTokenValue fp c f (token_type tys s) s;
      match r with inr v => Ret v | inl _ => Throw end
  | Node ch l r =>
      v1 ← value_of l; v2 ← value_of r;
      match local_operator fp [ch] with Some (_, op) => op v1 v2 | None => Undef end
  end.

Lemma local_operator_op ch : operator ch -> exists op, local_operator fp [ch] = Some (ch, op).
Proof. intros [[-> | ->]|[-> | ->]]; eexists; reflexivity. Qed.

Lemma local_operator_leaf s : isOperatorStr s = false -> local_operator fp s = None.
Proof. unfold isOperatorStr, local_operator. repeat case_decide; done. Qed.

Lemma machine_tree t v rest st :
  tree_ok t -> value_of t = Ret v -> (forall s, token_type (types st) s = token_type tys s) ->
  exists m tys', local_loop fp c f (post t ++ rest) st =
      local_loop fp c f rest (LState (name t :: stk1 st) (v :: val_stk st) m tys') /\
    m !! name t = Some v /\ (forall s, token_type tys' s = token_type tys s).
Proof.
  revert v rest st. induction t as [s|ch l IHl r IHr]; intros v rest st Hok Hv Hty; simpl in *.
  - rewrite local_operator_leaf by done. rewrite Hty.
    apply res_bind_Ret in Hv as ([z|w] & E & Hw); [done|]. injection Hw as ->. rewrite E. simpl.
    eexists _, _. split; [done|]. split; [by rewrite lookup_insert_eq|]. intros s'. by rewrite token_type_insert.
  - destruct Hok as (Hch & Hl & Hr). apply res_bind_Ret in Hv as (v1 & E1 & Hv). apply res_bind_Ret in Hv as (v2 & E2 & Hv).
    rewrite <- !app_assoc.
    destruct (IHl v1 (post r ++ [[ch]] ++ rest) st Hl E1 Hty) as (m1 & t1 & -> & _ & Ht1).
    destruct (IHr v2 ([[ch]] ++ rest) (LState (name l :: stk1 st) (v1 :: val_stk st) m1 t1) Hr E2 Ht1) as (m2 & t2 & -> & _ & Ht2).
    destruct (local_operator_op ch Hch) as [op Hop]. simpl. rewrite Hop in *. unfold calculate. simpl. rewrite Hv. simpl.
    eexists _, _. split; [done|]. split; [by rewrite lookup_insert_eq|done].
Qed.
End Machine.

(** ** Columns against rows, for either kind of value *)

Section Rows.
Context {D : Type} (vec : list D -> TokenValue) (con : D -> TokenValue) (rop : ascii -> D -> D -> res D).
Context (fp : bool) (c : ColumnConfig) (f : FeedDict) (tys : gmap str TokenType) (n : nat).
Context (leaf : nat -> str -> res D) (allowed : ascii -> Prop).

(** What a pair of operands becomes. *)
Hypothesis op_vv : forall ch op v1 v2, allowed ch -> local_operator fp [ch] = Some (ch, op) ->
  op (vec v1) (vec v2) = (r ← zip_res (rop ch) v1 v2; Ret (vec r)).
Hypothesis op_cv : forall ch op k v, allowed ch -> local_operator fp [ch] = Some (ch, op) ->
  op (con k) (vec v) = (r ← map_res (rop ch k) v; Ret (vec r)).
Hypothesis op_vc : forall ch op v k, allowed ch -> local_operator fp [ch] = Some (ch, op) ->
  op (vec v) (con k) = (r ← map_res (fun a => rop ch a k) v; Ret (vec r)).

Fixpoint allowed_tree (t : etree) : Prop :=
  match t with Leaf _ => True | Node ch l r => allowed ch /\ allowed_tree l /\ allowed_tree r end.

(** Columns have [n] rows, constants have a value. *)
Definition leaf_ok (s : str) : Prop :=
  match token_type tys s with
  | COLUMN => exists v, local_createTokenValue fp c f COLUMN s = Ret (inr (vec v)) /\ length v = n /\
                        forall i, (i < n)%nat -> leaf i s = or_undef (v !! i)
  | VALUE => exists k, local_createTokenValue fp c f VALUE s = Ret (inr (con k)) /\ forall i, leaf i s = Ret k
  end.

Lemma rows_tree t : tree_ok t -> allowed_tree t -> mixed tys t -> Forall leaf_ok (leaves t) ->
  (forall i, (i < n)%nat -> exists r, row_value (leaf i) rop t = Ret r) ->
  if is_const tys t then exists k, value_of fp c f tys t = Ret (con k) /\ forall i, row_value (leaf i) rop t = Ret k
  else exists v, value_of fp c f tys t = Ret (vec v) /\ length v = n /\
                 forall i, (i < n)%nat -> row_value (leaf i) rop t = or_undef (v !! i).
Proof.
  induction t as [s|ch l IHl r IHr]; simpl; intros Hok Hal Hmix Hlf Hrow.
  - inversion_clear Hlf as [|?? Hs _]. unfold leaf_ok in Hs. destruct (token_type tys s).
    + destruct Hs as (v & -> & Hlen & Hv). exists v. done.
    + destruct Hs as (k & -> & Hk). exists k. done.
  - destruct Hok as (Hch & Hl & Hr), Hal as (Hc & Hal & Har), Hmix as (Hlr & Hml & Hmr).
    apply Forall_app in Hlf as [Hfl Hfr].
    specialize (IHl Hl Hal Hml Hfl). specialize (IHr Hr Har Hmr Hfr).
    assert (Rl : forall i, (i < n)%nat -> exists r, row_value (leaf i) rop l = Ret r).
    { intros i Hi. destruct (Hrow i Hi) as [z Hz]. apply res_bind_Ret in Hz as (a & Ha & _). eauto. }
    assert (Rr : forall i, (i < n)%nat -> exists z, row_value (leaf i) rop r = Ret z).
    { intros i Hi. destruct (Hrow i Hi) as [z Hz]. apply res_bind_Ret in Hz as (a & _ & Hz).
      apply res_bind_Ret in Hz as (b & Hb & _). eauto. }
    specialize (IHl Rl). specialize (IHr Rr).
    destruct (local_operator_op fp ch Hch) as [op Hop]. rewrite Hop.
    destruct (is_const tys l), (is_const tys r); simpl in Hlr; try discriminate.
    + destruct IHl as (k & -> & Hk), IHr as (v & -> & Hlen & Hv). simpl. rewrite (op_cv ch op k v Hc Hop).
      destruct (map_res_ok (rop ch k) v) as (rs & -> & Hrl & Hrs).
      { intros i b Hb. assert (Hi := lookup_lt_Some _ _ _ Hb). destruct (Hrow i) as [z Hz]; [lia|].
        rewrite Hk, Hv, Hb in Hz by lia. simpl in Hz. eauto. }
      exists rs. split; [done|]. split; [lia|]. intros i Hi. destruct (Hrow i Hi) as [z Hz]. rewrite Hz.
      rewrite Hk, Hv in Hz by done. destruct (v !! i) as [b|] eqn:Hb; [|done]. simpl in Hz. by rewrite (Hrs i b z).
    + destruct IHl as (v & -> & Hlen & Hv), IHr as (k & -> & Hk). simpl. rewrite (op_vc ch op v k Hc Hop).
      destruct (map_res_ok (fun a => rop ch a k) v) as (rs & -> & Hrl & Hrs).
      { intros i b Hb. assert (Hi := lookup_lt_Some _ _ _ Hb). destruct (Hrow i) as [z Hz]; [lia|].
        rewrite Hk, Hv, Hb in Hz by lia. simpl in Hz. eauto. }
      exists rs. split; [done|]. split; [lia|]. intros i Hi. destruct (Hrow i Hi) as [z Hz]. rewrite Hz.
      rewrite Hk, Hv in Hz by done. destruct (v !! i) as [b|] eqn:Hb; [|done]. simpl in Hz. by rewrite (Hrs i b z).
    + destruct IHl as (v & -> & Hlen & Hv), IHr as (w & -> & Hlen' & Hw). simpl. rewrite (op_vv ch op v w Hc Hop).
      destruct (zip_res_ok (rop ch) v w) as (rs & -> & Hrl & Hrs); [lia| |].
      { intros i a b Ha Hb. assert (Hi := lookup_lt_Some _ _ _ Hb). destruct (Hrow i) as [z Hz]; [lia|].
        rewrite Hv, Ha, Hw, Hb in Hz by lia. simpl in Hz. eauto. }
      exists rs. split; [done|]. split; [lia|]. intros i Hi. destruct (Hrow i Hi) as [z Hz]. rewrite Hz.
      rewrite Hv, Hw in Hz by done. destruct (v !! i) as [a|] eqn:Ha; [|done].
      destruct (w !! i) as [b|] eqn:Hb; [|done]. simpl in Hz. by rewrite (Hrs i a b z).
Qed.
End Rows.

Lemma dadd_comm a b : dadd a b = dadd b a.
Proof.
  destruct a as [[]|[]| |sa ma ea], b as [[]|[]| |sb mb eb]; try reflexivity.
  unfold dadd, SFadd. by rewrite (Z.min_comm ea eb), Z.add_comm.
Qed.

Lemma map_res_ext {A B} (f g : A -> res B) v : (forall a, f a = g a) -> map_res f v = map_res g v.
Proof. intros H. induction v as [|a v IH]; simpl; [done|]. by rewrite H, IH. Qed.

(** The operator of a token in floating-point mode, on the three kinds of pair. *)
Lemma fp64_operator_cases ch op : operator ch -> local_operator true [ch] = Some (ch, op) ->
  (forall v1 v2, op (FP64Vec v1) (FP64Vec v2) = (r ← zip_res (fp64_row_op ch) v1 v2; Ret (FP64Vec r))) /\
  (forall k v, op (FP64Val k) (FP64Vec v) = (r ← map_res (fp64_row_op ch k) v; Ret (FP64Vec r))) /\
  (forall v k, op (FP64Vec v) (FP64Val k) = (r ← map_res (fun a => fp64_row_op ch a k) v; Ret (FP64Vec r))).
Proof.
  intros [[-> | ->]|[-> | ->]] [= <-]; split; try (split); intros; try reflexivity.
  cbn. f_equal. apply map_res_ext. intros x. by rewrite dadd_comm.
Qed.

Lemma i64_operator_cases ch op : operator ch -> ch <> "/"%char -> local_operator false [ch] = Some (ch, op) ->
  (forall v1 v2, op (I64Vec v1) (I64Vec v2) = (r ← zip_res (i64_row_op ch) v1 v2; Ret (I64Vec r))) /\
  (forall k v, op (I64Val k) (I64Vec v) = (r ← map_res (i64_row_op ch k) v; Ret (I64Vec r))) /\
  (forall v k, op (I64Vec v) (I64Val k) = (r ← map_res (fun a => i64_row_op ch a k) v; Ret (I64Vec r))).
Proof.
  intros [[-> | ->]|[-> | ->]] Hd [= <-]; try done; split; try (split); intros; try reflexivity.
  cbn. f_equal. apply map_res_ext. intros x. by rewrite Z.add_comm.
Qed.

Lemma allowed_operators t : tree_ok t -> allowed_tree operator t.
Proof. induction t; simpl; tauto. Qed.

Lemma allowed_no_div t : tree_ok t -> divides t = false ->
  allowed_tree (fun ch => operator ch /\ ch <> "/"%char) t.
Proof.
  induction t as [|ch l IHl r IHr]; simpl; [done|]. intros (Hc & Hl & Hr) Hd.
  apply orb_false_iff in Hd as [Hd Hdr]. apply orb_false_iff in Hd as [Hd Hdl].
  apply bool_decide_eq_false in Hd. auto.
Qed.

(** The operands of an expression are there: each is a constant, or a column the
    party holds with [n] rows. *)
Definition operands_ok {A : Type} (tys : gmap str TokenType) (c : ColumnConfig) (cols : gmap str (list A)) (n : nat)
    (isnum : str -> Prop) (l : list str) : Prop :=
  Forall (fun s => match token_type tys s with
    | COLUMN => local_in c s /\ exists v, cols !! s = Some v /\ length v = n
    | VALUE => isnum s end) l.

Lemma fp64_leaf_ok tys c f n s : float_run_ f = true ->
  match token_type tys s with
  | COLUMN => local_in c s /\ exists v, fp64_col_ f !! s = Some v /\ length v = n
  | VALUE => exists k, stod s = Ret k end ->
  leaf_ok FP64Vec FP64Val true c f tys n (fun i => fp64_leaf tys f i) s.
Proof.
  intros Hf. unfold leaf_ok, fp64_leaf. destruct (token_type tys s); simpl.
  - intros (Hl & v & Hv & Hn). exists v. unfold getColumnValues_fp64, getColumnLocality. rewrite Hl. simpl.
    rewrite Hf, Hv. done.
  - intros [k Hk]. exists k. by rewrite Hk.
Qed.

Lemma i64_leaf_ok tys c f n s : float_run_ f = false ->
  match token_type tys s with
  | COLUMN => local_in c s /\ exists v, int64_col_ f !! s = Some v /\ length v = n
  | VALUE => True end ->
  leaf_ok I64Vec I64Val false c f tys n (fun i => i64_leaf tys f i) s.
Proof.
  intros Hf. unfold leaf_ok, i64_leaf. destruct (token_type tys s); simpl.
  - intros (Hl & v & Hv & Hn). exists v. unfold getColumnValues_i64, getColumnLocality. rewrite Hl. simpl.
    rewrite Hf, Hv. done.
  - intros _. by exists (atol s).
Qed.

(** From the value of the tree to the whole evaluation. *)
Lemma run_local_value x e c f v :
  exp_ok e -> expr_ (mpc_exec_ x) = print_exp e -> suffix_stk_ (mpc_exec_ x) = [] ->
  new_col_cfg x = Some c -> new_feed x = Some f ->
  value_of (fp64_run_ (mpc_exec_ x)) c f (token_type_map_ (mpc_exec_ x)) (tree_exp e) = Ret v ->
  match v with
  | FP64Vec d => exists x', runLocalEvaluate x = Ret (0, x') /\ suffix_stk_ (mpc_exec_ x') = [] /\
                   final_val_double x' = final_val_double x ++ d /\ final_val_int64 x' = final_val_int64 x
  | I64Vec z => exists x', runLocalEvaluate x = Ret (0, x') /\ suffix_stk_ (mpc_exec_ x') = [] /\
                   final_val_int64 x' = final_val_int64 x ++ z /\ final_val_double x' = final_val_double x
  | _ => True
  end.
Proof.
  intros He Hx Hs Hc Hf Hv. unfold runLocalEvaluate. rewrite Hx, Hs, Hc, Hf, parse_print by done. cbn [mbind res_bind or_undef].
  rewrite <- (proj2 (proj2 post_tree)), <- (app_nil_r (post _)).
  edestruct machine_tree as (m & tys' & -> & Hm & _); [by apply tree_ok_exp|exact Hv|intros s; reflexivity|].
  cbn. rewrite Hm. cbn. destruct v; cbn; try done; eexists; (split; [reflexivity|done]).
Qed.

(** ** Properties of the local evaluation *)

(** in floating-point mode the vectorised stack evaluation of an expression
    returns code 0 and appends to the result, for every row, the IEEE value of
    the expression tree at that row; it needs the operands to be there with one
    length and no operator to have two constant operands. *)
Theorem local_eval_fp64 x e c f n :
  exp_ok e -> expr_ (mpc_exec_ x) = print_exp e -> suffix_stk_ (mpc_exec_ x) = [] ->
  fp64_run_ (mpc_exec_ x) = true -> new_col_cfg x = Some c -> new_feed x = Some f -> float_run_ f = true ->
  let tys := token_type_map_ (mpc_exec_ x) in let t := tree_exp e in
  operands_ok tys c (fp64_col_ f) n (fun s => exists k, stod s = Ret k) (leaves t) ->
  mixed tys t -> is_const tys t = false ->
  exists x' v, runLocalEvaluate x = Ret (0, x') /\ final_val_double x' = final_val_double x ++ v /\ length v = n /\
    suffix_stk_ (mpc_exec_ x') = [] /\
    forall i, (i < n)%nat -> row_value (fp64_leaf tys f i) fp64_row_op t = or_undef (v !! i).
Proof.
  intros He Hx Hs Hfp Hc Hf Hr tys t Hops Hmix Hconst.
  assert (Hok : tree_ok t) by (by apply tree_ok_exp).
  assert (Hlf : Forall (leaf_ok FP64Vec FP64Val true c f tys n (fun i => fp64_leaf tys f i)) (leaves t)).
  { eapply Forall_impl; [exact Hops|]. intros s. by apply fp64_leaf_ok. }
  assert (Hrow : forall i, (i < n)%nat -> exists r, row_value (fp64_leaf tys f i) fp64_row_op t = Ret r).
  { intros i Hi. clear -Hlf Hi. induction t as [s|ch l IHl r IHr]; simpl in *.
    - inversion_clear Hlf as [|?? Hs _]. unfold leaf_ok in Hs. destruct (token_type tys s).
      + destruct Hs as (v & _ & Hn & Hv). rewrite Hv by done. rewrite <- Hn in Hi.
        destruct (lookup_lt_is_Some_2 v i Hi) as [a ->]. by exists a.
      + destruct Hs as (k & _ & Hk). by exists k.
    - apply Forall_app in Hlf as [Hl Hr]. destruct (IHl Hl) as [a ->], (IHr Hr) as [b ->]. simpl.
      unfold fp64_row_op. repeat case_decide; eauto. }
  assert (H := rows_tree FP64Vec FP64Val fp64_row_op true c f tys n (fun i => fp64_leaf tys f i) operator
    (fun ch op v1 v2 Ha Ho => proj1 (fp64_operator_cases ch op Ha Ho) v1 v2)
    (fun ch op k v Ha Ho => proj1 (proj2 (fp64_operator_cases ch op Ha Ho)) k v)
    (fun ch op v k Ha Ho => proj2 (proj2 (fp64_operator_cases ch op Ha Ho)) v k)
    t Hok (allowed_operators t Hok) Hmix Hlf Hrow).
  rewrite Hconst in H. destruct H as (v & Hv & Hn & Hi). rewrite <- Hfp in Hv.
  destruct (run_local_value x e c f _ He Hx Hs Hc Hf Hv) as (x' & E & Hs' & Hd & _). by exists x', v.
Qed.

(** in integer mode the evaluation of a division-free expression returns
    code 0 and, row by row, the exact integer value of the tree, whenever no
    intermediate result of any row leaves the 64-bit range. *)
Theorem local_eval_i64 x e c f n :
  exp_ok e -> expr_ (mpc_exec_ x) = print_exp e -> suffix_stk_ (mpc_exec_ x) = [] ->
  fp64_run_ (mpc_exec_ x) = false -> new_col_cfg x = Some c -> new_feed x = Some f -> float_run_ f = false ->
  let tys := token_type_map_ (mpc_exec_ x) in let t := tree_exp e in
  operands_ok tys c (int64_col_ f) n (fun _ => True) (leaves t) ->
  mixed tys t -> is_const tys t = false -> divides t = false ->
  (forall i, (i < n)%nat -> exists r, row_value (i64_leaf tys f i) i64_row_op t = Ret r) ->
  exists x' v, runLocalEvaluate x = Ret (0, x') /\ final_val_int64 x' = final_val_int64 x ++ v /\ length v = n /\
    suffix_stk_ (mpc_exec_ x') = [] /\
    forall i, (i < n)%nat -> row_value (i64_leaf tys f i) i64_row_op t = or_undef (v !! i).
Proof.
  intros He Hx Hs Hfp Hc Hf Hr tys t Hops Hmix Hconst Hdiv Hrow.
  assert (Hok : tree_ok t) by (by apply tree_ok_exp).
  assert (Hlf : Forall (leaf_ok I64Vec I64Val false c f tys n (fun i => i64_leaf tys f i)) (leaves t)).
  { eapply Forall_impl; [exact Hops|]. intros s. by apply i64_leaf_ok. }
  assert (H := rows_tree I64Vec I64Val i64_row_op false c f tys n (fun i => i64_leaf tys f i) (fun ch => operator ch /\ ch <> "/"%char)
    (fun ch op v1 v2 Ha Ho => proj1 (i64_operator_cases ch op (proj1 Ha) (proj2 Ha) Ho) v1 v2)
    (fun ch op k v Ha Ho => proj1 (proj2 (i64_operator_cases ch op (proj1 Ha) (proj2 Ha) Ho)) k v)
    (fun ch op v k Ha Ho => proj2 (proj2 (i64_operator_cases ch op (proj1 Ha) (proj2 Ha) Ho)) v k)
    t Hok (allowed_no_div t Hok Hdiv) Hmix Hlf Hrow).
  rewrite Hconst in H. destruct H as (v & Hv & Hn & Hi). rewrite <- Hfp in Hv.
  destruct (run_local_value x e c f _ He Hx Hs Hc Hf Hv) as (x' & E & Hs' & Hd & _). by exists x', v.
Qed.

(** Two rows of four columns, and the constant [-2]. *)
Definition sample_cols : list str := chars <$> ["A"; "B"; "C"; "D"]%string.

Definition sample_local_cfg : ColumnConfig :=
  {| cc_party_id := 0; col_owner_ := ∅; col_dtype_ := list_to_map ((fun s => (s, INT64)) <$> sample_cols);
     local_col_ := list_to_map ((fun s => (s, true)) <$> sample_cols) |}.

Definition sample_feed (fp : bool) : FeedDict :=
  {| float_run_ := fp; val_count_ := 2;
     fp64_col_ := if fp then list_to_map (zip sample_cols (map (map d_of_int) [[6; 7]; [8; 9]; [10; 11]; [12; 13]])) else ∅;
     int64_col_ := if fp then ∅ else list_to_map (zip sample_cols [[6; 7]; [8; 9]; [10; 11]; [12; 13]]) |}.

Definition sample_local (fp : bool) (e : exp) : LocalExpressExecutor :=
  {| mpc_exec_ := {| fp64_run_ := fp; expr_ := print_exp e; suffix_stk_ := []; col_config_ := None; feed_dict_ := None;
                     token_val_map_ := ∅; token_type_map_ := {[ chars "-2" := VALUE ]}; party_id_ := 0 |};
     l_token_val_map := ∅; new_feed := Some (sample_feed fp); new_col_cfg := Some sample_local_cfg;
     final_val_double := []; final_val_int64 := [] |}.

(** [(A+B)*C-(-2)] *)
Definition sample_int_exp : exp :=
  EAdd (ETrm (TMul (TFac (FParen (EAdd (ETrm (TFac (FAtom "A"))) "+" (TFac (FAtom "B"))))) "*" (FAtom "C")))
    "-" (TFac (FNeg "2")).

Lemma sample_int_exp_ok : exp_ok sample_int_exp.
Proof.
  simpl. unfold mul_op, add_op, atom_ok, name_char.
  repeat split; try done; try (repeat constructor; done); by (left + right).
Qed.

Lemma local_eval_fp64_witness : exists x' v, runLocalEvaluate (sample_local true sample_exp) = Ret (0, x') /\ length v = 2%nat /\
  final_val_double x' = [] ++ v.
Proof.
  edestruct (local_eval_fp64 (sample_local true sample_exp) sample_exp sample_local_cfg (sample_feed true) 2)
    as (x' & v & H1 & H2 & H3 & _); try reflexivity.
  - apply sample_exp_ok.
  - repeat constructor; try (eexists; split; vm_compute; reflexivity).
  - repeat constructor.
  - exists x', v. exact (conj H1 (conj H3 H2)).
Defined.

Lemma local_eval_i64_witness : exists x' v, runLocalEvaluate (sample_local false sample_int_exp) = Ret (0, x') /\
  length v = 2%nat /\ final_val_int64 x' = [] ++ v.
Proof.
  edestruct (local_eval_i64 (sample_local false sample_int_exp) sample_int_exp sample_local_cfg (sample_feed false) 2)
    as (x' & v & H1 & H2 & H3 & _); try reflexivity.
  - apply sample_int_exp_ok.
  - repeat constructor; try (eexists; split; vm_compute; reflexivity).
  - repeat constructor.
  - intros [|[|i]] Hi; [..|lia]; eexists; vm_compute; reflexivity.
  - exists x', v. exact (conj H1 (conj H3 H2)).
Defined.

(** An operator on two constants reads one of them as a column. *)
Lemma local_const_pair (fp : bool) ch op k1 k2 : operator ch -> local_operator fp [ch] = Some (ch, op) ->
  op (if fp then FP64Val k1 else I64Val k2) (if fp then FP64Val k1 else I64Val k2) = Undef.
Proof. intros [[-> | ->]|[-> | ->]] [= <-]; by destruct fp. Qed.
