(* ===== verification/ExprMpc.v ===== *)
(** * Evaluation of expressions on shares by three parties

    Models [runMPCEvaluate], [runMPC*], [createTokenValue] and [revealMPCResult] of
    [executor/express.cc].  Each party runs its own executor; what it does is a
    program ([prog] of [PartyProg]), and [run3] runs the three programs together.
    The I64 and FP64 copies of a function in the
    source are one definition with the run mode as its argument. *)

From Stdlib Require Import Ascii String ZArith Lia SpecFloat.
From stdpp Require Import base tactics list option gmap strings.
From S2P Require Import Prelude ModArith Machine Aby3Op PartyProg MpcDiv ExprParse ExprConfig ExprLocal.

Local Open Scope Z_scope.

Section Party.
Context `{E : Aby3}.

(** ** Operands *)

(** [constructI64Matrix] and [constructFP64Matrix]; for a constant they read the
    union member of the other type. *)
Definition constructMatrix (fp : bool) (val : TokenValue) : res i64Matrix :=
  if val_type val =? (if fp then 2 else 3) then Undef
  else if fp then v ← as_fp64_vec val; Ret (Mat (length v) 1 (to_fixed <$> v))
  else v ← as_i64_vec val; Ret (Mat (length v) 1 v).

(** [createI64Shares] and [createFP64Shares] into a matrix of [n] rows. *)
Definition createSharesOf (fp : bool) (n : nat) (val : TokenValue) : prog si64Matrix :=
  if val_type val =? 4 then call3 (if fp then RemoteFixed n 1 else RemoteInt n 1)
  else m ← Done (constructMatrix fp val); call3 (if fp then LocalFixed m else LocalInt m).

Inductive operand := OShare (s : si64Matrix) | OConst (k : Z).

Definition as_share (fp : bool) (val : TokenValue) : res si64Matrix :=
  match val with
  | ShFP64 s => if fp then Ret s else Undef
  | ShI64 s => if fp then Undef else Ret s
  | _ => Undef
  end.

Definition as_const (fp : bool) (val : TokenValue) : res Z :=
  match val with
  | FP64Val d => if fp then Ret (to_fixed d) else Undef
  | I64Val z => if fp then Undef else Ret z
  | _ => Undef
  end.

(** The [if]/[else if]/[else] each [runMPC*] function starts with, per operand. *)
Definition prepare (fp : bool) (n : nat) (val : TokenValue) : prog operand :=
  if (val_type val =? (if fp then 0 else 1)) || (val_type val =? 4) then
    s ← createSharesOf fp n val; mret (OShare s)
  else if val_type val =? (if fp then 2 else 3) then
    k ← Done (as_const fp val); mret (OConst k)
  else s ← Done (as_share fp val); mret (OShare s).

(** [createTokenValue] of a result. *)
Definition share_value (fp : bool) (s : si64Matrix) : TokenValue := if fp then ShFP64 s else ShI64 s.

(** ** Operators *)

(** [runMPCAddFP64] and [runMPCAddI64]; with two constants the null pointer
    [p_sh_val2] is dereferenced. *)
Definition runMPCAdd (fp : bool) (party : Z) (n : nat) (val1 val2 : TokenValue) : prog TokenValue :=
  o1 ← prepare fp n val1; o2 ← prepare fp n val2;
  match o1, o2 with
  | OShare a, OShare b => s ← Done (MPC_Add [a; b]); mret (share_value fp s)
  | OConst k, OShare b => mret (share_value fp (MPC_Add_Const party k b))
  | OShare a, OConst k => mret (share_value fp (MPC_Add_Const party k a))
  | OConst _, OConst _ => Done Undef
  end.

Definition runMPCSub (fp : bool) (party : Z) (n : nat) (val1 val2 : TokenValue) : prog TokenValue :=
  o1 ← prepare fp n val1; o2 ← prepare fp n val2;
  match o1, o2 with
  | OShare a, OShare b => mret (share_value fp (MPC_Sub a [b]))
  | OConst k, OShare b => mret (share_value fp (MPC_Sub_Const party k b false))
  | OShare a, OConst k => mret (share_value fp (MPC_Sub_Const party k a true))
  | OConst _, OConst _ => Done Undef
  end.

(** [MPC_Dot_Mul] with its shape check. *)
Definition MPC_Dot_Mul (fp : bool) (A B : si64Matrix) : prog si64Matrix :=
  if dot_shapes A B then call3 (if fp then DotMulFixed A B else DotMul A B) else Done Throw.

Definition MPC_Mul_Const_of (fp : bool) (k : Z) (A : si64Matrix) : prog si64Matrix :=
  if fp then call3 (ConstFixedMul k A) else mret (MPC_Mul_Const k A).

Definition runMPCMul (fp : bool) (n : nat) (val1 val2 : TokenValue) : prog TokenValue :=
  o1 ← prepare fp n val1; o2 ← prepare fp n val2;
  s ← match o1, o2 with
      | OShare a, OShare b => MPC_Dot_Mul fp a b
      | OConst k, OShare b => MPC_Mul_Const_of fp k b
      | OShare a, OConst k => MPC_Mul_Const_of fp k a
      | OConst _, OConst _ => Done Undef
      end;
  mret (share_value fp s).

(** [runMPCDivFP64]: a constant dividend is shared by party 0; a constant divisor
    is inverted. *)
Definition div_dividend (party : Z) (n : nat) (val1 : TokenValue) : prog si64Matrix :=
  match val1 with
  | FP64Val d =>
      if party =? 0 then call3 (LocalFixed (Mat n 1 (to_fixed <$> replicate n d))) else call3 (RemoteFixed n 1)
  | _ =>
      o ← prepare true n val1;
      match o with OShare s => mret s | OConst _ => Done Undef end
  end.

Definition runMPCDivFP64 (party : Z) (n : nat) (val1 val2 : TokenValue) : prog TokenValue :=
  a ← div_dividend party n val1; o2 ← prepare true n val2;
  s ← match o2 with
      | OShare b => MPC_Div party a b
      | OConst k =>
          if val_type val1 =? 2 then Done Undef
          else call3 (ConstFixedMul (to_fixed (ddiv (d_of_int 1) (of_fixed k))) a)
      end;
  mret (ShFP64 s).

(** ** Token values *)

(** [MPCExpressExecutor::createTokenValue]: the value, or the error code. *)
Definition mpc_createTokenValue (fp : bool) (c : ColumnConfig) (f : FeedDict) (type : TokenType) (token : str)
  : res (Z + TokenValue) :=
  match type with
  | COLUMN =>
      '(ret, is_local) ← getColumnLocality c token;
      if negb (ret =? 0) then Ret (inl (-2))
      else if negb is_local then Ret (inr RemoteCol)
      else if fp then
        r ← getColumnValues_fp64 c f token;
        Ret (match r with inl _ => inl (-2) | inr v => inr (FP64Vec v) end)
      else
        r ← getColumnValues_i64 c f token;
        Ret (match r with inl _ => inl (-2) | inr v => inr (I64Vec v) end)
  | VALUE =>
      if fp then d ← stod token; Ret (inr (FP64Val d))
      else Ret (inr (I64Val (atol token)))
  end.

(** ** The loop *)

Definition mpc_operator (fp : bool) (party : Z) (n : nat) (token : str)
  : option (ascii * (TokenValue -> TokenValue -> prog TokenValue)) :=
  if decide (token = ["+"%char]) then Some ("+"%char, runMPCAdd fp party n)
  else if decide (token = ["-"%char]) then Some ("-"%char, runMPCSub fp party n)
  else if decide (token = ["*"%char]) then Some ("*"%char, runMPCMul fp n)
  else if decide (token = ["/"%char]) then Some ("/"%char, runMPCDivFP64 party n)
  else None.

(** [BeforeMPCRun], the operation, [AfterMPCRun]. *)
Definition mpc_calculate (op : TokenValue -> TokenValue -> prog TokenValue) (ch : ascii) (st : lstate) : prog lstate :=
  '(a, b, val1, val2, ts, vs) ← Done (BeforeMPCRun (stk1 st) (val_stk st));
  v ← op val1 val2;
  let new_token := ["("%char] ++ a ++ [ch] ++ b ++ [")"%char] in
  mret (LState (new_token :: ts) (v :: vs) (<[new_token := v]> (val_map st)) (types st)).

Fixpoint mpc_loop (fp : bool) (party : Z) (c : ColumnConfig) (f : FeedDict) (suffix : list str) (st : lstate)
  : prog (Z * lstate * list str) :=
  match suffix with
  | [] => mret (0, st, [])
  | token :: suffix =>
      match mpc_operator fp party (getColumnValuesCount f) token with
      | Some (ch, op) => st ← mpc_calculate op ch st; mpc_loop fp party c f suffix st
      | None =>
          let type := token_type (types st) token in
          let tys := map_insert token COLUMN (types st) in
          r ← Done (mpc_createTokenValue fp c f type token);
          match r with
          | inl _ => mret (-1, LState (token :: stk1 st) (val_stk st) (val_map st) tys, suffix)
          | inr v => mpc_loop fp party c f suffix
                       (LState (token :: stk1 st) (v :: val_stk st) (<[token := v]> (val_map st)) tys)
          end
      end
  end.

Definition set_run (x : MPCExpressExecutor) (suffix : list str) (st : lstate) : MPCExpressExecutor :=
  {| fp64_run_ := fp64_run_ x; expr_ := expr_ x; suffix_stk_ := suffix; col_config_ := col_config_ x;
     feed_dict_ := feed_dict_ x; token_val_map_ := val_map st; token_type_map_ := types st; party_id_ := party_id_ x |}.

Definition runMPCEvaluate (x : MPCExpressExecutor) : prog (Z * MPCExpressExecutor) :=
  c ← Done (or_undef (col_config_ x));
  f ← Done (or_undef (feed_dict_ x));
  '(rc, st, rest) ← mpc_loop (fp64_run_ x) (party_id_ x) c f (suffix_stk_ x)
                      (LState [] [] (token_val_map_ x) (token_type_map_ x));
  if negb (rc =? 0) then mret (-1, set_run x rest st)
  else mret (0, set_run x (drain (stk1 st) rest) st).

(** ** Opening the result *)

Definition pop_suffix (x : MPCExpressExecutor) : MPCExpressExecutor :=
  {| fp64_run_ := fp64_run_ x; expr_ := expr_ x; suffix_stk_ := tail (suffix_stk_ x); col_config_ := col_config_ x;
     feed_dict_ := feed_dict_ x; token_val_map_ := token_val_map_ x; token_type_map_ := token_type_map_ x;
     party_id_ := party_id_ x |}.

(** The loop over the parties; [val_vec] collects the opened cells of the column. *)
Fixpoint reveal_loop (me : Z) (s : si64Matrix) (parties : list Z) (val_vec : list Z) : prog (list Z) :=
  match parties with
  | [] => mret val_vec
  | party :: parties =>
      if me =? party then RevealRecv s (fun m => reveal_loop me s parties (val_vec ++ cells m))
      else RevealSend s party (reveal_loop me s parties val_vec)
  end.

(** [revealMPCResult] for integers. *)
Definition revealMPCResult_i64 (x : MPCExpressExecutor) (parties : list Z) (val_vec : list Z)
  : prog (list Z * MPCExpressExecutor) :=
  match suffix_stk_ x with
  | [] => Done Undef
  | final_token :: _ =>
      val ← Done (or_undef (token_val_map_ x !! final_token));
      s ← Done (as_share false val);
      v ← reveal_loop (party_id_ x) s parties [];
      mret (val_vec ++ v, pop_suffix x)
  end.

(** [revealMPCResult] for doubles. *)
Definition revealMPCResult_fp64 (x : MPCExpressExecutor) (parties : list Z) (val_vec : list double)
  : prog (list double * MPCExpressExecutor) :=
  match suffix_stk_ x with
  | [] => Done Undef
  | final_token :: _ =>
      val ← Done (or_undef (token_val_map_ x !! final_token));
      s ← Done (as_share true val);
      v ← reveal_loop (party_id_ x) s parties [];
      mret (val_vec ++ (of_fixed <$> v), pop_suffix x)
  end.
End Party.

(** ** What the parties hold for a tree *)

Section Joint.
Context `{L : Aby3Laws}.
Context (fp : bool) (N : nat) (tys : gmap str TokenType) (leaf : nat -> str -> Z -> Prop).

(** The operators on the secrets: exact modulo 2^64, and in fixed point the
    library's truncated product and the division of [MpcDiv]; a constant divisor
    is inverted first. *)
Definition reciprocal (k : Z) : Z := to_fixed (ddiv (d_of_int 1) (of_fixed k)).

Definition op_rel (ch : ascii) (a b z : Z) : Prop :=
  (ch = "+"%char /\ z = wrap (a + b)) \/ (ch = "-"%char /\ z = wrap (a - b)) \/
  (ch = "*"%char /\ if fp then fixed_product a b z \/ fixed_product b a z else z = wrap (a * b)) \/
  (ch = "/"%char /\ fp = true /\ (div_row a b z \/ fixed_product (reciprocal b) a z)).

(** [z] is a value of the tree at row [i]. *)
Inductive row_rel (i : nat) : etree -> Z -> Prop :=
| row_leaf s z : leaf i s z -> row_rel i (Leaf s) z
| row_node ch l r a b z : row_rel i l a -> row_rel i r b -> op_rel ch a b z -> row_rel i (Node ch l r) z.

Definition mat_rel (t : etree) (m : i64Matrix) : Prop :=
  rows m = N /\ cols m = 1%nat /\ forall i z, cells m !! i = Some z -> row_rel i t z.

Definition const_rel (t : etree) (k : Z) : Prop :=
  is_const tys t = true /\ in_i64 k = true /\ forall i, row_rel i t k.

(** The operands of a [runMPC*] function, at the three parties. *)
Inductive jop (t : etree) : trip operand -> Prop :=
| jop_const k : const_rel t k -> jop t (Trip (OConst k) (OConst k) (OConst k))
| jop_share s m : shares s m -> mat_rel t m -> jop t (trip_map OShare s).

(** The values on the stacks, at the three parties. *)
Inductive jval (t : etree) : trip TokenValue -> Prop :=
| jval_const v k : as_const fp v = Ret k -> const_rel t k -> jval t (Trip v v v)
| jval_col o v m : 0 <= o < 3 -> constructMatrix fp v = Ret m -> mat_ok m -> Forall (fun x => in_i64 x = true) (cells m) ->
    mat_rel t m -> jval t (if o =? 0 then Trip v RemoteCol RemoteCol else if o =? 1 then Trip RemoteCol v RemoteCol
                           else Trip RemoteCol RemoteCol v)
| jval_share s m : shares s m -> mat_rel t m -> jval t (trip_map (share_value fp) s).

Lemma construct_type v m : constructMatrix fp v = Ret m -> (val_type v =? 4) = false /\
  (val_type v =? (if fp then 0 else 1)) = true.
Proof. destruct fp, v; simpl; done. Qed.

Lemma create_local v m : constructMatrix fp v = Ret m ->
  createSharesOf fp N v = call3 (if fp then LocalFixed m else LocalInt m).
Proof. intros H. unfold createSharesOf. rewrite (proj1 (construct_type v m H)). by rewrite H. Qed.

Lemma prepare_local v m : constructMatrix fp v = Ret m ->
  prepare fp N v = prog_bind (fun s => Done (Ret (OShare s))) (call3 (if fp then LocalFixed m else LocalInt m)).
Proof.
  intros H. unfold prepare. rewrite (proj2 (construct_type v m H)), (create_local v m H). done.
Qed.

Lemma prepare_remote :
  prepare fp N RemoteCol = prog_bind (fun s => Done (Ret (OShare s))) (call3 (if fp then RemoteFixed N 1 else RemoteInt N 1)).
Proof. unfold prepare. by destruct fp. Qed.

(** Sharing a column. *)
Lemma prepare_col t o w m n : 0 <= o < 3 -> constructMatrix fp w = Ret m -> mat_ok m -> Forall (fun x => in_i64 x = true) (cells m) ->
  mat_rel t m ->
  exists s, steps n (trip_map (prepare fp N) (if o =? 0 then Trip w RemoteCol RemoteCol else if o =? 1 then Trip RemoteCol w RemoteCol
                           else Trip RemoteCol RemoteCol w)) (S n) (trip_map OShare s) /\ shares s m.
Proof.
  intros Ho Hm Hok Hr Hrel.
  assert (exists s, joint n (owner_calls (if fp then LocalFixed m else LocalInt m)
      (if fp then RemoteFixed N 1 else RemoteInt N 1) o) = Some s /\ shares s m) as (s & Hj & Hs).
  { destruct Hrel as (<- & <- & _). destruct fp; [by apply local_fixed_law|by apply local_int_law]. }
  exists s. split; [|done].
  apply steps_call3 in Hj. eapply (steps_bind _ _ _ _ (Trip (fun s => Done (Ret (OShare s))) (fun s => Done (Ret (OShare s)))
    (fun s => Done (Ret (OShare s))))) in Hj; [|apply (steps_done (S n) (trip_map OShare s))].
  unfold owner_calls in Hj. unfold trip_map, bind3 in *.
  destruct (o =? 0); [|destruct (o =? 1)]; simpl in *; by rewrite prepare_remote, (prepare_local w m Hm).
Qed.

(** Sharing an operand takes at most one round. *)
Lemma prepare_joint t v n : jval t v ->
  exists n' o, steps n (trip_map (prepare fp N) v) n' o /\ jop t o.
Proof.
  intros [w k Hk Hc|o w m Ho Hm Hok Hr Hrel|s m Hs Hrel].
  - exists n, (Trip (OConst k) (OConst k) (OConst k)). split; [|by constructor].
    assert (E0 : prepare fp N w = Done (Ret (OConst k))).
    { clear -Hk. destruct fp, w; simpl in Hk; try done; injection Hk as <-; reflexivity. }
    unfold trip_map. simpl. rewrite E0. apply (steps_done n (Trip _ _ _)).
  - destruct (prepare_col t o w m n Ho Hm Hok Hr Hrel) as (s & S1 & Hs).
    exists (S n), (trip_map OShare s). split; [exact S1|by apply (jop_share t s m)].
  - exists n, (trip_map OShare s). split; [|by apply (jop_share t s m)].
    assert (E0 : forall x, prepare fp N (share_value fp x) = Done (Ret (OShare x))) by (intros x; by destruct fp).
    unfold trip_map. simpl. rewrite !E0. apply (steps_done n (Trip _ _ _)).
Qed.

(** ** The operators, on the secrets *)

Lemma zip_rel ch l r a b f : mat_rel l a -> mat_rel r b -> (forall x y, op_rel ch x y (f x y)) ->
  mat_rel (Node ch l r) (mat_zip f a b).
Proof.
  intros (Hr & Hc & Ha) (_ & _ & Hb) Hf. split; [done|]. split; [done|]. intros i z Hz. simpl in Hz.
  apply lookup_zip_with_Some in Hz as (x & y & -> & Hx & Hy). by apply (row_node i ch l r x y); [apply Ha|apply Hb|apply Hf].
Qed.

Lemma map_rel_l ch l r k b f : const_rel l k -> mat_rel r b -> (forall y, op_rel ch k y (f y)) ->
  mat_rel (Node ch l r) (mat_map f b).
Proof.
  intros (_ & _ & Hk) (Hr & Hc & Hb) Hf. split; [done|]. split; [done|]. intros i z Hz. simpl in Hz.
  rewrite list_lookup_fmap in Hz. destruct (cells b !! i) as [y|] eqn:Hy; [|done]. injection Hz as <-.
  by apply (row_node i ch l r k y); [apply Hk|apply Hb|apply Hf].
Qed.

Lemma map_rel_r ch l r k a f : mat_rel l a -> const_rel r k -> (forall x, op_rel ch x k (f x)) ->
  mat_rel (Node ch l r) (mat_map f a).
Proof.
  intros (Hr & Hc & Ha) (_ & _ & Hk) Hf. split; [done|]. split; [done|]. intros i z Hz. simpl in Hz.
  rewrite list_lookup_fmap in Hz. destruct (cells a !! i) as [y|] eqn:Hy; [|done]. injection Hz as <-.
  by apply (row_node i ch l r y k); [apply Ha|apply Hk|apply Hf].
Qed.

(** The same for the fixed-point products, which are only related to their operands. *)
Lemma fixed_zip_rel l r a b c : mat_ok a -> mat_ok b -> mat_rel l a -> mat_rel r b -> same_shape c a -> fp = true ->
  Forall2 (fun xy z => fixed_product xy.1 xy.2 z) (zip (cells a) (cells b)) (cells c) ->
  mat_rel (Node "*" l r) c.
Proof.
  intros Hoa Hob (Hra & Hca & Ha) (Hrb & Hcb & Hb) [Hr Hc] Hfp HF. split; [congruence|]. split; [congruence|].
  intros i z Hz. destruct (Forall2_lookup_r _ _ _ _ _ HF Hz) as ([x y] & Hxy & Hp).
  apply lookup_zip_with_Some in Hxy as (x' & y' & [= -> ->] & Hx & Hy).
  apply (row_node i _ l r x' y'); [by apply Ha|by apply Hb|]. right; right; left. rewrite Hfp. auto.
Qed.

Lemma fixed_map_rel t1 t2 a k c (swap : bool) : mat_rel (if swap then t1 else t2) a -> const_rel (if swap then t2 else t1) k ->
  same_shape c a -> fp = true -> Forall2 (fun x z => fixed_product k x z) (cells a) (cells c) ->
  mat_rel (Node "*" t1 t2) c.
Proof.
  intros (Hra & Hca & Ha) (_ & _ & Hk) [Hr Hc] Hfp HF. split; [congruence|]. split; [congruence|].
  intros i z Hz. destruct (Forall2_lookup_r _ _ _ _ _ HF Hz) as (x & Hx & Hp).
  destruct swap; [apply (row_node i _ t1 t2 x k); [by apply Ha|by apply Hk|]|apply (row_node i _ t1 t2 k x); [by apply Hk|by apply Ha|]];
    right; right; left; rewrite Hfp; auto.
Qed.

Lemma rel_shape l r a b : mat_rel l a -> mat_rel r b -> same_shape a b.
Proof. intros (? & ? & _) (? & ? & _). split; congruence. Qed.

(** The result of an operator at the three parties. *)
Definition computes (t : etree) (n : nat) (p : trip (prog TokenValue)) : Prop :=
  exists n' s m, steps n p n' (trip_map (share_value fp) s) /\ shares s m /\ mat_rel t m.

Lemma computes_done t n s m : shares s m -> mat_rel t m ->
  computes t n (trip_map (fun x => Done (Ret (share_value fp x))) s).
Proof. intros Hs Hm. exists n, s, m. split; [apply (steps_done n (trip_map (share_value fp) s))|done]. Qed.

Lemma computes_call t n c s m : joint n c = Some s -> shares s m -> mat_rel t m ->
  computes t n (trip_map (fun x => prog_bind (fun y => Done (Ret (share_value fp y))) (call3 x)) c).
Proof.
  intros Hj Hs Hm. exists (S n), s, m. split; [|done].
  apply steps_call3 in Hj. set (k := fun y => Done (Ret (share_value fp y))).
  exact (steps_bind n (trip_map call3 c) (S n) s (Trip k k k) (S n) _ Hj (steps_done (S n) (trip_map (share_value fp) s))).
Qed.

(** Both operands are prepared, then [g] runs. *)
Lemma computes_operator ch l r v1 v2 n (op : Z -> TokenValue -> TokenValue -> prog TokenValue)
    (g : Z -> operand -> operand -> prog TokenValue) :
  (forall p w1 w2, op p w1 w2 = prog_bind (fun o1 => prog_bind (fun o2 => g p o1 o2) (prepare fp N w2)) (prepare fp N w1)) ->
  jval l v1 -> jval r v2 ->
  (forall n o1 o2, jop l o1 -> jop r o2 -> computes (Node ch l r) n (each2 g o1 o2)) ->
  computes (Node ch l r) n (each2 op v1 v2).
Proof.
  intros Hop H1 H2 Hg. destruct (prepare_joint l v1 n H1) as (n1 & o1 & S1 & J1).
  destruct (prepare_joint r v2 n1 H2) as (n2 & o2 & S2 & J2). destruct (Hg n2 o1 o2 J1 J2) as (n3 & s & m & S3 & Hs & Hm).
  exists n3, s, m. split; [|done]. unfold each2. rewrite !Hop.
  set (k2 p o1 := fun o2 => g p o1 o2). set (k1 p w2 := fun o1 => prog_bind (k2 p o1) (prepare fp N w2)).
  assert (S4 := steps_bind n1 _ n2 o2 (Trip (k2 0 (at0 o1)) (k2 1 (at1 o1)) (k2 2 (at2 o1))) n3 _ S2 S3).
  exact (steps_bind n _ n1 o1 (Trip (k1 0 (at0 v2)) (k1 1 (at1 v2)) (k1 2 (at2 v2))) n3 _ S1 S4).
Qed.

Lemma computes_add l r v1 v2 n : is_const tys l && is_const tys r = false -> jval l v1 -> jval r v2 ->
  computes (Node "+" l r) n (each2 (fun p => runMPCAdd fp p N) v1 v2).
Proof.
  intros Hnc H1 H2. eapply computes_operator; [intros; reflexivity|done..|]. clear H1 H2 v1 v2 n.
  intros n o1 o2 [k Hk|s m Hs Hm] [k' Hk'|s' m' Hs' Hm'].
  - by rewrite (proj1 Hk), (proj1 Hk') in Hnc.
  - apply (computes_done _ n (each (fun p => MPC_Add_Const p k) s') _ (shares_add_const k s' m' Hs')).
    apply (map_rel_l _ l r k); [done..|]. intros y. left. split; [done|]. by rewrite Z.add_comm.
  - apply (computes_done _ n (each (fun p => MPC_Add_Const p k') s) _ (shares_add_const k' s m Hs)).
    apply (map_rel_r _ l r k'); [done..|]. intros y. by left.
  - apply (computes_done _ n (each2 (fun _ => share_add) s s') _ (shares_add s s' m m' Hs Hs' (rel_shape l r m m' Hm Hm'))).
    apply zip_rel; [done..|]. intros x y. by left.
Qed.

Lemma computes_sub l r v1 v2 n : is_const tys l && is_const tys r = false -> jval l v1 -> jval r v2 ->
  computes (Node "-" l r) n (each2 (fun p => runMPCSub fp p N) v1 v2).
Proof.
  intros Hnc H1 H2. eapply computes_operator; [intros; reflexivity|done..|]. clear H1 H2 v1 v2 n.
  intros n o1 o2 [k Hk|s m Hs Hm] [k' Hk'|s' m' Hs' Hm'].
  - by rewrite (proj1 Hk), (proj1 Hk') in Hnc.
  - apply (computes_done _ n (each (fun p s => MPC_Sub_Const p k s false) s') _ (shares_sub_const k s' m' false Hs')).
    apply (map_rel_l _ l r k); [done..|]. intros y. right. by left.
  - apply (computes_done _ n (each (fun p s => MPC_Sub_Const p k' s true) s) _ (shares_sub_const k' s m true Hs)).
    apply (map_rel_r _ l r k'); [done..|]. intros y. right. by left.
  - apply (computes_done _ n (each2 (fun _ => share_sub) s s') _ (shares_sub s s' m m' Hs Hs' (rel_shape l r m m' Hm Hm'))).
    apply zip_rel; [done..|]. intros x y. right. by left.
Qed.

Lemma dot_shapes_ok A B a b : shares A a -> shares B b -> same_shape a b ->
  dot_shapes (at0 A) (at0 B) = true /\ dot_shapes (at1 A) (at1 B) = true /\ dot_shapes (at2 A) (at2 B) = true.
Proof.
  intros (_ & _ & ? & ? & ? & ? & ? & ?)%shares_ok (_ & _ & ? & ? & ? & ? & ? & ?)%shares_ok [Hr Hc].
  unfold dot_shapes. repeat split; rewrite !bool_decide_eq_true_2 by congruence; done.
Qed.

Lemma mul_const_fixed k A : fp = true -> MPC_Mul_Const_of fp k A = call3 (ConstFixedMul k A).
Proof. by intros ->. Qed.
Lemma mul_const_int k A : fp = false -> MPC_Mul_Const_of fp k A = Done (Ret (MPC_Mul_Const k A)).
Proof. by intros ->. Qed.
Lemma dot_mul_fixed A B : fp = true -> dot_shapes A B = true -> MPC_Dot_Mul fp A B = call3 (DotMulFixed A B).
Proof. unfold MPC_Dot_Mul. by intros -> ->. Qed.
Lemma dot_mul_int A B : fp = false -> dot_shapes A B = true -> MPC_Dot_Mul fp A B = call3 (DotMul A B).
Proof. unfold MPC_Dot_Mul. by intros -> ->. Qed.

(** A product with a constant, on either side. *)
Lemma computes_mul_const l r n k s m (swap : bool) :
  const_rel (if swap then r else l) k -> shares s m -> mat_rel (if swap then l else r) m ->
  computes (Node "*" l r) n (trip_map (fun x => prog_bind (fun y => Done (Ret (share_value fp y))) (MPC_Mul_Const_of fp k x)) s).
Proof.
  intros Hk Hs Hm. unfold trip_map. assert (fp = true \/ fp = false) as [Hfp|Hfp] by (destruct fp; auto).
  - destruct (const_fixed_law n k s m Hs (proj1 (proj2 Hk))) as (t & c & Hj & Ht & Hsh & HF).
    rewrite !mul_const_fixed by done. apply (computes_call _ n (trip_map (ConstFixedMul k) s) t c Hj Ht).
    by apply (fixed_map_rel l r m k c swap).
  - rewrite !mul_const_int by done. apply (computes_done _ n (trip_map (MPC_Mul_Const k) s) _ (shares_mul_const k s m Hs)).
    destruct swap; [apply (map_rel_r _ l r k)|apply (map_rel_l _ l r k)]; try done; intros y; right; right; left; rewrite Hfp;
      by rewrite ?(Z.mul_comm y).
Qed.

Lemma computes_mul l r v1 v2 n : is_const tys l && is_const tys r = false -> jval l v1 -> jval r v2 ->
  computes (Node "*" l r) n (each2 (fun _ => runMPCMul fp N) v1 v2).
Proof.
  intros Hnc H1 H2. eapply computes_operator; [intros; reflexivity|done..|]. clear H1 H2 v1 v2 n.
  intros n o1 o2 [k Hk|s m Hs Hm] [k' Hk'|s' m' Hs' Hm'].
  - by rewrite (proj1 Hk), (proj1 Hk') in Hnc.
  - by apply (computes_mul_const l r n k s' m' false).
  - by apply (computes_mul_const l r n k' s m true).
  - assert (Hsh := rel_shape l r m m' Hm Hm'). destruct (dot_shapes_ok s s' m m' Hs Hs' Hsh) as (D0 & D1 & D2).
    unfold each2. simpl. assert (fp = true \/ fp = false) as [Hfp|Hfp] by (destruct fp; auto).
    + destruct (dot_mul_fixed_law n s s' m m' Hs Hs' Hsh) as (t & c & Hj & Ht & Hc & HF).
      rewrite !dot_mul_fixed by done. apply (computes_call _ n (each2 (fun _ => DotMulFixed) s s') t c Hj Ht).
      apply (fixed_zip_rel l r m m' c); [by apply (shares_ok s)|by apply (shares_ok s')|done..].
    + destruct (dot_mul_law n s s' m m' Hs Hs' Hsh) as (t & Hj & Ht).
      rewrite !dot_mul_int by done. apply (computes_call _ n (each2 (fun _ => DotMul) s s') t _ Hj Ht).
      apply zip_rel; [done..|]. intros x y. right; right; left. by rewrite Hfp.
Qed.

(** *** Division *)

(** What [MpcDiv] promises of [MPC_Div]. *)
Definition secure_division : Prop := forall s t n a b, holds s n a -> holds t n b ->
  returns (Trip (MPC_Div 0 (at0 s) (at0 t)) (MPC_Div 1 (at1 s) (at1 t)) (MPC_Div 2 (at2 s) (at2 t)))
    (fun u => exists q, holds u n q /\ forall i, (i < n)%nat -> div_row (a i) (b i) (q i)).

(** The dividend is always shared, a constant by party 0. *)
Lemma dividend_joint t v n : fp = true -> jval t v ->
  exists n' s m, steps n (each (fun p => div_dividend p N) v) n' s /\ shares s m /\ mat_rel t m.
Proof.
  intros Hfp H. assert (Hpre : forall p w s, (forall d, w <> FP64Val d) -> prepare true N w = s ->
    div_dividend p N w = prog_bind (fun o => match o with OShare s => Done (Ret s) | OConst _ => Done Undef end) s).
  { intros p w s Hw <-. by destruct w; try (exfalso; by eapply Hw). }
  set (k := fun o => match o with OShare s => Done (Ret s) | OConst _ => Done (A := si64Matrix) Undef end) in *.
  destruct H as [w c Hc Hrel|o w m Ho Hm Hok Hr Hrel|s m Hs Hrel].
  - rewrite Hfp in Hc. destruct w as [| |d| | | |]; try discriminate Hc. injection Hc as <-. destruct Hrel as (_ & Hci & Hrow).
    set (m := Mat N 1 (to_fixed <$> replicate N d)).
    destruct (local_fixed_law n 0 m) as (s & Hj & Hs); [lia|unfold mat_ok, m; simpl; rewrite length_fmap, length_replicate; lia| |].
    { apply Forall_fmap, Forall_true. intros. apply to_fixed_range. }
    exists (S n), s, m. split; [exact (steps_call3 n (Trip (LocalFixed m) (RemoteFixed N 1) (RemoteFixed N 1)) s Hj)|].
    split; [done|]. split; [done|]. split; [done|]. intros i z Hz. unfold m in Hz. simpl in Hz.
    rewrite fmap_replicate in Hz. apply lookup_replicate in Hz as [-> _]. apply Hrow.
  - destruct (prepare_col t o w m n Ho Hm Hok Hr Hrel) as (s & S1 & Hs). exists (S n), s, m. split; [|done].
    assert (Hrem : forall d, RemoteCol <> FP64Val d) by discriminate.
    assert (Hw : forall d, w <> FP64Val d) by (intros d ->; rewrite Hfp in Hm; discriminate Hm).
    assert (S2 := steps_bind n _ (S n) _ (Trip k k k) (S n) s S1 (steps_done (S n) s)). rewrite Hfp in S2.
    unfold each, trip_map, bind3 in *. destruct (o =? 0); [|destruct (o =? 1)]; cbn [at0 at1 at2] in *;
      rewrite !(Hpre _ _ _ Hrem eq_refl), (Hpre _ w _ Hw eq_refl); exact S2.
  - exists n, s, m. split; [|done]. assert (E0 : forall p x, div_dividend p N (share_value fp x) = Done (Ret x)) by (intros p x; by rewrite Hfp).
    unfold each, trip_map. cbn [at0 at1 at2]. rewrite !E0. apply (steps_done n s).
Qed.

Lemma div_rel l r a b q : fp = true -> mat_rel l (column N a) -> mat_rel r (column N b) ->
  (forall i, (i < N)%nat -> div_row (a i) (b i) (q i)) -> mat_rel (Node "/" l r) (column N q).
Proof.
  intros Hfp (_ & _ & Ha) (_ & _ & Hb) Hq. split; [done|]. split; [done|]. intros i z Hz. simpl in Ha, Hb, Hz.
  rewrite list_lookup_fmap in Hz. destruct (seq 0 N !! i) as [j|] eqn:Hj; [|done]. injection Hz as <-.
  apply lookup_seq in Hj as [-> Hi]. simpl. apply (row_node i _ l r (a i) (b i)).
  - apply Ha. by rewrite list_lookup_fmap, lookup_seq_lt.
  - apply Hb. by rewrite list_lookup_fmap, lookup_seq_lt.
  - right; right; right. split; [done|]. split; [done|]. left. by apply Hq.
Qed.

Lemma rel_holds t s m : shares s m -> mat_rel t m -> exists v, m = column N v /\ holds s N v.
Proof.
  intros Hs (Hr & Hc & _). assert (Hl := proj1 (shares_ok _ _ Hs)). destruct m as [rw cl l]. unfold mat_ok in Hl. simpl in *. subst rw cl.
  rewrite Nat.mul_1_r in Hl. exists (fun i => nth i l 0). unfold holds. by rewrite <- (column_of N l Hl).
Qed.

Lemma computes_div l r v1 v2 n : fp = true -> secure_division -> is_const tys l && is_const tys r = false -> jval l v1 -> jval r v2 ->
  computes (Node "/" l r) n (each2 (fun p => runMPCDivFP64 p N) v1 v2).
Proof.
  intros Hfp Hsec Hnc H1 H2. destruct (dividend_joint l v1 n Hfp H1) as (n1 & s & m & S1 & Hs & Hm).
  destruct (prepare_joint r v2 n1 H2) as (n2 & o2 & S2 & J2). rewrite Hfp in S2.
  set (g (w1 : TokenValue) (p : Z) (a : si64Matrix) (o : operand) := prog_bind (fun s => Done (Ret (ShFP64 s)))
    match o with
    | OShare b => MPC_Div p a b
    | OConst k => if val_type w1 =? 2 then Done Undef else call3 (ConstFixedMul (reciprocal k) a)
    end).
  assert (S3 : exists n3 u mu, steps n2 (Trip (g (at0 v1) 0 (at0 s) (at0 o2)) (g (at1 v1) 1 (at1 s) (at1 o2)) (g (at2 v1) 2 (at2 s) (at2 o2)))
      n3 (trip_map (share_value fp) u) /\ shares u mu /\ mat_rel (Node "/" l r) mu).
  { destruct J2 as [k Hk|s' m' Hs' Hm'].
    - destruct (const_fixed_law n2 (reciprocal k) s m Hs (to_fixed_range _)) as (u & c & Hj & Hu & [Hr Hc] & HF).
      exists (S n2), u, c. split; [|split; [done|]].
      + assert (Hv : (val_type (at0 v1) =? 2) = false /\ (val_type (at1 v1) =? 2) = false /\ (val_type (at2 v1) =? 2) = false).
        { rewrite (proj1 Hk), andb_true_r in Hnc. destruct H1 as [w c1 Hc1 Hrel|o w m1 Ho Hm1 _ _ _|s1 m1 _ _].
          - by rewrite (proj1 Hrel) in Hnc.
          - assert (E4 : (val_type w =? 2) = false) by (rewrite Hfp in Hm1; destruct w; simpl in *; try discriminate Hm1; reflexivity).
            destruct (o =? 0); [|destruct (o =? 1)]; cbn [at0 at1 at2]; rewrite E4; done.
          - by rewrite Hfp. }
        destruct Hv as (E0 & E1 & E2). unfold g. cbn [at0 at1 at2]. rewrite E0, E1, E2.
        assert (S4 := steps_call3 n2 (trip_map (ConstFixedMul (reciprocal k)) s) u Hj).
        set (k' := fun s : si64Matrix => Done (Ret (ShFP64 s))).
        assert (S5 := steps_bind n2 _ (S n2) u (Trip k' k' k') (S n2) (trip_map ShFP64 u) S4 (steps_done (S n2) (trip_map ShFP64 u))).
        rewrite Hfp. exact S5.
      + destruct Hm as (Hrm & Hcm & Hrow). split; [congruence|]. split; [congruence|]. intros i z Hz.
        destruct (Forall2_lookup_r _ _ _ _ _ HF Hz) as (y & Hy & Hp).
        apply (row_node i _ l r y k); [by apply Hrow|by apply Hk|]. right; right; right. auto.
    - destruct (rel_holds _ _ _ Hs Hm) as (a & -> & Ha). destruct (rel_holds _ _ _ Hs' Hm') as (b & -> & Hb).
      destruct (Hsec s s' N a b Ha Hb n2) as (n3 & u & S4 & q & Hu & Hq). exists n3, u, (column N q).
      split; [|split; [done|by apply (div_rel l r a b)]].
      set (k' := fun s : si64Matrix => Done (Ret (ShFP64 s))).
      assert (S5 := steps_bind n2 _ n3 u (Trip k' k' k') n3 (trip_map ShFP64 u) S4 (steps_done n3 (trip_map ShFP64 u))).
      rewrite Hfp. exact S5. }
  destruct S3 as (n3 & u & mu & S3 & Hu & Hmu). exists n3, u, mu. split; [|done]. unfold each2, runMPCDivFP64.
  assert (S4 := steps_bind n1 _ n2 o2 (Trip (g (at0 v1) 0 (at0 s)) (g (at1 v1) 1 (at1 s)) (g (at2 v1) 2 (at2 s))) n3 _ S2 S3).
  set (k1 w1 w2 p := fun a => prog_bind (g w1 p a) (prepare true N w2)).
  exact (steps_bind n _ n1 s (Trip (k1 (at0 v1) (at0 v2) 0) (k1 (at1 v1) (at1 v2) 1) (k1 (at2 v1) (at2 v2) 2)) n3 _ S1 S4).
Qed.

(** ** The three loops in step *)

Context (cs : trip ColumnConfig) (fs : trip FeedDict).
Hypothesis counts : forall f, f = at0 fs \/ f = at1 fs \/ f = at2 fs -> getColumnValuesCount f = N.

Definition loop3 (suffix : list str) (st : trip lstate) : trip (prog (Z * lstate * list str)) :=
  Trip (mpc_loop fp 0 (at0 cs) (at0 fs) suffix (at0 st)) (mpc_loop fp 1 (at1 cs) (at1 fs) suffix (at1 st))
    (mpc_loop fp 2 (at2 cs) (at2 fs) suffix (at2 st)).

Definition types_agree (st : trip lstate) : Prop :=
  forall s, token_type (types (at0 st)) s = token_type tys s /\ token_type (types (at1 st)) s = token_type tys s /\
            token_type (types (at2 st)) s = token_type tys s.

(** The operand [s] at the three parties. *)
Definition leaf_ready (s : str) : Prop :=
  exists v, jval (Leaf s) v /\
    each2 (fun _ c f => mpc_createTokenValue fp c f (token_type tys s) s) cs fs = trip_map (fun x => Ret (inr x)) v.

(** The states after the token [w] with its values [v] went onto the stacks. *)
Definition pushed (w : str) (v : trip TokenValue) (st st' : trip lstate) : Prop :=
  (exists m0 m1 m2 t0 t1 t2,
     st' = Trip (LState (w :: stk1 (at0 st)) (at0 v :: val_stk (at0 st)) m0 t0)
                (LState (w :: stk1 (at1 st)) (at1 v :: val_stk (at1 st)) m1 t1)
                (LState (w :: stk1 (at2 st)) (at2 v :: val_stk (at2 st)) m2 t2) /\
     m0 !! w = Some (at0 v) /\ m1 !! w = Some (at1 v) /\ m2 !! w = Some (at2 v)) /\
  types_agree st'.

Lemma mpc_operator_leaf p n s : isOperatorStr s = false -> mpc_operator fp p n s = None.
Proof. unfold isOperatorStr, mpc_operator. repeat case_decide; done. Qed.

Lemma loop_leaf s n rest st : isOperatorStr s = false -> leaf_ready s -> types_agree st ->
  exists v st', jval (Leaf s) v /\ pushed s v st st' /\
    forall n2 b, steps n (loop3 rest st') n2 b -> steps n (loop3 (s :: rest) st) n2 b.
Proof.
  intros Hs (v & Hv & Hl) Hty. destruct v as [v0 v1 v2]. unfold each2, trip_map in Hl. injection Hl as L0 L1 L2.
  set (push (x : lstate) (v : TokenValue) :=
    LState (s :: stk1 x) (v :: val_stk x) (<[s := v]> (val_map x)) (map_insert s COLUMN (types x))).
  exists (Trip v0 v1 v2), (Trip (push (at0 st) v0) (push (at1 st) v1) (push (at2 st) v2)). split; [exact Hv|]. split.
  - split; [exists (<[s := v0]> (val_map (at0 st))), (<[s := v1]> (val_map (at1 st))), (<[s := v2]> (val_map (at2 st))),
      (map_insert s COLUMN (types (at0 st))), (map_insert s COLUMN (types (at1 st))), (map_insert s COLUMN (types (at2 st)));
      split; [reflexivity|]; simpl; rewrite !lookup_insert_eq; done|].
    intros w. simpl. rewrite !token_type_insert. apply Hty.
  - intros n2 b H. unfold loop3. simpl. rewrite !mpc_operator_leaf by done.
    rewrite (proj1 (Hty s)), (proj1 (proj2 (Hty s))), (proj2 (proj2 (Hty s))). simpl in L0, L1, L2. rewrite L0, L1, L2. exact H.
Qed.

(** The operator a token stands for, at party [p]. *)
Definition run_op (ch : ascii) (p : Z) : TokenValue -> TokenValue -> prog TokenValue :=
  if decide (ch = "+"%char) then runMPCAdd fp p N
  else if decide (ch = "-"%char) then runMPCSub fp p N
  else if decide (ch = "*"%char) then runMPCMul fp N
  else runMPCDivFP64 p N.

Lemma computes_run_op ch l r v1 v2 n : operator ch -> (ch = "/"%char -> fp = true /\ secure_division) -> is_const tys l && is_const tys r = false ->
  jval l v1 -> jval r v2 -> computes (Node ch l r) n (each2 (run_op ch) v1 v2).
Proof.
  intros [[-> | ->]|[-> | ->]] Hd; [apply computes_add|apply computes_sub|apply computes_mul|].
  destruct (Hd eq_refl) as [Hfp Hsec]. by apply computes_div.
Qed.

Lemma mpc_operator_op ch p f : operator ch -> f = at0 fs \/ f = at1 fs \/ f = at2 fs ->
  mpc_operator fp p (getColumnValuesCount f) [ch] = Some (ch, run_op ch p).
Proof. intros Ho Hf. rewrite counts by done. destruct Ho as [[-> | ->]|[-> | ->]]; done. Qed.

Lemma loop_tree t : tree_ok t -> (divides t = true -> fp = true /\ secure_division) -> mixed tys t -> Forall leaf_ready (leaves t) ->
  forall n rest st, types_agree st ->
  exists n' v st', jval t v /\ pushed (name t) v st st' /\ (forall ch l r, t = Node ch l r -> exists s m,
      v = trip_map (share_value fp) s /\ shares s m /\ mat_rel t m) /\
    forall n2 b, steps n' (loop3 rest st') n2 b -> steps n (loop3 (post t ++ rest) st) n2 b.
Proof.
  induction t as [s|ch l IHl r IHr]; simpl; intros Hok Hd Hmix Hlf n rest st Hty.
  { inversion_clear Hlf as [|?? Hs _]. destruct (loop_leaf s n rest st Hok Hs Hty) as (v & st' & Hv & Hp & H).
    exists n, v, st'. done. }
  destruct Hok as (Hch & Hl & Hr), Hmix as (Hnc & Hml & Hmr). apply Forall_app in Hlf as [Hfl Hfr].
  assert (Hdc : ch = "/"%char -> fp = true /\ secure_division) by (intros ->; by apply Hd).
  assert (Hdl : divides l = true -> fp = true /\ secure_division) by (intros Hx; apply Hd; rewrite Hx; by destruct (bool_decide _)).
  assert (Hdr : divides r = true -> fp = true /\ secure_division) by (intros Hx; apply Hd; rewrite Hx; apply orb_true_r).
  rewrite <- !app_assoc.
  destruct (IHl Hl Hdl Hml Hfl n (post r ++ [[ch]] ++ rest) st Hty)
    as (n1 & v1 & st1 & J1 & [(m10 & m11 & m12 & t10 & t11 & t12 & -> & _) Ty1] & _ & S1).
  destruct (IHr Hr Hdr Hmr Hfr n1 ([[ch]] ++ rest) _ Ty1)
    as (n2 & v2 & st2 & J2 & [(m20 & m21 & m22 & t20 & t21 & t22 & -> & _) Ty2] & _ & S2).
  destruct (computes_run_op ch l r v1 v2 n2 Hch Hdc Hnc J1 J2) as (n3 & s & m & S3 & Hs & Hm).
  exists n3, (trip_map (share_value fp) s), (Trip
    (LState (name (Node ch l r) :: stk1 (at0 st)) (share_value fp (at0 s) :: val_stk (at0 st)) (<[name (Node ch l r) := share_value fp (at0 s)]> m20) t20)
    (LState (name (Node ch l r) :: stk1 (at1 st)) (share_value fp (at1 s) :: val_stk (at1 st)) (<[name (Node ch l r) := share_value fp (at1 s)]> m21) t21)
    (LState (name (Node ch l r) :: stk1 (at2 st)) (share_value fp (at2 s) :: val_stk (at2 st)) (<[name (Node ch l r) := share_value fp (at2 s)]> m22) t22)).
  split; [by apply (jval_share _ s m)|]. split; [|split].
  - split; [|exact Ty2]. eexists _, _, _, _, _, _. split; [reflexivity|]. rewrite !lookup_insert_eq. done.
  - intros ? ? ? [= <- <- <-]. by exists s, m.
  - intros n4 b H. apply S1, S2. unfold loop3. simpl. rewrite !mpc_operator_op by auto.
    unfold mpc_calculate. simpl.
    set (k' ts vs mm tt (x : TokenValue) := Done (A := lstate) (Ret
      (LState (name (Node ch l r) :: ts) (x :: vs) (<[name (Node ch l r) := x]> mm) tt))).
    assert (S4 := steps_bind n2 _ n3 _ (Trip (k' (stk1 (at0 st)) (val_stk (at0 st)) m20 t20) (k' (stk1 (at1 st)) (val_stk (at1 st)) m21 t21)
      (k' (stk1 (at2 st)) (val_stk (at2 st)) m22 t22)) n3 (Trip _ _ _) S3 (steps_done n3 (Trip _ _ _))).
    exact (steps_bind n2 _ n3 _ (Trip (mpc_loop fp 0 (at0 cs) (at0 fs) rest) (mpc_loop fp 1 (at1 cs) (at1 fs) rest)
      (mpc_loop fp 2 (at2 cs) (at2 fs) rest)) n4 b S4 H).
Qed.
End Joint.

(** ** Evaluation and opening, end to end *)

(** The arithmetic branch of [ArithmeticExecutor::execute]: the code returned by
    [runMPCEvaluate] is not looked at. *)
Definition execute_express `{E : Aby3} (x : MPCExpressExecutor) (parties : list Z) (fd : list double) (fi : list Z)
  : prog (list double * list Z * MPCExpressExecutor) :=
  '(_, x) ← runMPCEvaluate x;
  if fp64_run_ x then '(fd, x) ← revealMPCResult_fp64 x parties fd; mret (fd, fi, x)
  else '(fi, x) ← revealMPCResult_i64 x parties fi; mret (fd, fi, x).

(** What party [p] has after the result [v] was opened to [parties]. *)
Definition revealed {A} (p : Z) (parties : list Z) (v : list A) : list A :=
  concat (map (fun q => if p =? q then v else []) parties).

Lemma revealed_fmap {A B} (f : A -> B) p ps v : f <$> revealed p ps v = revealed p ps (f <$> v).
Proof.
  unfold revealed. induction ps as [|q ps IH]; simpl; [done|]. rewrite fmap_app, IH. by destruct (p =? q).
Qed.

Lemma reveal_steps `{L : Aby3Laws} s m ps n a0 a1 a2 : shares s m -> Forall (fun p => 0 <= p < 3) ps ->
  exists n', steps n (Trip (reveal_loop 0 (at0 s) ps a0) (reveal_loop 1 (at1 s) ps a1) (reveal_loop 2 (at2 s) ps a2)) n'
    (Trip (a0 ++ revealed 0 ps (cells m)) (a1 ++ revealed 1 ps (cells m)) (a2 ++ revealed 2 ps (cells m))).
Proof.
  intros Hs Hps. revert n a0 a1 a2. induction Hps as [|p ps Hp Hps IH]; intros n a0 a1 a2.
  { exists n. unfold revealed. simpl. rewrite !app_nil_r. apply (steps_done n (Trip _ _ _)). }
  assert (Hr := reveal_law n s m Hs). unfold revealed in *.
  assert (p = 0 \/ p = 1 \/ p = 2) as [-> | [-> | ->]] by lia; cbn [map concat reveal_loop Z.eqb Pos.eqb app].
  - destruct (IH (S n) (a0 ++ cells m) a1 a2) as [n' H]. exists n'. rewrite app_assoc. by apply (steps_reveal0 n s _ _ _ m).
  - destruct (IH (S n) a0 (a1 ++ cells m) a2) as [n' H]. exists n'. rewrite app_assoc. by apply (steps_reveal1 n s _ _ _ m).
  - destruct (IH (S n) a0 a1 (a2 ++ cells m)) as [n' H]. exists n'. rewrite app_assoc. by apply (steps_reveal2 n s _ _ _ m).
Qed.

(** Party [p]'s executor is ready to evaluate the tree [t] over columns of [N] rows. *)
Record party_ready (fp : bool) (N : nat) (tys : gmap str TokenType) (t : etree)
    (p : Z) (x : MPCExpressExecutor) (c : ColumnConfig) (f : FeedDict) : Prop := {
  pr_party : party_id_ x = p;
  pr_mode : fp64_run_ x = fp;
  pr_suffix : suffix_stk_ x = post t;
  pr_types : token_type_map_ x = tys;
  pr_config : col_config_ x = Some c;
  pr_feed : feed_dict_ x = Some f;
  pr_float : float_run_ f = fp;
  pr_count : val_count_ f = Z.of_nat N }.

Definition parties_ready fp N tys t (x : trip MPCExpressExecutor) (cs : trip ColumnConfig) (fs : trip FeedDict) : Prop :=
  Z.of_nat N < 2 ^ 32 /\
  party_ready fp N tys t 0 (at0 x) (at0 cs) (at0 fs) /\ party_ready fp N tys t 1 (at1 x) (at1 cs) (at1 fs) /\
  party_ready fp N tys t 2 (at2 x) (at2 cs) (at2 fs).

Section EndToEnd.
Context `{L : Aby3Laws}.
Context (fp : bool) (N : nat) (tys : gmap str TokenType) (leaf : nat -> str -> Z -> Prop).
Context (ch : ascii) (l r : etree).
Let t := Node ch l r.
Context (x : trip MPCExpressExecutor) (cs : trip ColumnConfig) (fs : trip FeedDict).
Hypothesis Hready : parties_ready fp N tys t x cs fs.

Lemma ready_counts f : f = at0 fs \/ f = at1 fs \/ f = at2 fs -> getColumnValuesCount f = N.
Proof.
  destruct Hready as (HN & R0 & R1 & R2). unfold getColumnValuesCount.
  intros [-> | [-> | ->]];
    [rewrite (pr_count _ _ _ _ _ _ _ _ R0)|rewrite (pr_count _ _ _ _ _ _ _ _ R1)|rewrite (pr_count _ _ _ _ _ _ _ _ R2)];
    rewrite Z.mod_small by lia; lia.
Qed.

(** The executor of one party after the evaluation. *)
Definition evaluated (y : MPCExpressExecutor) (y' : MPCExpressExecutor) (v : TokenValue) : Prop :=
  party_id_ y' = party_id_ y /\ fp64_run_ y' = fp /\ suffix_stk_ y' = [name t] /\ token_val_map_ y' !! name t = Some v.

Lemma evaluate_steps : tree_ok t -> (divides t = true -> fp = true /\ secure_division) -> mixed tys t -> Forall (leaf_ready fp N tys leaf cs fs) (leaves t) ->
  exists n' s m x', shares s m /\ mat_rel fp N leaf t m /\
    steps 0 (trip_map runMPCEvaluate x) n' (trip_map (fun y => (0, y)) x') /\
    evaluated (at0 x) (at0 x') (share_value fp (at0 s)) /\ evaluated (at1 x) (at1 x') (share_value fp (at1 s)) /\
    evaluated (at2 x) (at2 x') (share_value fp (at2 s)).
Proof.
  intros Hok Hd Hmix Hlf. assert (Hc := ready_counts). destruct Hready as (HN & R0 & R1 & R2).
  set (st0 y := LState [] [] (token_val_map_ y) (token_type_map_ y)).
  destruct (loop_tree fp N tys leaf cs fs Hc t Hok Hd Hmix Hlf 0%nat [] (trip_map st0 x))
    as (n' & v & st' & _ & Hp & Hv & Hrun).
  { intros s. simpl. by rewrite (pr_types _ _ _ _ _ _ _ _ R0), (pr_types _ _ _ _ _ _ _ _ R1), (pr_types _ _ _ _ _ _ _ _ R2). }
  destruct (Hv ch l r eq_refl) as (s & m & -> & Hs & Hm).
  destruct Hp as [(m0 & m1 & m2 & t0 & t1 & t2 & -> & E0 & E1 & E2) _]. rewrite app_nil_r in Hrun.
  specialize (Hrun n' _ (steps_done n' (Trip _ _ _))).
  exists n', s, m, (Trip (set_run (at0 x) [name t] (LState [name t] [share_value fp (at0 s)] m0 t0))
    (set_run (at1 x) [name t] (LState [name t] [share_value fp (at1 s)] m1 t1))
    (set_run (at2 x) [name t] (LState [name t] [share_value fp (at2 s)] m2 t2))).
  split; [done|]. split; [done|]. split.
  - unfold runMPCEvaluate, trip_map.
    rewrite (pr_config _ _ _ _ _ _ _ _ R0), (pr_config _ _ _ _ _ _ _ _ R1), (pr_config _ _ _ _ _ _ _ _ R2),
      (pr_feed _ _ _ _ _ _ _ _ R0), (pr_feed _ _ _ _ _ _ _ _ R1), (pr_feed _ _ _ _ _ _ _ _ R2),
      (pr_mode _ _ _ _ _ _ _ _ R0), (pr_mode _ _ _ _ _ _ _ _ R1), (pr_mode _ _ _ _ _ _ _ _ R2),
      (pr_party _ _ _ _ _ _ _ _ R0), (pr_party _ _ _ _ _ _ _ _ R1), (pr_party _ _ _ _ _ _ _ _ R2),
      (pr_suffix _ _ _ _ _ _ _ _ R0), (pr_suffix _ _ _ _ _ _ _ _ R1), (pr_suffix _ _ _ _ _ _ _ _ R2).
    set (k y := fun '(rc, st, rest) => if negb (rc =? 0) then Done (Ret (-1, set_run y rest st))
                                       else Done (Ret (0, set_run y (drain (stk1 st) rest) st))).
    exact (steps_bind 0 _ n' _ (Trip (k (at0 x)) (k (at1 x)) (k (at2 x))) n' (Trip _ _ _) Hrun (steps_done n' (Trip _ _ _))).
  - unfold evaluated. simpl.
    by rewrite (pr_mode _ _ _ _ _ _ _ _ R0), (pr_mode _ _ _ _ _ _ _ _ R1), (pr_mode _ _ _ _ _ _ _ _ R2).
Qed.
End EndToEnd.

(** Party [o]'s component. *)
Definition sel {A} (o : Z) (t : trip A) : A := if o =? 0 then at0 t else if o =? 1 then at1 t else at2 t.

(** Column [s] belongs to party [o] alone, which holds the values [v]. *)
Definition owned {A : Type} (cs : trip ColumnConfig) (fs : trip FeedDict) (held : FeedDict -> gmap str (list A)) (s : str)
    (o : Z) (v : list A) : Prop :=
  0 <= o < 3 /\ local_col_ (at0 cs) !! s = Some (bool_decide (o = 0)) /\ local_col_ (at1 cs) !! s = Some (bool_decide (o = 1)) /\
  local_col_ (at2 cs) !! s = Some (bool_decide (o = 2)) /\ held (sel o fs) !! s = Some v.

(** The joint table [cols] of the parties' columns: each operand column has [N]
    rows and one owner. *)
Definition table_ok {A : Type} (tys : gmap str TokenType) (cs : trip ColumnConfig) (fs : trip FeedDict) (held : FeedDict -> gmap str (list A)) (cols : gmap str (list A))
    (N : nat) (good : A -> Prop) (isnum : str -> Prop) (l : list str) : Prop :=
  Forall (fun s => match token_type tys s with
    | COLUMN => exists o v, cols !! s = Some v /\ length v = N /\ Forall good v /\ owned cs fs held s o v
    | VALUE => isnum s end) l.

Definition table_leaf (tys : gmap str TokenType) (cols : gmap str (list Z)) (i : nat) (s : str) : res Z :=
  match token_type tys s with
  | COLUMN => or_undef (cols !! s ≫= lookup i)
  | VALUE => Ret (atol s)
  end.

(** Arithmetic modulo 2^64, the semantics of the shared evaluation. *)
Definition wrap_row_op (c : ascii) (a b : Z) : res Z :=
  if decide (c = "+"%char) then Ret (wrap (a + b))
  else if decide (c = "-"%char) then Ret (wrap (a - b))
  else if decide (c = "*"%char) then Ret (wrap (a * b))
  else Undef.

(** The fixed-point encoding of an operand at row [i]. *)
Definition fixed_leaf `{E : Aby3} (tys : gmap str TokenType) (cols : gmap str (list double)) (i : nat) (s : str) (z : Z) : Prop :=
  exists d, z = to_fixed d /\
    match token_type tys s with COLUMN => cols !! s ≫= lookup i = Some d | VALUE => stod s = Ret d end.

Lemma atol_range s : in_i64 (atol s) = true.
Proof. unfold atol. repeat case_match; apply in_i64_spec; lia. Qed.

Lemma remote_value fp c f s : local_col_ c !! s = Some false -> mpc_createTokenValue fp c f COLUMN s = Ret (inr RemoteCol).
Proof. intros H. simpl. unfold getColumnLocality. by rewrite H. Qed.

(** A column's values at its owner, a remote column at the others. *)
Lemma column_values fp cs fs s o v :
  0 <= o < 3 -> local_col_ (at0 cs) !! s = Some (bool_decide (o = 0)) -> local_col_ (at1 cs) !! s = Some (bool_decide (o = 1)) ->
  local_col_ (at2 cs) !! s = Some (bool_decide (o = 2)) ->
  mpc_createTokenValue fp (sel o cs) (sel o fs) COLUMN s = Ret (inr v) ->
  each2 (fun _ c f => mpc_createTokenValue fp c f COLUMN s) cs fs =
    trip_map (fun x => Ret (inr x)) (if o =? 0 then Trip v RemoteCol RemoteCol else if o =? 1 then Trip RemoteCol v RemoteCol
                                     else Trip RemoteCol RemoteCol v).
Proof.
  intros Ho L0 L1 L2 Hv. unfold each2, trip_map, sel in *.
  assert (o = 0 \/ o = 1 \/ o = 2) as [-> | [-> | ->]] by lia; cbn [Z.eqb Pos.eqb at0 at1 at2] in *; rewrite Hv.
  - by rewrite (remote_value fp _ (at1 fs) s L1), (remote_value fp _ (at2 fs) s L2).
  - by rewrite (remote_value fp _ (at0 fs) s L0), (remote_value fp _ (at2 fs) s L2).
  - by rewrite (remote_value fp _ (at0 fs) s L0), (remote_value fp _ (at1 fs) s L1).
Qed.

Section Leaves.
Context `{L : Aby3Laws}.
Context (N : nat) (tys : gmap str TokenType) (cs : trip ColumnConfig) (fs : trip FeedDict).

Lemma leaf_ready_i64 cols s : (forall o, float_run_ (sel o fs) = false) ->
  match token_type tys s with
  | COLUMN => exists o v, cols !! s = Some v /\ length v = N /\ Forall (fun x => in_i64 x = true) v /\ owned cs fs int64_col_ s o v
  | VALUE => True end ->
  leaf_ready false N tys (fun i s z => table_leaf tys cols i s = Ret z) cs fs s.
Proof.
  intros Hf H. unfold leaf_ready. destruct (token_type tys s) eqn:Ety.
  - destruct H as (o & v & Hv & Hn & Hr & Ho & L0 & L1 & L2 & Hh). eexists. split.
    + apply (jval_col false N tys _ (Leaf s) o (I64Vec v) (Mat N 1 v)); try done.
      * by rewrite <- Hn.
      * unfold mat_ok. simpl. lia.
      * split; [done|]. split; [done|]. intros i z Hz. constructor. unfold table_leaf. rewrite Ety, Hv. simpl in *. by rewrite Hz.
    + apply column_values; try done. simpl. unfold getColumnValues_i64, getColumnLocality.
      assert (Hl : local_col_ (sel o cs) !! s = Some true).
      { assert (o = 0 \/ o = 1 \/ o = 2) as [-> | [-> | ->]] by lia; done. }
      rewrite Hl. simpl. by rewrite Hf, Hh.
  - exists (Trip (I64Val (atol s)) (I64Val (atol s)) (I64Val (atol s))). split; [|done].
    apply (jval_const false N tys _ (Leaf s) (I64Val (atol s)) (atol s)); [done|]. split; [simpl; by rewrite Ety|]. split; [apply atol_range|].
    intros i. constructor. unfold table_leaf. by rewrite Ety.
Qed.

Lemma leaf_ready_fp64 cols s : (forall o, float_run_ (sel o fs) = true) ->
  match token_type tys s with
  | COLUMN => exists o v, cols !! s = Some v /\ length v = N /\ Forall (fun _ => True) v /\ owned cs fs fp64_col_ s o v
  | VALUE => exists d, stod s = Ret d end ->
  leaf_ready true N tys (fixed_leaf tys cols) cs fs s.
Proof.
  intros Hf H. unfold leaf_ready. destruct (token_type tys s) eqn:Ety.
  - destruct H as (o & v & Hv & Hn & _ & Ho & L0 & L1 & L2 & Hh). eexists. split.
    + apply (jval_col true N tys _ (Leaf s) o (FP64Vec v) (Mat N 1 (to_fixed <$> v))); try done.
      * by rewrite <- Hn.
      * unfold mat_ok. simpl. rewrite length_fmap. lia.
      * simpl. apply Forall_fmap, Forall_true. intros d. apply to_fixed_range.
      * split; [done|]. split; [done|]. intros i z Hz. constructor. simpl in Hz. rewrite list_lookup_fmap in Hz.
        destruct (v !! i) as [d|] eqn:Hd; [|done]. injection Hz as <-. exists d. split; [done|]. by rewrite Ety, Hv.
    + apply column_values; try done. simpl. unfold getColumnValues_fp64, getColumnLocality.
      assert (Hl : local_col_ (sel o cs) !! s = Some true).
      { assert (o = 0 \/ o = 1 \/ o = 2) as [-> | [-> | ->]] by lia; done. }
      rewrite Hl. simpl. by rewrite Hf, Hh.
  - destruct H as [d Hd]. exists (Trip (FP64Val d) (FP64Val d) (FP64Val d)). simpl. rewrite Hd. split; [|done].
    apply (jval_const true N tys _ (Leaf s) (FP64Val d) (to_fixed d)); [done|]. split; [simpl; by rewrite Ety|]. split; [apply to_fixed_range|].
    intros i. constructor. exists d. by rewrite Ety.
Qed.
End Leaves.

Lemma row_rel_i64 `{E : Aby3} tys cols i t z :
  row_rel false (fun i s z => table_leaf tys cols i s = Ret z) i t z -> row_value (table_leaf tys cols i) wrap_row_op t = Ret z.
Proof.
  induction 1 as [s z H|ch l r a b z _ IHl _ IHr H]; simpl; [done|]. rewrite IHl, IHr. simpl.
  destruct H as [[-> ->]|[[-> ->]|[[-> ->]|[_ [Hf _]]]]]; done.
Qed.

(** The run of [execute_express] once the operands are known to be ready. *)
Lemma execute_run `{L : Aby3Laws} fp N tys leaf ch l r x cs fs ps :
  let t := Node ch l r in
  parties_ready fp N tys t x cs fs -> tree_ok t -> (divides t = true -> fp = true /\ secure_division) -> mixed tys t ->
  Forall (leaf_ready fp N tys leaf cs fs) (leaves t) -> Forall (fun p => 0 <= p < 3) ps ->
  exists v x', length v = N /\ (forall i z, v !! i = Some z -> row_rel fp leaf i t z) /\
    let out p y := if fp then (revealed p ps (of_fixed <$> v), [], y) else ([], revealed p ps v, y) in
    run3 0 (execute_express (at0 x) ps [] []) (execute_express (at1 x) ps [] []) (execute_express (at2 x) ps [] []) =
      Some (Trip (Ret (out 0 (at0 x'))) (Ret (out 1 (at1 x'))) (Ret (out 2 (at2 x')))).
Proof.
  intros t Hready Hok Hd Hmix Hlf Hps.
  destruct (evaluate_steps fp N tys leaf ch l r x cs fs Hready Hok Hd Hmix Hlf)
    as (n1 & s & m & x' & Hs & Hm & S1 & (P0 & M0 & F0 & V0) & (P1 & M1 & F1 & V1) & (P2 & M2 & F2 & V2)).
  destruct Hready as (_ & R0 & R1 & R2). destruct (reveal_steps s m ps n1 [] [] [] Hs Hps) as [n2 S2].
  exists (cells m), (trip_map pop_suffix x'). destruct Hm as (Hr & Hc & Hrow).
  split; [assert (Hmo := proj1 (shares_ok s m Hs)); unfold mat_ok in Hmo; rewrite Hmo, Hr, Hc; lia|]. split; [done|].
  set (k0 := fun '((_, y) : Z * MPCExpressExecutor) =>
    if fp64_run_ y then prog_bind (fun '(fd, y) => Done (Ret (fd, [], y))) (revealMPCResult_fp64 y ps [])
    else prog_bind (fun '(fi, y) => Done (Ret ([], fi, y))) (revealMPCResult_i64 y ps [])).
  set (out p y := if fp then (revealed p ps (of_fixed <$> cells m), [], y) else ([], revealed p ps (cells m), y)).
  assert (S3 : steps n1 (app3 (Trip k0 k0 k0) (trip_map (fun y => (0, y)) x')) n2
    (Trip (out 0 (pop_suffix (at0 x'))) (out 1 (pop_suffix (at1 x'))) (out 2 (pop_suffix (at2 x'))))).
  { unfold app3, trip_map, k0, out. simpl. rewrite M0, M1, M2. unfold revealMPCResult_fp64, revealMPCResult_i64.
    rewrite F0, F1, F2, V0, V1, V2, P0, P1, P2, (pr_party _ _ _ _ _ _ _ _ R0), (pr_party _ _ _ _ _ _ _ _ R1), (pr_party _ _ _ _ _ _ _ _ R2).
    destruct fp; simpl.
    - set (a y (v : list Z) := Done (A := list double * MPCExpressExecutor) (Ret (of_fixed <$> v, pop_suffix y))).
      set (b := fun '((fd, y) : list double * MPCExpressExecutor) => Done (A := list double * list Z * MPCExpressExecutor) (Ret (fd, [], y))).
      rewrite <- !revealed_fmap.
      assert (S4 := steps_bind n1 _ n2 _ (Trip (a (at0 x')) (a (at1 x')) (a (at2 x'))) n2 (Trip _ _ _) S2 (steps_done n2 (Trip _ _ _))).
      exact (steps_bind n1 _ n2 _ (Trip b b b) n2 (Trip _ _ _) S4 (steps_done n2 (Trip _ _ _))).
    - set (a y (v : list Z) := Done (A := list Z * MPCExpressExecutor) (Ret (v, pop_suffix y))).
      set (b := fun '((fi, y) : list Z * MPCExpressExecutor) => Done (A := list double * list Z * MPCExpressExecutor) (Ret ([], fi, y))).
      assert (S4 := steps_bind n1 _ n2 _ (Trip (a (at0 x')) (a (at1 x')) (a (at2 x'))) n2 (Trip _ _ _) S2 (steps_done n2 (Trip _ _ _))).
      exact (steps_bind n1 _ n2 _ (Trip b b b) n2 (Trip _ _ _) S4 (steps_done n2 (Trip _ _ _))). }
  assert (S5 := steps_run3 0 _ n2 _ (steps_bind 0 _ n1 _ (Trip k0 k0 k0) n2 _ S1 S3)). exact S5.
Qed.

(** ** Properties of the shared evaluation *)

(** C2: three parties that evaluate a division-free expression with at least one
    operator in integer mode, each column held by its owner only, run through
    without blocking or failing; every party the result is opened to obtains, row
    by row, the value of the expression modulo 2^64, and the others obtain
    nothing. *)
Theorem mpc_evaluate_i64 `{L : Aby3Laws} N tys cols ch l r x cs fs ps :
  let t := Node ch l r in
  parties_ready false N tys t x cs fs -> tree_ok t -> divides t = false -> mixed tys t ->
  table_ok tys cs fs int64_col_ cols N (fun z => in_i64 z = true) (fun _ => True) (leaves t) ->
  Forall (fun p => 0 <= p < 3) ps ->
  exists v x', length v = N /\
    (forall i, (i < N)%nat -> row_value (table_leaf tys cols i) wrap_row_op t = or_undef (v !! i)) /\
    run3 0 (execute_express (at0 x) ps [] []) (execute_express (at1 x) ps [] []) (execute_express (at2 x) ps [] []) =
      Some (Trip (Ret ([], revealed 0 ps v, at0 x')) (Ret ([], revealed 1 ps v, at1 x')) (Ret ([], revealed 2 ps v, at2 x'))).
Proof.
  intros t Hready Hok Hd Hmix Htab Hps.
  assert (Hf : forall o, float_run_ (sel o fs) = false).
  { destruct Hready as (_ & R0 & R1 & R2). intros o. unfold sel. destruct (o =? 0); [|destruct (o =? 1)]; by eapply pr_float. }
  destruct (execute_run false N tys (fun i s z => table_leaf tys cols i s = Ret z) ch l r x cs fs ps Hready Hok)
    as (v & x' & Hn & Hrow & Hrun); [intros Hc; by rewrite (Hd : divides (Node ch l r) = false) in Hc|done| |done|].
  { eapply Forall_impl; [exact Htab|]. intros s Hs. by apply leaf_ready_i64. }
  exists v, x'. split; [done|]. split; [|done]. intros i Hi. rewrite <- Hn in Hi.
  destruct (lookup_lt_is_Some_2 v i Hi) as [z Hz]. rewrite Hz. by apply row_rel_i64, Hrow.
Qed.

(** C31: in fixed-point mode every revealed entry decodes a value of the
    expression tree over the encoded operands, in which sums and differences are
    exact modulo 2^64, products are the truncated products of the library, and
    quotients are those of the secure division (or, for a constant divisor, the
    product with its reciprocal). *)
Theorem mpc_evaluate_fp64 `{L : Aby3Laws} {ulp : Z} {F : FixedPointLaws E ulp} N tys cols ch l r x cs fs ps :
  let t := Node ch l r in
  frac_bits <= 20 -> parties_ready true N tys t x cs fs -> tree_ok t -> mixed tys t ->
  table_ok tys cs fs fp64_col_ cols N (fun _ => True) (fun s => exists d, stod s = Ret d) (leaves t) ->
  Forall (fun p => 0 <= p < 3) ps ->
  exists v x', length v = N /\
    (forall i z, v !! i = Some z -> row_rel true (fixed_leaf tys cols) i t z) /\
    run3 0 (execute_express (at0 x) ps [] []) (execute_express (at1 x) ps [] []) (execute_express (at2 x) ps [] []) =
      Some (Trip (Ret (revealed 0 ps (of_fixed <$> v), [], at0 x')) (Ret (revealed 1 ps (of_fixed <$> v), [], at1 x'))
                 (Ret (revealed 2 ps (of_fixed <$> v), [], at2 x'))).
Proof.
  intros t Hfew Hready Hok Hmix Htab Hps.
  assert (Hf : forall o, float_run_ (sel o fs) = true).
  { destruct Hready as (_ & R0 & R1 & R2). intros o. unfold sel. destruct (o =? 0); [|destruct (o =? 1)]; by eapply pr_float. }
  apply (execute_run true N tys (fixed_leaf tys cols) ch l r x cs fs ps Hready Hok); [|done| |done].
  { intros _. split; [done|]. intros s1 t1 n a b. by apply (div_column (ulp := ulp)). }
  eapply Forall_impl; [exact Htab|]. intros s Hs. by apply leaf_ready_fp64.
Qed.

(** Parties 0, 1 and 2 own columns A, B and C with two rows each. *)
Definition party_config (p : Z) : ColumnConfig :=
  {| cc_party_id := p; col_owner_ := ∅; col_dtype_ := ∅;
     local_col_ := {[ chars "A" := bool_decide (0 = p); chars "B" := bool_decide (1 = p); chars "C" := bool_decide (2 = p) ]} |}.

Definition party_feed (fp : bool) (s : str) (v : list Z) : FeedDict :=
  {| float_run_ := fp; val_count_ := 2; fp64_col_ := if fp then {[ s := d_of_int <$> v ]} else ∅;
     int64_col_ := if fp then ∅ else {[ s := v ]} |}.

Definition party_exec (fp : bool) (t : etree) (p : Z) (s : str) (v : list Z) : MPCExpressExecutor :=
  {| fp64_run_ := fp; expr_ := []; suffix_stk_ := post t; col_config_ := Some (party_config p);
     feed_dict_ := Some (party_feed fp s v); token_val_map_ := ∅; token_type_map_ := {[ chars "5" := VALUE ]}; party_id_ := p |}.

(** [(A + B) * C - 5] *)
Definition sample_tree : etree :=
  Node "-" (Node "*" (Node "+" (Leaf "A") (Leaf "B")) (Leaf "C")) (Leaf "5").

(** [(A + B) / C - 5], evaluated in fixed point *)
Definition sample_division : etree :=
  Node "-" (Node "/" (Node "+" (Leaf "A") (Leaf "B")) (Leaf "C")) (Leaf "5").

Definition three_execs (fp : bool) : trip MPCExpressExecutor :=
  let t := if fp then sample_division else sample_tree in
  Trip (party_exec fp t 0 "A" [1; 2]) (party_exec fp t 1 "B" [3; 4]) (party_exec fp t 2 "C" [-5; 6]).
Definition three_configs : trip ColumnConfig := Trip (party_config 0) (party_config 1) (party_config 2).
Definition three_feeds (fp : bool) : trip FeedDict :=
  Trip (party_feed fp "A" [1; 2]) (party_feed fp "B" [3; 4]) (party_feed fp "C" [-5; 6]).
Definition sample_table : gmap str (list Z) :=
  {[ chars "A" := [1; 2]; chars "B" := [3; 4]; chars "C" := [-5; 6] ]}.

Lemma sample_ready fp :
  parties_ready fp 2 {[ chars "5" := VALUE ]} (if fp then sample_division else sample_tree) (three_execs fp) three_configs (three_feeds fp).
Proof. split; [lia|]. destruct fp; repeat split. Qed.

Lemma sample_tree_ok : (tree_ok sample_tree /\ mixed {[ chars "5" := VALUE ]} sample_tree) /\
  tree_ok sample_division /\ mixed {[ chars "5" := VALUE ]} sample_division.
Proof. simpl. unfold operator, add_op, mul_op. repeat split; auto. Qed.

Example mpc_sample_run :
  (fun t => trip_map (fun r => match r with Ret (fd, fi, _) => Some (fd, fi) | _ => None end) t) <$>
    run3 0 (execute_express (at0 (three_execs false)) [0; 2] [] []) (execute_express (at1 (three_execs false)) [0; 2] [] [])
      (execute_express (at2 (three_execs false)) [0; 2] [] []) =
  Some (Trip (Some ([], [-25; 31])) (Some ([], [])) (Some ([], [-25; 31]))).
Proof. vm_compute. reflexivity. Qed.

Lemma mpc_evaluate_i64_witness : exists v x', length v = 2%nat /\
  run3 0 (execute_express (at0 (three_execs false)) [0; 2] [] []) (execute_express (at1 (three_execs false)) [0; 2] [] [])
    (execute_express (at2 (three_execs false)) [0; 2] [] []) =
  Some (Trip (Ret ([], revealed 0 [0; 2] v, at0 x')) (Ret ([], revealed 1 [0; 2] v, at1 x')) (Ret ([], revealed 2 [0; 2] v, at2 x'))).
Proof.
  edestruct (mpc_evaluate_i64 2 {[ chars "5" := VALUE ]} sample_table "-" (Node "*" (Node "+" (Leaf "A") (Leaf "B")) (Leaf "C")) (Leaf "5")
    (three_execs false) three_configs (three_feeds false) [0; 2]) as (v & x' & H1 & _ & H2).
  - apply (sample_ready false).
  - apply sample_tree_ok.
  - reflexivity.
  - apply sample_tree_ok.
  - constructor; [exists 0, [1; 2]|constructor; [exists 1, [3; 4]|constructor; [exists 2, [-5; 6]|repeat constructor]]];
      (split; [reflexivity|]; split; [reflexivity|]; split; [repeat constructor|]; split; [lia|]; repeat split).
  - repeat constructor; lia.
  - exists v, x'. exact (conj H1 H2).
Defined.

Lemma mpc_evaluate_fp64_witness : exists v x', length v = 2%nat /\
  run3 0 (execute_express (at0 (three_execs true)) [1] [] []) (execute_express (at1 (three_execs true)) [1] [] [])
    (execute_express (at2 (three_execs true)) [1] [] []) =
  Some (Trip (Ret (revealed 0 [1] (of_fixed <$> v), [], at0 x')) (Ret (revealed 1 [1] (of_fixed <$> v), [], at1 x'))
             (Ret (revealed 2 [1] (of_fixed <$> v), [], at2 x'))).
Proof.
  edestruct (mpc_evaluate_fp64 (ulp := 1) 2 {[ chars "5" := VALUE ]} ((fun v : list Z => d_of_int <$> v) <$> sample_table) "-" (Node "/" (Node "+" (Leaf "A") (Leaf "B")) (Leaf "C")) (Leaf "5")
    (three_execs true) three_configs (three_feeds true) [1]) as (v & x' & H1 & _ & H2).
  - vm_compute. discriminate.
  - apply (sample_ready true).
  - apply sample_tree_ok.
  - apply sample_tree_ok.
  - constructor; [exists 0, (d_of_int <$> [1; 2])|constructor; [exists 1, (d_of_int <$> [3; 4])|constructor; [exists 2, (d_of_int <$> [-5; 6])|]]];
      [..|repeat constructor; eexists; vm_compute; reflexivity];
      (split; [vm_compute; reflexivity|]; split; [reflexivity|]; split; [repeat constructor|]; split; [lia|]; repeat split).
  - repeat constructor; lia.
  - exists v, x'. exact (conj H1 H2).
Defined.
