(* ===== verification/MpcCompare.v ===== *)
(** * Secure comparison

    Models [MPCOperator::MPC_Compare] ([operator/aby3_operator.{h,cc}]; the integer,
    fixed-point and value-less forms) and the comparison branch of
    [ArithmeticExecutor::execute] ([algorithm/arithmetic.cc]).  The parties exchange
    the shapes of their matrices, find the one that provides nothing, and share
    the values of the other two, the second negated, as inputs of a circuit for
    the top bit of a 64-bit sum.  Binary sharing and the circuit belong to aby3:
    a party's part is the list of sharing calls it makes, and the circuit is the
    parameter [add_msb] with its documented meaning as a hypothesis. *)

From Stdlib Require Import Ascii String ZArith Lia.
From stdpp Require Import base tactics list option gmap strings.
From S2P Require Import Prelude ModArith Machine Aby3Op ExprConfig ExprMpc.

Local Open Scope Z_scope.

(** A matrix shape as it is sent: rows and columns. *)
Definition shape : Type := Z * Z.
Definition shape_of (m : i64Matrix) : shape := (Z.of_nat (rows m), Z.of_nat (cols m)).

(** The shapes party [p] collects, for [i] from 0 to 2: its own, or what its
    previous or next neighbour sent. *)
Definition gather_one (p i : Z) (sent : trip shape) : shape :=
  if p =? i then sel p sent
  else if p =? (i + 1) mod 3 then sel ((p + 2) mod 3) sent
  else sel ((p + 1) mod 3) sent.

Definition gather (p : Z) (sent : trip shape) : trip shape :=
  Trip (gather_one p 0 sent) (gather_one p 1 sent) (gather_one p 2 sent).

(** The loop that looks for the party without a matrix; two of them throw. *)
Fixpoint find_skip (l : list (Z * shape)) (skip_index : Z) : res Z :=
  match l with
  | [] => Ret skip_index
  | (i, s) :: l =>
      if (s.1 =? 0) && (s.2 =? 0) then
        if negb (skip_index =? -1) then Throw else find_skip l i
      else find_skip l skip_index
  end.

(** Move the two providers' shapes to the first two places. *)
Definition align (skip_index : Z) (s : trip shape) : trip shape :=
  if skip_index =? 0 then Trip (at1 s) (at2 s) (at2 s)
  else if negb (skip_index =? 2) then Trip (at0 s) (at2 s) (at2 s)
  else s.

Definition same_shapes (s : trip shape) : bool :=
  negb (negb ((at0 s).1 =? (at1 s).1) || negb ((at0 s).2 =? (at1 s).2)).

(** Whether party [p] negates its values. *)
Definition negates (skip_index p : Z) : bool :=
  if (skip_index =? 0) || (skip_index =? 1) then p =? 2 else p =? 1.

(** A call that shares one input of the circuit: [num_elem] values of 64 bits. *)
Inductive bin_call :=
| LocalBin (v : list Z)
| RemoteBin (num_elem : Z).

(** [MPC_Compare(m, sh_res)] at party [p]: the sharing calls, and [m] afterwards
    (as a column: it is resized and negated back). *)
Definition compare_value (p : Z) (m : i64Matrix) (sent : trip shape) : res (list bin_call * i64Matrix) :=
  let all := gather p sent in
  skip_index ← find_skip [(0, at0 all); (1, at1 all); (2, at2 all)] (-1);
  if skip_index =? -1 then Throw
  else
    let all := align skip_index all in
    if negb (same_shapes all) then Throw
    else
      let v := if negates skip_index p then (fun x => wrap (x * -1)) <$> cells m else cells m in
      let num_elem := ((at0 all).1 * (at0 all).2) mod 2 ^ 64 in
      let calls := (fun i => if i =? p then LocalBin v else RemoteBin num_elem) <$>
                     filter (fun i => i <> skip_index) [0; 1; 2] in
      let back := if negates skip_index p then (fun x => wrap (x * -1)) <$> v else v in
      Ret (calls, Mat (Z.to_nat num_elem) 1 back).

(** [MPC_Compare(sh_res)] at party [p], which provides nothing; the element count
    is a [uint32_t] here. *)
Definition compare_none (p : Z) (sent : trip shape) : res (list bin_call) :=
  let all := gather p sent in
  let all := if p =? 0 then Trip (at1 all) (at2 all) (at2 all)
             else if p =? 1 then Trip (at0 all) (at2 all) (at2 all) else all in
  if negb (same_shapes all) then Throw
  else
    let num_elem := ((at0 all).1 * (at0 all).2) mod 2 ^ 32 in
    Ret [RemoteBin num_elem; RemoteBin num_elem].

(** The shape a party sends: [(0, 0)] without a matrix. *)
Definition sent_shape (o : option i64Matrix) : shape :=
  match o with Some m => shape_of m | None => (0, 0) end.

Definition compare_party (p : Z) (o : option i64Matrix) (sent : trip shape) : res (list bin_call) :=
  match o with
  | Some m => '(calls, _) ← compare_value p m sent; Ret calls
  | None => compare_none p sent
  end.

(** ** The three parties together *)

(** One sharing round: one party gives [n] values and the others expect as many. *)
Definition bin_round (c : trip bin_call) : option (list Z) :=
  match c with
  | Trip (LocalBin v) (RemoteBin n1) (RemoteBin n2)
  | Trip (RemoteBin n1) (LocalBin v) (RemoteBin n2)
  | Trip (RemoteBin n1) (RemoteBin n2) (LocalBin v) =>
      if (Z.of_nat (length v) =? n1) && (Z.of_nat (length v) =? n2) then Some v else None
  | _ => None
  end.

Section Compare.
(** The circuit [int_int_add_msb] on one pair of inputs. *)
Context (add_msb : Z -> Z -> bool).

(** The comparison: [None] when the parties' calls do not fit together. *)
Definition mpc_compare (inputs : trip (option i64Matrix)) : res (option (list bool)) :=
  let sent := trip_map sent_shape inputs in
  c0 ← compare_party 0 (at0 inputs) sent;
  c1 ← compare_party 1 (at1 inputs) sent;
  c2 ← compare_party 2 (at2 inputs) sent;
  match c0, c1, c2 with
  | [a0; b0], [a1; b1], [a2; b2] =>
      Ret (x ← bin_round (Trip a0 a1 a2); y ← bin_round (Trip b0 b1 b2); Some (zip_with add_msb x y))
  | _, _, _ => Ret None
  end.

(** The input a party chooses for [CMP(col1,col2)]: a row of its values. *)
Definition cmp_input (owner : str -> Z) (cols : str -> list Z) (col1 col2 : str) (p : Z) : option i64Matrix :=
  if owner col1 =? p then Some (Mat 1 (length (cols col1)) (cols col1))
  else if owner col2 =? p then Some (Mat 1 (length (cols col2)) (cols col2))
  else None.

(** The comparison branch of [execute]; [cols] are the values each owner loaded. *)
Definition execute_cmp (owner : str -> Z) (cols : str -> list Z) (col1 col2 : str) : res (option (list bool)) :=
  mpc_compare (Trip (cmp_input owner cols col1 col2 0) (cmp_input owner cols col1 col2 1) (cmp_input owner cols col1 col2 2)).

(** ** Facts *)

Hypothesis msb_law : forall x y, in_i64 x = true -> in_i64 y = true -> add_msb x y = bool_decide (wrap (x + y) < 0).

Lemma gather_sent p sent : 0 <= p < 3 -> gather p sent = sent.
Proof. intros H. assert (p = 0 \/ p = 1 \/ p = 2) as [-> | [-> | ->]] by lia; by destruct sent. Qed.

(** Less-than by the sign of the difference. *)
Lemma msb_less x y : in_i64 x = true -> in_i64 y = true -> in_i64 (x - y) = true ->
  add_msb x (wrap (y * -1)) = bool_decide (x < y).
Proof.
  intros Hx Hy Hd. rewrite msb_law by (done || apply in_i64_spec, wrap_range).
  apply bool_decide_ext. replace (wrap (x + wrap (y * -1))) with (x - y); [lia|].
  rewrite <- (wrap_id _ Hd). wrap_ring.
Qed.

Lemma zip_msb v w :
  Forall (fun x => in_i64 x = true) v -> Forall (fun y => in_i64 y = true) w ->
  Forall2 (fun x y => in_i64 (x - y) = true) v w ->
  zip_with add_msb v ((fun y => wrap (y * -1)) <$> w) = zip_with (fun x y => bool_decide (x < y)) v w.
Proof.
  intros Hv Hw HF. induction HF as [|x y v w Hxy HF IH]; simpl; [done|].
  inversion_clear Hv. inversion_clear Hw. rewrite msb_less by done. f_equal. by apply IH.
Qed.
End Compare.

(** The providers are [a] and [b], in this order. *)
Definition place (skip : Z) (a b : i64Matrix) : trip (option i64Matrix) :=
  if skip =? 0 then Trip None (Some a) (Some b)
  else if skip =? 1 then Trip (Some a) None (Some b)
  else Trip (Some a) (Some b) None.

Lemma shape_of_nonzero m : rows m <> O \/ cols m <> O -> ((shape_of m).1 =? 0) && ((shape_of m).2 =? 0) = false.
Proof. unfold shape_of. simpl. intros H. apply andb_false_iff. rewrite !Z.eqb_neq. lia. Qed.

Lemma shape_of_same a b : same_shape a b -> shape_of b = shape_of a.
Proof. intros [Hr Hc]. unfold shape_of. by rewrite Hr, Hc. Qed.

Lemma negate_back (v : list Z) : Forall (fun x => in_i64 x = true) v ->
  (fun x => wrap (x * -1)) <$> ((fun x => wrap (x * -1)) <$> v) = v.
Proof.
  induction 1 as [|x v Hx _ IH]; simpl; [done|]. f_equal; [|done]. rewrite <- (wrap_id x Hx) at 2. wrap_ring.
Qed.

(** What is sent when the party [skip] has nothing and the others a matrix of shape [s]. *)
Definition sent_at (skip : Z) (s : shape) : trip shape :=
  if skip =? 0 then Trip (0, 0) s s else if skip =? 1 then Trip s (0, 0) s else Trip s s (0, 0).

Lemma compare_value_at skip p m r c n : 0 <= skip < 3 -> 0 <= p < 3 -> (r =? 0) && (c =? 0) = false ->
  (r * c) mod 2 ^ 64 = n ->
  let v := if negates skip p then (fun x => wrap (x * -1)) <$> cells m else cells m in
  compare_value p m (sent_at skip (r, c)) =
    Ret ((fun i => if i =? p then LocalBin v else RemoteBin n) <$> filter (fun i => i <> skip) [0; 1; 2],
         Mat (Z.to_nat n) 1 (if negates skip p then (fun x => wrap (x * -1)) <$> v else v)).
Proof.
  intros Hs Hp Hz Hn v. unfold compare_value. rewrite gather_sent by done.
  assert (skip = 0 \/ skip = 1 \/ skip = 2) as [-> | [-> | ->]] by lia;
    unfold sent_at; cbn [Z.eqb Pos.eqb at0 at1 at2 find_skip fst snd]; rewrite !Hz; cbn [Z.eqb Pos.eqb andb negb mbind res_bind];
    unfold align, same_shapes; cbn [Z.eqb Pos.eqb negb at0 at1 at2 fst snd]; rewrite !Z.eqb_refl, Hn; reflexivity.
Qed.

Lemma compare_none_at p r c n : 0 <= p < 3 -> (r * c) mod 2 ^ 32 = n ->
  compare_none p (sent_at p (r, c)) = Ret [RemoteBin n; RemoteBin n].
Proof.
  intros Hp Hn. unfold compare_none. rewrite gather_sent by done.
  assert (p = 0 \/ p = 1 \/ p = 2) as [-> | [-> | ->]] by lia;
    unfold sent_at, same_shapes; cbn [Z.eqb Pos.eqb negb at0 at1 at2 fst snd]; rewrite !Z.eqb_refl, Hn; reflexivity.
Qed.

Lemma place_sent skip a b : 0 <= skip < 3 -> same_shape a b ->
  trip_map sent_shape (place skip a b) = sent_at skip (shape_of a).
Proof.
  intros Hs Hsh. assert (Eb := shape_of_same a b Hsh).
  assert (skip = 0 \/ skip = 1 \/ skip = 2) as [-> | [-> | ->]] by lia; unfold trip_map; simpl; by rewrite ?Eb.
Qed.

(** The calls of the three parties when [a] and [b] fit. *)
Lemma compare_calls skip a b :
  0 <= skip < 3 -> mat_ok a -> mat_ok b -> same_shape a b -> rows a <> O \/ cols a <> O ->
  Z.of_nat (rows a * cols a) < 2 ^ 32 ->
  let n := Z.of_nat (length (cells a)) in
  let neg := (fun x => wrap (x * -1)) <$> cells b in
  let sent := trip_map sent_shape (place skip a b) in
  compare_party 0 (at0 (place skip a b)) sent =
    Ret (if skip =? 0 then [RemoteBin n; RemoteBin n] else [LocalBin (cells a); RemoteBin n]) /\
  compare_party 1 (at1 (place skip a b)) sent =
    Ret (if skip =? 0 then [LocalBin (cells a); RemoteBin n] else if skip =? 1 then [RemoteBin n; RemoteBin n]
         else [RemoteBin n; LocalBin neg]) /\
  compare_party 2 (at2 (place skip a b)) sent =
    Ret (if skip =? 2 then [RemoteBin n; RemoteBin n] else [RemoteBin n; LocalBin neg]).
Proof.
  intros Hs Ha Hb Hsh Hnz Hn n neg sent. assert (Hz := shape_of_nonzero a Hnz).
  assert (E64 : ((shape_of a).1 * (shape_of a).2) mod 2 ^ 64 = n /\ ((shape_of a).1 * (shape_of a).2) mod 2 ^ 32 = n).
  { unfold n. rewrite Ha. unfold shape_of. simpl. rewrite !Z.mod_small by lia. lia. }
  destruct E64 as [E64 E32]. unfold sent. rewrite place_sent by done. destruct (shape_of a) as [r c].
  assert (skip = 0 \/ skip = 1 \/ skip = 2) as [-> | [-> | ->]] by lia; cbn [place Z.eqb Pos.eqb at0 at1 at2]; unfold compare_party;
    rewrite (compare_none_at _ r c n) by (lia || done); rewrite !(fun p m Hp => compare_value_at _ p m r c n Hs Hp Hz E64) by lia;
    (split; [|split]; reflexivity).
Qed.

Lemma compare_ok add_msb skip a b :
  (forall x y, in_i64 x = true -> in_i64 y = true -> add_msb x y = bool_decide (wrap (x + y) < 0)) ->
  0 <= skip < 3 -> mat_ok a -> mat_ok b -> same_shape a b -> rows a <> O \/ cols a <> O ->
  Z.of_nat (rows a * cols a) < 2 ^ 32 ->
  Forall (fun x => in_i64 x = true) (cells a) -> Forall (fun x => in_i64 x = true) (cells b) ->
  Forall2 (fun x y => in_i64 (x - y) = true) (cells a) (cells b) ->
  mpc_compare add_msb (place skip a b) = Ret (Some (zip_with (fun x y => bool_decide (x < y)) (cells a) (cells b))).
Proof.
  intros Hmsb Hs Ha Hb Hsh Hnz Hn Ra Rb HF.
  destruct (compare_calls skip a b Hs Ha Hb Hsh Hnz Hn) as (C0 & C1 & C2). unfold mpc_compare. rewrite C0, C1, C2.
  assert (Hl : length ((fun x => wrap (x * -1)) <$> cells b) = length (cells a)).
  { rewrite length_fmap. symmetry. by eapply Forall2_length. }
  rewrite <- (zip_msb add_msb Hmsb _ _ Ra Rb HF).
  assert (skip = 0 \/ skip = 1 \/ skip = 2) as [-> | [-> | ->]] by lia; cbn [mbind res_bind Z.eqb Pos.eqb];
    unfold bin_round; rewrite ?Hl, !Z.eqb_refl; done.
Qed.

(** C36: when two parties provide matrices of one shape and the third none, the
    three parties agree on who provides, on the element count and on the order of
    the inputs, and the opened bits say, element by element, whether the value of
    the lower-numbered party is less than that of the other, as long as the
    differences fit in 64 bits; both providers get their values back. *)
Theorem mpc_compare_correct add_msb skip a b :
  (forall x y, in_i64 x = true -> in_i64 y = true -> add_msb x y = bool_decide (wrap (x + y) < 0)) ->
  0 <= skip < 3 -> mat_ok a -> mat_ok b -> same_shape a b -> rows a <> O \/ cols a <> O ->
  Z.of_nat (rows a * cols a) < 2 ^ 32 ->
  Forall (fun x => in_i64 x = true) (cells a) -> Forall (fun x => in_i64 x = true) (cells b) ->
  Forall2 (fun x y => in_i64 (x - y) = true) (cells a) (cells b) ->
  mpc_compare add_msb (place skip a b) = Ret (Some (zip_with (fun x y => bool_decide (x < y)) (cells a) (cells b))).
Proof. apply compare_ok. Qed.

Lemma mpc_compare_correct_witness :
  mpc_compare (fun x y => bool_decide (wrap (x + y) < 0)) (place 1 (Mat 1 3 [4; -7; 2 ^ 62]) (Mat 1 3 [4; 5; -3])) =
    Ret (Some (zip_with (fun x y => bool_decide (x < y)) [4; -7; 2 ^ 62] [4; 5; -3])).
Proof.
  refine (mpc_compare_correct (fun x y => bool_decide (wrap (x + y) < 0)) 1 (Mat 1 3 [4; -7; 2 ^ 62]) (Mat 1 3 [4; 5; -3]) _ _ _ _ _ _ _ _ _ _).
  - intros. reflexivity.
  - lia.
  - reflexivity.
  - reflexivity.
  - split; reflexivity.
  - left. discriminate.
  - vm_compute. reflexivity.
  - repeat constructor.
  - repeat constructor.
  - repeat constructor.
Defined.

(** the comparison expression [CMP(col1,col2)] is evaluated by party number,
    not by the order of its columns: the result says whether the column of the
    lower-numbered owner is the smaller one; when one party owns both columns
    every party raises. *)
Theorem cmp_by_party_order add_msb owner cols col1 col2 :
  (forall x y, in_i64 x = true -> in_i64 y = true -> add_msb x y = bool_decide (wrap (x + y) < 0)) ->
  0 <= owner col1 < 3 -> 0 <= owner col2 < 3 -> length (cols col1) = length (cols col2) ->
  Z.of_nat (length (cols col1)) < 2 ^ 32 ->
  Forall (fun x => in_i64 x = true) (cols col1) -> Forall (fun x => in_i64 x = true) (cols col2) ->
  Forall2 (fun x y => in_i64 (x - y) = true) (cols col1) (cols col2) ->
  Forall2 (fun x y => in_i64 (x - y) = true) (cols col2) (cols col1) ->
  (owner col1 < owner col2 ->
   execute_cmp add_msb owner cols col1 col2 = Ret (Some (zip_with (fun x y => bool_decide (x < y)) (cols col1) (cols col2)))) /\
  (owner col2 < owner col1 ->
   execute_cmp add_msb owner cols col1 col2 = Ret (Some (zip_with (fun x y => bool_decide (x < y)) (cols col2) (cols col1)))) /\
  (owner col1 = owner col2 -> execute_cmp add_msb owner cols col1 col2 = Throw).
Proof.
  intros Hmsb H1 H2 Hl Hn R1 R2 F12 F21. unfold execute_cmp, cmp_input.
  assert (G : forall k u v, 0 <= k < 3 -> length u = length v -> Z.of_nat (length u) < 2 ^ 32 ->
      Forall (fun x => in_i64 x = true) u -> Forall (fun x => in_i64 x = true) v ->
      Forall2 (fun x y => in_i64 (x - y) = true) u v ->
      mpc_compare add_msb (place k (Mat 1 (length u) u) (Mat 1 (length v) v)) = Ret (Some (zip_with (fun x y => bool_decide (x < y)) u v))).
  { intros k u v Hk Huv Hu Ru Rv HF. apply compare_ok; try done; [unfold mat_ok; simpl; lia..|by left|simpl; lia]. }
  split; [|split]; intros Ho.
  - assert ((owner col1 = 0 /\ owner col2 = 1) \/ (owner col1 = 0 /\ owner col2 = 2) \/ (owner col1 = 1 /\ owner col2 = 2))
      as [[-> ->]|[[-> ->]|[-> ->]]] by lia.
    + by apply (G 2).
    + by apply (G 1).
    + by apply (G 0).
  - assert ((owner col2 = 0 /\ owner col1 = 1) \/ (owner col2 = 0 /\ owner col1 = 2) \/ (owner col2 = 1 /\ owner col1 = 2))
      as [[-> ->]|[[-> ->]|[-> ->]]] by lia.
    + apply (G 2); [lia|done|lia|done..].
    + apply (G 1); [lia|done|lia|done..].
    + apply (G 0); [lia|done|lia|done..].
  - rewrite <- Ho. assert (owner col1 = 0 \/ owner col1 = 1 \/ owner col1 = 2) as [-> | [-> | ->]] by lia;
      unfold mpc_compare, compare_party, compare_value, compare_none; rewrite !gather_sent by lia; reflexivity.
Qed.

Lemma cmp_by_party_order_witness :
  execute_cmp (fun x y => bool_decide (wrap (x + y) < 0)) (fun s => if decide (s = chars "A") then 2 else 0)
    (fun s => if decide (s = chars "A") then [10; 3] else [4; 8]) (chars "A") (chars "B") =
  Ret (Some (zip_with (fun x y => bool_decide (x < y)) [4; 8] [10; 3])).
Proof.
  refine (proj1 (proj2 (cmp_by_party_order (fun x y => bool_decide (wrap (x + y) < 0)) (fun s => if decide (s = chars "A") then 2 else 0)
    (fun s => if decide (s = chars "A") then [10; 3] else [4; 8]) (chars "A") (chars "B") _ _ _ _ _ _ _ _ _)) _).
  - reflexivity.
  - split; vm_compute; congruence.
  - split; vm_compute; congruence.
  - reflexivity.
  - vm_compute. reflexivity.
  - apply (bool_decide_unpack _). vm_compute. exact I.
  - apply (bool_decide_unpack _). vm_compute. exact I.
  - apply (bool_decide_unpack _). vm_compute. exact I.
  - apply (bool_decide_unpack _). vm_compute. exact I.
  - vm_compute. reflexivity.
Defined.
