(* ===== verification/MpcProg.v ===== *)
(** * Programs of three parties that also compare

    The statistics of [executor/statistics.cc] and the missing-value code of
    [algorithm/missing_val_processing.cc] use, besides the calls of [ExprMpc], the
    secure comparison of [MpcCompare] followed by an opening to everybody.
    [mprog] is the program of one party with these operations, [mrun3] runs the
    three parties together. *)

From Stdlib Require Import Ascii String ZArith Lia SpecFloat.
From stdpp Require Import base tactics list option gmap strings.
From S2P Require Import Prelude ModArith Machine Aby3Op PartyProg ExprConfig ExprMpc MpcCompare.

Local Open Scope Z_scope.

(** Shared bits, as the value they open to; the program of a party passes them on
    and learns them from an opening only. *)
Record sbMatrix : Type := Sb { sb_value : list bool }.
#[export] Instance sbMatrix_eq_dec : EqDecision sbMatrix.
Proof. solve_decision. Defined.

Inductive mprog (A : Type) : Type :=
| MDone (r : res A)
| MCall (c : call) (k : si64Matrix -> mprog A)
| MRecv (s : si64Matrix) (k : i64Matrix -> mprog A)
| MSend (s : si64Matrix) (to : Z) (k : mprog A)
| MRevealAll (s : si64Matrix) (k : i64Matrix -> mprog A)
| MCompare (o : option i64Matrix) (k : list bool -> option i64Matrix -> mprog A)
| MBitRecv (b : sbMatrix) (k : list bool -> mprog A)
| MBitSend (b : sbMatrix) (to : Z) (k : mprog A)
| MSendSize (sz : nat * nat) (k : mprog A)
| MRecvSize (from : Z) (k : nat * nat -> mprog A).
Arguments MDone {A} r.
Arguments MCall {A} c k.
Arguments MRecv {A} s k.
Arguments MSend {A} s to k.
Arguments MRevealAll {A} s k.
Arguments MCompare {A} o k.
Arguments MBitRecv {A} b k.
Arguments MBitSend {A} b to k.
Arguments MSendSize {A} sz k.
Arguments MRecvSize {A} from k.

#[export] Instance mprog_ret : MRet mprog := fun A a => MDone (Ret a).

Fixpoint mprog_bind {A B} (f : A -> mprog B) (p : mprog A) : mprog B :=
  match p with
  | MDone (Ret a) => f a
  | MDone Throw => MDone Throw
  | MDone Undef => MDone Undef
  | MCall c k => MCall c (fun s => mprog_bind f (k s))
  | MRecv s k => MRecv s (fun m => mprog_bind f (k m))
  | MSend s to k => MSend s to (mprog_bind f k)
  | MRevealAll s k => MRevealAll s (fun m => mprog_bind f (k m))
  | MCompare o k => MCompare o (fun b m => mprog_bind f (k b m))
  | MBitRecv b k => MBitRecv b (fun l => mprog_bind f (k l))
  | MBitSend b to k => MBitSend b to (mprog_bind f k)
  | MSendSize sz k => MSendSize sz (mprog_bind f k)
  | MRecvSize from k => MRecvSize from (fun sz => mprog_bind f (k sz))
  end.
#[export] Instance mprog_mbind : MBind mprog := @mprog_bind.

Definition mcall (c : call) : mprog si64Matrix := MCall c (fun s => MDone (Ret s)).
Definition mrevealAll (s : si64Matrix) : mprog i64Matrix := MRevealAll s (fun m => MDone (Ret m)).
(** [MPC_Compare] and [revealAll] of its bits; a provider gets its matrix back. *)
Definition mcompare (o : option i64Matrix) : mprog (list bool * option i64Matrix) :=
  MCompare o (fun b m => MDone (Ret (b, m))).

(** What [MPC_Compare] leaves in the matrix of party [p]. *)
Definition compare_after (p : Z) (o : option i64Matrix) (sent : trip shape) : option i64Matrix :=
  match o with
  | Some m => match compare_value p m sent with Ret (_, m') => Some m' | _ => None end
  | None => None
  end.

(** An opening of bits to party [p]: both senders name it and all hold the same. *)
Definition bit_round (p to1 to2 : Z) (b0 b1 b2 : sbMatrix) : option (list bool) :=
  if (to1 =? p) && (to2 =? p) && bool_decide (b0 = b1) && bool_decide (b0 = b2) then Some (sb_value b0) else None.

(** Run two related programs in step: by induction on the first party's program,
    the outcome of each round decides both runs. *)
Ltac run3_round IH :=
  match goal with
  | H : (if ?b then _ else _) = Some _ |- _ => let E := fresh "E" in destruct b eqn:E; [|discriminate H]; run3_round IH
  | H : (joint ?n ?t ≫= _) = Some _ |- _ =>
      let E := fresh "E" in destruct (joint n t) eqn:E; [|discriminate H]; cbn in *; rewrite ?E; by apply IH
  | H : (reveal_to ?n ?t ≫= _) = Some _ |- _ =>
      let E := fresh "E" in destruct (reveal_to n t) eqn:E; [|discriminate H]; cbn in *;
      repeat match goal with E' : _ = true |- _ => rewrite E' end; rewrite E; by apply IH
  | H : (bit_round ?a ?b ?c ?p ?q ?r ≫= _) = Some _ |- _ =>
      let E := fresh "E" in destruct (bit_round a b c p q r) eqn:E; [|discriminate H]; cbn -[bit_round] in *; rewrite E; by apply IH
  | H : match mpc_compare ?f ?i with _ => _ end = Some _ |- _ =>
      let E := fresh "E" in destruct (mpc_compare f i) as [[?|]| |] eqn:E; try discriminate H; cbn -[mpc_compare]; rewrite E; by apply IH
  | _ => cbn; repeat match goal with E' : _ = true |- _ => rewrite E' end; by apply IH
  end.

Ltac run3_induction p0 :=
  induction p0 as [?|? ? IH|? ? IH|? ? ? IH|? ? IH|? ? IH|? ? IH|? ? ? IH|? ? IH|? ? IH];
  intros n [?|? ?|? ?|? ? ?|? ?|? ?|? ?|? ? ?|? ?|? ?] [?|? ?|? ?|? ? ?|? ?|? ?|? ?|? ? ?|? ?|? ?] H;
  cbn -[mpc_compare bit_round] in H; try discriminate H; [by simplify_eq|run3_round IH..].

Section Run.
Context `{E : Aby3} (add_msb : Z -> Z -> bool).

(** The three parties, round by round, with the number of the next round;
    [None] when their calls do not fit together or a comparison raises. *)
Fixpoint mrun3 {A} (n : nat) (p0 p1 p2 : mprog A) {struct p0} : option (nat * trip (res A)) :=
  match p0, p1, p2 with
  | MDone r0, MDone r1, MDone r2 => Some (n, Trip r0 r1 r2)
  | MCall c0 k0, MCall c1 k1, MCall c2 k2 =>
      t ← joint n (Trip c0 c1 c2); mrun3 (S n) (k0 (at0 t)) (k1 (at1 t)) (k2 (at2 t))
  | MRecv s0 k0, MSend s1 to1 k1, MSend s2 to2 k2 =>
      if (to1 =? 0) && (to2 =? 0) then m ← reveal_to n (Trip s0 s1 s2); mrun3 (S n) (k0 m) k1 k2 else None
  | MSend s0 to0 k0, MRecv s1 k1, MSend s2 to2 k2 =>
      if (to0 =? 1) && (to2 =? 1) then m ← reveal_to n (Trip s0 s1 s2); mrun3 (S n) k0 (k1 m) k2 else None
  | MSend s0 to0 k0, MSend s1 to1 k1, MRecv s2 k2 =>
      if (to0 =? 2) && (to1 =? 2) then m ← reveal_to n (Trip s0 s1 s2); mrun3 (S n) k0 k1 (k2 m) else None
  | MRevealAll s0 k0, MRevealAll s1 k1, MRevealAll s2 k2 =>
      m ← reveal_to n (Trip s0 s1 s2); mrun3 (S n) (k0 m) (k1 m) (k2 m)
  | MCompare o0 k0, MCompare o1 k1, MCompare o2 k2 =>
      let inputs := Trip o0 o1 o2 in
      let sent := trip_map sent_shape inputs in
      match mpc_compare add_msb inputs with
      | Ret (Some bits) =>
          mrun3 (S n) (k0 bits (compare_after 0 o0 sent)) (k1 bits (compare_after 1 o1 sent)) (k2 bits (compare_after 2 o2 sent))
      | _ => None
      end
  | MBitRecv b0 k0, MBitSend b1 to1 k1, MBitSend b2 to2 k2 =>
      l ← bit_round 0 to1 to2 b0 b1 b2; mrun3 (S n) (k0 l) k1 k2
  | MBitSend b0 to0 k0, MBitRecv b1 k1, MBitSend b2 to2 k2 =>
      l ← bit_round 1 to0 to2 b0 b1 b2; mrun3 (S n) k0 (k1 l) k2
  | MBitSend b0 to0 k0, MBitSend b1 to1 k1, MBitRecv b2 k2 =>
      l ← bit_round 2 to0 to1 b0 b1 b2; mrun3 (S n) k0 k1 (k2 l)
  | MSendSize sz k0, MRecvSize f1 k1, MRecvSize f2 k2 =>
      if (f1 =? 0) && (f2 =? 0) then mrun3 (S n) k0 (k1 sz) (k2 sz) else None
  | MRecvSize f0 k0, MSendSize sz k1, MRecvSize f2 k2 =>
      if (f0 =? 1) && (f2 =? 1) then mrun3 (S n) (k0 sz) k1 (k2 sz) else None
  | MRecvSize f0 k0, MRecvSize f1 k1, MSendSize sz k2 =>
      if (f0 =? 2) && (f1 =? 2) then mrun3 (S n) (k0 sz) (k1 sz) k2 else None
  | _, _, _ => None
  end.

Lemma mrun3_bind {A B} n (p0 p1 p2 : mprog A) n' a0 a1 a2 (f0 f1 f2 : A -> mprog B) :
  mrun3 n p0 p1 p2 = Some (n', Trip (Ret a0) (Ret a1) (Ret a2)) ->
  mrun3 n (p0 ≫= f0) (p1 ≫= f1) (p2 ≫= f2) = mrun3 n' (f0 a0) (f1 a1) (f2 a2).
Proof. revert n p1 p2. run3_induction p0. Qed.

(** One round of each kind. *)
Lemma mrun3_call n (c : trip call) t : joint n c = Some t ->
  mrun3 n (mcall (at0 c)) (mcall (at1 c)) (mcall (at2 c)) = Some (S n, trip_map Ret t).
Proof. destruct c, t. cbn. intros H. by rewrite H. Qed.

Lemma mrun3_revealAll `{L : !Aby3Laws E} n s m : shares s m ->
  mrun3 n (mrevealAll (at0 s)) (mrevealAll (at1 s)) (mrevealAll (at2 s)) = Some (S n, Trip (Ret m) (Ret m) (Ret m)).
Proof. intros H. destruct s. cbn. by rewrite (reveal_law _ _ _ H). Qed.

(** [MPC_Compare] by two providers [a] and [b] of one shape; both get theirs back
    as a column. *)
Definition as_column (m : i64Matrix) : i64Matrix := Mat (length (cells m)) 1 (cells m).

Lemma compare_after_at skip p m r c n : 0 <= skip < 3 -> 0 <= p < 3 -> (r =? 0) && (c =? 0) = false -> (r * c) mod 2 ^ 64 = n ->
  n = Z.of_nat (length (cells m)) -> Forall (fun x => in_i64 x = true) (cells m) ->
  compare_after p (Some m) (sent_at skip (r, c)) = Some (as_column m).
Proof.
  intros Hs Hp Hz Hn Hl Hr. unfold compare_after. rewrite (compare_value_at skip p m r c n) by done.
  unfold as_column. rewrite Hl, Nat2Z.id. destruct (negates skip p); [by rewrite negate_back|done].
Qed.

Hypothesis msb_law : forall x y, in_i64 x = true -> in_i64 y = true -> add_msb x y = bool_decide (wrap (x + y) < 0).

Lemma mrun3_compare skip n a b :
  0 <= skip < 3 -> mat_ok a -> mat_ok b -> same_shape a b -> rows a <> O \/ cols a <> O ->
  Z.of_nat (rows a * cols a) < 2 ^ 32 ->
  Forall (fun x => in_i64 x = true) (cells a) -> Forall (fun x => in_i64 x = true) (cells b) ->
  Forall2 (fun x y => in_i64 (x - y) = true) (cells a) (cells b) ->
  let bits := zip_with (fun x y => bool_decide (x < y)) (cells a) (cells b) in
  mrun3 n (mcompare (at0 (place skip a b))) (mcompare (at1 (place skip a b))) (mcompare (at2 (place skip a b))) =
    Some (S n, trip_map (fun o => Ret (bits, as_column <$> o)) (place skip a b)).
Proof.
  intros Hs Ha Hb Hsh Hnz Hn Ra Rb HF bits.
  assert (Hc := compare_ok add_msb skip a b msb_law Hs Ha Hb Hsh Hnz Hn Ra Rb HF).
  assert (Hsent := place_sent skip a b Hs Hsh). assert (Hz := shape_of_nonzero a Hnz).
  assert (Hn64 : ((shape_of a).1 * (shape_of a).2) mod 2 ^ 64 = Z.of_nat (length (cells a))).
  { rewrite Ha. unfold shape_of. simpl. rewrite Z.mod_small by lia. lia. }
  assert (Hl : length (cells b) = length (cells a)) by (symmetry; by eapply Forall2_length).
  unfold mcompare. cbn [mrun3]. destruct (shape_of a) as [r c].
  assert (Htrip : forall t : trip (option i64Matrix), Trip (at0 t) (at1 t) (at2 t) = t) by (by intros []).
  rewrite Htrip, Hc, Hsent. cbn [mrun3]. do 2 f_equal. unfold trip_map, place.
  assert (skip = 0 \/ skip = 1 \/ skip = 2) as [-> | [-> | ->]] by lia; cbn [Z.eqb Pos.eqb at0 at1 at2 fmap option_fmap option_map];
    rewrite !(fun p m => compare_after_at _ p m r c (Z.of_nat (length (cells a))) Hs) by (done || lia || by rewrite Hl); done.
Qed.
End Run.

(** ** Programs of [PartyProg] among these *)

Fixpoint lift {A} (p : prog A) : mprog A :=
  match p with
  | Done r => MDone r
  | Call c k => MCall c (fun s => lift (k s))
  | RevealRecv s k => MRecv s (fun m => lift (k m))
  | RevealSend s to k => MSend s to (lift k)
  | RevealAll s k => MRevealAll s (fun m => lift (k m))
  | SendSize sz k => MSendSize sz (lift k)
  | RecvSize from k => MRecvSize from (fun sz => lift (k sz))
  end.

Lemma lift_run `{E : Aby3} {A} add_msb (p0 : prog A) : forall n p1 p2 t, run3 n p0 p1 p2 = Some t ->
  exists n', mrun3 add_msb n (lift p0) (lift p1) (lift p2) = Some (n', t).
Proof.
  induction p0 as [r0|c0 k0 IH|s0 k0 IH|s0 to0 k0 IH|s0 k0 IH|s0 k0 IH|f0 k0 IH];
    intros n [r1|c1 k1|s1 k1|s1 to1 k1|s1 k1|s1 k1|f1 k1] [r2|c2 k2|s2 k2|s2 to2 k2|s2 k2|s2 k2|f2 k2] t H; cbn in H; try discriminate H; cbn.
  - injection H as <-. eauto.
  - destruct (joint n _) as [u|]; [|discriminate H]. cbn in *. by apply IH.
  - destruct (_ && _); [|discriminate H]. destruct (reveal_to n _) as [u|]; [|discriminate H]. cbn in *. by apply IH.
  - destruct (_ && _); [|discriminate H]. destruct (reveal_to n _) as [u|]; [|discriminate H]. cbn in *. by apply IH.
  - destruct (_ && _); [|discriminate H]. destruct (reveal_to n _) as [u|]; [|discriminate H]. cbn in *. by apply IH.
  - destruct (reveal_to n _) as [u|]; [|discriminate H]. cbn in *. by apply IH.
  - destruct (_ && _); [|discriminate H]. by apply IH.
  - destruct (_ && _); [|discriminate H]. by apply IH.
  - destruct (_ && _); [|discriminate H]. by apply IH.
Qed.
