(* ===== verification/SharedOps.v ===== *)
(** * More operations of the MPC operator

    Models, from [operator/aby3_operator.{h,cc}], the sharing of a matrix whose shape
    only its owner knows ([createSharesByShape]), the constants added to and taken from
    a single shared number ([si64], [sf64]), and the matrix of constants added to a
    shared one.  A fixed-point number is the integer that represents it ([mValue]). *)

From Stdlib Require Import Ascii String ZArith Lia SpecFloat.
From stdpp Require Import base tactics list option gmap strings.
From S2P Require Import Prelude ModArith Machine Aby3Op PartyProg MpcProg.

Local Open Scope Z_scope.

(** ** Sharing by shape *)

(** The owner: [asyncSendCopy] to the next and the previous party, then the call. *)
Definition createSharesByShape (val : i64Matrix) : mprog si64Matrix :=
  MSendSize (rows val, cols val) (mcall (LocalInt val)).

(** The others: the size comes from the owner's channel. *)
Definition createSharesByShape_remote (partyIdx pIdx : Z) : mprog si64Matrix :=
  if (pIdx =? (partyIdx + 1) mod 3) || (pIdx =? (partyIdx + 2) mod 3) then
    MRecvSize pIdx (fun size => mcall (RemoteInt size.1 size.2))
  else MDone Throw.

(** Party [p] when [owner] shares [val]. *)
Definition share_by_shape (owner : Z) (val : i64Matrix) (p : Z) : mprog si64Matrix :=
  if p =? owner then createSharesByShape val else createSharesByShape_remote p owner.

Lemma remote_form p q : 0 <= p < 3 -> 0 <= q < 3 -> p <> q -> createSharesByShape_remote p q = MRecvSize q (fun size => mcall (RemoteInt size.1 size.2)).
Proof.
  intros Hp Hq Hne. assert (p = 0 \/ p = 1 \/ p = 2) as [-> | [-> | ->]] by lia; assert (q = 0 \/ q = 1 \/ q = 2) as [-> | [-> | ->]] by lia; done.
Qed.

(** Whoever owns the matrix, all three end with their shares of it, though only the
    owner was told its shape. *)
Theorem shared_by_shape `{L : Aby3Laws} msb n owner val : 0 <= owner < 3 -> mat_ok val -> Forall (fun x => in_i64 x = true) (cells val) ->
  exists t, mrun3 msb n (share_by_shape owner val 0) (share_by_shape owner val 1) (share_by_shape owner val 2) = Some (S (S n), trip_map Ret t) /\ shares t val.
Proof.
  intros Ho Hok Hr. destruct (local_int_law (S n) owner val Ho Hok Hr) as (t & Et & Ht). exists t. split; [|done].
  assert (owner = 0 \/ owner = 1 \/ owner = 2) as [-> | [-> | ->]] by lia; unfold share_by_shape; cbn [Z.eqb Pos.eqb];
    rewrite !remote_form by lia; destruct t; unfold owner_calls in Et; cbn in *; by rewrite Et.
Qed.

(** Parties that name different owners do not get on. *)
Example owners_differ `{Aby3} msb n val : mrun3 msb n (createSharesByShape val) (createSharesByShape_remote 1 0) (createSharesByShape_remote 2 1) = None.
Proof. reflexivity. Qed.

(** A party that names itself raises. *)
Example own_index_raises p : 0 <= p < 3 -> createSharesByShape_remote p p = MDone Throw.
Proof. intros Hp. assert (p = 0 \/ p = 1 \/ p = 2) as [-> | [-> | ->]] by lia; reflexivity. Qed.

(** ** Single numbers *)

(** [si64] and [sf64]: the two components of a party. *)
Record si64 : Type := S64 { s64_0 : Z; s64_1 : Z }.

(** As a matrix of one cell. *)
Definition one_cell (s : si64) : si64Matrix := Sh (Mat 1 1 [s64_0 s]) (Mat 1 1 [s64_1 s]).

Definition si64_Add_Const (partyIdx constInt : Z) (s : si64) : si64 :=
  if partyIdx =? 0 then S64 (wrap (s64_0 s + constInt)) (s64_1 s)
  else if partyIdx =? 1 then S64 (s64_0 s) (wrap (s64_1 s + constInt))
  else s.

Definition si64_Sub_Const (partyIdx constInt : Z) (s : si64) (mode : bool) : si64 :=
  let temp :=
    if partyIdx =? 0 then S64 (wrap (s64_0 s - constInt)) (s64_1 s)
    else if partyIdx =? 1 then S64 (s64_0 s) (wrap (s64_1 s - constInt))
    else s in
  if mode then temp else S64 (wrap (- s64_0 temp)) (wrap (- s64_1 temp)).

(** The parties hold a sharing of [v]. *)
Definition shares_number (t : trip si64) (v : Z) : Prop := shares (trip_map one_cell t) (Mat 1 1 [v]).

(** The operations on a number are those on a matrix with one cell. *)
Lemma add_const_cell p k s : one_cell (si64_Add_Const p k s) = MPC_Add_Const p k (one_cell s).
Proof. unfold si64_Add_Const, MPC_Add_Const. by repeat case_match. Qed.

Lemma sub_const_cell p k s mode : one_cell (si64_Sub_Const p k s mode) = MPC_Sub_Const p k (one_cell s) mode.
Proof. unfold si64_Sub_Const, MPC_Sub_Const. destruct mode; by repeat case_match. Qed.

(** A constant added to, taken from, or that has taken from it a shared number is so in
    the secret, modulo 2^64. *)
Theorem number_constants `{L : Aby3Laws} t v k : shares_number t v ->
  shares_number (each (fun i => si64_Add_Const i k) t) (wrap (v + k)) /\
  shares_number (each (fun i s => si64_Sub_Const i k s true) t) (wrap (v - k)) /\
  shares_number (each (fun i s => si64_Sub_Const i k s false) t) (wrap (k - v)).
Proof.
  intros Ht. split_and!.
  - pose proof (shares_add_const k _ _ Ht) as H. unfold shares_number, each, trip_map in *. cbn [at0 at1 at2] in *. by rewrite !add_const_cell.
  - pose proof (shares_sub_const k _ _ true Ht) as H. unfold shares_number, each, trip_map in *. cbn [at0 at1 at2] in *. by rewrite !sub_const_cell.
  - pose proof (shares_sub_const k _ _ false Ht) as H. unfold shares_number, each, trip_map in *. cbn [at0 at1 at2] in *. by rewrite !sub_const_cell.
Qed.

(** ** A matrix of constants *)

(** [MPC_Add_Const(f64Matrix, sf64Matrix &)]: other shapes raise. *)
Definition MPC_Add_Const_matrix (partyIdx : Z) (constMatrix : i64Matrix) (s : si64Matrix) : res si64Matrix :=
  if negb (bool_decide (cols (sh0 s) = cols constMatrix)) || negb (bool_decide (rows (sh0 s) = rows constMatrix)) then Throw
  else
    Ret (if partyIdx =? 0 then Sh (mat_zip (fun x y => wrap (x + y)) (sh0 s) constMatrix) (sh1 s)
         else if partyIdx =? 1 then Sh (sh0 s) (mat_zip (fun x y => wrap (x + y)) (sh1 s) constMatrix)
         else s).

Lemma open3_zip0 (k : list Z) x0 x1 x2 n : length x0 = n -> length x1 = n -> length x2 = n -> length k = n ->
  open3 (zip_with (fun x y => wrap (x + y)) x0 k) x1 x2 = zip_with (fun x y => wrap (x + y)) (open3 x0 x1 x2) k.
Proof.
  unfold open3. revert x0 x1 x2 k. induction n as [|n IH]; intros [|a x0] [|b x1] [|c x2] [|d k] ????; try discriminate; simpl in *; [done|].
  f_equal; [wrap_ring|apply IH; lia].
Qed.

(** The constants end up in the secret, cell by cell, or all three parties raise. *)
Theorem matrix_constants `{L : Aby3Laws} t m K : shares t m -> mat_ok K ->
  if decide (same_shape m K) then
    exists t', each (fun i => MPC_Add_Const_matrix i K) t = trip_map Ret t' /\ shares t' (mat_zip (fun x y => wrap (x + y)) m K)
  else each (fun i => MPC_Add_Const_matrix i K) t = Trip Throw Throw Throw.
Proof.
  intros (r & c & x0 & x1 & x2 & -> & -> & H0 & H1 & H2)%shares_inv HK. destruct K as [r' c' k]. unfold mat_ok in HK. cbn in HK.
  unfold each, MPC_Add_Const_matrix, same_shape. cbn [rep at0 at1 at2 sh0 sh1 rows cols]. case_decide as Hd.
  - destruct Hd as [<- <-]. rewrite !bool_decide_true by done. cbn.
    exists (rep r c (zip_with (fun x y => wrap (x + y)) x0 k) x1 x2). split; [done|]. unfold mat_zip. cbn [rows cols cells].
    rewrite <- (open3_zip0 k x0 x1 x2 (r * c)) by done. apply shares_rep; rewrite ?length_zip_with; lia.
  - assert (negb (bool_decide (c = c')) || negb (bool_decide (r = r')) = true) as ->; [|done].
    apply orb_true_iff. rewrite !negb_true_iff, !bool_decide_eq_false. destruct (decide (r = r')) as [->|]; [left|by right]. intros ->. by apply Hd.
Qed.
