(* ===== verification/Parallel.v ===== *)
(** * Threads that write to one vector

    The PSI code starts asynchronous tasks that write to different positions of a
    shared vector and then waits for all of them.  A task is the list of its
    writes; a run is any interleaving of the tasks' writes.  When no position is
    written twice, every interleaving leaves the same vector. *)

From Stdlib Require Import ZArith Lia.
From stdpp Require Import base tactics list option.
From S2P Require Import Prelude.

(** A write: the position and what becomes of the cell. *)
Definition wr (A : Type) : Type := nat * (A -> A).

Definition do_writes {A} (ws : list (wr A)) (v : list A) : list A :=
  fold_left (fun v w => alter (w.2) (w.1) v) ws v.

(** The interleavings of several sequences. *)
Inductive interleave {A} : list (list A) -> list A -> Prop :=
| interleave_done ts : Forall (fun t => t = []) ts -> interleave ts []
| interleave_step ts1 t ts2 x l : interleave (ts1 ++ t :: ts2) l -> interleave (ts1 ++ (x :: t) :: ts2) (x :: l).

Lemma interleave_perm {A} (ts : list (list A)) l : interleave ts l -> l ≡ₚ concat ts.
Proof.
  induction 1 as [ts H|ts1 t ts2 x l _ IH].
  - induction H as [|t ts -> _ IH]; simpl; [done|]. by rewrite <- IH.
  - rewrite IH, !concat_app. simpl. by rewrite Permutation_middle.
Qed.

(** One task after the other is an interleaving. *)
Lemma interleave_seq {A} (ts : list (list A)) : interleave ts (concat ts).
Proof.
  assert (H : forall es, Forall (fun t => t = []) es -> interleave (es ++ ts) (concat ts)).
  2: { by apply (H []). }
  induction ts as [|t ts IH]; intros es Hes; simpl; [rewrite app_nil_r; by constructor|].
  induction t as [|x t IHt]; simpl.
  - replace (es ++ [] :: ts) with ((es ++ [[]]) ++ ts) by (by rewrite <- app_assoc).
    apply IH. apply Forall_app. split; [done|]. by repeat constructor.
  - by constructor.
Qed.

Section Writes.
Context {A : Type}.
Implicit Types (v : list A) (ws : list (wr A)).

Lemma do_writes_length ws v : length (do_writes ws v) = length v.
Proof. revert v. induction ws as [|w ws IH]; intros v; simpl; [done|]. by rewrite IH, length_alter. Qed.

Lemma do_writes_other ws v i : i ∉ ws.*1 -> do_writes ws v !! i = v !! i.
Proof.
  revert v. induction ws as [|[j f] ws IH]; intros v Hi; simpl; [done|]. apply not_elem_of_cons in Hi as [Hj Hi].
  simpl in Hj. rewrite IH by done. by rewrite list_lookup_alter_ne.
Qed.

(** With distinct positions each cell sees its own write only. *)
Lemma do_writes_at ws v i f : NoDup ws.*1 -> (i, f) ∈ ws -> do_writes ws v !! i = f <$> v !! i.
Proof.
  revert v. induction ws as [|[j g] ws IH]; intros v Hnd Hin; simpl; [by apply not_elem_of_nil in Hin|].
  apply list.NoDup_cons in Hnd as [Hj Hnd]. apply elem_of_cons in Hin as [[= -> ->]|Hin]; simpl in *.
  - rewrite do_writes_other by done. by rewrite list_lookup_alter_eq.
  - rewrite IH by done. rewrite list_lookup_alter_ne; [done|]. intros ->. apply Hj.
    apply list_elem_of_fmap. by exists (i, f).
Qed.

Lemma do_writes_perm ws ws' v : NoDup ws.*1 -> ws ≡ₚ ws' -> do_writes ws v = do_writes ws' v.
Proof.
  intros Hnd Hp. apply list_eq. intros i. destruct (decide (i ∈ ws.*1)) as [Hi|Hi].
  - apply list_elem_of_fmap in Hi as ([j f] & -> & Hin). simpl.
    rewrite (do_writes_at ws v j f Hnd Hin), (do_writes_at ws' v j f); [done| |by rewrite <- Hp].
    by rewrite <- Hp.
  - rewrite do_writes_other by done. rewrite do_writes_other; [done|]. by rewrite <- Hp.
Qed.

(** Every schedule of tasks that write distinct positions is as good as running
    them one after the other. *)
Lemma schedule_irrelevant (ts : list (list (wr A))) l v :
  NoDup (concat ts).*1 -> interleave ts l -> do_writes l v = do_writes (concat ts) v.
Proof.
  intros Hnd Hl. apply interleave_perm in Hl. apply do_writes_perm; [|done]. by rewrite Hl.
Qed.
End Writes.
