(* ===== verification/StrUtil.v ===== *)
(** * String splitting

    Models the two [str_split] functions of [util/util.cc] and the record
    separator of [common/common.h], with the round trip between joining fields
    and splitting a record. *)

From Stdlib Require Import Ascii String ZArith Lia.
From stdpp Require Import base tactics list option strings.
From S2P Require Import Prelude ModArith Machine.

(** [str_split(str, v, char)]: [getline] until the stream is no longer good; the
    empty text gives one empty field. *)
Fixpoint split_char (d : ascii) (s : str) : list str :=
  match s with
  | [] => [[]]
  | c :: s =>
      if decide (c = d) then [] :: split_char d s
      else match split_char d s with
           | f :: fs => (c :: f) :: fs
           | [] => [[c]]
           end
  end.

(** [pattern] at the start of [s]: what follows it. *)
Fixpoint strip_prefix (pattern s : str) : option str :=
  match pattern, s with
  | [], _ => Some s
  | p :: pattern, c :: s => if decide (p = c) then strip_prefix pattern s else None
  | _ :: _, [] => None
  end.

(** [str.find(pattern)]: the text before the first occurrence and after it. *)
Fixpoint find_pattern (pattern s : str) : option (str * str) :=
  match strip_prefix pattern s with
  | Some rest => Some ([], rest)
  | None =>
      match s with
      | [] => None
      | c :: s => '(a, rest) ← find_pattern pattern s; Some (c :: a, rest)
      end
  end.

(** The loop of [str_split(str, v, pattern)] from [pos1] on.  Every turn consumes
    the pattern, so the length of the text bounds the turns; the final field is
    kept unless it is empty. *)
Fixpoint split_loop (fuel : nat) (pattern s : str) : list str :=
  match fuel with
  | O => []
  | S k =>
      match find_pattern pattern s with
      | Some (a, rest) => a :: split_loop k pattern rest
      | None => match s with [] => [] | _ => [s] end
      end
  end.

Definition str_split (s pattern : str) : list str := split_loop (S (length s)) pattern s.

Definition DATA_RECORD_SEP : str := chars "####".

(** Fields joined by the separator. *)
Fixpoint join (sep : str) (fs : list str) : str :=
  match fs with
  | [] => []
  | [f] => f
  | f :: fs => f ++ sep ++ join sep fs
  end.

(** ** Round trips *)

Definition no_hash (f : str) : Prop := "#"%char ∉ f.

Lemma strip_prefix_app pattern rest : strip_prefix pattern (pattern ++ rest) = Some rest.
Proof. induction pattern as [|p pattern IH]; simpl; [done|]. by rewrite decide_True by done. Qed.

Lemma find_none p f : no_hash f -> find_pattern ("#"%char :: p) f = None.
Proof.
  unfold no_hash. induction f as [|c f IH]; intros H; simpl; [done|]. apply not_elem_of_cons in H as [Hc Hf].
  rewrite decide_False by done. by rewrite IH.
Qed.

Lemma find_first p f rest : no_hash f ->
  find_pattern ("#"%char :: p) (f ++ ("#"%char :: p) ++ rest) = Some (f, rest).
Proof.
  unfold no_hash. induction f as [|c f IH]; intros H.
  - simpl. by rewrite strip_prefix_app.
  - apply not_elem_of_cons in H as [Hc Hf]. cbn [app find_pattern strip_prefix].
    rewrite decide_False by done. cbn [app] in IH. by rewrite IH.
Qed.

Lemma find_sep f rest : no_hash f -> find_pattern DATA_RECORD_SEP (f ++ DATA_RECORD_SEP ++ rest) = Some (f, rest).
Proof. exact (find_first (chars "###") f rest). Qed.

Lemma split_join_fuel fs k : fs <> [] -> Forall no_hash fs -> last fs <> Some [] ->
  (length (join DATA_RECORD_SEP fs) < k)%nat -> split_loop k DATA_RECORD_SEP (join DATA_RECORD_SEP fs) = fs.
Proof.
  revert k. induction fs as [|f fs IH]; intros k Hne Hh Hlast Hk; [done|]. inversion_clear Hh as [|?? Hf Hfs].
  destruct k as [|k]; [lia|]. destruct fs as [|g fs].
  - cbn [join split_loop]. unfold DATA_RECORD_SEP. cbn [chars list_ascii_of_string]. rewrite find_none by done. destruct f; [by simpl in Hlast|done].
  - change (join DATA_RECORD_SEP (f :: g :: fs)) with (f ++ DATA_RECORD_SEP ++ join DATA_RECORD_SEP (g :: fs)) in *.
    cbn [split_loop]. rewrite find_sep by done. f_equal. apply IH; try done.
    rewrite !length_app in Hk. change (length DATA_RECORD_SEP) with 4%nat in Hk. lia.
Qed.

(** Splitting a joined record gives its fields back. *)
Lemma split_join fs : fs <> [] -> Forall no_hash fs -> last fs <> Some [] ->
  str_split (join DATA_RECORD_SEP fs) DATA_RECORD_SEP = fs.
Proof. intros. apply split_join_fuel; try done. lia. Qed.

(** An empty last field is lost. *)
Example split_empty_last : str_split (chars "a####") DATA_RECORD_SEP = [chars "a"].
Proof. reflexivity. Qed.

Lemma split_char_join d fs : fs <> [] -> Forall (fun f => d ∉ f) fs -> split_char d (join [d] fs) = fs.
Proof.
  induction fs as [|f fs IH]; intros Hne Hd; [done|]. inversion_clear Hd as [|?? Hf Hfs].
  assert (Hone : forall g, d ∉ g -> split_char d g = [g]).
  { induction g as [|c g IHg]; intros Hg; [done|]. apply not_elem_of_cons in Hg as [Hc Hg]. simpl.
    rewrite decide_False by done. by rewrite IHg. }
  destruct fs as [|g fs]; [by apply Hone|].
  change (join [d] (f :: g :: fs)) with (f ++ d :: join [d] (g :: fs)). clear Hone.
  induction f as [|c f IHf]; cbn [split_char app].
  - rewrite decide_True by done. f_equal. by apply IH.
  - apply not_elem_of_cons in Hf as [Hc Hf]. rewrite decide_False by done. by rewrite IHf.
Qed.
