(* ===== verification/Json.v ===== *)
(** * Request texts: JSON values and ordered names

    What the task parameters use of rapidjson (the value model with the accessors
    the code calls; the text parser itself is an argument of the functions that
    use it) and of [std::string]'s order ([std::sort], [std::map]).  An accessor
    whose precondition fails is undefined, as rapidjson's assertions say. *)

From Stdlib Require Import Ascii String ZArith Lia.
From stdpp Require Import base tactics list option strings sorting.
From S2P Require Import Prelude Machine.

Local Open Scope Z_scope.

(** ** Values *)

Inductive json :=
| JNull
| JBool (b : bool)
| JInt (z : Z)
| JNumber (d : double)
| JString (s : str)
| JArray (l : list json)
| JObject (l : list (str * json)).

Fixpoint find_member (k : str) (l : list (str * json)) : option json :=
  match l with
  | [] => None
  | (k', v) :: l => if decide (k' = k) then Some v else find_member k l
  end.

Definition HasMember (j : json) (k : str) : res bool :=
  match j with JObject l => Ret (bool_decide (is_Some (find_member k l))) | _ => Undef end.

(** [operator[]]. *)
Definition member (j : json) (k : str) : res json :=
  match j with JObject l => or_undef (find_member k l) | _ => Undef end.

Definition IsString (j : json) : bool := match j with JString _ => true | _ => false end.
Definition GetString (j : json) : res str := match j with JString s => Ret s | _ => Undef end.
Definition GetInt (j : json) : res Z := match j with JInt z => Ret z | _ => Undef end.

(** ** The order of strings: by unsigned characters *)

Fixpoint str_leb (s t : str) : bool :=
  match s, t with
  | [], _ => true
  | _ :: _, [] => false
  | a :: s, b :: t =>
      match (N_of_ascii a ?= N_of_ascii b)%N with Lt => true | Gt => false | Eq => str_leb s t end
  end.

Definition str_le (s t : str) : Prop := str_leb s t = true.

#[export] Instance str_le_dec : RelDecision str_le.
Proof. intros s t. unfold str_le. apply _. Defined.

Lemma N_of_ascii_inj a b : N_of_ascii a = N_of_ascii b -> a = b.
Proof. intros H. by rewrite <- (ascii_N_embedding a), <- (ascii_N_embedding b), H. Qed.

#[export] Instance str_le_total : Total str_le.
Proof.
  intros s. unfold str_le. induction s as [|a s IH]; intros [|b t]; simpl; auto.
  rewrite (N.compare_antisym (N_of_ascii a) (N_of_ascii b)). destruct (N_of_ascii a ?= N_of_ascii b)%N; simpl; auto.
Qed.

#[export] Instance str_le_antisymm : AntiSymm eq str_le.
Proof.
  intros s. unfold str_le. induction s as [|a s IH]; intros [|b t]; simpl; try done.
  rewrite (N.compare_antisym (N_of_ascii a) (N_of_ascii b)).
  destruct (N.compare_spec (N_of_ascii a) (N_of_ascii b)) as [E|E|E]; simpl; try done.
  intros H1 H2. apply N_of_ascii_inj in E. by rewrite E, (IH t).
Qed.

#[export] Instance str_le_trans : Transitive str_le.
Proof.
  intros s. unfold str_le. induction s as [|a s IH]; intros [|b t] [|c u]; simpl; try done.
  destruct (N.compare_spec (N_of_ascii a) (N_of_ascii b)) as [E|E|E]; try done.
  - rewrite E. destruct (N_of_ascii b ?= N_of_ascii c)%N; try done. apply IH.
  - intros _. destruct (N.compare_spec (N_of_ascii b) (N_of_ascii c)) as [E'|E'|E']; try done; intros _.
    + rewrite <- E', (proj2 (N.compare_lt_iff _ _)) by done. done.
    + rewrite (proj2 (N.compare_lt_iff _ _)) by lia. done.
Qed.

(** [std::sort] of a vector of strings. *)
Definition sort_names (l : list str) : list str := merge_sort str_le l.

(** The sorted order does not depend on the order the names came in. *)
Lemma sort_names_perm l k : l ≡ₚ k -> sort_names l = sort_names k.
Proof.
  intros H. apply (Sorted_unique str_le); [apply (Sorted_merge_sort _)|apply (Sorted_merge_sort _)|].
  unfold sort_names. by rewrite !merge_sort_Permutation.
Qed.

Lemma sort_names_elem l x : x ∈ sort_names l <-> x ∈ l.
Proof. unfold sort_names. by rewrite merge_sort_Permutation. Qed.

Lemma sort_names_length l : length (sort_names l) = length l.
Proof. unfold sort_names. by rewrite merge_sort_Permutation. Qed.
