(* ===== verification/Common.v ===== *)
(** * Parties, nodes and their text form

    Models [RoleValidation] and [struct Node] of [common/common.h]: the party
    names, a node's five fields, [to_string] and [fromString] with the round trip
    between them. *)

From Stdlib Require Import Ascii String ZArith Lia.
From stdpp Require Import base tactics list option strings countable gmap.
From S2P Require Import Prelude ModArith Machine StrUtil.

Local Open Scope Z_scope.

Definition PARTY_CLIENT : str := chars "CLIENT".
Definition PARTY_SERVER : str := chars "SERVER".
Definition PARTY_TEE_COMPUTE : str := chars "TEE_COMPUTE".

Definition AUX_COMPUTE_NODE : str := chars "AUXILIARY_COMPUTE_NODE".
Definition IsClient (party_name : str) : bool := bool_decide (party_name = PARTY_CLIENT).
Definition IsServer (party_name : str) : bool := bool_decide (party_name = PARTY_SERVER).
Definition IsTeeCompute (party_name : str) : bool := bool_decide (party_name = PARTY_TEE_COMPUTE).
Definition IsAuxiliaryCompute (party_name : str) : bool := bool_decide (party_name = AUX_COMPUTE_NODE).

(** [struct Node]; [port_] is a [uint32_t]. *)
Record Node : Type := Nd { id_ : str; ip_ : str; port_ : Z; use_tls_ : bool; role_ : str }.

#[export] Instance Node_eq_dec : EqDecision Node.
Proof. solve_decision. Defined.
#[export] Instance Node_countable : Countable Node.
Proof.
  refine (inj_countable' (fun n => (id_ n, ip_ n, port_ n, use_tls_ n, role_ n))
    (fun '(i, p, q, t, r) => Nd i p q t r) _). by intros [].
Qed.

(** [Node()]: every member default-initialised. *)
Definition default_node : Node := Nd [] [] 0 false [].

(** [operator==]: the address only. *)
Definition node_eqb (a b : Node) : bool :=
  bool_decide (ip_ a = ip_ b) && (port_ a =? port_ b) && Bool.eqb (use_tls_ a) (use_tls_ b).

(** [std::to_string] of a non-negative number: its decimal digits. *)
Fixpoint digits (fuel : nat) (n : Z) : str :=
  match fuel with
  | O => []
  | S k =>
      let c := ascii_of_nat (48 + Z.to_nat (n mod 10)) in
      if n <? 10 then [c] else digits k (n / 10) ++ [c]
  end.

(** Enough turns for every [uint32_t]. *)
Definition uint_to_string (n : Z) : str := digits 10 n.

(** [std::to_string] of a 64-bit number. *)
Definition int_to_string (z : Z) : str := if z <? 0 then "-"%char :: digits 20 (- z) else digits 20 z.

(** [std::stoi]: blanks, a sign and at least one digit, the value in [int]'s
    range; anything else throws. *)
Definition stoi (s : str) : res Z :=
  let '(neg, s) := take_sign (skip_space s) in
  let '(v, n, _) := take_digits 0 0 s in
  let v := if neg then - v else v in
  if decide (n = O) then Throw else if (- 2 ^ 31 <=? v) && (v <? 2 ^ 31) then Ret v else Throw.

(** [Node::to_string]. *)
Definition node_to_string (n : Node) : str :=
  let sep := chars ":" in
  id_ n ++ sep ++ ip_ n ++ sep ++ uint_to_string (port_ n) ++ sep ++
  chars (if use_tls_ n then "1" else "0") ++ sep ++ role_ n.

(** [Node::fromString] on the object [n]: fewer than four fields index past the
    vector; the role is replaced only when there are exactly five; [stoi]'s
    result is converted to [uint32_t]. *)
Definition node_fromString (n : Node) (info : str) : res (retcode * Node) :=
  let v := split_char ":"%char info in
  id ← or_undef (v !! 0%nat);
  ip ← or_undef (v !! 1%nat);
  p ← or_undef (v !! 2%nat);
  port ← stoi p;
  tls ← or_undef (v !! 3%nat);
  Ret (SUCCESS, Nd id ip (port mod 2 ^ 32) (bool_decide (tls = chars "1"))
    (if decide (length v = 5%nat) then default [] (v !! 4%nat) else role_ n)).

(** [CompletePath(default_storage_path, file_path)]. *)
Definition CompletePath (storage path : str) : str :=
  match path with
  | [] => []
  | c :: _ => if decide (c = "/"%char) then path else match storage with [] => path | _ => storage ++ chars "/" ++ path end
  end.

(** ** Round trip *)

Lemma digit_char d : 0 <= d < 10 -> digit (ascii_of_nat (48 + Z.to_nat d)) = Some d.
Proof.
  intros H. assert (Hc : d = 0 \/ d = 1 \/ d = 2 \/ d = 3 \/ d = 4 \/ d = 5 \/ d = 6 \/ d = 7 \/ d = 8 \/ d = 9) by lia.
  repeat destruct Hc as [->|Hc]; try reflexivity. by subst.
Qed.

Lemma take_digits_all s acc n : (forall c, c ∈ s -> is_Some (digit c)) ->
  exists v, take_digits acc n s = (v, (n + length s)%nat, []).
Proof.
  revert acc n. induction s as [|c s IH]; intros acc n H; simpl.
  - exists acc. by rewrite Nat.add_0_r.
  - destruct (H c) as [d ->]; [by left|]. destruct (IH (10 * acc + d) (S n)) as [v ->]; [intros; apply H; by right|].
    exists v. f_equal. f_equal. lia.
Qed.

Lemma take_digits_snoc s acc n v k d c : take_digits acc n s = (v, k, []) -> digit c = Some d ->
  take_digits acc n (s ++ [c]) = (10 * v + d, S k, []).
Proof.
  revert acc n. induction s as [|x s IH]; intros acc n H Hc; simpl in *; [by simplify_eq; rewrite Hc|].
  destruct (digit x); [by apply IH|done].
Qed.

Lemma digits_value k n : 0 <= n < 10 ^ Z.of_nat k -> k <> O ->
  exists m, take_digits 0 0 (digits k n) = (n, S m, []).
Proof.
  revert n. induction k as [|k IH]; intros n Hn Hk; [done|]. cbn [digits].
  assert (Hd := digit_char (n mod 10) (Z.mod_pos_bound n 10 ltac:(lia))).
  destruct (Z.ltb_spec n 10).
  - exists O. cbn [take_digits]. rewrite Hd. rewrite Z.mod_small by lia. done.
  - rewrite Nat2Z.inj_succ, Z.pow_succ_r in Hn by lia.
    destruct (IH (n / 10)) as [m Hm].
    { split; [apply Z.div_pos; lia|]. apply Z.div_lt_upper_bound; lia. }
    { intros ->. simpl in Hn. lia. }
    exists (S m). rewrite (take_digits_snoc _ _ _ _ _ _ _ Hm Hd). f_equal. f_equal.
    rewrite (Z.div_mod n 10) at 3; lia.
Qed.

Lemma digits_chars k n c : 0 <= n -> c ∈ digits k n -> is_Some (digit c).
Proof.
  revert n. induction k as [|k IH]; intros n Hn; cbn [digits]; [set_solver|].
  assert (Hd := digit_char (n mod 10) (Z.mod_pos_bound n 10 ltac:(lia))).
  case_match; rewrite ?elem_of_app, list_elem_of_singleton; [intros ->; eauto|intros [H1| -> ]; [|eauto]].
  eapply IH; [|done]. by apply Z.div_pos.
Qed.

Lemma stoi_digits n : 0 <= n < 2 ^ 31 -> stoi (uint_to_string n) = Ret n.
Proof.
  intros Hn. unfold stoi, uint_to_string. destruct (digits_value 10 n) as [m Hm]; [simpl; lia|done|].
  assert (Hc := digits_chars 10 n). destruct (digits 10 n) as [|c s] eqn:E; [done|].
  destruct (Hc c) as [d Hd]; [lia|by left|].
  assert (Hs : is_space c = false /\ c <> "-"%char /\ c <> "+"%char).
  { split_and!; [unfold is_space; case_bool_decide as Hin; [|done]; exfalso|intros ->; done|intros ->; done].
    rewrite !elem_of_cons in Hin. decompose [or] Hin; subst; try done. set_solver. }
  destruct Hs as (Hs1 & Hs2 & Hs3). cbn [skip_space]. rewrite Hs1. cbn [take_sign].
  rewrite decide_False, decide_False by done. rewrite Hm. rewrite decide_False by done.
  replace ((- 2 ^ 31 <=? n) && (n <? 2 ^ 31)) with true; [done|]. symmetry. apply andb_true_iff.
  rewrite Z.leb_le, Z.ltb_lt. lia.
Qed.

Lemma digit_head c d : digit c = Some d -> is_space c = false /\ c <> "-"%char /\ c <> "+"%char.
Proof.
  intros Hd. split; [|split; intros ->; done]. unfold is_space. case_bool_decide as Hin; [|done]. exfalso.
  rewrite !elem_of_cons in Hin. decompose [or] Hin; subst; try done. set_solver.
Qed.

Lemma numeral_digits z : 0 <= z < 10 ^ 20 -> exists m c s, digits 20 z = c :: s /\ is_Some (digit c) /\ take_digits 0 0 (c :: s) = (z, S m, []).
Proof.
  intros Hz. destruct (digits_value 20 z) as [m Hm]; [simpl; lia|done|].
  assert (Hc := digits_chars 20 z). destruct (digits 20 z) as [|c s] eqn:E; [done|]. exists m, c, s. split_and!; [done| |done].
  apply Hc; [lia|by left].
Qed.

(** The numeral of a printed number. *)
Lemma int_to_string_read z : - 10 ^ 20 < z < 10 ^ 20 -> exists neg s v n,
  take_sign (skip_space (int_to_string z)) = (neg, s) /\ take_digits 0 0 s = (v, S n, []) /\ (if neg then - v else v) = z.
Proof.
  intros Hz. unfold int_to_string. destruct (Z.ltb_spec z 0) as [H|H].
  - destruct (numeral_digits (- z)) as (m & c & s & E & Hc & Ht); [lia|]. rewrite E. exists true, (c :: s), (- z), m.
    split; [reflexivity|]. split; [done|lia].
  - destruct (numeral_digits z) as (m & c & s & E & [d Hd] & Ht); [lia|]. rewrite E. destruct (digit_head c d Hd) as (H1 & H2 & H3).
    exists false, (c :: s), z, m. cbn [skip_space]. rewrite H1. cbn [take_sign]. by rewrite decide_False, decide_False by done.
Qed.

(** [std::stoi] on a printed number: its value when an [int] holds it. *)
Lemma stoi_to_string z : - 10 ^ 20 < z < 10 ^ 20 -> stoi (int_to_string z) = if (- 2 ^ 31 <=? z) && (z <? 2 ^ 31) then Ret z else Throw.
Proof.
  intros Hz. destruct (int_to_string_read z Hz) as (neg & s & v & n & H1 & H2 & H3). unfold stoi. rewrite H1, H2. cbn iota beta.
  rewrite decide_False by done. by rewrite H3.
Qed.

Lemma no_colon_digits k n : 0 <= n -> ":"%char ∉ digits k n.
Proof. intros Hn Hin. apply digits_chars in Hin as [d Hd]; [|done]. done. Qed.

(** printing a node and reading the text back gives the same node, whatever
    the receiving object held, provided the three free-text fields contain no
    colon and the port fits a signed 32-bit number. *)
Theorem node_text_roundtrip n m : ":"%char ∉ id_ n -> ":"%char ∉ ip_ n -> ":"%char ∉ role_ n -> 0 <= port_ n < 2 ^ 31 ->
  node_fromString m (node_to_string n) = Ret (SUCCESS, n).
Proof.
  intros Hi Hp Hr Hport. unfold node_fromString.
  assert (E : node_to_string n = join [":"%char] [id_ n; ip_ n; uint_to_string (port_ n); chars (if use_tls_ n then "1" else "0"); role_ n])
    by reflexivity.
  rewrite E, split_char_join; [|done|].
  2: { repeat constructor; try done; [apply no_colon_digits; lia|destruct (use_tls_ n); simpl; set_solver]. }
  cbn [lookup list_lookup or_undef mbind res_bind]. rewrite stoi_digits by done. cbn [length mbind res_bind].
  rewrite decide_True by done. cbn [default from_option]. rewrite (Z.mod_small (port_ n)) by lia.
  destruct n as [i p q [] r]; reflexivity.
Qed.

Lemma node_text_roundtrip_witness :
  node_fromString default_node (node_to_string (Nd (chars "node0") (chars "127.0.0.1") 50050 true (chars "default"))) =
    Ret (SUCCESS, Nd (chars "node0") (chars "127.0.0.1") 50050 true (chars "default")).
Proof.
  apply (node_text_roundtrip (Nd (chars "node0") (chars "127.0.0.1") 50050 true (chars "default")));
    [apply (bool_decide_unpack _); vm_compute; exact I..|simpl; lia].
Defined.

(** A bracketless IPv6 address does not survive. *)
Example node_text_ipv6 :
  node_fromString default_node (node_to_string (Nd (chars "n") (chars "::1") 1 false (chars "r"))) = Throw.
Proof. vm_compute. reflexivity. Qed.
