(* ===== verification/PsiData.v ===== *)
(** * Loading PSI input and saving PSI results

    Models [PsiCommonUtil] of [kernel/psi/util.cc]: the selected columns of a table
    are joined into one record per row by tasks that each write a range of rows,
    and the records of a result are split into columns again.  A column is its
    list of chunks.  The number of processor cores is an argument; the tasks of
    one column run in any interleaving. *)

From Stdlib Require Import Ascii String ZArith Lia.
From stdpp Require Import base tactics list option strings.
From S2P Require Import Prelude ModArith Machine Parallel StrUtil.

Local Open Scope Z_scope.

(** ** Column types *)

Inductive arrow_type :=
| NA | BOOL | UINT8 | INT8 | UINT16 | INT16 | UINT32 | INT32 | UINT64 | INT64 | HALF_FLOAT | FLOAT | DOUBLE
| STRING | BINARY | FIXED_SIZE_BINARY | DATE32 | DATE64 | TIMESTAMP.

#[export] Instance arrow_type_eq_dec : EqDecision arrow_type.
Proof. solve_decision. Defined.

Definition isNumeric32Type (t : arrow_type) : bool := bool_decide (t ∈ [UINT8; INT8; UINT16; INT16; UINT32; INT32]).
Definition isNumeric64Type (t : arrow_type) : bool := bool_decide (t ∈ [UINT64; INT64]).
Definition isNumeric (t : arrow_type) : bool := isNumeric64Type t || isNumeric32Type t.
Definition isString (t : arrow_type) : bool :=
  bool_decide (t = STRING) || bool_decide (t = BINARY) || bool_decide (t = FIXED_SIZE_BINARY).
Definition IsValidDataType (t : arrow_type) : bool := isNumeric t || isString t.

Definition validationDataColum (data_cols : list Z) (table_max_colums : Z) : bool :=
  negb (negb (Z.of_nat (length data_cols) =? table_max_colums)).

(** The schema of a selection: every column type is checked and becomes a
    string; reading a schema entry that is not there is undefined. *)
Fixpoint select_schema (schema : list (str * arrow_type)) (col_index : list nat) : res (list (str * arrow_type)) :=
  match col_index with
  | [] => Ret []
  | i :: col_index =>
      '(name, type) ← or_undef (schema !! i);
      if negb (IsValidDataType type) then Throw
      else rest ← select_schema schema col_index; Ret ((name, STRING) :: rest)
  end.

(** ** Tables *)

Record column := Col { field_name : str; chunks : list (list str) }.
Record table := Tab { num_rows : nat; columns : list column }.

Definition values (c : column) : list str := concat (chunks c).

(** Arrow's own guarantee: all columns are as long as the table. *)
Definition table_wf (t : table) : Prop := Forall (fun c => length (values c) = num_rows t) (columns t).

(** ** How the rows are split among tasks *)

(** [int32_t use_core_num = cpu_core_num / 2 - 1], computed as a [size_t]. *)
Definition use_core_num (cpu_core_num : Z) : Z :=
  let z := ((cpu_core_num / 2 - 1) mod 2 ^ 64) mod 2 ^ 32 in if z <? 2 ^ 31 then z else z - 2 ^ 32.

(** One column's ranges of rows in [ExtractDataFromArray]: the number of tasks
    and the rows per task. *)
Definition array_threads (cpu_core_num element_number : Z) : Z * Z :=
  let thread_num := Z.max (use_core_num cpu_core_num) 1 in
  let thread_num := if (element_number <? 100000) || (element_number <=? thread_num) then 1 else thread_num in
  let element_per_thread := element_number / thread_num in
  ((if element_per_thread * thread_num <? element_number then thread_num + 1 else thread_num), element_per_thread).

Definition array_range (per n : Z) (i : nat) : list nat :=
  let i_start := Z.of_nat i * per in
  let i_end := Z.min ((Z.of_nat i + 1) * per) n in
  seq (Z.to_nat i_start) (Z.to_nat (i_end - i_start)).

(** The tasks over one array: [f] makes the write of a row from its text. *)
Definition array_tasks (threads per n : Z) (f : str -> str -> str) (rows : list str) : list (list (wr str)) :=
  (fun i => (fun j => (j, f (default [] (rows !! j)))) <$> array_range per n i) <$> seq 0 (Z.to_nat threads).

Definition set_cell (s _ : str) : str := s.
Definition append_cell (s old : str) : str := old ++ DATA_RECORD_SEP ++ s.

(** [ExtractDataFromArray]: the code, the names pushed and the tasks column by
    column up to a failure. *)
Fixpoint extract_array_rest (threads per n : Z) (cols : list column)
  : retcode * list str * list (list (list (wr str))) :=
  match cols with
  | [] => (SUCCESS, [], [])
  | c :: cols =>
      match chunks c with
      | [rows] =>
          let '(rc, names, ts) := extract_array_rest threads per n cols in
          (rc, field_name c :: names, array_tasks threads per n append_cell rows :: ts)
      | _ => (FAIL, [field_name c], [])
      end
  end.

Definition ExtractDataFromArray (cores : Z) (t : table) : res (retcode * list str * list (list (list (wr str)))) :=
  match columns t with
  | [] => Undef
  | c :: cols =>
      match chunks c with
      | [rows] =>
          let n := Z.of_nat (length rows) in
          let '(threads, per) := array_threads cores n in
          let '(rc, names, ts) := extract_array_rest threads per n cols in
          Ret (rc, field_name c :: names, array_tasks threads per n set_cell rows :: ts)
      | _ => Ret (FAIL, [], [])
      end
  end.

(** ** The chunked form *)

Definition trunk_threads (cpu_core_num chunk_size : Z) : res (Z * Z) :=
  let use := use_core_num cpu_core_num in
  let use := if use >? 10 then 10 else use in
  let thread_num := Z.max use 1 in
  let thread_num := if chunk_size <=? thread_num then chunk_size else thread_num in
  if thread_num =? 0 then Undef
  else
    let chunk_per_thread := chunk_size / thread_num in
    Ret ((if chunk_per_thread * thread_num <? chunk_size then thread_num + 1 else thread_num), chunk_per_thread).

(** The chunks [s] to [e] of a column, written from row [index] on. *)
Definition trunk_writes (f : str -> str -> str) (index : nat) (rows : list str) : list (wr str) :=
  imap (fun k s => ((index + k)%nat, f s)) rows.

Definition trunk_task (f : str -> str -> str) (lengths : list nat) (threads per : Z) (cks : list (list str)) (i : nat)
  : list (wr str) :=
  let chunk_s := Z.to_nat (Z.of_nat i * per) in
  let chunk_e := if Z.of_nat i =? threads - 1 then length cks else Z.to_nat ((Z.of_nat i + 1) * per) in
  let index := sum_list (take chunk_s lengths) in
  trunk_writes f index (concat (take (chunk_e - chunk_s) (drop chunk_s cks))).

Definition trunk_tasks (f : str -> str -> str) (lengths : list nat) (threads per : Z) (cks : list (list str))
  : list (list (wr str)) :=
  trunk_task f lengths threads per cks <$> seq 0 (Z.to_nat threads).

Fixpoint extract_trunk_rest (lengths : list nat) (threads per : Z) (cols : list column)
  : retcode * list str * list (list (list (wr str))) :=
  match cols with
  | [] => (SUCCESS, [], [])
  | c :: cols =>
      if negb (bool_decide (length (chunks c) = length lengths)) then (FAIL, [field_name c], [])
      else
        let '(rc, names, ts) := extract_trunk_rest lengths threads per cols in
        (rc, field_name c :: names, trunk_tasks append_cell lengths threads per (chunks c) :: ts)
  end.

Definition ExtractDataFromTrunkArray (cores : Z) (t : table) : res (retcode * list str * list (list (list (wr str)))) :=
  match columns t with
  | [] => Undef
  | c :: cols =>
      let lengths := length <$> chunks c in
      '(threads, per) ← trunk_threads cores (Z.of_nat (length (chunks c)));
      let '(rc, names, ts) := extract_trunk_rest lengths threads per cols in
      Ret (rc, field_name c :: names, trunk_tasks set_cell lengths threads per (chunks c) :: ts)
  end.

(** ** Loading *)

(** The columns one after the other, each column's tasks interleaved. *)
Inductive run_columns : list (list (list (wr str))) -> list str -> list str -> Prop :=
| run_none v : run_columns [] v v
| run_column ts l rest v v' : interleave ts l -> run_columns rest (do_writes l v) v' -> run_columns (ts :: rest) v v'.

(** [LoadDatasetFromTable]: code, column names and the final [col_data]; the code
    of the extraction is not looked at. *)
Definition load_plan (cores : Z) (t : table) : res (list str * list (list (list (wr str)))) :=
  match columns t with
  | [] => Undef
  | c :: _ =>
      '(_, names, plan) ← (if bool_decide (length (chunks c) = 1%nat) then ExtractDataFromArray cores t
                           else ExtractDataFromTrunkArray cores t);
      Ret (names, plan)
  end.

Inductive LoadDatasetFromTable (cores : Z) (t : table) : retcode -> list str -> list str -> Prop :=
| load_no_column : columns t = [] -> LoadDatasetFromTable cores t FAIL [] (replicate (num_rows t) [])
| load_columns names plan data : columns t <> [] -> load_plan cores t = Ret (names, plan) ->
    run_columns plan (replicate (num_rows t) []) data -> LoadDatasetFromTable cores t SUCCESS names data.

(** ** Saving *)

(** The rows of [SaveDataToCSVFile] split into one column per name. *)
Fixpoint split_rows (width : nat) (data : list str) : res (list (list str)) :=
  match data with
  | [] => Ret []
  | d :: data =>
      let vec := str_split d DATA_RECORD_SEP in
      if negb (bool_decide (length vec = width)) then Throw
      else rest ← split_rows width data; Ret (vec :: rest)
  end.

Definition nth_column (rows : list (list str)) (j : nat) : list str := (fun r => default [] (r !! j)) <$> rows.

(** The arrays of the table that is written, then the outcome of the write:
    whether the directory is reachable and the driver's code. *)
Definition save_columns (data : list str) (col_names : list str) : res (list (list str)) :=
  if bool_decide (length col_names = 1%nat) then Ret [data]
  else rows ← split_rows (length col_names) data; Ret (nth_column rows <$> seq 0 (length col_names)).

Definition SaveDataToCSVFile (data : list str) (col_names : list str) (dir_ok write_ok : bool)
  : res (retcode * list (list str)) :=
  cols ← save_columns data col_names;
  if negb dir_ok then Throw else if negb write_ok then Throw else Ret (SUCCESS, cols).

(** ** Facts about one column *)

(** What the tasks of one column write when they cover its rows in order. *)
Definition row_writes (f : str -> str -> str) (rows : list str) : list (wr str) := imap (fun j s => (j, f s)) rows.

Lemma row_writes_idx f rows : (row_writes f rows).*1 = seq 0 (length rows).
Proof.
  unfold row_writes. apply list_eq. intros i. rewrite list_lookup_fmap, list_lookup_imap.
  destruct (rows !! i) eqn:E; simpl.
  - apply lookup_lt_Some in E. by rewrite lookup_seq_lt by done.
  - symmetry. apply lookup_ge_None in E. by apply lookup_seq_ge.
Qed.

Lemma column_pass f rows ts l v : concat ts = row_writes f rows -> length v = length rows -> interleave ts l ->
  do_writes l v = zip_with f rows v.
Proof.
  intros Hts Hv Hl.
  assert (Hnd : NoDup (concat ts).*1) by (rewrite Hts, row_writes_idx; apply NoDup_seq).
  rewrite (schedule_irrelevant ts l v Hnd Hl), Hts. rewrite Hts in Hnd. apply list_eq. intros i.
  destruct (rows !! i) as [s|] eqn:Es.
  - rewrite (do_writes_at (row_writes f rows) v i (f s) Hnd).
    2: { unfold row_writes. apply list_elem_of_lookup. exists i. by rewrite list_lookup_imap, Es. }
    rewrite lookup_zip_with, Es. simpl. by destruct (v !! i).
  - rewrite lookup_zip_with, Es. simpl. apply lookup_ge_None. rewrite do_writes_length, Hv. by apply lookup_ge_None in Es.
Qed.

(** [concat] of the first [k] ranges of length [p]. *)
Lemma concat_ranges p n k :
  concat ((fun i => seq (i * p) (Nat.min ((i + 1) * p) n - i * p)) <$> seq 0 k) = seq 0 (Nat.min (k * p) n).
Proof.
  induction k as [|k IH]; [done|]. rewrite seq_S, fmap_app, concat_app, IH. simpl. rewrite app_nil_r.
  destruct (Nat.le_gt_cases (k * p) n) as [H|H].
  - rewrite Nat.min_l by lia. rewrite <- seq_app. f_equal. lia.
  - replace (Nat.min ((k + 1) * p) n - k * p)%nat with O by lia. simpl. rewrite app_nil_r. f_equal. lia.
Qed.

Lemma array_range_nat per n i : 0 <= per -> 0 <= n ->
  array_range per n i = seq (i * Z.to_nat per) (Nat.min ((i + 1) * Z.to_nat per) (Z.to_nat n) - i * Z.to_nat per).
Proof.
  intros Hp Hn. rewrite <- (Z2Nat.id per Hp), <- (Z2Nat.id n Hn). unfold array_range. rewrite !Nat2Z.id.
  generalize (Z.to_nat per), (Z.to_nat n). intros p k.
  assert (0 <= Z.of_nat i * Z.of_nat p) by nia. f_equal; lia.
Qed.

(** The ranges cover the rows when the remainder fits one task. *)
Lemma array_tasks_cover threads per f rows : 0 <= threads -> 0 <= per ->
  Z.of_nat (length rows) <= threads * per ->
  concat (array_tasks threads per (Z.of_nat (length rows)) f rows) = row_writes f rows.
Proof.
  intros Ht Hp Hc. unfold array_tasks.
  assert (E : forall k, concat ((fun i => (fun j => (j, f (default [] (rows !! j)))) <$> array_range per (Z.of_nat (length rows)) i) <$> seq 0 k) =
    (fun j => (j, f (default [] (rows !! j)))) <$> concat (array_range per (Z.of_nat (length rows)) <$> seq 0 k)).
  { induction k as [|k IH]; [done|]. by rewrite seq_S, !fmap_app, !concat_app, IH, fmap_app; simpl; rewrite !app_nil_r. }
  rewrite E. rewrite (list_fmap_ext (array_range per (Z.of_nat (length rows))) _ _ (fun _ i _ => array_range_nat per _ i Hp (Nat2Z.is_nonneg _))).
  rewrite concat_ranges, Nat2Z.id, Nat.min_r by lia. unfold row_writes. apply list_eq. intros i.
  rewrite list_lookup_fmap, list_lookup_imap. destruct (rows !! i) as [s|] eqn:Es.
  - assert (H := lookup_lt_Some _ _ _ Es). rewrite lookup_seq_lt by done. simpl. by rewrite Es.
  - apply lookup_ge_None in Es. by rewrite lookup_seq_ge.
Qed.

Lemma use_core_num_small c : 0 <= c <= 634 -> use_core_num c <= 316.
Proof.
  intros H. unfold use_core_num. destruct (Z.lt_ge_cases c 2) as [Hc|Hc].
  - replace (c / 2) with 0 by (symmetry; apply Z.div_small; lia). vm_compute. discriminate.
  - assert (1 <= c / 2) by (apply Z.div_le_lower_bound; lia). assert (c / 2 <= 317) by (apply Z.div_le_upper_bound; lia).
    rewrite !Z.mod_small by (rewrite ?Z.mod_small by lia; lia). case_match; lia.
Qed.

(** The split of [ExtractDataFromArray] covers every row on machines of up to 634
    hardware threads. *)
Lemma array_threads_cover cores n threads per : 0 <= cores <= 634 -> 0 <= n ->
  array_threads cores n = (threads, per) -> 0 <= threads /\ 0 <= per /\ n <= threads * per.
Proof.
  intros Hc Hn. unfold array_threads. assert (Hu := use_core_num_small cores Hc).
  set (t0 := Z.max (use_core_num cores) 1). assert (1 <= t0 <= 316) by lia.
  set (t1 := if _ || _ then 1 else t0). assert (Ht1 : 1 <= t1 <= 316) by (unfold t1; case_match; lia).
  assert (Hdm := Z.div_mod n t1 ltac:(lia)). assert (Hm := Z.mod_pos_bound n t1 ltac:(lia)).
  assert (Hq : 0 <= n / t1) by (apply Z.div_pos; lia).
  assert (Hr : n mod t1 <= n / t1).
  { destruct (Z.eq_dec t1 1) as [-> |Hne]; [rewrite Z.mod_1_r; done|].
    assert (100000 <= n). { unfold t1 in Hne. destruct (Z.ltb_spec n 100000); simpl in Hne; lia. }
    assert (316 <= n / t1) by (apply Z.div_le_lower_bound; lia). lia. }
  destruct (Z.ltb_spec (n / t1 * t1) n); intros [= <- <-]; split; try lia; split; lia.
Qed.

Lemma trunk_writes_app f i a b : trunk_writes f i (a ++ b) = trunk_writes f i a ++ trunk_writes f (i + length a) b.
Proof.
  unfold trunk_writes. rewrite imap_app. f_equal. apply imap_ext. intros k s _. simpl. f_equal. lia.
Qed.

Lemma sum_lengths (cks : list (list str)) : sum_list (length <$> cks) = length (concat cks).
Proof. induction cks as [|c cks IH]; csimpl; [done|]. rewrite length_app, <- IH. done. Qed.

(** The chunk ranges cover every chunk. *)
Lemma trunk_tasks_cover f threads per cks : 1 <= threads -> 0 <= per -> (threads - 1) * per <= Z.of_nat (length cks) ->
  concat (trunk_tasks f (length <$> cks) threads per cks) = row_writes f (concat cks).
Proof.
  intros Ht Hp Hc. unfold trunk_tasks.
  assert (E : forall k, (k < Z.to_nat threads)%nat ->
    concat (trunk_task f (length <$> cks) threads per cks <$> seq 0 k) = trunk_writes f 0 (concat (take (k * Z.to_nat per) cks))).
  { induction k as [|k IH]; intros Hk; [done|]. rewrite seq_S, fmap_app, concat_app, IH by lia. simpl. rewrite app_nil_r.
    unfold trunk_task. rewrite (proj2 (Z.eqb_neq (Z.of_nat k) (threads - 1))) by lia.
    replace (Z.to_nat (Z.of_nat k * per)) with (k * Z.to_nat per)%nat by nia.
    replace (Z.to_nat ((Z.of_nat k + 1) * per)) with (k * Z.to_nat per + Z.to_nat per)%nat by nia.
    rewrite <- fmap_take, sum_lengths. rewrite <- (trunk_writes_app f 0), <- concat_app.
    replace (k * Z.to_nat per + Z.to_nat per - k * Z.to_nat per)%nat with (Z.to_nat per) by lia.
    rewrite take_take_drop. do 3 f_equal. lia. }
  replace (Z.to_nat threads) with (S (Z.to_nat threads - 1)) by lia.
  rewrite seq_S, fmap_app, concat_app, E by lia. simpl. rewrite app_nil_r. unfold trunk_task.
  replace (Z.of_nat (Z.to_nat threads - 1)) with (threads - 1) by lia. rewrite Z.eqb_refl.
  replace (Z.to_nat ((threads - 1) * per)) with ((Z.to_nat threads - 1) * Z.to_nat per)%nat by nia.
  rewrite <- fmap_take, sum_lengths. rewrite <- (trunk_writes_app f 0), <- concat_app.
  rewrite (take_ge (drop _ cks)) by (rewrite length_drop; lia). by rewrite take_drop.
Qed.

(** ** Whole tables *)

(** The record of row [i]: its fields joined by the separator. *)
Definition record (t : table) (i : nat) : str :=
  join DATA_RECORD_SEP ((fun c => default [] (values c !! i)) <$> columns t).

(** All columns are chunked alike. *)
Definition same_layout (t : table) : Prop :=
  match columns t with
  | [] => True
  | c :: cols => chunks c <> [] /\ Forall (fun d => length <$> chunks d = length <$> chunks c) cols
  end.

Definition fold_columns (cols : list column) (v : list str) : list str :=
  fold_left (fun v c => zip_with append_cell (values c) v) cols v.

Lemma run_columns_fold plan cols v v' :
  Forall2 (fun ts c => concat ts = row_writes append_cell (values c) /\ length (values c) = length v) plan cols ->
  run_columns plan v v' <-> v' = fold_columns cols v.
Proof.
  intros HF. revert cols v v' HF. induction plan as [|ts plan IH]; intros cols v v' HF.
  - inversion_clear HF. unfold fold_columns. simpl. split; [by inversion 1|intros ->; constructor].
  - inversion HF as [|? c ? cols' [Hts Hlen] HF']; subst. unfold fold_columns. simpl.
    assert (HF'' : forall l, interleave ts l -> do_writes l v = zip_with append_cell (values c) v)
      by (intros l; apply column_pass; [done|by symmetry]).
    assert (Hn : Forall2 (fun ts c0 => concat ts = row_writes append_cell (values c0) /\
        length (values c0) = length (zip_with append_cell (values c) v)) plan cols').
    { eapply Forall2_impl; [exact HF'|]. simpl. intros ? ? [H1 H2]. split; [done|]. rewrite length_zip_with. lia. }
    split.
    + inversion 1 as [|? l ? ? ? Hl Hr]; subst. rewrite HF'' in Hr by done. by apply (IH cols' _ _ Hn) in Hr.
    + intros ->. apply (run_column _ (concat ts)); [apply interleave_seq|]. rewrite HF'' by apply interleave_seq. by apply (IH cols' _ _ Hn).
Qed.

Lemma fold_columns_lookup cols v i s : Forall (fun c => length (values c) = length v) cols -> v !! i = Some s ->
  fold_columns cols v !! i = Some (fold_left (fun a c => append_cell (default [] (values c !! i)) a) cols s).
Proof.
  revert v s. induction cols as [|c cols IH]; intros v s HF Hi; simpl; [done|]. inversion_clear HF as [|?? Hc Hcs].
  unfold fold_columns. simpl. assert (Hlt := lookup_lt_Some _ _ _ Hi). rewrite <- Hc in Hlt.
  destruct (lookup_lt_is_Some_2 _ _ Hlt) as [w Hw]. rewrite Hw. simpl. apply IH.
  - eapply Forall_impl; [exact Hcs|]. intros d Hd. simpl in *. rewrite length_zip_with. lia.
  - by rewrite lookup_zip_with, Hw, Hi.
Qed.

Lemma fold_columns_length cols v : Forall (fun c => length (values c) = length v) cols -> length (fold_columns cols v) = length v.
Proof.
  revert v. induction cols as [|c cols IH]; intros v HF; [done|]. inversion_clear HF as [|?? Hc Hcs]. unfold fold_columns. simpl.
  assert (Hl : length (zip_with append_cell (values c) v) = length v) by (rewrite length_zip_with; lia).
  etrans; [apply IH; by rewrite Hl|done].
Qed.

Lemma fold_join (fs : list str) f : fold_left (fun a s => append_cell s a) fs f = join DATA_RECORD_SEP (f :: fs).
Proof.
  revert f. induction fs as [|g fs IH]; intros f; [done|]. simpl fold_left. rewrite IH. unfold append_cell.
  destruct fs as [|h fs]; [done|].
  change (join DATA_RECORD_SEP ((f ++ DATA_RECORD_SEP ++ g) :: h :: fs)) with ((f ++ DATA_RECORD_SEP ++ g) ++ DATA_RECORD_SEP ++ join DATA_RECORD_SEP (h :: fs)).
  change (join DATA_RECORD_SEP (f :: g :: h :: fs)) with (f ++ DATA_RECORD_SEP ++ g ++ DATA_RECORD_SEP ++ join DATA_RECORD_SEP (h :: fs)).
  by rewrite <- !app_assoc.
Qed.

(** The columns after the first, appended to the first, are the records. *)
Lemma fold_records c cols n : Forall (fun d => length (values d) = n) (c :: cols) ->
  fold_columns cols (values c) = record (Tab n (c :: cols)) <$> seq 0 n.
Proof.
  intros HF. inversion_clear HF as [|?? Hc Hcs].
  assert (Hl := fold_columns_length cols (values c) ltac:(by rewrite Hc)). apply list_eq. intros i.
  rewrite list_lookup_fmap. destruct (values c !! i) as [s|] eqn:Es.
  - assert (Hi := lookup_lt_Some _ _ _ Es). rewrite lookup_seq_lt by lia. simpl.
    rewrite (fold_columns_lookup cols (values c) i s) by (try done; by rewrite Hc). f_equal.
    unfold record. simpl columns. rewrite fmap_cons, Es. simpl default. rewrite <- fold_join.
    generalize s. clear. induction cols as [|d cols IH]; intros s; [done|]. simpl. apply IH.
  - apply lookup_ge_None in Es. rewrite lookup_seq_ge by lia. simpl. apply lookup_ge_None. lia.
Qed.

Lemma first_pass n (rows : list str) : length rows = n -> zip_with set_cell rows (replicate n []) = rows.
Proof.
  intros <-. induction rows as [|r rows IH]; [done|]. simpl. by rewrite IH.
Qed.

(** The plan of [LoadDatasetFromTable] and what each column's tasks write. *)
Definition plan_ok (t : table) (names : list str) (plan : list (list (list (wr str)))) : Prop :=
  match columns t, plan with
  | c :: cols, ts :: rest =>
      names = field_name <$> columns t /\ concat ts = row_writes set_cell (values c) /\
      Forall2 (fun ts c => concat ts = row_writes append_cell (values c) /\ length (values c) = num_rows t) rest cols
  | _, _ => False
  end.

Lemma array_plan cores t c cols : columns t = c :: cols -> table_wf t -> same_layout t -> length (chunks c) = 1%nat ->
  0 <= cores <= 634 -> exists names plan, ExtractDataFromArray cores t = Ret (SUCCESS, names, plan) /\ plan_ok t names plan.
Proof.
  intros Ht Hwf Hlay Hone Hcores. unfold table_wf, same_layout, plan_ok in *. unfold ExtractDataFromArray.
  rewrite Ht in *. destruct Hlay as [_ Hlay]. destruct (chunks c) as [|rows [|]] eqn:Ec; try done. clear Hone.
  inversion_clear Hwf as [|?? Hc Hcs]. unfold values in Hc at 1. rewrite Ec in Hc. simpl in Hc. rewrite app_nil_r in Hc.
  destruct (array_threads cores (Z.of_nat (length rows))) as [th per] eqn:Eth.
  destruct (array_threads_cover _ _ _ _ Hcores (Nat2Z.is_nonneg _) Eth) as (H1 & H2 & H3).
  assert (Hrest : exists rest, extract_array_rest th per (Z.of_nat (length rows)) cols = (SUCCESS, field_name <$> cols, rest) /\
    Forall2 (fun ts c => concat ts = row_writes append_cell (values c) /\ length (values c) = num_rows t) rest cols).
  { clear Ht. induction cols as [|d cols IH]; simpl; [by exists []|].
    inversion_clear Hcs as [|?? Hd Hcs']. inversion_clear Hlay as [|?? Hld Hlay'].
    destruct (IH Hlay' Hcs') as (rest & E & HF). destruct (chunks d) as [|drows [|]] eqn:Ed; try done. rewrite E.
    eexists; split; [done|]. constructor; [|done]. split; [|done].
    unfold values. rewrite Ed. simpl. rewrite app_nil_r. simpl in Hld. injection Hld as Hld.
    rewrite <- Hld in *. by apply array_tasks_cover. }
  destruct Hrest as (rest & -> & HF). eexists _, _. split; [done|]. split; [done|]. split; [|done].
  unfold values. rewrite Ec. simpl. rewrite app_nil_r. by apply array_tasks_cover.
Qed.

Lemma trunk_threads_ok cores k : 1 <= k -> exists th per, trunk_threads cores k = Ret (th, per) /\
  1 <= th /\ 0 <= per /\ (th - 1) * per <= k.
Proof.
  intros Hk. unfold trunk_threads. set (t0 := Z.max _ 1). set (t1 := if k <=? t0 then k else t0).
  assert (Ht1 : 1 <= t1) by (unfold t1; case_match; lia).
  rewrite (proj2 (Z.eqb_neq t1 0)) by lia. eexists _, _. split; [done|].
  assert (Hdm := Z.div_mod k t1 ltac:(lia)). assert (Hm := Z.mod_pos_bound k t1 ltac:(lia)).
  assert (Hq : 0 <= k / t1) by (apply Z.div_pos; lia).
  destruct (Z.ltb_spec (k / t1 * t1) k); repeat split; try lia; nia.
Qed.

Lemma trunk_plan cores t c cols : columns t = c :: cols -> table_wf t -> same_layout t ->
  exists names plan, ExtractDataFromTrunkArray cores t = Ret (SUCCESS, names, plan) /\ plan_ok t names plan.
Proof.
  intros Ht Hwf Hlay. unfold table_wf, same_layout, plan_ok in *. unfold ExtractDataFromTrunkArray. rewrite Ht in *.
  destruct Hlay as [Hne Hlay]. inversion_clear Hwf as [|?? Hc Hcs].
  destruct (trunk_threads_ok cores (Z.of_nat (length (chunks c)))) as (th & per & -> & H1 & H2 & H3); [destruct (chunks c); [done|simpl; lia]|].
  assert (Hrest : exists rest, extract_trunk_rest (length <$> chunks c) th per cols = (SUCCESS, field_name <$> cols, rest) /\
    Forall2 (fun ts c => concat ts = row_writes append_cell (values c) /\ length (values c) = num_rows t) rest cols).
  { clear Ht. induction cols as [|d cols IH]; simpl; [by exists []|].
    inversion_clear Hcs as [|?? Hd Hcs']. inversion_clear Hlay as [|?? Hld Hlay'].
    destruct (IH Hlay' Hcs') as (rest & E & HF).
    assert (Hlen : length (chunks d) = length (chunks c)) by (by apply (f_equal length) in Hld; rewrite !length_fmap in Hld).
    rewrite bool_decide_eq_true_2 by (by rewrite length_fmap). simpl. rewrite E.
    eexists; split; [done|]. constructor; [|done]. split; [|done]. rewrite <- Hld. apply trunk_tasks_cover; [done..|].
    by rewrite Hlen. }
  destruct Hrest as (rest & E & HF). cbn [mbind res_bind]. rewrite E. eexists _, _. split; [done|]. split; [done|]. split; [|done].
  by apply trunk_tasks_cover.
Qed.

(** ** Properties *)

(** loading a table whose columns are chunked alike always succeeds and gives
    one record per row, the row's fields joined by the separator, with the names
    of the columns, whatever the number of chunks, on machines of up to 634
    hardware threads and in every interleaving of the loading tasks. *)
Theorem psi_load_rows cores t : columns t <> [] -> table_wf t -> same_layout t -> 0 <= cores <= 634 ->
  (exists data, LoadDatasetFromTable cores t SUCCESS (field_name <$> columns t) data) /\
  (forall rc names data, LoadDatasetFromTable cores t rc names data ->
     rc = SUCCESS /\ names = field_name <$> columns t /\ data = record t <$> seq 0 (num_rows t)).
Proof.
  intros Hne Hwf Hlay Hcores. destruct (columns t) as [|c cols] eqn:Ht; [done|].
  assert (Hplan : exists names plan, load_plan cores t = Ret (names, plan) /\ plan_ok t names plan).
  { unfold load_plan. rewrite Ht. case_bool_decide as Hone.
    - destruct (array_plan cores t c cols Ht Hwf Hlay Hone Hcores) as (names & plan & -> & Hp). by exists names, plan.
    - destruct (trunk_plan cores t c cols Ht Hwf Hlay) as (names & plan & -> & Hp). by exists names, plan. }
  destruct Hplan as (names & plan & Hload & Hp). unfold plan_ok in Hp. rewrite Ht in Hp.
  destruct plan as [|ts rest]; [done|]. destruct Hp as (Hnames & Hts & HF).
  unfold table_wf in Hwf. rewrite Ht in Hwf. inversion Hwf as [|?? Hc Hcs]; subst.
  assert (Hrun : forall data, run_columns (ts :: rest) (replicate (num_rows t) []) data <-> data = record t <$> seq 0 (num_rows t)).
  { intros data. replace (record t <$> seq 0 (num_rows t)) with (fold_columns cols (values c)).
    2: { rewrite (fold_records c cols (num_rows t)) by done. destruct t. simpl in Ht. by subst. }
    rewrite <- (run_columns_fold rest cols (values c) data) by (by rewrite Hc).
    assert (Hcp : forall l, interleave ts l -> do_writes l (replicate (num_rows t) []) = values c).
    { intros l Hl. rewrite (column_pass set_cell (values c) ts l); [by apply first_pass|done|by rewrite length_replicate|done]. }
    split.
    - inversion 1 as [|? l ? ? ? Hl Hr]; subst. by rewrite Hcp in Hr.
    - intros Hr. apply (run_column _ (concat ts)); [apply interleave_seq|]. by rewrite Hcp by apply interleave_seq. }
  split.
  - eexists. apply (load_columns _ _ _ (ts :: rest)); [by rewrite Ht|done|]. by apply Hrun.
  - intros rc names' data [Hnone|names2 plan2 data2 Hnn Hload2 Hr]; [by rewrite Ht in Hnone|].
    rewrite Hload in Hload2. injection Hload2 as <- <-. by apply Hrun in Hr as ->.
Qed.

Definition sample_psi_table : table :=
  Tab 3 [Col (chars "id") [[chars "1"; chars "2"]; [chars "3"]]; Col (chars "name") [[chars "ann"; chars "bob"]; [chars "cy"]]].

Lemma psi_load_rows_witness :
  exists data, LoadDatasetFromTable 8 sample_psi_table SUCCESS (field_name <$> columns sample_psi_table) data.
Proof.
  apply (psi_load_rows 8 sample_psi_table); [discriminate|repeat constructor|split; [discriminate|repeat constructor]|lia].
Defined.

Lemma split_join_empty fs k : fs <> [] -> Forall no_hash fs -> (length (join DATA_RECORD_SEP (fs ++ [[]])) < k)%nat ->
  split_loop k DATA_RECORD_SEP (join DATA_RECORD_SEP (fs ++ [[]])) = fs.
Proof.
  revert k. induction fs as [|f fs IH]; intros k Hne Hh Hk; [done|]. inversion_clear Hh as [|?? Hf Hfs].
  assert (E : join DATA_RECORD_SEP ((f :: fs) ++ [[]]) = f ++ DATA_RECORD_SEP ++ join DATA_RECORD_SEP (fs ++ [[]])) by (by destruct fs).
  rewrite E in *. destruct k as [|k]; [lia|]. cbn [split_loop]. rewrite find_sep by done. f_equal.
  rewrite !length_app in Hk. change (length DATA_RECORD_SEP) with 4%nat in Hk.
  destruct fs as [|g fs]; [destruct k; [lia|done]|]. apply IH; [done..|]. simpl app in *. lia.
Qed.

(** The fields of row [i]. *)
Definition fields (t : table) (i : nat) : list str := (fun c => default [] (values c !! i)) <$> columns t.

Lemma record_fields t i : record t i = join DATA_RECORD_SEP (fields t i).
Proof. done. Qed.

Lemma split_rows_ok t idx w : w = length (columns t) ->
  Forall (fun i => fields t i <> [] /\ Forall no_hash (fields t i) /\ last (fields t i) <> Some []) idx ->
  split_rows w (record t <$> idx) = Ret (fields t <$> idx).
Proof.
  intros -> HF. induction HF as [|i idx (H1 & H2 & H3) _ IH]; [done|]. rewrite !fmap_cons. cbn [split_rows].
  rewrite record_fields, split_join by done. rewrite bool_decide_eq_true_2 by (unfold fields; by rewrite length_fmap).
  cbn [negb]. by rewrite IH.
Qed.

(** saving the records of selected rows under two or more column names gives
    back exactly the columns restricted to those rows, provided no field contains
    the separator's character and no last field is empty; a record whose last
    field is empty makes the whole save raise. *)
Theorem psi_save_roundtrip t idx names : (2 <= length names)%nat -> length names = length (columns t) ->
  Forall (fun i => Forall no_hash (fields t i)) idx ->
  (Forall (fun i => last (fields t i) <> Some []) idx ->
   SaveDataToCSVFile (record t <$> idx) names true true =
     Ret (SUCCESS, (fun c => (fun i => default [] (values c !! i)) <$> idx) <$> columns t)) /\
  (forall i idx', idx = i :: idx' -> last (fields t i) = Some [] ->
   SaveDataToCSVFile (record t <$> idx) names true true = Throw).
Proof.
  intros H2 Hn Hh. assert (Hl : forall i, length (fields t i) = length names) by (intros i; unfold fields; by rewrite length_fmap).
  unfold SaveDataToCSVFile, save_columns. rewrite bool_decide_eq_false_2 by lia. split.
  - intros Hlast. rewrite (split_rows_ok t idx (length names) Hn).
    2: { rewrite !Forall_forall in *. intros i Hi. split_and!; [|by apply Hh|by apply Hlast].
         intros E. specialize (Hl i). rewrite E in Hl. simpl in Hl. lia. }
    cbn [mbind res_bind negb]. do 2 f_equal. rewrite Hn. apply list_eq. intros j. rewrite !list_lookup_fmap.
    destruct (columns t !! j) as [c|] eqn:Ej.
    + assert (Hj := lookup_lt_Some _ _ _ Ej). rewrite lookup_seq_lt by done. simpl. f_equal. unfold nth_column.
      rewrite <- list_fmap_compose. apply list_fmap_ext. intros ? i _. simpl. unfold fields. by rewrite list_lookup_fmap, Ej.
    + apply lookup_ge_None in Ej. by rewrite lookup_seq_ge.
  - intros i idx' -> Hlast. inversion_clear Hh as [|?? Hi _]. rewrite fmap_cons. cbn [split_rows].
    rewrite record_fields. apply last_Some in Hlast as [fs Ef]. specialize (Hl i).
    rewrite Ef in *. apply Forall_app in Hi as [Hi _]. rewrite length_app in Hl. simpl in Hl.
    unfold str_split. rewrite split_join_empty; [|intros ->; simpl in Hl; lia|done|lia].
    rewrite bool_decide_eq_false_2 by lia. done.
Qed.

Lemma psi_save_roundtrip_witness :
  SaveDataToCSVFile (record sample_psi_table <$> [2; 0]%nat) [chars "a"; chars "b"] true true =
    Ret (SUCCESS, (fun c => (fun i => default [] (values c !! i)) <$> [2; 0]%nat) <$> columns sample_psi_table).
Proof.
  apply (psi_save_roundtrip sample_psi_table [2; 0]%nat [chars "a"; chars "b"]); [simpl; lia|reflexivity|..].
  - apply (bool_decide_unpack _). vm_compute. exact I.
  - apply (bool_decide_unpack _). vm_compute. exact I.
Defined.
