(* ===== verification/PsiTyped.v ===== *)
(** * PSI input from typed columns

    Models the overloads of [kernel/psi/util.cc] that read the columns with their own
    types: [LoadDatasetFromTable] into a vector, the functions [LoadDatasetInternal] around
    it and [saveDataToCSVFile] with one title.  A column is its type and its chunks of
    numbers or texts; the texts of a row are put together without a separator. *)

From Stdlib Require Import Ascii String ZArith Lia.
From stdpp Require Import base tactics list option strings.
From S2P Require Import Prelude ModArith Machine StrUtil Common PsiData.

Local Open Scope Z_scope.

(** ** Columns *)

Inductive typed_chunks : Type := Numbers (cs : list (list Z)) | Texts (cs : list (list str)).
Record typed_column := TCol { tc_type : arrow_type; tc_chunks : typed_chunks }.
Record typed_table := TTab { tt_rows : nat; tt_columns : list typed_column }.

Definition wrap32 (z : Z) : Z := (z + 2 ^ 31) mod 2 ^ 32 - 2 ^ 31.

(** The text of a number behind the cast of its array to 64 or 32 bits.  The arrays of
    unsigned numbers of the same width are read as signed; those of fewer bits are read
    past their end. *)
Definition numeric_text (t : arrow_type) (z : Z) : res str :=
  if isNumeric64Type t then Ret (int_to_string (wrap z))
  else if bool_decide (t = INT32) || bool_decide (t = UINT32) then Ret (int_to_string (wrap32 z))
  else Undef.

(** [col_array[index].append(value)]. *)
Definition append_at (i : nat) (s : str) (rows : list str) : res (list str) :=
  old ← or_undef (rows !! i); Ret (<[i := old ++ s]> rows).

Fixpoint append_from (text : Z -> res str) (index : nat) (vals : list Z) (rows : list str) : res (list str) :=
  match vals with
  | [] => Ret rows
  | v :: vals => s ← text v; rows ← append_at index s rows; append_from text (S index) vals rows
  end.

Fixpoint append_texts (index : nat) (vals : list str) (rows : list str) : res (list str) :=
  match vals with
  | [] => Ret rows
  | s :: vals => rows ← append_at index s rows; append_texts (S index) vals rows
  end.

(** One column; a fixed-size array is no array of strings. *)
Definition append_column (c : typed_column) (rows : list str) : res (list str) :=
  if isNumeric (tc_type c) then
    match tc_chunks c with Numbers cs => append_from (numeric_text (tc_type c)) 0 (concat cs) rows | Texts _ => Undef end
  else if isString (tc_type c) then
    match tc_chunks c with
    | Texts cs => if bool_decide (tc_type c = FIXED_SIZE_BINARY) then Undef else append_texts 0 (concat cs) rows
    | Numbers _ => Undef
    end
  else Throw.

Fixpoint append_all (cs : list typed_column) (rows : list str) : res (list str) :=
  match cs with
  | [] => Ret rows
  | c :: cs => rows ← append_column c rows; append_all cs rows
  end.

(** [LoadDatasetFromTable] into [col_array]; [resize] keeps what is there. *)
Definition load_typed (t : typed_table) (col_array : list str) : res (retcode * list str) :=
  rows ← append_all (tt_columns t) (take (tt_rows t) col_array ++ replicate (tt_rows t - length col_array) []);
  Ret (SUCCESS, rows).

(** [LoadDatasetInternal] on a driver: whether there is a cursor, and what it reads. *)
Definition load_driver (cursor : option (option typed_table)) (data_cols : list Z) (col_array : list str) : res (retcode * list str) :=
  match cursor with
  | None => Ret (FAIL, col_array)
  | Some None => Ret (FAIL, col_array)
  | Some (Some table) =>
      if negb (validationDataColum data_cols (Z.of_nat (length (tt_columns table)))) then Ret (FAIL, col_array)
      else load_typed table col_array
  end.

(** [LoadDatasetInternal] with the name of a driver, which is used unchecked, as is its
    cursor. *)
Definition load_named (driver : option (option (option typed_table))) (data_cols : list Z) (col_array : list str) : res (retcode * list str) :=
  cursor ← or_undef driver;
  ds ← or_undef cursor;
  match ds with
  | None => Ret (FAIL, col_array)
  | Some table =>
      if negb (validationDataColum data_cols (Z.of_nat (length (tt_columns table)))) then Ret (FAIL, col_array)
      else load_typed table col_array
  end.

(** [saveDataToCSVFile]: the table has the strings under a field of type [int64]. *)
Record saved_column := Saved1 { sv_title : str; sv_field : arrow_type; sv_array : arrow_type; sv_values : list str }.
Definition saveDataToCSVFile (data : list str) (col_title : str) (dir_ok write_ok : bool) : res (retcode * saved_column) :=
  if negb dir_ok then Throw else if negb write_ok then Throw else Ret (SUCCESS, Saved1 col_title INT64 STRING data).

(** ** What is loaded *)

(** The texts of a column the code reads as they are. *)
Definition column_texts (c : typed_column) : option (list str) :=
  match tc_type c, tc_chunks c with
  | INT64, Numbers cs => Some ((fun z => int_to_string (wrap z)) <$> concat cs)
  | UINT64, Numbers cs => Some ((fun z => int_to_string (wrap z)) <$> concat cs)
  | INT32, Numbers cs => Some ((fun z => int_to_string (wrap32 z)) <$> concat cs)
  | UINT32, Numbers cs => Some ((fun z => int_to_string (wrap32 z)) <$> concat cs)
  | STRING, Texts cs => Some (concat cs)
  | BINARY, Texts cs => Some (concat cs)
  | _, _ => None
  end.

Lemma append_texts_app front rest vals : length rest = length vals ->
  append_texts (length front) vals (front ++ rest) = Ret (front ++ zip_with (++) rest vals).
Proof.
  revert front rest. induction vals as [|v vals IH]; intros front rest H; destruct rest as [|r rest]; try done.
  cbn [append_texts zip_with]. unfold append_at. rewrite list_lookup_middle by done. cbn [or_undef mbind res_bind].
  rewrite insert_app_r_alt, Nat.sub_diag by lia. cbn [insert list_insert].
  specialize (IH (front ++ [r ++ v]) rest ltac:(cbn in H; lia)). rewrite length_app in IH. cbn in IH. rewrite Nat.add_1_r, <- !app_assoc in IH. exact IH.
Qed.

Lemma append_from_texts text ss i vals rows : Forall2 (fun v s => text v = Ret s) vals ss -> append_from text i vals rows = append_texts i ss rows.
Proof.
  intros H. revert i rows. induction H as [|v s vals ss Hv _ IH]; intros i rows; [done|]. cbn. rewrite Hv. cbn.
  destruct (append_at i s rows) as [rows'| |]; [|done..]. apply IH.
Qed.

Lemma append_column_texts c ss rows : column_texts c = Some ss -> append_column c rows = append_texts 0 ss rows.
Proof.
  destruct c as [ty [cs|cs]]; unfold column_texts, append_column; destruct ty; cbn; try done; intros [= <-]; try done;
    apply append_from_texts, Forall2_fmap_r, Forall_Forall2_diag, Forall_true; done.
Qed.

(** The record of a row: its texts one after the other. *)
Definition typed_record (cols : list (list str)) (i : nat) : str := concat ((fun ss => default [] (ss !! i)) <$> cols).

Lemma append_all_records cs cols rows : Forall2 (fun c ss => column_texts c = Some ss) cs cols -> Forall (fun ss => length ss = length rows) cols ->
  append_all cs rows = Ret (imap (fun i r => r ++ typed_record cols i) rows).
Proof.
  intros Hc. revert rows. induction Hc as [|c ss cs cols Hcs _ IH]; intros rows Hl; cbn [append_all].
  - f_equal. apply list_eq. intros i. rewrite list_lookup_imap. destruct (rows !! i); cbn; by rewrite ?app_nil_r.
  - apply Forall_cons_1 in Hl as [Hs Hl]. rewrite (append_column_texts c ss rows Hcs). pose proof (append_texts_app [] rows ss (eq_sym Hs)) as Ht. cbn [app length] in Ht. rewrite Ht. cbn [mbind res_bind].
    assert (Hz : length (zip_with (++) rows ss) = length rows) by (rewrite length_zip_with; lia).
    rewrite (IH (zip_with (++) rows ss)) by (by rewrite Hz). f_equal. apply list_eq. intros i. rewrite !list_lookup_imap, lookup_zip_with.
    destruct (rows !! i) as [r|] eqn:Er; [|done]. cbn. destruct (ss !! i) as [s|] eqn:Es; [|apply lookup_lt_Some in Er; apply lookup_ge_None in Es; lia].
    cbn [mbind option_bind fmap option_fmap option_map]. f_equal. unfold typed_record. cbn [default from_option id]. by rewrite <- app_assoc.
Qed.

(** The rows of a table with columns of supported types are read as the concatenations
    of their texts. *)
Lemma load_typed_records t cols : Forall2 (fun c ss => column_texts c = Some ss) (tt_columns t) cols -> Forall (fun ss => length ss = tt_rows t) cols ->
  load_typed t [] = Ret (SUCCESS, typed_record cols <$> seq 0 (tt_rows t)).
Proof.
  intros Hc Hl. unfold load_typed. rewrite take_nil. cbn [app length]. rewrite Nat.sub_0_r.
  rewrite (append_all_records _ cols) by (done || by rewrite length_replicate). cbn [mbind res_bind]. do 2 f_equal. apply list_eq. intros i.
  rewrite list_lookup_imap, list_lookup_fmap. destruct (decide (i < tt_rows t)%nat).
  - rewrite lookup_replicate_2 by done. rewrite lookup_seq_lt by done. done.
  - rewrite (lookup_ge_None_2 (replicate _ _)) by (rewrite length_replicate; lia). rewrite (lookup_ge_None_2 (seq _ _)) by (rewrite length_seq; lia). done.
Qed.

(** Without a separator different rows get one record. *)
Lemma records_collide a b c : typed_record [[a ++ b]; [c]] 0 = typed_record [[a]; [b ++ c]] 0.
Proof. unfold typed_record. cbn. by rewrite !app_nil_r, app_assoc. Qed.

(** Unsigned numbers beyond the signed range change their sign; narrow numbers are
    read past the end of their array. *)
Example unsigned_read : load_typed (TTab 1 [TCol UINT64 (Numbers [[2 ^ 64 - 1]])]) [] = Ret (SUCCESS, [chars "-1"]).
Proof. vm_compute. reflexivity. Qed.
Example narrow_read z : load_typed (TTab 1 [TCol INT8 (Numbers [[z]])]) [] = Undef.
Proof. reflexivity. Qed.
