(* ===== verification/Statistics.v ===== *)
(** * Secure statistics of columns

    Models [executor/statistics.{h,cc}] (the build without [MPC_SOCKET_CHANNEL]) and
    [columnDtypeFromInteger] of [common/type.cc].  A party reduces each of its
    columns to a sum and a count, or to a minimum or maximum; the three parties
    then share these numbers and open the total, or find by two comparisons the
    party that has the least (or, of the negated values, the greatest) one and
    open its value.  A table is an Arrow table: a column has a field type and its
    chunks; a chunk read as an array of another width is reinterpreted, as one of
    another kind it is undefined.  Slots that are null hold their stored value. *)

From Stdlib Require Import Ascii String ZArith Lia SpecFloat.
From stdpp Require Import base tactics list option gmap strings.
From S2P Require Import Prelude ModArith Machine Doubles Aby3Op PartyProg MpcDiv ExprMpc MpcCompare MpcProg PsiData.

Local Open Scope Z_scope.

(** ** Column types *)

Module Dtype.
Inductive ColumnDtype := STRING | INTEGER | DOUBLE | LONG | ENUM | BOOLEAN | UNKNOWN.
#[global] Instance ColumnDtype_eq_dec : EqDecision ColumnDtype.
Proof. solve_decision. Defined.
End Dtype.

Definition columnDtypeFromInteger (val : Z) : Dtype.ColumnDtype :=
  if val =? 0 then Dtype.STRING
  else if val =? 1 then Dtype.INTEGER
  else if val =? 2 then Dtype.DOUBLE
  else if val =? 3 then Dtype.LONG
  else if val =? 4 then Dtype.ENUM
  else if val =? 5 then Dtype.BOOLEAN
  else Dtype.UNKNOWN.

Inductive MPCStatisticsType := AVG | SUM | MAX | MIN | UNKNOWN.

#[export] Instance MPCStatisticsType_eq_dec : EqDecision MPCStatisticsType.
Proof. solve_decision. Defined.

Definition statisticsTypeToString (type : MPCStatisticsType) : str :=
  match type with AVG => "AVG"%string | SUM => "SUM"%string | MAX => "MAX"%string | MIN => "MIN"%string | UNKNOWN => "UNKNOWN"%string end.

(** ** Tables *)

Inductive array := Ints (l : list Z) | Fp64s (l : list double) | OtherArray (n : nat).

Record scolumn := SCol { field_type : arrow_type; schunks : list array }.

Abbreviation stable := (list (str * scolumn)).

(** [GetColumnByName]: no column, or several of that name, give a null pointer. *)
Definition GetColumnByName (t : stable) (name : str) : option scolumn :=
  match filter (fun c => c.1 = name) t with [c] => Some c.2 | _ => None end.

(** The value of [w] bits read as a signed integer. *)
Definition sx (w z : Z) : Z := (z + 2 ^ (w - 1)) mod 2 ^ w - 2 ^ (w - 1).

Definition as_int_array (w : Z) (a : array) : res (list Z) :=
  match a with Ints l => Ret (sx w <$> l) | _ => Undef end.
Definition as_double_array (a : array) : res (list double) :=
  match a with Fp64s l => Ret l | _ => Undef end.

(** ** Sums and counts: [MPCSumOrAvg] *)

(** The width of the array class the summation casts to. *)
Definition sum_width (detected_type : arrow_type) : Z :=
  if bool_decide (detected_type = UINT8) || bool_decide (detected_type = INT8) then 8
  else if bool_decide (detected_type = UINT16) || bool_decide (detected_type = INT16) then 16
  else if bool_decide (detected_type = UINT32) || bool_decide (detected_type = INT32) then 32
  else 64.

Definition is_integer (col_type : Dtype.ColumnDtype) : bool :=
  bool_decide (col_type = Dtype.INTEGER) || bool_decide (col_type = Dtype.LONG).

(** The loop over the chunks of one column; [None] is the return of [FAIL]. *)
Fixpoint sum_chunks (col_type : option Dtype.ColumnDtype) (detected_type : arrow_type) (l : list array) (sum count : double)
  : res (option (double * double)) :=
  match l with
  | [] => Ret (Some (sum, count))
  | a :: l =>
      ct ← or_undef col_type;
      if is_integer ct then
        v ← as_int_array (sum_width detected_type) a;
        sum_chunks col_type detected_type l (fold_left (fun s x => dadd s (d_of_int x)) v sum)
          (dadd count (d_of_int (Z.of_nat (length v))))
      else if bool_decide (ct = Dtype.DOUBLE) then
        v ← as_double_array a;
        sum_chunks col_type detected_type l (fold_left dadd v sum) (dadd count (d_of_int (Z.of_nat (length v))))
      else Ret None
  end.

Definition d_zero : double := S754_zero false.

Fixpoint SumOrAvg_PlainTextDataCompute (t : stable) (types : gmap str Dtype.ColumnDtype) (columns : list str)
  : res (option (list double * list double)) :=
  match columns with
  | [] => Ret (Some ([], []))
  | column :: columns =>
      match GetColumnByName t column with
      | None => Ret None
      | Some c =>
          r ← sum_chunks (types !! column) (field_type c) (schunks c) d_zero d_zero;
          match r with
          | None => Ret None
          | Some (sum, count) =>
              rest ← SumOrAvg_PlainTextDataCompute t types columns;
              Ret ('(sums, counts) ← rest; Some (sum :: sums, count :: counts))
          end
      end
  end.

Section SumOrAvg.
Context `{E : Aby3}.

(** Each party shares its column of numbers in turn. *)
Definition share_each (party_id_ : Z) (v : list double) : mprog (trip si64Matrix) :=
  let one i := if i =? party_id_ then mcall (LocalFixed (Mat (length v) 1 (to_fixed <$> v))) else mcall (RemoteFixed (length v) 1) in
  s0 ← one 0; s1 ← one 1; s2 ← one 2; mret (Trip s0 s1 s2).

Definition share_sum (s : trip si64Matrix) : si64Matrix := share_add (share_add (at0 s) (at1 s)) (at2 s).

(** The loop that opens a matrix to each party in turn. *)
Fixpoint reveal_each (party_id_ : Z) (s : si64Matrix) (l : list Z) (plaintext : i64Matrix) : mprog i64Matrix :=
  match l with
  | [] => mret plaintext
  | i :: l =>
      if i =? party_id_ then MRecv s (fun m => reveal_each party_id_ s l m)
      else MSend s i (reveal_each party_id_ s l plaintext)
  end.

Definition reveal_fixed (party_id_ : Z) (s : si64Matrix) : mprog (list double) :=
  m ← reveal_each party_id_ s [0; 1; 2] (Mat 0 0 []); mret (of_fixed <$> cells m).

Definition SumOrAvg_CipherTextDataCompute (avg_result_ use_mpc_div_ : bool) (party_id_ : Z) (col_sum col_count : list double)
  : mprog (list double) :=
  sh_sums ← share_each party_id_ col_sum;
  sh_count ← share_each party_id_ col_count;
  let sh_all_sum := share_sum sh_sums in
  let sh_all_count := share_sum sh_count in
  if avg_result_ then
    if use_mpc_div_ then
      sh_avg ← lift (MPC_Div party_id_ sh_all_sum sh_all_count); reveal_fixed party_id_ sh_avg
    else
      plaintext_sum ← reveal_fixed party_id_ sh_all_sum;
      plaintext_count ← reveal_fixed party_id_ sh_all_count;
      mret (zip_with ddiv plaintext_sum plaintext_count)
  else reveal_fixed party_id_ sh_all_sum.

(** ** Minima and maxima: [MPCMinOrMax] *)

Definition dbl_min : double := S754_finite false (2 ^ 52) (-1074).
Definition dbl_max : double := S754_finite false (2 ^ 53 - 1) 971.

(** [fillInitValue] for [int32_t], [int64_t] and [double]. *)
Definition fillInitValue_int (type_ : MPCStatisticsType) (w : Z) : Z :=
  if bool_decide (type_ = MAX) then - 2 ^ (w - 1) else 2 ^ (w - 1) - 1.
Definition fillInitValue_double (type_ : MPCStatisticsType) : double :=
  if bool_decide (type_ = MAX) then dbl_min else dbl_max.

Definition minOrMax_int (type_ : MPCStatisticsType) (array : list Z) (val : Z) : Z :=
  if bool_decide (type_ = MAX) then fold_left (fun val x => if val <=? x then x else val) array val
  else fold_left (fun val x => if x <=? val then x else val) array val.

Definition minOrMax_double (type_ : MPCStatisticsType) (array : list double) (val : double) : double :=
  if bool_decide (type_ = MAX) then fold_left (fun val x => if SFleb val x then x else val) array val
  else fold_left (fun val x => if SFleb x val then x else val) array val.

Definition fillChunkResult (type_ : MPCStatisticsType) (cur_val new_val : double) : double :=
  match type_ with
  | MIN => if SFltb new_val cur_val then new_val else cur_val
  | MAX => if SFltb cur_val new_val then new_val else cur_val
  | _ => cur_val
  end.

(** The loop over the chunks of one column; integers of other widths are passed
    over. *)
Fixpoint minmax_chunks (type_ : MPCStatisticsType) (col_type : option Dtype.ColumnDtype) (detected_type : arrow_type) (l : list array)
    (col_result : double) : res (option double) :=
  match l with
  | [] => Ret (Some col_result)
  | a :: l =>
      ct ← or_undef col_type;
      if is_integer ct then
        if bool_decide (detected_type = INT32) then
          v ← as_int_array 32 a;
          let val := minOrMax_int type_ v (fillInitValue_int type_ 32) in
          minmax_chunks type_ col_type detected_type l (fillChunkResult type_ col_result (d_of_int val))
        else if bool_decide (detected_type = INT64) then
          v ← as_int_array 64 a;
          let val := minOrMax_int type_ v (fillInitValue_int type_ 64) in
          minmax_chunks type_ col_type detected_type l (fillChunkResult type_ col_result (d_of_int val))
        else minmax_chunks type_ col_type detected_type l col_result
      else if bool_decide (ct = Dtype.DOUBLE) then
        v ← as_double_array a;
        let val := minOrMax_double type_ v (fillInitValue_double type_) in
        minmax_chunks type_ col_type detected_type l (fillChunkResult type_ col_result val)
      else Ret None
  end.

Fixpoint MinOrMax_PlainTextDataCompute (type_ : MPCStatisticsType) (t : stable) (types : gmap str Dtype.ColumnDtype) (columns : list str)
  : res (option (list double)) :=
  match columns with
  | [] => Ret (Some [])
  | col_name :: columns =>
      match GetColumnByName t col_name with
      | None => Ret None
      | Some c =>
          r ← minmax_chunks type_ (types !! col_name) (field_type c) (schunks c) (fillInitValue_double type_);
          match r with
          | None => Ret None
          | Some col_result => rest ← MinOrMax_PlainTextDataCompute type_ t types columns; Ret (l ← rest; Some (col_result :: l))
          end
      end
  end.

(** The two comparisons that [minValueOfAllParty] and [maxValueOfAllParty] start
    with: the winner, and the compared matrix as the comparisons leave it. *)
Definition tournament (party_id_ : Z) (m : i64Matrix) : mprog (Z * i64Matrix) :=
  '(cmp_result, m1) ← mcompare (if party_id_ =? 0 then Some m else if party_id_ =? 1 then Some m else None);
  let m := default m m1 in
  less ← MDone (or_undef (cmp_result !! 0%nat));
  let smaller_party : Z := if (less : bool) then 0 else 1 in
  '(cmp_result, m2) ←
    (if smaller_party =? 0 then mcompare (if party_id_ =? 0 then Some m else if party_id_ =? 2 then Some m else None)
     else mcompare (if party_id_ =? 1 then Some m else if party_id_ =? 2 then Some m else None));
  let m := default m m2 in
  less ← MDone (or_undef (cmp_result !! 0%nat));
  let smallest_party : Z :=
    if smaller_party =? 0 then (if (less : bool) then 0 else 2) else (if less then 1 else 2) in
  mret (smallest_party, m).

(** The winner shares its value and everybody opens it. *)
Definition open_winner (party_id_ winner : Z) (m : i64Matrix) : mprog double :=
  sh_m ← (if party_id_ =? winner then mcall (LocalFixed m) else mcall (RemoteFixed 1 1));
  v ← mrevealAll sh_m;
  x ← MDone (or_undef (cells v !! 0%nat));
  mret (of_fixed x).

Definition minValueOfAllParty (party_id_ : Z) (local_min : double) : mprog double :=
  '(smallest_party, m) ← tournament party_id_ (Mat 1 1 [to_fixed local_min]);
  open_winner party_id_ smallest_party m.

Definition maxValueOfAllParty (party_id_ : Z) (local_max : double) : mprog double :=
  let m := Mat 1 1 [to_fixed local_max] in
  '(largest_party, _) ← tournament party_id_ (Mat 1 1 [to_fixed (dmul d_neg_one local_max)]);
  open_winner party_id_ largest_party m.

Fixpoint MinOrMax_CipherTextDataCompute (type_ : MPCStatisticsType) (party_id_ : Z) (col_data : list double) : mprog (list double) :=
  match col_data with
  | [] => mret []
  | d :: col_data =>
      r ← (if bool_decide (type_ = MIN) then minValueOfAllParty party_id_ d else maxValueOfAllParty party_id_ d);
      rest ← MinOrMax_CipherTextDataCompute type_ party_id_ col_data;
      mret (r :: rest)
  end.

(** ** The operators behind the common interface *)

Inductive MPCStatisticsOperator :=
| MPCSumOrAvg (avg_result_ use_mpc_div_ : bool) (result : list double)
| MPCMinOrMax (type_ : MPCStatisticsType) (mpc_result_ : list double).

Definition new_MPCSumOrAvg (type : MPCStatisticsType) : MPCStatisticsOperator :=
  MPCSumOrAvg (bool_decide (type = AVG)) false [].
Definition new_MPCMinOrMax (type : MPCStatisticsType) : MPCStatisticsOperator := MPCMinOrMax type [].

Definition CipherTextDataCompute (op : MPCStatisticsOperator) (party_id_ : Z) (col_data row_records : list double)
  : mprog (retcode * MPCStatisticsOperator) :=
  match op with
  | MPCSumOrAvg avg div _ =>
      r ← SumOrAvg_CipherTextDataCompute avg div party_id_ col_data row_records; mret (SUCCESS, MPCSumOrAvg avg div r)
  | MPCMinOrMax ty _ =>
      r ← MinOrMax_CipherTextDataCompute ty party_id_ col_data; mret (SUCCESS, MPCMinOrMax ty r)
  end.

(** Both [run] methods. *)
Definition stat_run (op : MPCStatisticsOperator) (party_id_ : Z) (t : stable) (columns : list str) (types : gmap str Dtype.ColumnDtype)
  : mprog (retcode * MPCStatisticsOperator) :=
  match op with
  | MPCSumOrAvg _ _ _ =>
      r ← MDone (SumOrAvg_PlainTextDataCompute t types columns);
      match r with
      | None => mret (FAIL, op)
      | Some (col_sum, rows_per_column) => CipherTextDataCompute op party_id_ col_sum rows_per_column
      end
  | MPCMinOrMax ty _ =>
      r ← MDone (MinOrMax_PlainTextDataCompute ty t types columns);
      match r with
      | None => mret (FAIL, op)
      | Some col_data => CipherTextDataCompute op party_id_ col_data []
      end
  end.

Definition getResult (op : MPCStatisticsOperator) : list double :=
  match op with MPCSumOrAvg _ _ result => result | MPCMinOrMax _ mpc_result_ => mpc_result_ end.
End SumOrAvg.
