(* ===== verification/StatProps.v ===== *)
(** * Correctness of the secure statistics

    For columns of integers the arithmetic on doubles and on fixed-point numbers
    is exact within bounds that are stated, so the three parties end with the
    sum, the average, the minimum and the maximum of their joint columns; the
    file also shows where the code computes something else. *)

From Stdlib Require Import Ascii String ZArith Lia SpecFloat.
From stdpp Require Import base tactics list option gmap strings.
From S2P Require Import Prelude ModArith Machine Doubles Aby3Op PartyProg ExprMpc MpcCompare MpcProg PsiData Statistics.

Local Open Scope Z_scope.

(** ** Fixed-point numbers

    [f64<D16>] stores [v * 2^16]. *)

Definition fits (z : Z) : Prop := Z.abs z < 2 ^ 47.

Class FixedLaws (E : Aby3) : Prop := {
  to_fixed_int z : fits z -> to_fixed (d_of_int z) = z * 2 ^ 16;
  to_fixed_zero s : to_fixed (S754_zero s) = 0;
  to_fixed_tiny s : to_fixed (S754_finite s (2 ^ 52) (-1074)) = 0;
  of_fixed_int z : fits z -> of_fixed (z * 2 ^ 16) = d_of_int z;
}.

Lemma fits_small z : fits z -> small z.
Proof. unfold fits, small. lia. Qed.

Lemma fits_range z : fits z -> in_i64 (z * 2 ^ 16) = true.
Proof. unfold fits. rewrite in_i64_spec. lia. Qed.

Lemma shiftl_expo p : Z.pos p < 2 ^ 53 -> Z.shiftl (Z.pos (mant p) * fixed_scale) (expo p) = Z.pos p * 2 ^ 16.
Proof.
  intros Hp. assert (He := expo_le p Hp). rewrite mant_value by done.
  replace (expo p) with (- (- expo p)) at 2 by lia. rewrite Z.shiftl_opp_r, Z.shiftr_div_pow2 by lia.
  unfold fixed_scale. replace (Z.pos p * 2 ^ (- expo p) * 2 ^ 16) with (Z.pos p * 2 ^ 16 * 2 ^ (- expo p)) by ring.
  apply Z.div_mul. apply Z.pow_nonzero; lia.
Qed.

#[export] Instance aby3_model_fixed : FixedLaws aby3_model.
Proof.
  split.
  - intros z Hz. assert (Hs := fits_small z Hz). assert (Hr := fits_range z Hz). unfold small in Hs.
    destruct z as [|p|p]; [done| |]; cbn [to_fixed aby3_model].
    + rewrite d_of_int_pos by lia. unfold model_to_fixed. rewrite shiftl_expo by lia. by rewrite Hr.
    + rewrite d_of_int_neg by lia. unfold model_to_fixed. rewrite shiftl_expo by lia.
      replace (- (Z.pos p * 2 ^ 16)) with (Z.neg p * 2 ^ 16) by lia. by rewrite Hr.
  - done.
  - by intros [].
  - intros z Hz. cbn [of_fixed aby3_model]. apply (normalize_scaled z 16); [by apply fits_small|lia].
Qed.

(** ** Local sums are exact *)

Definition zsum (l : list Z) : Z := foldr Z.add 0 l.
Definition abs_sum (l : list Z) : Z := foldr (fun x a => Z.abs x + a) 0 l.

Lemma abs_sum_nonneg l : 0 <= abs_sum l.
Proof. induction l as [|x l IH]; simpl; lia. Qed.

Lemma zsum_app l k : zsum (l ++ k) = zsum l + zsum k.
Proof. induction l as [|x l IH]; simpl; lia. Qed.

Lemma abs_sum_app l k : abs_sum (l ++ k) = abs_sum l + abs_sum k.
Proof. induction l as [|x l IH]; simpl; lia. Qed.

Lemma zsum_abs l : Z.abs (zsum l) <= abs_sum l.
Proof. induction l as [|x l IH]; simpl; lia. Qed.

Lemma fold_dadd l s : Z.abs s + abs_sum l < 2 ^ 53 ->
  fold_left (fun s x => dadd s (d_of_int x)) l (d_of_int s) = d_of_int (s + zsum l).
Proof.
  revert s. induction l as [|x l IH]; intros s H; simpl in *; [by rewrite Z.add_0_r|].
  assert (Hl := abs_sum_nonneg l). rewrite dadd_int by (unfold small; lia). rewrite IH by lia. f_equal. lia.
Qed.

Definition read_back (w : Z) (l : list Z) : Prop := Forall (fun x => sx w x = x) l.

Lemma read_back_map w l : read_back w l -> sx w <$> l = l.
Proof. induction 1 as [|x l Hx _ IH]; [done|]. by rewrite fmap_cons, Hx, IH. Qed.

Lemma sum_chunks_ints ct dt ll s c : is_integer ct = true -> read_back (sum_width dt) (concat ll) ->
  Z.abs s + abs_sum (concat ll) < 2 ^ 53 -> 0 <= c -> c + Z.of_nat (length (concat ll)) < 2 ^ 53 ->
  sum_chunks (Some ct) dt (Ints <$> ll) (d_of_int s) (d_of_int c) =
    Ret (Some (d_of_int (s + zsum (concat ll)), d_of_int (c + Z.of_nat (length (concat ll))))).
Proof.
  intros Hct. revert s c. induction ll as [|l ll IH]; intros s c Hr Hs Hc0 Hc; cbn [fmap list_fmap sum_chunks concat] in *.
  { cbn. by rewrite !Z.add_0_r. }
  apply Forall_app in Hr as [Hr1 Hr2]. rewrite abs_sum_app in Hs. rewrite length_app in Hc.
  cbn [or_undef mbind res_bind as_int_array]. rewrite Hct, read_back_map by done.
  assert (H1 := abs_sum_nonneg (concat ll)). assert (H2 := zsum_abs l).
  rewrite fold_dadd by lia. rewrite dadd_int by (unfold small; lia).
  rewrite IH by (done || lia). do 2 f_equal. rewrite zsum_app, length_app. f_equal; f_equal; lia.
Qed.

(** Party's table has the integer column [name] with the values [l]. *)
Definition int_column (t : stable) (types : gmap str Dtype.ColumnDtype) (name : str) (l : list Z) : Prop :=
  exists c ll ct, GetColumnByName t name = Some c /\ schunks c = Ints <$> ll /\ concat ll = l /\
    types !! name = Some ct /\ is_integer ct = true /\ read_back (sum_width (field_type c)) l.

Lemma sum_plain_ints t types columns L :
  Forall2 (int_column t types) columns L -> Forall (fun l => abs_sum l < 2 ^ 53 /\ Z.of_nat (length l) < 2 ^ 53) L ->
  SumOrAvg_PlainTextDataCompute t types columns =
    Ret (Some ((fun l => d_of_int (zsum l)) <$> L, (fun l : list Z => d_of_int (Z.of_nat (length l))) <$> L)).
Proof.
  induction 1 as [|name l columns L (c & ll & ct & Hc & Hch & Hl & Hty & Hct & Hr) _ IH]; intros HL; [done|].
  inversion_clear HL as [|? ? [Hs Hn] HL']. cbn [SumOrAvg_PlainTextDataCompute]. rewrite Hc, Hty, Hch. subst l.
  change d_zero with (d_of_int 0). rewrite sum_chunks_ints by (done || lia). cbn [mbind res_bind].
  rewrite IH by done. done.
Qed.

(** ** The total of three parties *)

Section Total.
Context `{L : Aby3Laws} (add_msb : Z -> Z -> bool).

Lemma share_call n i m : 0 <= i < 3 -> mat_ok m -> Forall (fun x => in_i64 x = true) (cells m) ->
  exists s, shares s m /\
    mrun3 add_msb n (mcall (if 0 =? i then LocalFixed m else RemoteFixed (rows m) (cols m)))
      (mcall (if 1 =? i then LocalFixed m else RemoteFixed (rows m) (cols m)))
      (mcall (if 2 =? i then LocalFixed m else RemoteFixed (rows m) (cols m))) = Some (S n, trip_map Ret s).
Proof.
  intros Hi Hm Hr. destruct (local_fixed_law n i m Hi Hm Hr) as (t & Hj & Ht). exists t. split; [done|].
  rewrite <- (mrun3_call add_msb n _ t Hj). unfold owner_calls.
  assert (i = 0 \/ i = 1 \/ i = 2) as [-> | [-> | ->]] by lia; reflexivity.
Qed.

Definition fixed_col (v : list double) : i64Matrix := Mat (length v) 1 (to_fixed <$> v).

Lemma fixed_col_ok v : mat_ok (fixed_col v) /\ Forall (fun x => in_i64 x = true) (cells (fixed_col v)).
Proof.
  unfold mat_ok, fixed_col. simpl. rewrite length_fmap. split; [lia|]. apply Forall_fmap, Forall_true. intros x. apply to_fixed_range.
Qed.

(** The calls with which party [p] shares in turn [i]. *)
Lemma share_turn n i v (w : trip (list double)) : 0 <= i < 3 -> sel i w = v ->
  length (at0 w) = length v -> length (at1 w) = length v -> length (at2 w) = length v ->
  let one p := if i =? p then mcall (LocalFixed (fixed_col (sel p w))) else mcall (RemoteFixed (length (sel p w)) 1) in
  exists s, shares s (fixed_col v) /\ mrun3 add_msb n (one 0) (one 1) (one 2) = Some (S n, trip_map Ret s).
Proof.
  intros Hi Hv H0 H1 H2 one. destruct (fixed_col_ok v) as [Hm Hr].
  destruct (share_call n i (fixed_col v) Hi Hm Hr) as (s & Hs & Hrun). exists s. split; [done|]. rewrite <- Hrun. unfold one.
  assert (i = 0 \/ i = 1 \/ i = 2) as [-> | [-> | ->]] by lia; unfold sel in *; cbn [Z.eqb Pos.eqb] in *; subst v; by rewrite ?H0, ?H1, ?H2.
Qed.

Lemma share_each_run n (w : trip (list double)) k : length (at0 w) = k -> length (at1 w) = k -> length (at2 w) = k ->
  exists s0 s1 s2, shares s0 (fixed_col (at0 w)) /\ shares s1 (fixed_col (at1 w)) /\ shares s2 (fixed_col (at2 w)) /\
    mrun3 add_msb n (share_each 0 (at0 w)) (share_each 1 (at1 w)) (share_each 2 (at2 w)) =
      Some (S (S (S n)), Trip (Ret (Trip (at0 s0) (at0 s1) (at0 s2))) (Ret (Trip (at1 s0) (at1 s1) (at1 s2)))
                              (Ret (Trip (at2 s0) (at2 s1) (at2 s2)))).
Proof.
  intros H0 H1 H2.
  destruct (share_turn n 0 (at0 w) w ltac:(lia) eq_refl ltac:(lia) ltac:(lia) ltac:(lia)) as (s0 & Hs0 & R0).
  destruct (share_turn (S n) 1 (at1 w) w ltac:(lia) eq_refl ltac:(lia) ltac:(lia) ltac:(lia)) as (s1 & Hs1 & R1).
  destruct (share_turn (S (S n)) 2 (at2 w) w ltac:(lia) eq_refl ltac:(lia) ltac:(lia) ltac:(lia)) as (s2 & Hs2 & R2).
  exists s0, s1, s2. do 3 (split; [done|]). unfold share_each.
  rewrite (mrun3_bind add_msb n _ _ _ _ _ _ _ _ _ _ R0). rewrite (mrun3_bind add_msb (S n) _ _ _ _ _ _ _ _ _ _ R1).
  rewrite (mrun3_bind add_msb (S (S n)) _ _ _ _ _ _ _ _ _ _ R2). reflexivity.
Qed.

Definition add3 (a b c : i64Matrix) : i64Matrix := mat_zip (fun x y => wrap (x + y)) (mat_zip (fun x y => wrap (x + y)) a b) c.

Lemma share_sum_shares s0 s1 s2 a b c : shares s0 a -> shares s1 b -> shares s2 c -> same_shape a b -> same_shape a c ->
  shares (Trip (share_sum (Trip (at0 s0) (at0 s1) (at0 s2))) (share_sum (Trip (at1 s0) (at1 s1) (at1 s2)))
               (share_sum (Trip (at2 s0) (at2 s1) (at2 s2)))) (add3 a b c).
Proof.
  intros Ha Hb Hc Hab Hac. exact (shares_add _ s2 _ c (shares_add s0 s1 a b Ha Hb Hab) Hc Hac).
Qed.

Lemma reveal_fixed_run n s m : shares s m ->
  let r := Ret (of_fixed <$> cells m) in
  mrun3 add_msb n (reveal_fixed 0 (at0 s)) (reveal_fixed 1 (at1 s)) (reveal_fixed 2 (at2 s)) = Some (S (S (S n)), Trip r r r).
Proof. intros H. destruct s. cbn. by rewrite !(reveal_law _ _ _ H). Qed.

Definition fixed_total (v0 v1 v2 : list double) : list double :=
  of_fixed <$> cells (add3 (fixed_col v0) (fixed_col v1) (fixed_col v2)).

(** Every party opens the total of the columns; for an average it divides the
    two totals in the clear. *)
Lemma sum_cipher_run n (avg : bool) (v c : trip (list double)) k :
  length (at0 v) = k -> length (at1 v) = k -> length (at2 v) = k ->
  length (at0 c) = k -> length (at1 c) = k -> length (at2 c) = k ->
  let total := fixed_total (at0 v) (at1 v) (at2 v) in
  let r := Ret (if avg then zip_with ddiv total (fixed_total (at0 c) (at1 c) (at2 c)) else total) in
  mrun3 add_msb n (SumOrAvg_CipherTextDataCompute avg false 0 (at0 v) (at0 c))
    (SumOrAvg_CipherTextDataCompute avg false 1 (at1 v) (at1 c)) (SumOrAvg_CipherTextDataCompute avg false 2 (at2 v) (at2 c)) =
  Some ((n + if avg then 12 else 9)%nat, Trip r r r).
Proof.
  intros V0 V1 V2 C0 C1 C2 total r. unfold SumOrAvg_CipherTextDataCompute.
  destruct (share_each_run n v k V0 V1 V2) as (s0 & s1 & s2 & Hs0 & Hs1 & Hs2 & R1).
  destruct (share_each_run (S (S (S n))) c k C0 C1 C2) as (t0 & t1 & t2 & Ht0 & Ht1 & Ht2 & R2).
  assert (Hs := share_sum_shares _ _ _ _ _ _ Hs0 Hs1 Hs2 ltac:(split; simpl; congruence) ltac:(split; simpl; congruence)).
  assert (Ht := share_sum_shares _ _ _ _ _ _ Ht0 Ht1 Ht2 ltac:(split; simpl; congruence) ltac:(split; simpl; congruence)).
  rewrite (mrun3_bind add_msb n _ _ _ _ _ _ _ _ _ _ R1), (mrun3_bind add_msb _ _ _ _ _ _ _ _ _ _ _ R2).
  destruct avg.
  - rewrite (mrun3_bind add_msb _ _ _ _ _ _ _ _ _ _ _ (reveal_fixed_run _ _ _ Hs)).
    rewrite (mrun3_bind add_msb _ _ _ _ _ _ _ _ _ _ _ (reveal_fixed_run _ _ _ Ht)). cbn. do 3 f_equal; lia.
  - etransitivity; [exact (reveal_fixed_run _ _ _ Hs)|]. do 2 f_equal. lia.
Qed.
End Total.

(** ** Exact totals of integer columns *)

(** The joint column: what party [p] has of it. *)
Definition joint_sum (l : trip (list Z)) : Z := zsum (at0 l) + zsum (at1 l) + zsum (at2 l).
Definition joint_count (l : trip (list Z)) : Z := Z.of_nat (length (at0 l) + length (at1 l) + length (at2 l)).

Lemma fixed_total_ints `{F : FixedLaws} {X : Type} (f : X -> Z) (C : list (trip X)) :
  Forall (fun l => Z.abs (f (at0 l)) + Z.abs (f (at1 l)) + Z.abs (f (at2 l)) < 2 ^ 47) C ->
  fixed_total ((fun l => d_of_int (f l)) <$> (at0 <$> C)) ((fun l => d_of_int (f l)) <$> (at1 <$> C)) ((fun l => d_of_int (f l)) <$> (at2 <$> C)) =
    (fun l => d_of_int (f (at0 l) + f (at1 l) + f (at2 l))) <$> C.
Proof.
  unfold fixed_total, add3, fixed_col. cbn [mat_zip cells]. induction 1 as [|l C Hl HC IH]; [done|].
  cbn [fmap list_fmap zip_with] in *. f_equal; [|exact IH].
  rewrite !to_fixed_int, <- of_fixed_int by (unfold fits; lia). f_equal.
  assert (Hr := fits_range (f (at0 l) + f (at1 l) + f (at2 l)) ltac:(unfold fits; lia)). rewrite <- (wrap_id _ Hr). wrap_ring.
Qed.

(** The three tables share the integer columns [columns] with the values [C],
    within the bounds of exact arithmetic. *)
Definition joint_columns (T : trip stable) (types : trip (gmap str Dtype.ColumnDtype)) (columns : list str) (C : list (trip (list Z))) : Prop :=
  Forall2 (int_column (at0 T) (at0 types)) columns (at0 <$> C) /\
  Forall2 (int_column (at1 T) (at1 types)) columns (at1 <$> C) /\
  Forall2 (int_column (at2 T) (at2 types)) columns (at2 <$> C) /\
  Forall (fun l => abs_sum (at0 l) + abs_sum (at1 l) + abs_sum (at2 l) < 2 ^ 47 /\ joint_count l < 2 ^ 47) C.

Definition joint_value (avg : bool) (l : trip (list Z)) : double :=
  if avg then ddiv (d_of_int (joint_sum l)) (d_of_int (joint_count l)) else d_of_int (joint_sum l).

Lemma joint_columns_plain T types columns C : joint_columns T types columns C ->
  let sums := fmap (fun l => d_of_int (zsum l)) in let counts := fmap (fun l : list Z => d_of_int (Z.of_nat (length l))) in
  SumOrAvg_PlainTextDataCompute (at0 T) (at0 types) columns = Ret (Some (sums (at0 <$> C), counts (at0 <$> C))) /\
  SumOrAvg_PlainTextDataCompute (at1 T) (at1 types) columns = Ret (Some (sums (at1 <$> C), counts (at1 <$> C))) /\
  SumOrAvg_PlainTextDataCompute (at2 T) (at2 types) columns = Ret (Some (sums (at2 <$> C), counts (at2 <$> C))).
Proof.
  intros (H0 & H1 & H2 & HC) sums counts.
  assert (HB : forall f : trip (list Z) -> list Z, (forall l, f l = at0 l \/ f l = at1 l \/ f l = at2 l) ->
    Forall (fun l => abs_sum l < 2 ^ 53 /\ Z.of_nat (length l) < 2 ^ 53) (f <$> C)).
  { intros f Hf. apply Forall_fmap. eapply Forall_impl; [exact HC|]. intros l [Hs Hn]. unfold joint_count in Hn. simpl.
    assert (A0 := abs_sum_nonneg (at0 l)). assert (A1 := abs_sum_nonneg (at1 l)). assert (A2 := abs_sum_nonneg (at2 l)).
    destruct (Hf l) as [-> | [-> | ->]]; lia. }
  split; [|split]; apply sum_plain_ints; auto.
Qed.

(** SUM and AVG of integer columns. *)
Lemma stat_sum_run `{L : Aby3Laws} {F : FixedLaws E} add_msb (ty : MPCStatisticsType) T types columns C n :
  joint_columns T types columns C ->
  let op := new_MPCSumOrAvg ty in
  let result := joint_value (bool_decide (ty = AVG)) <$> C in
  let r := Ret (SUCCESS, MPCSumOrAvg (bool_decide (ty = AVG)) false result) in
  mrun3 add_msb n (stat_run op 0 (at0 T) columns (at0 types)) (stat_run op 1 (at1 T) columns (at1 types))
    (stat_run op 2 (at2 T) columns (at2 types)) = Some ((n + if bool_decide (ty = AVG) then 12 else 9)%nat, Trip r r r).
Proof.
  intros H op result r. destruct (joint_columns_plain _ _ _ _ H) as (P0 & P1 & P2). destruct H as (_ & _ & _ & HC).
  unfold op, new_MPCSumOrAvg, stat_run. rewrite P0, P1, P2. cbn [mbind mprog_mbind mprog_bind]. unfold CipherTextDataCompute.
  set (sums := fmap (fun l => d_of_int (zsum l))). set (counts := fmap (fun l : list Z => d_of_int (Z.of_nat (length l)))).
  assert (R := sum_cipher_run add_msb n (bool_decide (ty = AVG)) (Trip (sums (at0 <$> C)) (sums (at1 <$> C)) (sums (at2 <$> C)))
    (Trip (counts (at0 <$> C)) (counts (at1 <$> C)) (counts (at2 <$> C))) (length C)). cbn [at0 at1 at2] in R.
  specialize (R ltac:(unfold sums; by rewrite !length_fmap) ltac:(unfold sums; by rewrite !length_fmap) ltac:(unfold sums; by rewrite !length_fmap)
    ltac:(unfold counts; by rewrite !length_fmap) ltac:(unfold counts; by rewrite !length_fmap) ltac:(unfold counts; by rewrite !length_fmap)).
  rewrite (mrun3_bind add_msb _ _ _ _ _ _ _ _ _ _ _ R). cbn [mrun3 mret mprog_ret]. do 2 f_equal. unfold r, result.
  unfold sums, counts. rewrite (fixed_total_ints zsum), (fixed_total_ints (fun l : list Z => Z.of_nat (length l))).
  - do 2 f_equal; f_equal; f_equal; unfold joint_value; case_bool_decide; rewrite ?zip_with_fmap_l, ?zip_with_fmap_r; clear;
      induction C as [|l C IH]; simpl; try done; f_equal; try done; do 2 f_equal; unfold joint_count; lia.
  - eapply Forall_impl; [exact HC|]. intros l [_ Hn]. unfold joint_count in Hn. simpl. lia.
  - eapply Forall_impl; [exact HC|]. intros l [Hs _]. simpl.
    assert (A0 := zsum_abs (at0 l)). assert (A1 := zsum_abs (at1 l)). assert (A2 := zsum_abs (at2 l)). lia.
Qed.

Definition sample_col (t : arrow_type) (ll : list (list Z)) : scolumn := SCol t (Ints <$> ll).
Definition sample_stat_table (a b : list (list Z)) : stable :=
  [(chars "x", sample_col INT32 a); (chars "y", sample_col INT64 b)].
Definition sample_stat_types : gmap str Dtype.ColumnDtype :=
  {[ chars "x" := Dtype.INTEGER; chars "y" := Dtype.LONG ]}.
Definition sample_stat_tables : trip stable :=
  Trip (sample_stat_table [[3; -4]; [5]] [[10]; [20; 7]]) (sample_stat_table [[8]] [[1; 2]]) (sample_stat_table [[-9; 1]] [[40; -41]]).
Definition sample_stat_columns : list (trip (list Z)) :=
  [Trip [3; -4; 5] [8] [-9; 1]; Trip [10; 20; 7] [1; 2] [40; -41]].
Definition sample_stat_names : list str := [chars "x"; chars "y"].

Ltac prove_int_column := eexists _, _, _; split; [reflexivity|]; split; [reflexivity|]; split; [reflexivity|];
  split; [reflexivity|]; split; [reflexivity|]; repeat constructor.

Lemma sample_joint_columns :
  joint_columns sample_stat_tables (Trip sample_stat_types sample_stat_types sample_stat_types) sample_stat_names sample_stat_columns.
Proof.
  repeat apply conj.
  - repeat (apply Forall2_cons; split; [prove_int_column|]). constructor.
  - repeat (apply Forall2_cons; split; [prove_int_column|]). constructor.
  - repeat (apply Forall2_cons; split; [prove_int_column|]). constructor.
  - repeat constructor.
Qed.

(** ** Minima and maxima of a party's column *)

Definition is_min (m : Z) (l : list Z) : Prop := m ∈ l /\ Forall (fun x => m <= x) l.
Definition is_max (m : Z) (l : list Z) : Prop := m ∈ l /\ Forall (fun x => x <= m) l.

Lemma is_min_app a b l k : is_min a l -> is_min b k -> is_min (Z.min a b) (l ++ k).
Proof.
  intros [Ha Fa] [Hb Fb]. split.
  - rewrite elem_of_app. destruct (Z.min_spec a b) as [[_ ->]|[_ ->]]; auto.
  - apply Forall_app. split; [eapply Forall_impl; [exact Fa|]|eapply Forall_impl; [exact Fb|]]; simpl; lia.
Qed.

Lemma is_max_app a b l k : is_max a l -> is_max b k -> is_max (Z.max a b) (l ++ k).
Proof.
  intros [Ha Fa] [Hb Fb]. split.
  - rewrite elem_of_app. destruct (Z.max_spec a b) as [[_ ->]|[_ ->]]; auto.
  - apply Forall_app. split; [eapply Forall_impl; [exact Fa|]|eapply Forall_impl; [exact Fb|]]; simpl; lia.
Qed.

(** The loop over a chunk starts from the extreme value of the type. *)
Lemma chunk_min l v : Forall (fun x => x <= v) l -> l <> [] -> is_min (minOrMax_int MIN l v) l.
Proof.
  unfold minOrMax_int. rewrite bool_decide_false by discriminate.
  assert (G : forall v, (fold_left (fun val x => if x <=? val then x else val) l v = v \/ fold_left (fun val x => if x <=? val then x else val) l v ∈ l)
    /\ fold_left (fun val x => if x <=? val then x else val) l v <= v /\ Forall (fun x => fold_left (fun val x => if x <=? val then x else val) l v <= x) l).
  { clear. induction l as [|x l IH]; intros v; simpl; [auto with lia|]. destruct (IH (if x <=? v then x else v)) as (H1 & H2 & H3).
    destruct (x <=? v) eqn:E; (split; [|split; [lia|constructor; [lia|done]]]); destruct H1 as [-> |H1]; set_solver. }
  intros Hv Hl. destruct (G v) as ([H1|H1] & H2 & H3); [|done]. split; [|done].
  destruct l as [|x l]; [done|]. inversion_clear Hv. inversion_clear H3. rewrite H1 in *. assert (x = v) by lia. subst. apply list_elem_of_here.
Qed.

Lemma chunk_max l v : Forall (fun x => v <= x) l -> l <> [] -> is_max (minOrMax_int MAX l v) l.
Proof.
  unfold minOrMax_int. rewrite bool_decide_true by done.
  assert (G : forall v, (fold_left (fun val x => if val <=? x then x else val) l v = v \/ fold_left (fun val x => if val <=? x then x else val) l v ∈ l)
    /\ v <= fold_left (fun val x => if val <=? x then x else val) l v /\ Forall (fun x => x <= fold_left (fun val x => if val <=? x then x else val) l v) l).
  { clear. induction l as [|x l IH]; intros v; simpl; [auto with lia|]. destruct (IH (if v <=? x then x else v)) as (H1 & H2 & H3).
    destruct (v <=? x) eqn:E; (split; [|split; [lia|constructor; [lia|done]]]); destruct H1 as [-> |H1]; set_solver. }
  intros Hv Hl. destruct (G v) as ([H1|H1] & H2 & H3); [|done]. split; [|done].
  destruct l as [|x l]; [done|]. inversion_clear Hv. inversion_clear H3. rewrite H1 in *. assert (x = v) by lia. subst. apply list_elem_of_here.
Qed.

Lemma below_dbl_max z : small z -> SFltb (d_of_int z) dbl_max = true.
Proof.
  unfold small. intros Hz. destruct z as [|p|p]; [done| |]; rewrite ?d_of_int_pos, ?d_of_int_neg by lia; [|done].
  assert (H := expo_le p ltac:(lia)). unfold SFltb, SFcompare, dbl_max. by rewrite (proj2 (Z.compare_lt_iff (expo p) 971)) by lia.
Qed.

Lemma above_dbl_min z : small z -> SFltb dbl_min (d_of_int z) = (0 <? z).
Proof.
  unfold small. intros Hz. destruct z as [|p|p]; [done| |]; rewrite ?d_of_int_pos, ?d_of_int_neg by lia; [|done].
  assert (H : -1074 < expo p) by (unfold expo; rewrite digits2_log2; assert (Hl := Z.log2_nonneg (Z.pos p)); lia).
  unfold SFltb, SFcompare, dbl_min. by rewrite (proj2 (Z.compare_lt_iff (-1074) (expo p))) by lia.
Qed.

(** A column the loops of [MPCMinOrMax] look at: field type and width agree, every
    chunk has a value. *)
Definition minmax_field (dt : arrow_type) (w : Z) : Prop := (dt = INT32 /\ w = 32) \/ (dt = INT64 /\ w = 64).

Lemma sx_range w x : 0 < w -> sx w x = x -> - 2 ^ (w - 1) <= x <= 2 ^ (w - 1) - 1.
Proof.
  intros Hw Hx. unfold sx in Hx. assert (Hp := Z.pow_pos_nonneg 2 (w - 1) ltac:(lia) ltac:(lia)).
  assert (E : 2 ^ w = 2 * 2 ^ (w - 1)) by (rewrite <- Z.pow_succ_r by lia; f_equal; lia).
  assert (H := Z.mod_pos_bound (x + 2 ^ (w - 1)) (2 ^ w) ltac:(lia)). lia.
Qed.

Lemma read_back_range w l : 0 < w -> read_back w l -> Forall (fun x => - 2 ^ (w - 1) <= x <= 2 ^ (w - 1) - 1) l.
Proof. intros Hw H. eapply Forall_impl; [exact H|]. intros x. by apply sx_range. Qed.

Lemma min_small m l : Forall small l -> m ∈ l -> small m.
Proof. rewrite Forall_forall. auto. Qed.

(** One chunk: the value the loop computes and how it enters the result. *)
Lemma minmax_step ty ct dt w l ll cur : is_integer ct = true -> minmax_field dt w -> read_back w l ->
  minmax_chunks ty (Some ct) dt (Ints l :: ll) cur =
    minmax_chunks ty (Some ct) dt ll (fillChunkResult ty cur (d_of_int (minOrMax_int ty l (fillInitValue_int ty w)))).
Proof.
  intros Hct Hf Hr. cbn [minmax_chunks or_undef mbind res_bind as_int_array]. rewrite Hct.
  destruct Hf as [[-> ->]|[-> ->]]; [rewrite bool_decide_true by done|rewrite bool_decide_false, bool_decide_true by done];
    by rewrite read_back_map.
Qed.

Section Chunks.
Context (ct : Dtype.ColumnDtype) (dt : arrow_type) (w : Z).
Hypothesis Hct : is_integer ct = true.
Hypothesis Hf : minmax_field dt w.

Definition good_chunk (l : list Z) : Prop := l <> [] /\ read_back w l /\ Forall small l.

Lemma good_chunk_min l : good_chunk l -> exists m, minOrMax_int MIN l (fillInitValue_int MIN w) = m /\ is_min m l /\ small m.
Proof.
  intros (Hl & Hr & Hs). eexists. split; [done|]. assert (H : is_min (minOrMax_int MIN l (fillInitValue_int MIN w)) l).
  { apply chunk_min; [|done]. eapply Forall_impl; [apply (read_back_range w); [destruct Hf; lia|done]|].
    unfold fillInitValue_int. rewrite bool_decide_false by discriminate. simpl. lia. }
  split; [done|]. by eapply min_small, H.
Qed.

Lemma good_chunk_max l : good_chunk l -> exists m, minOrMax_int MAX l (fillInitValue_int MAX w) = m /\ is_max m l /\ small m.
Proof.
  intros (Hl & Hr & Hs). eexists. split; [done|]. assert (H : is_max (minOrMax_int MAX l (fillInitValue_int MAX w)) l).
  { apply chunk_max; [|done]. eapply Forall_impl; [apply (read_back_range w); [destruct Hf; lia|done]|].
    unfold fillInitValue_int. rewrite bool_decide_true by done. simpl. lia. }
  split; [done|]. by eapply min_small, H.
Qed.

Lemma min_rest ll cur seen : Forall good_chunk ll -> is_min cur seen -> small cur ->
  exists m, is_min m (seen ++ concat ll) /\ small m /\ minmax_chunks MIN (Some ct) dt (Ints <$> ll) (d_of_int cur) = Ret (Some (d_of_int m)).
Proof.
  intros H. revert cur seen. induction H as [|l ll Hl Hll IH]; intros cur seen Hm Hs; simpl.
  { exists cur. by rewrite app_nil_r. }
  destruct (good_chunk_min l Hl) as (m & Em & Hmin & Hsm). destruct Hl as (_ & Hr & _).
  rewrite app_assoc. destruct (IH (Z.min cur m) (seen ++ l)) as (r & R1 & R2 & R3); [by apply is_min_app|destruct (Z.min_spec cur m) as [[_ ->]|[_ ->]]; done|].
  exists r. do 2 (split; [done|]). rewrite <- R3. etransitivity; [by apply (minmax_step MIN ct dt w)|]. f_equal. rewrite Em. cbn [fillChunkResult].
  rewrite d_of_int_ltb by done. destruct (m <? cur) eqn:E; f_equal; lia.
Qed.

Lemma max_rest ll cur seen : Forall good_chunk ll -> is_max cur seen -> small cur ->
  exists m, is_max m (seen ++ concat ll) /\ small m /\
    minmax_chunks MAX (Some ct) dt (Ints <$> ll) (if 0 <? cur then d_of_int cur else dbl_min) =
      Ret (Some (if 0 <? m then d_of_int m else dbl_min)).
Proof.
  intros H. revert cur seen. induction H as [|l ll Hl Hll IH]; intros cur seen Hm Hs; cbn [fmap list_fmap concat].
  { exists cur. by rewrite app_nil_r. }
  destruct (good_chunk_max l Hl) as (m & Em & Hmax & Hsm). destruct Hl as (_ & Hr & _).
  rewrite app_assoc. destruct (IH (Z.max cur m) (seen ++ l)) as (r & R1 & R2 & R3); [by apply is_max_app|destruct (Z.max_spec cur m) as [[_ ->]|[_ ->]]; done|].
  exists r. do 2 (split; [done|]). rewrite <- R3. etransitivity; [by apply (minmax_step MAX ct dt w)|]. f_equal. rewrite Em. cbn [fillChunkResult].
  destruct (0 <? cur) eqn:E0.
  - rewrite d_of_int_ltb by done. destruct (cur <? m) eqn:E; (replace (0 <? Z.max cur m) with true by (symmetry; lia)); f_equal; lia.
  - rewrite above_dbl_min by done. destruct (0 <? m) eqn:E; [replace (0 <? Z.max cur m) with true by (symmetry; lia); f_equal; lia|].
    by replace (0 <? Z.max cur m) with false by (symmetry; lia).
Qed.

Lemma min_chunks ll : Forall good_chunk ll -> ll <> [] ->
  exists m, is_min m (concat ll) /\ small m /\ minmax_chunks MIN (Some ct) dt (Ints <$> ll) dbl_max = Ret (Some (d_of_int m)).
Proof.
  intros H Hn. destruct H as [|l ll Hl Hll]; [done|]. destruct (good_chunk_min l Hl) as (m & Em & Hmin & Hsm). destruct Hl as (_ & Hr & _).
  destruct (min_rest ll m l Hll Hmin Hsm) as (r & R1 & R2 & R3). exists r. do 2 (split; [done|]). rewrite <- R3.
  etransitivity; [by apply (minmax_step MIN ct dt w)|]. f_equal. rewrite Em. cbn [fillChunkResult]. by rewrite below_dbl_max.
Qed.

Lemma max_chunks ll : Forall good_chunk ll -> ll <> [] ->
  exists m, is_max m (concat ll) /\ small m /\
    minmax_chunks MAX (Some ct) dt (Ints <$> ll) dbl_min = Ret (Some (if 0 <? m then d_of_int m else dbl_min)).
Proof.
  intros H Hn. destruct H as [|l ll Hl Hll]; [done|]. destruct (good_chunk_max l Hl) as (m & Em & Hmax & Hsm). destruct Hl as (_ & Hr & _).
  destruct (max_rest ll m l Hll Hmax Hsm) as (r & R1 & R2 & R3). exists r. do 2 (split; [done|]). rewrite <- R3.
  etransitivity; [by apply (minmax_step MAX ct dt w)|]. f_equal. rewrite Em. cbn [fillChunkResult]. by rewrite above_dbl_min.
Qed.
End Chunks.

(** ** The tournament of three parties *)

Definition winner (x : trip Z) : Z :=
  if at0 x <? at1 x then (if at0 x <? at2 x then 0 else 2) else (if at1 x <? at2 x then 1 else 2).

Definition min3 (x : trip Z) : Z := Z.min (at0 x) (Z.min (at1 x) (at2 x)).

Lemma winner_min x : 0 <= winner x < 3 /\ sel (winner x) x = min3 x.
Proof.
  unfold winner, sel, min3. destruct (at0 x <? at1 x) eqn:E0; [destruct (at0 x <? at2 x) eqn:E1|destruct (at1 x <? at2 x) eqn:E1];
    cbn [Z.eqb Pos.eqb]; lia.
Qed.

(** The values and their differences fit in 64 bits. *)
Definition comparable (x : trip Z) : Prop :=
  Forall (fun z => in_i64 z = true) [at0 x; at1 x; at2 x; at0 x - at1 x; at0 x - at2 x; at1 x - at2 x].

Definition cell (z : Z) : i64Matrix := Mat 1 1 [z].

Section Tournament.
Context `{L : Aby3Laws} (add_msb : Z -> Z -> bool).
Hypothesis msb_law : forall x y, in_i64 x = true -> in_i64 y = true -> add_msb x y = bool_decide (wrap (x + y) < 0).

Lemma compare_cells skip n a b : 0 <= skip < 3 -> in_i64 a = true -> in_i64 b = true -> in_i64 (a - b) = true ->
  mrun3 add_msb n (mcompare (at0 (place skip (cell a) (cell b)))) (mcompare (at1 (place skip (cell a) (cell b))))
    (mcompare (at2 (place skip (cell a) (cell b)))) =
  Some (S n, trip_map (fun o => Ret ([bool_decide (a < b)], o)) (place skip (cell a) (cell b))).
Proof.
  intros Hs Ha Hb Hd.
  rewrite (mrun3_compare add_msb msb_law skip n (cell a) (cell b)); [|done|done|done|done|by left|done|by repeat constructor..].
  assert (skip = 0 \/ skip = 1 \/ skip = 2) as [-> | [-> | ->]] by lia; reflexivity.
Qed.

Lemma tournament_run n x : comparable x ->
  mrun3 add_msb n (tournament 0 (cell (at0 x))) (tournament 1 (cell (at1 x))) (tournament 2 (cell (at2 x))) =
    Some (S (S n), trip_map (fun z => Ret (winner x, cell z)) x).
Proof.
  intros H. destruct x as [a b c]. unfold comparable in H. cbn [at0 at1 at2] in *.
  repeat match goal with H : Forall _ (_ :: _) |- _ => apply Forall_cons in H as [? H] end. unfold tournament.
  etransitivity; [exact (mrun3_bind add_msb n _ _ _ _ _ _ _ _ _ _ (compare_cells 2 n a b ltac:(lia) ltac:(done) ltac:(done) ltac:(done)))|].
  cbn [place Z.eqb Pos.eqb at0 at1 at2 default lookup list_lookup or_undef mbind mprog_mbind mprog_bind].
  unfold winner. cbn [at0 at1 at2].
  destruct (Z.ltb_spec a b) as [Hab|Hab]; [rewrite bool_decide_true by done|rewrite bool_decide_false by lia]; cbn [Z.eqb Pos.eqb].
  - etransitivity; [exact (mrun3_bind add_msb _ _ _ _ _ _ _ _ _ _ _ (compare_cells 1 (S n) a c ltac:(lia) ltac:(done) ltac:(done) ltac:(done)))|].
    destruct (Z.ltb_spec a c); [rewrite bool_decide_true by done|rewrite bool_decide_false by lia]; reflexivity.
  - etransitivity; [exact (mrun3_bind add_msb _ _ _ _ _ _ _ _ _ _ _ (compare_cells 0 (S n) b c ltac:(lia) ltac:(done) ltac:(done) ltac:(done)))|].
    destruct (Z.ltb_spec b c); [rewrite bool_decide_true by done|rewrite bool_decide_false by lia]; reflexivity.
Qed.

(** The owner of the winning number opens [y] to everybody. *)
Lemma open_winner_run n w y : 0 <= w < 3 -> in_i64 (sel w y) = true ->
  let r := Ret (of_fixed (sel w y)) in
  mrun3 add_msb n (open_winner 0 w (cell (at0 y))) (open_winner 1 w (cell (at1 y))) (open_winner 2 w (cell (at2 y))) =
    Some (S (S n), Trip r r r).
Proof.
  intros Hw Hy r. destruct (share_call add_msb n w (cell (sel w y)) Hw) as (s & Hs & R); [done|by repeat constructor|].
  unfold open_winner.
  assert (R' : mrun3 add_msb n (if 0 =? w then mcall (LocalFixed (cell (at0 y))) else mcall (RemoteFixed 1 1))
    (if 1 =? w then mcall (LocalFixed (cell (at1 y))) else mcall (RemoteFixed 1 1))
    (if 2 =? w then mcall (LocalFixed (cell (at2 y))) else mcall (RemoteFixed 1 1)) = Some (S n, trip_map Ret s)).
  { rewrite <- R. assert (w = 0 \/ w = 1 \/ w = 2) as [-> | [-> | ->]] by lia; reflexivity. }
  rewrite (mrun3_bind add_msb n _ _ _ _ _ _ _ _ _ _ R'), (mrun3_bind add_msb _ _ _ _ _ _ _ _ _ _ _ (mrun3_revealAll add_msb (S n) s _ Hs)).
  reflexivity.
Qed.

Lemma sel_fixed_range w (d : trip double) : in_i64 (sel w (trip_map to_fixed d)) = true.
Proof. unfold sel. destruct (w =? 0); [apply to_fixed_range|]. destruct (w =? 1); apply to_fixed_range. Qed.

Lemma min_run n (d : trip double) : comparable (trip_map to_fixed d) ->
  let r := Ret (of_fixed (min3 (trip_map to_fixed d))) in
  mrun3 add_msb n (minValueOfAllParty 0 (at0 d)) (minValueOfAllParty 1 (at1 d)) (minValueOfAllParty 2 (at2 d)) =
    Some ((n + 4)%nat, Trip r r r).
Proof.
  intros H r. unfold minValueOfAllParty. destruct (winner_min (trip_map to_fixed d)) as [Hw Hm].
  rewrite (mrun3_bind add_msb n _ _ _ _ _ _ _ _ _ _ (tournament_run n _ H)).
  etransitivity; [apply (open_winner_run (S (S n)) (winner (trip_map to_fixed d)) (trip_map to_fixed d) Hw)|].
  - by apply sel_fixed_range.
  - rewrite Hm. do 2 f_equal. lia.
Qed.

Definition max3 (x : trip Z) : Z := Z.max (at0 x) (Z.max (at1 x) (at2 x)).

(** The greatest value is found by comparing the negated ones. *)
Lemma max_run n (d : trip double) : comparable (trip_map (fun v => to_fixed (dmul d_neg_one v)) d) ->
  (forall v, v = at0 d \/ v = at1 d \/ v = at2 d -> to_fixed (dmul d_neg_one v) = - to_fixed v) ->
  let r := Ret (of_fixed (max3 (trip_map to_fixed d))) in
  mrun3 add_msb n (maxValueOfAllParty 0 (at0 d)) (maxValueOfAllParty 1 (at1 d)) (maxValueOfAllParty 2 (at2 d)) =
    Some ((n + 4)%nat, Trip r r r).
Proof.
  intros H Hneg r. unfold maxValueOfAllParty. set (x := trip_map (fun v => to_fixed (dmul d_neg_one v)) d) in *.
  destruct (winner_min x) as [Hw Hm].
  assert (Hsel : sel (winner x) (trip_map to_fixed d) = max3 (trip_map to_fixed d)).
  { assert (E0 : at0 x = - to_fixed (at0 d)) by (apply Hneg; auto). assert (E1 : at1 x = - to_fixed (at1 d)) by (apply Hneg; auto).
    assert (E2 : at2 x = - to_fixed (at2 d)) by (apply Hneg; auto).
    clear -Hw Hm E0 E1 E2. unfold min3, max3, sel in *. rewrite E0, E1, E2 in Hm. cbn [trip_map at0 at1 at2].
    destruct (winner x =? 0); [lia|]. destruct (winner x =? 1); lia. }
  rewrite (mrun3_bind add_msb n _ _ _ _ _ _ _ _ _ _ (tournament_run n _ H)).
  etransitivity; [apply (open_winner_run (S (S n)) (winner x) (trip_map to_fixed d) Hw)|].
  - by apply sel_fixed_range.
  - rewrite Hsel. do 2 f_equal. lia.
Qed.
End Tournament.

(** ** Minima and maxima, end to end *)

Definition extreme (ty : MPCStatisticsType) (m : Z) (l : list Z) : Prop := if bool_decide (ty = MIN) then is_min m l else is_max m l.
Definition local_value (ty : MPCStatisticsType) (m : Z) : double :=
  if bool_decide (ty = MIN) then d_of_int m else if 0 <? m then d_of_int m else dbl_min.
(** What the protocol makes of the extreme value [m]: a maximum below 0 is lost. *)
Definition seen_value (ty : MPCStatisticsType) (m : Z) : Z := if bool_decide (ty = MIN) then m else Z.max 0 m.

Definition minmax_column (t : stable) (types : gmap str Dtype.ColumnDtype) (name : str) (l : list Z) : Prop :=
  exists c ll ct w, GetColumnByName t name = Some c /\ schunks c = Ints <$> ll /\ concat ll = l /\ types !! name = Some ct /\
    is_integer ct = true /\ minmax_field (field_type c) w /\ Forall (good_chunk w) ll /\ ll <> [] /\ Forall (fun x => Z.abs x < 2 ^ 46) l.

Definition minmax_ok (ty : MPCStatisticsType) (l : list Z) (d : double) : Prop :=
  exists m, extreme ty m l /\ Z.abs m < 2 ^ 46 /\ d = local_value ty m.

Lemma minmax_plain ty t types columns ls : ty = MIN \/ ty = MAX -> Forall2 (minmax_column t types) columns ls ->
  exists ds, MinOrMax_PlainTextDataCompute ty t types columns = Ret (Some ds) /\ Forall2 (minmax_ok ty) ls ds.
Proof.
  intros Hty. induction 1 as [|name l columns ls (c & ll & ct & w & Hc & Hch & Hl & Ht & Hct & Hf & Hg & Hn & Hb) _ (ds & IH & HF)].
  { by exists []. }
  assert (Hone : exists d, minmax_chunks ty (types !! name) (field_type c) (schunks c) (fillInitValue_double ty) = Ret (Some d) /\ minmax_ok ty l d).
  { rewrite Ht, Hch. subst l. destruct Hty as [-> | ->].
    - destruct (min_chunks ct (field_type c) w Hct Hf ll Hg Hn) as (m & Hm & _ & R). exists (d_of_int m). split; [exact R|].
      exists m. split; [done|]. split; [|done]. by apply (proj1 (Forall_forall _ _) Hb), Hm.
    - destruct (max_chunks ct (field_type c) w Hct Hf ll Hg Hn) as (m & Hm & _ & R). eexists. split; [exact R|].
      exists m. split; [done|]. split; [|done]. by apply (proj1 (Forall_forall _ _) Hb), Hm. }
  destruct Hone as (d & R & Hd). exists (d :: ds). split; [|by constructor]. cbn [MinOrMax_PlainTextDataCompute]. rewrite Hc, R.
  cbn [mbind res_bind]. by rewrite IH.
Qed.

(** The joint column: the values of the three parties together. *)
Definition joined (l : trip (list Z)) : list Z := at0 l ++ at1 l ++ at2 l.

Section Extremes.
Context `{L : Aby3Laws} {F : FixedLaws E} (add_msb : Z -> Z -> bool).
Hypothesis msb_law : forall x y, in_i64 x = true -> in_i64 y = true -> add_msb x y = bool_decide (wrap (x + y) < 0).

Lemma local_fixed ty m : Z.abs m < 2 ^ 46 -> to_fixed (local_value ty m) = seen_value ty m * 2 ^ 16.
Proof.
  intros Hm. unfold local_value, seen_value. case_bool_decide; [by apply to_fixed_int; unfold fits; lia|].
  destruct (0 <? m) eqn:E0; [rewrite to_fixed_int by (unfold fits; lia); lia|]. unfold dbl_min. rewrite to_fixed_tiny. lia.
Qed.

Lemma local_fixed_neg ty m : Z.abs m < 2 ^ 46 -> ty <> MIN -> to_fixed (dmul d_neg_one (local_value ty m)) = - to_fixed (local_value ty m).
Proof.
  intros Hm Hty. rewrite local_fixed by done. unfold local_value, seen_value. rewrite !bool_decide_false by done.
  destruct (0 <? m) eqn:E0.
  - destruct m as [|p|p]; [discriminate| |discriminate]. rewrite d_of_int_pos by lia. rewrite dmul_neg_one; cbn [SFopp negb].
    + rewrite <- d_of_int_neg by lia. rewrite to_fixed_int by (unfold fits; lia). lia.
    + destruct (mant_canonical p ltac:(lia)) as [H1 H2]. unfold valid_binary, bounded, canonical_mantissa. rewrite H1, Z.eqb_refl.
      apply Z.leb_le. unfold d_emax, d_prec. lia.
  - rewrite dmul_neg_one by done. unfold dbl_min. cbn [SFopp negb]. rewrite to_fixed_tiny. lia.
Qed.

Lemma comparable_small (x : trip Z) : Forall (fun z => Z.abs z < 2 ^ 62) [at0 x; at1 x; at2 x] -> comparable x.
Proof.
  intros H. repeat match goal with H : Forall _ (_ :: _) |- _ => apply Forall_cons in H as [? H] end.
  unfold comparable. do 6 (constructor; [apply in_i64_spec; lia|]). constructor.
Qed.

Lemma seen_bound ty m : Z.abs m < 2 ^ 46 -> Z.abs (seen_value ty m) < 2 ^ 46.
Proof. unfold seen_value. case_bool_decide; lia. Qed.

Definition combine3 (ty : MPCStatisticsType) (m : trip Z) : Z := if bool_decide (ty = MIN) then min3 m else max3 m.

Lemma extreme_joined ty l m : extreme ty (at0 m) (at0 l) -> extreme ty (at1 m) (at1 l) -> extreme ty (at2 m) (at2 l) ->
  extreme ty (combine3 ty m) (joined l).
Proof.
  unfold extreme, combine3, min3, max3, joined. case_bool_decide; intros; [by repeat apply is_min_app|by repeat apply is_max_app].
Qed.

Lemma combine_fixed ty m : ty = MIN \/ ty = MAX ->
  let x := trip_map (fun z => seen_value ty z * 2 ^ 16) m in
  (if bool_decide (ty = MIN) then min3 x else max3 x) = seen_value ty (combine3 ty m) * 2 ^ 16.
Proof.
  intros [-> | ->]; unfold combine3, seen_value, min3, max3; cbn [trip_map at0 at1 at2].
  - rewrite !bool_decide_true by done. rewrite !Z.mul_min_distr_nonneg_r by lia. done.
  - rewrite !bool_decide_false by discriminate. rewrite !Z.mul_max_distr_nonneg_r by lia. f_equal. lia.
Qed.

Lemma combine_bound ty m : Z.abs (at0 m) < 2 ^ 46 -> Z.abs (at1 m) < 2 ^ 46 -> Z.abs (at2 m) < 2 ^ 46 ->
  Z.abs (combine3 ty m) < 2 ^ 46.
Proof. unfold combine3, min3, max3. case_bool_decide; lia. Qed.

(** One column. *)
Lemma extreme_run n ty (m : trip Z) : ty = MIN \/ ty = MAX -> Z.abs (at0 m) < 2 ^ 46 -> Z.abs (at1 m) < 2 ^ 46 -> Z.abs (at2 m) < 2 ^ 46 ->
  let one p d := if bool_decide (ty = MIN) then minValueOfAllParty p d else maxValueOfAllParty p d in
  let r := Ret (d_of_int (seen_value ty (combine3 ty m))) in
  mrun3 add_msb n (one 0 (local_value ty (at0 m))) (one 1 (local_value ty (at1 m))) (one 2 (local_value ty (at2 m))) =
    Some ((n + 4)%nat, Trip r r r).
Proof.
  intros Hty H0 H1 H2 one r. set (d := trip_map (local_value ty) m).
  assert (Hfx : trip_map to_fixed d = trip_map (fun z => seen_value ty z * 2 ^ 16) m).
  { unfold d, trip_map. cbn [at0 at1 at2]. by rewrite !local_fixed. }
  assert (B0 := seen_bound ty _ H0). assert (B1 := seen_bound ty _ H1). assert (B2 := seen_bound ty _ H2).
  assert (Hc := combine_fixed ty m Hty). assert (Hcb := seen_bound ty _ (combine_bound ty m H0 H1 H2)).
  unfold r. rewrite <- (of_fixed_int (seen_value ty (combine3 ty m))) by (unfold fits; lia). rewrite <- Hc, <- Hfx. unfold one.
  case_bool_decide as Hmin.
  - apply (min_run add_msb msb_law n d). rewrite Hfx. apply comparable_small. cbn [trip_map at0 at1 at2].
    do 3 (constructor; [lia|]). constructor.
  - apply (max_run add_msb msb_law n d).
    + unfold d. cbn [trip_map at0 at1 at2]. apply comparable_small. cbn [trip_map at0 at1 at2]. rewrite !local_fixed_neg, !local_fixed by done.
      do 3 (constructor; [lia|]). constructor.
    + intros v [-> | [-> | ->]]; by apply local_fixed_neg.
Qed.

(** All the columns. *)
Lemma extremes_run ty n (C : list (trip (list Z))) (d : trip (list double)) : ty = MIN \/ ty = MAX ->
  Forall2 (minmax_ok ty) (at0 <$> C) (at0 d) -> Forall2 (minmax_ok ty) (at1 <$> C) (at1 d) -> Forall2 (minmax_ok ty) (at2 <$> C) (at2 d) ->
  exists res, Forall2 (fun l v => exists m, extreme ty m (joined l) /\ v = d_of_int (seen_value ty m)) C res /\
    mrun3 add_msb n (MinOrMax_CipherTextDataCompute ty 0 (at0 d)) (MinOrMax_CipherTextDataCompute ty 1 (at1 d))
      (MinOrMax_CipherTextDataCompute ty 2 (at2 d)) = Some ((n + 4 * length C)%nat, Trip (Ret res) (Ret res) (Ret res)).
Proof.
  intros Hty. revert n d. induction C as [|l C IH]; intros n [ds0 ds1 ds2]; cbn [fmap list_fmap at0 at1 at2]; intros F0 F1 F2.
  { inversion_clear F0; inversion_clear F1; inversion_clear F2. exists []. split; [done|]. simpl. by rewrite Nat.add_0_r. }
  inversion_clear F0 as [|? d0 ? ds0' (m0 & X0 & B0 & ->) F0']. inversion_clear F1 as [|? d1 ? ds1' (m1 & X1 & B1 & ->) F1'].
  inversion_clear F2 as [|? d2 ? ds2' (m2 & X2 & B2 & ->) F2'].
  destruct (IH (n + 4)%nat (Trip ds0' ds1' ds2') F0' F1' F2') as (res & HF & R). cbn [at0 at1 at2] in R.
  exists (d_of_int (seen_value ty (combine3 ty (Trip m0 m1 m2))) :: res). split.
  { constructor; [|done]. eexists. split; [|done]. by apply (extreme_joined ty l (Trip m0 m1 m2)). }
  cbn [MinOrMax_CipherTextDataCompute]. rewrite (mrun3_bind add_msb n _ _ _ _ _ _ _ _ _ _ (extreme_run n ty (Trip m0 m1 m2) Hty B0 B1 B2)).
  rewrite (mrun3_bind add_msb _ _ _ _ _ _ _ _ _ _ _ R). cbn [mrun3 mret mprog_ret length]. do 2 f_equal. lia.
Qed.
End Extremes.

Definition joint_minmax (T : trip stable) (types : trip (gmap str Dtype.ColumnDtype)) (columns : list str) (C : list (trip (list Z))) : Prop :=
  Forall2 (minmax_column (at0 T) (at0 types)) columns (at0 <$> C) /\
  Forall2 (minmax_column (at1 T) (at1 types)) columns (at1 <$> C) /\
  Forall2 (minmax_column (at2 T) (at2 types)) columns (at2 <$> C).

(** MIN and MAX of integer columns. *)
Lemma stat_minmax_run `{L : Aby3Laws} {F : FixedLaws E} add_msb (ty : MPCStatisticsType) T types columns C n :
  (forall x y, in_i64 x = true -> in_i64 y = true -> add_msb x y = bool_decide (wrap (x + y) < 0)) ->
  ty = MIN \/ ty = MAX -> joint_minmax T types columns C ->
  exists res,
    Forall2 (fun l d => exists m, (if bool_decide (ty = MIN) then is_min m (joined l) else is_max m (joined l)) /\
                                  d = d_of_int (if bool_decide (ty = MIN) then m else Z.max 0 m)) C res /\
    let op := new_MPCMinOrMax ty in
    let r := Ret (SUCCESS, MPCMinOrMax ty res) in
    mrun3 add_msb n (stat_run op 0 (at0 T) columns (at0 types)) (stat_run op 1 (at1 T) columns (at1 types))
      (stat_run op 2 (at2 T) columns (at2 types)) = Some ((n + 4 * length C)%nat, Trip r r r).
Proof.
  intros Hmsb Hty (H0 & H1 & H2).
  destruct (minmax_plain ty _ _ _ _ Hty H0) as (d0 & P0 & F0). destruct (minmax_plain ty _ _ _ _ Hty H1) as (d1 & P1 & F1).
  destruct (minmax_plain ty _ _ _ _ Hty H2) as (d2 & P2 & F2).
  destruct (extremes_run add_msb Hmsb ty n C (Trip d0 d1 d2) Hty F0 F1 F2) as (res & HF & R). exists res. split; [exact HF|].
  unfold new_MPCMinOrMax, stat_run. rewrite P0, P1, P2. cbn [mbind mprog_mbind mprog_bind]. unfold CipherTextDataCompute.
  by rewrite (mrun3_bind add_msb _ _ _ _ _ _ _ _ _ _ _ R).
Qed.

Ltac prove_minmax_column := eexists _, _, _, _; split; [reflexivity|]; split; [reflexivity|]; split; [reflexivity|];
  split; [reflexivity|]; split; [reflexivity|]; split; [first [left; split; reflexivity | right; split; reflexivity]|];
  split; [repeat constructor; discriminate|]; split; [discriminate|repeat constructor].

Lemma sample_joint_minmax :
  joint_minmax sample_stat_tables (Trip sample_stat_types sample_stat_types sample_stat_types) sample_stat_names sample_stat_columns.
Proof.
  split; [|split]; repeat (apply Forall2_cons; split; [prove_minmax_column|]); constructor.
Qed.

(** ** The operators together *)

(** What a statistic of type [ty] promises for a joint column [l]. *)
Definition stat_value (ty : MPCStatisticsType) (l : trip (list Z)) (d : double) : Prop :=
  match ty with
  | SUM => d = d_of_int (joint_sum l)
  | AVG => d = ddiv (d_of_int (joint_sum l)) (d_of_int (joint_count l))
  | MIN => exists m, is_min m (joined l) /\ d = d_of_int m
  | MAX => exists m, is_max m (joined l) /\ d = d_of_int (Z.max 0 m)
  | UNKNOWN => False
  end.

Definition joint_data (ty : MPCStatisticsType) (T : trip stable) (types : trip (gmap str Dtype.ColumnDtype)) (columns : list str)
    (C : list (trip (list Z))) : Prop :=
  match ty with
  | SUM | AVG => joint_columns T types columns C
  | MIN | MAX => joint_minmax T types columns C
  | UNKNOWN => False
  end.

Definition operator_of (ty : MPCStatisticsType) : MPCStatisticsOperator :=
  match ty with SUM | AVG => new_MPCSumOrAvg ty | _ => new_MPCMinOrMax ty end.

Lemma statistics_run `{L : Aby3Laws} {F : FixedLaws E} add_msb (ty : MPCStatisticsType) T types columns C n :
  (forall x y, in_i64 x = true -> in_i64 y = true -> add_msb x y = bool_decide (wrap (x + y) < 0)) ->
  joint_data ty T types columns C ->
  exists op n', Forall2 (stat_value ty) C (getResult op) /\
    let r := Ret (SUCCESS, op) in
    mrun3 add_msb n (stat_run (operator_of ty) 0 (at0 T) columns (at0 types)) (stat_run (operator_of ty) 1 (at1 T) columns (at1 types))
      (stat_run (operator_of ty) 2 (at2 T) columns (at2 types)) = Some (n', Trip r r r).
Proof.
  intros Hmsb H.
  assert (Hmm : ty = MIN \/ ty = MAX -> exists res n', Forall2 (stat_value ty) C res /\
    let r := Ret (SUCCESS, MPCMinOrMax ty res) in
    mrun3 add_msb n (stat_run (operator_of ty) 0 (at0 T) columns (at0 types)) (stat_run (operator_of ty) 1 (at1 T) columns (at1 types))
      (stat_run (operator_of ty) 2 (at2 T) columns (at2 types)) = Some (n', Trip r r r)).
  { intros Hty. assert (Hd : joint_minmax T types columns C) by (destruct Hty; by subst).
    destruct (stat_minmax_run add_msb ty T types columns C n Hmsb Hty Hd) as (res & HF & R). exists res, (n + 4 * length C)%nat.
    destruct Hty; subst ty; (split; [|exact R]); (eapply Forall2_impl; [exact HF|]); intros l d Hl; exact Hl. }
  destruct ty; [| |destruct (Hmm (or_intror eq_refl)) as (res & n' & R); exists (MPCMinOrMax MAX res), n'; exact R
    |destruct (Hmm (or_introl eq_refl)) as (res & n' & R); exists (MPCMinOrMax MIN res), n'; exact R|done].
  - eexists _, _. split; [|exact (stat_sum_run add_msb AVG T types columns C n H)].
    apply Forall2_fmap_r, Forall_Forall2_diag, Forall_true. done.
  - eexists _, _. split; [|exact (stat_sum_run add_msb SUM T types columns C n H)].
    apply Forall2_fmap_r, Forall_Forall2_diag, Forall_true. done.
Qed.

(** C20: the secure statistics are exact on integer columns: when the three parties'
    tables have the selected integer columns within the stated bounds (absolute
    values of a joint column adding up to less than 2^47 for SUM and AVG; values
    below 2^46 in INT32 or INT64 fields without empty chunks for MIN and MAX), the
    three programs' calls fit together, all return [SUCCESS], and all have the
    same results: the exact sum, the sum divided by the number of all rows, the
    least value, and the greatest value if it is not negative, but 0 if all values
    are negative, because the running maximum starts from the smallest positive
    [double]. *)
Theorem secure_statistics_exact `{L : Aby3Laws} {F : FixedLaws E} add_msb (ty : MPCStatisticsType) T types columns C n :
  (forall x y, in_i64 x = true -> in_i64 y = true -> add_msb x y = bool_decide (wrap (x + y) < 0)) ->
  joint_data ty T types columns C ->
  exists op n', Forall2 (stat_value ty) C (getResult op) /\
    let r := Ret (SUCCESS, op) in
    mrun3 add_msb n (stat_run (operator_of ty) 0 (at0 T) columns (at0 types)) (stat_run (operator_of ty) 1 (at1 T) columns (at1 types))
      (stat_run (operator_of ty) 2 (at2 T) columns (at2 types)) = Some (n', Trip r r r).
Proof. apply statistics_run. Qed.

Lemma secure_statistics_exact_witness :
  exists op n', Forall2 (stat_value MAX) sample_stat_columns (getResult op) /\
    mrun3 (fun x y => bool_decide (wrap (x + y) < 0)) 0
      (stat_run (operator_of MAX) 0 (at0 sample_stat_tables) sample_stat_names sample_stat_types)
      (stat_run (operator_of MAX) 1 (at1 sample_stat_tables) sample_stat_names sample_stat_types)
      (stat_run (operator_of MAX) 2 (at2 sample_stat_tables) sample_stat_names sample_stat_types) =
    Some (n', Trip (Ret (SUCCESS, op)) (Ret (SUCCESS, op)) (Ret (SUCCESS, op))).
Proof.
  refine (secure_statistics_exact (fun x y => bool_decide (wrap (x + y) < 0)) MAX sample_stat_tables
    (Trip sample_stat_types sample_stat_types sample_stat_types) sample_stat_names sample_stat_columns 0 _ _).
  - intros. reflexivity.
  - exact sample_joint_minmax.
Defined.

(** ** Where the local reduction falls short *)

(** An unsigned column is read as a signed one: 200 is summed as -56. *)
Example unsigned_read_as_signed :
  SumOrAvg_PlainTextDataCompute [(chars "x", sample_col UINT8 [[200]])] sample_stat_types [chars "x"] =
    Ret (Some ([d_of_int (-56)], [d_of_int 1])).
Proof. vm_compute. reflexivity. Qed.

(** A 16-bit column is skipped by MIN and MAX, without an error. *)
Example narrow_column_skipped :
  MinOrMax_PlainTextDataCompute MIN [(chars "x", sample_col INT16 [[3; 4]])] sample_stat_types [chars "x"] = Ret (Some [dbl_max]).
Proof. vm_compute. reflexivity. Qed.
