(* ===== verification/Wire.v ===== *)
(** * Length-prefixed records on the wire

    The framing the PSI operators use: a 64-bit big-endian length followed by the
    bytes ([htonll]/[ntohll] of [util/endian_util.h]; [BroadcastResult] and
    [ReceiveResult] of [kernel/psi/operator/base_psi.cc]).  Reading follows the
    pointer arithmetic of the code: the buffer is the text and its terminating
    zero, and a read outside it is undefined behaviour. *)

From Stdlib Require Import Ascii String ZArith Lia.
From stdpp Require Import base tactics list option.
From S2P Require Import Prelude ModArith Machine.

Local Open Scope Z_scope.

Definition byte_of (z : Z) : ascii := ascii_of_N (Z.to_N (z mod 256)).
Definition of_byte (c : ascii) : Z := Z.of_N (N_of_ascii c).

(** The [n] low bytes of [z], most significant first: the memory image of
    [htonll(z)] for [n = 8]. *)
Fixpoint be_bytes (n : nat) (z : Z) : str :=
  match n with
  | O => []
  | S n => byte_of (z / 256 ^ Z.of_nat n) :: be_bytes n z
  end.

(** The number that bytes spell, most significant first. *)
Definition of_be_bytes (s : str) : Z := fold_left (fun v c => 256 * v + of_byte c) s 0.

Definition htonll (z : Z) : str := be_bytes 8 z.

(** [len] bytes at [off] of a [std::string]'s buffer. *)
Definition read_buf (data : str) (off len : Z) : res str :=
  let buf := data ++ ["000"%char] in
  if (0 <=? off) && (0 <=? len) && (off + len <=? Z.of_nat (length buf))
  then Ret (take (Z.to_nat len) (drop (Z.to_nat off) buf)) else Undef.

(** [ntohll] of the eight bytes at [off]. *)
Definition read_u64 (data : str) (off : Z) : res Z := of_be_bytes <$> read_buf data off 8.

(** [be_item_len] and [item]. *)
Definition frame (item : str) : str := htonll (Z.of_nat (length item)) ++ item.

(** The text [BroadcastResult] sends. *)
Definition encode_result (result : list str) : str := concat (frame <$> result).

(** The loop of [ReceiveResult]: every turn moves [offset] by at least eight, so
    the length of the data bounds the turns. *)
Fixpoint decode_loop (fuel : nat) (data : str) (offset : Z) (result : list str) : res (list str) :=
  if offset <? Z.of_nat (length data) then
    match fuel with
    | O => Undef
    | S fuel =>
        len ← read_u64 data offset;
        item ← read_buf data (offset + 8) len;
        decode_loop fuel data (offset + 8 + len) (result ++ [item])
    end
  else Ret result.

Definition decode_result (data : str) (result : list str) : res (list str) :=
  decode_loop (length data) data 0 result.

(** ** Facts *)

Lemma of_byte_of z : of_byte (byte_of z) = z mod 256.
Proof.
  unfold of_byte, byte_of. assert (H := Z.mod_pos_bound z 256 ltac:(lia)).
  rewrite N_ascii_embedding; lia.
Qed.

Lemma be_bytes_length n z : length (be_bytes n z) = n.
Proof. induction n as [|n IH]; simpl; [done|]. by rewrite IH. Qed.

Lemma of_be_bytes_step n z v : fold_left (fun v c => 256 * v + of_byte c) (be_bytes n z) v = v * 256 ^ Z.of_nat n + z mod 256 ^ Z.of_nat n.
Proof.
  revert v. induction n as [|n IH]; intros v; [cbn; rewrite Z.mod_1_r; lia|].
  cbn [be_bytes fold_left]. rewrite IH, of_byte_of. rewrite Nat2Z.inj_succ, Z.pow_succ_r by lia.
  assert (Hp : 0 < 256 ^ Z.of_nat n) by (apply Z.pow_pos_nonneg; lia).
  rewrite (Z.mul_comm 256 (256 ^ _)), Z.rem_mul_r by lia. ring.
Qed.

Lemma ntohll_htonll z : 0 <= z < W64 -> of_be_bytes (htonll z) = z.
Proof.
  intros H. unfold of_be_bytes, htonll. rewrite of_be_bytes_step. rewrite Z.mod_small; [lia|].
  change (256 ^ Z.of_nat 8) with W64. lia.
Qed.

Lemma read_buf_app a b c : read_buf (a ++ b ++ c) (Z.of_nat (length a)) (Z.of_nat (length b)) = Ret b.
Proof.
  unfold read_buf. rewrite !length_app.
  replace ((0 <=? _) && _ && _) with true.
  2: { symmetry. rewrite !andb_true_iff, !Z.leb_le. simpl length. lia. }
  rewrite !Nat2Z.id, <- app_assoc, drop_app_length, <- app_assoc, take_app_length. done.
Qed.

Lemma read_u64_app a n c : 0 <= n < W64 -> read_u64 (a ++ htonll n ++ c) (Z.of_nat (length a)) = Ret n.
Proof.
  intros H. unfold read_u64. change 8 with (Z.of_nat (length (htonll n))) at 1.
  rewrite read_buf_app. cbn [fmap res_fmap]. by rewrite ntohll_htonll.
Qed.

(** Reading one record in the middle of a text. *)
Lemma read_frame a item c : Z.of_nat (length item) < W64 ->
  read_u64 (a ++ frame item ++ c) (Z.of_nat (length a)) = Ret (Z.of_nat (length item)) /\
  read_buf (a ++ frame item ++ c) (Z.of_nat (length a) + 8) (Z.of_nat (length item)) = Ret item.
Proof.
  intros H. unfold frame. split.
  - rewrite <- app_assoc. apply read_u64_app. lia.
  - replace (a ++ (htonll (Z.of_nat (length item)) ++ item) ++ c)
      with ((a ++ htonll (Z.of_nat (length item))) ++ item ++ c) by (by rewrite <- !app_assoc).
    replace (Z.of_nat (length a) + 8) with (Z.of_nat (length (a ++ htonll (Z.of_nat (length item))))).
    2: { rewrite length_app, Nat2Z.inj_add. done. }
    apply read_buf_app.
Qed.

Lemma frame_length item : Z.of_nat (length (frame item)) = 8 + Z.of_nat (length item).
Proof. unfold frame. rewrite length_app, Nat2Z.inj_add. done. Qed.

Lemma decode_loop_frames items a fuel result : Forall (fun i => Z.of_nat (length i) < W64) items ->
  (length items <= fuel)%nat ->
  decode_loop fuel (a ++ encode_result items) (Z.of_nat (length a)) result = Ret (result ++ items).
Proof.
  revert a fuel result. induction items as [|i items IH]; intros a fuel result HF Hfuel; cbn [encode_result concat fmap list_fmap].
  - destruct fuel; cbn [decode_loop]; rewrite !app_nil_r; rewrite Z.ltb_irrefl; done.
  - inversion_clear HF as [|?? Hi HF']. destruct fuel as [|fuel]; [simpl in Hfuel; lia|]. cbn [decode_loop].
    fold (encode_result items). destruct (read_frame a i (encode_result items) Hi) as [E1 E2].
    replace (_ <? _) with true.
    2: { symmetry. apply Z.ltb_lt. rewrite !length_app, !Nat2Z.inj_add. pose proof (frame_length i). lia. }
    rewrite E1. cbn [mbind res_bind]. rewrite E2. cbn [mbind res_bind].
    rewrite app_assoc. replace (Z.of_nat (length a) + 8 + Z.of_nat (length i)) with (Z.of_nat (length (a ++ frame i))).
    2: { rewrite length_app, Nat2Z.inj_add, frame_length. lia. }
    rewrite IH; [|done|simpl in Hfuel; lia]. by rewrite <- app_assoc.
Qed.

Lemma encode_fuel items : (length items <= length (encode_result items))%nat.
Proof.
  unfold encode_result. induction items as [|i items IH]; [done|]. cbn [fmap list_fmap concat length]. rewrite length_app.
  pose proof (frame_length i). lia.
Qed.

(** The receiving loop gives back exactly the records that were sent. *)
Lemma decode_encode items result : Forall (fun i => Z.of_nat (length i) < W64) items ->
  decode_result (encode_result items) result = Ret (result ++ items).
Proof. intros HF. apply (decode_loop_frames items []); [done|apply encode_fuel]. Qed.

(** More turns than bytes left change nothing: the bound on the loop is never
    what stops it. *)
Lemma decode_fuel fuel data offset result : 0 <= offset -> Z.of_nat (length data) <= offset + Z.of_nat fuel ->
  decode_loop (S fuel) data offset result = decode_loop fuel data offset result.
Proof.
  revert offset result. induction fuel as [|fuel IH]; intros offset result H0 Hf.
  - cbn [decode_loop]. destruct (Z.ltb_spec offset (Z.of_nat (length data))); [lia|done].
  - cbn [decode_loop] in *. destruct (Z.ltb_spec offset (Z.of_nat (length data))); [|done].
    destruct (read_u64 data offset) as [len| |]; cbn [mbind res_bind]; [|done..].
    destruct (read_buf data (offset + 8) len) as [item| |] eqn:E; cbn [mbind res_bind]; [|done..].
    assert (0 <= len).
    { unfold read_buf in E. destruct ((0 <=? offset + 8) && (0 <=? len) && _) eqn:Eb; [|done].
      rewrite !andb_true_iff, !Z.leb_le in Eb. lia. }
    apply (IH (offset + 8 + len)); lia.
Qed.
