(* ===== verification/PsiNet.v ===== *)
(** * Two parties that exchange messages

    A party of a two-party task is a program of sends and receives; the link
    keeps one first-in first-out mailbox per node ([LinkContext::Send] posts to
    the node it is given, [LinkContext::Recv] fetches from the party's proxy
    node, [util/network/link_context.cc]).  A run interleaves the two programs in
    any way.  When no mailbox is written, or read, by both parties, every schedule
    that goes on long enough ends in the same final state.  Where a mailbox is is a
    parameter: a node for the tasks that use one key, a node and a key for those
    that use several. *)

From Stdlib Require Import Ascii String ZArith Lia.
From stdpp Require Import base tactics list option gmap.
From S2P Require Import Prelude ModArith Machine StrUtil Common.

(** A program: it ends with an outcome, posts a message, or fetches one. *)
Inductive act_at (L A : Type) : Type :=
| Done (r : res A)
| Post (to : L) (msg : str) (k : retcode -> act_at L A)
| Fetch (from : L) (k : str -> act_at L A).
Arguments Done {L A} r.
Arguments Post {L A} to msg k.
Arguments Fetch {L A} from k.

Abbreviation act := (act_at Node).

Fixpoint act_bind {L A B} (p : act_at L A) (f : A -> act_at L B) : act_at L B :=
  match p with
  | Done (Ret a) => f a
  | Done Throw => Done Throw
  | Done Undef => Done Undef
  | Post to msg k => Post to msg (fun rc => act_bind (k rc) f)
  | Fetch from k => Fetch from (fun s => act_bind (k s) f)
  end.
#[export] Instance act_mbind {L} : MBind (act_at L) := fun A B f p => act_bind p f.

Definition lift {L A} (r : res A) : act_at L A := Done r.

(** [LinkContext::Send]. *)
Definition link_send {L} (to : L) (msg : str) : act_at L retcode := Post to msg (fun rc => Done (Ret rc)).

(** [LinkContext::Recv] from a proxy: an empty text is reported as a failure. *)
Definition link_recv {L} (from : L) : act_at L (retcode * str) :=
  Fetch from (fun s => Done (Ret (if decide (s = []) then FAIL else SUCCESS, s))).

(** ** Runs *)

Abbreviation mail_at L := (gmap L (list str)).
Abbreviation mail := (mail_at Node).

Definition mailbox `{Countable L} (m : mail_at L) (n : L) : list str := default [] (m !! n).

(** What one party can do next when the link works. *)
Definition act_step `{Countable L} {A} (m : mail_at L) (p : act_at L A) : option (mail_at L * act_at L A) :=
  match p with
  | Done _ => None
  | Post to msg k => Some (<[to := mailbox m to ++ [msg]]> m, k SUCCESS)
  | Fetch from k => match mailbox m from with x :: q => Some (<[from := q]> m, k x) | [] => None end
  end.

Record sys_at (L A : Type) `{Countable L} : Type := Sys { party0 : act_at L A; party1 : act_at L A; mails : mail_at L }.
Arguments Sys {L A _ _} party0 party1 mails.
Arguments party0 {L A _ _} s.
Arguments party1 {L A _ _} s.
Arguments mails {L A _ _} s.
Abbreviation sys := (sys_at Node).

Inductive step `{Countable L} {A} : sys_at L A -> sys_at L A -> Prop :=
| step0 p p' q m m' : act_step m p = Some (m', p') -> step (Sys p q m) (Sys p' q m')
| step1 p q q' m m' : act_step m q = Some (m', q') -> step (Sys p q m) (Sys p q' m').

Inductive run `{Countable L} {A} : nat -> sys_at L A -> sys_at L A -> Prop :=
| run_nil s : run 0 s s
| run_cons n s s1 s2 : step s s1 -> run n s1 s2 -> run (S n) s s2.

Definition stuck `{Countable L} {A} (s : sys_at L A) : Prop := forall s', ~ step s s'.

(** Every schedule from [s] reaches [t] in exactly [n] steps and then stops:
    whatever was done first, the rest leads to [t]. *)
Definition inevitable `{Countable L} {A} (n : nat) (s t : sys_at L A) : Prop :=
  stuck t /\ forall k s', run k s s' -> (k <= n)%nat /\ run (n - k) s' t.

(** [p] posts only to the mailboxes [to] and fetches only from the mailboxes [from]. *)
Fixpoint disciplined {L A} (to from : L -> Prop) (p : act_at L A) : Prop :=
  match p with
  | Done _ => True
  | Post n _ k => to n /\ forall rc, disciplined to from (k rc)
  | Fetch n k => from n /\ forall s, disciplined to from (k s)
  end.

Lemma disciplined_bind {L A B} (to from : L -> Prop) (p : act_at L A) (f : A -> act_at L B) :
  disciplined to from p -> (forall a, disciplined to from (f a)) -> disciplined to from (p ≫= f).
Proof.
  intros Hp Hf. unfold mbind, act_mbind. induction p as [[]|n msg k IH|n k IH]; simpl in *; naive_solver.
Qed.

Lemma apart_eq {L} (a b : L) : a <> b -> forall n, a = n -> b = n -> False.
Proof. by intros H n -> ->. Qed.

Section Confluence.
Context `{Countable L} {A : Type} (b0 b1 : L -> Prop).
Implicit Types (s t : sys_at L A).

(** Party 0 reads the mailboxes [b0] and writes to [b1], party 1 the other way
    round. *)
Definition two_party s : Prop :=
  (forall n, b0 n -> b1 n -> False) /\ disciplined b1 b0 (party0 s) /\ disciplined b0 b1 (party1 s).

Lemma step_two_party s s' : two_party s -> step s s' -> two_party s'.
Proof.
  intros (Hn & H0 & H1) Hs. destruct Hs as [p p' q m m' E|p q q' m m' E]; simpl in *; (split_and!; [done|..]); simpl; try done.
  - destruct p as [r|n msg k|n k]; simpl in *; [done|naive_solver|]. case_match; naive_solver.
  - destruct q as [r|n msg k|n k]; simpl in *; [done|naive_solver|]. case_match; naive_solver.
Qed.

(** A post and a fetch commute, at one mailbox or at two. *)
Lemma post_fetch_commute (m m1 m2 : mail_at L) np msg (k : retcode -> act_at L A) nq (k' : str -> act_at L A) p' q' :
  act_step m (Post np msg k) = Some (m1, p') -> act_step m (Fetch nq k') = Some (m2, q') ->
  exists m3, act_step m1 (Fetch nq k') = Some (m3, q') /\ act_step m2 (Post np msg k) = Some (m3, p').
Proof.
  intros Ep Eq. cbn [act_step] in *. unfold mailbox in *. destruct (m !! nq) as [[|x l0]|] eqn:E; simpl in *; simplify_eq.
  destruct (decide (np = nq)) as [->|Hne].
  - rewrite lookup_insert_eq, E. cbn. eexists. split; [reflexivity|]. rewrite lookup_insert_eq. cbn. by rewrite !insert_insert_eq.
  - rewrite lookup_insert_ne by done. rewrite E. cbn. eexists. split; [reflexivity|]. rewrite lookup_insert_ne by done.
    f_equal. f_equal. by rewrite insert_insert_ne.
Qed.

(** Steps of two programs that neither write nor read one mailbox commute. *)
Lemma act_commute (top fromp toq fromq : L -> Prop) (p p' q q' : act_at L A) (m m1 m2 : mail_at L) :
  (forall n, top n -> toq n -> False) -> (forall n, fromp n -> fromq n -> False) ->
  disciplined top fromp p -> disciplined toq fromq q ->
  act_step m p = Some (m1, p') -> act_step m q = Some (m2, q') ->
  exists m3, act_step m1 q = Some (m3, q') /\ act_step m2 p = Some (m3, p').
Proof.
  intros Ht Hf Hp Hq Ep Eq.
  destruct p as [r|np msg k|np k], q as [r'|nq msg' k'|nq k']; try done; cbn [disciplined] in Hp, Hq; destruct Hp as [Hp _], Hq as [Hq _].
  - assert (np <> nq) by (intros ->; eauto). cbn [act_step] in *. simplify_eq. eexists. unfold mailbox. rewrite !lookup_insert_ne by done.
    split; [reflexivity|]. f_equal. f_equal. by rewrite insert_insert_ne.
  - by eapply post_fetch_commute.
  - edestruct post_fetch_commute as (m3 & E1 & E2); [exact Eq|exact Ep|]. by exists m3.
  - assert (np <> nq) by (intros ->; eauto). cbn [act_step] in *. unfold mailbox in *.
    destruct (m !! np) as [[|x l0]|] eqn:E0; simpl in *; simplify_eq.
    destruct (m !! nq) as [[|y l1]|] eqn:E1; simpl in *; simplify_eq.
    rewrite !lookup_insert_ne by done. rewrite E0, E1. simpl. eexists. split; [reflexivity|].
    f_equal. f_equal. by rewrite insert_insert_ne.
Qed.

(** A step touches only the party's own mailboxes and the other's tails. *)
Lemma diamond s a b : two_party s -> step s a -> step s b -> a = b \/ exists c, step a c /\ step b c.
Proof.
  intros (Hn & H0 & H1) Ha Hb. assert (Hn' : forall n, b1 n -> b0 n -> False) by eauto.
  destruct Ha as [p p' q m m1 Ea|p q q' m m1 Ea]; inversion Hb as [p2 p2' q2 m2' m2 Eb|p2 q2 q2' m2' m2 Eb]; subst; simpl in *.
  - left. congruence.
  - right. destruct (act_commute b1 b0 b0 b1 p p' q q2' m m1 m2) as (m3 & E1 & E2); try done. eexists. split; [by apply step1|by apply step0].
  - right. destruct (act_commute b1 b0 b0 b1 p p2' q q' m m2 m1) as (m3 & E1 & E2); try done. eexists. split; [by apply step0|by apply step1].
  - left. congruence.
Qed.

Lemma run_after_step n s t a : two_party s -> run n s t -> stuck t -> step s a -> exists n', n = S n' /\ run n' a t.
Proof.
  revert s a. induction n as [|n IH]; intros s a Hd Hrun Ht Ha; inversion Hrun as [|? ? b ? Hb Hr]; subst; [by destruct (Ht a)|].
  exists n. split; [done|]. destruct (diamond s a b Hd Ha Hb) as [->|(c & Hac & Hbc)]; [done|].
  destruct (IH b c) as (n' & -> & Hc); [by eapply step_two_party|done..|]. by econstructor.
Qed.

(** One complete schedule decides them all. *)
Lemma one_run_decides n s t : two_party s -> run n s t -> stuck t -> inevitable n s t.
Proof.
  intros Hd Hrun Ht. split; [done|]. intros k s' Hk. revert n Hrun.
  induction Hk as [s|k s a s' Ha Hk IH]; intros n Hrun; [split; [lia|by rewrite Nat.sub_0_r]|].
  destruct (run_after_step n s t a) as (n' & -> & Hr); [done..|].
  destruct (IH (step_two_party _ _ Hd Ha) n' Hr) as [Hle Hr']. split; [lia|]. done.
Qed.
End Confluence.

(** ** Running a schedule *)

Lemma stuck_done `{Countable L} {A} (r0 r1 : res A) (m : mail_at L) : stuck (Sys (Done r0) (Done r1) m).
Proof. intros s' Hs. inversion Hs; subst; done. Qed.

Lemma run_app `{Countable L} {A} n k (a b c : sys_at L A) : run n a b -> run k b c -> run (n + k) a c.
Proof. intros Hr. induction Hr as [|n a a1 b Hs Hr IH]; simpl; [done|]. intros Hc. econstructor; [done|by apply IH]. Qed.

Lemma run_post0 `{Countable L} {A} n to msg k (q : act_at L A) m t :
  run n (Sys (k SUCCESS) q (<[to := mailbox m to ++ [msg]]> m)) t -> run (S n) (Sys (Post to msg k) q m) t.
Proof. intros Hr. econstructor; [by apply step0|done]. Qed.

Lemma run_post1 `{Countable L} {A} n to msg k (p : act_at L A) m t :
  run n (Sys p (k SUCCESS) (<[to := mailbox m to ++ [msg]]> m)) t -> run (S n) (Sys p (Post to msg k) m) t.
Proof. intros Hr. econstructor; [by apply step1|done]. Qed.

Lemma run_fetch0 `{Countable L} {A} n from x xs k (q : act_at L A) m t : mailbox m from = x :: xs ->
  run n (Sys (k x) q (<[from := xs]> m)) t -> run (S n) (Sys (Fetch from k) q m) t.
Proof. intros E Hr. econstructor; [apply step0; cbn; by rewrite E|done]. Qed.

Lemma run_fetch1 `{Countable L} {A} n from x xs k (p : act_at L A) m t : mailbox m from = x :: xs ->
  run n (Sys p (k x) (<[from := xs]> m)) t -> run (S n) (Sys p (Fetch from k) m) t.
Proof. intros E Hr. econstructor; [apply step1; cbn; by rewrite E|done]. Qed.

Lemma mailbox_empty `{Countable L} (n : L) : mailbox (∅ : mail_at L) n = [].
Proof. unfold mailbox. by rewrite lookup_empty. Qed.
Lemma mailbox_eq `{Countable L} (m : mail_at L) n q : mailbox (<[n := q]> m) n = q.
Proof. unfold mailbox. by rewrite lookup_insert_eq. Qed.
Lemma mailbox_ne `{Countable L} (m : mail_at L) n n' q : n <> n' -> mailbox (<[n := q]> m) n' = mailbox m n'.
Proof. intros Hr. unfold mailbox. by rewrite lookup_insert_ne. Qed.

(** Running two programs to their values and then going on. *)
Lemma run_bind `{Countable L} {A B} n (p q : act_at L A) (f g : A -> act_at L B) m a b m' :
  run n (Sys p q m) (Sys (Done (Ret a)) (Done (Ret b)) m') -> run n (Sys (p ≫= f) (q ≫= g) m) (Sys (f a) (g b) m').
Proof.
  assert (Hstep : forall (r r' : act_at L A) (h : A -> act_at L B) m m1, act_step m r = Some (m1, r') -> act_step m (r ≫= h) = Some (m1, r' ≫= h)).
  { intros r r' h m0 m1 Hs. destruct r as [|to msg k|from k]; simpl in *; [done|by simplify_eq|]. case_match; by simplify_eq. }
  remember (Sys p q m) as s eqn:Es. remember (Sys (Done (Ret a)) (Done (Ret b)) m') as t eqn:Et. intros Hr. revert p q m Es.
  induction Hr as [s|n s s1 t Hs Hr IH]; intros p q m ->; [simplify_eq; constructor|].
  inversion Hs; subst; (econstructor; [|by apply IH]); [apply step0|apply step1]; by apply Hstep.
Qed.

(** ** Automation *)

(** Break a program into its messages. *)
Ltac act_disciplined :=
  repeat first
    [ exact I
    | apply disciplined_bind
    | progress intros
    | match goal with |- disciplined _ _ (if ?b then _ else _) => destruct b end
    | match goal with |- disciplined _ _ (match ?x with _ => _ end) => destruct x end
    | match goal with |- disciplined _ _ (lift _) => exact I end
    | match goal with |- disciplined _ _ (link_send _ _) => split; [done|done] end
    | match goal with |- disciplined _ _ (link_recv _) => split; [done|done] end ].

(** Let a program compute up to its next message. *)
Ltac act_go :=
  repeat (progress cbn [mbind act_mbind act_bind link_send link_recv lift]
    || rewrite (decide_False (P := SUCCESS <> SUCCESS)) by (let E := fresh in intros E; by apply E)).
