(* ===== verification/NetMany.v ===== *)
(** * Any number of parties that exchange messages

    The two-party runs of [PsiNet] for a list of parties.  A schedule picks the
    party that goes on.  When every mailbox has one writer and one reader, one
    complete schedule decides them all. *)

From Stdlib Require Import Ascii String ZArith Lia.
From stdpp Require Import base tactics list option gmap.
From S2P Require Import Prelude ModArith Machine StrUtil Common PsiNet.

Record net (L A : Type) `{Countable L} : Type := Net { progs : list (act_at L A); posts : mail_at L }.
Arguments Net {L A _ _} progs posts.
Arguments progs {L A _ _} n.
Arguments posts {L A _ _} n.

Inductive nstep `{Countable L} {A} : net L A -> net L A -> Prop :=
| nstep_party i ps p p' m m' : ps !! i = Some p -> act_step m p = Some (m', p') -> nstep (Net ps m) (Net (<[i := p']> ps) m').

Inductive nrun `{Countable L} {A} : nat -> net L A -> net L A -> Prop :=
| nrun_nil s : nrun 0 s s
| nrun_cons n s s1 s2 : nstep s s1 -> nrun n s1 s2 -> nrun (S n) s s2.

Definition nstuck `{Countable L} {A} (s : net L A) : Prop := forall s', ~ nstep s s'.

(** Every schedule from [s] ends in [t] after [n] steps. *)
Definition ninevitable `{Countable L} {A} (n : nat) (s t : net L A) : Prop :=
  nstuck t /\ forall k s', nrun k s s' -> (k <= n)%nat /\ nrun (n - k) s' t.

Section Confluence.
Context `{Countable L} {A : Type} (writer reader : L -> nat -> Prop).
Hypothesis one_writer : forall l i j, writer l i -> writer l j -> i = j.
Hypothesis one_reader : forall l i j, reader l i -> reader l j -> i = j.
Implicit Types (s t : net L A).

(** Every party keeps to its own mailboxes. *)
Definition own_boxes s : Prop :=
  forall i p, progs s !! i = Some p -> disciplined (fun l => writer l i) (fun l => reader l i) p.

Lemma act_step_disciplined (to from : L -> Prop) (m m' : mail_at L) (p p' : act_at L A) :
  disciplined to from p -> act_step m p = Some (m', p') -> disciplined to from p'.
Proof. intros Hp E. destruct p as [|? ? k|? k]; simpl in *; [done|naive_solver|]. case_match; naive_solver. Qed.

Lemma nstep_owned s s' : own_boxes s -> nstep s s' -> own_boxes s'.
Proof.
  intros Ho Hs. destruct Hs as [i ps p p' m m' Hi E]. intros j q. cbn [progs]. destruct (decide (i = j)) as [<-|Hne].
  - rewrite list_lookup_insert_eq by (by eapply lookup_lt_Some). intros [= <-]. eapply act_step_disciplined; [by apply (Ho i p)|done].
  - rewrite list_lookup_insert_ne by done. apply Ho.
Qed.

Lemma ndiamond s a b : own_boxes s -> nstep s a -> nstep s b -> a = b \/ exists c, nstep a c /\ nstep b c.
Proof.
  intros Ho Ha Hb. destruct Ha as [i ps p p' m m1 Hi Ea]. inversion Hb as [j ps' q q' m0 m2 Hj Eb]; subst.
  destruct (decide (i = j)) as [<-|Hne]; [left; congruence|right].
  destruct (act_commute (fun l => writer l i) (fun l => reader l i) (fun l => writer l j) (fun l => reader l j) p p' q q' m m1 m2)
    as (m3 & E1 & E2); [naive_solver..|by apply (Ho i)|by apply (Ho j)|done|done|].
  exists (Net (<[j := q']> (<[i := p']> ps)) m3). split.
  - econstructor; [|exact E1]. by rewrite list_lookup_insert_ne.
  - rewrite list_insert_insert_ne by done. econstructor; [|exact E2]. by rewrite list_lookup_insert_ne.
Qed.

Lemma nrun_after_step n s t a : own_boxes s -> nrun n s t -> nstuck t -> nstep s a -> exists n', n = S n' /\ nrun n' a t.
Proof.
  revert s a. induction n as [|n IH]; intros s a Hd Hrun Ht Ha; inversion Hrun as [|? ? b ? Hb Hr]; subst; [by destruct (Ht a)|].
  exists n. split; [done|]. destruct (ndiamond s a b Hd Ha Hb) as [->|(c & Hac & Hbc)]; [done|].
  destruct (IH b c) as (n' & -> & Hc); [by eapply nstep_owned|done..|]. by econstructor.
Qed.

(** One complete schedule decides them all. *)
Lemma one_nrun_decides n s t : own_boxes s -> nrun n s t -> nstuck t -> ninevitable n s t.
Proof.
  intros Hd Hrun Ht. split; [done|]. intros k s' Hk. revert n Hrun.
  induction Hk as [s|k s a s' Ha Hk IH]; intros n Hrun; [split; [lia|by rewrite Nat.sub_0_r]|].
  destruct (nrun_after_step n s t a) as (n' & -> & Hr); [done..|].
  destruct (IH (nstep_owned _ _ Hd Ha) n' Hr) as [Hle Hr']. split; [lia|]. done.
Qed.
End Confluence.

(** ** Running a schedule *)

Lemma nstuck_done `{Countable L} {A} (rs : list (res A)) (m : mail_at L) : nstuck (Net (Done <$> rs) m).
Proof.
  intros s' Hs. inversion Hs as [i ps p p' m0 m' Hi E]; subst. apply list_lookup_fmap_Some in Hi as (r & -> & _). done.
Qed.

Lemma nrun_app `{Countable L} {A} n k (a b c : net L A) : nrun n a b -> nrun k b c -> nrun (n + k) a c.
Proof. intros Hr. induction Hr as [|n a a1 b Hs Hr IH]; simpl; [done|]. intros Hc. econstructor; [done|by apply IH]. Qed.

Lemma nrun_post `{Countable L} {A} i n to msg k ps (m : mail_at L) (t : net L A) : ps !! i = Some (Post to msg k) ->
  nrun n (Net (<[i := k SUCCESS]> ps) (<[to := mailbox m to ++ [msg]]> m)) t -> nrun (S n) (Net ps m) t.
Proof. intros E Hr. econstructor; [by eapply nstep_party|done]. Qed.

Lemma nrun_fetch `{Countable L} {A} i n from x xs k ps (m : mail_at L) (t : net L A) : ps !! i = Some (Fetch from k) ->
  mailbox m from = x :: xs -> nrun n (Net (<[i := k x]> ps) (<[from := xs]> m)) t -> nrun (S n) (Net ps m) t.
Proof. intros E Em Hr. econstructor; [eapply nstep_party; [done|]; cbn; by rewrite Em|done]. Qed.

(** ** Ends *)

(** Every way a program can end. *)
Fixpoint all_ends {L A} (P : res A -> Prop) (p : act_at L A) : Prop :=
  match p with
  | Done r => P r
  | Post _ _ k => forall rc, all_ends P (k rc)
  | Fetch _ k => forall s, all_ends P (k s)
  end.

Lemma all_ends_bind {L A B} (P : res B -> Prop) (p : act_at L A) (f : A -> act_at L B) :
  (forall a, all_ends P (f a)) -> P Throw -> P Undef -> all_ends P (p ≫= f).
Proof. intros Hf Ht Hu. unfold mbind, act_mbind. induction p as [[]|n msg k IH|n k IH]; cbn; auto. Qed.
