(* ===== verification/Psi.v ===== *)
(** * The PSI operators

    Models [kernel/psi/operator/base_psi.cc] (roles, result broadcast, result
    extraction) and [kernel/psi/operator/ecdh_psi.cc] (the client and the server of
    the ECDH protocol).  The OpenMined library and the protobuf serialisation are
    the class [PsiLib]; what the code relies on is [PsiLaws]. *)

From Stdlib Require Import Ascii String ZArith Lia SpecFloat.
From stdpp Require Import base tactics list option strings countable gmap.
From S2P Require Import Prelude ModArith Machine StrUtil Common Wire PsiNet Parallel.

Local Open Scope Z_scope.

(** ** Options and roles *)

(** [PsiResultType]: set by a cast from a request's [int32], so any number. *)
Definition INTERSECTION : Z := 0.
Definition DIFFERENCE : Z := 1.

(** [struct Options]: [party_info] is a [std::map], listed in key order. *)
Record Options : Type := Opts {
  party_info : list (str * Node);
  self_party : str;
  psi_result_type : Z;
  proxy_node : Node
}.

Definition IgnoreResult (party_name : str) : bool := IsTeeCompute party_name.

Definition IgnoreParty (o : Options) (party_name : str) : bool :=
  if bool_decide (party_name = self_party o) then true else IgnoreResult party_name.

Definition BroadcastPartyList (o : Options) : list Node :=
  snd <$> filter (fun p : str * Node => IgnoreParty o (p.1) = false) (party_info o).

Definition GetNodeByName (o : Options) (party_name : str) : retcode * option Node :=
  match list_find (fun p : str * Node => p.1 = party_name) (party_info o) with
  | Some (_, (_, node)) => (SUCCESS, Some node)
  | None => (FAIL, None)
  end.

Definition PeerNode (o : Options) : Node :=
  let by_name name := match GetNodeByName o name with (SUCCESS, Some n) => n | _ => default_node end in
  if IsClient (self_party o) then by_name PARTY_SERVER
  else if IsServer (self_party o) then by_name PARTY_CLIENT
  else default_node.

(** ** Result broadcast *)

Fixpoint send_all (nodes : list Node) (msg : str) : act unit :=
  match nodes with
  | [] => Done (Ret tt)
  | n :: nodes => _ ← link_send n msg; send_all nodes msg
  end.

Definition BroadcastResult (o : Options) (result : list str) : act retcode :=
  _ ← send_all (BroadcastPartyList o) (encode_result result); Done (Ret SUCCESS).

Definition ReceiveResult (o : Options) (result : list str) : act (retcode * list str) :=
  '(ret, data) ← link_recv (proxy_node o);
  if bool_decide (ret <> SUCCESS) && bool_decide (data <> []) then Done (Ret (FAIL, result))
  else r ← lift (decode_result data result); Done (Ret (SUCCESS, r)).

Definition BroadcastPsiResult (o : Options) (result : list str) : act (retcode * list str) :=
  if IgnoreResult (self_party o) then Done (Ret (SUCCESS, result))
  else if IsClient (self_party o) then ret ← BroadcastResult o result; Done (Ret (ret, result))
  else ReceiveResult o result.

(** [BasePsiOperator::Execute] around a protocol's [OnExecute]. *)
Definition Execute (o : Options) (OnExecute : act (retcode * list str)) (sync_result : bool) : act (retcode * list str) :=
  '(ret, result) ← OnExecute;
  if decide (ret <> SUCCESS) then Done (Ret (FAIL, result))
  else if sync_result then BroadcastPsiResult o result else Done (Ret (ret, result)).

(** ** Result extraction *)

(** The rows of [input] whose positions are not listed: the difference loops of
    [GetResult] and of the ECDH operator. *)
Definition difference_rows (input : list str) (idx : list Z) : list str :=
  snd <$> filter (fun p : nat * str => Z.of_nat (p.1) ∉ idx) (zip (seq 0 (length input)) input).

(** The rows at the listed positions, in that order. *)
Fixpoint select_rows (input : list str) (idx : list Z) : res (list str) :=
  match idx with
  | [] => Ret []
  | i :: idx =>
      x ← or_undef (if 0 <=? i then input !! Z.to_nat i else None);
      xs ← select_rows input idx;
      Ret (x :: xs)
  end.

(** The tasks of [GetResult]: full blocks, then the remainder when there is one.
    A task copies the rows of its block. *)
Definition block_task (input : list str) (idx : list Z) (first n : nat) : res (list (wr str)) :=
  foldr (fun j acc => pos ← or_undef (idx !! j); x ← or_undef (if 0 <=? pos then input !! Z.to_nat pos else None);
    ws ← acc; Ret ((j, fun _ => x) :: ws)) (Ret []) (seq first n).

Definition blocks (size n : Z) : list (nat * nat) :=
  ((fun i => (Z.to_nat (i * size), Z.to_nat size)) <$> seqZ 0 (n / size)) ++
  (if decide (n mod size <> 0) then [(Z.to_nat (n / size * size), Z.to_nat (n mod size))] else []).

Fixpoint block_tasks (input : list str) (idx : list Z) (bs : list (nat * nat)) : res (list (list (wr str))) :=
  match bs with
  | [] => Ret []
  | (first, n) :: bs => t ← block_task input idx first n; ts ← block_tasks input idx bs; Ret (t :: ts)
  end.

Definition BLOCK_SIZE : Z := 10000000.

(** [GetResult] on the result object [result]: the difference is appended; the
    intersection resizes the vector and lets every task write its block. *)
Inductive GetResult (size : Z) (o : Options) (input : list str) (idx : list Z) (result : list str) : res (retcode * list str) -> Prop :=
| GetResult_difference : psi_result_type o = DIFFERENCE ->
    GetResult size o input idx result (Ret (SUCCESS, result ++ difference_rows input idx))
| GetResult_intersection ts l : psi_result_type o <> DIFFERENCE ->
    block_tasks input idx (blocks size (Z.of_nat (length idx))) = Ret ts -> interleave ts l ->
    GetResult size o input idx result (Ret (SUCCESS, do_writes l (resize (length idx) [] result)))
| GetResult_undefined r : psi_result_type o <> DIFFERENCE ->
    block_tasks input idx (blocks size (Z.of_nat (length idx))) = Undef -> GetResult size o input idx result r.

(** ** The ECDH protocol *)

(** The oneof of [psi_proto::ServerSetup]. *)
Inductive data_structure : Type :=
| kGcs (div hash_range : Z)
| kBloomFilter (num_hash_functions : Z)
| DATA_STRUCTURE_NOT_SET.

Record ServerSetup : Type := Setup { bits : str; structure : data_structure }.

(** [rpc::PsiResponse]. *)
Record PsiResponse : Type := Resp { server_setup : ServerSetup; encrypted_elements : list str }.
Definition empty_response : PsiResponse := Resp (Setup [] DATA_STRUCTURE_NOT_SET) [].

(** [rpc::ParamValue]: the member of the oneof that is set, and [is_array]. *)
Inductive pvalue : Type :=
| value_int32 (z : Z)
| value_int64 (z : Z)
| value_string (s : str)
| value_int32_array (l : list Z)
| value_string_array (l : list str)
| value_int64_array (l : list Z)
| value_float (d : double)
| value_float_array (l : list double)
| value_double (d : double)
| value_double_array (l : list double)
| value_bool (b : bool)
| value_bool_array (l : list bool)
| value_other.
Record ParamValue : Type := PV { value : pvalue; is_array : bool }.

(** A getter of another member than the one that is set gives the default. *)
Definition get_int32 (p : ParamValue) : Z := match value p with value_int32 z => z | _ => 0 end.
Definition get_int64 (p : ParamValue) : Z := match value p with value_int64 z => z | _ => 0 end.
Definition get_string (p : ParamValue) : str := match value p with value_string s => s | _ => [] end.
Definition get_string_array (p : ParamValue) : list str := match value p with value_string_array l => l | _ => [] end.
Definition get_int32_array (p : ParamValue) : list Z := match value p with value_int32_array l => l | _ => [] end.

Definition dataset_size : str := chars "dataset_size".
Definition reveal_intersection : str := chars "reveal_intersection".

#[export] Instance data_structure_eq_dec : EqDecision data_structure.
Proof. solve_decision. Defined.
#[export] Instance ServerSetup_eq_dec : EqDecision ServerSetup.
Proof. solve_decision. Defined.
#[export] Instance pvalue_eq_dec : EqDecision pvalue.
Proof. solve_decision. Defined.
#[export] Instance ParamValue_eq_dec : EqDecision ParamValue.
Proof. solve_decision. Defined.

(** Narrowing of a 64-bit length to the [int] that [ParseFromArray] takes. *)
Definition to_int32 (z : Z) : Z := (z + 2 ^ 31) mod 2 ^ 32 - 2 ^ 31.

(** The OpenMined library ([.value()] of an error status throws) and protobuf. *)
Class PsiLib := {
  seed : Type;
  client_key : Type;
  server_key : Type;
  request : Type;
  NewClient : seed -> bool -> res client_key;
  NewServer : seed -> bool -> res server_key;
  CreateRequest : client_key -> list str -> res request;
  CreateSetupMessage : server_key -> double -> Z -> list str -> res ServerSetup;
  ProcessRequest : server_key -> request -> res (list str);
  LibIntersection : client_key -> ServerSetup -> list str -> res (list Z);
  ser_request : request -> str;
  parse_request : str -> request;
  ser_response : list str -> str;
  parse_response : str -> list str;
  ser_setup : ServerSetup -> str;
  parse_setup : str -> ServerSetup;
  ser_params : gmap str ParamValue -> bool * str;
  parse_params : str -> gmap str ParamValue
}.

Definition reveal_intersection_ : bool := true.
Definition fpr_ : double := d_of_decimal false 1 4.

Section Ecdh.
Context `{PsiLib} (stop_ : bool) (o : Options).

(** [CHECK_TASK_STOPPED]. *)
Definition check_stopped {A} (fail : A) (p : act A) : act A := if stop_ then Done (Ret fail) else p.

Definition BuildInitParam (element_size : Z) : retcode * str :=
  if stop_ then (FAIL, [])
  else
    let init_params : gmap str ParamValue :=
      <[reveal_intersection := PV (value_int32 (if reveal_intersection_ then 1 else 0)) false]>
        (<[dataset_size := PV (value_int64 element_size) false]> ∅) in
    let '(success, text) := ser_params init_params in
    if success then (SUCCESS, text) else (FAIL, text).

Definition SendInitParam (init_param : str) : act retcode := link_send (PeerNode o) init_param.

(** The copy of a setup through a response, in both directions: the two known
    structures only. *)
Definition copy_setup (s : ServerSetup) : option ServerSetup :=
  match structure s with
  | kGcs div hash_range => Some (Setup (bits s) (kGcs div hash_range))
  | kBloomFilter n => Some (Setup (bits s) (kBloomFilter n))
  | DATA_STRUCTURE_NOT_SET => None
  end.

Definition ParsePsiResponseFromeString (text : str) (response : PsiResponse) : res (retcode * PsiResponse) :=
  if stop_ then Ret (FAIL, response)
  else
    psi_res_len ← read_u64 text 0;
    body ← read_buf text 8 (to_int32 psi_res_len);
    setup_info_len ← read_u64 text (8 + psi_res_len);
    setup_body ← read_buf text (8 + psi_res_len + 8) (to_int32 setup_info_len);
    let setup_info := parse_setup setup_body in
    match copy_setup setup_info with
    | Some s => Ret (SUCCESS, Resp s (encrypted_elements response ++ parse_response body))
    | None => Ret (FAIL, Resp (Setup (bits setup_info) (structure (server_setup response))) (encrypted_elements response))
    end.

Definition SendPSIRequestAndWaitResponse (rq : request) (response : PsiResponse) : act (retcode * PsiResponse) :=
  check_stopped (FAIL, response) (
    ret ← link_send (PeerNode o) (ser_request rq);
    if decide (ret <> SUCCESS) then Done (Ret (FAIL, response))
    else
      '(ret, data) ← link_recv (proxy_node o);
      if bool_decide (ret <> SUCCESS) || bool_decide (data = []) then Done (Ret (FAIL, response))
      else lift (ParsePsiResponseFromeString data response)).

Definition GetIntersection (origin_data : list str) (client : client_key) (response : PsiResponse) (result : list str) :
    res (retcode * list str) :=
  if stop_ then Ret (FAIL, result)
  else
    match copy_setup (server_setup response) with
    | None => Ret (FAIL, result)
    | Some setup =>
        intersection ← LibIntersection client setup (encrypted_elements response);
        if decide (psi_result_type o = DIFFERENCE) then Ret (SUCCESS, result ++ difference_rows origin_data intersection)
        else rows ← select_rows origin_data intersection; Ret (SUCCESS, result ++ rows)
    end.

Definition ExecuteAsClient (sd : seed) (input result : list str) : act (retcode * list str) :=
  check_stopped (FAIL, result) (
    let '(_, init_param_str) := BuildInitParam (Z.of_nat (length input)) in
    ret ← SendInitParam init_param_str;
    if decide (ret <> SUCCESS) then Done (Ret (FAIL, result))
    else
      client ← lift (NewClient sd reveal_intersection_);
      client_request ← lift (CreateRequest client input);
      '(ret, task_response) ← SendPSIRequestAndWaitResponse client_request empty_response;
      if decide (ret <> SUCCESS) then Done (Ret (FAIL, result))
      else
        '(ret, result) ← lift (GetIntersection input client task_response result);
        if decide (ret <> SUCCESS) then Done (Ret (FAIL, result)) else Done (Ret (SUCCESS, result))).

Definition InitRequest : act (retcode * option request) :=
  check_stopped (FAIL, None) (
    '(ret, request_str) ← link_recv (proxy_node o);
    if decide (ret <> SUCCESS) then Done (Ret (FAIL, None))
    else Done (Ret (SUCCESS, Some (parse_request request_str)))).

Definition response_text (psi_response : list str) (setup_info : ServerSetup) : str :=
  frame (ser_response psi_response) ++ frame (ser_setup setup_info).

Definition PreparePSIResponse (psi_response : list str) (setup_info : ServerSetup) : act retcode :=
  check_stopped FAIL (
    ret ← link_send (PeerNode o) (response_text psi_response setup_info);
    if decide (ret <> SUCCESS) then Done (Ret FAIL) else Done (Ret SUCCESS)).

(** The client's element count (as [size_t]) and its reveal flag. *)
Definition RecvInitParam : act (retcode * (Z * bool)) :=
  check_stopped (FAIL, (0, false)) (
    '(ret, init_param_str) ← link_recv (proxy_node o);
    if decide (ret <> SUCCESS) then Done (Ret (FAIL, (0, false)))
    else
      let parm_map := parse_params init_param_str in
      match parm_map !! dataset_size with
      | None => Done (Ret (FAIL, (0, false)))
      | Some p =>
          let size := get_int64 p mod W64 in
          match parm_map !! reveal_intersection with
          | None => Done (Ret (FAIL, (size, false)))
          | Some p => Done (Ret (SUCCESS, (size, 0 <? get_int32 p)))
          end
      end).

Definition ExecuteAsServer (sd : seed) (input : list str) : act retcode :=
  check_stopped FAIL (
    '(ret, (num_client_elements, reveal_flag)) ← RecvInitParam;
    if decide (ret <> SUCCESS) then Done (Ret FAIL)
    else
      server ← lift (NewServer sd reveal_flag);
      setup ← lift (CreateSetupMessage server fpr_ num_client_elements input);
      '(ret, psi_request) ← InitRequest;
      if decide (ret <> SUCCESS) then Done (Ret FAIL)
      else
        rq ← lift (or_undef psi_request);
        server_response ← lift (ProcessRequest server rq);
        _ ← PreparePSIResponse server_response setup;
        Done (Ret SUCCESS)).

Definition OnExecute (sd : seed) (input result : list str) : act (retcode * list str) :=
  if decide (input = []) then Done (Ret (FAIL, result))
  else if IsClient (self_party o) then ExecuteAsClient sd input result
  else if IsServer (self_party o) then ret ← ExecuteAsServer sd input; Done (Ret (ret, result))
  else Done (Ret (FAIL, result)).
End Ecdh.

(** ** Selecting rows *)

(** The positions of [xs] that satisfy [f]. *)
Definition positions (f : str -> bool) (xs : list str) : list Z :=
  Z.of_nat <$> (fst <$> filter (fun p : nat * str => f (p.2) = true) (zip (seq 0 (length xs)) xs)).

Definition in_range (input : list str) (i : Z) : Prop := 0 <= i < Z.of_nat (length input).

Definition row (input : list str) (i : Z) : str := default [] (input !! Z.to_nat i).

Lemma select_rows_ok input idx : Forall (in_range input) idx -> select_rows input idx = Ret (row input <$> idx).
Proof.
  induction 1 as [|i idx Hi _ IH]; [done|]. cbn [select_rows]. destruct Hi as [H0 Hi].
  rewrite (proj2 (Z.leb_le 0 i) H0). destruct (lookup_lt_is_Some_2 input (Z.to_nat i)) as [x Hx]; [lia|].
  rewrite Hx. cbn [or_undef mbind res_bind]. rewrite IH. cbn. unfold row. by rewrite Hx.
Qed.

Lemma zip_seq_lookup {A} (xs : list A) n i x : (i, x) ∈ zip (seq n (length xs)) xs <-> (n <= i)%nat /\ xs !! (i - n)%nat = Some x.
Proof.
  revert n. induction xs as [|y xs IH]; intros n; simpl; [set_solver|]. rewrite elem_of_cons, IH. split.
  - intros [[= -> ->]|[Hle Hl]]; [split; [lia|by rewrite Nat.sub_diag]|]. split; [lia|].
    replace (i - n)%nat with (S (i - S n)) by lia. done.
  - intros [Hle Hl]. destruct (decide (i = n)) as [->|Hne]; [left; rewrite Nat.sub_diag in Hl; simpl in Hl; congruence|].
    right. split; [lia|]. by replace (i - n)%nat with (S (i - S n)) in Hl by lia.
Qed.

Lemma elem_of_positions f xs i : i ∈ positions f xs <-> exists x, 0 <= i /\ xs !! Z.to_nat i = Some x /\ f x = true.
Proof.
  unfold positions. rewrite <- list_fmap_compose, list_elem_of_fmap. split.
  - intros ([j x] & -> & Hin). apply list_elem_of_filter in Hin as [Hf Hin]. apply zip_seq_lookup in Hin as [_ Hl].
    exists x. simpl in *. rewrite Nat2Z.id. rewrite Nat.sub_0_r in Hl. split_and!; [lia|done..].
  - intros (x & H0 & Hl & Hf). exists (Z.to_nat i, x). simpl. split; [lia|]. apply list_elem_of_filter. split; [done|].
    apply zip_seq_lookup. rewrite Nat.sub_0_r. split; [lia|done].
Qed.

Lemma positions_range f xs : Forall (in_range xs) (positions f xs).
Proof.
  apply Forall_forall. intros i (x & H0 & Hl & _)%elem_of_positions. apply lookup_lt_Some in Hl. unfold in_range. lia.
Qed.

Lemma sublist_fmap {A B} (g : A -> B) l k : l `sublist_of` k -> g <$> l `sublist_of` g <$> k.
Proof. induction 1; cbn [fmap list_fmap]; by constructor. Qed.

Lemma positions_NoDup f xs : NoDup (positions f xs).
Proof.
  unfold positions. apply NoDup_fmap_2; [apply _|].
  assert (Hsub : (filter (fun p : nat * str => f (p.2) = true) (zip (seq 0 (length xs)) xs)).*1 `sublist_of` (zip (seq 0 (length xs)) xs).*1)
    by (apply sublist_fmap, sublist_filter).
  eapply sublist_NoDup; [|exact Hsub]. rewrite fst_zip by (by rewrite length_seq). apply NoDup_seq.
Qed.

Lemma select_positions_from (f : str -> bool) xs pre :
  (row (pre ++ xs) <$> (Z.of_nat <$> (fst <$> filter (fun p : nat * str => f (p.2) = true) (zip (seq (length pre) (length xs)) xs))))
    = filter (fun x => f x = true) xs.
Proof.
  revert pre. induction xs as [|x xs IH]; intros pre; [done|]. cbn [length seq zip zip_with].
  specialize (IH (pre ++ [x])). rewrite length_app, <- app_assoc in IH. simpl length in IH.
  replace (length pre + 1)%nat with (S (length pre)) in IH by lia. cbn [app] in IH.
  rewrite (filter_cons (fun p : nat * str => f (p.2) = true)), (filter_cons (fun x => f x = true)). cbn [snd]. case_decide; [|done].
  rewrite !fmap_cons, IH. f_equal. unfold row. cbn [fst]. rewrite Nat2Z.id, lookup_app_r by lia.
  by rewrite Nat.sub_diag.
Qed.

(** Taking the rows at the positions that satisfy [f] filters by [f]. *)
Lemma select_positions f xs : row xs <$> positions f xs = filter (fun x => f x = true) xs.
Proof. exact (select_positions_from f xs []). Qed.

Lemma difference_positions_from (f : str -> bool) (idx : list Z) xs n :
  (forall i x, xs !! i = Some x -> Z.of_nat (n + i) ∈ idx <-> f x = true) ->
  (snd <$> filter (fun p : nat * str => Z.of_nat (p.1) ∉ idx) (zip (seq n (length xs)) xs)) = filter (fun x => f x = false) xs.
Proof.
  revert n. induction xs as [|x xs IH]; intros n Hf; [done|]. cbn [length seq zip zip_with].
  rewrite (filter_cons (fun p : nat * str => Z.of_nat (p.1) ∉ idx)), (filter_cons (fun x => f x = false)). cbn [fst].
  assert (Hx := Hf O x eq_refl). rewrite Nat.add_0_r in Hx.
  assert (HIH : (snd <$> filter (fun p : nat * str => Z.of_nat (p.1) ∉ idx) (zip (seq (S n) (length xs)) xs)) = filter (fun x => f x = false) xs).
  { apply IH. intros i y Hy. rewrite Nat.add_succ_l, <- Nat.add_succ_r. by apply Hf. }
  repeat case_decide; try (rewrite fmap_cons); rewrite ?HIH; try done; exfalso; destruct (f x); naive_solver.
Qed.

(** Dropping the rows at those positions keeps the others, in order. *)
Lemma difference_positions f idx xs : idx ≡ₚ positions f xs -> difference_rows xs idx = filter (fun x => f x = false) xs.
Proof.
  intros Hp. apply difference_positions_from. intros i x Hx. rewrite Hp, elem_of_positions. split.
  - intros (y & _ & Hy & Hf). rewrite Nat2Z.id in Hy. simpl in Hy. congruence.
  - intros Hf. exists x. rewrite Nat2Z.id. split_and!; [lia|done..].
Qed.

(** ** The parallel extraction *)

Definition copy_write (input : list str) (idx : list Z) (j : nat) : wr str :=
  (j, fun _ => default [] (row input <$> idx !! j)).

Lemma block_task_ok input idx first n : Forall (in_range input) idx -> (first + n <= length idx)%nat ->
  exists t, block_task input idx first n = Ret t /\ t.*1 = seq first n /\
    (forall w, w ∈ t -> forall x, w.2 x = (copy_write input idx (w.1)).2 x).
Proof.
  intros HF. revert first. induction n as [|n IH]; intros first Hn; [exists []; split_and!; [done..|]; set_solver|].
  destruct (IH (S first) ltac:(lia)) as (t & Et & Ht1 & Ht2). unfold block_task in *. cbn [seq foldr].
  destruct (lookup_lt_is_Some_2 idx first) as [pos Hpos]; [lia|]. rewrite Hpos. cbn [or_undef mbind res_bind].
  assert (Hr := proj1 (Forall_lookup _ _) HF _ _ Hpos). destruct Hr as [H0 H1].
  rewrite (proj2 (Z.leb_le 0 pos) H0). destruct (lookup_lt_is_Some_2 input (Z.to_nat pos)) as [x Hx]; [lia|].
  rewrite Hx. cbn [or_undef mbind res_bind]. rewrite Et. cbn [mbind res_bind].
  eexists. split_and!; [reflexivity|cbn [fmap list_fmap fst]; by rewrite <- Ht1|].
  intros w [->|Hw]%elem_of_cons y; [|by apply Ht2]. cbn. rewrite Hpos. cbn. unfold row. by rewrite Hx.
Qed.

Lemma blocks_seq size n : 0 < size -> 0 <= n ->
  concat ((fun b : nat * nat => seq (b.1) (b.2)) <$> blocks size n) = seq 0 (Z.to_nat n) /\
  Forall (fun b : nat * nat => (b.1 + b.2 <= Z.to_nat n)%nat) (blocks size n).
Proof.
  intros Hs Hn. assert (Hdm := Z.div_mod n size ltac:(lia)). assert (Hm := Z.mod_pos_bound n size Hs).
  assert (Hq := Z.div_pos n size Hn Hs). set (q := n / size) in *. set (r := n mod size) in *.
  assert (Hfull : forall k, 0 <= k -> concat ((fun b : nat * nat => seq (b.1) (b.2)) <$> ((fun i => (Z.to_nat (i * size), Z.to_nat size)) <$> seqZ 0 k)) = seq 0 (Z.to_nat (k * size))).
  { intros k Hk. pattern k. apply natlike_ind; [done| |done]. clear k Hk. intros k Hk IH.
    rewrite <- Z.add_1_r. rewrite seqZ_app by lia. rewrite !fmap_app, concat_app, IH. rewrite seqZ_cons by lia. rewrite (seqZ_nil _ (Z.pred 1)) by lia.
    cbn [fmap list_fmap concat fst snd]. rewrite app_nil_r. replace (Z.to_nat ((k + 1) * size)) with (Z.to_nat (k * size) + Z.to_nat size)%nat by nia.
    rewrite seq_app. f_equal; f_equal; lia. }
  unfold blocks. fold q r. split.
  - rewrite fmap_app, concat_app, Hfull by done. case_decide as Hr; cbn [fmap list_fmap concat fst snd].
    + rewrite app_nil_r. replace (Z.to_nat n) with (Z.to_nat (q * size) + Z.to_nat r)%nat by nia. by rewrite seq_app.
    + rewrite app_nil_r. do 2 f_equal. lia.
  - apply Forall_app. split.
    + apply Forall_fmap, Forall_forall. intros i Hi. apply elem_of_seqZ in Hi. simpl. nia.
    + case_decide; [|by constructor]. constructor; [simpl; nia|by constructor].
Qed.

Lemma block_tasks_ok input idx bs : Forall (in_range input) idx ->
  Forall (fun b : nat * nat => (b.1 + b.2 <= length idx)%nat) bs ->
  exists ts, block_tasks input idx bs = Ret ts /\ (concat ts).*1 = concat ((fun b : nat * nat => seq (b.1) (b.2)) <$> bs) /\
    (forall w, w ∈ concat ts -> forall x, w.2 x = (copy_write input idx (w.1)).2 x).
Proof.
  intros HF. induction 1 as [|[first n] bs Hb _ IH]; [exists []; split_and!; [done..|]; simpl; set_solver|].
  destruct (block_task_ok input idx first n HF Hb) as (t & Et & Ht1 & Ht2). destruct IH as (ts & Ets & Hs1 & Hs2).
  cbn [block_tasks]. rewrite Et. cbn [mbind res_bind]. rewrite Ets. cbn [mbind res_bind]. eexists. split_and!; [reflexivity|..].
  - cbn [concat fmap list_fmap fst snd]. rewrite fmap_app, Ht1. f_equal. exact Hs1.
  - cbn [concat]. intros w [Hw|Hw]%elem_of_app; [by apply Ht2|by apply Hs2].
Qed.

(** The extraction with blocks of any size. *)
Lemma get_result_all size o input idx result : 0 < size -> Forall (in_range input) idx ->
  (exists r, GetResult size o input idx result r) /\
  forall r, GetResult size o input idx result r ->
    r = Ret (SUCCESS, if decide (psi_result_type o = DIFFERENCE) then result ++ difference_rows input idx else row input <$> idx).
Proof.
  intros Hsize HF. destruct (blocks_seq size (Z.of_nat (length idx)) Hsize ltac:(lia)) as [Hseq Hb]. rewrite Nat2Z.id in *.
  destruct (block_tasks_ok input idx _ HF Hb) as (ts & Ets & Hs1 & Hs2). rewrite Hseq in Hs1.
  assert (Hall : forall l, interleave ts l -> do_writes l (resize (length idx) [] result) = row input <$> idx).
  { intros l Hl. rewrite (schedule_irrelevant ts l) by (try done; rewrite Hs1; apply NoDup_seq).
    apply list_eq. intros j. destruct (decide (j < length idx)%nat) as [Hj|Hj].
    - assert (Hin : j ∈ (concat ts).*1) by (rewrite Hs1; apply elem_of_seq; lia).
      apply list_elem_of_fmap in Hin as ([j' f] & -> & Hin). cbn [fst].
      rewrite (do_writes_at _ _ j' f); [|rewrite Hs1; apply NoDup_seq|done].
      destruct (lookup_lt_is_Some_2 idx j' Hj) as [i Hi]. rewrite list_lookup_fmap, Hi. cbn [fmap option_fmap option_map].
      destruct (lookup_lt_is_Some_2 (resize (length idx) [] result) j') as [y Hy]; [by rewrite length_resize|].
      rewrite Hy. cbn [fmap option_fmap option_map]. rewrite (Hs2 _ Hin). cbn. by rewrite Hi.
    - rewrite !lookup_ge_None_2; [done|rewrite length_fmap; lia|rewrite do_writes_length, length_resize; lia]. }
  case_decide as Hd; (split; [|intros r Hr]).
  - eexists. by apply GetResult_difference.
  - by inversion Hr; subst.
  - eexists. apply (GetResult_intersection _ _ _ _ _ ts (concat ts)); [done..|apply interleave_seq].
  - inversion Hr as [|ts' l _ Ets' Hl|r' _ Eu]; subst; [done| |congruence]. rewrite Ets in Ets'. simplify_eq. by rewrite Hall.
Qed.

(** whatever the order in which the copying threads run, [GetResult] ends, with
    the rows at the intersection's positions in the order of the positions, or in
    difference mode with the other rows in their own order. *)
Theorem get_result_rows o input idx result : Forall (in_range input) idx ->
  (exists r, GetResult BLOCK_SIZE o input idx result r) /\
  forall r, GetResult BLOCK_SIZE o input idx result r ->
    r = Ret (SUCCESS, if decide (psi_result_type o = DIFFERENCE) then result ++ difference_rows input idx else row input <$> idx).
Proof. by apply get_result_all. Qed.

Lemma get_result_rows_witness :
  exists r, GetResult BLOCK_SIZE (Opts [] PARTY_CLIENT INTERSECTION default_node) [chars "a"; chars "b"] [1; 0] [] r.
Proof. apply (get_result_rows (Opts [] PARTY_CLIENT INTERSECTION default_node)). repeat constructor; simpl; lia. Defined.

(** ** The protocol between the two parties *)

(** What the libraries promise.  [matches sk n ys x] is the membership test of the
    setup message a server with key [sk] makes of [ys] for [n] client elements:
    it has no false negatives; false positives are allowed. *)
Class PsiLaws `{PsiLib} := {
  matches : server_key -> Z -> list str -> str -> bool;
  matches_complete sk n ys y : y ∈ ys -> matches sk n ys y = true;
  new_client sd : exists ck, NewClient sd true = Ret ck;
  new_server sd : exists sk, NewServer sd true = Ret sk;
  create_request sd ck xs : NewClient sd true = Ret ck -> xs <> [] ->
    exists rq, CreateRequest ck xs = Ret rq /\ ser_request rq <> [];
  create_setup sd sk n ys : NewServer sd true = Ret sk -> ys <> [] -> 0 < n ->
    exists setup, CreateSetupMessage sk fpr_ n ys = Ret setup /\ structure setup <> DATA_STRUCTURE_NOT_SET;
  process_request sd sk sd' ck xs rq : NewServer sd true = Ret sk -> NewClient sd' true = Ret ck -> CreateRequest ck xs = Ret rq ->
    exists resp, ProcessRequest sk rq = Ret resp;
  lib_intersection sd sk sd' ck xs ys n rq setup resp : NewServer sd true = Ret sk -> NewClient sd' true = Ret ck ->
    CreateRequest ck xs = Ret rq -> CreateSetupMessage sk fpr_ n ys = Ret setup -> ProcessRequest sk rq = Ret resp ->
    exists idx, LibIntersection ck setup resp = Ret idx /\ idx ≡ₚ positions (matches sk n ys) xs;
  parse_ser_request rq : parse_request (ser_request rq) = rq;
  parse_ser_response r : parse_response (ser_response r) = r;
  parse_ser_setup s : parse_setup (ser_setup s) = s;
  parse_ser_params p text : ser_params p = (true, text) -> parse_params text = p /\ (p <> ∅ -> text <> []);
  ser_params_small sz b : exists text, ser_params (<[reveal_intersection := PV (value_int32 b) false]> (<[dataset_size := PV (value_int64 sz) false]> ∅)) = (true, text)
}.

Lemma copy_setup_id s : structure s <> DATA_STRUCTURE_NOT_SET -> copy_setup s = Some s.
Proof. unfold copy_setup. destruct s as [b []]; simpl; done. Qed.

Lemma to_int32_id z : 0 <= z < 2 ^ 31 -> to_int32 z = z.
Proof. intros H. unfold to_int32. rewrite Z.mod_small; lia. Qed.

(** The client reads back the response and the setup the server framed. *)
Lemma parse_response_text `{PsiLaws} resp setup : structure setup <> DATA_STRUCTURE_NOT_SET ->
  Z.of_nat (length (ser_response resp)) < 2 ^ 31 -> Z.of_nat (length (ser_setup setup)) < 2 ^ 31 ->
  ParsePsiResponseFromeString false (response_text resp setup) empty_response = Ret (SUCCESS, Resp setup resp).
Proof.
  intros Hs H1 H2. unfold ParsePsiResponseFromeString, response_text.
  assert (Hw1 : Z.of_nat (length (ser_response resp)) < W64) by (unfold W64; lia).
  assert (Hw2 : Z.of_nat (length (ser_setup setup)) < W64) by (unfold W64; lia).
  destruct (read_frame [] (ser_response resp) (frame (ser_setup setup)) Hw1) as [E1 E2].
  destruct (read_frame (frame (ser_response resp)) (ser_setup setup) [] Hw2) as [E3 E4].
  rewrite frame_length in E3, E4. rewrite app_nil_r in E3, E4. cbn [app length] in E1, E2.
  change (Z.of_nat 0) with 0 in E1, E2. change (0 + 8) with 8 in E2. rewrite E1. cbn [mbind res_bind]. rewrite to_int32_id by lia. rewrite E2. cbn [mbind res_bind].
  rewrite E3. cbn [mbind res_bind]. rewrite to_int32_id by lia. rewrite E4. cbn [mbind res_bind].
  rewrite parse_ser_setup, parse_ser_response, copy_setup_id by done. done.
Qed.

(** The two parties' configurations: each finds the other under its name, reads
    where the other writes, and broadcasts to the other only. *)
Record ecdh_config (oc os : Options) (nc ns : Node) : Prop := {
  cfg_client : self_party oc = PARTY_CLIENT;
  cfg_server : self_party os = PARTY_SERVER;
  cfg_client_peer : PeerNode oc = ns;
  cfg_server_peer : PeerNode os = nc;
  cfg_client_proxy : proxy_node oc = nc;
  cfg_server_proxy : proxy_node os = ns;
  cfg_client_broadcast : BroadcastPartyList oc = [ns];
  cfg_differ : nc <> ns
}.

Section Protocol.
Context `{PsiLaws} (oc os : Options) (nc ns : Node) (Hcfg : ecdh_config oc os nc ns).

Lemma client_disciplined sd xs sync : disciplined (eq ns) (eq nc) (Execute oc (OnExecute false oc sd xs []) sync).
Proof using Hcfg.
  destruct Hcfg as [Hc _ Hp _ Hx _ Hb _]. unfold Execute, OnExecute, BroadcastPsiResult, BroadcastResult. rewrite Hc.
  unfold IgnoreResult, IsTeeCompute, IsClient. rewrite (bool_decide_eq_true_2 (PARTY_CLIENT = PARTY_CLIENT)) by done.
  unfold ExecuteAsClient, SendPSIRequestAndWaitResponse, check_stopped, SendInitParam, ReceiveResult. rewrite Hp, Hx, Hb.
  act_disciplined; done.
Qed.

Lemma server_disciplined sd ys sync : disciplined (eq nc) (eq ns) (Execute os (OnExecute false os sd ys []) sync).
Proof using Hcfg.
  destruct Hcfg as [_ Hc _ Hp _ Hx _ _]. unfold Execute, OnExecute, BroadcastPsiResult. rewrite Hc.
  unfold IgnoreResult, IsTeeCompute, IsClient, IsServer. rewrite (bool_decide_eq_false_2 (PARTY_SERVER = PARTY_CLIENT)) by done.
  rewrite (bool_decide_eq_true_2 (PARTY_SERVER = PARTY_SERVER)) by done.
  unfold ExecuteAsServer, RecvInitParam, InitRequest, PreparePSIResponse, check_stopped, ReceiveResult. rewrite Hp, Hx.
  act_disciplined; done.
Qed.

(** What the client ends with, given the library's positions. *)
Definition psi_rows (o : Options) (xs : list str) (idx : list Z) : list str :=
  if decide (psi_result_type o = DIFFERENCE) then difference_rows xs idx else row xs <$> idx.

(** The server reads the count and the flag the client wrote. *)
Lemma init_param_ok n : exists init, BuildInitParam false n = (SUCCESS, init) /\ init <> [] /\
  parse_params init !! dataset_size = Some (PV (value_int64 n) false) /\
  parse_params init !! reveal_intersection = Some (PV (value_int32 1) false).
Proof using H0.
  destruct (ser_params_small n 1) as [text Ht]. exists text. unfold BuildInitParam.
  change (if reveal_intersection_ then 1 else 0) with 1. cbv zeta. rewrite Ht.
  destruct (parse_ser_params _ _ Ht) as [-> Hne]. split_and!; [done|apply Hne, insert_non_empty| |by rewrite lookup_insert_eq].
  rewrite lookup_insert_ne by done. by rewrite lookup_insert_eq.
Qed.

(** The broadcast hands the client's rows to the server. *)
Lemma broadcast_run R m : Forall (fun x => Z.of_nat (length x) < W64) R -> mailbox m ns = [] ->
  run 2 (Sys (BroadcastPsiResult oc R) (BroadcastPsiResult os []) m)
    (Sys (Done (Ret (SUCCESS, R))) (Done (Ret (SUCCESS, R))) (<[ns := []]> (<[ns := [encode_result R]]> m))).
Proof using Hcfg.
  intros HR Hm. destruct Hcfg as [Hc Hs _ _ _ Hxs Hb _].
  unfold BroadcastPsiResult, BroadcastResult, ReceiveResult. rewrite Hc, Hs, Hb, Hxs.
  change (IgnoreResult PARTY_CLIENT) with false. change (IgnoreResult PARTY_SERVER) with false.
  change (IsClient PARTY_CLIENT) with true. change (IsClient PARTY_SERVER) with false. cbn iota. cbn [send_all]. act_go.
  eapply run_post0. act_go. rewrite Hm. cbn [app]. eapply run_fetch1; [apply mailbox_eq|].
  destruct (decide (encode_result R = [])) as [E|E].
  - rewrite (bool_decide_eq_false_2 (encode_result R <> [])) by naive_solver. rewrite andb_false_r. act_go.
    rewrite decode_encode by done. act_go. constructor.
  - rewrite (bool_decide_eq_false_2 (SUCCESS <> SUCCESS)) by naive_solver. cbn [andb]. act_go.
    rewrite decode_encode by done. act_go. constructor.
Qed.

Lemma finish_run (sync : bool) R m : Forall (fun x => Z.of_nat (length x) < W64) R -> mailbox m ns = [] ->
  run (if sync then 2 else 0)%nat
    (Sys (if sync then BroadcastPsiResult oc R else Done (Ret (SUCCESS, R)))
         (if sync then BroadcastPsiResult os [] else Done (Ret (SUCCESS, []))) m)
    (Sys (Done (Ret (SUCCESS, R))) (Done (Ret (SUCCESS, if sync then R else [])))
         (if sync then <[ns := []]> (<[ns := [encode_result R]]> m) else m)).
Proof using Hcfg. intros HR Hm. destruct sync; [by apply broadcast_run|constructor]. Qed.

(** The schedule client, server, client, server reaches the end. *)
Lemma ecdh_run sdc sds (xs ys : list str) (sync : bool) ck sk rq setup resp idx :
  xs <> [] -> ys <> [] -> Z.of_nat (length xs) < W64 ->
  NewClient sdc true = Ret ck -> NewServer sds true = Ret sk -> CreateRequest ck xs = Ret rq -> ser_request rq <> [] ->
  CreateSetupMessage sk fpr_ (Z.of_nat (length xs)) ys = Ret setup -> structure setup <> DATA_STRUCTURE_NOT_SET ->
  ProcessRequest sk rq = Ret resp -> LibIntersection ck setup resp = Ret idx -> Forall (in_range xs) idx ->
  Z.of_nat (length (ser_response resp)) < 2 ^ 31 -> Z.of_nat (length (ser_setup setup)) < 2 ^ 31 ->
  Forall (fun x => Z.of_nat (length x) < W64) (psi_rows oc xs idx) ->
  exists m, run (6 + if sync then 2 else 0)%nat
    (Sys (Execute oc (OnExecute false oc sdc xs []) sync) (Execute os (OnExecute false os sds ys []) sync) ∅)
    (Sys (Done (Ret (SUCCESS, psi_rows oc xs idx))) (Done (Ret (SUCCESS, if sync then psi_rows oc xs idx else []))) m).
Proof using Hcfg H0.
  intros Hx Hy Hlen Eck Esk Erq Hrq Esetup Hsetup Eresp Eidx Hidx Hl1 Hl2 Hrows.
  destruct Hcfg as [Hc Hs Hpc Hps Hxc Hxs Hb Hne]. destruct (init_param_ok (Z.of_nat (length xs))) as (init & Einit & Hinit & Ep1 & Ep2).
  unfold Execute, OnExecute. rewrite !decide_False by done. rewrite Hc, Hs.
  change (IsClient PARTY_CLIENT) with true. change (IsClient PARTY_SERVER) with false. change (IsServer PARTY_SERVER) with true. cbn iota.
  unfold ExecuteAsClient, ExecuteAsServer, RecvInitParam, InitRequest, PreparePSIResponse, SendPSIRequestAndWaitResponse, SendInitParam, check_stopped.
  rewrite Einit, Hpc, Hps, Hxc, Hxs. act_go. change reveal_intersection_ with true.
  eexists. cbn [Nat.add]. eapply run_post0. act_go. rewrite Eck. act_go. rewrite Erq. act_go.
  eapply run_post0. act_go. set (m2 := <[ns := _]> (<[ns := _]> ∅)).
  assert (Hm2 : mailbox m2 ns = [init; ser_request rq]) by (unfold m2; by rewrite !mailbox_eq).
  assert (Hm2' : mailbox m2 nc = []) by (unfold m2; by rewrite !mailbox_ne).
  eapply run_fetch1; [exact Hm2|]. rewrite (decide_False (P := init = [])) by done. act_go. rewrite Ep1, Ep2. act_go.
  change (get_int64 (PV (value_int64 (Z.of_nat (length xs))) false)) with (Z.of_nat (length xs)). rewrite Z.mod_small by lia.
  change (0 <? get_int32 (PV (value_int32 1) false)) with true. rewrite Esk. act_go. rewrite Esetup. act_go.
  eapply run_fetch1; [apply mailbox_eq|]. rewrite (decide_False (P := ser_request rq = [])) by done. act_go.
  cbn [or_undef]. rewrite parse_ser_request, Eresp. act_go.
  eapply run_post1. act_go. rewrite !mailbox_ne, Hm2' by done. cbn [app].
  eapply run_fetch0; [apply mailbox_eq|].
  assert (Htext : response_text resp setup <> []) by (intros E; apply (f_equal length) in E; unfold response_text in E; rewrite length_app in E; by inversion E).
  rewrite (decide_False (P := response_text resp setup = [])) by done. rewrite bool_decide_eq_false_2 by naive_solver.
  rewrite bool_decide_eq_false_2 by done. cbn [orb]. act_go. rewrite parse_response_text by done. act_go.
  unfold GetIntersection. cbn [server_setup encrypted_elements]. rewrite copy_setup_id by done. rewrite Eidx. cbn [mbind res_bind].
  assert (Hrow : (if decide (psi_result_type oc = DIFFERENCE) then Ret (SUCCESS, [] ++ difference_rows xs idx)
    else select_rows xs idx ≫= (fun rows => Ret (SUCCESS, [] ++ rows))) = Ret (SUCCESS, psi_rows oc xs idx)).
  { unfold psi_rows. case_decide; [done|]. by rewrite select_rows_ok. }
  rewrite Hrow. act_go. apply finish_run; [done|].
  by rewrite !mailbox_ne, mailbox_eq by done.
Qed.

Lemma psi_rows_spec (f : str -> bool) xs idx : idx ≡ₚ positions f xs ->
  if decide (psi_result_type oc = DIFFERENCE) then psi_rows oc xs idx = filter (fun x => f x = false) xs
  else psi_rows oc xs idx ≡ₚ filter (fun x => f x = true) xs.
Proof.
  intros Hp. unfold psi_rows. case_decide; [by apply difference_positions|]. rewrite Hp. by rewrite select_positions.
Qed.

(** One schedule of the protocol, from the laws. *)
Lemma ecdh_outcome sdc sds (xs ys : list str) (sync : bool) :
  xs <> [] -> ys <> [] -> Z.of_nat (length xs) < W64 -> Forall (fun x => Z.of_nat (length x) < W64) xs ->
  (forall ck sk rq resp, NewClient sdc true = Ret ck -> CreateRequest ck xs = Ret rq -> NewServer sds true = Ret sk ->
    ProcessRequest sk rq = Ret resp -> Z.of_nat (length (ser_response resp)) < 2 ^ 31) ->
  (forall sk setup, NewServer sds true = Ret sk -> CreateSetupMessage sk fpr_ (Z.of_nat (length xs)) ys = Ret setup -> Z.of_nat (length (ser_setup setup)) < 2 ^ 31) ->
  exists sk R m, NewServer sds true = Ret sk /\
    run (6 + if sync then 2 else 0)%nat
      (Sys (Execute oc (OnExecute false oc sdc xs []) sync) (Execute os (OnExecute false os sds ys []) sync) ∅)
      (Sys (Done (Ret (SUCCESS, R))) (Done (Ret (SUCCESS, if sync then R else []))) m) /\
    if decide (psi_result_type oc = DIFFERENCE) then R = filter (fun x => matches sk (Z.of_nat (length xs)) ys x = false) xs
    else R ≡ₚ filter (fun x => matches sk (Z.of_nat (length xs)) ys x = true) xs.
Proof using Hcfg H0.
  intros Hx Hy Hlen Hrows Hl1 Hl2. destruct (new_client sdc) as [ck Eck]. destruct (new_server sds) as [sk Esk].
  destruct (create_request sdc ck xs Eck Hx) as (rq & Erq & Hrq).
  destruct (create_setup sds sk (Z.of_nat (length xs)) ys Esk Hy) as (setup & Esetup & Hsetup); [destruct xs; simpl; [done|lia]|].
  destruct (process_request sds sk sdc ck xs rq) as [resp Eresp]; [done..|].
  destruct (lib_intersection sds sk sdc ck xs ys (Z.of_nat (length xs)) rq setup resp) as (idx & Eidx & Hidx); [done..|].
  assert (Hr : Forall (in_range xs) idx) by (rewrite Hidx; apply positions_range).
  assert (Hspec := psi_rows_spec _ xs idx Hidx).
  assert (Hlens : Forall (fun x => Z.of_nat (length x) < W64) (psi_rows oc xs idx)).
  { rewrite Forall_forall in *. intros x Hin. apply Hrows. case_decide; [rewrite Hspec in Hin|rewrite Hspec in Hin];
      by apply list_elem_of_filter in Hin as [_ ?]. }
  destruct (ecdh_run sdc sds xs ys sync ck sk rq setup resp idx) as [m Hm]; try done; [by eapply Hl1|by eapply Hl2|].
  by exists sk, (psi_rows oc xs idx), m.
Qed.

(** C3: the ECDH protocol is right under every schedule.  With non-empty inputs
    whose rows and messages have representable sizes, every interleaving of the
    two parties' executions ends, both parties reporting success; the client ends
    with the rows that match the server's setup message for its own number of
    rows (every common row is among them), or in difference mode with the other
    rows in order, and with the synchronisation flag the server ends with the
    same list, otherwise with none. *)
Theorem ecdh_psi_correct sdc sds (xs ys : list str) (sync : bool) :
  xs <> [] -> ys <> [] -> Z.of_nat (length xs) < W64 -> Forall (fun x => Z.of_nat (length x) < W64) xs ->
  (forall ck sk rq resp, NewClient sdc true = Ret ck -> CreateRequest ck xs = Ret rq -> NewServer sds true = Ret sk ->
    ProcessRequest sk rq = Ret resp -> Z.of_nat (length (ser_response resp)) < 2 ^ 31) ->
  (forall sk setup, NewServer sds true = Ret sk -> CreateSetupMessage sk fpr_ (Z.of_nat (length xs)) ys = Ret setup -> Z.of_nat (length (ser_setup setup)) < 2 ^ 31) ->
  exists sk R m, NewServer sds true = Ret sk /\
    inevitable (6 + if sync then 2 else 0)%nat
      (Sys (Execute oc (OnExecute false oc sdc xs []) sync) (Execute os (OnExecute false os sds ys []) sync) ∅)
      (Sys (Done (Ret (SUCCESS, R))) (Done (Ret (SUCCESS, if sync then R else []))) m) /\
    (forall x, x ∈ xs -> x ∈ ys -> matches sk (Z.of_nat (length xs)) ys x = true) /\
    if decide (psi_result_type oc = DIFFERENCE) then R = filter (fun x => matches sk (Z.of_nat (length xs)) ys x = false) xs
    else R ≡ₚ filter (fun x => matches sk (Z.of_nat (length xs)) ys x = true) xs.
Proof using Hcfg H0.
  intros Hx Hy Hlen Hrows Hl1 Hl2.
  destruct (ecdh_outcome sdc sds xs ys sync) as (sk & R & m & Esk & Hrun & HR); [done..|].
  exists sk, R, m. split_and!; [done| |intros x _; apply matches_complete|done].
  apply (one_run_decides (eq nc) (eq ns)); [|done|apply stuck_done].
  split_and!; [apply apart_eq, Hcfg|apply client_disciplined|apply server_disciplined].
Qed.
End Protocol.

(** ** A library that satisfies the laws

    No secrecy, exact membership: requests carry the rows themselves and the
    setup's bits spell the server's rows. *)

Fixpoint pos_text (p : positive) : str :=
  match p with xH => chars "1" | xO p => "0"%char :: pos_text p | xI p => "1"%char :: pos_text p end.

Fixpoint text_pos (s : str) : positive :=
  match s with
  | [] | [_] => xH
  | c :: s => if decide (c = "0"%char) then xO (text_pos s) else xI (text_pos s)
  end.

Lemma pos_text_ne p : pos_text p <> [].
Proof. by destruct p. Qed.

Lemma text_pos_text p : text_pos (pos_text p) = p.
Proof.
  induction p as [p IH|p IH|]; [| |done]; cbn [pos_text]; assert (Hn := pos_text_ne p);
    destruct (pos_text p) as [|c s]; try done; cbn [text_pos] in *; by rewrite IH.
Qed.

Definition plain_text {A} `{Countable A} (a : A) : str := pos_text (encode a).
Definition plain_read {A} `{Countable A} (d : A) (s : str) : A := default d (decode (text_pos s)).

Lemma plain_read_text {A} `{Countable A} (d a : A) : plain_read d (plain_text a) = a.
Proof. unfold plain_read, plain_text. by rewrite text_pos_text, countable.decode_encode. Qed.

#[export] Instance data_structure_countable : Countable data_structure.
Proof.
  refine (inj_countable' (fun d => match d with kGcs a b => inl (inl (a, b)) | kBloomFilter n => inl (inr n) | DATA_STRUCTURE_NOT_SET => inr tt end)
    (fun s => match s with inl (inl (a, b)) => kGcs a b | inl (inr n) => kBloomFilter n | inr tt => DATA_STRUCTURE_NOT_SET end) _).
  by intros [].
Defined.
#[export] Instance ServerSetup_countable : Countable ServerSetup.
Proof. refine (inj_countable' (fun s => (bits s, structure s)) (fun '(b, d) => Setup b d) _). by intros []. Defined.
#[export] Instance spec_float_countable : Countable double.
Proof.
  refine (inj_countable' (fun d => match d with S754_zero b => inl (inl b) | S754_infinity b => inl (inr b) | S754_nan => inr (inl tt)
      | S754_finite b m e => inr (inr (b, m, e)) end)
    (fun s => match s with inl (inl b) => S754_zero b | inl (inr b) => S754_infinity b | inr (inl tt) => S754_nan
      | inr (inr (b, m, e)) => S754_finite b m e end) _).
  by intros [].
Defined.
(** Numbers, texts and flags of a value, and which member they are. *)
#[export] Instance pvalue_countable : Countable pvalue.
Proof.
  refine (inj_countable' (fun v => match v with
      | value_int32 z => (0%nat, [z], [], [], []) | value_int64 z => (1%nat, [z], [], [], []) | value_string s => (2%nat, [], [s], [], [])
      | value_int32_array l => (3%nat, l, [], [], []) | value_string_array l => (4%nat, [], l, [], []) | value_int64_array l => (5%nat, l, [], [], [])
      | value_float d => (6%nat, [], [], [d], []) | value_float_array l => (7%nat, [], [], l, []) | value_double d => (8%nat, [], [], [d], [])
      | value_double_array l => (9%nat, [], [], l, []) | value_bool b => (10%nat, [], [], [], [b]) | value_bool_array l => (11%nat, [], [], [], l)
      | value_other => (12%nat, [], [], [], []) end)
    (fun c => match c with
      | (0%nat, [z], _, _, _) => value_int32 z | (1%nat, [z], _, _, _) => value_int64 z | (2%nat, _, [s], _, _) => value_string s
      | (3%nat, l, _, _, _) => value_int32_array l | (4%nat, _, l, _, _) => value_string_array l | (5%nat, l, _, _, _) => value_int64_array l
      | (6%nat, _, _, [d], _) => value_float d | (7%nat, _, _, l, _) => value_float_array l | (8%nat, _, _, [d], _) => value_double d
      | (9%nat, _, _, l, _) => value_double_array l | (10%nat, _, _, _, [b]) => value_bool b | (11%nat, _, _, _, l) => value_bool_array l
      | _ => value_other end) _).
  by intros [].
Defined.
#[export] Instance ParamValue_countable : Countable ParamValue.
Proof. refine (inj_countable' (fun p => (value p, is_array p)) (fun '(v, a) => PV v a) _). by intros []. Defined.

Definition plain_lib : PsiLib := {|
  seed := unit; client_key := unit; server_key := unit; request := list str;
  NewClient _ _ := Ret tt; NewServer _ _ := Ret tt;
  CreateRequest _ xs := Ret xs;
  CreateSetupMessage _ _ _ ys := Ret (Setup (plain_text ys) (kBloomFilter 1));
  ProcessRequest _ rq := Ret rq;
  LibIntersection _ setup resp := Ret (positions (fun x => bool_decide (x ∈ plain_read (A := list str) [] (bits setup))) resp);
  ser_request := plain_text; parse_request := plain_read [];
  ser_response := plain_text; parse_response := plain_read [];
  ser_setup := plain_text; parse_setup := plain_read (Setup [] DATA_STRUCTURE_NOT_SET);
  ser_params p := (true, plain_text p); parse_params := plain_read ∅
|}.

Lemma plain_laws : @PsiLaws plain_lib.
Proof.
  refine (@Build_PsiLaws plain_lib (fun _ _ ys x => bool_decide (x ∈ ys)) _ _ _ _ _ _ _ _ _ _ _ _); cbn.
  - intros _ _ ys y Hy. by apply bool_decide_eq_true_2.
  - by exists tt.
  - by exists tt.
  - intros _ _ xs _ _. exists xs. split; [done|apply pos_text_ne].
  - intros _ _ n ys _ _ _. eexists. split; [reflexivity|done].
  - intros. by eexists.
  - intros _ _ _ _ xs ys n rq setup resp _ _ [= <-] [= <-] [= <-]. eexists. split; [reflexivity|].
    cbn [bits]. by rewrite plain_read_text.
  - intros. apply plain_read_text.
  - intros. apply plain_read_text.
  - intros. apply plain_read_text.
  - intros p text [= <-]. split; [apply plain_read_text|intros _; apply pos_text_ne].
  - intros. by eexists.
Defined.

Definition psi_client_node : Node := Nd (chars "node0") (chars "10.0.0.1") 50050 false (chars "default").
Definition psi_server_node : Node := Nd (chars "node1") (chars "10.0.0.2") 50051 false (chars "default").
Definition psi_parties : list (str * Node) := [(PARTY_CLIENT, psi_client_node); (PARTY_SERVER, psi_server_node)].
Definition psi_client_options : Options := Opts psi_parties PARTY_CLIENT INTERSECTION psi_client_node.
Definition psi_server_options : Options := Opts psi_parties PARTY_SERVER INTERSECTION psi_server_node.

Lemma psi_sample_config : ecdh_config psi_client_options psi_server_options psi_client_node psi_server_node.
Proof. split; vm_compute; done. Qed.

Lemma ecdh_psi_correct_witness :
  exists (sk : @server_key plain_lib) R m, @NewServer plain_lib tt true = Ret sk /\
    inevitable 8
      (Sys (Execute psi_client_options (@OnExecute plain_lib false psi_client_options tt [chars "a"; chars "b"] []) true)
           (Execute psi_server_options (@OnExecute plain_lib false psi_server_options tt [chars "b"; chars "c"] []) true) ∅)
      (Sys (Done (Ret (SUCCESS, R))) (Done (Ret (SUCCESS, R))) m).
Proof.
  destruct (@ecdh_psi_correct plain_lib plain_laws psi_client_options psi_server_options psi_client_node psi_server_node
    psi_sample_config tt tt [chars "a"; chars "b"] [chars "b"; chars "c"] true) as (sk & R & m & H1 & H2 & _);
    [discriminate|discriminate|reflexivity|repeat constructor|..].
  - intros ck sk rq resp _ [= <-] _ [= <-]. vm_compute. reflexivity.
  - intros sk setup _ [= <-]. vm_compute. reflexivity.
  - exists sk, R, m. exact (conj H1 H2).
Defined.
