(* ===== verification/PsiKkrt.v ===== *)
(** * The KKRT operator

    Models [kernel/psi/operator/kkrt_psi.cc]: the parallel hashing of the rows and
    the role logic of [OnExecute].  The oblivious-transfer protocol of libPSI is an
    argument: from the two sets of hashes it gives the receiver the positions of
    the hashes the sender holds too. *)

From Stdlib Require Import Ascii String ZArith Lia.
From stdpp Require Import base tactics list option strings countable gmap.
From S2P Require Import Prelude ModArith Machine StrUtil Common Parallel PsiNet Psi.

Local Open Scope Z_scope.

(** The blocks of [HashDataParallel]: start and end, the last one cut short. *)
Definition hash_blocks (size n : Z) : list (Z * Z) :=
  (fun i => (i * size, Z.min ((i + 1) * size) n)) <$> seqZ 0 (n / size + (if decide (n mod size <> 0) then 1 else 0)).

Section Kkrt.
Context {block : Type} (zero : block) (hash : str -> block).

(** One thread: hash the rows from [start] up to [end]. *)
Definition hash_task (input : list str) (b : Z * Z) : list (wr block) :=
  (fun i : Z => (Z.to_nat i, fun _ : block => hash (default [] (input !! Z.to_nat i)))) <$> seqZ (b.1) (b.2 - b.1).

(** The vector after [HashDataParallel]: a single block is hashed in place, more
    blocks by one thread each, in any interleaving. *)
Inductive HashDataParallel (size : Z) (input : list str) (result : list block) : list block -> Prop :=
| hash_single : length (hash_blocks size (Z.of_nat (length input))) = 1%nat ->
    HashDataParallel size input result
      (do_writes (hash_task input (0, Z.of_nat (length input))) (resize (length input) zero result))
| hash_threads l : length (hash_blocks size (Z.of_nat (length input))) <> 1%nat ->
    interleave (hash_task input <$> hash_blocks size (Z.of_nat (length input))) l ->
    HashDataParallel size input result (do_writes l (resize (length input) zero result)).

(** [BuildChannelInterface]: the peer must be known. *)
Definition channel_ok (o : Options) : bool :=
  let known name := bool_decide ((GetNodeByName o name).1 = SUCCESS) in
  if IsClient (self_party o) then known PARTY_SERVER else if IsServer (self_party o) then known PARTY_CLIENT else false.

(** [OnExecute]: [protocol] is libPSI's receiver on its own and the sender's
    hashes; [peer] are the sender's. *)
Inductive KkrtOnExecute (protocol : list block -> list block -> list Z) (size : Z) (o : Options) (input : list str) (peer : list block)
    (result : list str) : res (retcode * list str) -> Prop :=
| kkrt_empty : input = [] -> KkrtOnExecute protocol size o input peer result (Ret (FAIL, result))
| kkrt_no_channel : input <> [] -> channel_ok o = false -> KkrtOnExecute protocol size o input peer result (Ret (FAIL, result))
| kkrt_client hashes r : input <> [] -> channel_ok o = true -> IsClient (self_party o) = true ->
    HashDataParallel size input (replicate (length input) zero) hashes ->
    GetResult size o input (protocol hashes peer) result r ->
    KkrtOnExecute protocol size o input peer result r
| kkrt_server hashes : input <> [] -> channel_ok o = true -> IsClient (self_party o) = false ->
    HashDataParallel size input (replicate (length input) zero) hashes ->
    KkrtOnExecute protocol size o input peer result (Ret (SUCCESS, result)).

(** ** Hashing *)

Lemma hash_blocks_seq size n k : 0 < size -> 0 <= n -> 0 <= k -> (k - 1) * size <= n ->
  concat ((fun b : Z * Z => seqZ (b.1) (b.2 - b.1)) <$> ((fun i => (i * size, Z.min ((i + 1) * size) n)) <$> seqZ 0 k)) = seqZ 0 (Z.min (k * size) n).
Proof.
  intros Hs Hn Hk. pattern k. apply natlike_ind; [| |done].
  - intros _. rewrite Z.mul_0_l, Z.min_l by lia. done.
  - clear k Hk. intros k Hk IH Hle. rewrite <- Z.add_1_r in *. rewrite Z.add_simpl_r in Hle. rewrite seqZ_app by lia.
    rewrite !fmap_app, concat_app, IH by nia. rewrite (seqZ_cons (0 + k) 1) by lia. rewrite (seqZ_nil _ (Z.pred 1)) by lia.
    cbn [fmap list_fmap concat fst snd]. rewrite app_nil_r. rewrite Z.add_0_l.
    rewrite (Z.min_l (k * size) n) by lia. rewrite <- (Z.add_0_l (k * size)) at 2. rewrite <- seqZ_app by nia. f_equal. lia.
Qed.

Lemma hash_blocks_all size n : 0 < size -> 0 <= n ->
  concat ((fun b : Z * Z => seqZ (b.1) (b.2 - b.1)) <$> hash_blocks size n) = seqZ 0 n.
Proof.
  intros Hs Hn. assert (Hdm := Z.div_mod n size ltac:(lia)). assert (Hm := Z.mod_pos_bound n size Hs).
  assert (Hq := Z.div_pos n size Hn Hs). unfold hash_blocks. rewrite hash_blocks_seq; try lia; case_decide; try nia; f_equal; nia.
Qed.

Lemma hash_tasks_concat input bs : concat (hash_task input <$> bs) =
  (fun i : Z => (Z.to_nat i, fun _ : block => hash (default [] (input !! Z.to_nat i)))) <$> concat ((fun b : Z * Z => seqZ (b.1) (b.2 - b.1)) <$> bs).
Proof. induction bs as [|b bs IH]; [done|]. cbn [fmap list_fmap concat]. rewrite fmap_app, <- IH. done. Qed.

Lemma hash_writes input v : length v = length input ->
  NoDup ((fun i : Z => (Z.to_nat i, fun _ : block => hash (default [] (input !! Z.to_nat i)))) <$> seqZ 0 (Z.of_nat (length input))).*1 /\
  do_writes ((fun i : Z => (Z.to_nat i, fun _ : block => hash (default [] (input !! Z.to_nat i)))) <$> seqZ 0 (Z.of_nat (length input))) v = hash <$> input.
Proof.
  intros Hv. set (ws := _ <$> seqZ _ _).
  assert (Hnd : NoDup ws.*1).
  { unfold ws. rewrite <- list_fmap_compose. apply NoDup_fmap_2_strong; [|apply NoDup_seqZ].
    intros i j Hi Hj Hij. apply elem_of_seqZ in Hi, Hj. simpl in Hij. lia. }
  split; [done|]. apply list_eq. intros j. destruct (input !! j) as [x|] eqn:Hx.
  - rewrite (do_writes_at ws v j (fun _ => hash (default [] (input !! j)))); [|done|].
    + assert (Hj := lookup_lt_Some _ _ _ Hx). destruct (lookup_lt_is_Some_2 v j) as [y Hy]; [lia|].
      rewrite list_lookup_fmap, Hy, Hx. done.
    + unfold ws. apply list_elem_of_fmap. exists (Z.of_nat j). rewrite Nat2Z.id. split; [done|]. apply elem_of_seqZ.
      apply lookup_lt_Some in Hx. lia.
  - rewrite list_lookup_fmap, Hx. apply lookup_ge_None in Hx. apply lookup_ge_None_2. rewrite do_writes_length. lia.
Qed.

(** Every schedule of the hashing threads gives the hashes of the rows. *)
Lemma hash_parallel size input result out : 0 < size -> HashDataParallel size input result out -> out = hash <$> input.
Proof.
  intros Hs Hh. destruct (hash_writes input (resize (length input) zero result) ltac:(by rewrite length_resize)) as [Hnd Hw].
  destruct Hh as [_|l _ Hl].
  - unfold hash_task. cbn [fst snd]. rewrite Z.sub_0_r. exact Hw.
  - assert (Hc := hash_tasks_concat input (hash_blocks size (Z.of_nat (length input)))).
    rewrite hash_blocks_all in Hc by lia. rewrite (schedule_irrelevant _ l) by (try done; by rewrite Hc). by rewrite Hc.
Qed.

Lemma hash_parallel_ends size input result : exists out, HashDataParallel size input result out.
Proof.
  destruct (decide (length (hash_blocks size (Z.of_nat (length input))) = 1%nat)); [eexists; by apply hash_single|].
  eexists. apply hash_threads; [done|apply interleave_seq].
Qed.
End Kkrt.

(** C35: the KKRT client ends with the right rows under every schedule of its
    hashing and copying threads.  When the protocol hands over the positions of the
    receiver's hashes that the sender holds too, each once, the client reports
    success with exactly the rows whose hash the peer holds, or in difference mode
    with the others in order. *)
Theorem kkrt_client_correct {block : Type} `{EqDecision block} (zero : block) hash protocol o input peer :
  (forall hs ps, NoDup (protocol hs ps)) ->
  (forall hs ps i, i ∈ protocol hs ps <-> exists h : block, 0 <= i /\ hs !! Z.to_nat i = Some h /\ h ∈ ps) ->
  input <> [] -> self_party o = PARTY_CLIENT -> (GetNodeByName o PARTY_SERVER).1 = SUCCESS ->
  (exists r, KkrtOnExecute zero hash protocol BLOCK_SIZE o input peer [] r) /\
  forall r, KkrtOnExecute zero hash protocol BLOCK_SIZE o input peer [] r -> exists R, r = Ret (SUCCESS, R) /\
    if decide (psi_result_type o = DIFFERENCE) then R = filter (fun x => hash x ∉ peer) input else R ≡ₚ filter (fun x => hash x ∈ peer) input.
Proof.
  intros Hnd Hel Hne Hc Hs. set (f := fun x => bool_decide (hash x ∈ peer)).
  assert (Hp : protocol (hash <$> input) peer ≡ₚ positions f input).
  { apply NoDup_Permutation; [done|apply positions_NoDup|]. intros i. rewrite Hel, elem_of_positions. setoid_rewrite list_lookup_fmap.
    split; [intros (h & H0 & Hl & Hin)|intros (x & H0 & Hl & Hin)].
    - destruct (input !! Z.to_nat i) as [x|] eqn:E; simpl in Hl; simplify_eq. exists x. split_and!; [done..|]. by apply bool_decide_eq_true_2.
    - exists (hash x). rewrite Hl. split_and!; [done..|]. by apply bool_decide_eq_true_1 in Hin. }
  assert (Hr : Forall (in_range input) (protocol (hash <$> input) peer)) by (rewrite Hp; apply positions_range).
  assert (Hok : channel_ok o = true) by (unfold channel_ok, IsClient; rewrite Hc, bool_decide_eq_true_2 by done; by apply bool_decide_eq_true_2).
  assert (Hcl : IsClient (self_party o) = true) by (rewrite Hc; done).
  destruct (get_result_all BLOCK_SIZE o input _ [] ltac:(done) Hr) as [[r0 Hr0] Hall]. split.
  - destruct (hash_parallel_ends zero hash BLOCK_SIZE input (replicate (length input) zero)) as [hs Hhs].
    exists r0. apply (kkrt_client zero hash protocol BLOCK_SIZE o input peer [] hs); [done..|]. by rewrite (hash_parallel zero hash BLOCK_SIZE input _ hs ltac:(done) Hhs).
  - intros r Hx. destruct Hx as [|? Hf|hs r _ _ _ Hhs Hg|? ? ? Hf]; [done|congruence| |congruence].
    rewrite (hash_parallel zero hash BLOCK_SIZE input _ hs ltac:(done) Hhs) in Hg. apply Hall in Hg as ->. eexists. split; [reflexivity|].
    case_decide; cbn [app].
    + rewrite (difference_positions f) by done. apply list_filter_iff. intros x. unfold f. by rewrite bool_decide_eq_false.
    + rewrite Hp, select_positions. erewrite list_filter_iff; [reflexivity|]. intros x. unfold f. by rewrite bool_decide_eq_true.
Qed.

Definition exact_positions (hs ps : list str) : list Z := positions (fun h => bool_decide (h ∈ ps)) hs.

Lemma kkrt_client_correct_witness :
  exists r, KkrtOnExecute [] (fun s => s) exact_positions BLOCK_SIZE psi_client_options [chars "a"; chars "b"] [chars "b"] [] r.
Proof.
  apply (kkrt_client_correct [] (fun s => s) exact_positions psi_client_options [chars "a"; chars "b"] [chars "b"]);
    [intros; apply positions_NoDup| |discriminate|reflexivity|reflexivity].
  intros hs ps i. unfold exact_positions. rewrite elem_of_positions. setoid_rewrite bool_decide_eq_true. done.
Defined.
