(* ===== verification/TeePsi.v ===== *)
(** * The PSI operator with a trusted executor

    Models [kernel/psi/operator/tee_psi.{h,cc}].  The client and the server send the
    digests of their rows, encrypted for the enclave, to a third party; it has the
    enclave intersect them and sends the encrypted result to the client.  The enclave
    library is not part of the repository: an [engine] is its interface, and what the
    operator relies on are [shared_key] and [psi_program].  Two functions of the class
    have a result type and no return statement; what reaching their end means is the
    parameter [fall_off]: nothing is promised by the language, and [Ret tt] is the case
    that the caller just goes on. *)

From Stdlib Require Import Ascii String ZArith Lia.
From stdpp Require Import base tactics list option strings countable gmap.
From S2P Require Import Prelude ModArith Machine StrUtil Common PsiNet NetMany Psi.

Local Open Scope Z_scope.

(** Queues of a node, by key. *)
Abbreviation qplace := (Node * str)%type.

(** [sgx::TeeEngine], as one node has it.  A call that fills a buffer gets it and
    gives it back; what happens inside works on the files of the node. *)
Record engine : Type := Engine {
  build_ratls_channel : str -> str * Z * bool -> bool;
  get_key : str -> str -> str;
  get_encrypted_size : Z -> Z;
  encrypt_data_with_sharekey : str -> str -> str -> bool * str;
  get_plain_size : str -> bool * Z;
  decrypt_data_with_sharekey : str -> str -> str -> bool * str;
  decrypt_data_with_sharekey_inside : str -> str -> str -> gmap str str -> bool * gmap str str;
  do_compute : list str -> str -> list str -> gmap str str -> bool * Z * gmap str str;
  encrypt_data_with_sharekey_inside : str -> str -> Z -> str -> gmap str str -> bool * str
}.

(** The members of the operator, and the files of its node. *)
Record tee_state : Type := Tee { files_ : list str; result_size_ : Z; disk : gmap str str }.

Definition zeros (n : Z) : str := replicate (Z.to_nat n) "000"%char.

Definition GenerateDataId (request_id party_name : str) : str := request_id ++ chars "_" ++ party_name.

(** The constructor: the proxy is the party's own node when it is listed. *)
Definition TeePsiOperator (o : Options) : Options :=
  match GetNodeByName o (self_party o) with
  | (SUCCESS, Some n) => Opts (party_info o) (self_party o) (psi_result_type o) n
  | _ => o
  end.

Definition extra_info_ : list str := [chars "1"].

Definition GetComputeNode (o : Options) : retcode * option Node := GetNodeByName o PARTY_TEE_COMPUTE.
Definition GetResultReceiver (o : Options) : retcode * option Node := GetNodeByName o PARTY_CLIENT.
Definition IsResultReceiver (o : Options) : bool := IsClient (self_party o).

Definition GetDataProviderNode (o : Options) : list Node :=
  snd <$> filter (fun p : str * Node => p.1 <> self_party o) (party_info o).

(** [Recv] of a key pops the queue the transport fills: it always succeeds. *)
Definition queue_recv (from : qplace) : act_at qplace (retcode * str) := Fetch from (fun s => Done (Ret (SUCCESS, s))).

Section Tee.
(** The engine of the node, the hash ([None] when the algorithm is not there), the
    order in which a hash table lists its keys, and what a missing return gives. *)
Context (E : engine) (hash_alg : option (str -> str)) (table_keys : gmap str str -> list str) (fall_off : res unit).
(** The operator's options, the request, the node that runs it and the code to run. *)
Context (o : Options) (request_id : str) (here : Node) (code : str).

Definition GetKey (key_value : str) : str := get_key E request_id key_value.
Definition GenerateResultId : str := request_id ++ chars "_result".

(** ** The data providers *)

(** The loop of [HashData]; [insert] keeps an entry that is there. *)
Fixpoint hash_items (h : str -> str) (dup_filter : gset str) (hashed : gmap str str) (input : list str) : gmap str str :=
  match input with
  | [] => hashed
  | item :: input =>
      if decide (item ∈ dup_filter) then hash_items h dup_filter hashed input
      else hash_items h ({[item]} ∪ dup_filter)
        (match hashed !! h item with Some _ => hashed | None => <[h item := item]> hashed end) input
  end.

Definition HashData (input : list str) : retcode * gmap str str :=
  match hash_alg with
  | None => (FAIL, ∅)
  | Some h => (SUCCESS, hash_items h ∅ ∅ input)
  end.

(** The text to encrypt; the size of the first key is read before. *)
Definition plain_data (hashed : gmap str str) : res str :=
  match table_keys hashed with
  | [] => Undef
  | keys => Ret (concat keys)
  end.

Definition EncryptDataWithShareKey (key_id plain : str) : retcode * str :=
  let size := get_encrypted_size E (Z.of_nat (length plain)) in
  let '(ok, cipher) := encrypt_data_with_sharekey E key_id plain (zeros size) in
  (if ok then SUCCESS else FAIL, cipher).

(** A failed decryption is not returned. *)
Definition DecryptDataWithShareKey (cipher : str) : retcode * str :=
  let '(ok, len) := get_plain_size E cipher in
  if negb ok then (FAIL, [])
  else if decide (len = 0) then (SUCCESS, [])
  else
    let compute_node := default default_node (snd (GetComputeNode o)) in
    let '(_, plain) := decrypt_data_with_sharekey E (GetKey (ip_ compute_node)) cipher (zeros len) in
    (SUCCESS, plain).

(** The pieces of [hash_size] bytes, and the rows whose digest is one of them. *)
Fixpoint known_rows (hashed : gmap str str) (hash_size : nat) (count : nat) (buf : str) : list str :=
  match count with
  | O => []
  | S count =>
      let rest := known_rows hashed hash_size count (drop hash_size buf) in
      match hashed !! take hash_size buf with Some x => x :: rest | None => rest end
  end.

Definition TeeGetIntersection (buf : str) (hashed : gmap str str) (result : list str) : res (retcode * list str) :=
  match table_keys hashed with
  | [] => Undef
  | k :: _ =>
      if decide (length k = O) then Undef
      else Ret (SUCCESS, result ++ known_rows hashed (length k) (length buf / length k)%nat buf)
  end.

Definition ExecuteAsDataProvider (input result : list str) : act_at qplace (retcode * list str) :=
  match GetComputeNode o with
  | (SUCCESS, Some compute_node) =>
      if negb (build_ratls_channel E request_id (ip_ compute_node, port_ compute_node, use_tls_ compute_node)) then Done (Ret (FAIL, result))
      else
        let key_id := GetKey (ip_ compute_node) in
        let '(ret, hashed) := HashData input in
        if decide (ret <> SUCCESS) then Done (Ret (FAIL, result))
        else
          plain ← lift (plain_data hashed);
          let '(ret, cipher) := EncryptDataWithShareKey key_id plain in
          if decide (ret <> SUCCESS) then Done (Ret (FAIL, result))
          else
            let self_node := default default_node (snd (GetNodeByName o (self_party o))) in
            _ ← link_send (compute_node, GenerateDataId request_id (id_ self_node)) cipher;
            if negb (IsResultReceiver o) then Done (Ret (SUCCESS, result))
            else
              '(ret, cipher_result) ← queue_recv (here, GenerateResultId);
              if decide (ret <> SUCCESS) then Done (Ret (FAIL, result))
              else
                let '(ret, plain_result) := DecryptDataWithShareKey cipher_result in
                if decide (ret <> SUCCESS) then Done (Ret (SUCCESS, result))
                else if decide (plain_result = []) then Done (Ret (SUCCESS, result))
                else lift (TeeGetIntersection plain_result hashed result)
  | _ => Done (Ret (FAIL, result))
  end.

(** ** The executor *)

(** [SetDataFile] has no return statement. *)
Definition SetDataFile (file_name : str) (st : tee_state) : res tee_state :=
  _ ← fall_off; Ret (Tee (files_ st ++ [file_name]) (result_size_ st) (disk st)).

Fixpoint receive_from (nodes : list Node) (st : tee_state) : act_at qplace (retcode * tee_state) :=
  match nodes with
  | [] => Done (Ret (SUCCESS, st))
  | node :: nodes =>
      '(ret, recv_buff) ← queue_recv (here, GenerateDataId request_id (id_ node));
      if decide (ret <> SUCCESS) then Done (Ret (FAIL, st))
      else
        let key_id := GetKey (id_ node) in
        st ← lift (SetDataFile key_id st);
        let '(ok, d) := decrypt_data_with_sharekey_inside E key_id recv_buff key_id (disk st) in
        let st := Tee (files_ st) (result_size_ st) d in
        if negb ok then Done (Ret (FAIL, st)) else receive_from nodes st
  end.

Definition ReceiveDataFromDataProvider (st : tee_state) : act_at qplace (retcode * tee_state) := receive_from (GetDataProviderNode o) st.

Definition DoCompute (st : tee_state) : res (retcode * tee_state) :=
  st ← SetDataFile GenerateResultId st;
  let '(ok, size, d) := do_compute E (files_ st) code extra_info_ (disk st) in
  Ret (if ok then SUCCESS else FAIL, Tee (files_ st) size d).

Definition SendEncryptedResult (st : tee_state) : act_at qplace retcode :=
  match GetResultReceiver o with
  | (SUCCESS, Some result_receiver) =>
      let size := get_encrypted_size E (result_size_ st) in
      let '(ok, cipher) := encrypt_data_with_sharekey_inside E (GetKey (id_ result_receiver)) GenerateResultId (result_size_ st) (zeros size) (disk st) in
      if negb ok then Done (Ret FAIL)
      else
        ret ← link_send (result_receiver, GenerateResultId) cipher;
        if decide (ret <> SUCCESS) then Done (Ret FAIL) else Done (Ret SUCCESS)
  | _ => Done (Ret FAIL)
  end.

Definition ExecuteAsCompute (st : tee_state) : act_at qplace (retcode * tee_state) :=
  '(ret, st) ← ReceiveDataFromDataProvider st;
  if decide (ret <> SUCCESS) then Done (Ret (FAIL, st))
  else
    '(ret, st) ← lift (DoCompute st);
    if decide (ret <> SUCCESS) then Done (Ret (FAIL, st))
    else
      ret ← SendEncryptedResult st;
      if decide (ret <> SUCCESS) then Done (Ret (FAIL, st)) else Done (Ret (SUCCESS, st)).

(** ** Both *)

(** [CleanTempFile] removes the files that are there and has no return statement. *)
Definition CleanTempFile (st : tee_state) : res tee_state :=
  let st := Tee (files_ st) (result_size_ st) (foldl (fun d f => delete f d) (disk st) (files_ st)) in
  _ ← fall_off; Ret st.

(** [OnExecute] drops what the two branches return. *)
Definition TeeOnExecute (input result : list str) (st : tee_state) : act_at qplace (retcode * list str * tee_state) :=
  if IsTeeCompute (self_party o) then
    '(_, st) ← ExecuteAsCompute st;
    st ← lift (CleanTempFile st); Done (Ret (SUCCESS, result, st))
  else if decide (input = []) then Done (Ret (FAIL, result, st))
  else
    '(_, result) ← ExecuteAsDataProvider input result;
    st ← lift (CleanTempFile st); Done (Ret (SUCCESS, result, st)).
End Tee.

(** ** Digests and rows *)

(** The table holds the digest of every row, with the row. *)
Lemma hash_items_spec (h : str -> str) (P : str -> Prop) input : (forall x y, P x -> P y -> h x = h y -> x = y) -> Forall P input ->
  forall dup hashed, (forall x, x ∈ dup -> P x) -> (forall d x, hashed !! d = Some x <-> d = h x /\ x ∈ dup) ->
  forall d x, hash_items h dup hashed input !! d = Some x <-> d = h x /\ (x ∈ dup \/ x ∈ input).
Proof.
  intros Hinj. induction input as [|item input IH]; intros HP dup hashed Hdup Hspec d x; cbn [hash_items].
  - rewrite Hspec. pose proof (not_elem_of_nil x). naive_solver.
  - apply Forall_cons in HP as [Hitem HP]. rewrite elem_of_cons. case_decide as Hd; [rewrite IH by done; naive_solver|].
    destruct (hashed !! h item) as [y|] eqn:Ey.
    { apply Hspec in Ey as [Ey Hy]. apply Hinj in Ey; [|done|by apply Hdup]. by subst. }
    rewrite IH; [set_solver|done|set_solver|]. intros d' x'. destruct (decide (d' = h item)) as [->|Hne].
    + rewrite lookup_insert_eq. split; [intros [= ->]; set_solver|]. intros [Eh Hx]. apply elem_of_union in Hx as [Hx|Hx]; [set_solver|].
      by assert (item = x') as -> by (apply Hinj; [done|by apply Hdup|done]).
    + rewrite lookup_insert_ne, Hspec by done. set_solver.
Qed.

Lemma known_rows_concat hashed hs ds : Forall (fun d => length d = hs) ds ->
  known_rows hashed hs (length ds) (concat ds) = omap (fun d => hashed !! d) ds.
Proof.
  induction 1 as [|d ds Hd _ IH]; [done|]. cbn [length known_rows concat]. rewrite take_app_length', drop_app_length', IH by done.
  cbn [omap list_omap]. by destruct (hashed !! d).
Qed.

Lemma concat_pieces (hs : nat) (ds : list str) : hs <> O -> Forall (fun d => length d = hs) ds -> (length (concat ds) / hs)%nat = length ds.
Proof.
  intros Hhs Hds. assert (length (concat ds) = length ds * hs)%nat as ->; [|by apply Nat.div_mul].
  induction Hds as [|d ds Hd _ IH]; [done|]. cbn [concat length]. rewrite length_app. lia.
Qed.

Section Rows.
Context (h : str -> str) (hs : nat) (table_keys : gmap str str -> list str).
Hypothesis digest_size : forall x, length (h x) = hs.
Hypothesis digest_some : hs <> O.
Hypothesis all_keys : forall m, table_keys m ≡ₚ (map_to_list m).*1.

Definition digest_table (rows : list str) : gmap str str := hash_items h ∅ ∅ rows.

(** No two rows that occur share a digest. *)
Definition no_collision (xs ys : list str) : Prop := forall x y, x ∈ xs ++ ys -> y ∈ xs ++ ys -> h x = h y -> x = y.

Lemma table_spec xs rows d x : no_collision xs [] -> rows ⊆ xs -> digest_table rows !! d = Some x <-> d = h x /\ x ∈ rows.
Proof.
  intros Hinj Hrows. unfold digest_table. rewrite (hash_items_spec h (fun x => x ∈ xs)); [set_solver| |by apply Forall_forall|set_solver|].
  - intros a b Ha Hb. apply Hinj; by rewrite app_nil_r.
  - intros d' x'. rewrite lookup_empty. set_solver.
Qed.

Lemma table_keys_spec xs rows d : no_collision xs [] -> rows ⊆ xs -> d ∈ table_keys (digest_table rows) <-> exists x, d = h x /\ x ∈ rows.
Proof.
  intros Hinj Hrows. rewrite all_keys, list_elem_of_fmap. split.
  - intros ([d' x] & -> & Hx%elem_of_map_to_list). apply (table_spec xs) in Hx as [-> Hx]; [by eauto|done..].
  - intros (x & -> & Hx). exists (h x, x). split; [done|]. by apply elem_of_map_to_list, (table_spec xs).
Qed.

Lemma table_keys_NoDup m : NoDup (table_keys m).
Proof. rewrite all_keys. apply NoDup_fst_map_to_list. Qed.

Lemma table_keys_size xs rows : no_collision xs [] -> rows ⊆ xs -> Forall (fun d => length d = hs) (table_keys (digest_table rows)).
Proof. intros Hinj Hrows. apply Forall_forall. intros d (x & -> & _)%(table_keys_spec xs); [done..|]. done. Qed.

Lemma table_keys_cons xs rows : no_collision xs [] -> rows ⊆ xs -> rows <> [] ->
  exists k ks, table_keys (digest_table rows) = k :: ks /\ length k = hs.
Proof.
  intros Hinj Hrows Hne. pose proof (table_keys_size xs rows Hinj Hrows) as Hs.
  destruct (table_keys (digest_table rows)) as [|k ks] eqn:E; [|inversion Hs; subst; eauto].
  destruct rows as [|x rows]; [done|]. exfalso. apply (not_elem_of_nil (h x)). rewrite <- E.
  apply (table_keys_spec xs); [done..|]. exists x. set_solver.
Qed.

(** What the client makes of the digests that both sent. *)
Lemma rows_of_digests xs ys ds : no_collision xs ys -> ds ≡ₚ filter (fun d => d ∈ table_keys (digest_table ys)) (table_keys (digest_table xs)) ->
  let R := omap (fun d => digest_table xs !! d) ds in NoDup R /\ forall x, x ∈ R <-> x ∈ xs /\ x ∈ ys.
Proof.
  intros Hinj Hds R. assert (Hno : no_collision (xs ++ ys) []) by (intros a b; rewrite app_nil_r; apply Hinj).
  assert (Hx : xs ⊆ xs ++ ys) by set_solver. assert (Hy : ys ⊆ xs ++ ys) by set_solver.
  assert (Hmem : forall d, d ∈ ds <-> exists x, d = h x /\ x ∈ xs /\ x ∈ ys).
  { intros d. rewrite Hds, list_elem_of_filter, !(table_keys_spec (xs ++ ys)) by done. split; [|naive_solver].
    intros ((y & -> & Hyy) & (x & Eh & Hxx)). apply Hinj in Eh; [|set_solver..]. naive_solver. }
  split.
  - assert (HR : h <$> R = ds).
    { subst R. assert (Hall : Forall (fun d => exists x, d = h x /\ x ∈ xs /\ x ∈ ys) ds) by (apply Forall_forall; intros d; by apply Hmem).
      clear Hds Hmem. induction Hall as [|d ds (x & -> & Hxx & _) _ IH]; [done|]. cbn [omap list_omap].
      assert (digest_table xs !! h x = Some x) as -> by (by apply (table_spec (xs ++ ys))). cbn. by f_equal. }
    apply (NoDup_fmap_1 h). rewrite HR, Hds. apply NoDup_filter, table_keys_NoDup.
  - intros x. unfold R. rewrite list_elem_of_omap. setoid_rewrite (table_spec (xs ++ ys)); [|done..]. setoid_rewrite Hmem. split; [|naive_solver].
    intros (d & (z & -> & Hz & Hz') & Eh & Hxx). apply Hinj in Eh as ->; [done|apply elem_of_app; by left..].
Qed.
End Rows.

(** ** The three parties *)

(** A provider's engine and the executor's share a key: what one encrypts the other
    decrypts, from a text into a file and from a file into a text. *)
Record shared_key (p t : engine) (kp kt : str) : Prop := {
  key_to_enclave : forall plain, exists c,
    encrypt_data_with_sharekey p kp plain (zeros (get_encrypted_size p (Z.of_nat (length plain)))) = (true, c) /\
    forall f d, decrypt_data_with_sharekey_inside t kt c f d = (true, <[f := plain]> d);
  key_from_enclave : forall plain f d, d !! f = Some plain -> exists c,
    encrypt_data_with_sharekey_inside t kt f (Z.of_nat (length plain)) (zeros (get_encrypted_size t (Z.of_nat (length plain)))) d = (true, c) /\
    get_plain_size p c = (true, Z.of_nat (length plain)) /\
    decrypt_data_with_sharekey p kp c (zeros (Z.of_nat (length plain))) = (true, plain)
}.

(** The code that the executor's options name: given two files of digests it leaves
    those that are in both, in some order, in the third. *)
Definition psi_program (t : engine) (code : str) (hs : nat) : Prop :=
  forall f1 f2 out d a b, NoDup [f1; f2; out] -> d !! f1 = Some (concat a) -> d !! f2 = Some (concat b) ->
  NoDup a -> NoDup b -> Forall (fun x => length x = hs) a -> Forall (fun x => length x = hs) b ->
  exists ds, ds ≡ₚ filter (fun x => x ∈ b) a /\
    do_compute t [f1; f2; out] code extra_info_ d = (true, Z.of_nat (length (concat ds)), <[out := concat ds]> d).

(** The parties as they know each other. *)
Record tee_config (oc os ot : Options) (nc ns nt : Node) : Prop := {
  tee_client : self_party oc = PARTY_CLIENT /\ GetNodeByName oc PARTY_CLIENT = (SUCCESS, Some nc) /\ GetComputeNode oc = (SUCCESS, Some nt);
  tee_server : self_party os = PARTY_SERVER /\ GetNodeByName os PARTY_SERVER = (SUCCESS, Some ns) /\ GetComputeNode os = (SUCCESS, Some nt);
  tee_compute : self_party ot = PARTY_TEE_COMPUTE /\ party_info ot = [(PARTY_CLIENT, nc); (PARTY_SERVER, ns); (PARTY_TEE_COMPUTE, nt)];
  tee_nodes : nc <> nt /\ id_ nc <> id_ ns
}.

(** Let a party compute up to its next message. *)
Ltac tee_go := repeat first [progress act_go | progress cbn [res_bind negb disk files_ result_size_]].

Section Run.
Context (ec es et : engine) (h : str -> str) (hs : nat) (table_keys : gmap str str -> list str) (request_id code : str).
Context (oc os ot : Options) (nc ns nt : Node).
Hypothesis digest_size : forall x, length (h x) = hs.
Hypothesis digest_some : hs <> O.
Hypothesis all_keys : forall m, table_keys m ≡ₚ (map_to_list m).*1.
Hypothesis config : tee_config oc os ot nc ns nt.
Hypothesis channel_c : build_ratls_channel ec request_id (ip_ nt, port_ nt, use_tls_ nt) = true.
Hypothesis channel_s : build_ratls_channel es request_id (ip_ nt, port_ nt, use_tls_ nt) = true.
Hypothesis key_c : shared_key ec et (get_key ec request_id (ip_ nt)) (get_key et request_id (id_ nc)).
Hypothesis key_s : shared_key es et (get_key es request_id (ip_ nt)) (get_key et request_id (id_ ns)).
Hypothesis file_names : NoDup [get_key et request_id (id_ nc); get_key et request_id (id_ ns); GenerateResultId request_id].
Hypothesis program : psi_program et code hs.

Definition box_c : qplace := (nt, GenerateDataId request_id (id_ nc)).
Definition box_s : qplace := (nt, GenerateDataId request_id (id_ ns)).
Definition box_r : qplace := (nc, GenerateResultId request_id).

Definition tee_writer (l : qplace) (i : nat) : Prop := (l, i) ∈ [(box_c, 0%nat); (box_s, 1%nat); (box_r, 2%nat)].
Definition tee_reader (l : qplace) (i : nat) : Prop := (l, i) ∈ [(box_c, 2%nat); (box_s, 2%nat); (box_r, 0%nat)].

Definition client_prog (st : tee_state) (xs : list str) := TeeOnExecute ec (Some h) table_keys (Ret tt) oc request_id nc code xs [] st.
Definition server_prog (st : tee_state) (ys : list str) := TeeOnExecute es (Some h) table_keys (Ret tt) os request_id ns code ys [] st.
Definition compute_prog (st : tee_state) := TeeOnExecute et (Some h) table_keys (Ret tt) ot request_id nt code [] [] st.

Lemma boxes_differ : box_c <> box_s /\ box_c <> box_r /\ box_s <> box_r.
Proof.
  destruct (tee_nodes _ _ _ _ _ _ config) as [Hn Hi]. unfold box_c, box_s, box_r, GenerateDataId.
  split_and!; [|congruence..]. intros [= E]. apply app_inv_head in E. by injection E.
Qed.

Lemma one_tee_writer l i j : tee_writer l i -> tee_writer l j -> i = j.
Proof. destruct boxes_differ as (H1 & H2 & H3). unfold tee_writer. set_solver. Qed.

Lemma one_tee_reader l i j : tee_reader l i -> tee_reader l j -> i = j.
Proof. destruct boxes_differ as (H1 & H2 & H3). unfold tee_reader. set_solver. Qed.

Lemma provider_owned E o here n nd input result (to from : qplace -> Prop) :
  GetComputeNode o = (SUCCESS, Some nt) -> GetNodeByName o (self_party o) = (SUCCESS, Some nd) -> n = id_ nd ->
  to (nt, GenerateDataId request_id n) -> (IsClient (self_party o) = true -> from (here, GenerateResultId request_id)) ->
  disciplined to from (ExecuteAsDataProvider E (Some h) table_keys o request_id here input result).
Proof.
  intros Ec Es -> Hto Hfrom. unfold ExecuteAsDataProvider. rewrite Ec. cbn [HashData]. rewrite Es. unfold IsResultReceiver.
  destruct (IsClient (self_party o)) eqn:Er; act_disciplined; try done.
  all: split; [by auto|by intros].
Qed.

Lemma tee_providers : GetDataProviderNode ot = [nc; ns].
Proof. destruct (tee_compute _ _ _ _ _ _ config) as [T1 T2]. unfold GetDataProviderNode. by rewrite T1, T2. Qed.

Lemma receive_disciplined nodes st (to from : qplace -> Prop) :
  Forall (fun nd => from (nt, GenerateDataId request_id (id_ nd))) nodes ->
  disciplined to from (receive_from et (Ret tt) request_id nt nodes st).
Proof.
  intros Hf. revert st. induction Hf as [|nd nodes Hnd _ IH]; intros st; [done|]. cbn [receive_from].
  apply disciplined_bind; [split; [done|by intros]|]. intros [ret buff]. case_decide; [done|].
  apply disciplined_bind; [done|]. intros st'. case_match. case_match; [done|apply IH].
Qed.

Lemma compute_disciplined (to from : qplace -> Prop) st : from box_c -> from box_s -> to box_r ->
  disciplined to from (compute_prog st).
Proof.
  intros Hc Hs Hr. destruct (tee_compute _ _ _ _ _ _ config) as [T1 T2].
  unfold compute_prog, TeeOnExecute. rewrite T1. change (IsTeeCompute PARTY_TEE_COMPUTE) with true. cbv iota.
  apply disciplined_bind; [|by intros [? ?]]. unfold ExecuteAsCompute.
  apply disciplined_bind; [|intros [ret st']; case_decide; [done|]; apply disciplined_bind; [done|intros [ret' st'']; case_decide; [done|]; apply disciplined_bind]].
  - unfold ReceiveDataFromDataProvider. rewrite tee_providers. apply receive_disciplined. by repeat constructor.
  - unfold SendEncryptedResult, GetResultReceiver, GetNodeByName. rewrite T2. cbn [list_find]. rewrite decide_True by done.
    case_match. case_match; [done|]. split; [done|]. intros rc. cbn. by case_decide.
  - intros ?. by case_decide.
Qed.

Lemma tee_owned st0 st1 st2 xs ys m : own_boxes tee_writer tee_reader (Net [client_prog st0 xs; server_prog st1 ys; compute_prog st2] m).
Proof.
  destruct config as [(C1 & C2 & C3) (S1 & S2 & S3) _ _].
  intros i p Hi. cbn [progs] in Hi. destruct i as [|[|[|i]]]; cbn [lookup list_lookup] in Hi; [| | |done]; injection Hi as <-.
  - unfold client_prog, TeeOnExecute. rewrite C1. change (IsTeeCompute PARTY_CLIENT) with false. cbv iota. case_decide; [done|].
    apply disciplined_bind; [|by intros [? ?]]. eapply (provider_owned _ _ _ _ nc); rewrite ?C1; try done; unfold tee_writer, tee_reader; by repeat constructor.
  - unfold server_prog, TeeOnExecute. rewrite S1. change (IsTeeCompute PARTY_SERVER) with false. cbv iota. case_decide; [done|].
    apply disciplined_bind; [|by intros [? ?]]. eapply (provider_owned _ _ _ _ ns); rewrite ?S1; try done; unfold tee_writer, tee_reader; by repeat constructor.
  - apply compute_disciplined; unfold tee_writer, tee_reader; by repeat constructor.
Qed.

(** What is left of a party's files. *)
Definition cleaned (st : tee_state) : tee_state := Tee (files_ st) (result_size_ st) (foldl (fun d f => delete f d) (disk st) (files_ st)).

(** A text that the executor reads, with this key, as this. *)
Definition opens (key c plain : str) : Prop := forall f d, decrypt_data_with_sharekey_inside et key c f d = (true, <[f := plain]> d).

Abbreviation digests rows := (table_keys (digest_table h rows)).

(** The program of a provider up to its message. *)
Lemma provider_form E o here nd kt rows : rows <> [] -> no_collision h rows [] ->
  GetComputeNode o = (SUCCESS, Some nt) -> GetNodeByName o (self_party o) = (SUCCESS, Some nd) ->
  build_ratls_channel E request_id (ip_ nt, port_ nt, use_tls_ nt) = true -> shared_key E et (get_key E request_id (ip_ nt)) kt ->
  exists c, opens kt c (concat (digests rows)) /\ ExecuteAsDataProvider E (Some h) table_keys o request_id here rows [] =
    Post (nt, GenerateDataId request_id (id_ nd)) c (fun _ => if negb (IsResultReceiver o) then Done (Ret (SUCCESS, []))
      else Fetch (here, GenerateResultId request_id) (fun r =>
        let '(ret, plain_result) := DecryptDataWithShareKey E o request_id r in
        if decide (ret <> SUCCESS) then Done (Ret (SUCCESS, []))
        else if decide (plain_result = []) then Done (Ret (SUCCESS, []))
        else lift (TeeGetIntersection table_keys plain_result (digest_table h rows) []))).
Proof.
  intros Hne Hno Ec En Eb [Hk _]. destruct (Hk (concat (digests rows))) as (c & Ee & Hc). exists c. split; [exact Hc|].
  unfold ExecuteAsDataProvider. rewrite Ec, Eb, En. cbn [negb HashData]. rewrite decide_False by (intros E0; by apply E0).
  destruct (table_keys_cons h hs table_keys digest_size digest_some all_keys rows rows) as (k & ks & Ek & _); [done..|].
  assert (plain_data table_keys (digest_table h rows) = Ret (concat (digests rows))) as Ep by (unfold plain_data; by rewrite Ek).
  fold (digest_table h rows). rewrite Ep. act_go. unfold EncryptDataWithShareKey, GetKey. rewrite Ee. act_go. done.
Qed.

(** What the client makes of the executor's answer. *)
Lemma client_answer xs ds c : xs <> [] -> no_collision h xs [] -> Forall (fun d => length d = hs) ds ->
  get_plain_size ec c = (true, Z.of_nat (length (concat ds))) ->
  decrypt_data_with_sharekey ec (get_key ec request_id (ip_ nt)) c (zeros (Z.of_nat (length (concat ds)))) = (true, concat ds) ->
  (let '(ret, plain_result) := DecryptDataWithShareKey ec oc request_id c in
   if decide (ret <> SUCCESS) then Done (Ret (SUCCESS, []))
   else if decide (plain_result = []) then Done (Ret (SUCCESS, []))
   else lift (TeeGetIntersection table_keys plain_result (digest_table h xs) [])) =
  (Done (Ret (SUCCESS, omap (fun d => digest_table h xs !! d) ds)) : act_at qplace _).
Proof.
  intros Hne Hno Hds Es Ed. destruct (tee_client _ _ _ _ _ _ config) as (_ & _ & C3).
  destruct (table_keys_cons h hs table_keys digest_size digest_some all_keys xs xs) as (k & ks & Ek & Hk); [done..|].
  assert (Hempty : concat ds = [] -> ds = []).
  { intros E0. destruct Hds as [|d ds Hd _]; [done|]. apply (f_equal length) in E0. cbn [concat length] in E0. rewrite length_app in E0. lia. }
  unfold DecryptDataWithShareKey, GetKey. rewrite Es, C3. cbn [negb default snd id]. case_decide as Hz.
  - rewrite Hempty by (apply length_zero_iff_nil; lia). done.
  - rewrite Ed. rewrite decide_False by (intros E0; by apply E0). rewrite decide_False by (intros E0; apply Hz; by rewrite E0).
    unfold TeeGetIntersection. rewrite Ek, Hk, decide_False by done. cbn [app]. rewrite concat_pieces, known_rows_concat by done. done.
Qed.

(** The program of the executor, message by message. *)
Lemma compute_form st c c' xs ys : no_collision h xs ys -> files_ st = [] ->
  opens (get_key et request_id (id_ nc)) c (concat (digests xs)) -> opens (get_key et request_id (id_ ns)) c' (concat (digests ys)) ->
  exists k k' k'' ds r st', compute_prog st = Fetch box_c k /\ k c = Fetch box_s k' /\ k' c' = Post box_r r k'' /\
    k'' SUCCESS = Done (Ret (SUCCESS, [], cleaned st')) /\
    ds ≡ₚ filter (fun d => d ∈ digests ys) (digests xs) /\
    get_plain_size ec r = (true, Z.of_nat (length (concat ds))) /\
    decrypt_data_with_sharekey ec (get_key ec request_id (ip_ nt)) r (zeros (Z.of_nat (length (concat ds)))) = (true, concat ds) /\
    files_ st' = [get_key et request_id (id_ nc); get_key et request_id (id_ ns); GenerateResultId request_id] /\
    forall f, f ∉ files_ st' -> disk st' !! f = disk st !! f.
Proof.
  intros Hno Hf Hc Hc'. destruct (tee_compute _ _ _ _ _ _ config) as [T1 T2].
  set (f1 := get_key et request_id (id_ nc)) in *. set (f2 := get_key et request_id (id_ ns)) in *. set (out := GenerateResultId request_id) in *.
  assert (Hno' : no_collision h (xs ++ ys) []) by (intros a b; rewrite app_nil_r; apply Hno).
  destruct (program f1 f2 out (<[f2 := concat (digests ys)]> (<[f1 := concat (digests xs)]> (disk st))) (digests xs) (digests ys))
    as (ds & Hds & Edo); [done| | | | | | |].
  1: { rewrite lookup_insert_ne, lookup_insert_eq; [done|]. intros E0. rewrite E0 in file_names. apply NoDup_cons in file_names as [Hx _]. set_solver. }
  1: by rewrite lookup_insert_eq.
  1-2: by apply table_keys_NoDup.
  1-2: apply (table_keys_size h hs table_keys digest_size digest_some all_keys (xs ++ ys)); [done|set_solver].
  destruct (key_from_enclave _ _ _ _ key_c (concat ds) out (<[out := concat ds]> (<[f2 := concat (digests ys)]> (<[f1 := concat (digests xs)]> (disk st)))))
    as (r & Er & Hsz & Hdec); [by rewrite lookup_insert_eq|].
  unfold compute_prog, TeeOnExecute. rewrite T1. change (IsTeeCompute PARTY_TEE_COMPUTE) with true. cbv iota.
  unfold ExecuteAsCompute, ReceiveDataFromDataProvider. rewrite tee_providers. cbn [receive_from]. unfold queue_recv. act_go.
  do 3 eexists. exists ds, r, (Tee [f1; f2; out] (Z.of_nat (length (concat ds))) (<[out := concat ds]> (<[f2 := concat (digests ys)]> (<[f1 := concat (digests xs)]> (disk st))))).
  split; [reflexivity|]. cbv beta. unfold GetKey. fold f1 f2. unfold SetDataFile. tee_go. rewrite Hc. tee_go.
  split; [reflexivity|]. cbv beta. tee_go. rewrite Hc'. tee_go. unfold DoCompute, SetDataFile. fold out. tee_go. rewrite Hf. cbn [app]. rewrite Edo. tee_go.
  unfold SendEncryptedResult, GetResultReceiver, GetNodeByName, GetKey. rewrite T2. cbn [list_find]. rewrite decide_True by done.
  cbn [snd]. fold f1 out. tee_go. rewrite Er. tee_go.
  split; [reflexivity|]. cbv beta. tee_go. split; [reflexivity|]. split_and!; try done.
  intros f Hn. rewrite !lookup_insert_ne by set_solver. done.
Qed.

(** The steps of one schedule, from the forms of the three programs. *)
Lemma tee_schedule c c' r kc kc2 ks kt kt2 kt3 oc' os' ot' : kc SUCCESS = Fetch box_r kc2 -> ks SUCCESS = Done os' ->
  kt c = Fetch box_s kt2 -> kt2 c' = Post box_r r kt3 -> kt3 SUCCESS = Done ot' -> kc2 r = Done oc' ->
  exists m, nrun 6 (Net [Post box_c c kc; Post box_s c' ks; Fetch box_c kt] ∅) (Net [Done oc'; Done os'; Done ot'] m : net qplace (retcode * list str * tee_state)).
Proof.
  intros Ec Es Et Et2 Et3 Ec2. destruct boxes_differ as (H1 & H2 & H3).
  eexists. eapply (nrun_post 0); [done|]. cbn [insert list_insert]. rewrite Ec, mailbox_empty.
  eapply (nrun_post 1); [done|]. cbn [insert list_insert]. rewrite Es, mailbox_ne, mailbox_empty by done.
  eapply (nrun_fetch 2); [done|rewrite mailbox_ne, mailbox_eq by done; done|]. cbn [insert list_insert]. rewrite Et.
  eapply (nrun_fetch 2); [done|rewrite mailbox_ne, mailbox_eq by done; done|]. cbn [insert list_insert]. rewrite Et2.
  eapply (nrun_post 2); [done|]. cbn [insert list_insert]. rewrite Et3, !mailbox_ne, mailbox_empty by done.
  eapply (nrun_fetch 0); [done|by rewrite mailbox_eq|]. cbn [insert list_insert]. rewrite Ec2. constructor.
Qed.

Lemma foldl_delete (fs : list str) (d : gmap str str) f : foldl (fun d f => delete f d) d fs !! f = if decide (f ∈ fs) then None else d !! f.
Proof.
  revert d. induction fs as [|g fs IH]; intros d; cbn [foldl]; [by rewrite decide_False by apply not_elem_of_nil|].
  rewrite IH. destruct (decide (f = g)) as [->|Hne].
  - rewrite (decide_True (P := g ∈ g :: fs)) by set_solver. case_decide; [done|]. by rewrite lookup_delete_eq.
  - rewrite lookup_delete_ne by done. by rewrite (decide_ext (f ∈ g :: fs) (f ∈ fs)) by set_solver.
Qed.

(** Where every call of the enclave library does what it is for and the two functions
    without a return statement come back, every schedule of the three parties ends:
    the client then has the rows both parties have, each once and whatever kind of
    result was asked for, all three report success, and the executor has removed its
    files and touched no others. *)
Theorem tee_psi_correct st0 st1 st2 (xs ys : list str) : xs <> [] -> ys <> [] -> no_collision h xs ys -> files_ st2 = [] ->
  exists R st m, ninevitable 6 (Net [client_prog st0 xs; server_prog st1 ys; compute_prog st2] ∅)
      (Net [Done (Ret (SUCCESS, R, cleaned st0)); Done (Ret (SUCCESS, [], cleaned st1)); Done (Ret (SUCCESS, [], st))] m) /\
    NoDup R /\ (forall x, x ∈ R <-> x ∈ xs /\ x ∈ ys) /\
    (forall f, disk st !! f = if decide (f ∈ [get_key et request_id (id_ nc); get_key et request_id (id_ ns); GenerateResultId request_id])
                            then None else disk st2 !! f).
Proof.
  intros Hx Hy Hno Hf. destruct config as [(C1 & C2 & C3) (S1 & S2 & S3) _ _].
  assert (Hnx : no_collision h xs []) by (intros a b Ha Hb; rewrite app_nil_r in Ha, Hb; apply Hno; apply elem_of_app; by left).
  assert (Hny : no_collision h ys []) by (intros a b Ha Hb; rewrite app_nil_r in Ha, Hb; apply Hno; apply elem_of_app; by right).
  destruct (provider_form ec oc nc nc (get_key et request_id (id_ nc)) xs) as (c & Hc & Ec); rewrite ?C1; try done.
  destruct (provider_form es os ns ns (get_key et request_id (id_ ns)) ys) as (c' & Hc' & Es); rewrite ?S1; try done.
  destruct (compute_form st2 c c' xs ys) as (k & k' & k'' & ds & r & st' & Ek & Ek' & Ek'' & Eend & Hds & Hsz & Hdec & Hfiles & Hdisk); [done..|].
  pose proof (rows_of_digests h hs table_keys digest_size digest_some all_keys xs ys ds Hno Hds) as [HR1 HR2].
  assert (Hlen : Forall (fun d => length d = hs) ds).
  { rewrite Hds. apply Forall_forall. intros d [_ Hd]%list_elem_of_filter. revert d Hd. apply Forall_forall.
    by apply (table_keys_size h hs table_keys digest_size digest_some all_keys xs). }
  pose proof (client_answer xs ds r Hx Hnx Hlen Hsz Hdec) as Hans.
  exists (omap (fun d => digest_table h xs !! d) ds), (cleaned st').
  assert (Hrun : exists m, nrun 6 (Net [client_prog st0 xs; server_prog st1 ys; compute_prog st2] ∅)
    (Net [Done (Ret (SUCCESS, omap (fun d => digest_table h xs !! d) ds, cleaned st0)); Done (Ret (SUCCESS, [], cleaned st1)); Done (Ret (SUCCESS, [], cleaned st'))] m)).
  { unfold client_prog, server_prog, TeeOnExecute. rewrite C1, S1. change (IsTeeCompute PARTY_CLIENT) with false.
    change (IsTeeCompute PARTY_SERVER) with false. cbv iota. rewrite !decide_False by done. rewrite Ec, Es, Ek.
    unfold IsResultReceiver. rewrite C1, S1. change (IsClient PARTY_CLIENT) with true. change (IsClient PARTY_SERVER) with false.
    eapply (tee_schedule c c' r); try done. cbv beta. rewrite Hans. done. }
  destruct Hrun as (m & Hrun). exists m. split_and!; [|done..|].
  - eapply (one_nrun_decides tee_writer tee_reader); [apply one_tee_writer|apply one_tee_reader|apply tee_owned|exact Hrun|].
    by apply (nstuck_done [_; _; _]).
  - intros f. unfold cleaned. cbn [disk]. rewrite foldl_delete, Hfiles. case_decide as Hd; [done|]. apply Hdisk. by rewrite Hfiles.
Qed.
End Run.

(** ** What the operator reports *)

(** No end of the two functions is defined by the language: a party that has anything
    to do never has a result it can rely on. *)
Theorem tee_end_undefined E alg keys o request_id here code input result st :
  IsTeeCompute (self_party o) = true \/ input <> [] ->
  all_ends (fun r => forall v, r <> Ret v) (TeeOnExecute E alg keys Undef o request_id here code input result st).
Proof.
  intros Hin. unfold TeeOnExecute. destruct (IsTeeCompute (self_party o)) eqn:Et.
  - apply all_ends_bind; [|done..]. intros [ret st']. by cbn.
  - rewrite decide_False by naive_solver. apply all_ends_bind; [|done..]. intros [ret st']. by cbn.
Qed.

(** Where they do come back, no failure is reported: whatever the enclave, the hash
    and the link do, a party with input that ends, ends with success. *)
Theorem tee_failures_hidden E alg keys o request_id here code input result st :
  IsTeeCompute (self_party o) = true \/ input <> [] ->
  all_ends (fun r => forall rc R st', r = Ret (rc, R, st') -> rc = SUCCESS) (TeeOnExecute E alg keys (Ret tt) o request_id here code input result st).
Proof.
  intros Hin. unfold TeeOnExecute. destruct (IsTeeCompute (self_party o)) eqn:Et.
  - apply all_ends_bind; [|done..]. intros [ret st']. cbn. by intros rc R st'' [= <- _ _].
  - rewrite decide_False by naive_solver. apply all_ends_bind; [|done..]. intros [ret R]. cbn. by intros rc R' st'' [= <- _ _].
Qed.

(** A provider whose channel to the enclave is refused sends nothing and reports
    success with an empty result; the executor waits for it for ever. *)
Example refused_channel_succeeds E alg keys o request_id here code x st :
  IsTeeCompute (self_party o) = false -> build_ratls_channel E request_id = (fun _ => false) ->
  TeeOnExecute E alg keys (Ret tt) o request_id here code [x] [] st = Done (Ret (SUCCESS, [], cleaned st)).
Proof.
  intros Et Eb. unfold TeeOnExecute. rewrite Et, decide_False by done. unfold ExecuteAsDataProvider. rewrite Eb.
  destruct (GetComputeNode o) as [[] [n|]]; done.
Qed.

(** A decryption that fails hands on the zeros of the buffer as the plain text. *)
Example failed_decryption_kept E o request_id cipher n : get_plain_size E cipher = (true, n) -> 0 < n ->
  (forall key buf, decrypt_data_with_sharekey E key cipher buf = (false, buf)) ->
  DecryptDataWithShareKey E o request_id cipher = (SUCCESS, zeros n).
Proof. intros Es Hn Hd. unfold DecryptDataWithShareKey. rewrite Es. cbn [negb]. rewrite decide_False by lia. by rewrite Hd. Qed.

(** ** A sample *)

(** An enclave that neither encrypts nor hides: it reads one byte per digest. *)
Definition open_engine : engine := {|
  build_ratls_channel _ _ := true;
  get_key request_id name := request_id ++ chars "/" ++ name;
  get_encrypted_size n := n;
  encrypt_data_with_sharekey _ plain _ := (true, plain);
  get_plain_size c := (true, Z.of_nat (length c));
  decrypt_data_with_sharekey _ c _ := (true, c);
  decrypt_data_with_sharekey_inside _ c f d := (true, <[f := c]> d);
  do_compute fs _ _ d :=
    match fs with
    | [f1; f2; out] =>
        let found := filter (fun x => x ∈ default [] (d !! f2)) (default [] (d !! f1)) in
        (true, Z.of_nat (length found), <[out := found]> d)
    | _ => (false, 0, d)
    end;
  encrypt_data_with_sharekey_inside _ f _ _ d := (true, default [] (d !! f))
|}.

Definition first_byte (s : str) : str := [default "000"%char (head s)].

Lemma open_key kp kt : shared_key open_engine open_engine kp kt.
Proof.
  split; [intros plain; by exists plain|]. intros plain f d Hd. exists plain. split_and!; [|done..].
  cbn [open_engine encrypt_data_with_sharekey_inside]. by rewrite Hd.
Qed.

Lemma bytes_concat (a : list str) : Forall (fun x => length x = 1%nat) a -> exists l, a = (fun c => [c]) <$> l /\ concat a = l.
Proof.
  induction 1 as [|x a Hx _ (l & -> & El)]; [by exists []|]. destruct x as [|c [|]]; try done. exists (c :: l). cbn. by rewrite El.
Qed.

Lemma open_program code : psi_program open_engine code 1.
Proof.
  intros f1 f2 out d a b _ Ha Hb _ _ Hla Hlb. destruct (bytes_concat a Hla) as (la & -> & Ela), (bytes_concat b Hlb) as (lb & -> & Elb).
  rewrite Ela in Ha. rewrite Elb in Hb. exists ((fun c => [c]) <$> filter (fun c => c ∈ lb) la). split.
  - clear. apply reflexive_eq. induction la as [|c la IH]; [done|]. cbn [fmap list_fmap]. rewrite !filter_cons.
    rewrite (decide_ext ([c] ∈ list_fmap _ _ (fun c => [c]) lb) (c ∈ lb)) by (rewrite list_elem_of_fmap; naive_solver).
    case_decide; cbn [fmap list_fmap]; [by f_equal|done].
  - assert (forall l : list ascii, concat ((fun c => [c]) <$> l) = l) as -> by (induction l as [|c l IH]; cbn; by rewrite ?IH).
    cbn [open_engine do_compute]. by rewrite Ha, Hb.
Qed.

Definition tee_nc : Node := Nd (chars "node0") (chars "10.0.0.1") 50050 false (chars "default").
Definition tee_ns : Node := Nd (chars "node1") (chars "10.0.0.2") 50051 false (chars "default").
Definition tee_nt : Node := Nd (chars "node2") (chars "10.0.0.3") 50052 false (chars "default").
Definition tee_options (party : str) : Options :=
  TeePsiOperator (Opts [(PARTY_CLIENT, tee_nc); (PARTY_SERVER, tee_ns); (PARTY_TEE_COMPUTE, tee_nt)] party DIFFERENCE default_node).

(** Rows "a" and "b" against rows "b" and "c", asked for the difference. *)
Lemma tee_psi_correct_witness :
  exists R st m,
    ninevitable 6 (Net
      [client_prog open_engine first_byte (fun m => (map_to_list m).*1) (chars "req") [] (tee_options PARTY_CLIENT) tee_nc (Tee [] 0 ∅) [chars "a"; chars "b"];
       server_prog open_engine first_byte (fun m => (map_to_list m).*1) (chars "req") [] (tee_options PARTY_SERVER) tee_ns (Tee [] 0 ∅) [chars "b"; chars "c"];
       compute_prog open_engine first_byte (fun m => (map_to_list m).*1) (chars "req") [] (tee_options PARTY_TEE_COMPUTE) tee_nt (Tee [] 0 ∅)] ∅)
      (Net [Done (Ret (SUCCESS, R, cleaned (Tee [] 0 ∅))); Done (Ret (SUCCESS, [], cleaned (Tee [] 0 ∅))); Done (Ret (SUCCESS, [], st))] m) /\ R = [chars "b"].
Proof.
  destruct (tee_psi_correct open_engine open_engine open_engine first_byte 1 (fun m => (map_to_list m).*1) (chars "req") []
    (tee_options PARTY_CLIENT) (tee_options PARTY_SERVER) (tee_options PARTY_TEE_COMPUTE) tee_nc tee_ns tee_nt) with (st0 := Tee [] 0 ∅) (st1 := Tee [] 0 ∅) (st2 := Tee [] 0 ∅)
    (xs := [chars "a"; chars "b"]) (ys := [chars "b"; chars "c"]) as (R & st & m & Hi & Hnd & Hel & _); try done; try apply open_key.
  - apply (bool_decide_unpack _). by vm_compute.
  - apply open_program.
  - intros x y Hx Hy Eh. cbn [app] in Hx, Hy. repeat setoid_rewrite elem_of_cons in Hx. repeat setoid_rewrite elem_of_cons in Hy.
    pose proof (not_elem_of_nil x). pose proof (not_elem_of_nil y). destruct_or!; subst; done.
  - exists R, st, m. split; [done|]. apply Permutation_singleton_r, NoDup_Permutation; [done|apply NoDup_singleton|]. intros x. rewrite Hel.
    split; [|intros ->%list_elem_of_singleton; split; by repeat constructor]. intros [H1 H2].
    repeat setoid_rewrite elem_of_cons in H1. repeat setoid_rewrite elem_of_cons in H2. pose proof (not_elem_of_nil x). apply list_elem_of_singleton.
    destruct_or!; by subst.
Defined.
