(* ===== verification/PsiTask.v ===== *)
(** * The PSI task

    Models [task/semantic/psi_task.cc]: reading a task request, loading and
    de-duplicating the rows, choosing the operator ([kernel/psi/operator/factory.h]
    in a build without SGX), running it and saving the result.  Reading a dataset
    is covered by [PsiData]; here its outcome is an argument. *)

From Stdlib Require Import Ascii String ZArith Lia.
From stdpp Require Import base tactics list option strings countable gmap.
From S2P Require Import Prelude ModArith Machine StrUtil Common Wire PsiData PsiNet Psi.

Local Open Scope Z_scope.

(** [rpc::PsiTag] and [PsiType]. *)
Definition ECDH : Z := 0.
Definition KKRT : Z := 1.
Definition TEE : Z := 2.
Definition PsiTag_IsValid (t : Z) : bool := (0 <=? t) && (t <=? 2).

Definition PROXY_NODE : str := chars "PROXY_NODE".

(** The datasets a request names for a party. *)
Record Dataset : Type := DS { data : gmap str str; dataset_detail : bool }.

(** [rpc::Task], what the PSI task reads of it. *)
Record Task : Type := {
  party_name : str;
  party_access_info : list (str * Node);
  auxiliary_server : gmap str Node;
  params : gmap str ParamValue;
  party_datasets : gmap str Dataset
}.

(** The members of [PsiTask]. *)
Record psi_task : Type := PT {
  data_index_ : list Z;
  data_colums_name_ : list str;
  psi_type_ : Z;
  dataset_id_ : str;
  is_dataset_detail_ : bool;
  result_file_path_ : str;
  elements_ : list str;
  broadcast_result_ : bool;
  unique_values_ : bool;
  options_ : Options
}.

Definition new_task : psi_task := PT [] [] KKRT [] false [] [] false true (Opts [] [] INTERSECTION default_node).

Definition BuildOptions (task : Task) : retcode * Options :=
  match auxiliary_server task !! PROXY_NODE with
  | None => (FAIL, Opts (party_access_info task) (party_name task) INTERSECTION default_node)
  | Some proxy =>
      (SUCCESS, Opts (party_access_info task) (party_name task)
        (match params task !! chars "psiType" with Some p => get_int32 p | None => INTERSECTION end) proxy)
  end.

Definition flag_of (task : Task) (key : string) (old : bool) : bool :=
  match params task !! chars key with Some p => 0 <? get_int32 p | None => old end.

(** The index parameter of the party's role: an array or a single number. *)
Definition index_keyword (party : str) : str :=
  if IsClient party then chars "clientIndex" else if IsServer party then chars "serverIndex" else [].

Definition parse_index (task : Task) : list Z :=
  match params task !! index_keyword (party_name task) with
  | Some p => if is_array p then get_int32_array p else [get_int32 p]
  | None => []
  end.

Definition result_path_keyword (party : str) : str :=
  if IsClient party then chars "outputFullFilename" else if IsServer party then chars "server_outputFullFilname" else [].

(** [LoadParams] on the object [t]. *)
Definition LoadParams (storage : str) (task : Task) (t : psi_task) : res (retcode * psi_task) :=
  let '(ret, opts) := BuildOptions task in
  let t := PT (data_index_ t) (data_colums_name_ t) (psi_type_ t) (dataset_id_ t) (is_dataset_detail_ t)
              (result_file_path_ t) (elements_ t) (broadcast_result_ t) (unique_values_ t) opts in
  if decide (ret <> SUCCESS) then Ret (FAIL, t)
  else
    let type := match params task !! chars "psiTag" with Some p => get_int32 p | None => psi_type_ t end in
    if negb (PsiTag_IsValid type) then Throw
    else
      let uniq := flag_of task "UniqueValues" (unique_values_ t) in
      let sync := flag_of task "sync_result_to_server" (broadcast_result_ t) in
      let party := party_name task in
      match party_datasets task !! party with
      | None => Ret (SUCCESS, PT (data_index_ t) (data_colums_name_ t) type (dataset_id_ t) (is_dataset_detail_ t)
                                 (result_file_path_ t) (elements_ t) sync uniq opts)
      | Some ds =>
          let id := default (dataset_id_ t) (data ds !! party) in
          let detail := dataset_detail ds || is_dataset_detail_ t in
          let index := data_index_ t ++ parse_index task in
          let path :=
            if IsTeeCompute party then result_file_path_ t
            else match params task !! result_path_keyword party with
                 | Some p => CompletePath storage (get_string p)
                 | None => result_file_path_ t
                 end in
          Ret (SUCCESS, PT index (data_colums_name_ t) type id detail path (elements_ t) sync uniq opts)
      end.

(** The duplicate filter: a row is kept when it was not seen before. *)
Fixpoint filter_duplicates (dup : gset str) (rows : list str) : list str :=
  match rows with
  | [] => []
  | r :: rows => if decide (r ∈ dup) then filter_duplicates dup rows else r :: filter_duplicates ({[r]} ∪ dup) rows
  end.

(** [LoadDataset]: [driver] is the outcome of looking the dataset up and loading
    the selected columns, its code with the rows and the column names. *)
Definition LoadDataset (driver : option (retcode * list str * list str)) (t : psi_task) : retcode * psi_task :=
  if bool_decide (dataset_id_ t = []) || bool_decide (data_index_ t = []) then (SUCCESS, t)
  else
    match driver with
    | None => (FAIL, t)
    | Some (ret, rows, names) =>
        let set_rows rows := PT (data_index_ t) names (psi_type_ t) (dataset_id_ t) (is_dataset_detail_ t)
          (result_file_path_ t) rows (broadcast_result_ t) (unique_values_ t) (options_ t) in
        if decide (ret <> SUCCESS) then (FAIL, set_rows rows)
        else (SUCCESS, set_rows (if unique_values_ t then filter_duplicates ∅ rows else rows))
    end.

Inductive psi_operator : Type := KkrtPsiOperator | EcdhPsiOperator.

(** [Factory::Create] in a build without SGX: the TEE operator throws. *)
Definition Create (psi_type : Z) : res (option psi_operator) :=
  if psi_type =? KKRT then Ret (Some KkrtPsiOperator)
  else if psi_type =? ECDH then Ret (Some EcdhPsiOperator)
  else if psi_type =? TEE then Throw
  else Ret None.

Definition InitOperator (t : psi_task) : res (retcode * option psi_operator) :=
  op ← Create (psi_type_ t); Ret (match op with Some _ => SUCCESS | None => FAIL end, op).

Definition NeedSaveResult (t : psi_task) (party : str) : bool :=
  if IsTeeCompute party then false else if IsServer party && negb (broadcast_result_ t) then false else true.

(** [SaveResult]: the table that is written, if any. *)
Definition SaveResult (dir_ok write_ok : bool) (t : psi_task) (party : str) (result : list str) :
    res (retcode * option (list (list str))) :=
  if negb (NeedSaveResult t party) then Ret (SUCCESS, None)
  else
    '(ret, cols) ← SaveDataToCSVFile result (data_colums_name_ t) dir_ok write_ok;
    if decide (ret <> SUCCESS) then Ret (FAIL, None) else Ret (ret, Some cols).

Section Run.
Context `{PsiLib} (kkrt : Options -> list str -> act (retcode * list str)).
Context (storage : str) (dir_ok write_ok : bool).

(** [OnExecute] of the operator that was created; the KKRT one is an argument. *)
Definition on_execute (op : psi_operator) (o : Options) (sd : seed) (input : list str) : act (retcode * list str) :=
  match op with EcdhPsiOperator => OnExecute false o sd input [] | KkrtPsiOperator => kkrt o input end.

(** [PsiTask::execute]: every failing phase throws; the value is the table that
    was saved. *)
Definition execute (task : Task) (driver : option (retcode * list str * list str)) (sd : seed) : act (option (list (list str))) :=
  '(ret, t) ← lift (LoadParams storage task new_task);
  if decide (ret <> SUCCESS) then Done Throw
  else
    let '(ret, t) := LoadDataset driver t in
    if decide (ret <> SUCCESS) then Done Throw
    else
      '(ret, op) ← lift (InitOperator t);
      if decide (ret <> SUCCESS) then Done Throw
      else
        op ← lift (or_undef op);
        '(ret, result) ← Execute (options_ t) (on_execute op (options_ t) sd (elements_ t)) (broadcast_result_ t);
        if decide (ret <> SUCCESS) then Done Throw
        else
          '(ret, saved) ← lift (SaveResult dir_ok write_ok t (party_name task) result);
          if decide (ret <> SUCCESS) then Done Throw else Done (Ret saved).
End Run.

(** ** The duplicate filter *)

Lemma filter_duplicates_elem dup rows x : x ∈ filter_duplicates dup rows <-> x ∈ rows /\ x ∉ dup.
Proof.
  revert dup. induction rows as [|r rows IH]; intros dup; cbn [filter_duplicates]; [set_solver|].
  case_decide as Hr; rewrite ?elem_of_cons, IH; [set_solver|].
  destruct (decide (x = r)) as [->|Hne]; set_solver.
Qed.

Lemma filter_duplicates_NoDup dup rows : NoDup (filter_duplicates dup rows).
Proof.
  revert dup. induction rows as [|r rows IH]; intros dup; cbn [filter_duplicates]; [constructor|].
  case_decide; [done|]. constructor; [|done]. rewrite filter_duplicates_elem. set_solver.
Qed.

Lemma filter_duplicates_sublist dup rows : filter_duplicates dup rows `sublist_of` rows.
Proof.
  revert dup. induction rows as [|r rows IH]; intros dup; cbn [filter_duplicates]; [constructor|].
  case_decide; by constructor.
Qed.

(** ** Two tasks *)

(** The rows a task feeds to its operator. *)
Definition task_rows (t : psi_task) (rows : list str) : list str :=
  if unique_values_ t then filter_duplicates ∅ rows else rows.

Lemma load_params_party storage task t : LoadParams storage task new_task = Ret (SUCCESS, t) -> self_party (options_ t) = party_name task.
Proof.
  unfold LoadParams, BuildOptions. destruct (auxiliary_server task !! PROXY_NODE) as [proxy|]; [|by case_decide].
  rewrite (decide_False (P := SUCCESS <> SUCCESS)) by naive_solver. case_match; [done|]. intros Hs.
  destruct (party_datasets task !! party_name task); by simplify_eq/=.
Qed.

(** What becomes of a result when the file system cooperates. *)
Definition saved (t : psi_task) (names : list str) (party : str) (result : list str) : res (option (list (list str))) :=
  if NeedSaveResult t party then Some <$> save_columns result names else Ret None.

Section Tasks.
Context `{PsiLib} (kkrt : Options -> list str -> act (retcode * list str)) (storage : str).

(** An ECDH task whose phases before the operator succeed is its operator's run
    followed by the save. *)
Lemma execute_ecdh task t rows names sd :
  LoadParams storage task new_task = Ret (SUCCESS, t) -> psi_type_ t = ECDH -> dataset_id_ t <> [] -> data_index_ t <> [] ->
  exists k, execute kkrt storage true true task (Some (SUCCESS, rows, names)) sd =
    Execute (options_ t) (OnExecute false (options_ t) sd (task_rows t rows) []) (broadcast_result_ t) ≫= k /\
    (forall result, k (SUCCESS, result) = Done (saved t names (party_name task) result)) /\
    forall r to from, disciplined to from (k r).
Proof.
  intros Hl Ht Hd Hi. unfold execute. rewrite Hl. act_go. unfold LoadDataset.
  rewrite (bool_decide_eq_false_2 (dataset_id_ t = [])), (bool_decide_eq_false_2 (data_index_ t = [])) by done. cbn [orb]. act_go.
  unfold InitOperator. cbn [psi_type_]. rewrite Ht. change (Create ECDH) with (Ret (Some EcdhPsiOperator)). cbn [mbind res_bind]. act_go.
  cbn [or_undef options_ elements_ broadcast_result_ on_execute]. eexists. split_and!; [reflexivity| |intros [] to from; act_disciplined]. intros result. act_go.
  unfold SaveResult, saved, SaveDataToCSVFile. change (NeedSaveResult _ (party_name task)) with (NeedSaveResult t (party_name task)) at 1.
  cbn [data_colums_name_]. destruct (NeedSaveResult t (party_name task)); cbn [negb]; [|by act_go].
  destruct (save_columns result names) as [cols| |]; cbn [mbind res_bind fmap res_fmap]; done.
Qed.
End Tasks.

(** C4: two ECDH PSI tasks, a client's and a server's, end under every schedule.
    With requests that parse, rows loaded on both sides, matching addresses and
    flags, the client saves the columns of its (distinct) rows that match the
    server's (distinct) rows, every common row included, or of the others in
    difference mode; the server saves the same rows exactly when the result is
    synchronised. *)
Theorem psi_task_correct `{PsiLaws} kkrt storage tc ts t_c t_s nc ns rows_c rows_s names_c names_s sdc sds :
  LoadParams storage tc new_task = Ret (SUCCESS, t_c) -> LoadParams storage ts new_task = Ret (SUCCESS, t_s) ->
  psi_type_ t_c = ECDH -> psi_type_ t_s = ECDH -> dataset_id_ t_c <> [] -> dataset_id_ t_s <> [] ->
  data_index_ t_c <> [] -> data_index_ t_s <> [] -> broadcast_result_ t_s = broadcast_result_ t_c ->
  ecdh_config (options_ t_c) (options_ t_s) nc ns ->
  rows_c <> [] -> rows_s <> [] -> Z.of_nat (length rows_c) < W64 -> Forall (fun x => Z.of_nat (length x) < W64) rows_c ->
  (forall ck sk rq resp, NewClient sdc true = Ret ck -> CreateRequest ck (task_rows t_c rows_c) = Ret rq -> NewServer sds true = Ret sk ->
    ProcessRequest sk rq = Ret resp -> Z.of_nat (length (ser_response resp)) < 2 ^ 31) ->
  (forall sk n setup, NewServer sds true = Ret sk -> CreateSetupMessage sk fpr_ n (task_rows t_s rows_s) = Ret setup ->
    Z.of_nat (length (ser_setup setup)) < 2 ^ 31) ->
  exists n test R m,
    inevitable n
      (Sys (execute kkrt storage true true tc (Some (SUCCESS, rows_c, names_c)) sdc)
           (execute kkrt storage true true ts (Some (SUCCESS, rows_s, names_s)) sds) ∅)
      (Sys (Done (Some <$> save_columns R names_c))
           (Done (if broadcast_result_ t_c then Some <$> save_columns R names_s else Ret None)) m) /\
    (forall x, x ∈ rows_s -> test x = true) /\
    if decide (psi_result_type (options_ t_c) = DIFFERENCE) then R = filter (fun x => test x = false) (task_rows t_c rows_c)
    else R ≡ₚ filter (fun x => test x = true) (task_rows t_c rows_c).
Proof.
  intros Hlc Hls Htc Hts Hdc Hds Hic His Hsync Hcfg Hxc Hxs Hlen Hbig Hb1 Hb2.
  assert (Hne : forall t rows, rows <> [] -> task_rows t rows <> []).
  { intros t rows Hr. unfold task_rows. case_match; [|done]. destruct rows as [|r rows]; [done|]. cbn. by rewrite decide_False by set_solver. }
  assert (Hsub : task_rows t_c rows_c `sublist_of` rows_c) by (unfold task_rows; case_match; [apply filter_duplicates_sublist|done]).
  assert (Hel : forall x, x ∈ rows_s -> x ∈ task_rows t_s rows_s).
  { intros x Hx. unfold task_rows. case_match; [|done]. rewrite filter_duplicates_elem. set_solver. }
  destruct (execute_ecdh kkrt storage tc t_c rows_c names_c sdc Hlc Htc Hdc Hic) as (kc & Ec & Hkc & Hdk).
  destruct (execute_ecdh kkrt storage ts t_s rows_s names_s sds Hls Hts Hds His) as (ks & Es & Hks & Hdk').
  destruct (ecdh_outcome (options_ t_c) (options_ t_s) nc ns Hcfg sdc sds (task_rows t_c rows_c) (task_rows t_s rows_s) (broadcast_result_ t_c))
    as (sk & R & m & Hsk & Hrun & HR); try done; [by apply Hne..|apply sublist_length in Hsub; lia| |intros; by eapply Hb2|].
  { apply Forall_forall. intros x Hx. rewrite Forall_forall in Hbig. apply Hbig. by eapply elem_of_sublist. }
  eexists (6 + if broadcast_result_ t_c then 2 else 0)%nat, (matches sk _ _), R, m. split_and!; [|intros x Hx; apply matches_complete, Hel, Hx|exact HR].
  rewrite Ec, Es, Hsync.
  assert (Hfin := run_bind _ _ _ kc ks _ _ _ _ Hrun). rewrite Hkc, Hks in Hfin.
  rewrite <- (load_params_party _ _ _ Hlc), <- (load_params_party _ _ _ Hls) in Hfin.
  destruct (Hcfg) as [Hc Hs _ _ _ _ _ Hdiff]. rewrite Hc, Hs in Hfin. unfold saved, NeedSaveResult in Hfin. rewrite Hsync in Hfin.
  change (IsTeeCompute PARTY_CLIENT) with false in Hfin. change (IsServer PARTY_CLIENT) with false in Hfin.
  change (IsTeeCompute PARTY_SERVER) with false in Hfin. change (IsServer PARTY_SERVER) with true in Hfin. cbn [andb] in Hfin.
  apply (one_run_decides (eq nc) (eq ns)).
  - split_and!; [by apply apart_eq|apply disciplined_bind; [by eapply client_disciplined|done]|apply disciplined_bind; [by eapply server_disciplined|done]].
  - by destruct (broadcast_result_ t_c).
  - apply stuck_done.
Qed.

Definition sample_task (party : str) (proxy : Node) : Task := {|
  party_name := party;
  party_access_info := psi_parties;
  auxiliary_server := {[PROXY_NODE := proxy]};
  params := <[chars "psiTag" := PV (value_int32 ECDH) false]> (<[chars "sync_result_to_server" := PV (value_int32 1) false]>
    (<[chars "clientIndex" := PV (value_int32_array [0]) true]> {[chars "serverIndex" := PV (value_int32 0) false]}));
  party_datasets := {[party := DS {[party := chars "table"]} false]}
|}.

Lemma psi_task_correct_witness :
  exists t_c, LoadParams [] (sample_task PARTY_CLIENT psi_client_node) new_task = Ret (SUCCESS, t_c) /\
  exists n R m,
    inevitable n
      (Sys (@execute plain_lib (fun _ _ => Done Throw) [] true true (sample_task PARTY_CLIENT psi_client_node) (Some (SUCCESS, [chars "a"; chars "b"; chars "a"], [chars "id"])) tt)
           (@execute plain_lib (fun _ _ => Done Throw) [] true true (sample_task PARTY_SERVER psi_server_node) (Some (SUCCESS, [chars "b"], [chars "id"])) tt) ∅)
      (Sys (Done (Some <$> save_columns R [chars "id"])) (Done (Some <$> save_columns R [chars "id"])) m).
Proof.
  eexists. split; [vm_compute; reflexivity|].
  destruct (@psi_task_correct plain_lib plain_laws (fun _ _ => Done Throw) [] (sample_task PARTY_CLIENT psi_client_node) (sample_task PARTY_SERVER psi_server_node)
    _ _ psi_client_node psi_server_node [chars "a"; chars "b"; chars "a"] [chars "b"] [chars "id"] [chars "id"] tt tt
    ltac:(vm_compute; reflexivity) ltac:(vm_compute; reflexivity)) as (n & test & R & m & Hi & _);
    [reflexivity|reflexivity|discriminate|discriminate|discriminate|discriminate|reflexivity|exact psi_sample_config|discriminate|discriminate|reflexivity|repeat constructor|..].
  - intros ck sk rq resp _ [= <-] _ [= <-]. vm_compute. reflexivity.
  - intros sk n setup _ [= <-]. vm_compute. reflexivity.
  - exists n, R, m. exact Hi.
Defined.
