(* ===== verification/PyPsi.v ===== *)
(** * PSI started from Python

    Models [PsiExecutor] of [task/pybind_wrapper/psi_wrapper.{h,cc}], the task it runs
    ([PsiTask::ExecuteTask] of [task/semantic/psi_task.cc]) and the methods of the
    Python class ([task/pybind_wrapper/task_wrapper.cc]) on texts and on integers. *)

From Stdlib Require Import Ascii String ZArith Lia.
From stdpp Require Import base tactics list option strings countable gmap.
From S2P Require Import Prelude ModArith Machine StrUtil Common Wire PsiData PsiNet Psi PsiTask.

Local Open Scope Z_scope.

Definition access_of (name : str) (l : list (str * Node)) : option Node :=
  snd ∘ snd <$> list_find (fun p : str * Node => p.1 = name) l.

(** The loop over the parties: the node that ends up as the server. *)
Fixpoint server_entry (access : list (str * Node)) (receiver : str) (parties : list str) (server : option Node) : res (option Node) :=
  match parties with
  | [] => Ret server
  | p :: parties =>
      if decide (p = receiver) then server_entry access receiver parties server
      else match access_of p access with
           | None => Throw
           | Some n => server_entry access receiver parties (Some n)
           end
  end.

Definition protocol_tag (protocol : str) : res Z :=
  if decide (protocol = chars "KKRT") then Ret KKRT else if decide (protocol = chars "ECDH") then Ret ECDH else Throw.

Definition BuildPsiTaskRequest (parties : list str) (receiver : str) (broadcast_result : bool) (protocol : str) (task : Task) : res Task :=
  match access_of receiver (party_access_info task) with
  | None => Throw
  | Some client =>
      server ← server_entry (party_access_info task) receiver parties None;
      tag ← protocol_tag protocol;
      Ret {| party_name := if decide (party_name task = receiver) then PARTY_CLIENT else PARTY_SERVER;
             party_access_info := (PARTY_CLIENT, client) :: match server with Some n => [(PARTY_SERVER, n)] | None => [] end;
             auxiliary_server := auxiliary_server task;
             params := <[chars "psiTag" := PV (value_int32 tag) false]>
               (<[chars "sync_result_to_server" := PV (value_int32 (if broadcast_result then 1 else 0)) false]> (params task));
             party_datasets := party_datasets task |}
  end.

Section Executor.
Context `{PsiLib} (kkrt : Options -> list str -> act (retcode * list str)) (storage : str).

(** [PsiTask::ExecuteTask] leaves its loop on a failure and returns success. *)
Definition PsiExecuteTask (task : Task) (sd : seed) (input : list str) : act (retcode * list str) :=
  '(ret, t) ← lift (LoadParams storage task new_task);
  if decide (ret <> SUCCESS) then Done (Ret (SUCCESS, []))
  else
    '(ret, op) ← lift (InitOperator t);
    if decide (ret <> SUCCESS) then Done (Ret (SUCCESS, []))
    else
      op ← lift (or_undef op);
      '(_, result) ← Execute (options_ t) (on_execute kkrt op (options_ t) sd input) (broadcast_result_ t);
      Done (Ret (SUCCESS, result)).

Definition RunPsi (task : Task) (sd : seed) (input parties : list str) (receiver : str) (broadcast_result : bool) (protocol : str) : act (list str) :=
  if decide (length parties <> 2%nat) then Done Throw
  else
    req ← lift (BuildPsiTaskRequest parties receiver broadcast_result protocol task);
    '(ret, result) ← PsiExecuteTask req sd input;
    if decide (ret <> SUCCESS) then Done Throw else Done (Ret result).

(** The loop of [run_as_integer]: the texts, and the number each stands for. *)
Fixpoint number_texts (input : list Z) (texts : list str) (map_info : gmap str Z) : list str * gmap str Z :=
  match input with
  | [] => (texts, map_info)
  | z :: input =>
      let item := int_to_string z in
      match map_info !! item with
      | Some _ => number_texts input texts map_info
      | None => number_texts input (texts ++ [item]) (<[item := z]> map_info)
      end
  end.

(** The numbers of the texts that are known. *)
Definition numbers_of (map_info : gmap str Z) (items : list str) : list Z := omap (fun item => map_info !! item) items.

Definition run_as_integer (task : Task) (sd : seed) (input : list Z) (parties : list str) (receiver : str) (broadcast : bool) (protocol : str) : act (list Z) :=
  let '(texts, map_info) := number_texts input [] ∅ in
  tmp_result ← RunPsi task sd texts parties receiver broadcast protocol;
  Done (Ret (numbers_of map_info tmp_result)).

(** [run_as_string]. *)
Definition run_as_string := RunPsi.
End Executor.

(** ** Numbers and texts *)

Definition int64 (z : Z) : Prop := - 2 ^ 63 <= z < 2 ^ 63.

Lemma int_to_string_inj a b : int64 a -> int64 b -> int_to_string a = int_to_string b -> a = b.
Proof.
  unfold int64. intros Ha Hb E. destruct (int_to_string_read a) as (n1 & s1 & v1 & k1 & H1 & H2 & H3); [lia|].
  destruct (int_to_string_read b) as (n2 & s2 & v2 & k2 & H4 & H5 & H6); [lia|]. rewrite E, H4 in H1. simplify_eq. rewrite H5 in H2. by simplify_eq.
Qed.

Lemma digits_short k n : (length (digits k n) <= k)%nat.
Proof. revert n. induction k as [|k IH]; intros n; cbn [digits]; [done|]. case_match; [cbn; lia|]. rewrite length_app. cbn. specialize (IH (n / 10)). lia. Qed.

Lemma int_to_string_short z : Z.of_nat (length (int_to_string z)) < W64.
Proof.
  unfold int_to_string, W64. pose proof (digits_short 20 z). pose proof (digits_short 20 (- z)). case_match; cbn [length]; lia.
Qed.

(** The texts are those of the numbers, each once, and stand for them. *)
Lemma number_texts_spec input : Forall int64 input -> forall texts info, (forall s z, info !! s = Some z <-> s ∈ texts /\ s = int_to_string z /\ int64 z) ->
  NoDup texts ->
  let '(texts', info') := number_texts input texts info in
  (forall s z, info' !! s = Some z <-> s ∈ texts' /\ s = int_to_string z /\ int64 z) /\ NoDup texts' /\
  (forall s, s ∈ texts' <-> s ∈ texts \/ exists z, z ∈ input /\ s = int_to_string z).
Proof.
  induction 1 as [|z input Hz _ IH]; intros texts info Hinfo Hnd; cbn [number_texts].
  - split_and!; [done|done|]. intros s. split; [by left|]. intros [Hs|(z & Hz & _)]; [done|by apply not_elem_of_nil in Hz].
  - destruct (info !! int_to_string z) as [y|] eqn:Ey.
    + specialize (IH texts info Hinfo Hnd). destruct (number_texts input texts info) as [texts' info']. destruct IH as (H1 & H2 & H3).
      split_and!; [done|done|]. intros s. rewrite H3. apply Hinfo in Ey as (Hin & _ & _). setoid_rewrite elem_of_cons. naive_solver.
    + assert (Hnew : int_to_string z ∉ texts) by (intros Hin; assert (info !! int_to_string z = Some z) by (by apply Hinfo); congruence).
      specialize (IH (texts ++ [int_to_string z]) (<[int_to_string z := z]> info)).
      destruct (number_texts input (texts ++ [int_to_string z]) (<[int_to_string z := z]> info)) as [texts' info'].
      destruct IH as (H1 & H2 & H3).
      * intros s y. destruct (decide (s = int_to_string z)) as [->|Hne].
        -- rewrite lookup_insert_eq, elem_of_app, list_elem_of_singleton. split; [intros [= <-]; by auto|].
           intros (_ & E & Hy). by rewrite (int_to_string_inj z y).
        -- rewrite lookup_insert_ne, Hinfo, elem_of_app, list_elem_of_singleton by done. naive_solver.
      * apply NoDup_app. split_and!; [done| |apply NoDup_singleton]. intros s Hs ->%list_elem_of_singleton. done.
      * split_and!; [done|done|]. intros s. rewrite H3, elem_of_app, list_elem_of_singleton. setoid_rewrite elem_of_cons. naive_solver.
Qed.

Lemma number_texts_start input : Forall int64 input ->
  let '(texts, info) := number_texts input [] ∅ in
  (forall s z, info !! s = Some z <-> s = int_to_string z /\ z ∈ input) /\ NoDup texts /\ (forall s, s ∈ texts <-> exists z, z ∈ input /\ s = int_to_string z).
Proof.
  intros Hin. pose proof (number_texts_spec input Hin [] ∅) as Hs. destruct (number_texts input [] ∅) as [texts info].
  destruct Hs as (H1 & H2 & H3); [intros s z; rewrite lookup_empty; pose proof (not_elem_of_nil s); naive_solver|constructor|].
  assert (Ht : forall s, s ∈ texts <-> exists z, z ∈ input /\ s = int_to_string z) by (intros s; rewrite H3; pose proof (not_elem_of_nil s); naive_solver).
  split_and!; [|done|done]. intros s z. rewrite H1, Ht. rewrite Forall_forall in Hin. split; [|naive_solver].
  intros ((y & Hy & ->) & E & Hz). rewrite (int_to_string_inj y z) in Hy by auto. auto.
Qed.

(** ** Two programs *)

(** Two parties' requests that name each other. *)
Record py_config (ta tb : Task) (a b : str) (na nb : Node) : Prop := {
  py_names : party_name ta = a /\ party_name tb = b /\ a <> b;
  py_access : forall t, t = ta \/ t = tb -> access_of a (party_access_info t) = Some na /\ access_of b (party_access_info t) = Some nb;
  py_proxies : auxiliary_server ta !! PROXY_NODE = Some na /\ auxiliary_server tb !! PROXY_NODE = Some nb;
  py_kind : params ta !! chars "psiType" = None /\ params tb !! chars "psiType" = None;
  py_nodes : na <> nb
}.

Definition py_options (na nb : Node) (party : str) (proxy : Node) : Options :=
  Opts [(PARTY_CLIENT, na); (PARTY_SERVER, nb)] party INTERSECTION proxy.

Lemma py_ecdh_config na nb : na <> nb -> ecdh_config (py_options na nb PARTY_CLIENT na) (py_options na nb PARTY_SERVER nb) na nb.
Proof. intros Hne. by split; try reflexivity. Qed.

(** What [LoadParams] makes of a request for ECDH. *)
Lemma load_built storage task proxy (bc : bool) : auxiliary_server task !! PROXY_NODE = Some proxy -> params task !! chars "psiType" = None ->
  params task !! chars "psiTag" = Some (PV (value_int32 ECDH) false) ->
  params task !! chars "sync_result_to_server" = Some (PV (value_int32 (if bc then 1 else 0)) false) ->
  exists t, LoadParams storage task new_task = Ret (SUCCESS, t) /\ psi_type_ t = ECDH /\ broadcast_result_ t = bc /\
    options_ t = Opts (party_access_info task) (party_name task) INTERSECTION proxy.
Proof.
  intros Hp Hk Ht Hs. unfold LoadParams, BuildOptions. rewrite Hp, Hk, Ht. rewrite decide_False by (intros E; by apply E).
  change (negb (PsiTag_IsValid _)) with false. cbv iota. unfold flag_of. rewrite Hs.
  destruct (party_datasets task !! party_name task); eexists; (split; [reflexivity|]); cbn; by destruct bc.
Qed.

Section Programs.
Context `{PsiLaws} (kkrt : Options -> list str -> act (retcode * list str)) (storage : str).

(** What the task, [RunPsi] and [run_as_integer] do with the operator's outcome. *)
Definition after_task (r : retcode * list str) : act (retcode * list str) := let '(_, result) := r in Done (Ret (SUCCESS, result)).
Definition after_psi (r : retcode * list str) : act (list str) := let '(ret, result) := r in if decide (ret <> SUCCESS) then Done Throw else Done (Ret result).
Definition after_texts (info : gmap str Z) (tmp_result : list str) : act (list Z) := Done (Ret (numbers_of info tmp_result)).
Definition after_operator (info : gmap str Z) (p : act (retcode * list str)) : act (list Z) := ((p ≫= after_task) ≫= after_psi) ≫= after_texts info.

(** A program is its operator's run on the texts, and the way back to numbers. *)
Lemma run_form t a b na nb proxy party sd input (bc : bool) : party = (if decide (party_name t = a) then PARTY_CLIENT else PARTY_SERVER) -> a <> b ->
  access_of a (party_access_info t) = Some na -> access_of b (party_access_info t) = Some nb ->
  auxiliary_server t !! PROXY_NODE = Some proxy -> params t !! chars "psiType" = None ->
  run_as_integer kkrt storage t sd input [a; b] a bc (chars "ECDH") =
    after_operator (number_texts input [] ∅).2
      (Execute (py_options na nb party proxy) (OnExecute false (py_options na nb party proxy) sd (number_texts input [] ∅).1 []) bc).
Proof.
  intros Hp Hab Ha Hb Hx Hk. unfold run_as_integer, RunPsi. destruct (number_texts input [] ∅) as [texts info]. cbn [fst snd].
  rewrite decide_False by (cbn; lia). unfold BuildPsiTaskRequest. rewrite Ha. cbn [server_entry]. rewrite (decide_True (P := a = a)) by done.
  rewrite (decide_False (P := b = a)) by congruence. rewrite Hb. change (protocol_tag (chars "ECDH")) with (Ret ECDH). cbn [mbind res_bind]. rewrite <- Hp.
  act_go. unfold PsiExecuteTask. cbn [auxiliary_server party_datasets].
  match goal with |- context [LoadParams storage ?r new_task] => destruct (load_built storage r proxy bc) as (t' & El & Et & Eb & Eo) end.
  - done.
  - cbn [params]. by rewrite !lookup_insert_ne by done.
  - cbn [params]. by rewrite lookup_insert_eq.
  - cbn [params]. by rewrite lookup_insert_ne, lookup_insert_eq by done.
  - rewrite El. act_go. unfold InitOperator. rewrite Et. change (Create ECDH) with (Ret (Some EcdhPsiOperator)). cbn [mbind res_bind]. act_go.
    cbn [or_undef on_execute]. rewrite Eb, Eo. cbn [party_access_info party_name].
    fold (py_options na nb party proxy).
    reflexivity.
Qed.

Lemma after_disciplined info (p : act (retcode * list str)) to from : disciplined to from p -> disciplined to from (after_operator info p).
Proof.
  intros Hp. apply disciplined_bind; [apply disciplined_bind; [apply disciplined_bind; [done|]|]|].
  - by intros [? ?].
  - intros [? ?]. unfold after_psi. by case_decide.
  - done.
Qed.

Lemma after_run n (p q : act (retcode * list str)) i j m R R' m' :
  run n (Sys p q m) (Sys (Done (Ret (SUCCESS, R))) (Done (Ret (SUCCESS, R'))) m') ->
  run n (Sys (after_operator i p) (after_operator j q) m) (Sys (Done (Ret (numbers_of i R))) (Done (Ret (numbers_of j R'))) m').
Proof.
  intros Hr. unfold after_operator.
  apply (run_bind n _ _ (after_texts i) (after_texts j) m R R' m'), (run_bind n _ _ after_psi after_psi m (SUCCESS, R) (SUCCESS, R') m').
  by apply (run_bind n _ _ after_task after_task m (SUCCESS, R) (SUCCESS, R') m').
Qed.

Lemma no_texts (xs : list Z) : xs <> [] -> (forall s : str, s ∈ [] <-> exists z, z ∈ xs /\ s = int_to_string z) -> False.
Proof. intros Hne Hs. destruct xs as [|z xs]; [done|]. apply (not_elem_of_nil (int_to_string z)), Hs. exists z. split; [by left|done]. Qed.

Lemma elem_of_numbers info (R : list str) (xs : list Z) z : (forall s z, info !! s = Some z <-> s = int_to_string z /\ z ∈ xs) ->
  z ∈ numbers_of info R <-> int_to_string z ∈ R /\ z ∈ xs.
Proof. intros Hi. unfold numbers_of. rewrite list_elem_of_omap. setoid_rewrite Hi. naive_solver. Qed.

Lemma numbers_NoDup (xs : list Z) info R : (forall s z, info !! s = Some z <-> s = int_to_string z /\ z ∈ xs) -> NoDup R ->
  (forall s, s ∈ R -> exists z, z ∈ xs /\ s = int_to_string z) -> NoDup (numbers_of info R).
Proof.
  intros Hi Hnd HR. apply (NoDup_fmap_1 int_to_string). assert (int_to_string <$> numbers_of info R = R) as ->; [|done].
  clear Hnd. induction R as [|s R IH]; [done|]. destruct (HR s) as (z & Hz & ->); [by left|]. unfold numbers_of. cbn [omap list_omap].
  rewrite (proj2 (Hi (int_to_string z) z)) by done. cbn [fmap list_fmap]. f_equal. apply IH. intros s Hs. apply HR. by right.
Qed.

(** C5: two programs that call [run_as_integer] with the protocol ECDH (the KKRT
    protocol is not covered), one receiver, the same two parties known to both and
    non-empty lists of 64-bit integers, end under every schedule, when their messages
    are within the size limits.  The receiver gets the distinct numbers of its own that
    pass the other's membership test, which all numbers of the other do; with the
    broadcast the other gets those of them that are its own, so all common numbers and
    no others, else nothing. *)
Theorem integer_psi_correct ta tb a b na nb sda sdb (xs ys : list Z) (bc : bool) : py_config ta tb a b na nb ->
  Forall int64 xs -> Forall int64 ys -> xs <> [] -> ys <> [] -> Z.of_nat (length (number_texts xs [] ∅).1) < W64 ->
  (forall ck sk rq resp, NewClient sda true = Ret ck -> CreateRequest ck (number_texts xs [] ∅).1 = Ret rq -> NewServer sdb true = Ret sk ->
    ProcessRequest sk rq = Ret resp -> Z.of_nat (length (ser_response resp)) < 2 ^ 31) ->
  (forall sk n setup, NewServer sdb true = Ret sk -> CreateSetupMessage sk fpr_ n (number_texts ys [] ∅).1 = Ret setup -> Z.of_nat (length (ser_setup setup)) < 2 ^ 31) ->
  exists n test A B m,
    inevitable n
      (Sys (run_as_integer kkrt storage ta sda xs [a; b] a bc (chars "ECDH")) (run_as_integer kkrt storage tb sdb ys [a; b] a bc (chars "ECDH")) ∅)
      (Sys (Done (Ret A)) (Done (Ret B)) m) /\
    NoDup A /\ (forall z, z ∈ A <-> z ∈ xs /\ test z = true) /\ (forall z, z ∈ ys -> test z = true) /\
    (forall z, z ∈ B <-> bc = true /\ z ∈ xs /\ z ∈ ys).
Proof.
  intros [(Na & Nb & Hab) Hacc [Pa Pb] [Ka Kb] Hne] Hx Hy Hxe Hye Hlen Hb1 Hb2.
  destruct (Hacc ta (or_introl eq_refl)) as [A1 A2], (Hacc tb (or_intror eq_refl)) as [B1 B2].
  rewrite (run_form ta a b na nb na PARTY_CLIENT), (run_form tb a b na nb nb PARTY_SERVER); try done;
    [|by rewrite Nb, decide_False by congruence|by rewrite Na, decide_True by done].
  pose proof (number_texts_start xs Hx) as Sx. pose proof (number_texts_start ys Hy) as Sy.
  destruct (number_texts xs [] ∅) as [tx ix], (number_texts ys [] ∅) as [ty iy]. cbn [fst snd] in *.
  destruct Sx as (Mx & Dx & Ex), Sy as (My & Dy & Ey). pose proof (py_ecdh_config na nb Hne) as Hcfg.
  destruct (ecdh_outcome _ _ _ _ Hcfg sda sdb tx ty bc) as (sk & R & m & Hsk & Hrun & HR); try done.
  1: { intros ->. by apply (no_texts xs). }
  1: { intros ->. by apply (no_texts ys). }
  1: { apply Forall_forall. intros s (z & _ & ->)%Ex. apply int_to_string_short. }
  1: { intros sk' setup. by apply Hb2. }
  rewrite decide_False in HR by done.
  assert (HRin : forall s, s ∈ R <-> matches sk (Z.of_nat (length tx)) ty s = true /\ exists z, z ∈ xs /\ s = int_to_string z).
  { intros s. by rewrite HR, list_elem_of_filter, Ex. }
  exists (6 + if bc then 2 else 0)%nat, (fun z => matches sk (Z.of_nat (length tx)) ty (int_to_string z)), (numbers_of ix R), (numbers_of iy (if bc then R else [])), m.
  split_and!.
  - apply (one_run_decides (eq na) (eq nb)); [|by apply after_run|apply stuck_done].
    split_and!; [by apply apart_eq|apply after_disciplined; by eapply client_disciplined|apply after_disciplined; by eapply server_disciplined].
  - apply (numbers_NoDup xs); [done|by rewrite HR; apply NoDup_filter|]. intros s (_ & Hs)%HRin. done.
  - intros z. rewrite (elem_of_numbers ix R xs) by done. rewrite HRin. naive_solver.
  - intros z Hz. apply matches_complete, Ey. by eauto.
  - intros z. rewrite (elem_of_numbers iy _ ys) by done. destruct bc; [|pose proof (not_elem_of_nil (int_to_string z)); naive_solver].
    rewrite HRin. split; [|intros (_ & Hzx & Hzy); split_and!; [apply matches_complete, Ey|..]; by eauto].
    intros [(_ & y & Hyx & E) Hz]. rewrite Forall_forall in Hx, Hy. rewrite (int_to_string_inj z y) in Hz |- * by auto. done.
Qed.
End Programs.

(** ** Failures *)

(** A request without a proxy ends with an empty result and no exception, whatever the
    parties have in common: [ExecuteTask] returns success on a failure. *)
Theorem no_proxy_empty `{PsiLib} kkrt storage t sd input a b receiver bc protocol req :
  BuildPsiTaskRequest [a; b] receiver bc protocol t = Ret req -> auxiliary_server t !! PROXY_NODE = None ->
  RunPsi kkrt storage t sd input [a; b] receiver bc protocol = Done (Ret []).
Proof.
  intros Eb Hp. unfold RunPsi. rewrite decide_False by (cbn; lia). rewrite Eb. act_go. unfold PsiExecuteTask, LoadParams, BuildOptions.
  assert (auxiliary_server req !! PROXY_NODE = None) as ->.
  { revert Eb. unfold BuildPsiTaskRequest. case_match; [|done]. destruct (server_entry _ _ _ _); [|done..]. cbn [mbind res_bind].
    destruct (protocol_tag _); [|done..]. cbn [mbind res_bind]. intros [= <-]. done. }
  rewrite decide_True by done. act_go. rewrite decide_True by done. act_go. done.
Qed.

(** What the operator reports is not looked at either. *)
Theorem operator_code_dropped `{PsiLib} kkrt storage task sd input t : LoadParams storage task new_task = Ret (SUCCESS, t) -> psi_type_ t = KKRT ->
  broadcast_result_ t = false -> (forall o xs, kkrt o xs = Done (Ret (FAIL, []))) ->
  PsiExecuteTask kkrt storage task sd input = Done (Ret (SUCCESS, [])).
Proof.
  intros El Et Eb Hk. unfold PsiExecuteTask. rewrite El. act_go. unfold InitOperator. rewrite Et. change (Create KKRT) with (Ret (Some KkrtPsiOperator)).
  cbn [mbind res_bind]. act_go. cbn [or_undef on_execute]. rewrite Eb. unfold Execute. rewrite Hk. act_go. rewrite decide_True by done. done.
Qed.

(** Names that are not known, a third party and a protocol that is not one of the two
    are refused. *)
Theorem build_refused parties receiver bc protocol t : access_of receiver (party_access_info t) = None \/
  (exists p, p ∈ parties /\ p <> receiver /\ access_of p (party_access_info t) = None) \/ protocol ∉ [chars "KKRT"; chars "ECDH"] ->
  BuildPsiTaskRequest parties receiver bc protocol t = Throw.
Proof.
  intros Hbad. unfold BuildPsiTaskRequest. destruct (access_of receiver (party_access_info t)) as [n|] eqn:Er; [|done].
  destruct Hbad as [?|[(p & Hp & Hne & Hacc)|Hprot]]; [done| |].
  - assert (forall o, server_entry (party_access_info t) receiver parties o = Throw) as ->; [|done].
    induction parties as [|q parties IH]; [by apply not_elem_of_nil in Hp|]. intros o. cbn [server_entry].
    apply elem_of_cons in Hp as [<-|Hp]; [by rewrite decide_False, Hacc by done|]. case_decide; [by apply IH|]. case_match; [by apply IH|done].
  - destruct (server_entry _ _ _ _) as [x| |] eqn:Es; [| |].
    + cbn [mbind res_bind]. rewrite !not_elem_of_cons in Hprot. destruct Hprot as (H1 & H2 & _). unfold protocol_tag.
      rewrite (decide_False (P := protocol = chars "KKRT")), (decide_False (P := protocol = chars "ECDH")) by done. done.
    + done.
    + exfalso. revert Es. generalize (@None Node). induction parties as [|q parties IH]; intros o; cbn [server_entry]; [done|].
      case_decide; [apply IH|]. case_match; [apply IH|done].
Qed.

(** A receiver that is not one of the two parties: the second of them is the server,
    and the first takes itself for it. *)
Example receiver_outside t n1 n2 n3 : party_access_info t = [(chars "A", n1); (chars "B", n2); (chars "C", n3)] -> party_name t = chars "A" ->
  (fun r => (party_name r, party_access_info r)) <$> BuildPsiTaskRequest [chars "A"; chars "B"] (chars "C") false (chars "ECDH") t =
  Ret (PARTY_SERVER, [(PARTY_CLIENT, n3); (PARTY_SERVER, n2)]).
Proof. intros Ha Hp. unfold BuildPsiTaskRequest. rewrite Ha, Hp. reflexivity. Qed.

(** ** A sample *)

Definition py_task (party : str) (proxy : Node) : Task := {|
  party_name := party;
  party_access_info := [(chars "A", psi_client_node); (chars "B", psi_server_node)];
  auxiliary_server := {[PROXY_NODE := proxy]};
  params := ∅;
  party_datasets := ∅
|}.

Lemma integer_psi_correct_witness :
  exists n A B m, inevitable n
    (Sys (@run_as_integer plain_lib (fun _ _ => Done Throw) [] (py_task (chars "A") psi_client_node) tt [5; -7; 5] [chars "A"; chars "B"] (chars "A") true (chars "ECDH"))
         (@run_as_integer plain_lib (fun _ _ => Done Throw) [] (py_task (chars "B") psi_server_node) tt [-7; 3] [chars "A"; chars "B"] (chars "A") true (chars "ECDH")) ∅)
    (Sys (Done (Ret A)) (Done (Ret B)) m) /\ NoDup A /\ -7 ∈ A /\ (forall z, z ∈ B <-> z = -7).
Proof.
  destruct (@integer_psi_correct plain_lib plain_laws (fun _ _ => Done Throw) [] (py_task (chars "A") psi_client_node) (py_task (chars "B") psi_server_node)
    (chars "A") (chars "B") psi_client_node psi_server_node tt tt [5; -7; 5] [-7; 3] true) as (n & test & A & B & m & Hi & Hnd & HA & Ht & HB).
  - split; try done. intros t [->| ->]; done.
  - repeat constructor; unfold int64; lia.
  - repeat constructor; unfold int64; lia.
  - done.
  - done.
  - by vm_compute.
  - intros ck sk rq resp _ [= <-] _ [= <-]. vm_compute. reflexivity.
  - intros sk n setup _ [= <-]. vm_compute. reflexivity.
  - exists n, A, B, m. split_and!; [done|done|apply HA; split; [by right; left|apply Ht; by left]|]. intros z. rewrite HB.
    split; [intros (_ & H1 & H2)|intros ->; split_and!; [done|by right; left|by left]].
    rewrite !elem_of_cons in H1, H2.
    destruct H1 as [H1|[H1|H1%list_elem_of_singleton]], H2 as [H2|[H2|H2%not_elem_of_nil]]; first [done|lia].
Defined.
