(* ===== verification/MpcStatistics.v ===== *)
(** * The statistics task's algorithm

    Models [MPCStatisticsExecutor] of [algorithm/mpc_statistics.cc] (the build without
    [MPC_SOCKET_CHANNEL]): reading the request (the JSON texts that select the
    columns and give their types), loading the dataset, choosing and running the
    operator of [Statistics], and the table that is saved.  The JSON parser, the
    storage directory and the outcome of reading a dataset are arguments. *)

From Stdlib Require Import Ascii String ZArith Lia SpecFloat.
From stdpp Require Import base tactics list option gmap strings sorting.
From S2P Require Import Prelude ModArith Machine Doubles Json Common Aby3Op PartyProg ExprConfig ExprMpc MpcCompare MpcProg PsiData Psi PsiTask Statistics.

Local Open Scope Z_scope.

(** The members of [MPCStatisticsExecutor]. *)
Record StatExecutor : Type := SE {
  do_nothing_ : bool;
  result_ : list double;
  target_columns_ : list str;
  input_value_ : stable;
  new_ds_id_ : str;
  output_path_ : str;
  ds_name_ : str;
  stat_dataset_id_ : str;
  stat_dataset_detail_ : bool;
  col_type_ : gmap str Dtype.ColumnDtype;
  stat_type_ : MPCStatisticsType;
  executor_ : option MPCStatisticsOperator
}.

Definition new_StatExecutor : StatExecutor := SE false [] [] [] [] [] [] [] false ∅ UNKNOWN None.

Definition set_dataset (x : StatExecutor) (name id : str) (detail : bool) : StatExecutor :=
  SE (do_nothing_ x) (result_ x) (target_columns_ x) (input_value_ x) (new_ds_id_ x) (output_path_ x) name id detail
     (col_type_ x) (stat_type_ x) (executor_ x).
Definition set_selection (x : StatExecutor) (nothing : bool) (cols : list str) (ty : MPCStatisticsType) : StatExecutor :=
  SE nothing (result_ x) cols (input_value_ x) (new_ds_id_ x) (output_path_ x) (ds_name_ x) (stat_dataset_id_ x)
     (stat_dataset_detail_ x) (col_type_ x) ty (executor_ x).
Definition set_output (x : StatExecutor) (types : gmap str Dtype.ColumnDtype) (id path : str) : StatExecutor :=
  SE (do_nothing_ x) (result_ x) (target_columns_ x) (input_value_ x) id path (ds_name_ x) (stat_dataset_id_ x)
     (stat_dataset_detail_ x) types (stat_type_ x) (executor_ x).
Definition set_input (x : StatExecutor) (t : stable) : StatExecutor :=
  SE (do_nothing_ x) (result_ x) (target_columns_ x) t (new_ds_id_ x) (output_path_ x) (ds_name_ x) (stat_dataset_id_ x)
     (stat_dataset_detail_ x) (col_type_ x) (stat_type_ x) (executor_ x).
Definition set_executor (x : StatExecutor) (ty : MPCStatisticsType) (op : MPCStatisticsOperator) : StatExecutor :=
  SE (do_nothing_ x) (result_ x) (target_columns_ x) (input_value_ x) (new_ds_id_ x) (output_path_ x) (ds_name_ x)
     (stat_dataset_id_ x) (stat_dataset_detail_ x) (col_type_ x) ty (Some op).
Definition set_result (x : StatExecutor) (op : MPCStatisticsOperator) (r : list double) : StatExecutor :=
  SE (do_nothing_ x) r (target_columns_ x) (input_value_ x) (new_ds_id_ x) (output_path_ x) (ds_name_ x)
     (stat_dataset_id_ x) (stat_dataset_detail_ x) (col_type_ x) (stat_type_ x) (Some op).

(** ** Reading the request *)

(** The strings of the array [checked]; another value raises. *)
Fixpoint checked_names (l : list json) : res (list str) :=
  match l with
  | [] => Ret []
  | JString s :: l => rest ← checked_names l; Ret (s :: rest)
  | _ :: _ => Throw
  end.

Inductive selection := SelNone | SelEmpty | SelCols (l : list str).

(** The loop over [features]: the first entry for the dataset decides. *)
Fixpoint find_feature (ds : str) (features : list json) : res selection :=
  match features with
  | [] => Ret SelNone
  | item :: features =>
      has ← HasMember item (chars "resourceId");
      if negb has then Throw
      else
        id ← member item (chars "resourceId");
        match id with
        | JString s =>
            if decide (ds <> s) then find_feature ds features
            else
              checked ← member item (chars "checked");
              match checked with
              | JArray [] => Ret SelEmpty
              | JArray l => cols ← checked_names l; Ret (SelCols cols)
              | _ => Throw
              end
        | _ => Throw
        end
  end.

Definition stat_type_of (s : str) : option MPCStatisticsType :=
  if decide (s = chars "1") then Some AVG
  else if decide (s = chars "2") then Some SUM
  else if decide (s = chars "3") then Some MAX
  else if decide (s = chars "4") then Some MIN
  else None.

Section Request.
(** The text parser: [None] when the text is not JSON. *)
Context (Parse : str -> option json) (storage : str).

Definition parseColumnName (x : StatExecutor) (json_str : str) : res (retcode * StatExecutor) :=
  match Parse json_str with
  | None => Throw
  | Some json_doc =>
      has ← HasMember json_doc (chars "features");
      if negb has then Throw
      else
        features ← member json_doc (chars "features");
        match features with
        | JArray l =>
            sel ← find_feature (ds_name_ x) l;
            match sel with
            | SelEmpty => Ret (FAIL, set_selection x true (target_columns_ x) (stat_type_ x))
            | SelNone => Throw
            | SelCols cols =>
                has ← HasMember json_doc (chars "type");
                if negb has then Throw
                else
                  ty ← member json_doc (chars "type");
                  s ← GetString ty;
                  match stat_type_of s with
                  | None => Throw
                  | Some ty => Ret (SUCCESS, set_selection x false (target_columns_ x ++ cols) ty)
                  end
            end
        | _ => Throw
        end
  end.

(** The loop over the members of [columns]: the first type of a column counts. *)
Fixpoint read_dtypes (l : list (str * json)) (types : gmap str Dtype.ColumnDtype) : res (gmap str Dtype.ColumnDtype) :=
  match l with
  | [] => Ret types
  | (name, v) :: l => z ← GetInt v; read_dtypes l (map_insert name (columnDtypeFromInteger z) types)
  end.

Definition parseColumnDtype (x : StatExecutor) (json_str : str) : res (retcode * StatExecutor) :=
  match Parse json_str with
  | None => Throw
  | Some json_doc =>
      has ← HasMember json_doc (ds_name_ x);
      if negb has then Throw
      else
        map_obj ← member json_doc (ds_name_ x);
        has1 ← HasMember map_obj (chars "columns");
        if negb has1 then Throw
        else
          has2 ← HasMember map_obj (chars "newDataSetId");
          if negb has2 then Throw
          else
            has3 ← HasMember map_obj (chars "outputFilePath");
            if negb has3 then Throw
            else
              dtype_obj ← member map_obj (chars "columns");
              match dtype_obj with
              | JObject l =>
                  types ← read_dtypes l (col_type_ x);
                  new_id ← member map_obj (chars "newDataSetId");
                  new_path ← member map_obj (chars "outputFilePath");
                  match new_id, new_path with
                  | JString id, JString path => Ret (SUCCESS, set_output x types id (CompletePath storage path))
                  | _, _ => Throw
                  end
              | _ => Throw
              end
  end.

(** Every selected column needs one of the numeric types. *)
Fixpoint check_dtypes (types : gmap str Dtype.ColumnDtype) (cols : list str) : res unit :=
  match cols with
  | [] => Ret tt
  | c :: cols =>
      match types !! c with
      | None => Throw
      | Some t =>
          if bool_decide (t <> Dtype.LONG) && bool_decide (t <> Dtype.INTEGER) && bool_decide (t <> Dtype.DOUBLE)
          then Throw else check_dtypes types cols
      end
  end.

(** [param_map[key].value_string()] on the copied map. *)
Definition string_param (task : Task) (key : string) : str :=
  match params task !! chars key with Some p => get_string p | None => [] end.

(** The dataset of the party named [party_name]: its display name and its id. *)
Definition find_dataset (party_name : str) (task : Task) : option (str * str * bool) :=
  match auxiliary_server task !! PROXY_NODE with
  | None => None
  | Some _ =>
      ds ← party_datasets task !! party_name;
      id ← data ds !! chars "Data_File";
      if dataset_detail ds then
        match params task !! chars "Data_File" with
        | Some p => Some (get_string p, id, true)
        | None => None
        end
      else Some (id, id, false)
  end.

(** [loadParams] of the party [party_name].  The flag [UseMPC_Div] is read and
    then dropped; what is set on the way to a return of -1 is not kept, the object
    is not used after it. *)
Definition stat_loadParams (party_name : str) (task : Task) (x : StatExecutor) : res (Z * StatExecutor) :=
  match find_dataset party_name task with
  | None => Ret (-1, x)
  | Some (name, id, detail) =>
      let x := set_dataset x name id (detail || stat_dataset_detail_ x) in
      '(ret, x) ← parseColumnName x (string_param task "TaskDetail");
      if decide (ret <> SUCCESS) then Ret (if do_nothing_ x then 0 else -1, x)
      else
        '(ret, x) ← parseColumnDtype x (string_param task "ColumnInfo");
        if decide (ret <> SUCCESS) then Ret (-1, x)
        else
          let cols := sort_names (target_columns_ x) in
          let x := set_selection x (do_nothing_ x) cols (stat_type_ x) in
          _ ← check_dtypes (col_type_ x) cols;
          let col_count := Z.of_nat (length cols) mod 2 ^ 16 in
          if col_count =? 0 then Undef else Ret (0, x)
  end.
End Request.

(** ** Loading, running, saving *)

(** [dataset] is what the driver's cursor gives for the dataset id. *)
Definition stat_loadDataset (dataset : option stable) (x : StatExecutor) : Z * StatExecutor :=
  if do_nothing_ x then (0, x)
  else match dataset with None => (-1, x) | Some t => (0, set_input x t) end.

(** [rpc::Algorithm]'s operation number. *)
Definition op_type_of (z : Z) : option MPCStatisticsType :=
  if z =? 0 then Some MAX else if z =? 1 then Some MIN else if z =? 2 then Some AVG else if z =? 3 then Some SUM else None.

Definition make_operator (ty : MPCStatisticsType) : option MPCStatisticsOperator :=
  match ty with
  | AVG | SUM => Some (new_MPCSumOrAvg ty)
  | MAX | MIN => Some (new_MPCMinOrMax ty)
  | UNKNOWN => None
  end.

(** [op_type] is [statistics_op_type] of the task configuration. *)
Definition stat_InitEngine (op_type : Z) (x : StatExecutor) : res (retcode * StatExecutor) :=
  let ty := if decide (stat_type_ x = UNKNOWN) then op_type_of op_type else Some (stat_type_ x) in
  match ty with
  | None => Throw
  | Some ty => match make_operator ty with None => Throw | Some op => Ret (SUCCESS, set_executor x ty op) end
  end.

Section Execute.
Context `{E : Aby3}.

Definition stat_execute (party_id : Z) (x : StatExecutor) : mprog (Z * StatExecutor) :=
  if do_nothing_ x then mret (0, x)
  else
    op ← MDone (or_undef (executor_ x));
    '(ret, op) ← stat_run op party_id (input_value_ x) (target_columns_ x) (col_type_ x);
    if decide (ret <> SUCCESS) then mret (-1, set_result x op (result_ x))
    else mret (0, set_result x op (getResult op)).

(** [execute] on given numbers: one row per column, its value and its row count;
    the results are appended to [result]. *)
Definition stat_execute_data (party_id : Z) (input_data_info : list (double * double)) (result : list double) (x : StatExecutor)
  : mprog (retcode * list double * StatExecutor) :=
  op ← MDone (or_undef (executor_ x));
  '(ret, op) ← CipherTextDataCompute op party_id (fst <$> input_data_info) (snd <$> input_data_info);
  if decide (ret <> SUCCESS) then mret (FAIL, result, set_result x op (result_ x))
  else mret (SUCCESS, result ++ getResult op, set_result x op (getResult op)).
End Execute.

(** [saveModel]: the table written to [output_path_] and registered, a column of
    one number per selected column; [write_ret] is the cursor's answer. *)
Definition stat_saveModel (write_ret : Z) (x : StatExecutor) : Z * option (str * str * list (str * double)) :=
  if do_nothing_ x then (0, None)
  else if negb (write_ret =? 0) then (-1, None)
  else (0, Some (new_ds_id_ x, output_path_ x, zip (target_columns_ x) (result_ x))).
