(* ===== verification/MpcTask.v ===== *)
(** * MPC tasks

    Models [MPCTask] of [task/semantic/mpc_task.cc]: the choice of the algorithm by
    its name, the sequence of steps of a task ([ExecuteImpl]), the task on numbers
    that a caller passes in ([ExecuteTask]) and the auxiliary party, which takes
    part with neutral numbers.  The algorithms are used through the interface
    [Algorithm] ([algorithm/base.h]); [statistics] is its instance for
    [MPCStatisticsExecutor]. *)

From Stdlib Require Import Ascii String ZArith Lia SpecFloat.
From stdpp Require Import base tactics list option gmap strings sorting.
From S2P Require Import Prelude ModArith Machine Doubles Json Common Aby3Op PartyProg ExprConfig ExprMpc MpcCompare MpcProg.
From S2P Require Import PsiData Psi PsiTask Statistics StatProps MpcStatistics.

Local Open Scope Z_scope.

(** ** Which algorithm *)

Inductive accuracy := D16 | D32.
Inductive algo_kind := LogisticRegression | StatisticsAlgo | MissingAlgo | ArithmeticAlgo (d : accuracy).

Definition accuracy_of (task : Task) : accuracy := if decide (string_param task "Accuracy" = chars "D32") then D32 else D16.

(** The constructor that reads datasets; names without an implementation, and
    unknown ones, leave the null pointer. *)
Definition make_algorithm (function_name : str) (task : Task) : option algo_kind :=
  if decide (function_name = chars "logistic_regression") then Some LogisticRegression
  else if decide (function_name ∈ chars <$> ["linear_regression"; "xgboost"; "lightgbm"; "catboost"; "dnn"; "cnn"; "rnn"; "lstm"]%string) then None
  else if decide (function_name = chars "mpc_statistics") then Some StatisticsAlgo
  else if decide (function_name = chars "AbnormalProcessTask") then Some MissingAlgo
  else if decide (function_name = chars "arithmetic") then Some (ArithmeticAlgo (accuracy_of task))
  else None.

(** The constructor of a task whose numbers are passed in. *)
Definition make_algorithm_data (function_name : str) (task : Task) : option algo_kind :=
  if decide (function_name = chars "mpc_statistics") then Some StatisticsAlgo
  else if decide (function_name = chars "AbnormalProcessTask") then Some MissingAlgo
  else if decide (function_name = chars "arithmetic") then Some (ArithmeticAlgo (accuracy_of task))
  else None.

(** ** The interface of an algorithm *)

Record Algorithm (S O : Type) : Type := {
  InitTaskConfig : Task -> S -> S;
  loadParams : S -> res (Z * S);
  loadDataset : S -> res (Z * S);
  initPartyComm : S -> res (Z * S);
  InitEngine : S -> res (retcode * S);
  execute : S -> mprog (Z * S);
  execute_data : list (double * double) -> list double -> S -> mprog (retcode * list double * S);
  finishPartyComm : S -> mprog S;
  saveModel : S -> res (Z * option O)
}.
Arguments InitTaskConfig {S O} a.
Arguments loadParams {S O} a.
Arguments loadDataset {S O} a.
Arguments initPartyComm {S O} a.
Arguments InitEngine {S O} a.
Arguments execute {S O} a.
Arguments execute_data {S O} a.
Arguments finishPartyComm {S O} a.
Arguments saveModel {S O} a.

(** [try ... catch (std::exception&)]. *)
Fixpoint mcatch {A} (p h : mprog A) : mprog A :=
  match p with
  | MDone Throw => h
  | MDone r => MDone r
  | MCall c k => MCall c (fun s => mcatch (k s) h)
  | MRecv s k => MRecv s (fun m => mcatch (k m) h)
  | MSend s to k => MSend s to (mcatch k h)
  | MRevealAll s k => MRevealAll s (fun m => mcatch (k m) h)
  | MCompare o k => MCompare o (fun b m => mcatch (k b m) h)
  | MBitRecv b k => MBitRecv b (fun l => mcatch (k l) h)
  | MBitSend b to k => MBitSend b to (mcatch k h)
  | MSendSize sz k => MSendSize sz (mcatch k h)
  | MRecvSize from k => MRecvSize from (fun sz => mcatch (k sz) h)
  end.

Section Task.
Context {S O : Type} (a : Algorithm S O).

(** The steps of a task, with the result it saved.  The code checks the previous
    result after [InitEngine], so what [InitEngine] returns is not looked at. *)
Definition ExecuteImpl (s : S) : mprog (retcode * option O) :=
  '(ret, s) ← MDone (loadParams a s);
  if negb (ret =? 0) then mret (FAIL, None) else
  '(ret, s) ← MDone (loadDataset a s);
  if negb (ret =? 0) then mret (FAIL, None) else
  '(ret, s) ← MDone (initPartyComm a s);
  if negb (ret =? 0) then mret (FAIL, None) else
  '(_, s) ← MDone (InitEngine a s);
  '(ret, s) ← execute a s;
  if negb (ret =? 0) then mret (FAIL, None) else
  s ← finishPartyComm a s;
  '(ret, out) ← MDone (saveModel a s);
  if negb (ret =? 0) then mret (FAIL, None) else mret (SUCCESS, out).

(** [ExecuteTask]: [rows_per_col[i]] is read for every input number. *)
Definition ExecuteTask (task : Task) (input_data : list double) (rows_per_col : list Z) (result : list double) (s : S)
  : mprog (retcode * list double) :=
  rows ← MDone (or_undef (mapM (fun i => rows_per_col !! i) (seq 0 (length input_data))));
  let info := zip input_data (d_of_int <$> rows) in
  mcatch
    (let s := InitTaskConfig a task s in
     if decide (auxiliary_server task !! PROXY_NODE = None) then mret (FAIL, result) else
     '(ret, s) ← MDone (initPartyComm a s);
     if negb (ret =? 0) then mret (FAIL, result) else
     '(ret, s) ← MDone (InitEngine a s);
     if decide (ret <> SUCCESS) then mret (FAIL, result) else
     '(ret, result, s) ← execute_data a info result s;
     if decide (ret <> SUCCESS) then mret (FAIL, result) else
     s ← finishPartyComm a s;
     mret (SUCCESS, result))
    (mret (FAIL, result)).
End Task.

(** [MakeAuxiliaryComputeData]: the code, the numbers and the row counts; a
    negative size makes [reserve] throw. *)
Definition MakeAuxiliaryComputeData (op_type : Z) (shape : list Z) : res (retcode * list double * list Z) :=
  match shape with
  | [_; col_size] =>
      if col_size <? 0 then Throw
      else
        let col_rows := replicate (Z.to_nat col_size) 0 in
        match op_type_of op_type with
        | Some MAX => Ret (SUCCESS, replicate (Z.to_nat col_size) dbl_min, col_rows)
        | Some MIN => Ret (SUCCESS, replicate (Z.to_nat col_size) dbl_max, col_rows)
        | Some AVG | Some SUM => Ret (SUCCESS, replicate (Z.to_nat col_size) d_zero, col_rows)
        | _ => Ret (FAIL, [], col_rows)
        end
  | _ => Ret (FAIL, [], [])
  end.

(** [MPCTask::execute]; [shape] is what the launcher sent.  The return codes of
    receiving the shape and of making the numbers are not looked at. *)
Definition MPCTask_execute {S O} (a : option (Algorithm S O)) (task : Task) (op_type : Z) (shape : list Z) (s : S) : mprog (Z * option O) :=
  match a with
  | None => mret (-1, None)
  | Some a =>
      if IsAuxiliaryCompute (party_name task) then
        '(_, input, col_rows) ← MDone (MakeAuxiliaryComputeData op_type shape);
        '(ret, _) ← ExecuteTask a task input col_rows [] s;
        mret (if decide (ret <> SUCCESS) then -1 else 0, None)
      else
        '(ret, out) ← ExecuteImpl a s;
        mret (if decide (ret <> SUCCESS) then -1 else 0, out)
  end.

(** ** The statistics algorithm behind the interface

    [op_type] is [statistics_op_type] of the configuration [InitTaskConfig] copies
    (0 before), [link] whether a link context is there, [dataset] and [write_ret]
    the outcomes of reading and writing. *)

Record stat_state : Type := SS { ss_exec : StatExecutor; ss_op_type : Z }.

Section Statistics.
Context `{E : Aby3} (Parse : str -> option json) (storage : str).

Definition statistics (party_id : Z) (task : Task) (op_type : Z) (link : bool) (dataset : option stable) (write_ret : Z)
  : Algorithm stat_state (str * str * list (str * double)) := {|
  InitTaskConfig _ s := SS (ss_exec s) op_type;
  loadParams s := '(r, x) ← stat_loadParams Parse storage (party_name task) task (ss_exec s); Ret (r, SS x (ss_op_type s));
  loadDataset s := let '(r, x) := stat_loadDataset dataset (ss_exec s) in Ret (r, SS x (ss_op_type s));
  initPartyComm s := Ret (if link then 0 else -1, s);
  InitEngine s := '(r, x) ← stat_InitEngine (ss_op_type s) (ss_exec s); Ret (r, SS x (ss_op_type s));
  execute s := '(r, x) ← stat_execute party_id (ss_exec s); mret (r, SS x (ss_op_type s));
  execute_data info result s :=
    '(r, result, x) ← stat_execute_data party_id info result (ss_exec s); mret (r, result, SS x (ss_op_type s));
  finishPartyComm s := mret s;
  saveModel s := Ret (stat_saveModel write_ret (ss_exec s))
|}.
End Statistics.

(** ** What a request says *)

Record stat_request (Parse : str -> option json) (task : Task) (cols : list str) (ty : MPCStatisticsType)
    (types : gmap str Dtype.ColumnDtype) (new_id path : str) : Prop := {
  sr_dataset : exists name id detail, find_dataset (party_name task) task = Some (name, id, detail) /\
    (exists doc feats s, Parse (string_param task "TaskDetail") = Some (JObject doc) /\
       find_member (chars "features") doc = Some (JArray feats) /\ find_feature name feats = Ret (SelCols cols) /\
       find_member (chars "type") doc = Some (JString s) /\ stat_type_of s = Some ty) /\
    (exists doc obj l, Parse (string_param task "ColumnInfo") = Some (JObject doc) /\ find_member name doc = Some (JObject obj) /\
       find_member (chars "columns") obj = Some (JObject l) /\ read_dtypes l ∅ = Ret types /\
       find_member (chars "newDataSetId") obj = Some (JString new_id) /\ find_member (chars "outputFilePath") obj = Some (JString path));
  sr_numeric : Forall (fun c => types !! c = Some Dtype.LONG \/ types !! c = Some Dtype.INTEGER \/ types !! c = Some Dtype.DOUBLE) cols;
  sr_count : (0 < length cols)%nat /\ Z.of_nat (length cols) < 2 ^ 16
}.

Lemma check_dtypes_ok types cols :
  Forall (fun c => types !! c = Some Dtype.LONG \/ types !! c = Some Dtype.INTEGER \/ types !! c = Some Dtype.DOUBLE) cols ->
  check_dtypes types cols = Ret tt.
Proof. induction 1 as [|c cols H _ IH]; simpl; [done|]. by destruct H as [-> | [-> | ->]]. Qed.

Lemma has_member l k v : find_member k l = Some v -> HasMember (JObject l) k = Ret true /\ member (JObject l) k = Ret v.
Proof. intros H. simpl. by rewrite H. Qed.

(** Loading such a request selects its columns in sorted order. *)
Lemma loadParams_request Parse storage task cols ty types new_id path : stat_request Parse task cols ty types new_id path ->
  exists x, stat_loadParams Parse storage (party_name task) task new_StatExecutor = Ret (0, x) /\
    do_nothing_ x = false /\ target_columns_ x = sort_names cols /\ stat_type_ x = ty /\ col_type_ x = types /\
    new_ds_id_ x = new_id /\ output_path_ x = CompletePath storage path.
Proof.
  intros [(name & id & detail & Hds & (doc & feats & s & Hp & Hf & Hff & Ht & Hty) & (doc' & obj & l & Hp' & Hobj & Hc & Hr & Hid & Hpath)) Hn [Hl0 Hl1]].
  unfold stat_loadParams. rewrite Hds. unfold parseColumnName. rewrite Hp. destruct (has_member _ _ _ Hf) as [-> ->].
  cbn [mbind res_bind negb set_dataset ds_name_]. rewrite Hff. destruct (has_member _ _ _ Ht) as [-> ->].
  cbn [mbind res_bind negb GetString]. rewrite Hty.
  cbn [mbind res_bind set_selection set_dataset target_columns_ new_StatExecutor app]. rewrite decide_False by naive_solver.
  unfold parseColumnDtype. cbn [set_selection set_dataset ds_name_ new_StatExecutor]. rewrite Hp'.
  destruct (has_member _ _ _ Hobj) as [-> ->]. cbn [mbind res_bind negb]. destruct (has_member _ _ _ Hc) as [-> ->].
  destruct (has_member _ _ _ Hid) as [-> ->]. destruct (has_member _ _ _ Hpath) as [-> ->]. cbn [mbind res_bind negb col_type_ set_selection set_dataset new_StatExecutor].
  rewrite Hr. cbn [mbind res_bind]. rewrite decide_False by naive_solver.
  cbn [set_output target_columns_ col_type_ set_selection do_nothing_ stat_type_]. rewrite check_dtypes_ok.
  - cbn [mbind res_bind]. rewrite sort_names_length, Z.mod_small by lia. rewrite (proj2 (Z.eqb_neq _ 0)) by lia. by eexists.
  - apply Forall_forall. intros c Hc'. by apply (proj1 (Forall_forall _ _) Hn), sort_names_elem.
Qed.

Lemma make_operator_of ty : ty <> UNKNOWN -> make_operator ty = Some (operator_of ty).
Proof. by destruct ty. Qed.

(** What one party brings to a statistics task. *)
Record stat_party : Type := StatParty {
  sp_task : Task; sp_cols : list str; sp_types : gmap str Dtype.ColumnDtype; sp_new_id : str; sp_path : str; sp_table : stable }.

Section EndToEnd.
Context `{L : Aby3Laws} {F : FixedLaws E} (add_msb : Z -> Z -> bool) (Parse : str -> option json) (storage : str).
Hypothesis msb_law : forall x y, in_i64 x = true -> in_i64 y = true -> add_msb x y = bool_decide (wrap (x + y) < 0).

Definition party_task (p : Z) (q : stat_party) : mprog (retcode * option (str * str * list (str * double))) :=
  ExecuteImpl (statistics Parse storage p (sp_task q) 0 true (Some (sp_table q)) 0) (SS new_StatExecutor 0).

Definition party_request (ty : MPCStatisticsType) (q : stat_party) : Prop :=
  stat_request Parse (sp_task q) (sp_cols q) ty (sp_types q) (sp_new_id q) (sp_path q).

(** The task from [execute] on. *)
Definition finish_task (p : Z) (x : StatExecutor) : mprog (retcode * option (str * str * list (str * double))) :=
  '(ret, s) ← ('(r, x) ← stat_execute p x; mret (r, SS x 0));
  if negb (ret =? 0) then mret (FAIL, None) else
  s ← mret s;
  '(ret, out) ← MDone (Ret (stat_saveModel 0 (ss_exec s)));
  if negb (ret =? 0) then mret (FAIL, None) else mret (SUCCESS, out).

(** Up to the protocol the task is a local computation. *)
Lemma party_task_prefix p q ty : party_request ty q -> ty <> UNKNOWN ->
  exists x, party_task p q = finish_task p x /\
    do_nothing_ x = false /\ target_columns_ x = sort_names (sp_cols q) /\ col_type_ x = sp_types q /\
    new_ds_id_ x = sp_new_id q /\ output_path_ x = CompletePath storage (sp_path q) /\ input_value_ x = sp_table q /\
    executor_ x = Some (operator_of ty).
Proof.
  intros Hq Hty. destruct (loadParams_request Parse storage _ _ _ _ _ _ Hq) as (x & Hx & X1 & X2 & X3 & X4 & X5 & X6).
  exists (set_executor (set_input x (sp_table q)) ty (operator_of ty)). split; [|done].
  unfold party_task, ExecuteImpl. cbn [statistics loadParams loadDataset initPartyComm InitEngine ss_exec ss_op_type].
  rewrite Hx. cbn [mbind res_bind mprog_mbind mprog_bind ss_exec ss_op_type]. rewrite Z.eqb_refl. cbn [negb].
  unfold stat_loadDataset. rewrite X1. cbn [mbind mprog_mbind mprog_bind ss_exec ss_op_type]. rewrite Z.eqb_refl. cbn [negb mprog_bind].
  unfold stat_InitEngine. cbn [set_input stat_type_]. rewrite X3, decide_False by done. by rewrite make_operator_of.
Qed.

(** C17: a statistics task is correct end to end: three parties whose requests select
    the same columns, in whatever order, with the same statistic, and whose tables
    have these integer columns within the bounds of exact arithmetic, run their
    tasks (reading the request, loading, choosing the operator, the protocol and
    saving) to [SUCCESS], and each saves, under its own dataset id and path, the
    same table: the selected columns in sorted order, each with one double, the sum
    of the joint column, that sum divided by the number of rows, its minimum, or,
    for MAX, the larger of 0 and its maximum (0 for a column of negative values). *)
Theorem statistics_task_correct ty (q : trip stat_party) (C : list (trip (list Z))) n :
  party_request ty (at0 q) -> party_request ty (at1 q) -> party_request ty (at2 q) ->
  sp_cols (at1 q) ≡ₚ sp_cols (at0 q) -> sp_cols (at2 q) ≡ₚ sp_cols (at0 q) ->
  let cols := sort_names (sp_cols (at0 q)) in
  joint_data ty (trip_map sp_table q) (trip_map sp_types q) cols C ->
  exists values n', Forall2 (stat_value ty) C values /\
    mrun3 add_msb n (party_task 0 (at0 q)) (party_task 1 (at1 q)) (party_task 2 (at2 q)) =
      Some (n', trip_map (fun s => Ret (SUCCESS, Some (sp_new_id s, CompletePath storage (sp_path s), zip cols values))) q).
Proof.
  intros R0 R1 R2 P1 P2 cols HC. assert (Hty : ty <> UNKNOWN) by (by intros ->).
  destruct (statistics_run add_msb ty _ _ _ _ n msb_law HC) as (op & n' & HF & Hrun). cbn zeta in Hrun.
  destruct (party_task_prefix 0 _ ty R0 Hty) as (x0 & -> & A1 & A2 & A3 & A4 & A5 & A6 & A7).
  destruct (party_task_prefix 1 _ ty R1 Hty) as (x1 & -> & B1 & B2 & B3 & B4 & B5 & B6 & B7).
  destruct (party_task_prefix 2 _ ty R2 Hty) as (x2 & -> & C1 & C2 & C3 & C4 & C5 & C6 & C7).
  rewrite (sort_names_perm _ _ P1) in B2. rewrite (sort_names_perm _ _ P2) in C2.
  exists (getResult op), n'. split; [done|]. unfold finish_task, stat_execute.
  rewrite A1, A2, A3, A6, A7, B1, B2, B3, B6, B7, C1, C2, C3, C6, C7.
  cbn [or_undef mbind mprog_mbind mprog_bind].
  assert (Hex := mrun3_bind add_msb n _ _ _ n' _ _ _
    (fun '(ret, op) => if decide (ret <> SUCCESS) then mret (-1, set_result x0 op (result_ x0)) else mret (0, set_result x0 op (getResult op)))
    (fun '(ret, op) => if decide (ret <> SUCCESS) then mret (-1, set_result x1 op (result_ x1)) else mret (0, set_result x1 op (getResult op)))
    (fun '(ret, op) => if decide (ret <> SUCCESS) then mret (-1, set_result x2 op (result_ x2)) else mret (0, set_result x2 op (getResult op))) Hrun).
  cbn [mrun3] in Hex. rewrite !decide_False in Hex by naive_solver.
  assert (Hex2 := mrun3_bind add_msb n _ _ _ n' _ _ _ (fun '(r, x) => mret (r, SS x 0)) (fun '(r, x) => mret (r, SS x 0)) (fun '(r, x) => mret (r, SS x 0)) Hex).
  etransitivity; [exact (mrun3_bind add_msb n _ _ _ n' _ _ _ _ _ _ Hex2)|].
  cbn [negb Z.eqb mret mprog_ret mbind mprog_mbind mprog_bind ss_exec].
  unfold stat_saveModel. cbn [set_result do_nothing_ target_columns_ new_ds_id_ output_path_ result_].
  rewrite A1, A2, A4, A5, B1, B2, B4, B5, C1, C2, C4, C5. done.
Qed.
End EndToEnd.

(** ** Tasks on given numbers, with an auxiliary party *)

Lemma mrun3_catch `{E : Aby3} add_msb {A} n (p0 p1 p2 h0 h1 h2 : mprog A) n' a0 a1 a2 :
  mrun3 add_msb n p0 p1 p2 = Some (n', Trip (Ret a0) (Ret a1) (Ret a2)) ->
  mrun3 add_msb n (mcatch p0 h0) (mcatch p1 h1) (mcatch p2 h2) = Some (n', Trip (Ret a0) (Ret a1) (Ret a2)).
Proof. revert n p1 p2. run3_induction p0. Qed.

Lemma mapM_lookup_seq {A} (l : list A) : mapM (fun i => l !! i) (seq 0 (length l)) = Some l.
Proof.
  apply mapM_Some_2. apply Forall2_same_length_lookup_2; [by rewrite length_seq|].
  intros i x y Hx Hy. apply lookup_seq in Hx as [-> Hi]. exact Hy.
Qed.

Section Auxiliary.
Context `{L : Aby3Laws} {F : FixedLaws E} (add_msb : Z -> Z -> bool) (Parse : str -> option json) (storage : str).

(** The call of [ExecuteTask] by party [p] with the column totals [v] and row counts [c]. *)
Definition data_task (p op_type : Z) (task : Task) (v : list double) (c : list Z) : mprog (retcode * list double) :=
  ExecuteTask (statistics Parse storage p task op_type true None 0) task v c [] (SS new_StatExecutor 0).

(** Up to the protocol: the operator is made from the operation number. *)
Lemma data_task_prefix p op_type ty task v c : op_type_of op_type = Some ty -> ty = SUM \/ ty = AVG ->
  auxiliary_server task !! PROXY_NODE <> None -> length c = length v ->
  exists k, data_task p op_type task v c =
    mcatch ('(ret, result, s) ← ('(r, result, x) ← ('(ret, op) ← (r ← SumOrAvg_CipherTextDataCompute (bool_decide (ty = AVG)) false p v (d_of_int <$> c);
                                                                  mret (SUCCESS, MPCSumOrAvg (bool_decide (ty = AVG)) false r)); k ret op);
                                  mret (r, result, SS x op_type));
            if decide (ret <> SUCCESS) then mret (FAIL, result) else s ← mret s; mret (SUCCESS, result)) (mret (FAIL, [])) /\
    forall op, exists x, k SUCCESS op = mret (SUCCESS, getResult op, x).
Proof.
  intros Hop Hty Hproxy Hlen. unfold data_task, ExecuteTask. rewrite <- Hlen, mapM_lookup_seq. cbn [or_undef mbind mprog_mbind mprog_bind].
  cbn [statistics InitTaskConfig initPartyComm InitEngine execute_data finishPartyComm ss_exec ss_op_type]. rewrite decide_False by done.
  cbn [mbind mprog_mbind mprog_bind]. rewrite Z.eqb_refl. cbn [negb]. unfold stat_InitEngine. cbn [stat_type_ new_StatExecutor].
  rewrite decide_True, Hop by done. rewrite make_operator_of by (destruct Hty; by subst).
  cbn [mbind res_bind mprog_mbind mprog_bind]. rewrite decide_False by naive_solver. unfold stat_execute_data.
  cbn [executor_ set_executor or_undef mbind mprog_mbind mprog_bind ss_exec].
  assert (Hz1 : fst <$> zip v (d_of_int <$> c) = v) by (apply fst_zip; rewrite length_fmap; lia).
  assert (Hz2 : snd <$> zip v (d_of_int <$> c) = d_of_int <$> c) by (apply snd_zip; rewrite length_fmap; lia).
  rewrite Hz1, Hz2. eexists (fun ret op => if decide (ret <> SUCCESS) then _ else _). split; [destruct Hty; subst ty; reflexivity|].
  intros op. eexists. cbn beta. by rewrite decide_False by naive_solver.
Qed.

(** The totals with a third party of zeros. *)
Lemma aux_totals (ty : MPCStatisticsType) (D : list (Z * Z * Z * Z)) :
  Forall (fun '(a, b, ra, rb) => Z.abs a + Z.abs b < 2 ^ 47 /\ Z.abs ra + Z.abs rb < 2 ^ 47) D ->
  (if bool_decide (ty = AVG) then
     zip_with ddiv (fixed_total (d_of_int <$> ((fun '(a, _, _, _) => a) <$> D)) (d_of_int <$> ((fun '(_, b, _, _) => b) <$> D)) (replicate (length D) d_zero))
       (fixed_total (d_of_int <$> ((fun '(_, _, r, _) => r) <$> D)) (d_of_int <$> ((fun '(_, _, _, r) => r) <$> D)) (d_of_int <$> replicate (length D) 0))
   else fixed_total (d_of_int <$> ((fun '(a, _, _, _) => a) <$> D)) (d_of_int <$> ((fun '(_, b, _, _) => b) <$> D)) (replicate (length D) d_zero)) =
  (fun '(a, b, ra, rb) => if bool_decide (ty = AVG) then ddiv (d_of_int (a + b)) (d_of_int (ra + rb)) else d_of_int (a + b)) <$> D.
Proof.
  intros HD.
  assert (H1 : fixed_total (d_of_int <$> ((fun '(a, _, _, _) => a) <$> D)) (d_of_int <$> ((fun '(_, b, _, _) => b) <$> D)) (replicate (length D) d_zero) =
    (fun '(a, b, _, _) => d_of_int (a + b)) <$> D).
  { assert (T := fixed_total_ints (fun z => z) ((fun '(a, b, _, _) => Trip a b 0) <$> D)).
    rewrite <- !list_fmap_compose in T. rewrite <- !list_fmap_compose.
    replace (replicate (length D) d_zero) with ((fun _ => d_of_int 0) <$> D) by (clear; induction D; simpl; by f_equal).
    etransitivity; [|etransitivity; [apply T|]].
    - f_equal; apply list_fmap_ext; by intros ? [[[]]].
    - apply Forall_fmap. eapply Forall_impl; [exact HD|]. intros [[[x y] u] w] [? ?]. simpl. lia.
    - apply list_fmap_ext. intros ? [[[x y] u] w] _. simpl. f_equal. lia. }
  assert (H2 : fixed_total (d_of_int <$> ((fun '(_, _, r, _) => r) <$> D)) (d_of_int <$> ((fun '(_, _, _, r) => r) <$> D)) (d_of_int <$> replicate (length D) 0) =
    (fun '(_, _, ra, rb) => d_of_int (ra + rb)) <$> D).
  { assert (T := fixed_total_ints (fun z => z) ((fun '(_, _, x, y) => Trip x y 0) <$> D)).
    rewrite <- !list_fmap_compose in T. rewrite <- !list_fmap_compose.
    replace (replicate (length D) 0) with ((fun _ => 0) <$> D) by (clear; induction D; simpl; by f_equal).
    rewrite <- list_fmap_compose.
    etransitivity; [|etransitivity; [apply T|]].
    - f_equal; apply list_fmap_ext; by intros ? [[[]]].
    - apply Forall_fmap. eapply Forall_impl; [exact HD|]. intros [[[x y] u] w] [? ?]. simpl. lia.
    - apply list_fmap_ext. intros ? [[[x y] u] w] _. simpl. f_equal. lia. }
  rewrite H1, H2. case_bool_decide; [rewrite zip_with_fmap_l, zip_with_fmap_r; clear; induction D as [|[[[x y] u] w] D IH]; simpl; by f_equal|].
  apply list_fmap_ext. by intros ? [[[]]].
Qed.

(** an auxiliary party does not change the statistics: when two parties run a
    SUM or AVG task on their column totals [a] and [b] with row counts [ra] and
    [rb], and the third makes its input from the number of columns alone, all
    three calls of [ExecuteTask] return [SUCCESS] with, column by column, the exact
    sum [a + b], or that sum divided by the number of rows [ra + rb]. *)
Theorem auxiliary_party_neutral op_type (tasks : trip Task) (D : list (Z * Z * Z * Z)) n m :
  op_type = 2 \/ op_type = 3 ->
  auxiliary_server (at0 tasks) !! PROXY_NODE <> None -> auxiliary_server (at1 tasks) !! PROXY_NODE <> None ->
  auxiliary_server (at2 tasks) !! PROXY_NODE <> None ->
  Forall (fun '(a, b, ra, rb) => Z.abs a + Z.abs b < 2 ^ 47 /\ Z.abs ra + Z.abs rb < 2 ^ 47) D ->
  exists input rows, MakeAuxiliaryComputeData op_type [m; Z.of_nat (length D)] = Ret (SUCCESS, input, rows) /\
    let a := (fun '(a, _, _, _) => a) <$> D in let b := (fun '(_, b, _, _) => b) <$> D in
    let ra := (fun '(_, _, r, _) => r) <$> D in let rb := (fun '(_, _, _, r) => r) <$> D in
    let r := Ret (SUCCESS, (fun '(a, b, ra, rb) =>
      if op_type =? 2 then ddiv (d_of_int (a + b)) (d_of_int (ra + rb)) else d_of_int (a + b)) <$> D) in
    exists n', mrun3 add_msb n (data_task 0 op_type (at0 tasks) (d_of_int <$> a) ra)
      (data_task 1 op_type (at1 tasks) (d_of_int <$> b) rb) (data_task 2 op_type (at2 tasks) input rows) = Some (n', Trip r r r).
Proof.
  intros Hop P0 P1 P2 HD. set (ty := if op_type =? 2 then AVG else SUM).
  assert (Hty : ty = SUM \/ ty = AVG) by (unfold ty; destruct (op_type =? 2); auto).
  assert (Hof : op_type_of op_type = Some ty) by (destruct Hop; by subst op_type).
  exists (replicate (length D) d_zero), (replicate (length D) 0). split.
  { destruct Hop; subst op_type; cbn [MakeAuxiliaryComputeData]; rewrite (proj2 (Z.ltb_ge _ 0)) by lia; by rewrite Nat2Z.id. }
  intros a b ra rb r.
  destruct (data_task_prefix 0 op_type ty (at0 tasks) (d_of_int <$> a) ra Hof Hty P0) as (k0 & -> & K0).
  { unfold a, ra. by rewrite !length_fmap. }
  destruct (data_task_prefix 1 op_type ty (at1 tasks) (d_of_int <$> b) rb Hof Hty P1) as (k1 & -> & K1).
  { unfold b, rb. by rewrite !length_fmap. }
  destruct (data_task_prefix 2 op_type ty (at2 tasks) (replicate (length D) d_zero) (replicate (length D) 0) Hof Hty P2) as (k2 & -> & K2).
  { by rewrite !length_replicate. }
  assert (R := sum_cipher_run add_msb n (bool_decide (ty = AVG)) (Trip (d_of_int <$> a) (d_of_int <$> b) (replicate (length D) d_zero))
    (Trip (d_of_int <$> ra) (d_of_int <$> rb) (d_of_int <$> replicate (length D) 0)) (length D)). cbn [at0 at1 at2] in R.
  unfold a, b, ra, rb in R. rewrite !length_fmap, !length_replicate in R. specialize (R eq_refl eq_refl eq_refl eq_refl eq_refl eq_refl).
  cbn zeta in R. rewrite (aux_totals ty D HD) in R. fold a b ra rb in R.
  eexists. apply mrun3_catch.
  assert (R1 := mrun3_bind add_msb n _ _ _ _ _ _ _ (fun r => mret (SUCCESS, MPCSumOrAvg (bool_decide (ty = AVG)) false r))
    (fun r => mret (SUCCESS, MPCSumOrAvg (bool_decide (ty = AVG)) false r)) (fun r => mret (SUCCESS, MPCSumOrAvg (bool_decide (ty = AVG)) false r)) R).
  cbn [mrun3 mret mprog_ret] in R1.
  assert (R2 := mrun3_bind add_msb n _ _ _ _ _ _ _ (fun '(ret, op) => k0 ret op) (fun '(ret, op) => k1 ret op) (fun '(ret, op) => k2 ret op) R1).
  cbn beta iota in R2. set (op := MPCSumOrAvg _ _ _) in R2.
  destruct (K0 op) as [x0 E0], (K1 op) as [x1 E1], (K2 op) as [x2 E2]. rewrite E0, E1, E2 in R2. cbn [mrun3 mret mprog_ret] in R2.
  assert (R3 := mrun3_bind add_msb n _ _ _ _ _ _ _ (fun '(r, result, x) => mret (r, result, SS x op_type))
    (fun '(r, result, x) => mret (r, result, SS x op_type)) (fun '(r, result, x) => mret (r, result, SS x op_type)) R2).
  cbn [mrun3 mret mprog_ret] in R3.
  etransitivity; [exact (mrun3_bind add_msb n _ _ _ _ _ _ _ _ _ _ R3)|]. cbn beta iota. rewrite !decide_False by naive_solver.
  cbn [mbind mprog_mbind mprog_bind mret mprog_ret mrun3 getResult op]. unfold r. do 2 f_equal.
  unfold ty. destruct (op_type =? 2); [rewrite bool_decide_true by done|rewrite bool_decide_false by discriminate]; reflexivity.
Qed.
End Auxiliary.

(** ** A concrete task *)

Definition sample_detail (cols : list string) : json :=
  JObject [(chars "features", JArray [JObject [(chars "resourceId", JString (chars "ds")); (chars "checked", JArray (JString ∘ chars <$> cols))]]);
           (chars "type", JString (chars "2"))].
Definition sample_info : json :=
  JObject [(chars "ds", JObject [(chars "columns", JObject [(chars "x", JInt 1); (chars "y", JInt 3)]);
                                 (chars "newDataSetId", JString (chars "new")); (chars "outputFilePath", JString (chars "out.csv"))])].
Definition sample_parse (s : str) : option json :=
  if decide (s = chars "xy") then Some (sample_detail ["x"; "y"]%string)
  else if decide (s = chars "yx") then Some (sample_detail ["y"; "x"]%string)
  else if decide (s = chars "info") then Some sample_info else None.
Definition sample_stat_task (name detail : string) : Task := {|
  party_name := chars name; party_access_info := []; auxiliary_server := {[ PROXY_NODE := default_node ]};
  params := {[ chars "TaskDetail" := PV (value_string (chars detail)) false; chars "ColumnInfo" := PV (value_string (chars "info")) false ]};
  party_datasets := {[ chars name := DS {[ chars "Data_File" := chars "ds" ]} false ]} |}.
Definition sample_party (name detail : string) (cols : list string) (t : stable) : stat_party :=
  StatParty (sample_stat_task name detail) (chars <$> cols) sample_stat_types (chars "new") (chars "out.csv") t.
Definition sample_parties : trip stat_party :=
  Trip (sample_party "PARTY0" "yx" ["y"; "x"]%string (at0 sample_stat_tables))
       (sample_party "PARTY1" "xy" ["x"; "y"]%string (at1 sample_stat_tables))
       (sample_party "PARTY2" "yx" ["y"; "x"]%string (at2 sample_stat_tables)).

Ltac prove_request := split;
  [do 3 eexists; split; [vm_compute; reflexivity|];
   split; [do 3 eexists; repeat (split; [vm_compute; reflexivity|]); vm_compute; reflexivity
          |do 3 eexists; repeat (split; [vm_compute; reflexivity|]); vm_compute; reflexivity]
  |apply Forall_cons; split; [vm_compute; auto|apply Forall_cons; split; [vm_compute; auto|constructor]]
  |split; vm_compute; [lia|reflexivity]].

Lemma statistics_task_correct_witness :
  exists values n', Forall2 (stat_value SUM) sample_stat_columns values /\
    mrun3 (fun x y => bool_decide (wrap (x + y) < 0)) 0 (party_task sample_parse [] 0 (at0 sample_parties))
      (party_task sample_parse [] 1 (at1 sample_parties)) (party_task sample_parse [] 2 (at2 sample_parties)) =
      Some (n', trip_map (fun s => Ret (SUCCESS, Some (sp_new_id s, CompletePath [] (sp_path s), zip sample_stat_names values))) sample_parties).
Proof.
  refine (statistics_task_correct (fun x y => bool_decide (wrap (x + y) < 0)) sample_parse [] _ SUM sample_parties sample_stat_columns 0 _ _ _ _ _ _).
  - intros. reflexivity.
  - prove_request.
  - prove_request.
  - prove_request.
  - apply Permutation_swap.
  - reflexivity.
  - exact sample_joint_columns.
Defined.

Lemma auxiliary_party_neutral_witness :
  exists input rows, MakeAuxiliaryComputeData 2 [1; 2] = Ret (SUCCESS, input, rows) /\
    exists n', mrun3 (fun _ _ => false) 0 (data_task sample_parse [] 0 2 (sample_stat_task "PARTY0" "xy") (d_of_int <$> [7; -3]) [2; 2])
      (data_task sample_parse [] 1 2 (sample_stat_task "PARTY1" "xy") (d_of_int <$> [8; 5]) [1; 1])
      (data_task sample_parse [] 2 2 (sample_stat_task "PARTY2" "xy") input rows) =
      Some (n', let r := Ret (SUCCESS, [ddiv (d_of_int 15) (d_of_int 3); ddiv (d_of_int 2) (d_of_int 3)]) in Trip r r r).
Proof.
  refine (auxiliary_party_neutral (fun _ _ => false) sample_parse [] 2
    (Trip (sample_stat_task "PARTY0" "xy") (sample_stat_task "PARTY1" "xy") (sample_stat_task "PARTY2" "xy"))
    [(7, 8, 2, 1); (-3, 5, 2, 1)] 0 1 _ _ _ _ _).
  - left. reflexivity.
  - discriminate.
  - discriminate.
  - discriminate.
  - repeat constructor.
Defined.
