(* ===== verification/Launcher.v ===== *)
(** * Statistics started from Python

    Models [MPCExecutor] of [task/pybind_wrapper/mpc_task_wrapper.{h,cc}], through
    which a Python program runs a secure statistic on numbers it has, and the
    receipt of the shape by the auxiliary party ([MPCTask::RecvShapeFromLauncher] of
    [task/semantic/mpc_task.cc]).  The party with number 0 makes a name for the
    sub-task, tells the other parties, asks the auxiliary node to take part and tells
    it the shape; the numbers are then computed by [MPCTask::ExecuteTask] ([MpcTask]),
    which is an argument here. *)

From Stdlib Require Import Ascii String ZArith Lia SpecFloat.
From stdpp Require Import base tactics list option strings countable gmap.
From S2P Require Import Prelude ModArith Machine Doubles StrUtil Common PsiNet NetMany Psi PsiTask.

Local Open Scope Z_scope.

(** A queue of a node by its key, or a method that a node serves. *)
Abbreviation dest := ((Node * str) + (Node * str))%type.
Definition queue_at (n : Node) (key : str) : dest := inl (n, key).
Definition method (n : Node) (name : str) : dest := inr (n, name).

(** [rpc::Node] with its party number. *)
Record party_node : Type := PNode { pn_node : Node; pn_party_id : Z }.

(** What the executor uses of [rpc::Task]; a map is the list of its entries in the
    order in which it is walked. *)
Record stat_task : Type := ST {
  st_party : str;
  st_access : list (str * party_node);
  st_aux : list (str * Node);
  st_sub_task : str;
  st_code : str;
  st_proto : bool;
  st_actor : bool;
  st_statistics : bool;
  st_op : Z
}.

(** [rpc::PushTaskRequest]. *)
Record push_request : Type := PR { pr_task : stat_task; pr_manual_launch : bool }.

Definition find_entry {V} (name : str) (l : list (str * V)) : option V :=
  snd ∘ snd <$> list_find (fun p : str * V => p.1 = name) l.

(** [map[name] = v]. *)
Fixpoint put_entry {V} (name : str) (v : V) (l : list (str * V)) : list (str * V) :=
  match l with
  | [] => [(name, v)]
  | (n, w) :: l => if decide (n = name) then (name, v) :: l else (n, w) :: put_entry name v l
  end.

Lemma find_entry_put {V} name n (v : V) l : find_entry n (put_entry name v l) = if decide (n = name) then Some v else find_entry n l.
Proof.
  unfold find_entry. induction l as [|[m w] l IH]; cbn [put_entry].
  - cbn. repeat case_decide; naive_solver.
  - destruct (decide (m = name)) as [->|Hm].
    + cbn [list_find fst]. repeat case_decide; try done; congruence.
    + cbn [list_find fst]. destruct (decide (m = n)) as [->|Hn]; [by rewrite decide_False|].
      destruct (list_find _ (put_entry name v l)) as [[]|], (list_find _ l) as [[]|]; done.
Qed.

Definition with_access (l : list (str * party_node)) (t : stat_task) : stat_task :=
  ST (st_party t) l (st_aux t) (st_sub_task t) (st_code t) (st_proto t) (st_actor t) (st_statistics t) (st_op t).
Definition with_sub_task (id : str) (t : stat_task) : stat_task :=
  ST (st_party t) (st_access t) (st_aux t) id (st_code t) (st_proto t) (st_actor t) (st_statistics t) (st_op t).
Definition with_code (c : str) (t : stat_task) : stat_task :=
  ST (st_party t) (st_access t) (st_aux t) (st_sub_task t) c (st_proto t) (st_actor t) (st_statistics t) (st_op t).

Definition AddAuxiliaryComputeServer (t : stat_task) : stat_task :=
  match find_entry AUX_COMPUTE_NODE (st_aux t) with
  | Some n => with_access (put_entry AUX_COMPUTE_NODE (PNode n (Z.of_nat (length (st_access t)))) (st_access t)) t
  | None => t
  end.

Definition func_name_ : str := chars "mpc_statistics".
Definition sync_flag_content_ : str := chars "SyncFlag".

Definition SetStatisticsOperation (op_type : Z) (t : stat_task) : stat_task :=
  ST (st_party t) (st_access t) (st_aux t) (st_sub_task t) (st_code t) (st_proto t) (st_actor t) true op_type.

Definition NeedAuxiliaryServer (t : stat_task) : bool := bool_decide (is_Some (find_entry AUX_COMPUTE_NODE (st_aux t))).
Definition GetSyncFlagKey (t : stat_task) : str := st_sub_task t ++ chars "_SyncFlag".
Definition GetShapeKey (t : stat_task) : str := st_sub_task t ++ chars "_mpc_shape".
Definition subtask_key : str := chars "subtask_id".
Definition execute_method : str := chars "ExecuteTask".
Definition stop_method : str := chars "StopTask".

(** The parties that are told: neither the auxiliary node nor number 0. *)
Definition receivers (t : stat_task) : list Node :=
  (fun p : str * party_node => pn_node p.2) <$> filter (fun p : str * party_node => p.1 <> AUX_COMPUTE_NODE /\ pn_party_id p.2 <> 0) (st_access t).

Fixpoint tell (key : str) (nodes : list Node) (msg : str) : act_at dest unit :=
  match nodes with
  | [] => Done (Ret tt)
  | n :: nodes => _ ← link_send (queue_at n key) msg; tell key nodes msg
  end.

Section Executor.
(** Protobuf texts. *)
Context (request_text : push_request -> str) (request_of : str -> option push_request) (shape_text : list Z -> str) (shape_of : str -> list Z).

(** The constructor. *)
Definition new_MPCExecutor (task_req_str : str) : res push_request :=
  match request_of task_req_str with
  | None => Throw
  | Some r => Ret (PR (with_code func_name_ (AddAuxiliaryComputeServer (pr_task r))) true)
  end.

Definition ExecutorStopTask (t : stat_task) (task_info : str) : act_at dest unit :=
  match find_entry (st_party t) (st_access t) with
  | None => Done (Ret tt)
  | Some party_node =>
      if decide (pn_party_id party_node <> 0) then Done (Ret tt)
      else match find_entry AUX_COMPUTE_NODE (st_access t) with
           | None => Done (Ret tt)
           | Some aux => _ ← link_send (method (pn_node aux) stop_method) task_info; Done (Ret tt)
           end
  end.

(** The request for the auxiliary node. *)
Definition invitation (r : push_request) : push_request :=
  let t := pr_task r in
  PR (ST AUX_COMPUTE_NODE (st_access t) (st_aux t) (st_sub_task t) (st_code t) true true (st_statistics t) (st_op t)) (pr_manual_launch r).

Definition InviteAuxiliaryServerToTask (r : push_request) : act_at dest retcode :=
  let t := pr_task r in
  match find_entry (st_party t) (st_access t) with
  | None => Done (Ret FAIL)
  | Some party_node =>
      if decide (pn_party_id party_node <> 0) then
        match find_entry PROXY_NODE (st_aux t) with
        | None => Done (Ret FAIL)
        | Some proxy_node =>
            '(_, sync_info) ← link_recv (queue_at proxy_node (GetSyncFlagKey t));
            if decide (sync_info <> sync_flag_content_) then Done (Ret FAIL) else Done (Ret SUCCESS)
        end
      else
        match find_entry AUX_COMPUTE_NODE (st_access t) with
        | None => Done (Ret FAIL)
        | Some aux =>
            _ ← link_send (method (pn_node aux) execute_method) (request_text (invitation r));
            _ ← tell (GetSyncFlagKey t) (receivers t) sync_flag_content_;
            Done (Ret SUCCESS)
        end
  end.

Definition BroadcastShape (t : stat_task) (shape : list Z) : act_at dest retcode :=
  match find_entry (st_party t) (st_access t) with
  | None => Done (Ret FAIL)
  | Some party_node =>
      if decide (pn_party_id party_node <> 0) then Done (Ret SUCCESS)
      else match find_entry AUX_COMPUTE_NODE (st_access t) with
           | None => Done (Ret FAIL)
           | Some aux => _ ← link_send (queue_at (pn_node aux) (GetShapeKey t)) (shape_text shape); Done (Ret SUCCESS)
           end
  end.

Definition BroadcastSubtaskId (t : stat_task) (sub_task_id : str) : act_at dest retcode :=
  match find_entry (st_party t) (st_access t) with
  | None => Done (Ret FAIL)
  | Some party_node =>
      if decide (pn_party_id party_node <> 0) then Done (Ret SUCCESS)
      else _ ← tell subtask_key (receivers t) sub_task_id; Done (Ret SUCCESS)
  end.

Definition RecvSubTaskId (t : stat_task) (sub_task_id : str) : act_at dest (retcode * str) :=
  match find_entry (st_party t) (st_access t) with
  | None => Done (Ret (FAIL, sub_task_id))
  | Some party_node =>
      if decide (pn_party_id party_node = 0) then Done (Ret (SUCCESS, sub_task_id))
      else match find_entry PROXY_NODE (st_aux t) with
           | None => Done (Ret (FAIL, sub_task_id))
           | Some proxy_node => '(_, recv_buf) ← link_recv (queue_at proxy_node subtask_key); Done (Ret (SUCCESS, recv_buf))
           end
  end.

(** [NegotiateSubTaskId], with the identifier that was generated. *)
Definition NegotiateSubTaskId (t : stat_task) (generated : str) : act_at dest str :=
  _ ← BroadcastSubtaskId t generated;
  '(_, id) ← RecvSubTaskId t generated;
  Done (Ret id).

(** [ExecuteStatisticsTask] on the executor's request: what it returns, the numbers
    and the request afterwards.  [run_task] is [MPCTask::ExecuteTask] of a task. *)
Definition ExecuteStatisticsTask (run_task : stat_task -> list double -> list Z -> act_at dest (retcode * list double)) (generated : str)
    (r : push_request) (op_type : Z) (input : list double) (col_rows : list Z) (result : list double) : act_at dest (retcode * list double * push_request) :=
  let go task r :=
    '(ret, out) ← run_task task input col_rows;
    if decide (ret <> SUCCESS) then Done (Ret (FAIL, out, r)) else Done (Ret (SUCCESS, out, r)) in
  if NeedAuxiliaryServer (pr_task r) then
    sub_task_id ← NegotiateSubTaskId (pr_task r) generated;
    let r := PR (SetStatisticsOperation op_type (with_sub_task sub_task_id (pr_task r))) (pr_manual_launch r) in
    ret ← InviteAuxiliaryServerToTask r;
    if decide (ret <> SUCCESS) then Done (Ret (FAIL, result, r))
    else
      _ ← BroadcastShape (pr_task r) [1; Z.of_nat (length input)];
      go (pr_task r) r
  else go (pr_task r) r.

(** [Max], [Min] and [Sum] pass a zero per number, [Avg] its row counts. *)
Definition ExecutorMax run generated r input result := ExecuteStatisticsTask run generated r 0 input (replicate (length input) 0) result.
Definition ExecutorMin run generated r input result := ExecuteStatisticsTask run generated r 1 input (replicate (length input) 0) result.
Definition ExecutorAvg run generated r input col_rows result := ExecuteStatisticsTask run generated r 2 input col_rows result.
Definition ExecutorSum run generated r input result := ExecuteStatisticsTask run generated r 3 input (replicate (length input) 0) result.

(** [RecvShapeFromLauncher]. *)
Definition RecvShapeFromLauncher (t : stat_task) : act_at dest (retcode * list Z) :=
  match find_entry PROXY_NODE (st_aux t) with
  | None => Done (Ret (FAIL, []))
  | Some proxy_node => '(_, recv_buf) ← link_recv (queue_at proxy_node (GetShapeKey t)); Done (Ret (SUCCESS, shape_of recv_buf))
  end.

(** The auxiliary node: the request comes in, the node enters its own proxy
    ([VMNodeImpl::ExecuteTask]) and the task waits for the shape. *)
Definition auxiliary (run_shape : stat_task -> list Z -> list double) (here proxy : Node) (none : push_request) : act_at dest (retcode * list double * push_request) :=
  Fetch (method here execute_method) (fun text =>
    match request_of text with
    | None => Done (Ret (FAIL, [], none))
    | Some r =>
        let t := pr_task r in
        let t := ST (st_party t) (st_access t) (put_entry PROXY_NODE proxy (st_aux t)) (st_sub_task t) (st_code t) (st_proto t) (st_actor t) (st_statistics t) (st_op t) in
        '(_, shape) ← RecvShapeFromLauncher t;
        Done (Ret (SUCCESS, run_shape t shape, PR t (pr_manual_launch r)))
    end).

(** ** Agreement *)

Hypothesis request_text_of : forall r, request_of (request_text r) = Some r.
Hypothesis shape_text_of : forall l, shape_of (shape_text l) = l.

(** Two parties and an auxiliary node that no access list names yet. *)
Record launch_config (ta tb : stat_task) (a b : str) (na nb naux : Node) : Prop := {
  launch_access : st_access ta = [(a, PNode na 0); (b, PNode nb 1)] /\ st_access tb = st_access ta;
  launch_names : st_party ta = a /\ st_party tb = b /\ NoDup [a; b; AUX_COMPUTE_NODE];
  launch_aux : find_entry AUX_COMPUTE_NODE (st_aux ta) = Some naux /\ find_entry AUX_COMPUTE_NODE (st_aux tb) = Some naux;
  launch_proxy : find_entry PROXY_NODE (st_aux tb) = Some nb;
  launch_nodes : nb <> naux
}.

(** What both end up with. *)
Definition launched (t : stat_task) (id : str) (op : Z) : stat_task :=
  SetStatisticsOperation op (with_sub_task id (with_code func_name_ (AddAuxiliaryComputeServer t))).

Section Launch.
Context (ta tb : stat_task) (a b : str) (na nb naux : Node) (ida idb : str) (op : Z) (xs ys : list double) (cx cy : list Z).
Context (compute : stat_task -> list double -> list Z -> list double) (neutral : stat_task -> list Z -> list double) (none : push_request).
Hypothesis config : launch_config ta tb a b na nb naux.

Definition at_start (t : stat_task) : push_request := PR (with_code func_name_ (AddAuxiliaryComputeServer t)) true.
Definition run_compute t i c : act_at dest (retcode * list double) := Done (Ret (SUCCESS, compute t i c)).

Definition all_access : list (str * party_node) := [(a, PNode na 0); (b, PNode nb 1); (AUX_COMPUTE_NODE, PNode naux 2)].

Lemma added_access : st_access (AddAuxiliaryComputeServer ta) = all_access /\ st_access (AddAuxiliaryComputeServer tb) = all_access.
Proof.
  destruct config as [[Ea Eb] (_ & _ & Hnd) [Ha Hb] _ _]. rewrite !NoDup_cons, !not_elem_of_cons in Hnd. destruct Hnd as ((_ & H1 & _) & (H2 & _) & _).
  unfold AddAuxiliaryComputeServer. rewrite Ha, Hb. cbn [with_access st_access]. rewrite Eb, Ea. cbn [put_entry].
  rewrite !decide_False by done. done.
Qed.

Lemma access_entries : find_entry a all_access = Some (PNode na 0) /\ find_entry b all_access = Some (PNode nb 1) /\
  find_entry AUX_COMPUTE_NODE all_access = Some (PNode naux 2).
Proof.
  destruct config as [_ (_ & _ & Hnd) _ _ _]. rewrite !NoDup_cons, !not_elem_of_cons in Hnd. destruct Hnd as ((H0 & H1 & _) & (H2 & _) & _).
  unfold find_entry, all_access. cbn [list_find fst]. rewrite (decide_True (P := a = a)), (decide_True (P := b = b)), (decide_True (P := AUX_COMPUTE_NODE = _)) by done.
  rewrite !decide_False by done. done.
Qed.

Lemma one_receiver t : st_access t = all_access -> receivers t = [nb].
Proof.
  destruct config as [_ (_ & _ & Hnd) _ _ _]. rewrite !NoDup_cons, !not_elem_of_cons in Hnd. destruct Hnd as ((H0 & H1 & _) & (H2 & _) & _).
  intros E. unfold receivers. rewrite E. unfold all_access. rewrite !filter_cons, filter_nil. cbn [fst snd pn_party_id].
  rewrite decide_False by (intros [_ H]; by apply H). rewrite decide_True by done. rewrite decide_False by (intros [H _]; by apply H). done.
Qed.

Definition sync_key (id : str) : str := id ++ chars "_SyncFlag".
Definition shape_key (id : str) : str := id ++ chars "_mpc_shape".

(** The invitation as the auxiliary node gets it. *)
Definition invited : push_request := invitation (PR (launched ta ida op) true).

Lemma aux_kept t : st_aux (AddAuxiliaryComputeServer t) = st_aux t.
Proof. unfold AddAuxiliaryComputeServer. by case_match. Qed.

Lemma party_kept t : st_party (AddAuxiliaryComputeServer t) = st_party t.
Proof. unfold AddAuxiliaryComputeServer. by case_match. Qed.

Lemma first_form : ExecuteStatisticsTask run_compute ida (at_start ta) op xs cx [] =
  Post (queue_at nb subtask_key) ida (fun _ => Post (method naux execute_method) (request_text invited) (fun _ =>
    Post (queue_at nb (sync_key ida)) sync_flag_content_ (fun _ => Post (queue_at naux (shape_key ida)) (shape_text [1; Z.of_nat (length xs)]) (fun _ =>
      Done (Ret (SUCCESS, compute (launched ta ida op) xs cx, PR (launched ta ida op) true)))))).
Proof.
  destruct config as [_ (Na & _ & _) [Ha _] _ _], added_access as [Ea _], access_entries as (Fa & _ & Fx).
  unfold ExecuteStatisticsTask, NeedAuxiliaryServer, at_start. cbn [pr_task with_code st_aux]. rewrite aux_kept, bool_decide_true by (by rewrite Ha).
  unfold NegotiateSubTaskId, BroadcastSubtaskId, RecvSubTaskId. cbn [with_code st_party st_access]. rewrite party_kept, Na, Ea, Fa. cbn [pn_party_id].
  rewrite (decide_False (P := 0 <> 0)) by (intros H; by apply H). rewrite (decide_True (P := 0 = 0)) by done. rewrite one_receiver by done. cbn [tell]. act_go.
  unfold InviteAuxiliaryServerToTask, BroadcastShape. cbn [pr_task SetStatisticsOperation with_sub_task with_code st_party st_access].
  rewrite party_kept, Na, Ea, Fa, Fx. cbn [pn_party_id pn_node]. rewrite (decide_False (P := 0 <> 0)) by (intros H; by apply H). rewrite one_receiver by done. cbn [tell]. act_go.
  done.
Qed.

Lemma second_form : exists k k', ExecuteStatisticsTask run_compute idb (at_start tb) op ys cy [] = Fetch (queue_at nb subtask_key) k /\
  k ida = Fetch (queue_at nb (sync_key ida)) k' /\
  k' sync_flag_content_ = Done (Ret (SUCCESS, compute (launched tb ida op) ys cy, PR (launched tb ida op) true)).
Proof.
  destruct config as [_ (_ & Nb & _) [_ Hb] Hp _], added_access as [_ Eb], access_entries as (_ & Fb & Fx).
  unfold ExecuteStatisticsTask, NeedAuxiliaryServer, at_start. cbn [pr_task with_code st_aux]. rewrite aux_kept, bool_decide_true by (by rewrite Hb).
  unfold NegotiateSubTaskId, BroadcastSubtaskId, RecvSubTaskId. cbn [with_code st_party st_access st_aux]. rewrite party_kept, Nb, Eb, Fb, aux_kept, Hp. cbn [pn_party_id].
  rewrite (decide_True (P := 1 <> 0)) by done. rewrite (decide_False (P := 1 = 0)) by done. act_go. do 2 eexists. split; [reflexivity|].
  cbv beta. unfold InviteAuxiliaryServerToTask, BroadcastShape. cbn [pr_task SetStatisticsOperation with_sub_task with_code st_party st_access st_aux].
  rewrite party_kept, Nb, Eb, Fb, aux_kept, Hp. cbn [pn_party_id]. rewrite (decide_True (P := 1 <> 0)) by done. act_go. split; [reflexivity|].
  cbv beta. rewrite (decide_False (P := sync_flag_content_ <> _)) by (intros H; by apply H). act_go. done.
Qed.

(** The auxiliary node's task: party 0's, under its own name and proxy. *)
Definition aux_task : stat_task :=
  let t := pr_task invited in
  ST (st_party t) (st_access t) (put_entry PROXY_NODE naux (st_aux t)) (st_sub_task t) (st_code t) (st_proto t) (st_actor t) (st_statistics t) (st_op t).

Lemma aux_form : exists k k', auxiliary neutral naux naux none = Fetch (method naux execute_method) k /\
  k (request_text invited) = Fetch (queue_at naux (shape_key ida)) k' /\
  forall l, k' (shape_text l) = Done (Ret (SUCCESS, neutral aux_task l, PR aux_task true)).
Proof.
  do 2 eexists. split; [reflexivity|]. cbv beta. rewrite request_text_of. unfold RecvShapeFromLauncher. cbn [st_aux]. rewrite find_entry_put, decide_True by done.
  act_go. split; [reflexivity|]. intros l. cbv beta. act_go. rewrite shape_text_of. done.
Qed.

Definition dest_node (l : dest) : Node := match l with inl (n, _) | inr (n, _) => n end.
Definition launch_writer (l : dest) (i : nat) : Prop := i = 0%nat.
Definition launch_reader (l : dest) (i : nat) : Prop := (i = 1%nat /\ dest_node l = nb) \/ (i = 2%nat /\ dest_node l = naux).

Lemma second_disciplined (to from : dest -> Prop) : (forall l, dest_node l = nb -> from l) ->
  disciplined to from (ExecuteStatisticsTask run_compute idb (at_start tb) op ys cy []).
Proof.
  destruct config as [_ (_ & Nb & _) [_ Hb] Hp _], added_access as [_ Eb], access_entries as (_ & Fb & Fx). intros Hfrom.
  unfold ExecuteStatisticsTask, NeedAuxiliaryServer, at_start. cbn [pr_task with_code st_aux]. rewrite aux_kept, bool_decide_true by (by rewrite Hb).
  unfold NegotiateSubTaskId, BroadcastSubtaskId, RecvSubTaskId, InviteAuxiliaryServerToTask, BroadcastShape.
  cbn [with_code pr_task SetStatisticsOperation with_sub_task st_party st_access st_aux]. rewrite party_kept, Nb, Eb, Fb, aux_kept, Hp. cbn [pn_party_id].
  rewrite (decide_True (P := 1 <> 0)) by done. rewrite (decide_False (P := 1 = 0)) by done. act_disciplined; split; try done; by apply Hfrom.
Qed.

Lemma aux_disciplined (to from : dest -> Prop) : (forall l, dest_node l = naux -> from l) -> disciplined to from (auxiliary neutral naux naux none).
Proof.
  intros Hfrom. split; [by apply Hfrom|]. intros text. destruct (request_of text) as [r|]; [|done]. unfold RecvShapeFromLauncher.
  cbn [st_aux]. rewrite find_entry_put, decide_True by done. act_disciplined. split; try done. by apply Hfrom.
Qed.

Definition launch_start : net dest (retcode * list double * push_request) :=
  Net [ExecuteStatisticsTask run_compute ida (at_start ta) op xs cx []; ExecuteStatisticsTask run_compute idb (at_start tb) op ys cy [];
       auxiliary neutral naux naux none] ∅.

Definition launch_end (m : mail_at dest) : net dest (retcode * list double * push_request) :=
  Net [Done (Ret (SUCCESS, compute (launched ta ida op) xs cx, PR (launched ta ida op) true));
       Done (Ret (SUCCESS, compute (launched tb ida op) ys cy, PR (launched tb ida op) true));
       Done (Ret (SUCCESS, neutral aux_task [1; Z.of_nat (length xs)], PR aux_task true))] m.

Lemma launch_run : exists m, nrun 8 launch_start (launch_end m).
Proof.
  destruct second_form as (kb & kb' & Eb & Eb1 & Eb2), aux_form as (kx & kx' & Ex & Ex1 & Ex2).
  assert (Hne : forall k k', queue_at nb k <> queue_at naux k') by (intros k k' [= E _]; by apply (launch_nodes _ _ _ _ _ _ _ config)).
  assert (Hkeys : queue_at nb subtask_key <> queue_at nb (sync_key ida)).
  { intros [= E]. apply (f_equal (fun l => last l)) in E. unfold sync_key in E. rewrite last_app in E. by vm_compute in E. }
  unfold launch_start. rewrite first_form, Eb, Ex. eexists.
  eapply (nrun_post 0); [done|]. cbn [insert list_insert]. rewrite mailbox_empty. eapply (nrun_post 0); [done|]. cbn [insert list_insert].
  rewrite mailbox_ne, mailbox_empty by done. eapply (nrun_post 0); [done|]. cbn [insert list_insert]. rewrite !mailbox_ne, mailbox_empty by done.
  eapply (nrun_post 0); [done|]. cbn [insert list_insert]. rewrite !mailbox_ne, mailbox_empty by done.
  eapply (nrun_fetch 1); [done|by rewrite !mailbox_ne, mailbox_eq by done|]. cbn [insert list_insert]. rewrite Eb1.
  eapply (nrun_fetch 1); [done|by rewrite !mailbox_ne, mailbox_eq by done|]. cbn [insert list_insert]. rewrite Eb2.
  eapply (nrun_fetch 2); [done|by rewrite !mailbox_ne, mailbox_eq by done|]. cbn [insert list_insert]. rewrite Ex1.
  eapply (nrun_fetch 2); [done|by rewrite !mailbox_ne, mailbox_eq by done|]. cbn [insert list_insert]. rewrite Ex2. constructor.
Qed.

(** Every schedule of the two parties and the auxiliary node ends, with all three
    computing one sub-task: the one party 0 named, with its operation, and with the
    auxiliary node's numbers in party 0's shape.  The requests of the three differ in
    the party and the servers it uses only. *)
Theorem launch_agrees : (exists m, ninevitable 8 launch_start (launch_end m)) /\
  Forall (fun t => st_access t = all_access /\ st_sub_task t = ida /\ st_op t = op /\ st_statistics t = true /\ st_code t = func_name_)
    [launched ta ida op; launched tb ida op; aux_task].
Proof.
  destruct launch_run as (m & Hrun), added_access as [Aa Ab]. split; [exists m|repeat constructor; cbn; done].
  eapply (one_nrun_decides launch_writer launch_reader); [by intros l i j -> ->| |intros i p Hi|exact Hrun|by apply (nstuck_done [_; _; _])].
  { intros l i j [[-> H1]|[-> H1]] [[-> H2]|[-> H2]]; try done; subst; exfalso; apply (launch_nodes _ _ _ _ _ _ _ config); congruence. }
  destruct i as [|[|[|i]]]; cbn [progs launch_start lookup list_lookup] in Hi; [| | |done]; injection Hi as <-.
  - rewrite first_form. cbn. unfold launch_writer. naive_solver.
  - apply second_disciplined. intros l Hl. by left.
  - apply aux_disciplined. intros l Hl. by right.
Qed.
End Launch.

(** ** Failures *)

(** Party 0 reports success whether or not the auxiliary node takes the request and
    the others get the word. *)
Theorem invitation_unchecked r aux : find_entry (st_party (pr_task r)) (st_access (pr_task r)) = Some (PNode aux 0) ->
  is_Some (find_entry AUX_COMPUTE_NODE (st_access (pr_task r))) -> all_ends (fun o => o = Ret SUCCESS) (InviteAuxiliaryServerToTask r).
Proof.
  intros E [x Ex]. unfold InviteAuxiliaryServerToTask. rewrite E, Ex. cbn [pn_party_id]. rewrite decide_False by (intros H; by apply H).
  intros rc. generalize (receivers (pr_task r)). intros l. act_go. induction l as [|n l IH]; [done|]. intros rc'. apply IH.
Qed.

(** Without an auxiliary node the operation is not set: all four run what the
    request happens to name. *)
Theorem operation_not_set run g r input result : NeedAuxiliaryServer (pr_task r) = false ->
  ExecutorMax run g r input result = ExecutorMin run g r input result /\ ExecutorMax run g r input result = ExecutorSum run g r input result.
Proof. intros E. unfold ExecutorMax, ExecutorMin, ExecutorSum, ExecuteStatisticsTask. by rewrite E. Qed.

(** A party other than 0 that knows no proxy fails before it computes. *)
Theorem no_proxy_fails run g r op input rows result n i : NeedAuxiliaryServer (pr_task r) = true ->
  find_entry (st_party (pr_task r)) (st_access (pr_task r)) = Some (PNode n i) -> i <> 0 -> find_entry PROXY_NODE (st_aux (pr_task r)) = None ->
  ExecuteStatisticsTask run g r op input rows result =
    Done (Ret (FAIL, result, PR (SetStatisticsOperation op (with_sub_task g (pr_task r))) (pr_manual_launch r))).
Proof.
  intros En Ep Hi Hx. unfold ExecuteStatisticsTask, NegotiateSubTaskId, BroadcastSubtaskId, RecvSubTaskId. rewrite En, Ep, Hx. cbn [pn_party_id].
  rewrite (decide_True (P := i <> 0)), (decide_False (P := i = 0)) by done. act_go. unfold InviteAuxiliaryServerToTask.
  cbn [pr_task SetStatisticsOperation with_sub_task st_party st_access st_aux]. rewrite Ep, Hx. cbn [pn_party_id]. rewrite decide_True by done. act_go. done.
Qed.

(** Only party 0 stops the auxiliary node's task. *)
Theorem one_stop t info n i : find_entry (st_party t) (st_access t) = Some (PNode n i) -> i <> 0 -> ExecutorStopTask t info = Done (Ret tt).
Proof. intros E Hi. unfold ExecutorStopTask. rewrite E. cbn [pn_party_id]. by rewrite decide_True. Qed.
End Executor.

(** An access list that names the auxiliary node already gives it a number that no
    ring of three parties has. *)
Example aux_number_shifts a b aux : a <> AUX_COMPUTE_NODE -> b <> AUX_COMPUTE_NODE ->
  find_entry AUX_COMPUTE_NODE (st_access (AddAuxiliaryComputeServer
    (ST a [(a, PNode default_node 0); (b, PNode default_node 1); (AUX_COMPUTE_NODE, PNode aux 2)] [(AUX_COMPUTE_NODE, aux)] [] [] false false false 0))) =
  Some (PNode aux 3).
Proof.
  intros Ha Hb. unfold AddAuxiliaryComputeServer. cbn [st_aux]. replace (find_entry AUX_COMPUTE_NODE [(AUX_COMPUTE_NODE, aux)]) with (Some aux) by done.
  cbn [with_access st_access]. rewrite find_entry_put. by case_decide.
Qed.

(** ** A sample *)

#[export] Instance party_node_eq_dec : EqDecision party_node.
Proof. solve_decision. Defined.
#[export] Instance party_node_countable : Countable party_node.
Proof. refine (inj_countable' (fun p => (pn_node p, pn_party_id p)) (fun x => PNode x.1 x.2) _). by intros []. Defined.
#[export] Instance stat_task_eq_dec : EqDecision stat_task.
Proof. solve_decision. Defined.
#[export] Instance stat_task_countable : Countable stat_task.
Proof.
  refine (inj_countable' (fun t => (st_party t, st_access t, st_aux t, st_sub_task t, st_code t, st_proto t, st_actor t, st_statistics t, st_op t))
    (fun '(p, l, x, i, c, b1, b2, b3, o) => ST p l x i c b1 b2 b3 o) _). by intros [].
Defined.
#[export] Instance push_request_eq_dec : EqDecision push_request.
Proof. solve_decision. Defined.
#[export] Instance push_request_countable : Countable push_request.
Proof. refine (inj_countable' (fun r => (pr_task r, pr_manual_launch r)) (fun x => PR x.1 x.2) _). by intros []. Defined.

Definition launch_node (i : Z) : Node := Nd (chars "node") (chars "10.0.0.9") i false [].
Definition launch_task (party : str) (proxy : Node) : stat_task :=
  ST party [(chars "A", PNode (launch_node 0) 0); (chars "B", PNode (launch_node 1) 1)] [(AUX_COMPUTE_NODE, launch_node 2); (PROXY_NODE, proxy)] [] [] false false false 0.
Definition no_request : push_request := PR (launch_task [] default_node) false.

Lemma launch_agrees_witness :
  (exists m, ninevitable 8
    (launch_start (plain_text (A := push_request)) (fun s => Some (plain_read no_request s)) (plain_text (A := list Z)) (plain_read [])
      (launch_task (chars "A") (launch_node 0)) (launch_task (chars "B") (launch_node 1)) (launch_node 2) (chars "u1") (chars "u2") 1
      [(S754_zero false)] [(S754_zero false)] [0] [0] (fun _ i _ => i) (fun _ _ => []) no_request)
    (launch_end (launch_task (chars "A") (launch_node 0)) (launch_task (chars "B") (launch_node 1)) (launch_node 2) (chars "u1") 1
      [(S754_zero false)] [(S754_zero false)] [0] [0] (fun _ i _ => i) (fun _ _ => []) m)).
Proof.
  apply (launch_agrees (plain_text (A := push_request)) (fun s => Some (plain_read no_request s)) (plain_text (A := list Z)) (plain_read [])) with
    (a := chars "A") (b := chars "B") (na := launch_node 0) (nb := launch_node 1).
  - intros r. by rewrite plain_read_text.
  - intros l. by rewrite plain_read_text.
  - split; try done. split_and!; try done. apply (bool_decide_unpack _). by vm_compute.
Defined.
