(* ===== verification/Arithmetic.v ===== *)
(** * The arithmetic task

    Models [ArithmeticExecutor] of [algorithm/arithmetic.{h,cc}]: reading a request
    that names an expression or a comparison over the columns of three parties,
    loading the party's own columns, the joint evaluation and the saved result.
    [PartyConfig] is [common/party_config.cc].  The column maps are [gmap]s and are
    walked in the order of their keys, as [std::map] is.  The executor stands
    behind the interface [Algorithm] of [MpcTask]. *)

From Stdlib Require Import Ascii String ZArith Lia SpecFloat.
From stdpp Require Import base tactics list option gmap strings sorting.
From S2P Require Import Prelude ModArith Machine Doubles Json StrUtil Common Aby3Op PartyProg ExprParse ExprConfig ExprLocal ExprMpc.
From S2P Require Import MpcCompare MpcProg PsiData Psi PsiTask Statistics MpcStatistics MpcTask.

Local Open Scope Z_scope.

(** ** Party numbers *)

(** [operator[]=] of a [std::map] keyed by the party number. *)
Fixpoint id_map_set (k : Z) (v : str) (l : list (Z * str)) : list (Z * str) :=
  match l with
  | [] => [(k, v)]
  | (k', v') :: l' =>
      if k <? k' then (k, v) :: l else if k =? k' then (k, v) :: l' else (k', v') :: id_map_set k v l'
  end.

Record PartyConfig : Type := PC { node_id : str; pc_party_id : option Z; node_id_map : list (Z * str) }.

(** The constructor; [info] are the access entries with their party numbers, which
    are cut to 16 bits.  Without an entry of its own the party has no number. *)
Definition new_PartyConfig (party : str) (info : list (str * Z)) : PartyConfig :=
  PC party ((fun e => e.2.2 mod 2 ^ 16) <$> list_find (fun e => e.1 = party) info)
    (fold_left (fun m e => id_map_set (e.2 mod 2 ^ 16) e.1 m) info []).

Fixpoint find_party (ids : list (Z * str)) (party : str) : option Z :=
  match ids with
  | [] => None
  | (id, name) :: ids => if decide (party = name) then Some id else find_party ids party
  end.

Definition PartyName2PartyId (c : PartyConfig) (party : str) : option Z := find_party (node_id_map c) party.

(** ** Text *)

(** [find] of one character as an [int]: -1 when it is not there. *)
Fixpoint find_char (c : ascii) (s : str) : Z :=
  match s with
  | [] => -1
  | d :: s => if decide (d = c) then 0 else let i := find_char c s in if i <? 0 then -1 else i + 1
  end.

(** [substr(pos, count)]; a negative count is a huge [size_t]. *)
Definition substr (s : str) (pos count : Z) : res str :=
  let n := Z.of_nat (length s) in
  if n <? pos then Throw
  else Ret (take (Z.to_nat (if count <? 0 then n - pos else Z.min count (n - pos))) (drop (Z.to_nat pos) s)).

(** A field [col-value]: the text before the first dash and after it. *)
Definition split_field (s : str) : res (str * str) :=
  let pos := find_char "-" s in
  col ← substr s 0 pos;
  v ← substr s (pos + 1) (Z.of_nat (length s));
  Ret (col, v).

Definition atoi (s : str) : res Z := let z := atol s in if (- 2 ^ 31 <=? z) && (z <? 2 ^ 31) then Ret z else Undef.

(** ** The executor *)

Record ArithExecutor : Type := Arith {
  ar_config : PartyConfig;
  ar_party_id : Z;
  ar_dataset_id : str;
  ar_detail : bool;
  ar_expr : str;
  ar_is_cmp : bool;
  ar_i64_cmp : bool;
  cmp_col1 : str;
  cmp_col2 : str;
  col_and_owner : gmap str Z;
  col_and_dtype : gmap str bool;
  ar_parties : list Z;
  res_name : str;
  col_and_val_double : gmap str (list double);
  col_and_val_int : gmap str (list Z);
  mpc_exec : option MPCExpressExecutor;
  final_val_double : list double;
  final_val_int64 : list Z;
  cmp_res : list bool
}.

(** The constructor; [i64_cmp] starts true.  A party without an access entry of its
    own would use an uninitialised number. *)
Definition fresh_ArithExecutor (config : PartyConfig) (party_id : Z) : ArithExecutor :=
  Arith config party_id [] false [] false true [] [] ∅ ∅ [] [] ∅ ∅ None [] [] [].

Definition new_ArithExecutor (config : PartyConfig) : res ArithExecutor :=
  id ← or_undef (pc_party_id config); Ret (fresh_ArithExecutor config id).

(** ** Parameters *)

(** The loop over [Col_And_Owner]; [None] is the return of -1. *)
Fixpoint read_owners (c : PartyConfig) (fields : list str) (m : gmap str Z) : res (option (gmap str Z)) :=
  match fields with
  | [] => Ret (Some m)
  | f :: fields =>
      '(col, party) ← split_field f;
      match PartyName2PartyId c party with
      | None => Ret None
      | Some owner => read_owners c fields (map_insert col owner m)
      end
  end.

Fixpoint read_col_dtypes (fields : list str) (m : gmap str bool) : res (gmap str bool) :=
  match fields with
  | [] => Ret m
  | f :: fields =>
      '(col, t) ← split_field f;
      dtype ← atoi t;
      read_col_dtypes fields (map_insert col (negb (dtype =? 0)) m)
  end.

Fixpoint read_parties (c : PartyConfig) (names : list str) : option (list Z) :=
  match names with
  | [] => Some []
  | s :: names => id ← PartyName2PartyId c s; ids ← read_parties c names; Some (id :: ids)
  end.

(** The operands of a comparison, cut out of the text before it is known to be one. *)
Definition cmp_operands (expr : str) : res (str * str) :=
  let comma_index := find_char "," expr in
  c1 ← substr expr 4 (comma_index - 4);
  c2 ← substr expr (comma_index + 1) (Z.of_nat (length expr) - comma_index - 2);
  Ret (c1, c2).

(** The [try] block; the members [fp64_run_] and [party_id_] of a new expression
    executor are not initialised, [junk] stands for them. *)
Definition read_params (storage : str) (junk : bool * Z) (task : Task) (x : ArithExecutor) : res (Z * ArithExecutor) :=
  owners ← read_owners (ar_config x) (split_char ";" (string_param task "Col_And_Owner")) (col_and_owner x);
  match owners with
  | None => Ret (-1, x)
  | Some owners =>
      dtypes ← read_col_dtypes (split_char ";" (string_param task "Col_And_Dtype")) (col_and_dtype x);
      let expr := string_param task "Expr" in
      '(c1, c2) ← cmp_operands expr;
      head ← substr expr 0 3;
      let is_cmp := bool_decide (head = chars "CMP") in
      match read_parties (ar_config x) (split_char ";" (string_param task "RevealToParties")) with
      | None => Ret (-1, x)
      | Some ids =>
          Ret (0, Arith (ar_config x) (ar_party_id x) (ar_dataset_id x) (ar_detail x) expr is_cmp (ar_i64_cmp x) c1 c2 owners dtypes
                    (ar_parties x ++ ids) (CompletePath storage (string_param task "ResFileName")) (col_and_val_double x)
                    (col_and_val_int x) (if is_cmp then mpc_exec x else Some (new_executor junk.1 junk.2))
                    (final_val_double x) (final_val_int64 x) (cmp_res x))
      end
  end.

Definition set_ar_dataset (x : ArithExecutor) (id : str) (detail : bool) : ArithExecutor :=
  Arith (ar_config x) (ar_party_id x) id detail (ar_expr x) (ar_is_cmp x) (ar_i64_cmp x) (cmp_col1 x) (cmp_col2 x) (col_and_owner x)
    (col_and_dtype x) (ar_parties x) (res_name x) (col_and_val_double x) (col_and_val_int x) (mpc_exec x) (final_val_double x)
    (final_val_int64 x) (cmp_res x).

(** [loadParams]; what is set on the way to -1 is not kept, the object is not used
    after it. *)
Definition arith_loadParams (storage : str) (junk : bool * Z) (task : Task) (x : ArithExecutor) : res (Z * ArithExecutor) :=
  match find_dataset (party_name task) task with
  | None => Ret (-1, x)
  | Some (_, id, detail) =>
      match read_params storage junk task (set_ar_dataset x id (detail || ar_detail x)) with
      | Throw => Ret (-1, x)
      | r => r
      end
  end.

(** ** The party's table *)

Definition array_length (a : array) : Z :=
  match a with Ints l => Z.of_nat (length l) | Fp64s l => Z.of_nat (length l) | OtherArray n => Z.of_nat n end.

Definition col_length (c : scolumn) : Z := fold_left (fun n a => n + array_length a) (schunks c) 0.

(** The values of a column through [Int64Array] or [DoubleArray]. *)
Definition int_values (c : scolumn) : res (list Z) := l ← mapM (as_int_array 64) (schunks c); Ret (concat l).
Definition double_values (c : scolumn) : res (list double) := l ← mapM as_double_array (schunks c); Ret (concat l).

Definition widened_values (c : scolumn) : res (list double) := l ← int_values c; Ret (map d_of_int l).

(** The loop over the columns.  [whole] is the table, whose schema gives the type
    of a column by its name: with two columns of one name it gives a null pointer. *)
Fixpoint load_columns (whole : stable) (dtypes : gmap str bool) (array_len : Z) (cols : stable)
    (dbl : gmap str (list double)) (int : gmap str (list Z)) : res (gmap str (list double) * gmap str (list Z)) :=
  match cols with
  | [] => Ret (dbl, int)
  | (name, c) :: cols =>
      match dtypes !! name with
      | None => load_columns whole dtypes array_len cols dbl int
      | Some dtype =>
          field ← or_undef (GetColumnByName whole name);
          if negb dtype then
            if decide (field_type field <> INT64) then Throw
            else
              v ← int_values c;
              if negb (col_length c =? array_len) then Throw
              else load_columns whole dtypes array_len cols dbl (map_insert name v int)
          else
            v ← (if decide (field_type field = INT64) then widened_values c else double_values c);
            if negb (col_length c =? array_len) then Throw
            else load_columns whole dtypes array_len cols (map_insert name v dbl) int
      end
  end.

Definition set_values (x : ArithExecutor) (i64_cmp : bool) (dbl : gmap str (list double)) (int : gmap str (list Z)) : ArithExecutor :=
  Arith (ar_config x) (ar_party_id x) (ar_dataset_id x) (ar_detail x) (ar_expr x) (ar_is_cmp x) i64_cmp (cmp_col1 x) (cmp_col2 x)
    (col_and_owner x) (col_and_dtype x) (ar_parties x) (res_name x) dbl int (mpc_exec x) (final_val_double x) (final_val_int64 x)
    (cmp_res x).

(** [_LoadDatasetFromCSV]: [dataset] is what driver and cursor give.  The number of
    rows is that of the last column; it is returned as an [int]. *)
Definition LoadDatasetFromCSV (dataset : option stable) (x : ArithExecutor) : res (Z * ArithExecutor) :=
  match dataset with
  | None => Ret (-1, x)
  | Some t =>
      '(_, label) ← or_undef (last t);
      let array_len := col_length label in
      '(dbl, int) ← load_columns t (col_and_dtype x) array_len t (col_and_val_double x) (col_and_val_int x);
      Ret (to_int32 array_len, set_values x (ar_i64_cmp x) dbl int)
  end.

(** The entries of a map in the order of its keys. *)
Definition sorted_entries {A} (m : gmap str A) : list (str * A) :=
  omap (fun k => (fun v => (k, v)) <$> m !! k) (sort_names (map_to_list m).*1).

(** A loop that updates the expression executor for every entry; the codes
    returned are not looked at. *)
Fixpoint import_all {A} (f : MPCExpressExecutor -> str -> A -> res (Z * MPCExpressExecutor)) (l : list (str * A)) (e : MPCExpressExecutor)
  : res MPCExpressExecutor :=
  match l with
  | [] => Ret e
  | (k, v) :: l => '(_, e) ← f e k v; import_all f l e
  end.

Definition set_exec (x : ArithExecutor) (e : option MPCExpressExecutor) : ArithExecutor :=
  Arith (ar_config x) (ar_party_id x) (ar_dataset_id x) (ar_detail x) (ar_expr x) (ar_is_cmp x) (ar_i64_cmp x) (cmp_col1 x) (cmp_col2 x)
    (col_and_owner x) (col_and_dtype x) (ar_parties x) (res_name x) (col_and_val_double x) (col_and_val_int x) e (final_val_double x)
    (final_val_int64 x) (cmp_res x).

(** The part of [loadDataset] for a comparison: whether integers are compared, and
    the conversion of an integer column whose partner holds doubles. *)
Definition cmp_dataset (x : ArithExecutor) : res (Z * ArithExecutor) :=
  match col_and_dtype x !! cmp_col1 x, col_and_dtype x !! cmp_col2 x with
  | Some d1, Some d2 =>
      if Bool.eqb d1 d2 then Ret (0, set_values x (negb d1) (col_and_val_double x) (col_and_val_int x))
      else
        let convert_col := if negb d1 then cmp_col1 x else cmp_col2 x in
        match col_and_owner x !! convert_col with
        | None => Throw
        | Some owner =>
            if negb (ar_party_id x =? owner) then Ret (0, set_values x false (col_and_val_double x) (col_and_val_int x))
            else match col_and_val_int x !! convert_col with
                 | None => Throw
                 | Some v => Ret (0, set_values x false (map_insert convert_col (d_of_int <$> v) (col_and_val_double x))
                                       (delete convert_col (col_and_val_int x)))
                 end
        end
  | _, _ => Throw
  end.

(** The part for an expression: integer columns are handed over only when there is
    no column of doubles.  What the imports leave in the maps is not read again. *)
Definition express_dataset (x : ArithExecutor) : res (Z * ArithExecutor) :=
  e ← or_undef (mpc_exec x);
  let e := initColumnConfig e (ar_party_id x) in
  e ← import_all importColumnOwner (sorted_entries (col_and_owner x)) e;
  e ← import_all importColumnDtype (sorted_entries (col_and_dtype x)) e;
  '(_, e) ← importExpr e (ar_expr x);
  '(_, e) ← resolveRunMode e;
  let e := InitFeedDict e in
  e ← (if decide (size (col_and_val_double x) <> 0%nat)
       then import_all (fun e k v => '(r, e, _) ← importValues_fp64 e k v; Ret (r, e)) (sorted_entries (col_and_val_double x)) e
       else import_all (fun e k v => '(r, e, _) ← importValues_i64 e k v; Ret (r, e)) (sorted_entries (col_and_val_int x)) e);
  Ret (0, set_exec x (Some e)).

Definition arith_loadDataset (dataset : option stable) (x : ArithExecutor) : res (Z * ArithExecutor) :=
  '(ret, x) ← LoadDatasetFromCSV dataset x;
  if ret <=? 0 then Ret (-1, x)
  else if ar_is_cmp x then cmp_dataset x else express_dataset x.

(** ** The joint run *)

(** [initMPCRuntime] sets the number of the party; the operator of a comparison
    was made by [loadParams]. *)
Definition initMPCRuntime (party_id : Z) (e : MPCExpressExecutor) : MPCExpressExecutor :=
  {| fp64_run_ := fp64_run_ e; expr_ := expr_ e; suffix_stk_ := suffix_stk_ e; col_config_ := col_config_ e; feed_dict_ := feed_dict_ e;
     token_val_map_ := token_val_map_ e; token_type_map_ := token_type_map_ e; party_id_ := party_id |}.

Definition arith_InitEngine (x : ArithExecutor) : res (retcode * ArithExecutor) :=
  if ar_is_cmp x then Ret (SUCCESS, x)
  else e ← or_undef (mpc_exec x); Ret (SUCCESS, set_exec x (Some (initMPCRuntime (ar_party_id x) e))).

Definition set_results (x : ArithExecutor) (e : option MPCExpressExecutor) (fd : list double) (fi : list Z) (bits : list bool) : ArithExecutor :=
  Arith (ar_config x) (ar_party_id x) (ar_dataset_id x) (ar_detail x) (ar_expr x) (ar_is_cmp x) (ar_i64_cmp x) (cmp_col1 x) (cmp_col2 x)
    (col_and_owner x) (col_and_dtype x) (ar_parties x) (res_name x) (col_and_val_double x) (col_and_val_int x) e fd fi bits.

(** The loop that opens the bits. *)
Fixpoint cmp_reveal_loop (me : Z) (b : sbMatrix) (parties : list Z) (bits : list bool) : mprog (list bool) :=
  match parties with
  | [] => mret bits
  | p :: parties =>
      if me =? p then MBitRecv b (fun l => cmp_reveal_loop me b parties (bits ++ l))
      else MBitSend b p (cmp_reveal_loop me b parties bits)
  end.

Section Execute.
Context `{E : Aby3}.

(** The party's column as a row matrix; [operator[]] of the maps answers with 0 or
    an empty vector for a missing column. *)
Definition cmp_matrix (x : ArithExecutor) : option i64Matrix :=
  cmp_input (fun c => default 0 (col_and_owner x !! c))
    (fun c => if ar_i64_cmp x then default [] (col_and_val_int x !! c) else to_fixed <$> default [] (col_and_val_double x !! c))
    (cmp_col1 x) (cmp_col2 x) (ar_party_id x).

Definition arith_execute (x : ArithExecutor) : mprog (Z * ArithExecutor) :=
  if ar_is_cmp x then
    '(bits, _) ← mcompare (cmp_matrix x);
    out ← cmp_reveal_loop (ar_party_id x) (Sb bits) (ar_parties x) (cmp_res x);
    mret (0, set_results x (mpc_exec x) (final_val_double x) (final_val_int64 x) out)
  else
    e ← MDone (or_undef (mpc_exec x));
    '(fd, fi, e) ← lift (execute_express e (ar_parties x) (final_val_double x) (final_val_int64 x));
    mret (0, set_results x (Some e) fd fi (cmp_res x)).

(** ** The result *)

Record saved_table : Type := Saved { st_column : str; st_type : arrow_type; st_values : list double }.

Definition d_of_bool (b : bool) : double := d_of_int (if b then 1 else 0).

(** The array is built by a [DoubleBuilder] whatever the schema says. *)
Definition result_table (x : ArithExecutor) : saved_table :=
  match final_val_double x, final_val_int64 x with
  | _ :: _, _ => Saved (ar_expr x) DOUBLE (final_val_double x)
  | [], _ :: _ => Saved (ar_expr x) INT64 (d_of_int <$> final_val_int64 x)
  | [], [] => Saved (ar_expr x) BOOL (d_of_bool <$> cmp_res x)
  end.

Definition arith_saveModel (write_ret : Z) (x : ArithExecutor) : Z * option (str * saved_table) :=
  if negb (bool_decide (ar_party_id x ∈ ar_parties x)) then (0, None)
  else if negb (write_ret =? 0) then (-1, None)
  else (0, Some (res_name x, result_table x)).

(** The executor behind the interface of the MPC task.  It does not override
    [execute] on given numbers. *)
Definition arithmetic (storage : str) (junk : bool * Z) (task : Task) (link : bool) (dataset : option stable) (write_ret : Z)
  : Algorithm ArithExecutor (str * saved_table) := {|
  InitTaskConfig _ x := x;
  loadParams x := arith_loadParams storage junk task x;
  loadDataset x := arith_loadDataset dataset x;
  initPartyComm x := Ret (if link then 0 else -1, x);
  InitEngine x := arith_InitEngine x;
  execute x := arith_execute x;
  execute_data _ result x := mret (FAIL, result, x);
  finishPartyComm x := mret x;
  saveModel x := Ret (arith_saveModel write_ret x)
|}.
End Execute.
