(* ===== verification/ArithProps.v ===== *)
(** * Properties of the arithmetic task

    A request in its text form is read back; the columns of three parties are
    loaded, and the three tasks evaluate the expression of the request together
    and save it for the parties the request names. *)

From Stdlib Require Import Ascii String ZArith Lia SpecFloat.
From stdpp Require Import base tactics list option gmap strings sorting.
From S2P Require Import Prelude ModArith Machine Doubles Json StrUtil Common Aby3Op PartyProg ExprParse ExprConfig ExprLocal ExprMpc.
From S2P Require Import MpcCompare MpcProg PsiData Psi PsiTask Statistics MpcStatistics MpcTask Arithmetic.

Local Open Scope Z_scope.

(** ** The text of a request *)

Lemma find_char_none c s : c ∉ s -> find_char c s = -1.
Proof.
  induction s as [|d s IH]; simpl; [done|]. intros [Hd Hs]%not_elem_of_cons. rewrite decide_False by done. by rewrite IH.
Qed.

Lemma find_char_first c s rest : c ∉ s -> find_char c (s ++ c :: rest) = Z.of_nat (length s).
Proof.
  induction s as [|d s IH]; simpl; [by rewrite decide_True|]. intros [Hd Hs]%not_elem_of_cons.
  rewrite decide_False, IH by done. rewrite (proj2 (Z.ltb_ge _ 0)) by lia. lia.
Qed.

Lemma find_char_bound c s : -1 <= find_char c s < Z.of_nat (length s).
Proof. induction s as [|d s IH]; simpl; [lia|]. case_decide; [lia|]. case_match eqn:E; lia. Qed.

Lemma substr_app a b n : n = Z.of_nat (length a) -> substr (a ++ b) 0 n = Ret a.
Proof.
  intros ->. unfold substr. rewrite length_app, !(proj2 (Z.ltb_ge _ _)) by lia. f_equal. rewrite drop_0, take_app_le by lia.
  apply take_ge. lia.
Qed.

Lemma substr_rest a b pos n : pos = Z.of_nat (length a) -> Z.of_nat (length b) <= n -> substr (a ++ b) pos n = Ret b.
Proof.
  intros -> Hn. unfold substr. rewrite length_app, !(proj2 (Z.ltb_ge _ _)) by lia. f_equal.
  rewrite Nat2Z.id, drop_app_length. apply take_ge. lia.
Qed.

Lemma substr_ok s pos n : pos <= Z.of_nat (length s) -> exists t, substr s pos n = Ret t.
Proof. intros H. unfold substr. rewrite (proj2 (Z.ltb_ge _ pos)) by lia. eauto. Qed.

(** A field of the two column texts, and the texts. *)
Definition field_text (e : str * str) : str := e.1 ++ "-"%char :: e.2.
Definition fields_text (l : list (str * str)) : str := join [";"%char] (field_text <$> l).

Lemma split_field_text col v : "-"%char ∉ col -> split_field (field_text (col, v)) = Ret (col, v).
Proof.
  intros H. unfold split_field, field_text. simpl. rewrite find_char_first by done.
  rewrite substr_app by done. cbn [mbind res_bind].
  replace (col ++ "-"%char :: v) with ((col ++ ["-"%char]) ++ v) by (by rewrite <- app_assoc).
  rewrite substr_rest; [done|rewrite length_app; simpl; lia|rewrite !length_app; simpl; lia].
Qed.

Definition plain (s : str) : Prop := ("-"%char ∉ s) /\ (";"%char ∉ s).

Lemma split_fields l : l <> [] -> Forall (fun e => plain e.1 /\ (";"%char ∉ e.2)) l ->
  split_char ";" (fields_text l) = field_text <$> l.
Proof.
  intros Hne H. apply split_char_join; [by destruct l|]. apply Forall_fmap. eapply Forall_impl; [exact H|].
  intros [a b] [[_ Ha] Hb]. unfold field_text. simpl. rewrite not_elem_of_app, not_elem_of_cons. done.
Qed.

Lemma read_owners_text c l m (pname : Z -> str) (owner : list (str * Z)) :
  l = (fun e => (e.1, pname e.2)) <$> owner -> Forall (fun e => plain e.1) owner ->
  Forall (fun e => PartyName2PartyId c (pname e.2) = Some e.2) owner -> NoDup owner.*1 -> (forall k, k ∈ owner.*1 -> m !! k = None) ->
  read_owners c (field_text <$> l) m = Ret (Some (list_to_map owner ∪ m)).
Proof.
  intros ->. revert m. induction owner as [|[k o] owner IH]; intros m Hp Hc Hnd Hm; simpl in *; [by rewrite (left_id_L ∅ (∪))|].
  inversion_clear Hp as [|?? [Hk _] Hp']. inversion_clear Hc as [|?? Ho Hc']. apply NoDup_cons in Hnd as [Hk' Hnd].
  rewrite split_field_text by done. cbn [mbind res_bind]. simpl in Ho. rewrite Ho, map_insert_fresh by (apply Hm; left).
  rewrite IH; [|done..|].
  - rewrite <- insert_union_r, insert_union_l; [done|]. by apply not_elem_of_list_to_map_1.
  - intros k' Hk0. rewrite lookup_insert_ne by (by intros ->). apply Hm. by right.
Qed.

Lemma read_dtypes_text (cols : list str) m : Forall plain cols -> NoDup cols -> (forall k, k ∈ cols -> m !! k = None) ->
  read_col_dtypes (field_text <$> ((fun k => (k, chars "0")) <$> cols)) m = Ret (list_to_map ((fun k => (k, false)) <$> cols) ∪ m).
Proof.
  revert m. induction cols as [|k cols IH]; intros m Hp Hnd Hm; simpl in *; [by rewrite (left_id_L ∅ (∪))|].
  inversion_clear Hp as [|?? [Hk _] Hp']. apply NoDup_cons in Hnd as [Hk' Hnd].
  rewrite split_field_text by done. cbn [mbind res_bind]. change (atoi ["0"%char]) with (Ret (A := Z) 0). cbn [mbind res_bind].
  rewrite map_insert_fresh by (apply Hm; left). rewrite IH; [|done..|].
  - rewrite <- insert_union_r, insert_union_l; [done|]. apply not_elem_of_list_to_map_1. by rewrite <- list_fmap_compose, list_fmap_id.
  - intros k' Hk0. rewrite lookup_insert_ne by (by intros ->). apply Hm. by right.
Qed.

Lemma read_parties_names c (pname : Z -> str) ps : Forall (fun p => PartyName2PartyId c (pname p) = Some p) ps ->
  read_parties c (pname <$> ps) = Some ps.
Proof. induction 1 as [|p ps H _ IH]; [done|]. rewrite fmap_cons. simpl. by rewrite H, IH. Qed.

(** ** Three parties *)

(** The access entries name three parties, in any order. *)
Definition three_parties (info : list (str * Z)) (pname : Z -> str) : Prop :=
  NoDup [pname 0; pname 1; pname 2] /\ info ≡ₚ [(pname 0, 0); (pname 1, 1); (pname 2, 2)].

Lemma perm3 {A} (l : list A) a b c : l ≡ₚ [a; b; c] ->
  l ∈ [[a; b; c]; [a; c; b]; [b; a; c]; [b; c; a]; [c; a; b]; [c; b; a]].
Proof.
  intros H. assert (Hl := Permutation_length H). destruct l as [|x [|y [|z [|]]]]; try done.
  assert (Hx : x ∈ [a; b; c]) by (rewrite <- H; left).
  apply elem_of_cons in Hx as [-> | [-> | [-> | []%elem_of_nil]%elem_of_cons]%elem_of_cons].
  - apply Permutation_cons_inv, Permutation_length_2_inv in H as [[= -> ->]|[= -> ->]]; set_solver.
  - rewrite (Permutation_swap b a [c]) in H. apply Permutation_cons_inv, Permutation_length_2_inv in H as [[= -> ->]|[= -> ->]]; set_solver.
  - rewrite (Permutation_swap c b), (Permutation_swap c a) in H || rewrite <- (Permutation_middle [a; b] [] c) in H.
    apply Permutation_cons_inv, Permutation_length_2_inv in H as [[= -> ->]|[= -> ->]]; set_solver.
Qed.

Lemma three_parties_id info pname p o : three_parties info pname -> 0 <= o < 3 -> PartyName2PartyId (new_PartyConfig p info) (pname o) = Some o.
Proof.
  intros [Hnd Hp] Ho. apply perm3 in Hp.
  assert (Hm : node_id_map (new_PartyConfig p info) = [(0, pname 0); (1, pname 1); (2, pname 2)]).
  { repeat (apply elem_of_cons in Hp as [-> |Hp]; [reflexivity|]). by apply elem_of_nil in Hp. }
  unfold PartyName2PartyId. rewrite Hm. rewrite !list.NoDup_cons, !not_elem_of_cons in Hnd.
  destruct Hnd as ((H01 & H02 & _) & (H12 & _) & _). assert (o = 0 \/ o = 1 \/ o = 2) as [-> | [-> | ->]] by lia; simpl.
  - by rewrite decide_True.
  - by rewrite decide_False, decide_True by done.
  - by rewrite decide_False, decide_False, decide_True by done.
Qed.

(** ** Requests *)

(** What the three requests share: who owns which column, and who gets the result. *)
Record arith_setup (pname : Z -> str) (owner : list (str * Z)) (ps : list Z) : Prop := {
  as_names : forall o, 0 <= o < 3 -> ";"%char ∉ pname o;
  as_some : owner <> [];
  as_plain : Forall (fun e => plain e.1) owner;
  as_nodup : NoDup owner.*1;
  as_owner : Forall (fun e => 0 <= e.2 < 3) owner;
  as_reveal : ps <> [];
  as_parties : Forall (fun p => 0 <= p < 3) ps
}.

(** The request of one party: all columns are integer columns. *)
Record arith_request (task : Task) (pname : Z -> str) (owner : list (str * Z)) (expr : str) (ps : list Z) (path : str) : Prop := {
  aq_dataset : is_Some (find_dataset (party_name task) task);
  aq_owner : string_param task "Col_And_Owner" = fields_text ((fun e => (e.1, pname e.2)) <$> owner);
  aq_dtype : string_param task "Col_And_Dtype" = fields_text ((fun k => (k, chars "0")) <$> owner.*1);
  aq_expr : string_param task "Expr" = expr;
  aq_parties : string_param task "RevealToParties" = join [";"%char] (pname <$> ps);
  aq_path : string_param task "ResFileName" = path
}.

Definition owner_map (owner : list (str * Z)) : gmap str Z := list_to_map owner.
Definition int_dtypes (owner : list (str * Z)) : gmap str bool := list_to_map ((fun k => (k, false)) <$> owner.*1).

Lemma substr_head s : (3 <= length s)%nat -> substr s 0 3 = Ret (take 3 s).
Proof.
  intros H. rewrite <- (take_drop 3 s) at 1. apply substr_app. rewrite length_take, Nat.min_l by done. done.
Qed.

Lemma cmp_operands_ok expr : (4 <= length expr)%nat -> exists c1 c2, cmp_operands expr = Ret (c1, c2).
Proof.
  intros H. unfold cmp_operands. assert (Hb := find_char_bound "," expr).
  destruct (substr_ok expr 4 (find_char "," expr - 4)) as [c1 ->]; [lia|]. cbn [mbind res_bind].
  destruct (substr_ok expr (find_char "," expr + 1) (Z.of_nat (length expr) - find_char "," expr - 2)) as [c2 ->]; [lia|].
  cbn [mbind res_bind]. eauto.
Qed.

(** Reading a request gives back what it was written from. *)
Lemma loadParams_arith storage junk task info pname owner expr ps path p c1 c2 :
  three_parties info pname -> arith_setup pname owner ps -> arith_request task pname owner expr ps path ->
  (4 <= length expr)%nat -> cmp_operands expr = Ret (c1, c2) ->
  let cfg := new_PartyConfig (party_name task) info in
  let is_cmp := bool_decide (take 3 expr = chars "CMP") in
  exists id detail, arith_loadParams storage junk task (fresh_ArithExecutor cfg p) =
    Ret (0, Arith cfg p id detail expr is_cmp true c1 c2 (owner_map owner) (int_dtypes owner) ps (CompletePath storage path) ∅ ∅
              (if is_cmp then None else Some (new_executor junk.1 junk.2)) [] [] []).
Proof.
  intros Hthree Hset Hreq Hlen Hcmp cfg is_cmp.
  assert (Hid : forall o, 0 <= o < 3 -> PartyName2PartyId cfg (pname o) = Some o) by (intros o; by apply three_parties_id).
  destruct (aq_dataset _ _ _ _ _ _ Hreq) as [[[nm id] detail] Hds]. exists id, (detail || false).
  unfold arith_loadParams. rewrite Hds. unfold read_params. cbn [ar_config set_ar_dataset fresh_ArithExecutor col_and_owner col_and_dtype].
  destruct Hset as [Hn Hne Hpl Hnd Ho Hpe Hps].
  rewrite (aq_owner _ _ _ _ _ _ Hreq), (aq_dtype _ _ _ _ _ _ Hreq), (aq_expr _ _ _ _ _ _ Hreq), (aq_parties _ _ _ _ _ _ Hreq), (aq_path _ _ _ _ _ _ Hreq).
  rewrite (split_fields ((fun e => (e.1, pname e.2)) <$> owner)); [|by destruct owner|].
  2: { apply Forall_fmap, Forall_forall. intros e He. simpl. rewrite Forall_forall in Hpl, Ho. split; [by apply Hpl|apply Hn; by apply Ho]. }
  rewrite (read_owners_text cfg _ ∅ pname owner); [|done|done| |done|done].
  2: { eapply Forall_impl; [exact Ho|]. intros e He. by apply Hid. }
  cbn [mbind res_bind].
  rewrite split_fields; [|by destruct owner|].
  2: { apply Forall_fmap, Forall_fmap. eapply Forall_impl; [exact Hpl|]. intros e He. split; [done|].
       apply (bool_decide_unpack _). vm_compute. exact I. }
  rewrite (read_dtypes_text owner.*1 ∅); [|by apply Forall_fmap|done|done]. cbn [mbind res_bind].
  rewrite Hcmp. cbn [mbind res_bind]. rewrite substr_head by lia. cbn [mbind res_bind].
  rewrite split_char_join; [|by destruct ps|].
  2: { apply Forall_fmap. eapply Forall_impl; [exact Hps|]. intros o Ho'. by apply Hn. }
  rewrite read_parties_names; [|eapply Forall_impl; [exact Hps|]; intros o Ho'; by apply Hid].
  rewrite !(right_id_L ∅ (∪)). reflexivity.
Qed.

(** ** Loading the columns *)

(** The table of party [p]: its columns of the request are integer columns of [N]
    rows, and those it owns hold the values of [cols]. *)
Record party_table (owner : list (str * Z)) (cols : gmap str (list Z)) (N : nat) (p : Z) (t : stable) : Prop := {
  pt_nodup : NoDup t.*1;
  pt_last : exists name c, last t = Some (name, c) /\ col_length c = Z.of_nat N;
  pt_ints : forall name c, (name, c) ∈ t -> name ∈ owner.*1 ->
    field_type c = INT64 /\ col_length c = Z.of_nat N /\ exists v, int_values c = Ret v /\ length v = N;
  pt_owned : forall name, (name, p) ∈ owner -> exists c v, (name, c) ∈ t /\ int_values c = Ret v /\ cols !! name = Some v
}.

Lemma GetColumnByName_in (t : stable) name c : NoDup t.*1 -> (name, c) ∈ t -> GetColumnByName t name = Some c.
Proof.
  unfold GetColumnByName. intros Hnd Hin. assert (H : filter (fun e => e.1 = name) t = [(name, c)]); [|by rewrite H].
  induction t as [|[k d] t IH]; [by apply elem_of_nil in Hin|]. rewrite fmap_cons in Hnd. apply NoDup_cons in Hnd as [Hk Hnd]. simpl in Hk.
  assert (Hno : forall l : stable, name ∉ l.*1 -> filter (fun e => e.1 = name) l = []).
  { intros l Hl. apply list_filter_all_nil || idtac. induction l as [|[a b] l IHl]; [done|].
    rewrite fmap_cons, not_elem_of_cons in Hl. simpl in Hl. rewrite filter_cons_False; [apply IHl; tauto|simpl; intros ->; tauto]. }
  apply elem_of_cons in Hin as [[= -> ->]|Hin].
  - rewrite filter_cons_True by done. by rewrite Hno.
  - rewrite filter_cons_False; [by apply IH|]. simpl. intros ->. destruct Hk. apply list_elem_of_fmap. by exists (name, c).
Qed.

Lemma load_columns_ints (whole : stable) (dtypes : gmap str bool) N t int : NoDup whole.*1 -> t ⊆ whole -> NoDup t.*1 ->
  (forall k d, dtypes !! k = Some d -> d = false) ->
  (forall name c, (name, c) ∈ t -> is_Some (dtypes !! name) ->
    field_type c = INT64 /\ col_length c = Z.of_nat N /\ exists v, int_values c = Ret v /\ length v = N) ->
  (forall name, name ∈ t.*1 -> int !! name = None) ->
  exists int', load_columns whole dtypes (Z.of_nat N) t ∅ int = Ret (∅, int') /\
    (forall k v, int' !! k = Some v <-> int !! k = Some v \/ exists c, (k, c) ∈ t /\ is_Some (dtypes !! k) /\ int_values c = Ret v).
Proof.
  intros Hw. revert int. induction t as [|[name c] t IH]; intros int Hsub Hnd Hf Hc Hint; simpl.
  { exists int. split; [done|]. intros k v. split; [by left|]. intros [H|(c & []%elem_of_nil & _)]; done. }
  rewrite fmap_cons in Hnd. apply NoDup_cons in Hnd as [Hk Hnd]. simpl in Hk.
  assert (Hsub' : t ⊆ whole) by (intros e He; apply Hsub; by right).
  assert (Hc' : forall n d, (n, d) ∈ t -> is_Some (dtypes !! n) ->
    field_type d = INT64 /\ col_length d = Z.of_nat N /\ exists v, int_values d = Ret v /\ length v = N) by (intros n d H; apply Hc; by right).
  destruct (dtypes !! name) as [d|] eqn:Ed.
  - assert (d = false) as -> by (by eapply Hf). destruct (Hc name c) as (Ht & Hl & v & Hv & Hn); [left|by rewrite Ed|].
    rewrite (GetColumnByName_in whole name c Hw) by (apply Hsub; left). cbn [or_undef mbind res_bind negb].
    rewrite decide_False by (by intros H). rewrite Hv. cbn [mbind res_bind]. rewrite Hl, Z.eqb_refl. cbn [negb].
    rewrite map_insert_fresh by (apply Hint; rewrite fmap_cons; left).
    destruct (IH (<[name := v]> int)) as (int' & -> & Hspec); [done..| |].
    { intros n Hn'. rewrite lookup_insert_ne by (by intros ->). apply Hint. rewrite fmap_cons. by right. }
    exists int'. split; [done|]. intros k w. rewrite Hspec, lookup_insert_Some. split.
    + intros [[[<- <-]|[Hne Hk']]|(c' & Hin & Hd & Hv')]; [right; exists c; split_and!; [left|by rewrite Ed|done]|by left|].
      right. exists c'. split; [by right|done].
    + intros [Hk'|(c' & [[= -> ->]|Hin]%elem_of_cons & Hd & Hv')].
      * left. right. split; [|done]. intros ->. rewrite Hint in Hk'; [done|]. rewrite fmap_cons. left.
      * left. left. split; [done|]. rewrite Hv in Hv'. by injection Hv'.
      * right. eauto.
  - destruct (IH int) as (int' & -> & Hspec); [done..|intros n Hn'; apply Hint; rewrite fmap_cons; by right|].
    exists int'. split; [done|]. intros k w. rewrite Hspec. split; [intros [?|(c' & ? & ?)]; [by left|right; exists c'; split; [by right|done]]|].
    intros [?|(c' & [[= -> ->]|Hin]%elem_of_cons & Hd & Hv')]; [by left| |right; eauto]. rewrite Ed in Hd. by destruct Hd.
Qed.

(** ** Handing the columns to the expression executor *)

Lemma sorted_entries_elem {A} (m : gmap str A) k v : (k, v) ∈ sorted_entries m <-> m !! k = Some v.
Proof.
  unfold sorted_entries. rewrite list_elem_of_omap. split.
  - intros (k' & _ & H). destruct (m !! k') eqn:E; simpl in H; simplify_eq. done.
  - intros H. exists k. rewrite H. split; [|done]. apply sort_names_elem, list_elem_of_fmap. exists (k, v). by rewrite elem_of_map_to_list.
Qed.

Lemma sorted_entries_keys {A} (m : gmap str A) : (sorted_entries m).*1 = sort_names (map_to_list m).*1.
Proof.
  unfold sorted_entries. assert (H : Forall (fun k => is_Some (m !! k)) (sort_names (map_to_list m).*1)).
  { apply Forall_forall. intros k Hk. apply sort_names_elem, list_elem_of_fmap in Hk as ([k' v] & -> & Hv%elem_of_map_to_list).
    by exists v. }
  induction H as [|k l [v Hv] _ IH]; simpl; [done|]. rewrite Hv. simpl. by f_equal.
Qed.

Lemma sorted_entries_NoDup {A} (m : gmap str A) : NoDup (sorted_entries m).*1.
Proof. rewrite sorted_entries_keys. unfold sort_names. rewrite merge_sort_Permutation. apply NoDup_fst_map_to_list. Qed.

Lemma sorted_entries_map {A} (m : gmap str A) : list_to_map (sorted_entries m) = m.
Proof.
  apply map_eq. intros k. apply option_eq. intros v. rewrite <- (sorted_entries_elem m).
  symmetry. apply elem_of_list_to_map, sorted_entries_NoDup.
Qed.

Definition with_owner (c : ColumnConfig) (m : gmap str Z) : ColumnConfig :=
  {| cc_party_id := cc_party_id c; col_owner_ := m; col_dtype_ := col_dtype_ c; local_col_ := local_col_ c |}.
Definition with_dtype (c : ColumnConfig) (m : gmap str ColDtype) : ColumnConfig :=
  {| cc_party_id := cc_party_id c; col_owner_ := col_owner_ c; col_dtype_ := m; local_col_ := local_col_ c |}.

Lemma insert_later {A} (k : str) (v : A) (l : list (str * A)) (m : gmap str A) : k ∉ l.*1 -> list_to_map l ∪ <[k := v]> m = list_to_map ((k, v) :: l) ∪ m.
Proof.
  intros H. simpl. rewrite <- insert_union_r, insert_union_l; [done|]. by apply not_elem_of_list_to_map_1.
Qed.

Lemma import_owners l e c : col_config_ e = Some c -> NoDup l.*1 -> (forall k, k ∈ l.*1 -> col_owner_ c !! k = None) ->
  import_all importColumnOwner l e = Ret (set_config e (Some (with_owner c (list_to_map l ∪ col_owner_ c)))).
Proof.
  revert e c. induction l as [|[k o] l IH]; intros e c He Hnd Hk; simpl.
  - rewrite (left_id_L ∅ (∪)). destruct e, c; simpl in *. by subst.
  - rewrite fmap_cons in Hnd. apply NoDup_cons in Hnd as [Hkl Hnd]. assert (Hc : col_owner_ c !! k = None) by (apply Hk; rewrite fmap_cons; left).
    assert (Hs : importColumnOwner e k o = Ret (0, set_config e (Some (with_owner c (<[k := o]> (col_owner_ c)))))).
    { unfold importColumnOwner. rewrite He. cbn [or_undef mbind res_bind]. unfold cc_importColumnOwner. by rewrite Hc, map_insert_fresh. }
    rewrite Hs. cbn [mbind res_bind].
    erewrite IH; [|reflexivity|done|]; cbn [col_owner_ set_config with_owner].
    + by rewrite insert_later.
    + intros k' Hk'. rewrite lookup_insert_ne by (by intros ->). apply Hk. rewrite fmap_cons. by right.
Qed.

Definition dtype_of (d : bool) : ColDtype := if d then FP64 else ExprConfig.INT64.

Lemma import_dtypes (l : list (str * bool)) e c : col_config_ e = Some c -> NoDup l.*1 -> (forall k, k ∈ l.*1 -> col_dtype_ c !! k = None) ->
  import_all importColumnDtype l e =
    Ret (set_config e (Some (with_dtype c (list_to_map (prod_map id dtype_of <$> l) ∪ col_dtype_ c)))).
Proof.
  revert e c. induction l as [|[k d] l IH]; intros e c He Hnd Hk; simpl.
  - rewrite (left_id_L ∅ (∪)). destruct e, c; simpl in *. by subst.
  - rewrite fmap_cons in Hnd. apply NoDup_cons in Hnd as [Hkl Hnd]. assert (Hc : col_dtype_ c !! k = None) by (apply Hk; rewrite fmap_cons; left).
    assert (Hs : importColumnDtype e k d = Ret (0, set_config e (Some (with_dtype c (<[k := dtype_of d]> (col_dtype_ c)))))).
    { unfold importColumnDtype. rewrite He. cbn [or_undef mbind res_bind]. unfold cc_importColumnDtype. by rewrite Hc, map_insert_fresh. }
    rewrite Hs. cbn [mbind res_bind].
    erewrite IH; [|reflexivity|done|]; cbn [col_dtype_ set_config with_dtype].
    + rewrite insert_later; [done|]. rewrite <- list_fmap_compose. done.
    + intros k' Hk'. rewrite lookup_insert_ne by (by intros ->). apply Hk. rewrite fmap_cons. by right.
Qed.

(** One column: stored by its owner, refused by the others. *)
Lemma import_one c f k v (b : bool) : float_run_ f = false -> local_col_ c !! k = Some b -> col_dtype_ c !! k = Some ExprConfig.INT64 -> int64_col_ f !! k = None ->
  (val_count_ f = -1 \/ val_count_ f = Z.of_nat (length v)) ->
  exists r f' w, importColumnValues_i64 c f k v = Ret (r, f', w) /\ float_run_ f' = false /\
    (if b then val_count_ f' = Z.of_nat (length v) /\ int64_col_ f' = <[k := v]> (int64_col_ f) else f' = f).
Proof.
  intros Hf Hl Hd Hk Hc. unfold importColumnValues_i64, getColumnLocality, getColumnDtype. rewrite Hl. destruct b; cbn [mbind res_bind]; simpl.
  - rewrite Hd. cbn [mbind res_bind]. simpl.
    assert (Hs : setOrCheckValueCount f (Z.of_nat (length v)) = (0, set_count f (Z.of_nat (length v)))).
    { unfold setOrCheckValueCount. destruct Hc as [-> | Hc]; simpl; [by rewrite Z.eqb_refl|].
      rewrite (proj2 (Z.eqb_neq (val_count_ f) (-1))) by lia. rewrite Hc, Z.eqb_refl. f_equal. destruct f; simpl in *. by subst. }
    rewrite Hs. simpl. rewrite Hf, Hk. eexists _, _, _. split; [done|]. split; [done|]. split; [done|]. simpl. by rewrite map_insert_fresh.
  - eauto 10.
Qed.

Definition import_ints := import_all (fun e k v => '(r, e, _) ← importValues_i64 e k v; Ret (r, e)).

Lemma import_values c (N : nat) l e f : col_config_ e = Some c -> feed_dict_ e = Some f -> float_run_ f = false -> NoDup l.*1 ->
  Forall (fun p => is_Some (local_col_ c !! p.1) /\ col_dtype_ c !! p.1 = Some ExprConfig.INT64 /\ length p.2 = N) l ->
  (forall k, k ∈ l.*1 -> int64_col_ f !! k = None) -> (val_count_ f = -1 \/ val_count_ f = Z.of_nat N) ->
  exists f', import_ints l e = Ret (set_feed e (Some f')) /\ float_run_ f' = false /\
    (val_count_ f' = Z.of_nat N \/ val_count_ f' = val_count_ f /\ forall k v, (k, v) ∈ l -> local_col_ c !! k <> Some true) /\
    (forall k v, int64_col_ f !! k = Some v -> int64_col_ f' !! k = Some v) /\
    (forall k v, (k, v) ∈ l -> local_col_ c !! k = Some true -> int64_col_ f' !! k = Some v).
Proof.
  revert e f. induction l as [|[k v] l IH]; intros e f Hc He Hf Hnd Hall Hfree Hcnt; unfold import_ints; simpl.
  { exists f. split; [destruct e; simpl in *; by subst|]. split; [done|]. split; [right; split; [done|by intros ? ? ?%elem_of_nil]|].
    split; [done|]. by intros ? ? ?%elem_of_nil. }
  rewrite fmap_cons in Hnd. apply NoDup_cons in Hnd as [Hk Hnd]. inversion_clear Hall as [|?? ([b Hb] & Hd & Hlen) Hall']. simpl in *.
  destruct (import_one c f k v b) as (r & f1 & w & E1 & Hf1 & Hb1); [done..|apply Hfree; left|by rewrite Hlen|].
  assert (Hs : importValues_i64 e k v = Ret (r, set_feed e (Some f1), w)).
  { unfold importValues_i64. rewrite Hc, He. cbn [or_undef mbind res_bind]. by rewrite E1. }
  rewrite Hs. cbn [mbind res_bind]. change (import_all _ l) with (import_ints l).
  assert (Hcnt1 : val_count_ f1 = -1 \/ val_count_ f1 = Z.of_nat N).
  { destruct b; [destruct Hb1 as [-> _]; right; by rewrite Hlen|by subst]. }
  assert (Hold : forall k' v', int64_col_ f !! k' = Some v' -> int64_col_ f1 !! k' = Some v').
  { intros k' v' H. destruct b; [|by subst]. destruct Hb1 as [_ ->]. rewrite lookup_insert_ne; [done|]. intros ->.
    rewrite Hfree in H by left. done. }
  destruct (IH (set_feed e (Some f1)) f1) as (f' & -> & Hf' & Hc' & Ho' & Hn'); [done..| |done|].
  { intros k' Hk'. destruct b; [|subst; apply Hfree; by right]. destruct Hb1 as [_ ->].
    rewrite lookup_insert_ne by (by intros ->). apply Hfree. by right. }
  exists f'. split; [done|]. split; [done|]. split_and!.
  - destruct Hc' as [Hc'|[Hc' Hno]]; [by left|]. destruct b; [destruct Hb1 as [Hb1 _]; left; rewrite Hc', Hb1, Hlen; done|].
    subst f1. right. split; [done|]. intros k' v' [[= -> ->]|Hin]%elem_of_cons; [by rewrite Hb|by eapply Hno].
  - auto.
  - intros k' v' [[= -> ->]|Hin]%elem_of_cons Hl; [|by apply Hn']. rewrite Hl in Hb. injection Hb as <-. destruct Hb1 as [_ Hb1].
    apply Ho'. by rewrite Hb1, lookup_insert_eq.
Qed.

(** ** One party, loaded *)

Lemma post_names (P : str -> Prop) t : tree_ok t -> Forall P (leaves t) -> Forall P (filter (fun s => isOperatorStr s = false) (post t)).
Proof.
  induction t as [s|c l IHl r IHr]; simpl; intros Hok Hf.
  - rewrite filter_cons_True by done. done.
  - destruct Hok as (Hc & Hl & Hr). apply Forall_app in Hf as [Hfl Hfr]. rewrite !filter_app, !Forall_app. split_and!; [by apply IHl|by apply IHr|].
    rewrite filter_cons_False by (by rewrite isOperatorStr_op). constructor.
Qed.

Lemma post_no_div t : tree_ok t -> divides t = false -> ["/"%char] ∉ post t.
Proof.
  induction t as [s|c l IHl r IHr]; simpl; intros Hok Hd.
  - intros Hs%list_elem_of_singleton. subst s. vm_compute in Hok. done.
  - destruct Hok as (Hc & Hl & Hr). apply orb_false_iff in Hd as [[Hd Hdl]%orb_false_iff Hdr].
    rewrite !not_elem_of_app, list_elem_of_singleton. apply bool_decide_eq_false in Hd. split_and!; [by apply IHl|by apply IHr|congruence].
Qed.

Lemma resolve_keeps_feed x rc x' : resolveRunMode x = Ret (rc, x') -> feed_dict_ x' = feed_dict_ x.
Proof.
  unfold resolveRunMode. intros H. apply res_bind_Ret in H as (c & _ & H). apply res_bind_Ret in H as ([r c'] & _ & H).
  destruct (negb (r =? 0)); [by injection H as <- <-|]. apply res_bind_Ret in H as ([[ty dv] fp] & _ & H). by injection H as <- <-.
Qed.

Lemma int_dtypes_lookup owner k d : int_dtypes owner !! k = Some d -> d = false /\ k ∈ owner.*1.
Proof.
  unfold int_dtypes. intros H. apply elem_of_list_to_map_2, list_elem_of_fmap in H as (k' & [= -> ->] & H). done.
Qed.

Lemma int_dtypes_Some owner k : is_Some (int_dtypes owner !! k) <-> k ∈ owner.*1.
Proof.
  split; [intros [d H]; exact (proj2 (int_dtypes_lookup _ _ _ H))|]. intros H. destruct (int_dtypes owner !! k) eqn:E; [by eexists|].
  unfold int_dtypes in E. apply not_elem_of_list_to_map_2 in E. destruct E. rewrite <- list_fmap_compose. by rewrite list_fmap_id.
Qed.

Lemma owner_map_dom owner : dom (owner_map owner) = dom (int_dtypes owner).
Proof.
  apply set_eq. intros k. rewrite !elem_of_dom, int_dtypes_Some. unfold owner_map.
  destruct (list_to_map owner !! k : option Z) as [o|] eqn:E.
  - split; [|by eexists]. intros _. apply elem_of_list_to_map_2 in E. apply list_elem_of_fmap. by exists (k, o).
  - apply not_elem_of_list_to_map_2 in E. split; [by intros [? ?]|done].
Qed.

(** The name, the config and the tokens a loaded executor has. *)
Record loaded (owner : list (str * Z)) (cols : gmap str (list Z)) (N : nat) (t : etree) (p : Z)
    (e : MPCExpressExecutor) (c : ColumnConfig) (f : FeedDict) : Prop := {
  ld_ready : party_ready false N (token_type_map_ e) t p (initMPCRuntime p e) c f;
  ld_types : forall s, token_type_map_ e !! s = if decide (s ∈ filter (fun s => isOperatorStr s = false) (post t)) then Some COLUMN else None;
  ld_local : forall k, local_col_ c !! k = (fun o => bool_decide (o = p)) <$> owner_map owner !! k;
  ld_values : forall k, (k, p) ∈ owner -> exists v, int64_col_ f !! k = Some v /\ cols !! k = Some v
}.

Lemma importExpr_print e ex : exp_ok ex -> suffix_stk_ e = [] ->
  exists r e', importExpr e (print_exp ex) = Ret (r, e') /\ suffix_stk_ e' = post (tree_exp ex) /\ col_config_ e' = col_config_ e /\
    feed_dict_ e' = feed_dict_ e /\ token_type_map_ e' = token_type_map_ e.
Proof.
  intros Hok Hs. unfold importExpr, importExpress. rewrite Hs, parse_print by done. cbn [mbind res_bind].
  assert (Hp := proj2 (proj2 post_tree) ex). destruct (checkExpress (post_exp ex)); eexists _, _; (split; [reflexivity|]); by rewrite Hp.
Qed.

(** The names, the owners and the types of the request, imported and resolved. *)
Lemma configured e0 p owner ex : token_type_map_ e0 = ∅ -> suffix_stk_ e0 = [] -> feed_dict_ e0 = None -> exp_ok ex ->
  divides (tree_exp ex) = false -> Forall (fun s => s ∈ owner.*1) (leaves (tree_exp ex)) ->
  exists e c, (e ← import_all importColumnOwner (sorted_entries (owner_map owner)) (initColumnConfig e0 p);
    e ← import_all importColumnDtype (sorted_entries (int_dtypes owner)) e;
    '(_, e) ← importExpr e (print_exp ex); resolveRunMode e) = Ret (0, e) /\
    suffix_stk_ e = post (tree_exp ex) /\ fp64_run_ e = false /\ feed_dict_ e = None /\ col_config_ e = Some c /\
    (forall s, token_type_map_ e !! s = if decide (s ∈ filter (fun s => isOperatorStr s = false) (post (tree_exp ex))) then Some COLUMN else None) /\
    (forall k, local_col_ c !! k = (fun o => bool_decide (o = p)) <$> owner_map owner !! k) /\
    (forall k, k ∈ owner.*1 -> col_dtype_ c !! k = Some ExprConfig.INT64).
Proof.
  intros Ht Hs Hfd Hok Hdiv Hlv.
  rewrite (import_owners _ _ (new_ColumnConfig p)); [|done|apply sorted_entries_NoDup|done]. cbn [mbind res_bind].
  rewrite sorted_entries_map. rewrite (import_dtypes _ _ (with_owner (new_ColumnConfig p) (owner_map owner ∪ ∅)));
    [|done|apply sorted_entries_NoDup|done]. cbn [mbind res_bind].
  set (dt := list_to_map (prod_map id dtype_of <$> sorted_entries (int_dtypes owner))
    ∪ col_dtype_ (with_owner (new_ColumnConfig p) (owner_map owner ∪ ∅))).
  assert (Hdt : forall k, dt !! k = if decide (k ∈ owner.*1) then Some ExprConfig.INT64 else None).
  { intros k. unfold dt. cbn [col_dtype_ with_owner new_ColumnConfig]. rewrite (right_id_L ∅ (∪)), list_to_map_fmap, sorted_entries_map, lookup_fmap.
    destruct (int_dtypes owner !! k) as [d|] eqn:Ek; simpl.
    - apply int_dtypes_lookup in Ek as [-> Hk]. by rewrite decide_True.
    - rewrite decide_False; [done|]. intros Hk%int_dtypes_Some. rewrite Ek in Hk. by destruct Hk. }
  set (c := with_dtype (with_owner (new_ColumnConfig p) (owner_map owner ∪ ∅)) dt).
  match goal with |- context [importExpr ?y _] => destruct (importExpr_print y ex Hok Hs) as (r & e1 & -> & Es & Ec & Ef & Et) end.
  cbn [mbind res_bind]. cbn [token_type_map_ feed_dict_ col_config_ set_config initColumnConfig] in Et, Ef, Ec. rewrite Ht in Et. rewrite Hfd in Ef.
  destruct (resolve_run_mode_facts e1 c Ec eq_refl Et) as [[_ Hex] Hfacts].
  destruct Hex as [[rc e2] Hr].
  { rewrite Es. unfold c. cbn [with_dtype with_owner col_owner_ col_dtype_]. rewrite (right_id_L ∅ (∪)), owner_map_dom.
    assert (Hd : dom dt = dom (int_dtypes owner)).
    { apply set_eq. intros k. rewrite !elem_of_dom, int_dtypes_Some, Hdt. case_decide; [|by split; [intros []|]]. split; [done|by eexists]. }
    rewrite Hd. split; [done|]. apply post_names; [by apply tree_ok_exp|]. eapply Forall_impl; [exact Hlv|]. intros k Hk.
    by apply elem_of_dom, int_dtypes_Some. }
  destruct (Hfacts rc e2 Hr) as (-> & Es2 & Hfp & Hty & c' & Ec2 & Hdt2 & Hloc). rewrite Es in Es2, Hfp, Hty.
  exists e2, c'. split; [done|]. split; [done|]. split.
  { apply Bool.not_true_is_false. rewrite Hfp. intros [H|[k H]]; [by apply (post_no_div (tree_exp ex)); [apply tree_ok_exp|..]|].
    unfold c in H. cbn [with_dtype col_dtype_] in H. rewrite Hdt in H. by case_decide. }
  split; [by rewrite (resolve_keeps_feed _ _ _ Hr)|]. split; [done|]. split; [done|]. split.
  - intros k. rewrite Hloc. unfold c. cbn [with_dtype with_owner col_owner_ cc_party_id new_ColumnConfig]. by rewrite (right_id_L ∅ (∪)).
  - intros k Hk. rewrite Hdt2. unfold c. cbn [with_dtype col_dtype_]. by rewrite Hdt, decide_True.
Qed.

Lemma owner_map_in owner k o : NoDup owner.*1 -> (k, o) ∈ owner -> owner_map owner !! k = Some o.
Proof. intros Hnd H. by apply elem_of_list_to_map_1. Qed.

Lemma to_int32_small n : 0 < n < 2 ^ 31 -> to_int32 n = n.
Proof. intros H. unfold to_int32. rewrite Z.mod_small by lia. lia. Qed.

(** The columns of the request that a party's table holds. *)
Lemma csv_loaded x t owner cols N p : party_table owner cols N p t -> 0 < Z.of_nat N < 2 ^ 31 ->
  col_and_dtype x = int_dtypes owner -> col_and_val_double x = ∅ -> col_and_val_int x = ∅ ->
  exists int, LoadDatasetFromCSV (Some t) x = Ret (Z.of_nat N, set_values x (ar_i64_cmp x) ∅ int) /\
    (forall k v, int !! k = Some v -> k ∈ owner.*1 /\ length v = N) /\
    (forall k, (k, p) ∈ owner -> exists v, int !! k = Some v /\ cols !! k = Some v).
Proof.
  intros [Hnt (ln & lc & Hlast & Hll) Hints Hown] HN Hcd Hvd Hvi.
  unfold LoadDatasetFromCSV. rewrite Hlast. cbn [or_undef mbind res_bind]. rewrite Hll, Hcd, Hvd, Hvi.
  destruct (load_columns_ints t (int_dtypes owner) N t ∅) as (int & -> & Hint); [done..| | |done|].
  { intros k d H. exact (proj1 (int_dtypes_lookup _ _ _ H)). }
  { intros name c Hin Hd. apply (Hints name c); [done|]. by apply int_dtypes_Some. }
  cbn [mbind res_bind]. rewrite to_int32_small by lia. exists int. split; [done|]. split.
  - intros k v Hkv. apply Hint in Hkv as [Hk|(d & Hin & Hd & Hv)]; [by rewrite lookup_empty in Hk|].
    apply int_dtypes_Some in Hd. destruct (Hints k d Hin Hd) as (_ & _ & v' & Hv' & Hl). rewrite Hv in Hv'. by injection Hv' as <-.
  - intros k Hk. destruct (Hown k Hk) as (d & v & Hin & Hv & Hcol). exists v. split; [|done]. apply Hint. right. exists d.
    split; [done|]. split; [|done]. apply int_dtypes_Some, list_elem_of_fmap. by exists (k, p).
Qed.

(** The executor a party has after [loadDataset]. *)
Lemma party_loaded x t owner cols N p ex junk :
  party_table owner cols N p t -> 0 < Z.of_nat N < 2 ^ 31 -> NoDup owner.*1 -> (exists k, (k, p) ∈ owner) ->
  exp_ok ex -> divides (tree_exp ex) = false -> Forall (fun s => s ∈ owner.*1) (leaves (tree_exp ex)) ->
  ar_is_cmp x = false -> ar_party_id x = p -> mpc_exec x = Some (new_executor junk.1 junk.2) -> ar_expr x = print_exp ex ->
  col_and_owner x = owner_map owner -> col_and_dtype x = int_dtypes owner -> col_and_val_double x = ∅ -> col_and_val_int x = ∅ ->
  exists int e c f, arith_loadDataset (Some t) x = Ret (0, set_exec (set_values x (ar_i64_cmp x) ∅ int) (Some e)) /\
    loaded owner cols N (tree_exp ex) p e c f.
Proof.
  intros Htab HN Hnd [k0 Hk0] Hok Hdiv Hlv Hcmp Hp Hexec Hexpr Hco Hcd Hvd Hvi.
  unfold arith_loadDataset. destruct (csv_loaded x t owner cols N p) as (int & -> & Hint & Hown); [done..|].
  cbn [mbind res_bind]. rewrite (proj2 (Z.leb_gt _ 0)) by lia. cbn [ar_is_cmp set_values]. rewrite Hcmp.
  unfold express_dataset. cbn [mpc_exec set_values ar_party_id col_and_owner col_and_dtype ar_expr col_and_val_double col_and_val_int].
  rewrite Hexec, Hco, Hcd, Hexpr, Hp. cbn [or_undef mbind res_bind].
  destruct (configured (new_executor junk.1 junk.2) p owner ex) as (e & c & Hcfg & Es & Efp & Efd & Ec & Hty & Hloc & Hdt); [done..|].
  cbn [mbind] in Hcfg.
  apply res_bind_Ret in Hcfg as (e1 & -> & Hcfg). cbn [mbind res_bind].
  apply res_bind_Ret in Hcfg as (e2 & -> & Hcfg). cbn [mbind res_bind].
  apply res_bind_Ret in Hcfg as ([r3 e3] & -> & Hcfg). cbn [mbind res_bind]. rewrite Hcfg. cbn [mbind res_bind].
  rewrite decide_False by (rewrite map_size_empty; tauto). fold import_ints.
  assert (Hnew : InitFeedDict e = set_feed e (Some (new_FeedDict false))) by (unfold InitFeedDict; by rewrite Efd, Efp).
  rewrite Hnew.
  destruct (import_values c N (sorted_entries int) (set_feed e (Some (new_FeedDict false))) (new_FeedDict false))
    as (f & -> & Hf & Hcnt & _ & Hvals); [done..|apply sorted_entries_NoDup| |done|by left|].
  { apply Forall_forall. intros [k v] Hkv%sorted_entries_elem. simpl.
    apply Hint in Hkv as [Hd Hl].
    split; [|split; [by apply Hdt|done]]. rewrite Hloc. apply list_elem_of_fmap in Hd as ([k' o] & -> & Ho).
    simpl. by rewrite (owner_map_in owner k' o). }
  cbn [mbind res_bind]. exists int, (set_feed e (Some f)), c, f. split; [done|].
  assert (Hmine : forall k, (k, p) ∈ owner -> exists v, int64_col_ f !! k = Some v /\ cols !! k = Some v /\ (k, v) ∈ sorted_entries int).
  { intros k Hk. destruct (Hown k Hk) as (v & Hi & Hcol). exists v.
    assert (Hkv : (k, v) ∈ sorted_entries int) by (by apply sorted_entries_elem).
    split; [|done]. apply Hvals; [done|]. rewrite Hloc, (owner_map_in owner k p) by done. simpl. by rewrite bool_decide_eq_true_2. }
  split.
  - split; try done. destruct Hcnt as [Hcnt|[_ Hno]]; [done|]. destruct (Hmine k0 Hk0) as (v & _ & _ & Hkv). destruct (Hno k0 v Hkv).
    rewrite Hloc, (owner_map_in owner k0 p) by done. simpl. by rewrite bool_decide_eq_true_2.
  - done.
  - done.
  - intros k Hk. destruct (Hmine k Hk) as (v & H1 & H2 & _). eauto.
Qed.

Lemma three_parties_self info pname o : three_parties info pname -> 0 <= o < 3 -> pc_party_id (new_PartyConfig (pname o) info) = Some o.
Proof.
  intros [Hnd Hp] Ho. apply perm3 in Hp. rewrite !list.NoDup_cons, !not_elem_of_cons in Hnd.
  destruct Hnd as ((H01 & H02 & _) & (H12 & _) & _). unfold new_PartyConfig. cbn [pc_party_id].
  assert (o = 0 \/ o = 1 \/ o = 2) as [-> | [-> | ->]] by lia;
    repeat (apply elem_of_cons in Hp as [-> |Hp]; [cbn; repeat (rewrite decide_False by (cbn; congruence); cbn); by rewrite decide_True|]);
    by apply elem_of_nil in Hp.
Qed.

(** ** The task, end to end *)

Lemma row_value_ext {D} (f g : str -> res D) op t : (forall s, f s = g s) -> row_value f op t = row_value g op t.
Proof. intros H. induction t as [s|c l IHl r IHr]; simpl; [done|]. by rewrite IHl, IHr. Qed.

Lemma revealed_nonempty {A} p ps (v : list A) : v <> [] -> p ∈ ps -> exists y l, revealed p ps v = y :: l.
Proof.
  intros Hv Hin. unfold revealed. induction ps as [|a qs IH]; [by apply elem_of_nil in Hin|]. simpl.
  destruct (Z.eqb_spec p a) as [->|Hne]; [destruct v; [done|]; simpl; eauto|].
  apply elem_of_cons in Hin as [Heq|Hin]; [by destruct Hne|]. simpl. by apply IH.
Qed.

(** What one party brings. *)
Record arith_party : Type := AP { ap_task : Task; ap_table : stable; ap_path : str }.

Section EndToEnd.
Context `{L : Aby3Laws} (add_msb : Z -> Z -> bool) (storage : str) (junk : bool * Z).
Context (info : list (str * Z)) (pname : Z -> str) (owner : list (str * Z)) (ps : list Z) (cols : gmap str (list Z)) (N : nat).

(** The task of party [p]: its constructor and its steps. *)
Definition arith_task (q : arith_party) : mprog (retcode * option (str * saved_table)) :=
  x ← MDone (new_ArithExecutor (new_PartyConfig (party_name (ap_task q)) info));
  ExecuteImpl (arithmetic storage junk (ap_task q) true (Some (ap_table q)) 0) x.

(** Request and table of party [p] fit the setup. *)
Record arith_ready (expr : str) (p : Z) (q : arith_party) : Prop := {
  ar_name : party_name (ap_task q) = pname p;
  ar_request : arith_request (ap_task q) pname owner expr ps (ap_path q);
  ar_table : party_table owner cols N p (ap_table q)
}.

Hypothesis Hthree : three_parties info pname.
Hypothesis Hsetup : arith_setup pname owner ps.
Hypothesis HN : 0 < Z.of_nat N < 2 ^ 31.

(** What is left of the task when the data is loaded. *)
Definition finish_arith (x : ArithExecutor) : mprog (retcode * option (str * saved_table)) :=
  '(ret, x) ← arith_execute x;
  if negb (ret =? 0) then mret (FAIL, None) else
  let '(ret, out) := arith_saveModel 0 x in
  if negb (ret =? 0) then mret (FAIL, None) else mret (SUCCESS, out).

Lemma arith_prefix p q ex : 0 <= p < 3 -> (exists k, (k, p) ∈ owner) -> arith_ready (print_exp ex) p q -> exp_ok ex -> divides (tree_exp ex) = false ->
  Forall (fun s => s ∈ owner.*1) (leaves (tree_exp ex)) -> (4 <= length (print_exp ex))%nat -> take 3 (print_exp ex) <> chars "CMP" ->
  exists x e c f, arith_task q = finish_arith x /\ loaded owner cols N (tree_exp ex) p e c f /\
    ar_is_cmp x = false /\ ar_party_id x = p /\ mpc_exec x = Some (initMPCRuntime p e) /\ ar_expr x = print_exp ex /\ ar_parties x = ps /\
    res_name x = CompletePath storage (ap_path q) /\ final_val_double x = [] /\ final_val_int64 x = [].
Proof.
  intros Hp Hown [Hname Hreq Htab] Hok Hdiv Hlv Hlen Hhead.
  destruct (cmp_operands_ok _ Hlen) as (c1 & c2 & Hops). unfold arith_task, new_ArithExecutor.
  destruct (loadParams_arith storage junk _ info pname owner _ ps _ p c1 c2 Hthree Hsetup Hreq Hlen Hops) as (id & detail & Hload).
  assert (Hself : pc_party_id (new_PartyConfig (party_name (ap_task q)) info) = Some p) by (rewrite Hname; by apply three_parties_self).
  rewrite Hself. cbn [or_undef mbind res_bind mprog_mbind mprog_bind]. rewrite bool_decide_eq_false_2 in Hload by done.
  set (x0 := Arith _ _ _ _ _ _ _ _ _ _ _ _ _ _ _ _ _ _ _) in Hload.
  destruct (party_loaded x0 (ap_table q) owner cols N p ex junk) as (int & e & c & f & Hld & Hl); try done; [by destruct Hsetup|].
  exists (set_exec (set_exec (set_values x0 (ar_i64_cmp x0) ∅ int) (Some e)) (Some (initMPCRuntime p e))), e, c, f.
  split; [|done]. unfold ExecuteImpl. cbn [arithmetic loadParams loadDataset initPartyComm InitEngine].
  rewrite Hload. cbn [mbind mprog_mbind mprog_bind]. rewrite Z.eqb_refl. cbn [negb].
  rewrite Hld. cbn [mbind mprog_mbind mprog_bind]. rewrite Z.eqb_refl. reflexivity.
Qed.

(** The joint evaluation of an expression whose leaves are all columns. *)
Lemma mixed_columns tys t : (forall s, token_type tys s = COLUMN) -> mixed tys t.
Proof.
  intros H. assert (Hc : forall t, is_const tys t = false) by (intros [s|]; simpl; [by rewrite H|done]).
  induction t as [|c l IHl r IHr]; simpl; [done|]. by rewrite Hc.
Qed.

Lemma joint_express es cs fs tys ex ch l r :
  exp_ok ex -> tree_exp ex = ExprLocal.Node ch l r -> divides (tree_exp ex) = false -> (forall s, token_type tys s = COLUMN) ->
  parties_ready false N tys (tree_exp ex) es cs fs ->
  map_Forall (fun _ v => length v = N /\ Forall (fun z => in_i64 z = true) v) cols ->
  Forall (fun s => exists o v, cols !! s = Some v /\ owned cs fs int64_col_ s o v) (leaves (tree_exp ex)) ->
  exists v es', length v = N /\
    (forall i, (i < N)%nat -> row_value (table_leaf ∅ cols i) wrap_row_op (tree_exp ex) = or_undef (v !! i)) /\
    run3 0 (execute_express (at0 es) ps [] []) (execute_express (at1 es) ps [] []) (execute_express (at2 es) ps [] []) =
      Some (Trip (Ret ([], revealed 0 ps v, at0 es')) (Ret ([], revealed 1 ps v, at1 es')) (Ret ([], revealed 2 ps v, at2 es'))).
Proof.
  intros Hok Htree Hdiv Hcol Hready Hcols Hlv. assert (Htok := proj2 (proj2 tree_ok_exp) ex Hok). rewrite Htree in *.
  assert (Hf : forall o, float_run_ (sel o fs) = false).
  { destruct Hready as (_ & R0 & R1 & R2). intros o. unfold sel. destruct (o =? 0); [|destruct (o =? 1)]; by eapply pr_float. }
  destruct (execute_run false N tys (fun i s z => table_leaf tys cols i s = Ret z) ch l r es cs fs ps Hready)
    as (v & es' & Hn & Hrow & Hrun); [done|intros Hc; by rewrite Hdiv in Hc|by apply mixed_columns| |by destruct Hsetup|].
  { eapply Forall_impl; [exact Hlv|]. intros s (o & v & Hv & Ho). apply leaf_ready_i64; [done|]. rewrite Hcol.
    destruct (Hcols s v Hv). exists o, v. done. }
  exists v, es'. split; [done|]. split; [|done]. intros i Hi. rewrite <- Hn in Hi. destruct (lookup_lt_is_Some_2 v i Hi) as [z Hz].
  rewrite Hz, (row_value_ext _ (table_leaf tys cols i)); [by apply row_rel_i64, Hrow|].
  intros s. unfold table_leaf. by rewrite Hcol.
Qed.

Definition saved_result (expr : str) (v : list Z) (p : Z) (q : arith_party) : option (str * saved_table) :=
  if decide (p ∈ ps) then Some (CompletePath storage (ap_path q), Saved expr INT64 (d_of_int <$> revealed p ps v)) else None.

(** Saving what the evaluation left. *)
Lemma save_opened x e p q v expr : ar_party_id x = p -> ar_expr x = expr -> ar_parties x = ps ->
  res_name x = CompletePath storage (ap_path q) -> v <> [] ->
  arith_saveModel 0 (set_results x e [] (revealed p ps v) (cmp_res x)) = (0, saved_result expr v p q).
Proof.
  intros Hp He Hps Hres Hv. unfold arith_saveModel, saved_result, result_table.
  cbn [set_results ar_party_id ar_parties res_name final_val_double final_val_int64 ar_expr]. rewrite Hp, Hps, Hres, He.
  case_decide as Hin; [|by rewrite bool_decide_eq_false_2]. rewrite bool_decide_eq_true_2 by done. cbn [negb].
  destruct (revealed_nonempty p ps v Hv Hin) as (y & l & ->). done.
Qed.

(** C18: an arithmetic task is correct end to end: three parties whose requests name,
    in text, the same integer columns with their owners, the same division-free
    expression over them and the same parties to reveal to, and whose tables hold
    the columns they own, at least one each, run their tasks (reading the request, loading, parsing,
    the joint evaluation, opening and saving) to [SUCCESS]; each party revealed to
    saves under its own path, row by row, the value of the expression modulo 2^64
    rounded to a double (the value itself below 2^53), and the others save nothing. *)
Theorem arithmetic_task_correct ex ch l r (q : trip arith_party) :
  exp_ok ex -> tree_exp ex = ExprLocal.Node ch l r -> divides (tree_exp ex) = false ->
  Forall (fun s => s ∈ owner.*1) (leaves (tree_exp ex)) -> (4 <= length (print_exp ex))%nat -> take 3 (print_exp ex) <> chars "CMP" ->
  (forall p, 0 <= p < 3 -> exists k, (k, p) ∈ owner) ->
  arith_ready (print_exp ex) 0 (at0 q) -> arith_ready (print_exp ex) 1 (at1 q) -> arith_ready (print_exp ex) 2 (at2 q) ->
  map_Forall (fun _ v => length v = N /\ Forall (fun z => in_i64 z = true) v) cols ->
  exists v n', length v = N /\
    (forall i, (i < N)%nat -> row_value (table_leaf ∅ cols i) wrap_row_op (tree_exp ex) = or_undef (v !! i)) /\
    mrun3 add_msb 0 (arith_task (at0 q)) (arith_task (at1 q)) (arith_task (at2 q)) =
      Some (n', Trip (Ret (SUCCESS, saved_result (print_exp ex) v 0 (at0 q))) (Ret (SUCCESS, saved_result (print_exp ex) v 1 (at1 q)))
                     (Ret (SUCCESS, saved_result (print_exp ex) v 2 (at2 q)))).
Proof.
  intros Hok Htree Hdiv Hlv Hlen Hhead Hown R0 R1 R2 Hcols.
  destruct (arith_prefix 0 (at0 q) ex) as (x0 & e0 & c0 & f0 & -> & L0 & C0 & P0 & M0 & E0 & S0 & N0 & D0 & I0); [lia|apply Hown; lia|done..|].
  destruct (arith_prefix 1 (at1 q) ex) as (x1 & e1 & c1 & f1 & -> & L1 & C1 & P1 & M1 & E1 & S1 & N1 & D1 & I1); [lia|apply Hown; lia|done..|].
  destruct (arith_prefix 2 (at2 q) ex) as (x2 & e2 & c2 & f2 & -> & L2 & C2 & P2 & M2 & E2 & S2 & N2 & D2 & I2); [lia|apply Hown; lia|done..|].
  set (es := Trip (initMPCRuntime 0 e0) (initMPCRuntime 1 e1) (initMPCRuntime 2 e2)).
  set (cs := Trip c0 c1 c2). set (fs := Trip f0 f1 f2). set (tys := token_type_map_ e0).
  assert (T1 : token_type_map_ e1 = tys) by (apply map_eq; intros s; unfold tys; by rewrite (ld_types _ _ _ _ _ _ _ _ L1), (ld_types _ _ _ _ _ _ _ _ L0)).
  assert (T2 : token_type_map_ e2 = tys) by (apply map_eq; intros s; unfold tys; by rewrite (ld_types _ _ _ _ _ _ _ _ L2), (ld_types _ _ _ _ _ _ _ _ L0)).
  assert (Hcol : forall s, token_type tys s = COLUMN).
  { intros s. unfold token_type, tys. rewrite (ld_types _ _ _ _ _ _ _ _ L0). by case_decide. }
  assert (Hready : parties_ready false N tys (tree_exp ex) es cs fs).
  { split; [lia|]. assert (H0 := ld_ready _ _ _ _ _ _ _ _ L0). assert (H1 := ld_ready _ _ _ _ _ _ _ _ L1).
    assert (H2 := ld_ready _ _ _ _ _ _ _ _ L2). rewrite T1 in H1. rewrite T2 in H2. done. }
  destruct (joint_express es cs fs tys ex ch l r) as (v & es' & Hn & Hrow & Hrun); try done.
  { eapply Forall_impl; [exact Hlv|]. intros s ([k o] & -> & Hin)%list_elem_of_fmap. simpl.
    assert (Ho : 0 <= o < 3) by (destruct Hsetup as [_ _ _ _ Ho _ _]; rewrite Forall_forall in Ho; exact (Ho _ Hin)).
    assert (Hom : owner_map owner !! k = Some o) by (apply owner_map_in; [by destruct Hsetup|done]).
    assert (HL : exists v, int64_col_ (sel o fs) !! k = Some v /\ cols !! k = Some v).
    { assert (o = 0 \/ o = 1 \/ o = 2) as [-> | [-> | ->]] by lia; [exact (ld_values _ _ _ _ _ _ _ _ L0 k Hin)|
        exact (ld_values _ _ _ _ _ _ _ _ L1 k Hin)|exact (ld_values _ _ _ _ _ _ _ _ L2 k Hin)]. }
    destruct HL as (v & Hv & Hcv). exists o, v. split; [done|]. unfold owned, cs. cbn [at0 at1 at2].
    by rewrite (ld_local _ _ _ _ _ _ _ _ L0), (ld_local _ _ _ _ _ _ _ _ L1), (ld_local _ _ _ _ _ _ _ _ L2), Hom. }
  assert (Hv : v <> []) by (intros ->; simpl in Hn; lia).
  destruct (lift_run add_msb _ _ _ _ _ Hrun) as [n' Hm].
  exists v, n'. split; [done|]. split; [done|].
  set (y x p e := set_results x (Some e) [] (revealed p ps v) (cmp_res x)).
  assert (Hexec : mrun3 add_msb 0 (arith_execute x0) (arith_execute x1) (arith_execute x2) =
    Some (n', Trip (Ret (0, y x0 0 (at0 es'))) (Ret (0, y x1 1 (at1 es'))) (Ret (0, y x2 2 (at2 es'))))).
  { unfold arith_execute. rewrite C0, C1, C2, M0, M1, M2, S0, S1, S2, D0, D1, D2, I0, I1, I2. cbn [or_undef mbind mprog_mbind mprog_bind].
    exact (mrun3_bind add_msb 0 _ _ _ n' _ _ _ _ _ _ Hm). }
  etransitivity; [exact (mrun3_bind add_msb 0 _ _ _ n' _ _ _ _ _ _ Hexec)|]. cbn [negb Z.eqb].
  unfold y. rewrite (save_opened x0 _ 0 (at0 q) v (print_exp ex)), (save_opened x1 _ 1 (at1 q) v (print_exp ex)),
    (save_opened x2 _ 2 (at2 q) v (print_exp ex)) by done. reflexivity.
Qed.
End EndToEnd.

(** ** Comparisons *)

Definition cmp_text (col1 col2 : str) : str := chars "CMP(" ++ col1 ++ ","%char :: col2 ++ [")"%char].

Lemma cmp_operands_text col1 col2 : ","%char ∉ col1 -> cmp_operands (cmp_text col1 col2) = Ret (col1, col2).
Proof.
  intros H. unfold cmp_operands, cmp_text.
  assert (Hf : find_char "," (chars "CMP(" ++ col1 ++ ","%char :: col2 ++ [")"%char]) = 4 + Z.of_nat (length col1)).
  { rewrite (app_assoc (chars "CMP(") col1). rewrite find_char_first; [rewrite length_app; simpl; lia|].
    rewrite not_elem_of_app. split; [|done]. apply (bool_decide_unpack _). vm_compute. exact I. }
  rewrite Hf. assert (E1 : substr (chars "CMP(" ++ col1 ++ ","%char :: col2 ++ [")"%char]) 4 (4 + Z.of_nat (length col1) - 4) = Ret col1).
  { unfold substr. rewrite !length_app, !(proj2 (Z.ltb_ge _ _)) by (simpl; lia). f_equal.
    replace (drop _ _) with (col1 ++ ","%char :: col2 ++ [")"%char]) by done. rewrite take_app_le by (simpl; lia). apply take_ge. simpl. lia. }
  rewrite E1. cbn [mbind res_bind].
  assert (E2 : chars "CMP(" ++ col1 ++ ","%char :: col2 ++ [")"%char] = (chars "CMP(" ++ col1 ++ [","%char]) ++ col2 ++ [")"%char])
    by (by rewrite <- !app_assoc).
  rewrite E2. unfold substr. rewrite !length_app, !(proj2 (Z.ltb_ge _ _)) by (simpl; lia). cbn [mbind res_bind]. do 2 f_equal.
  rewrite drop_app_length' by (rewrite !length_app; simpl; lia). rewrite take_app_le by (simpl; lia). apply take_ge. simpl. lia.
Qed.

Lemma cmp_reveal_run `{E : Aby3} add_msb b qs : Forall (fun p => 0 <= p < 3) qs -> forall n a0 a1 a2, exists n',
  mrun3 add_msb n (cmp_reveal_loop 0 b qs a0) (cmp_reveal_loop 1 b qs a1) (cmp_reveal_loop 2 b qs a2) =
    Some (n', Trip (Ret (a0 ++ revealed 0 qs (sb_value b))) (Ret (a1 ++ revealed 1 qs (sb_value b))) (Ret (a2 ++ revealed 2 qs (sb_value b)))).
Proof.
  induction 1 as [|p qs Hp _ IH]; intros n a0 a1 a2; [exists n; unfold revealed; simpl; by rewrite !app_nil_r|].
  assert (Hb : forall p, bit_round p p p b b b = Some (sb_value b)).
  { intros k. unfold bit_round. by rewrite Z.eqb_refl, bool_decide_eq_true_2. }
  assert (p = 0 \/ p = 1 \/ p = 2) as [-> | [-> | ->]] by lia; unfold revealed; cbn [cmp_reveal_loop Z.eqb Pos.eqb mrun3 map concat app];
    rewrite Hb; cbn [mbind option_bind]; rewrite app_assoc; apply IH.
Qed.

Section Compare.
Context `{L : Aby3Laws} (add_msb : Z -> Z -> bool) (storage : str) (junk : bool * Z).
Context (info : list (str * Z)) (pname : Z -> str) (owner : list (str * Z)) (ps : list Z) (cols : gmap str (list Z)) (N : nat).
Hypothesis msb_law : forall x y, in_i64 x = true -> in_i64 y = true -> add_msb x y = bool_decide (wrap (x + y) < 0).
Hypothesis Hthree : three_parties info pname.
Hypothesis Hsetup : arith_setup pname owner ps.
Hypothesis HN : 0 < Z.of_nat N < 2 ^ 31.

Definition saved_bits (expr : str) (bits : list bool) (p : Z) (q : arith_party) : option (str * saved_table) :=
  if decide (p ∈ ps) then Some (CompletePath storage (ap_path q), Saved expr BOOL (d_of_bool <$> revealed p ps bits)) else None.

(** The matrix a party brings to the comparison of columns [c1] and [c2]. *)
Definition brings (o1 o2 : Z) (v1 v2 : list Z) (p : Z) : option i64Matrix :=
  if o1 =? p then Some (Mat 1 (length v1) v1) else if o2 =? p then Some (Mat 1 (length v2) v2) else None.

Lemma cmp_prefix p q c1 c2 o1 o2 v1 v2 : 0 <= p < 3 -> arith_ready pname owner ps cols N (cmp_text c1 c2) p q ->
  ","%char ∉ c1 -> (c1, o1) ∈ owner -> (c2, o2) ∈ owner -> cols !! c1 = Some v1 -> cols !! c2 = Some v2 ->
  exists x, arith_task storage junk info q = finish_arith x /\ ar_is_cmp x = true /\ cmp_matrix x = brings o1 o2 v1 v2 p /\
    ar_party_id x = p /\ ar_expr x = cmp_text c1 c2 /\ ar_parties x = ps /\ res_name x = CompletePath storage (ap_path q) /\
    final_val_double x = [] /\ final_val_int64 x = [] /\ cmp_res x = [].
Proof.
  intros Hp [Hname Hreq Htab] Hcomma H1 H2 Hv1 Hv2. assert (Hnd : NoDup owner.*1) by (by destruct Hsetup).
  assert (Hlen : (4 <= length (cmp_text c1 c2))%nat) by (unfold cmp_text; rewrite length_app; simpl; lia).
  unfold arith_task, new_ArithExecutor.
  destruct (loadParams_arith storage junk _ info pname owner _ ps _ p c1 c2 Hthree Hsetup Hreq Hlen) as (id & detail & Hload);
    [by apply cmp_operands_text|].
  assert (Hself : pc_party_id (new_PartyConfig (party_name (ap_task q)) info) = Some p) by (rewrite Hname; by apply three_parties_self).
  rewrite Hself. cbn [or_undef mbind res_bind mprog_mbind mprog_bind]. rewrite bool_decide_eq_true_2 in Hload by done.
  set (x0 := Arith _ _ _ _ _ _ _ _ _ _ _ _ _ _ _ _ _ _ _) in Hload.
  destruct (csv_loaded x0 (ap_table q) owner cols N p) as (int & Hcsv & _ & Hown); [done..|].
  exists (set_values (set_values x0 true ∅ int) true ∅ int).
  assert (Hdt : forall k o, (k, o) ∈ owner -> int_dtypes owner !! k = Some false).
  { intros k o Hk. destruct (proj2 (int_dtypes_Some owner k)) as [d Hd]; [apply list_elem_of_fmap; by exists (k, o)|].
    by rewrite Hd, (proj1 (int_dtypes_lookup _ _ _ Hd)). }
  split.
  - unfold ExecuteImpl. cbn [arithmetic loadParams loadDataset initPartyComm InitEngine]. rewrite Hload.
    cbn [mbind mprog_mbind mprog_bind]. rewrite Z.eqb_refl. cbn [negb]. unfold arith_loadDataset. rewrite Hcsv. cbn [mbind res_bind].
    rewrite (proj2 (Z.leb_gt _ 0)) by lia. unfold cmp_dataset.
    cbn [x0 ar_is_cmp set_values col_and_dtype cmp_col1 cmp_col2 col_and_val_double col_and_val_int].
    rewrite (Hdt c1 o1), (Hdt c2 o2) by done. reflexivity.
  - split; [done|]. split; [|done]. unfold cmp_matrix, cmp_input, brings.
    cbn [x0 set_values col_and_owner ar_i64_cmp col_and_val_int cmp_col1 cmp_col2 ar_party_id].
    rewrite (owner_map_in owner c1 o1), (owner_map_in owner c2 o2) by done. cbn [default from_option Datatypes.id].
    destruct (Z.eqb_spec o1 p) as [->|]; [destruct (Hown c1 H1) as (v & -> & Hv); rewrite Hv in Hv1; by injection Hv1 as ->|].
    destruct (Z.eqb_spec o2 p) as [->|]; [destruct (Hown c2 H2) as (v & -> & Hv); rewrite Hv in Hv2; by injection Hv2 as ->|done].
Qed.

Lemma brings_place o1 o2 v1 v2 : 0 <= o1 < 3 -> 0 <= o2 < 3 -> o1 <> o2 ->
  let lo := if o1 <? o2 then v1 else v2 in let hi := if o1 <? o2 then v2 else v1 in
  Trip (brings o1 o2 v1 v2 0) (brings o1 o2 v1 v2 1) (brings o1 o2 v1 v2 2) =
    place (3 - o1 - o2) (Mat 1 (length lo) lo) (Mat 1 (length hi) hi).
Proof.
  intros H1 H2 Hne. assert (o1 = 0 \/ o1 = 1 \/ o1 = 2) as [-> | [-> | ->]] by lia;
    assert (o2 = 0 \/ o2 = 1 \/ o2 = 2) as [-> | [-> | ->]] by lia; try done.
Qed.

(** a comparison task [CMP(c1,c2)] over integer columns of two different owners is
    correct end to end, with one reservation: the three tasks reach [SUCCESS] and
    each party revealed to saves, row by row, whether the value of the owner with
    the LOWER party number is smaller than the other's, which is "c1 < c2" only
    when the owner of [c1] has the lower number. *)
Theorem arithmetic_cmp_correct (q : trip arith_party) c1 c2 o1 o2 v1 v2 :
  ","%char ∉ c1 -> (c1, o1) ∈ owner -> (c2, o2) ∈ owner -> o1 <> o2 ->
  cols !! c1 = Some v1 -> cols !! c2 = Some v2 -> length v1 = N -> length v2 = N ->
  Forall (fun x => in_i64 x = true) v1 -> Forall (fun x => in_i64 x = true) v2 ->
  arith_ready pname owner ps cols N (cmp_text c1 c2) 0 (at0 q) -> arith_ready pname owner ps cols N (cmp_text c1 c2) 1 (at1 q) ->
  arith_ready pname owner ps cols N (cmp_text c1 c2) 2 (at2 q) ->
  let lo := if o1 <? o2 then v1 else v2 in let hi := if o1 <? o2 then v2 else v1 in
  Forall2 (fun x y => in_i64 (x - y) = true) lo hi ->
  let bits := zip_with (fun x y => bool_decide (x < y)) lo hi in
  exists n', mrun3 add_msb 0 (arith_task storage junk info (at0 q)) (arith_task storage junk info (at1 q)) (arith_task storage junk info (at2 q)) =
    Some (n', Trip (Ret (SUCCESS, saved_bits (cmp_text c1 c2) bits 0 (at0 q))) (Ret (SUCCESS, saved_bits (cmp_text c1 c2) bits 1 (at1 q)))
                   (Ret (SUCCESS, saved_bits (cmp_text c1 c2) bits 2 (at2 q)))).
Proof.
  intros Hcomma H1 H2 Hne Hv1 Hv2 Hl1 Hl2 Hr1 Hr2 R0 R1 R2 lo hi Hdiff bits.
  assert (Ho : 0 <= o1 < 3 /\ 0 <= o2 < 3).
  { destruct Hsetup as [_ _ _ _ Ho _ _]. rewrite Forall_forall in Ho. split; [exact (Ho _ H1)|exact (Ho _ H2)]. }
  destruct Ho as [Ho1 Ho2].
  destruct (cmp_prefix 0 (at0 q) c1 c2 o1 o2 v1 v2) as (x0 & -> & C0 & M0 & P0 & E0 & S0 & N0 & D0 & I0 & B0); try done.
  destruct (cmp_prefix 1 (at1 q) c1 c2 o1 o2 v1 v2) as (x1 & -> & C1 & M1 & P1 & E1 & S1 & N1 & D1 & I1 & B1); try done.
  destruct (cmp_prefix 2 (at2 q) c1 c2 o1 o2 v1 v2) as (x2 & -> & C2 & M2 & P2 & E2 & S2 & N2 & D2 & I2 & B2); try done.
  assert (Hll : length lo = N /\ length hi = N) by (unfold lo, hi; destruct (o1 <? o2); done). destruct Hll as [Hlo Hhi].
  assert (Hcmp : mrun3 add_msb 0 (mcompare (cmp_matrix x0)) (mcompare (cmp_matrix x1)) (mcompare (cmp_matrix x2)) =
    Some (1%nat, trip_map (fun o => Ret (bits, as_column <$> o)) (place (3 - o1 - o2) (Mat 1 (length lo) lo) (Mat 1 (length hi) hi)))).
  { rewrite M0, M1, M2. assert (Hb := brings_place o1 o2 v1 v2 Ho1 Ho2 Hne). cbn zeta in Hb. fold lo hi in Hb.
    rewrite (f_equal at0 Hb : brings o1 o2 v1 v2 0 = _), (f_equal at1 Hb : brings o1 o2 v1 v2 1 = _), (f_equal at2 Hb : brings o1 o2 v1 v2 2 = _).
    apply (mrun3_compare add_msb msb_law); try done; [lia|unfold mat_ok; simpl; lia..|split; simpl; lia|by left|simpl; lia| |].
    all: unfold lo, hi; destruct (o1 <? o2); done. }
  destruct (cmp_reveal_run add_msb (Sb bits) ps ltac:(by destruct Hsetup) 1%nat [] [] []) as [n' Hopen]. exists n'.
  set (y x p := set_results x (mpc_exec x) [] [] ([] ++ revealed p ps bits)).
  assert (Hexec : mrun3 add_msb 0 (arith_execute x0) (arith_execute x1) (arith_execute x2) =
    Some (n', Trip (Ret (0, y x0 0)) (Ret (0, y x1 1)) (Ret (0, y x2 2)))).
  { unfold arith_execute. rewrite C0, C1, C2. unfold trip_map in Hcmp. destruct (place _ _ _) as [q0 q1 q2].
    etransitivity; [exact (mrun3_bind add_msb 0 _ _ _ 1%nat _ _ _ _ _ _ Hcmp)|].
    rewrite P0, P1, P2, S0, S1, S2, B0, B1, B2, D0, D1, D2, I0, I1, I2. exact (mrun3_bind add_msb 1 _ _ _ n' _ _ _ _ _ _ Hopen). }
  etransitivity; [exact (mrun3_bind add_msb 0 _ _ _ n' _ _ _ _ _ _ Hexec)|]. cbn [negb Z.eqb].
  assert (Hsave : forall x p qq, ar_party_id x = p -> ar_expr x = cmp_text c1 c2 -> ar_parties x = ps ->
    res_name x = CompletePath storage (ap_path qq) -> arith_saveModel 0 (y x p) = (0, saved_bits (cmp_text c1 c2) bits p qq)).
  { intros x p qq <- He Hs Hres. unfold arith_saveModel, saved_bits, y. cbn [set_results ar_party_id ar_parties res_name]. rewrite Hs, Hres.
    case_decide; [rewrite bool_decide_eq_true_2 by done|by rewrite bool_decide_eq_false_2]. cbn [negb].
    unfold result_table. cbn [set_results final_val_double final_val_int64 ar_expr cmp_res]. by rewrite He. }
  rewrite (Hsave x0 0 (at0 q)), (Hsave x1 1 (at1 q)), (Hsave x2 2 (at2 q)) by done. reflexivity.
Qed.
End Compare.

(** ** Concrete requests *)

Definition sample_pname (p : Z) : str := if p =? 0 then chars "Alice" else if p =? 1 then chars "Bob" else chars "Carol".
Definition sample_info : list (str * Z) := [(chars "Carol", 2); (chars "Alice", 0); (chars "Bob", 1)].
Definition sample_owner : list (str * Z) := [(chars "A", 0); (chars "B", 1); (chars "C", 2)].
Definition sample_cols : gmap str (list Z) := list_to_map [(chars "A", [3; -2]); (chars "B", [5; 7]); (chars "C", [1; 4])].

Definition arith_sample (p : Z) (expr : str) (name : str) (v : list Z) : arith_party := AP
  {| party_name := sample_pname p; party_access_info := []; auxiliary_server := {[PROXY_NODE := default_node]};
     params := list_to_map [(chars "Col_And_Owner", PV (value_string (chars "A-Alice;B-Bob;C-Carol")) false);
       (chars "Col_And_Dtype", PV (value_string (chars "A-0;B-0;C-0")) false); (chars "Expr", PV (value_string expr) false);
       (chars "RevealToParties", PV (value_string (chars "Bob;Carol")) false); (chars "ResFileName", PV (value_string (chars "out.csv")) false)];
     party_datasets := {[sample_pname p := DS {[chars "Data_File" := chars "ds"]} false]} |}
  [(name, SCol INT64 [Ints v])] (chars "out.csv").

Definition sample_parties3 (expr : str) : trip arith_party :=
  Trip (arith_sample 0 expr (chars "A") [3; -2]) (arith_sample 1 expr (chars "B") [5; 7]) (arith_sample 2 expr (chars "C") [1; 4]).

Definition sample_product : exp := EAdd (ETrm (TMul (TFac (FAtom "A")) "*" (FAtom "B"))) "-" (TFac (FAtom "C")).

Lemma sample_three : three_parties sample_info sample_pname.
Proof.
  split; [apply (bool_decide_unpack _); vm_compute; exact I|]. unfold sample_info. simpl.
  apply (Permutation_cons_app [_; _] []). reflexivity.
Qed.

Lemma sample_setup : arith_setup sample_pname sample_owner [1; 2].
Proof.
  split; try done; try (apply (bool_decide_unpack _); vm_compute; exact I).
  intros o Ho. assert (o = 0 \/ o = 1 \/ o = 2) as [-> | [-> | ->]] by lia; apply (bool_decide_unpack _); vm_compute; exact I.
Qed.

Lemma sample_arith_ready expr p name v : 0 <= p < 3 -> (name, p) ∈ sample_owner -> sample_cols !! name = Some v -> length v = 2%nat -> expr <> [] ->
  Forall (fun x => sx 64 x = x) v ->
  arith_ready sample_pname sample_owner [1; 2] sample_cols 2 expr p (arith_sample p expr name v).
Proof.
  intros Hp Hin Hcol Hlen Hex Hsx. assert (Hmap : sx 64 <$> v = v).
  { clear Hcol Hlen. induction Hsx as [|x v Hx _ IH]; [done|]. rewrite fmap_cons, IH, Hx. done. }
  assert (Hv : int_values (SCol INT64 [Ints v]) = Ret v).
  { unfold int_values. simpl. rewrite Hmap. simpl. by rewrite app_nil_r. }
  split; [done| |].
  - split; try reflexivity. cbn [party_name arith_sample ap_task]. unfold find_dataset. cbn [arith_sample ap_task auxiliary_server party_datasets].
    rewrite lookup_singleton_eq. rewrite lookup_singleton_eq. cbn. by eexists.
  - split; cbn [arith_sample ap_table].
    + apply NoDup_singleton.
    + eexists _, _. split; [reflexivity|]. cbn. rewrite Hlen. reflexivity.
    + intros n c [= -> ->]%list_elem_of_singleton _. split; [done|]. split; [cbn; by rewrite Hlen|]. eauto.
    + intros n Hn. assert (n = name) as ->.
      { assert (Hnd := as_nodup _ _ _ sample_setup). unfold sample_owner in *. clear -Hn Hin Hp.
        rewrite !elem_of_cons, elem_of_nil in Hn, Hin. naive_solver. }
      exists (SCol INT64 [Ints v]), v. split; [by apply list_elem_of_singleton|]. done.
Qed.

Lemma sample_product_ok : exp_ok sample_product.
Proof.
  unfold sample_product, atom_ok, mul_op, add_op. simpl.
  split_and!; try (by left); try (by right); try done; repeat constructor; vm_compute; congruence.
Qed.

Ltac prove_ready := apply sample_arith_ready;
  [lia|apply (bool_decide_unpack _); vm_compute; exact I|reflexivity|reflexivity|discriminate|repeat constructor].

Lemma arithmetic_task_correct_witness : exists v n', length v = 2%nat /\
  mrun3 (fun x y => bool_decide (wrap (x + y) < 0)) 0
    (arith_task [] (true, 7) sample_info (at0 (sample_parties3 (print_exp sample_product))))
    (arith_task [] (true, 7) sample_info (at1 (sample_parties3 (print_exp sample_product))))
    (arith_task [] (true, 7) sample_info (at2 (sample_parties3 (print_exp sample_product)))) =
  Some (n', Trip (Ret (SUCCESS, None))
    (Ret (SUCCESS, Some (chars "out.csv", Saved (chars "A*B-C") INT64 (d_of_int <$> revealed 1 [1; 2] v))))
    (Ret (SUCCESS, Some (chars "out.csv", Saved (chars "A*B-C") INT64 (d_of_int <$> revealed 2 [1; 2] v))))).
Proof.
  edestruct (arithmetic_task_correct (fun x y => bool_decide (wrap (x + y) < 0)) [] (true, 7) sample_info sample_pname sample_owner [1; 2]
    sample_cols 2 sample_three sample_setup ltac:(lia) sample_product "-" (ExprLocal.Node "*" (Leaf "A") (Leaf "B")) (Leaf "C")
    (sample_parties3 (print_exp sample_product))) as (v & n' & H1 & _ & H2).
  - exact sample_product_ok.
  - reflexivity.
  - reflexivity.
  - repeat constructor; apply (bool_decide_unpack _); vm_compute; exact I.
  - simpl. lia.
  - vm_compute. discriminate.
  - intros p Hp. assert (p = 0 \/ p = 1 \/ p = 2) as [-> | [-> | ->]] by lia;
      [exists (chars "A")|exists (chars "B")|exists (chars "C")]; apply (bool_decide_unpack _); vm_compute; exact I.
  - prove_ready.
  - prove_ready.
  - prove_ready.
  - apply (bool_decide_unpack _). vm_compute. exact I.
  - exists v, n'. exact (conj H1 H2).
Defined.

Lemma arithmetic_cmp_correct_witness : exists n',
  mrun3 (fun x y => bool_decide (wrap (x + y) < 0)) 0
    (arith_task [] (true, 7) sample_info (at0 (sample_parties3 (chars "CMP(B,A)"))))
    (arith_task [] (true, 7) sample_info (at1 (sample_parties3 (chars "CMP(B,A)"))))
    (arith_task [] (true, 7) sample_info (at2 (sample_parties3 (chars "CMP(B,A)")))) =
  Some (n', Trip (Ret (SUCCESS, None))
    (Ret (SUCCESS, Some (chars "out.csv", Saved (chars "CMP(B,A)") BOOL (d_of_bool <$> [true; true]))))
    (Ret (SUCCESS, Some (chars "out.csv", Saved (chars "CMP(B,A)") BOOL (d_of_bool <$> [true; true]))))).
Proof.
  refine (arithmetic_cmp_correct (fun x y => bool_decide (wrap (x + y) < 0)) [] (true, 7) sample_info sample_pname sample_owner [1; 2]
    sample_cols 2 _ sample_three sample_setup _ (sample_parties3 (chars "CMP(B,A)")) (chars "B") (chars "A") 1 0 [5; 7] [3; -2]
    _ _ _ _ _ _ _ _ _ _ _ _ _ _).
  - reflexivity.
  - lia.
  - apply (bool_decide_unpack _). vm_compute. exact I.
  - apply (bool_decide_unpack _). vm_compute. exact I.
  - apply (bool_decide_unpack _). vm_compute. exact I.
  - discriminate.
  - reflexivity.
  - reflexivity.
  - reflexivity.
  - reflexivity.
  - repeat constructor.
  - repeat constructor.
  - prove_ready.
  - prove_ready.
  - prove_ready.
  - repeat constructor.
Defined.

(** ** Requests that go wrong *)

(** The operands of a comparison are cut out of every expression, so an expression
    of three characters is refused. *)
Example short_expression_refused :
  exists x, arith_loadParams [] (true, 7) (ap_task (at0 (sample_parties3 (chars "A+B")))) (fresh_ArithExecutor (new_PartyConfig (chars "Alice") sample_info) 0) =
    Ret (-1, x).
Proof. eexists. vm_compute. reflexivity. Qed.

(** A party that owns an integer column and a column of doubles hands over the
    doubles only. *)
Example integers_beside_doubles_dropped :
  let x := Arith (new_PartyConfig (chars "Alice") sample_info) 0 [] false (chars "A+D*A") false true [] []
    (list_to_map [(chars "A", 0); (chars "D", 0)]) (list_to_map [(chars "A", false); (chars "D", true)]) [0] [] ∅ ∅
    (Some (new_executor true 7)) [] [] [] in
  let table := [(chars "A", SCol INT64 [Ints [3]]); (chars "D", SCol DOUBLE [Fp64s [d_of_int 2]])] in
  match arith_loadDataset (Some table) x with
  | Ret (r, x) => (r, (fun f => (fp64_col_ f !! chars "D", fp64_col_ f !! chars "A", int64_col_ f !! chars "A")) <$> (mpc_exec x ≫= feed_dict_))
  | _ => (-2, None)
  end = (0, Some (Some [d_of_int 2], None, None)).
Proof. vm_compute. reflexivity. Qed.

(** An integer result goes through a double on its way to the file. *)
Example integer_result_rounded x : final_val_double x = [] -> final_val_int64 x = [2 ^ 53 + 1] ->
  st_type (result_table x) = INT64 /\ st_values (result_table x) = [d_of_int (2 ^ 53)].
Proof. intros H1 H2. unfold result_table. rewrite H1, H2. split; [reflexivity|]. vm_compute. reflexivity. Qed.
