(* ===== verification/Logistic.v ===== *)
(** * The logistic regression task

    Models [LogisticRegressionExecutor] of [algorithm/logistic.{h,cc}]: reading the
    request, loading the party's table and splitting it chunk by chunk into
    training and test rows with a column of ones in front, sharing and stacking the
    rows of the three parties, training with [Regression] on the engine of
    [Aby3ML], and saving the model.  The executor stands behind the interface
    [Algorithm] of [MpcTask]. *)

From Stdlib Require Import Ascii String ZArith Lia SpecFloat Permutation.
From stdpp Require Import base tactics list option gmap strings.
From S2P Require Import Prelude ModArith Machine Doubles StrUtil Common Aby3Op PartyProg Regression Aby3ML ExprConfig ExprMpc MpcCompare MpcProg.
From S2P Require Import PsiData Psi PsiTask Statistics MpcStatistics MpcTask Arithmetic.

Local Open Scope Z_scope.

(** ** The executor *)

(** [eMatrix<double>], its cells row by row. *)
Record dMatrix : Type := DMat { dm_rows : nat; dm_cols : nat; dm_cells : list double }.

Record LRExecutor : Type := LR {
  lr_local_id : Z;
  lr_model_name : str;
  lr_model_file_name : str;
  lr_train_path : str;
  lr_dataset_id : str;
  lr_detail : bool;
  lr_exclude : list str;
  lr_batch_size : Z;
  lr_num_iter : Z;
  lr_train_input : dMatrix;
  lr_test_input : dMatrix;
  lr_model : list double
}.

Definition new_LRExecutor (job_id task_id : str) (local_id : Z) : LRExecutor :=
  LR local_id (job_id ++ chars "_" ++ task_id ++ chars "_party_" ++ uint_to_string local_id ++ chars "_lr") [] [] [] false [] 0 0
    (DMat 0 0 []) (DMat 0 0 []) [].

(** ** Parameters *)

(** [ParseExcludeColumns] appends. *)
Definition ParseExcludeColumns (task : Task) (old : list str) : list str :=
  match params task !! chars "ColumnsExclude" with Some p => old ++ get_string_array p | None => old end.

Definition int32_param (task : Task) (key : string) : Z := match params task !! chars key with Some p => get_int32 p | None => 0 end.

Definition lr_loadParams (storage : str) (task : Task) (x : LRExecutor) : res (Z * LRExecutor) :=
  match find_dataset (party_name task) task with
  | None => Ret (-1, x)
  | Some (path, id, detail) =>
      let file := string_param task "modelName" in
      let file := if decide (file = []) then chars "./" ++ lr_model_name x ++ chars ".csv" else file in
      Ret (0, LR (lr_local_id x) (lr_model_name x) (CompletePath storage file) path id (detail || lr_detail x)
                (ParseExcludeColumns task (lr_exclude x)) (int32_param task "BatchSize") (int32_param task "NumIters")
                (lr_train_input x) (lr_test_input x) (lr_model x))
  end.

(** ** The party's table *)

(** [GetFieldIndex]: no field, or several of that name, give -1 (here [None]). *)
Definition GetFieldIndex (schema : list (str * arrow_type)) (name : str) : option nat :=
  match filter (fun i => (fst <$> schema !! i) = Some name) (seq 0 (length schema)) with [i] => Some i | _ => None end.

Definition remove_columns (schema : list (str * arrow_type)) (exclude : list str) : list (str * arrow_type) :=
  fold_left (fun s name => match GetFieldIndex s name with Some i => take i s ++ drop (S i) s | None => s end) exclude schema.

(** [floor(len * 0.8)]. *)
Definition d_08 : double := d_of_decimal false 8 1.
Definition train_rows (len : Z) : res Z := to_u64 (dmul (d_of_int len) d_08).

(** [FillTrainAndTestData] of one chunk through the array class the column type
    selects: the first [n] values go to the training data, the others to the test
    data.  A failed cast raises; reading beyond the chunk is undefined. *)
Definition chunk_values (t : arrow_type) (a : array) : res (list double) :=
  if decide (t = INT64) then match a with Ints l => Ret (d_of_int <$> (sx 64 <$> l)) | _ => Throw end
  else if decide (t = INT32) then match a with Ints l => Ret (d_of_int <$> (sx 32 <$> l)) | _ => Throw end
  else if decide (t = DOUBLE) then match a with Fp64s l => Ret l | _ => Throw end
  else Throw.

Definition fill_chunk (t : arrow_type) (a : array) (n : Z) : res (list double * list double) :=
  l ← chunk_values t a;
  if Z.of_nat (length l) <? n then Undef else Ret (take (Z.to_nat n) l, drop (Z.to_nat n) l).

(** The chunks of a column with the split of the label column's chunks; a chunk
    more than those is read out of range. *)
Fixpoint fill_column (t : arrow_type) (l : list array) (split : list Z) : res (list double * list double) :=
  match l, split with
  | [], _ => Ret ([], [])
  | _ :: _, [] => Undef
  | a :: l, n :: split =>
      '(tr, te) ← fill_chunk t a n; '(trs, tes) ← fill_column t l split; Ret (tr ++ trs, te ++ tes)
  end.

(** All columns; the type is looked up by name, and a column whose chunks split
    differently writes out of range or leaves cells unset. *)
Fixpoint fill_columns (whole : stable) (split : list Z) (train_length : nat) (cols : stable) : res (list (list double) * list (list double)) :=
  match cols with
  | [] => Ret ([], [])
  | (name, c) :: cols =>
      field ← or_undef (GetColumnByName whole name);
      '(tr, te) ← fill_column (field_type field) (schunks c) split;
      if negb (bool_decide (length tr = train_length)) then Undef
      else '(trs, tes) ← fill_columns whole split train_length cols; Ret (tr :: trs, te :: tes)
  end.

(** The matrix with the given columns. *)
Definition of_columns (n : nat) (l : list (list double)) : dMatrix :=
  DMat n (length l) (concat ((fun i => (fun c => nth i c d_zero) <$> l) <$> seq 0 n)).

(** [_LoadDataset]: [driver] is the schema of the data set and what its cursor
    reads with another one. *)
Definition lr_LoadDataset (driver : option (list (str * arrow_type) * (list (str * arrow_type) -> option stable))) (x : LRExecutor)
  : res (Z * LRExecutor) :=
  match driver with
  | None => Ret (-1, x)
  | Some (schema, read) =>
      match read (remove_columns schema (lr_exclude x)) with
      | None => Ret (-1, x)
      | Some table =>
          label ← or_undef (last table);
          split ← mapM (fun a => train_rows (array_length a)) (schunks label.2);
          let array_len := col_length label.2 in
          if negb (forallb (fun c => col_length c.2 =? array_len) table) then Throw
          else
            let train_length := Z.to_nat (fold_left (fun a n => to_int32 (a + n)) split 0) in
            '(trs, tes) ← fill_columns table split train_length table;
            let test_length := (Z.to_nat array_len - train_length)%nat in
            let one := d_of_int 1 in
            Ret (to_int32 array_len,
                 LR (lr_local_id x) (lr_model_name x) (lr_model_file_name x) (lr_train_path x) (lr_dataset_id x) (lr_detail x) (lr_exclude x)
                   (lr_batch_size x) (lr_num_iter x) (of_columns train_length (replicate train_length one :: trs))
                   (of_columns test_length (replicate test_length one :: tes)) (lr_model x))
      end
  end.

Definition lr_loadDataset (driver : option (list (str * arrow_type) * (list (str * arrow_type) -> option stable))) (x : LRExecutor)
  : res (Z * LRExecutor) :=
  '(ret, x') ← lr_LoadDataset driver x;
  if ret <=? 0 then Ret (-1, x)
  else if negb (bool_decide (dm_cols (lr_train_input x') = dm_cols (lr_test_input x'))) then Throw
  else Ret (0, x').

(** ** Shares of the joint data *)

Definition m_vstack (a b : i64Matrix) : i64Matrix := Mat (rows a + rows b) (cols a) (cells a ++ cells b).
(** All columns but the last, and the last. *)
Definition m_data (m : i64Matrix) : i64Matrix :=
  reindex (rows m) (cols m - 1) (grid (fun i j => i * cols m + j)%nat (seq 0 (rows m)) (cols m - 1)) m.
Definition m_label (m : i64Matrix) : i64Matrix :=
  reindex (rows m) 1 (grid (fun i _ => i * cols m + (cols m - 1))%nat (seq 0 (rows m)) 1) m.

Definition s_vstack (a b : si64Matrix) : si64Matrix := Sh (m_vstack (sh0 a) (sh0 b)) (m_vstack (sh1 a) (sh1 b)).

Section Execute.
Context `{E : Aby3} `{G : Prng} (log2 : double -> double).

Definition fixed_of (m : dMatrix) : i64Matrix := Mat (dm_rows m) (dm_cols m) (to_fixed <$> dm_cells m).

(** The three inputs of one kind, their shape checks and the stacked shares. *)
Definition input_all (me : Z) (m : i64Matrix) : prog (si64Matrix * si64Matrix * si64Matrix) :=
  s0 ← input me 0 m; s1 ← input me 1 m; s2 ← input me 2 m; mret (s0, s1, s2).

Definition stack3 (s : si64Matrix * si64Matrix * si64Matrix) : si64Matrix := s_vstack (s_vstack s.1.1 s.1.2) s.2.

(** [_ConstructShares]: the model, training data, training labels, test data, test
    labels. *)
Definition ConstructShares (x : LRExecutor) : prog (si64Matrix * (si64Matrix * si64Matrix) * (si64Matrix * si64Matrix)) :=
  let me := lr_local_id x in
  train ← input_all me (fixed_of (lr_train_input x));
  let '(t0, t1, t2) := train in
  if negb (bool_decide (sh_cols t0 = sh_cols t1)) || negb (bool_decide (sh_cols t1 = sh_cols t2)) then Done Throw else
  test ← input_all me (fixed_of (lr_test_input x));
  let '(u0, u1, u2) := test in
  if negb (bool_decide (sh_cols u0 = sh_cols u1)) || negb (bool_decide (sh_cols u1 = sh_cols t0)) || negb (bool_decide (sh_cols u1 = sh_cols u2))
  then Done Throw else
  let d := (sh_cols t0 - 1)%nat in
  w ← input me 0 (Mat d 1 (replicate d (to_fixed d_zero)));
  mret (w, (both m_data (stack3 train), both m_label (stack3 train)), (both m_data (stack3 test), both m_label (stack3 test))).

(** [1.0 / (1 << 7)]. *)
Definition learning_rate : double := ddiv (d_of_int 1) (d_of_int (Z.shiftl 1 7)).

(** [logistic_main]: the log line divides the number of rows by the batch size. *)
Definition logistic_main (train test : si64Matrix * si64Matrix) (w : si64Matrix) (B IT : Z) : prog (list double) :=
  if B =? 0 then Done Undef
  else
    w ← SGD_Logistic log2 (Params (IT mod W64) (B mod W64) learning_rate) train.1 train.2 w (Some test);
    e_reveal w.

Definition set_model (x : LRExecutor) (m : list double) : LRExecutor :=
  LR (lr_local_id x) (lr_model_name x) (lr_model_file_name x) (lr_train_path x) (lr_dataset_id x) (lr_detail x) (lr_exclude x)
    (lr_batch_size x) (lr_num_iter x) (lr_train_input x) (lr_test_input x) m.

Definition lr_execute (x : LRExecutor) : prog (Z * LRExecutor) :=
  '(w, train, test) ← ConstructShares x;
  m ← logistic_main train test w (lr_batch_size x) (lr_num_iter x);
  mret (0, set_model x m).

(** ** Saving *)

(** The directories of the path that are created, in order: every prefix that ends
    before a slash, except an empty component. *)
Fixpoint parent_dirs (prefix : str) (empty : bool) (rest : str) : list str :=
  match rest with
  | [] => []
  | c :: rest =>
      if decide (c = "/"%char) then
        (if empty then [] else [prefix]) ++ parent_dirs (prefix ++ [c]) true rest
      else parent_dirs (prefix ++ [c]) false rest
  end.

(** [mkdir] answers whether the directory is there afterwards, [write_ret] is the
    outcome of writing; the saved table has one column [w] and is registered under
    the model's name. *)
Definition lr_saveModel (mkdir : str -> bool) (write_ret : Z) (x : LRExecutor) : Z * option (str * str * list double) :=
  if negb (forallb mkdir (parent_dirs [] true (lr_model_file_name x))) then (-1, None)
  else if negb (write_ret =? 0) then (-1, None)
  else (0, Some (lr_model_name x, lr_model_file_name x, lr_model x)).

(** The executor behind the interface of the MPC task; it does not override
    [execute] on given numbers. *)
Definition logistic_regression (storage : str) (task : Task) (link : bool)
    (driver : option (list (str * arrow_type) * (list (str * arrow_type) -> option stable))) (mkdir : str -> bool) (write_ret : Z)
  : Algorithm LRExecutor (str * str * list double) := {|
  InitTaskConfig _ x := x;
  loadParams x := lr_loadParams storage task x;
  loadDataset x := lr_loadDataset driver x;
  initPartyComm x := Ret (if link then 0 else -1, x);
  InitEngine x := Ret (SUCCESS, x);
  execute x := lift (lr_execute x);
  execute_data _ result x := mret (FAIL, result, x);
  finishPartyComm x := mret x;
  saveModel x := Ret (lr_saveModel mkdir write_ret x)
|}.
End Execute.
