(* ===== verification/LogisticProps.v ===== *)
(** * The logistic regression task, end to end

    Loading gives matrices of the right shape, stacking and cutting commute with
    sharing, and three tasks end with the same model, one that the relation of
    [Aby3ML] allows for the joint data. *)

From Stdlib Require Import Ascii String ZArith Lia SpecFloat Permutation.
From stdpp Require Import base tactics list option gmap strings.
From S2P Require Import Prelude ModArith Machine Doubles StrUtil Common Aby3Op PartyProg Regression Aby3ML ExprConfig ExprMpc MpcCompare MpcProg.
From S2P Require Import PsiData Psi PsiTask Statistics MpcStatistics MpcTask Arithmetic ArithProps Logistic.

Local Open Scope Z_scope.

(** ** What loading gives *)

Definition dmat_ok (m : dMatrix) : Prop := length (dm_cells m) = (dm_rows m * dm_cols m)%nat.

Lemma of_columns_ok n l : dmat_ok (of_columns n l).
Proof.
  unfold dmat_ok, of_columns. cbn [dm_cells dm_rows dm_cols]. generalize 0%nat.
  induction n as [|n IH]; intros k; [done|]. cbn [seq fmap list_fmap concat]. rewrite length_app, length_fmap, IH. done.
Qed.

Lemma loaded driver x y : lr_loadDataset driver x = Ret (0, y) ->
  dmat_ok (lr_train_input y) /\ dmat_ok (lr_test_input y) /\ dm_cols (lr_train_input y) = dm_cols (lr_test_input y) /\
  (lr_local_id y, lr_model_name y, lr_model_file_name y, lr_batch_size y, lr_num_iter y) =
  (lr_local_id x, lr_model_name x, lr_model_file_name x, lr_batch_size x, lr_num_iter x).
Proof.
  unfold lr_loadDataset. destruct (lr_LoadDataset driver x) as [[ret x']| |] eqn:E1; [|done..]. cbn [mbind res_bind].
  destruct (ret <=? 0) eqn:Eret; [done|]. case_bool_decide as Hc; [|done]. cbn [negb]. intros [= <-].
  unfold lr_LoadDataset in E1. destruct driver as [[schema read]|]; [|by injection E1 as <- <-].
  destruct (read _) as [table|]; [|by injection E1 as <- <-]. apply res_bind_Ret in E1 as (label & _ & E1).
  apply res_bind_Ret in E1 as (split & _ & E1). destruct (negb _); [done|]. apply res_bind_Ret in E1 as ([trs tes] & _ & E1).
  injection E1 as _ <-. split; [apply of_columns_ok|]. split; [apply of_columns_ok|]. done.
Qed.

(** ** Stacking and cutting shares *)

Lemma open3_app x0 x1 x2 y0 y1 y2 n : length x0 = n -> length x1 = n -> length x2 = n ->
  open3 (x0 ++ y0) (x1 ++ y1) (x2 ++ y2) = open3 x0 x1 x2 ++ open3 y0 y1 y2.
Proof. intros. unfold open3. rewrite !zip_with_app; rewrite ?length_zip_with; [done|lia..]. Qed.

Definition s_stack (A B : trip si64Matrix) : trip si64Matrix :=
  Trip (s_vstack (at0 A) (at0 B)) (s_vstack (at1 A) (at1 B)) (s_vstack (at2 A) (at2 B)).

Lemma stack_mat r r' c A a B b : holds_mat r c A a -> holds_mat r' c B b -> holds_mat (r + r') c (s_stack A B) (m_vstack a b).
Proof.
  intros (HA & <- & <-) (HB & <- & Hc). split; [|done].
  destruct (shares_inv _ _ HA) as (r1 & c1 & x0 & x1 & x2 & -> & -> & ? & ? & ?).
  destruct (shares_inv _ _ HB) as (r2 & c2 & y0 & y1 & y2 & -> & -> & ? & ? & ?). cbn [cols] in Hc. subst c2.
  unfold m_vstack. cbn [rows cols cells]. rewrite <- (open3_app x0 x1 x2 y0 y1 y2 (r1 * c1)) by done.
  apply (shares_rep (r1 + r2) c1 (x0 ++ y0)); rewrite length_app; lia.
Qed.

(** A cut of the same cells of every share. *)
Lemma cut_mat (f : i64Matrix -> i64Matrix) r c r' c' idx A a : holds_mat r c A a ->
  (forall m, rows m = r -> cols m = c -> f m = reindex r' c' idx m) -> length idx = (r' * c')%nat -> Forall (fun i => (i < r * c)%nat) idx ->
  holds_mat r' c' (trip_map (both f) A) (f a).
Proof.
  intros H Hf Hl HF. assert (Hs := shape_of_party _ _ _ _ H). assert (Hc := holds_mat_cells _ _ _ _ H). destruct H as (HA & Ra & Ca).
  destruct Hs as ((R0 & C0) & (R1 & C1) & (R2 & C2) & (R3 & C3) & (R4 & C4) & (R5 & C5)).
  unfold holds_mat. rewrite (Hf a) by done. split; [|done]. rewrite <- Hc in HF.
  assert (Hr := shares_reindex r' c' idx A a HA Hl HF). unfold trip_map, both in *. by rewrite !Hf.
Qed.

Lemma data_mat r c A a : holds_mat r c A a -> holds_mat r (c - 1) (trip_map (both m_data) A) (m_data a).
Proof.
  intros H. apply (cut_mat _ r c r (c - 1) (grid (fun i j => i * c + j)%nat (seq 0 r) (c - 1))); [done| | |].
  - intros m <- <-. done.
  - by rewrite grid_length, length_seq.
  - apply grid_bound. intros i j Hi%elem_of_seq Hj. nia.
Qed.

Lemma label_mat r c A a : (0 < c)%nat -> holds_mat r c A a -> holds_mat r 1 (trip_map (both m_label) A) (m_label a).
Proof.
  intros Hc H. apply (cut_mat _ r c r 1 (grid (fun i _ => i * c + (c - 1))%nat (seq 0 r) 1)); [done| | |].
  - intros m <- <-. done.
  - by rewrite grid_length, length_seq.
  - apply grid_bound. intros i j Hi%elem_of_seq Hj. nia.
Qed.

(** ** Sharing and training *)

Section Run.
Context `{L : Aby3Laws} {ulp : Z} {F : FixedPointLaws E ulp}.
Context (few_bits : frac_bits <= 20).
Context `{G : Prng} `{!PrngLaws G} (log2 : double -> double).

Lemma fixed_of_ok m : dmat_ok m -> mat_ok (fixed_of m) /\ Forall (fun x => in_i64 x = true) (cells (fixed_of m)).
Proof using L.
  intros H. unfold mat_ok, fixed_of. cbn [rows cols cells]. rewrite length_fmap. split; [exact H|]. apply Forall_fmap.
  induction (dm_cells m) as [|d l IH]; constructor; [apply to_fixed_range|done].
Qed.

Definition tuple3 (S0 S1 S2 : trip si64Matrix) : trip (si64Matrix * si64Matrix * si64Matrix) :=
  Trip (at0 S0, at0 S1, at0 S2) (at1 S0, at1 S1, at1 S2) (at2 S0, at2 S1, at2 S2).

Lemma input_holds o (m : trip i64Matrix) (a : i64Matrix) : 0 <= o < 3 -> a = (if o =? 0 then at0 m else if o =? 1 then at1 m else at2 m) ->
  mat_ok a -> Forall (fun x => in_i64 x = true) (cells a) ->
  returns (Trip (input 0 o (at0 m)) (input 1 o (at1 m)) (input 2 o (at2 m))) (fun t => holds_mat (rows a) (cols a) t a).
Proof using L. intros Ho Ha Hok Hr. eapply returns_mono; [|exact (input_returns o m a Ho Ha Hok Hr)]. intros t Ht. done. Qed.

Lemma input_all_returns (m : trip dMatrix) c : dmat_ok (at0 m) -> dmat_ok (at1 m) -> dmat_ok (at2 m) ->
  dm_cols (at0 m) = c -> dm_cols (at1 m) = c -> dm_cols (at2 m) = c ->
  returns (Trip (input_all 0 (fixed_of (at0 m))) (input_all 1 (fixed_of (at1 m))) (input_all 2 (fixed_of (at2 m))))
    (fun t => exists S0 S1 S2, t = tuple3 S0 S1 S2 /\ holds_mat (dm_rows (at0 m)) c S0 (fixed_of (at0 m)) /\
       holds_mat (dm_rows (at1 m)) c S1 (fixed_of (at1 m)) /\ holds_mat (dm_rows (at2 m)) c S2 (fixed_of (at2 m))).
Proof using L.
  intros O0 O1 O2 C0 C1 C2. destruct (fixed_of_ok _ O0) as [M0 R0], (fixed_of_ok _ O1) as [M1 R1], (fixed_of_ok _ O2) as [M2 R2].
  set (f := trip_map fixed_of m).
  eapply (returns_bind (Trip (input 0 0 (at0 f)) (input 1 0 (at1 f)) (input 2 0 (at2 f))) (Trip _ _ _));
    [apply (input_holds 0 f _ ltac:(lia) eq_refl M0 R0)|]. intros S0 H0.
  eapply (returns_bind (Trip (input 0 1 (at0 f)) (input 1 1 (at1 f)) (input 2 1 (at2 f))) (Trip _ _ _));
    [apply (input_holds 1 f _ ltac:(lia) eq_refl M1 R1)|]. intros S1 H1.
  eapply (returns_bind (Trip (input 0 2 (at0 f)) (input 1 2 (at1 f)) (input 2 2 (at2 f))) (Trip _ _ _));
    [apply (input_holds 2 f _ ltac:(lia) eq_refl M2 R2)|]. intros S2 H2.
  apply (returns_done (tuple3 S0 S1 S2)). exists S0, S1, S2.
  split; [done|]. split; [rewrite <- C0; exact H0|]. split; [rewrite <- C1; exact H1|rewrite <- C2; exact H2].
Qed.

(** The joint data of the three parties, party after party. *)
Definition joint_data_of (m : trip dMatrix) : i64Matrix := m_vstack (m_vstack (fixed_of (at0 m)) (fixed_of (at1 m))) (fixed_of (at2 m)).
Definition joint_rows (m : trip dMatrix) : nat := (dm_rows (at0 m) + dm_rows (at1 m) + dm_rows (at2 m))%nat.

Definition stacked (S0 S1 S2 : trip si64Matrix) : trip si64Matrix := trip_map stack3 (tuple3 S0 S1 S2).

Lemma stacked_holds (m : trip dMatrix) c S0 S1 S2 : holds_mat (dm_rows (at0 m)) c S0 (fixed_of (at0 m)) ->
  holds_mat (dm_rows (at1 m)) c S1 (fixed_of (at1 m)) -> holds_mat (dm_rows (at2 m)) c S2 (fixed_of (at2 m)) ->
  holds_mat (joint_rows m) c (stacked S0 S1 S2) (joint_data_of m).
Proof. intros H0 H1 H2. exact (stack_mat _ _ _ _ _ _ _ (stack_mat _ _ _ _ _ _ _ H0 H1) H2). Qed.

(** The model every training starts from. *)
Definition zero_model (d : nat) : i64Matrix := Mat d 1 (replicate d (to_fixed d_zero)).

Lemma zero_model_ok d : mat_ok (zero_model d) /\ Forall (fun x => in_i64 x = true) (cells (zero_model d)).
Proof using L.
  unfold mat_ok, zero_model. cbn [rows cols cells]. rewrite length_replicate, Nat.mul_1_r. split; [done|].
  induction d; constructor; [apply to_fixed_range|done].
Qed.

(** What a training needs of the three executors. *)
Record lr_ready (d : nat) (x : trip LRExecutor) : Prop := {
  lq_id : lr_local_id (at0 x) = 0 /\ lr_local_id (at1 x) = 1 /\ lr_local_id (at2 x) = 2;
  lq_train : dmat_ok (lr_train_input (at0 x)) /\ dmat_ok (lr_train_input (at1 x)) /\ dmat_ok (lr_train_input (at2 x));
  lq_test : dmat_ok (lr_test_input (at0 x)) /\ dmat_ok (lr_test_input (at1 x)) /\ dmat_ok (lr_test_input (at2 x));
  lq_train_cols : dm_cols (lr_train_input (at0 x)) = S d /\ dm_cols (lr_train_input (at1 x)) = S d /\ dm_cols (lr_train_input (at2 x)) = S d;
  lq_test_cols : dm_cols (lr_test_input (at0 x)) = S d /\ dm_cols (lr_test_input (at1 x)) = S d /\ dm_cols (lr_test_input (at2 x)) = S d
}.

Definition train_of (x : trip LRExecutor) : i64Matrix := joint_data_of (trip_map lr_train_input x).
Definition test_of (x : trip LRExecutor) : i64Matrix := joint_data_of (trip_map lr_test_input x).

(** The five shares of a run. *)
Definition constructed (W T U : trip si64Matrix) : trip (si64Matrix * (si64Matrix * si64Matrix) * (si64Matrix * si64Matrix)) :=
  let party w t u := (w, (both m_data t, both m_label t), (both m_data u, both m_label u)) in
  Trip (party (at0 W) (at0 T) (at0 U)) (party (at1 W) (at1 T) (at1 U)) (party (at2 W) (at2 T) (at2 U)).

Lemma construct_returns d x : lr_ready d x ->
  returns (trip_map ConstructShares x)
    (fun t => exists W T U, t = constructed W T U /\ holds_mat d 1 W (zero_model d) /\
       holds_mat (joint_rows (trip_map lr_train_input x)) (S d) T (train_of x) /\
       holds_mat (joint_rows (trip_map lr_test_input x)) (S d) U (test_of x)).
Proof using L.
  intros [(I0 & I1 & I2) (A0 & A1 & A2) (B0 & B1 & B2) (C0 & C1 & C2) (D0 & D1 & D2)]. unfold trip_map, ConstructShares. rewrite I0, I1, I2.
  eapply (returns_bind (Trip _ _ _) (Trip _ _ _)); [exact (input_all_returns (trip_map lr_train_input x) _ A0 A1 A2 C0 C1 C2)|].
  intros ? (S0 & S1 & S2 & -> & H0 & H1 & H2). unfold app3, tuple3. cbn [at0 at1 at2].
  destruct (holds_mat_cols _ _ _ _ H0) as (a0 & a1 & a2 & _), (holds_mat_cols _ _ _ _ H1) as (b0 & b1 & b2 & _), (holds_mat_cols _ _ _ _ H2) as (c0 & c1 & c2 & _).
  rewrite !a0, !a1, !a2, !b0, !b1, !b2, !c0, !c1, !c2, !bool_decide_eq_true_2 by done. cbn [negb orb].
  eapply (returns_bind (Trip _ _ _) (Trip _ _ _)); [exact (input_all_returns (trip_map lr_test_input x) _ B0 B1 B2 D0 D1 D2)|].
  intros ? (V0 & V1 & V2 & -> & K0 & K1 & K2). unfold app3, tuple3. cbn [at0 at1 at2].
  destruct (holds_mat_cols _ _ _ _ K0) as (e0 & e1 & e2 & _), (holds_mat_cols _ _ _ _ K1) as (f0 & f1 & f2 & _), (holds_mat_cols _ _ _ _ K2) as (g0 & g1 & g2 & _).
  rewrite !e0, !e1, !e2, !f0, !f1, !f2, !g0, !g1, !g2, !bool_decide_eq_true_2 by done. cbn [negb orb].
  replace (S d - 1)%nat with d by lia. destruct (zero_model_ok d) as [Z1 Z2]. set (z := Trip (zero_model d) (zero_model d) (zero_model d)).
  eapply (returns_bind (Trip (input 0 0 (at0 z)) (input 1 0 (at1 z)) (input 2 0 (at2 z))) (Trip _ _ _));
    [apply (input_holds 0 z _ ltac:(lia) eq_refl Z1 Z2)|]. intros W HW.
  apply (returns_done (constructed W (stacked S0 S1 S2) (stacked V0 V1 V2))). exists W, (stacked S0 S1 S2), (stacked V0 V1 V2).
  split; [done|]. split; [done|]. split; [exact (stacked_holds (trip_map lr_train_input x) _ _ _ _ H0 H1 H2)|].
  exact (stacked_holds (trip_map lr_test_input x) _ _ _ _ K0 K1 K2).
Qed.
(** The model that training allows on the joint data. *)
Definition trained (d : nat) (x : trip LRExecutor) (B IT : Z) (w : i64Matrix) : Prop :=
  SGD_Logistic log2 (Params (IT mod W64) (B mod W64) learning_rate) (m_data (train_of x)) (m_label (train_of x)) (zero_model d)
    (Some (m_data (test_of x), m_label (test_of x))) w.

(** The runs of the three executors have one batch size and number of iterations. *)
Definition same_run (x : trip LRExecutor) (B IT : Z) : Prop :=
  (lr_batch_size (at0 x) = B /\ lr_batch_size (at1 x) = B /\ lr_batch_size (at2 x) = B) /\
  (lr_num_iter (at0 x) = IT /\ lr_num_iter (at1 x) = IT /\ lr_num_iter (at2 x) = IT).

Definition with_model (x : trip LRExecutor) (m : list double) : trip (Z * LRExecutor) := trip_map (fun y => (0, set_model y m)) x.

Lemma main_returns d x B IT aB W T U : 0 < B <= max_size -> (0 < joint_rows (trip_map lr_train_input x))%nat ->
  shift_of log2 (Params (IT mod W64) (B mod W64) learning_rate) = Ret aB -> 0 <= aB ->
  holds_mat d 1 W (zero_model d) -> holds_mat (joint_rows (trip_map lr_train_input x)) (S d) T (train_of x) ->
  holds_mat (joint_rows (trip_map lr_test_input x)) (S d) U (test_of x) ->
  let main w t u := logistic_main log2 (both m_data t, both m_label t) (both m_data u, both m_label u) w B IT in
  returns (Trip (main (at0 W) (at0 T) (at0 U)) (main (at1 W) (at1 T) (at1 U)) (main (at2 W) (at2 T) (at2 U)))
    (fun t => exists w, trained d x B IT w /\ rows w = d /\ t = Trip (of_fixed <$> cells w) (of_fixed <$> cells w) (of_fixed <$> cells w)).
Proof using L F few_bits PrngLaws0.
  intros [HB0 HB] Hn Hsh HaB HW HT HU main. unfold main, logistic_main. rewrite (proj2 (Z.eqb_neq B 0)) by lia. cbn [fst snd].
  assert (Hd : (S d - 1)%nat = d) by lia.
  assert (HX := data_mat _ _ _ _ HT). assert (HY := label_mat _ (S d) _ _ (Nat.lt_0_succ d) HT). rewrite Hd in HX.
  assert (HX' := data_mat _ _ _ _ HU). assert (HY' := label_mat _ (S d) _ _ (Nat.lt_0_succ d) HU). rewrite Hd in HX'.
  assert (HT' : holds_tests d
      (Trip (Some (both m_data (at0 U), both m_label (at0 U))) (Some (both m_data (at1 U), both m_label (at1 U))) (Some (both m_data (at2 U), both m_label (at2 U))))
      (Some (m_data (test_of x), m_label (test_of x)))).
  { exists (joint_rows (trip_map lr_test_input x)), (trip_map (both m_data) U), (trip_map (both m_label) U). done. }
  assert (Hm : mBatchSize (Params (IT mod W64) (B mod W64) learning_rate) <= max_size).
  { cbn [mBatchSize]. etransitivity; [|exact HB]. apply Z.mod_le; [lia|]. unfold W64. lia. }
  assert (Hs := sgd_logistic_sim few_bits log2 _ aB _ d _ _ _ _ _ _ _ _ Hn Hm Hsh HaB HX HY HW HT').
  refine (returns_bind _ (Trip e_reveal e_reveal e_reveal) _ _ Hs _).
  intros V (w & Hw & HV). eapply returns_mono; [|exact (sim_reveal _ _ _ _ HV)]. intros t (m & -> & ->). exists w. split; [exact Hw|].
  split; [apply HV|done].
Qed.

Lemma execute_returns d x B IT aB : lr_ready d x -> same_run x B IT -> 0 < B <= max_size -> (0 < joint_rows (trip_map lr_train_input x))%nat ->
  shift_of log2 (Params (IT mod W64) (B mod W64) learning_rate) = Ret aB -> 0 <= aB ->
  returns (trip_map (lr_execute log2) x) (fun t => exists w, trained d x B IT w /\ rows w = d /\ t = with_model x (of_fixed <$> cells w)).
Proof using L F few_bits PrngLaws0.
  intros Hr ((B0 & B1 & B2) & (I0 & I1 & I2)) HB Hn Hsh HaB. unfold trip_map, lr_execute. rewrite B0, B1, B2, I0, I1, I2.
  eapply (returns_bind (Trip _ _ _) (Trip _ _ _)); [exact (construct_returns d x Hr)|]. intros ? (W & T & U & -> & HW & HT & HU).
  unfold app3, constructed. cbn [at0 at1 at2].
  eapply (returns_bind (Trip _ _ _) (Trip _ _ _)); [exact (main_returns d x B IT aB W T U HB Hn Hsh HaB HW HT HU)|].
  intros ? (w & Hw & Hrw & ->). apply (returns_done (with_model x (of_fixed <$> cells w))). by exists w.
Qed.

(** ** The whole task *)

Record lr_party := LP {
  lp_task : Task;
  lp_driver : option (list (str * arrow_type) * (list (str * arrow_type) -> option stable));
  lp_mkdir : str -> bool
}.

Context (add_msb : Z -> Z -> bool) (storage job_id task_id : str).

Definition lr_task (p : Z) (q : lr_party) : mprog (retcode * option (str * str * list double)) :=
  ExecuteImpl (logistic_regression log2 storage (lp_task q) true (lp_driver q) (lp_mkdir q) 0) (new_LRExecutor job_id task_id p).

(** Reading the request of party [p] and loading its table gives [y], and the
    directories of the model file can be made. *)
Definition lr_loads (p : Z) (q : lr_party) (y : LRExecutor) : Prop :=
  exists x, lr_loadParams storage (lp_task q) (new_LRExecutor job_id task_id p) = Ret (0, x) /\ lr_loadDataset (lp_driver q) x = Ret (0, y) /\
    forallb (lp_mkdir q) (parent_dirs [] true (lr_model_file_name y)) = true.

Definition lr_name (p : Z) : str := lr_model_name (new_LRExecutor job_id task_id p).

Lemma loads_facts p q y : lr_loads p q y ->
  lr_local_id y = p /\ lr_model_name y = lr_name p /\ dmat_ok (lr_train_input y) /\ dmat_ok (lr_test_input y) /\
  dm_cols (lr_train_input y) = dm_cols (lr_test_input y).
Proof.
  intros (x & Hx & Hy & _). destruct (loaded _ _ _ Hy) as (H1 & H2 & H3 & [= -> -> _ _ _]).
  unfold lr_loadParams in Hx. destruct (find_dataset _ _) as [[[path id] detail]|]; [|done]. injection Hx as <-. done.
Qed.

Definition lr_result (y : LRExecutor) (m : list double) : retcode * option (str * str * list double) :=
  (SUCCESS, Some (lr_model_name y, lr_model_file_name y, m)).

(** The task up to the protocol, and the saving after it. *)
Lemma lr_task_prefix p q y : lr_loads p q y -> exists f : Z * LRExecutor -> mprog (retcode * option (str * str * list double)),
  lr_task p q = lift (lr_execute log2 y) ≫= f /\ forall m, f (0, set_model y m) = MDone (Ret (lr_result y m)).
Proof.
  intros (x & Hx & Hy & Hdir). unfold lr_task, ExecuteImpl. cbn [logistic_regression loadParams loadDataset initPartyComm InitEngine].
  rewrite Hx. cbn [mbind mprog_mbind mprog_bind]. rewrite Z.eqb_refl. cbn [negb].
  rewrite Hy. cbn [mbind mprog_mbind mprog_bind]. rewrite Z.eqb_refl. cbn [negb Z.eqb mprog_bind execute finishPartyComm saveModel].
  eexists. split; [reflexivity|]. intros m. cbn [Z.eqb negb mbind mprog_mbind mprog_bind mret mprog_ret].
  cbn [logistic_regression finishPartyComm saveModel mbind mprog_mbind mprog_bind mret mprog_ret].
  unfold lr_saveModel. cbn [set_model lr_model_file_name lr_model_name lr_model]. rewrite Hdir. reflexivity.
Qed.

(** C19: a logistic regression task is correct end to end.  Three parties whose
    requests are read and whose tables are loaded, with the same number of columns,
    batch size and number of iterations, at least one training row together and a
    learning rate that is a power of two, run their tasks (reading, loading,
    sharing and stacking the rows, stochastic gradient descent on shares, opening
    and saving) to [SUCCESS]; all three save the same model, and it is one that
    the same training allows on the stacked secret rows, every product truncated
    as the engine truncates. *)
Theorem logistic_task_correct (q : trip lr_party) (y : trip LRExecutor) d B IT aB n :
  lr_loads 0 (at0 q) (at0 y) -> lr_loads 1 (at1 q) (at1 y) -> lr_loads 2 (at2 q) (at2 y) ->
  dm_cols (lr_train_input (at0 y)) = S d -> dm_cols (lr_train_input (at1 y)) = S d -> dm_cols (lr_train_input (at2 y)) = S d ->
  same_run y B IT -> 0 < B <= max_size -> (0 < joint_rows (trip_map lr_train_input y))%nat ->
  shift_of log2 (Params (IT mod W64) (B mod W64) learning_rate) = Ret aB -> 0 <= aB ->
  exists w n', trained d y B IT w /\ rows w = d /\
    mrun3 add_msb n (lr_task 0 (at0 q)) (lr_task 1 (at1 q)) (lr_task 2 (at2 q)) =
      Some (n', trip_map (fun x => Ret (lr_result x (of_fixed <$> cells w))) y).
Proof using L F few_bits PrngLaws0.
  intros L0 L1 L2 C0 C1 C2 Hsame HB Hn Hsh HaB.
  destruct (loads_facts _ _ _ L0) as (I0 & _ & A0 & B0 & D0), (loads_facts _ _ _ L1) as (I1 & _ & A1 & B1 & D1),
    (loads_facts _ _ _ L2) as (I2 & _ & A2 & B2 & D2).
  assert (Hr : lr_ready d y) by (split; try done; rewrite <- D0, <- D1, <- D2; done).
  destruct (returns_run3 _ _ n (execute_returns d y B IT aB Hr Hsame HB Hn Hsh HaB)) as (t & Hrun & w & Hw & Hrw & ->).
  destruct (lift_run add_msb _ _ _ _ _ Hrun) as (n' & Hm). exists w, n'. split; [done|]. split; [done|].
  destruct (lr_task_prefix _ _ _ L0) as (f0 & -> & E0), (lr_task_prefix _ _ _ L1) as (f1 & -> & E1), (lr_task_prefix _ _ _ L2) as (f2 & -> & E2).
  set (r x := (0, set_model x (of_fixed <$> cells w)) : Z * LRExecutor).
  etransitivity; [exact (mrun3_bind add_msb n _ _ _ n' (r (at0 y)) (r (at1 y)) (r (at2 y)) f0 f1 f2 Hm)|].
  unfold r. by rewrite E0, E1, E2.
Qed.
End Run.

(** ** A concrete run *)

(** A base-two logarithm. *)
Definition sample_log2 (d : double) : double :=
  match d with S754_finite false m e => d_of_int (Z.log2 (Z.pos m) + e) | _ => S754_nan end.

Definition sample_lr_table (k : Z) : stable :=
  [(chars "x", SCol INT64 [Ints [k; k + 1; k - 2; k + 3; 1]]); (chars "label", SCol INT64 [Ints [0; 1; 0; 1; 1]])].

Definition sample_lr (p : Z) : lr_party := LP
  {| party_name := sample_pname p; party_access_info := []; auxiliary_server := {[PROXY_NODE := default_node]};
     params := list_to_map [(chars "BatchSize", PV (value_int32 2) false); (chars "NumIters", PV (value_int32 3) false)];
     party_datasets := {[sample_pname p := DS {[chars "Data_File" := chars "ds"]} false]} |}
  (Some ([(chars "x", INT64); (chars "label", INT64)], fun _ => Some (sample_lr_table p))) (fun _ => true).

Definition sample_lr_executor (p : Z) : LRExecutor :=
  match lr_loadParams (chars "/data") (lp_task (sample_lr p)) (new_LRExecutor (chars "job") (chars "task") p) with
  | Ret (_, x) => match lr_loadDataset (lp_driver (sample_lr p)) x with Ret (_, y) => y | _ => x end
  | _ => new_LRExecutor (chars "job") (chars "task") p
  end.

Lemma sample_loads p : p = 0 \/ p = 1 \/ p = 2 -> lr_loads (chars "/data") (chars "job") (chars "task") p (sample_lr p) (sample_lr_executor p).
Proof. intros [-> |[-> | ->]]; (eexists; split; [vm_compute; reflexivity|split; vm_compute; reflexivity]). Qed.

Lemma logistic_task_correct_witness :
  let q := Trip (sample_lr 0) (sample_lr 1) (sample_lr 2) in
  let y := Trip (sample_lr_executor 0) (sample_lr_executor 1) (sample_lr_executor 2) in
  exists w n', trained (G := rotating) sample_log2 2 y 2 3 w /\ rows w = 2%nat /\
    mrun3 (fun x y => bool_decide (wrap (x + y) < 0)) 0
      (lr_task (G := rotating) sample_log2 (chars "/data") (chars "job") (chars "task") 0 (at0 q))
      (lr_task (G := rotating) sample_log2 (chars "/data") (chars "job") (chars "task") 1 (at1 q))
      (lr_task (G := rotating) sample_log2 (chars "/data") (chars "job") (chars "task") 2 (at2 q)) =
    Some (n', trip_map (fun x => Ret (lr_result x (of_fixed <$> cells w))) y).
Proof.
  assert (few_bits : @frac_bits aby3_model <= 20) by (vm_compute; discriminate). cbn zeta.
  eapply (logistic_task_correct (L := aby3_model_laws) (F := aby3_model_fixed_point) few_bits (G := rotating) (PrngLaws0 := rotating_laws)).
  - apply sample_loads. tauto.
  - apply sample_loads. tauto.
  - apply sample_loads. tauto.
  - vm_compute. reflexivity.
  - vm_compute. reflexivity.
  - vm_compute. reflexivity.
  - vm_compute. tauto.
  - vm_compute. split; [done|discriminate].
  - vm_compute. lia.
  - vm_compute. reflexivity.
  - lia.
Defined.
