(* ===== verification/MissingVal.v ===== *)
(** * Filling missing and abnormal values

    Models [MissingProcess] of [algorithm/missing_val_processing.{h,cc}]: the columns
    of a request are read as texts (or as numbers from SQLite, where the driver
    lists the rows that had no valid number), each party finds the sum, the count,
    the least and the greatest of its valid numbers, the three parties compute the
    joint maximum, minimum or average, and each replaces its missing and abnormal
    cells with that value.  A column is its list of chunks; the
    results of the CSV reader and of the SQLite cursor ([Abnormal]) are arguments. *)

From Stdlib Require Import Ascii String ZArith Lia SpecFloat.
From stdpp Require Import base tactics list option gmap strings sorting.
From S2P Require Import Prelude ModArith Machine Doubles Json Common Aby3Op PartyProg ExprConfig ExprMpc MpcCompare MpcProg.
From S2P Require Import PsiData Psi PsiTask Statistics MpcStatistics.

Local Open Scope Z_scope.

(** ** Texts and numbers *)

(** The outcome of [std::stoll] and [std::stod]: the value and the rest of the text. *)
Inductive conv (A : Type) := Conv (v : A) (rest : str) | InvalidArgument | OutOfRange.
Arguments Conv {A} v rest.
Arguments InvalidArgument {A}.
Arguments OutOfRange {A}.

Definition stoll (s : str) : conv Z :=
  let '(neg, s) := take_sign (skip_space s) in
  let '(v, n, rest) := take_digits 0 0 s in
  let v := if neg then - v else v in
  if decide (n = O) then InvalidArgument else if in_i64 v then Conv v rest else OutOfRange.

(** What [strtod] leaves after a complete exponent. *)
Definition after_exponent (s : str) : str :=
  match s with
  | c :: s' =>
      if decide (c = "e"%char \/ c = "E"%char) then
        let '(_, s1) := take_sign s' in
        let '(_, n, rest) := take_digits 0 0 s1 in
        if decide (n = O) then s else rest
      else s
  | [] => []
  end.

Definition stod_conv (s : str) : conv double :=
  let '(_, s1) := take_sign (skip_space s) in
  let '(m, n, s2) := take_digits 0 0 s1 in
  let '(_, nf, s3) :=
    match s2 with
    | c :: s' => if decide (c = "."%char) then take_digits m 0 s' else (m, O, s2)
    | [] => (m, O, [])
    end in
  if decide (n + nf = 0)%nat then InvalidArgument
  else match stod s with Ret d => Conv d (after_exponent s3) | _ => OutOfRange end.

(** [_strToInt64] and [_strToDouble]: the value, or the code -1 or -2. *)
Definition check_conv {A} (c : conv A) : Z + A :=
  match c with
  | Conv v [] => inr v
  | Conv _ _ | InvalidArgument => inl (-1)
  | OutOfRange => inl (-2)
  end.
Definition strToInt64 (s : str) : Z + Z := check_conv (stoll s).
Definition strToDouble (s : str) : Z + double := check_conv (stod_conv s).

(** [std::stoll] and [std::stod] as expressions: they throw, or take the number at
    the start of the text. *)
Definition conv_value {A} (c : conv A) : res A := match c with Conv v _ => Ret v | _ => Throw end.

(** [std::to_string] of a double: ["%f"] (the exact value
    rounded to six decimals, ties to even). *)

Definition round_div (a b : Z) : Z :=
  let q := a / b in let r := a mod b in
  if 2 * r <? b then q else if b <? 2 * r then q + 1 else if Z.even q then q else q + 1.

Definition micros (m : positive) (e : Z) : Z :=
  if 0 <=? e then Z.pos m * 2 ^ e * 10 ^ 6 else round_div (Z.pos m * 10 ^ 6) (2 ^ (- e)).

Fixpoint pad_digits (k : nat) (n : Z) : str :=
  match k with O => [] | S k => pad_digits k (n / 10) ++ [ascii_of_nat (48 + Z.to_nat (n mod 10))] end.

Definition double_to_string (d : double) : str :=
  let sign (s : bool) := if s then chars "-" else [] in
  match d with
  | S754_zero s => sign s ++ chars "0.000000"
  | S754_infinity s => sign s ++ chars "inf"
  | S754_nan => chars "nan"
  | S754_finite s m e => let n := micros m e in sign s ++ digits 320 (n / 10 ^ 6) ++ chars "." ++ pad_digits 6 (n mod 10 ^ 6)
  end.

(** [_spiltStr] with the separator ["#"]. *)
Fixpoint spilt_fields (cur : str) (s : str) : list str :=
  match s with
  | [] => [rev cur]
  | c :: s => if decide (c = "#"%char) then rev cur :: spilt_fields [] s else spilt_fields (c :: cur) s
  end.
Definition spiltStr (s : str) : list str := match s with [] => [] | _ => spilt_fields [] s end.

(** ** Columns *)

Inductive mcolumn :=
| Texts (l : list (list (option str)))
| Int64s (l : list (list Z))
| Doubles (l : list (list double)).

Record mtable := MTab { mt_rows : Z; mt_cols : list (str * mcolumn) }.

Definition chunk_count (c : mcolumn) : nat := match c with Texts l => length l | Int64s l => length l | Doubles l => length l end.

Definition as_texts (c : mcolumn) : res (list (list (option str))) := match c with Texts l => Ret l | _ => Undef end.
Definition as_int64s (c : mcolumn) : res (list (list Z)) := match c with Int64s l => Ret l | _ => Undef end.
Definition as_doubles (c : mcolumn) : res (list (list double)) := match c with Doubles l => Ret l | _ => Undef end.

(** The first [n] chunks: reading one that is not there is undefined. *)
Definition first_chunks {A} (n : nat) (l : list (list A)) : res (list (list A)) :=
  if decide (n <= length l)%nat then Ret (take n l) else Undef.

(** ** What a party finds in its column *)

Record scan (A : Type) := Scan { sc_sum : A; sc_max : A; sc_min : A; sc_abnormal : list (list nat) }.
Arguments Scan {A} sc_sum sc_max sc_min sc_abnormal.
Arguments sc_sum {A} s.
Arguments sc_max {A} s.
Arguments sc_min {A} s.
Arguments sc_abnormal {A} s.

Section Scan.
Context {A : Type} (read : str -> Z + A) (add : A -> A -> res A) (greater less : A -> A -> bool).

(** One valid value. *)
Definition scan_value (v : A) (s : scan A) : res (scan A) :=
  sum ← add (sc_sum s) v;
  Ret (Scan sum (if greater v (sc_max s) then v else sc_max s) (if less v (sc_min s) then v else sc_min s) (sc_abnormal s)).

(** The texts of a chunk from row [j] on; [bad] are the abnormal rows so far. *)
Fixpoint scan_texts (j : nat) (l : list (option str)) (bad : list nat) (s : scan A) : res (list nat * scan A) :=
  match l with
  | [] => Ret (bad, s)
  | None :: l => scan_texts (S j) l bad s
  | Some t :: l =>
      match read t with
      | inl _ => scan_texts (S j) l (bad ++ [j]) s
      | inr v => s ← scan_value v s; scan_texts (S j) l bad s
      end
  end.

Fixpoint scan_chunks (l : list (list (option str))) (s : scan A) : res (scan A) :=
  match l with
  | [] => Ret s
  | c :: l => '(bad, s) ← scan_texts 0 c [] s;
      scan_chunks l (Scan (sc_sum s) (sc_max s) (sc_min s) (sc_abnormal s ++ [bad]))
  end.

(** The numbers of an SQLite column. *)
Fixpoint scan_numbers (l : list A) (s : scan A) : res (scan A) :=
  match l with [] => Ret s | v :: l => s ← scan_value v s; scan_numbers l s end.
End Scan.

Definition null_count (l : list (list (option str))) : Z :=
  Z.of_nat (length (filter (fun o => o = None) (concat l))).
Definition abnormal_count (l : list (list nat)) : Z := Z.of_nat (length (concat l)).

Definition add_i64 (a b : Z) : res Z := i64 (a + b).
Definition add_double (a b : double) : res double := Ret (dadd a b).

Definition LONG_MIN : Z := - 2 ^ 63.
Definition LONG_MAX : Z := 2 ^ 63 - 1.

(** The integer branch: sums and extremes, the abnormal rows per chunk, the count
    as a [uint32_t].  The number of chunks is taken from column 0. *)
Definition scan_int (t : mtable) (col_index : nat) (use_db : bool) (both_index : list nat) : res (scan Z * Z) :=
  c0 ← or_undef (mt_cols t !! 0%nat);
  c ← or_undef (mt_cols t !! col_index);
  let chunk_num := chunk_count c0.2 in
  let start := Scan 0 LONG_MIN LONG_MAX [] in
  if use_db then
    l ← as_int64s c.2; l ← first_chunks chunk_num l;
    s ← scan_numbers add_i64 Z.gtb Z.ltb (concat l) start;
    Ret (Scan (sc_sum s) (sc_max s) (sc_min s) (replicate chunk_num []), (mt_rows t - Z.of_nat (length both_index)) mod 2 ^ 32)
  else
    l ← as_texts c.2; l ← first_chunks chunk_num l;
    s ← scan_chunks strToInt64 add_i64 Z.gtb Z.ltb l start;
    Ret (s, (mt_rows t - null_count l - abnormal_count (sc_abnormal s)) mod 2 ^ 32).

(** The double branch. *)
Definition scan_double (t : mtable) (col_index : nat) (use_db : bool) (both_index : list nat) : res (scan double * Z) :=
  c ← or_undef (mt_cols t !! col_index);
  let chunk_num := chunk_count c.2 in
  let start := Scan d_zero dbl_min dbl_max [] in
  if use_db then
    l ← as_doubles c.2;
    s ← scan_numbers add_double (fun v m => SFltb m v) SFltb (concat l) start;
    Ret (Scan (sc_sum s) (sc_max s) (sc_min s) (replicate chunk_num []), (mt_rows t - Z.of_nat (length both_index)) mod 2 ^ 32)
  else
    l ← as_texts c.2;
    s ← scan_chunks strToDouble add_double (fun v m => SFltb m v) SFltb l start;
    Ret (s, (mt_rows t - null_count l - abnormal_count (sc_abnormal s)) mod 2 ^ 32).

(** ** The new column *)

(** A write past the end of a vector is undefined. *)
Definition set_row {A} (v : A) (i : nat) (l : list A) : res (list A) :=
  if decide (i < length l)%nat then Ret (<[i := v]> l) else Undef.

Fixpoint set_rows {A} (v : A) (idx : list nat) (l : list A) : res (list A) :=
  match idx with [] => Ret l | i :: idx => l ← set_row v i l; set_rows v idx l end.

(** The texts of all chunks, null and abnormal cells replaced. *)
Fixpoint new_texts (replace : str) (l : list (list (option str))) (abnormal : list (list nat)) : res (list str) :=
  match l with
  | [] => Ret []
  | c :: l =>
      bad ← or_undef (abnormal !! 0%nat);
      c ← set_rows replace bad (default replace <$> c);
      rest ← new_texts replace l (tail abnormal);
      Ret (c ++ rest)
  end.

Fixpoint conv_all {A} (f : str -> conv A) (l : list str) : res (list A) :=
  match l with [] => Ret [] | s :: l => v ← conv_value (f s); rest ← conv_all f l; Ret (v :: rest) end.

(** [_buildNewColumn] from texts; a column without chunks has no first vector. *)
Definition buildNewColumn_texts (c : mcolumn) (replace : str) (abnormal : list (list nat)) (need_double : bool) : res mcolumn :=
  l ← as_texts c;
  if decide (l = []) then Undef
  else
    texts ← new_texts replace l abnormal;
    if need_double then v ← conv_all stod_conv texts; Ret (Doubles [v]) else v ← conv_all stoll texts; Ret (Int64s [v]).

(** [_buildNewColumn] from numbers. *)
Definition buildNewColumn_numbers (c : mcolumn) (replace : str) (both_index : list nat) (need_double : bool) : res mcolumn :=
  if decide (chunk_count c = O) then Undef
  else if need_double then
    l ← as_doubles c;
    if decide (both_index = []) then Ret (Doubles [concat l])
    else v ← conv_value (stod_conv replace); l ← set_rows v both_index (concat l); Ret (Doubles [l])
  else
    l ← as_int64s c;
    if decide (both_index = []) then Ret (Int64s [concat l])
    else v ← conv_value (stoll replace); l ← set_rows v both_index (concat l); Ret (Int64s [l]).

Definition set_column (t : mtable) (i : nat) (c : mcolumn) : mtable :=
  MTab (mt_rows t) (alter (fun p => (p.1, c)) i (mt_cols t)).

Definition column_length (c : mcolumn) : Z :=
  Z.of_nat (match c with Texts l => length (concat l) | Int64s l => length (concat l) | Doubles l => length (concat l) end).

(** [replaceValue]: [value] is the printed replacement; a column of another length
    than the table is refused. *)
Definition replaceValue (t : mtable) (col_index : nat) (value : str) (abnormal : list (list nat)) (use_db : bool) (both_index : list nat)
    (need_double : bool) : res mtable :=
  c ← or_undef (mt_cols t !! col_index);
  c ← (if use_db then buildNewColumn_numbers c.2 value both_index need_double else buildNewColumn_texts c.2 value abnormal need_double);
  if column_length c =? mt_rows t then Ret (set_column t col_index c) else Throw.

(** ** The protocol *)

Inductive replace_kind := ReplMAX | ReplMIN | ReplAVG.

Definition replace_kind_of (s : str) : option replace_kind :=
  if decide (s = chars "MAX") then Some ReplMAX
  else if decide (s = chars "MIN") then Some ReplMIN
  else if decide (s = chars "AVG") then Some ReplAVG else None.

Section Protocol.
Context `{E : Aby3}.

(** The two comparisons: the party with the greatest (or least) value, and the
    matrix as the comparisons leave it.  The matrices have one element, so the
    loops over the opened bits run once. *)
Definition contest (want_max : bool) (party_id_ : Z) (m : i64Matrix) : mprog (Z * i64Matrix) :=
  '(mpc_res, m1) ← mcompare (if negb (party_id_ =? 2) then Some m else None);
  let m := default m m1 in
  less ← MDone (or_undef (mpc_res !! 0%nat));
  let flag : Z := if Bool.eqb less want_max then 1 else 0 in
  '(mpc_res2, m2) ←
    (if flag =? 1 then mcompare (if negb (party_id_ =? 0) then Some m else None)
     else mcompare (if negb (party_id_ =? 1) then Some m else None));
  let m := default m m2 in
  less ← MDone (or_undef (mpc_res2 !! 0%nat));
  mret (if Bool.eqb less want_max then 2 else flag, m).

(** The winner shares its value and everybody opens it. *)
Definition open_contest (fp : bool) (party_id_ flag : Z) (m : i64Matrix) : mprog Z :=
  sh ← (if party_id_ =? flag then mcall (if fp then LocalFixed m else LocalInt m)
        else mcall (if fp then RemoteFixed (rows m) (cols m) else RemoteInt (rows m) (cols m)));
  plain ← mrevealAll sh;
  MDone (or_undef (cells plain !! 0%nat)).

Definition extreme_of (fp want_max : bool) (party_id_ : Z) (v : Z) : mprog Z :=
  '(flag, m) ← contest want_max party_id_ (Mat 1 1 [v]); open_contest fp party_id_ flag m.

(** Each party shares [sum; count] in turn; everybody opens the total. *)
Definition total_of (fp : bool) (party_id_ : Z) (sum count : Z) : mprog (Z * Z) :=
  let one i := if i =? party_id_ then mcall (if fp then LocalFixed (Mat 2 1 [sum; count]) else LocalInt (Mat 2 1 [sum; count]))
               else mcall (if fp then RemoteFixed 2 1 else RemoteInt 2 1) in
  s0 ← one 0; s1 ← one 1; s2 ← one 2;
  plain ← mrevealAll (share_add (share_add s0 s1) s2);
  s ← MDone (or_undef (cells plain !! 0%nat));
  c ← MDone (or_undef (cells plain !! 1%nat));
  mret (s, c).

(** [plain_sum(0, 0) / plain_sum(1, 0)] on integers. *)
Definition int_div (a b : Z) : res Z := if b =? 0 then Undef else i64 (Z.quot a b).

(** The replacement for an integer column. *)
Definition int_max_replacement (party_id_ : Z) (s : scan Z) : mprog Z := extreme_of false true party_id_ (sc_max s).
Definition int_min_replacement (party_id_ : Z) (s : scan Z) : mprog Z := extreme_of false false party_id_ (sc_min s).
Definition int_avg_replacement (party_id_ : Z) (s : scan Z) (int_count : Z) : mprog Z :=
  '(a, b) ← total_of false party_id_ (sc_sum s) int_count; MDone (int_div a b).

Definition int_replacement (k : replace_kind) (party_id_ : Z) (s : scan Z) (int_count : Z) : mprog Z :=
  match k with
  | ReplMAX => int_max_replacement party_id_ s
  | ReplMIN => int_min_replacement party_id_ s
  | ReplAVG => int_avg_replacement party_id_ s int_count
  end.

(** The replacement for a column of doubles. *)
Definition double_max_replacement (party_id_ : Z) (s : scan double) : mprog double :=
  v ← extreme_of true true party_id_ (to_fixed (sc_max s)); mret (of_fixed v).
Definition double_min_replacement (party_id_ : Z) (s : scan double) : mprog double :=
  v ← extreme_of true false party_id_ (to_fixed (sc_min s)); mret (of_fixed v).
Definition double_avg_replacement (party_id_ : Z) (s : scan double) (double_count : Z) : mprog double :=
  '(a, b) ← total_of true party_id_ (to_fixed (sc_sum s)) (to_fixed (d_of_int double_count));
  mret (ddiv (of_fixed a) (of_fixed b)).

Definition double_replacement (k : replace_kind) (party_id_ : Z) (s : scan double) (double_count : Z) : mprog double :=
  match k with
  | ReplMAX => double_max_replacement party_id_ s
  | ReplMIN => double_min_replacement party_id_ s
  | ReplAVG => double_avg_replacement party_id_ s double_count
  end.

(** ** The loop over the columns *)

(** The members [execute] uses. *)
Record Missing : Type := Miss {
  ms_party : Z;
  col_and_dtype_ : list (str * Z);
  local_col_names : list str;
  replace_type_ : str;
  use_db_ : bool;
  db_both_index : gmap str (list nat)
}.

Definition process_column (x : Missing) (t : mtable) (name : str) (dtype : Z) : mprog mtable :=
  match list_find (eq name) (local_col_names x) with
  | None => mret t
  | Some (col_index, _) =>
      let both := default [] (db_both_index x !! name) in
      if (dtype =? 1) || (dtype =? 3) then
        '(s, int_count) ← MDone (scan_int t col_index (use_db_ x) both);
        match replace_kind_of (replace_type_ x) with
        | None => mret t
        | Some k =>
            v ← int_replacement k (ms_party x) s int_count;
            MDone (replaceValue t col_index (int_to_string v) (sc_abnormal s) (use_db_ x) both false)
        end
      else if dtype =? 2 then
        '(s, double_count) ← MDone (scan_double t col_index (use_db_ x) both);
        match replace_kind_of (replace_type_ x) with
        | None => mret t
        | Some k =>
            v ← double_replacement k (ms_party x) s double_count;
            MDone (replaceValue t col_index (double_to_string v) (sc_abnormal s) (use_db_ x) both true)
        end
      else mret t
  end.

Fixpoint process_columns (x : Missing) (cols : list (str * Z)) (t : mtable) : mprog mtable :=
  match cols with
  | [] => mret t
  | (name, dtype) :: cols => t ← process_column x t name dtype; process_columns x cols t
  end.

(** [execute], with the column types that the next and the previous party sent
    (as [int]s); a difference raises. *)
Definition missing_execute (x : Missing) (next prev : list Z) (t : mtable) : mprog (Z * mtable) :=
  let own := snd <$> col_and_dtype_ x in
  if bool_decide (length own <> length next) || bool_decide (length own <> length prev) then MDone Throw
  else if bool_decide (own <> next) || bool_decide (own <> prev) then MDone Throw
  else t ← process_columns x (col_and_dtype_ x) t; mret (0, t).
End Protocol.

(** ** Reading the request *)

Record missing_params : Type := MP {
  mp_path : str; mp_dataset : str; mp_detail : bool; mp_replace : str; mp_db : bool; mp_conn : str; mp_table : str;
  mp_types : gmap str Z; mp_new_id : str; mp_new_path : str }.

Definition starts_with (p s : str) : bool := bool_decide (take (length p) s = p).

(** [col_and_dtype_.insert]: the first entry of a name stays; the type is kept as a
    [uint32_t]. *)
Fixpoint read_types (l : list (str * json)) (types : gmap str Z) : res (gmap str Z) :=
  match l with
  | [] => Ret types
  | (name, v) :: l => z ← GetInt v; read_types l (map_insert name (z mod 2 ^ 32) types)
  end.

Definition missing_loadParams (Parse : str -> option json) (storage : str) (party : str) (task : Task) : res (option missing_params) :=
  match find_dataset party task with
  | None => Ret None
  | Some (path, id, detail) =>
      let replace := match string_param task "Replace_Type" with [] => chars "MAX" | r => r end in
      let use_db := starts_with (chars "sqlite") path in
      let conn := spiltStr path in
      path1 ← (if use_db then or_undef (conn !! 1%nat) else Ret path);
      tab ← (if use_db then or_undef (conn !! 2%nat) else Ret []);
      doc ← or_undef (Parse (string_param task "ColumnInfo"));
      ds ← member doc path1;
      vals ← member ds (chars "columns");
      types ← match vals with JObject l => read_types l ∅ | _ => Undef end;
      new_id ← member ds (chars "newDataSetId");
      new_id ← GetString new_id;
      let new_path := match ds with
                      | JObject l => match find_member (chars "outputFilePath") l with Some (JString p) => p | _ => chars "./" ++ new_id ++ chars ".csv" end
                      | _ => []
                      end in
      Ret (Some (MP path1 id detail replace use_db (if use_db then path else []) tab types new_id (CompletePath storage new_path)))
  end.

(** [std::map] hands out its entries by key. *)
Definition map_entries (m : gmap str Z) : list (str * Z) :=
  (fun k => (k, default 0 (m !! k))) <$> sort_names (fst <$> map_to_list m).

(** The length check of [_LoadDatasetFromCSV] and [_LoadDatasetFromDB]: the number
    of rows of the last column, or -1 when a column differs. *)
Definition checked_length (t : mtable) : res Z :=
  last_col ← or_undef (last (mt_cols t));
  let array_len := column_length last_col.2 in
  Ret (if forallb (fun c => column_length c.2 =? array_len) (mt_cols t) then array_len else -1).

Definition missing_loadDataset (read : option mtable) : res (Z * mtable) :=
  match read with
  | None => Ret (-1, MTab 0 [])
  | Some t => n ← checked_length t; Ret (if n <=? 0 then -1 else 0, t)
  end.

(** ** Ending *)

Definition missing_finishPartyComm `{E : Aby3} (party_id_ : Z) : mprog Z :=
  _ ← (if party_id_ =? 0 then mcall (LocalInt (Mat 1 1 [1])) else mcall (RemoteInt 1 1)); mret 0.

(** [saveModel]: the table that is written and registered; the arguments say
    whether a driver and a cursor were made and what writing returned. *)
Definition missing_saveModel (driver cursor : bool) (write_ret : Z) (p : missing_params) (t : mtable) : Z * option (str * str * mtable) :=
  if negb driver then (-1, None)
  else if negb cursor then (-1, None)
  else if negb (write_ret =? 0) then (-1, None)
  else (0, Some (mp_new_id p, mp_new_path p, t)).
