(* ===== verification/Abnormal.v ===== *)
(** * Reading columns with missing numbers from SQLite

    Models [SQLiteCursor::read_from_abnormal] of [data_store/sqlite/sqlite_driver.cc], which
    reads a query into the table that [MissingVal] works on: every cell becomes a value
    of the type that the request gives its column, and the rows without a number are
    listed per column.  The rows of the query and the text of a double are arguments. *)

From Stdlib Require Import Ascii String ZArith Lia SpecFloat.
From stdpp Require Import base tactics list option gmap strings sorting.
From S2P Require Import Prelude ModArith Machine Doubles Common PsiData PsiTyped PsiTask Statistics MpcStatistics MissingVal.

Local Open Scope Z_scope.

(** ** Cells *)

Inductive sql_cell : Type := CNull | CText (s : str) | CDouble (d : double) | CInt (z : Z) | CBlob.

(** [TypeContainer], less the members that stay empty. *)
Record TypeContainer := TC { string_values : list str; int_values : list Z; double_values : list double }.
Definition new_container : TypeContainer := TC [] [] [].

(** What a cell adds to the container of its column. *)
Inductive cell_value : Type := VString (s : str) | VInt (z : Z) | VDouble (d : double) | VNothing.
Definition push_value (v : cell_value) (c : TypeContainer) : TypeContainer :=
  match v with
  | VString s => TC (string_values c ++ [s]) (int_values c) (double_values c)
  | VInt z => TC (string_values c) (int_values c ++ [z]) (double_values c)
  | VDouble d => TC (string_values c) (int_values c) (double_values c ++ [d])
  | VNothing => c
  end.

Section Read.
(** [ss << std::setprecision(17) << d], and [strtod] of a number out of range. *)
Context (show_double : double -> str) (strtod_range : str -> double).

(** The value for a cell without a number. *)
Definition no_number (type : Z) (null : bool) : cell_value :=
  if type =? 1 then VInt 0
  else if type =? 2 then VDouble (d_of_int 0)
  else if type =? 3 then if null then VDouble (d_of_int 0) else VInt 0
  else VNothing.

(** A cell: the value and whether its row is listed; [None] ends the reading. *)
Definition convert_cell (type : Z) (c : sql_cell) : option (cell_value * bool) :=
  match c with
  | CNull => if type =? 0 then Some (VString [], false) else Some (no_number type true, true)
  | CText s =>
      if type =? 0 then Some (VString s, false)
      else if bool_decide ("."%char ∈ s) then
        match stod_conv s with
        | InvalidArgument => Some (no_number type false, true)
        | r =>
            let d_val := match r with Conv d _ => d | _ => strtod_range s end in
            if (type =? 1) || (type =? 3) then None
            else Some (if type =? 2 then VDouble d_val else VNothing, false)
        end
      else
        match stoll s with
        | InvalidArgument => Some (no_number type false, true)
        | _ =>
            let int_val := wrap32 (atol s) in
            Some (if (type =? 1) || (type =? 3) then VInt int_val else if type =? 2 then VDouble (d_of_int int_val) else VNothing, false)
        end
  | CDouble d =>
      if type =? 0 then Some (VString (show_double d), false)
      else if (type =? 1) || (type =? 3) then None
      else Some (if type =? 2 then VDouble d else VNothing, false)
  | CInt z =>
      Some (if type =? 0 then VString (int_to_string z)
            else if (type =? 1) || (type =? 3) then VInt z
            else if type =? 2 then VDouble (d_of_int z) else VNothing, false)
  | CBlob => None
  end.

(** ** Rows *)

Record reading := Rd { query_result : gmap str TypeContainer; col_metas : list (str * Z); bad_index : gmap str (list nat) }.

Definition known_type (t : Z) : bool := (0 <=? t) && (t <=? 3).

(** The first row makes the containers of the columns that are asked for. *)
Definition start_column (row : nat) (name : str) (type : Z) (r : reading) : reading :=
  if (row =? 0)%nat && known_type type
  then Rd (<[name := new_container]> (query_result r)) (col_metas r ++ [(name, type)]) (bad_index r)
  else r.

Definition store_value (name : str) (v : cell_value) (r : reading) : res reading :=
  match v with
  | VNothing => Ret r
  | _ =>
      c ← or_undef (query_result r !! name);
      Ret (Rd (<[name := push_value v c]> (query_result r)) (col_metas r) (bad_index r))
  end.

Definition note_row (row : nat) (name : str) (r : reading) : reading :=
  Rd (query_result r) (col_metas r) (<[name := default [] (bad_index r !! name) ++ [row]]> (bad_index r)).

Fixpoint read_row (col_type : gmap str Z) (row : nat) (cells : list (str * sql_cell)) (r : reading) : res (option reading) :=
  match cells with
  | [] => Ret (Some r)
  | (name, c) :: cells =>
      match col_type !! name with
      | None => read_row col_type row cells r
      | Some type =>
          let r := start_column row name type r in
          match convert_cell type c with
          | None => Ret None
          | Some (v, bad) =>
              r ← store_value name v (if bad then note_row row name r else r);
              read_row col_type row cells r
          end
      end
  end.

Fixpoint read_rows (col_type : gmap str Z) (row : nat) (rows : list (list (str * sql_cell))) (r : reading) : res (option reading) :=
  match rows with
  | [] => Ret (Some r)
  | cells :: rows =>
      o ← read_row col_type row cells r;
      match o with None => Ret None | Some r => read_rows col_type (S row) rows r end
  end.

(** ** The table *)

(** The fields in the order of the names, the arrays in the order of the query. *)
Definition result_fields (col_type : gmap str Z) : list str := fst <$> filter (fun e => known_type e.2 = true) (map_entries col_type).
Definition result_array (result : gmap str TypeContainer) (m : str * Z) : res mcolumn :=
  c ← or_undef (result !! m.1);
  Ret (if m.2 =? 0 then Texts [Some <$> string_values c] else if m.2 =? 2 then Doubles [double_values c] else Int64s [int_values c]).

Fixpoint result_arrays (result : gmap str TypeContainer) (metas : list (str * Z)) : res (list mcolumn) :=
  match metas with
  | [] => Ret []
  | m :: metas => a ← result_array result m; l ← result_arrays result metas; Ret (a :: l)
  end.

Record abnormal_table := AT { at_fields : list str; at_arrays : list mcolumn }.

Definition read_from_abnormal (col_type : gmap str Z) (rows : list (list (str * sql_cell))) (index : gmap str (list nat)) :
    res (option (abnormal_table * gmap str (list nat))) :=
  o ← read_rows col_type 0 rows (Rd ∅ [] index);
  match o with
  | None => Ret None
  | Some r => a ← result_arrays (query_result r) (col_metas r); Ret (Some (AT (result_fields col_type) a, bad_index r))
  end.
End Read.

(** ** What is read *)

Section Facts.
Context (show_double : double -> str) (strtod_range : str -> double).
Abbreviation convert := (convert_cell show_double strtod_range).

(** What a row does to the column [name]. *)
Definition col_step (row : nat) (name : str) (v : cell_value) (bad : bool) (r r' : reading) : Prop :=
  (exists c, (if (row =? 0)%nat then c = new_container else query_result r !! name = Some c) /\ query_result r' !! name = Some (push_value v c)) /\
  bad_index r' !! name = if bad then Some (default [] (bad_index r !! name) ++ [row]) else bad_index r !! name.

Definition row_effect (ct : gmap str Z) (row : nat) (cells : list (str * sql_cell)) (r r' : reading) : Prop :=
  col_metas r' = col_metas r ++ (if (row =? 0)%nat then (fun x => (x.1, default 0 (ct !! x.1))) <$> cells else []) /\
  (forall name c t v bad, (name, c) ∈ cells -> ct !! name = Some t -> convert t c = Some (v, bad) -> col_step row name v bad r r') /\
  (forall name, name ∉ cells.*1 -> query_result r' !! name = query_result r !! name /\ bad_index r' !! name = bad_index r !! name).

(** The columns of the query: all asked for, with a type, and convertible. *)
Definition cell_ok (ct : gmap str Z) (x : str * sql_cell) : Prop := exists t, ct !! x.1 = Some t /\ known_type t = true /\ is_Some (convert t x.2).

Lemma known_value t c v bad : known_type t = true -> convert t c = Some (v, bad) -> v <> VNothing.
Proof using.
  unfold known_type. intros Ht H ->. assert (t = 0 \/ t = 1 \/ t = 2 \/ t = 3) as [-> | [-> | [-> | ->]]] by lia;
    destruct c; cbn in H; try done; repeat case_match; done.
Qed.

Lemma store_value_ok name v c r : v <> VNothing -> query_result r !! name = Some c ->
  store_value name v r = Ret (Rd (<[name := push_value v c]> (query_result r)) (col_metas r) (bad_index r)).
Proof using. intros Hv Hc. unfold store_value. rewrite Hc. by destruct v. Qed.

Lemma read_row_effect ct row cells r : NoDup cells.*1 -> Forall (cell_ok ct) cells ->
  (row <> 0%nat -> forall x, x ∈ cells -> is_Some (query_result r !! x.1)) ->
  exists r', read_row show_double strtod_range ct row cells r = Ret (Some r') /\ row_effect ct row cells r r'.
Proof using.
  revert r. induction cells as [|[name c] cells IH]; intros r Hn Hok Hr.
  { exists r. split; [done|]. split; [by destruct (row =? 0)%nat; rewrite app_nil_r|]. split; [by intros ????? ?%elem_of_nil|done]. }
  apply NoDup_cons in Hn as [Hnew Hn]. apply Forall_cons_1 in Hok as [(t & Ht & Hk & [[v bad] Hv]) Hok]. cbn [fst snd] in *.
  cbn [read_row]. rewrite Ht, Hv. set (r1 := start_column row name t r). set (r2 := if bad then note_row row name r1 else r1).
  assert (exists c0, query_result r2 !! name = Some c0 /\ (if (row =? 0)%nat then c0 = new_container else query_result r !! name = Some c0)) as (c0 & Hc0 & Hold).
  { unfold r2, r1, start_column. rewrite Hk. destruct (Nat.eqb_spec row 0) as [-> |Hrow]; cbn.
    - exists new_container. split; [|done]. destruct bad; cbn; apply lookup_insert_eq.
    - destruct (Hr Hrow (name, c) ltac:(by left)) as [c0 Hc0]. exists c0. split; [by destruct bad|done]. }
  rewrite (store_value_ok name v c0 r2 (known_value t c v bad Hk Hv) Hc0). cbn [mbind res_bind].
  set (r3 := Rd (<[name := push_value v c0]> (query_result r2)) (col_metas r2) (bad_index r2)).
  assert (Hq : forall m, m <> name -> query_result r3 !! m = query_result r !! m /\ bad_index r3 !! m = bad_index r !! m).
  { intros m Hm. unfold r3, r2, r1, start_column, note_row. cbn. rewrite lookup_insert_ne by done. destruct ((row =? 0)%nat && known_type t), bad; cbn;
      by rewrite ?lookup_insert_ne by done. }
  destruct (IH r3 Hn Hok) as (r' & Hread & Hm & Hs & Ho).
  { intros Hrow x Hx. destruct (Hq x.1) as [-> _]; [|by apply Hr; [|right]]. intros E. apply Hnew. rewrite <- E. by apply list_elem_of_fmap_2. }
  exists r'. split; [exact Hread|]. split; [|split].
  - rewrite Hm. unfold r3, r2, r1, start_column, note_row. rewrite Hk. cbn. destruct (row =? 0)%nat, bad; cbn; rewrite ?app_nil_r, <- ?app_assoc, ?Ht; done.
  - intros m d t' v' bad' [[= -> ->] | Hin]%elem_of_cons Ht' Hv'.
    + rewrite Ht in Ht'. injection Ht' as <-. rewrite Hv in Hv'. injection Hv' as <- <-. destruct (Ho name Hnew) as [E1 E2]. split.
      * exists c0. split; [done|]. rewrite E1. apply lookup_insert_eq.
      * rewrite E2. unfold r3, r2, r1, start_column, note_row. destruct ((row =? 0)%nat && known_type t), bad; cbn; by rewrite ?lookup_insert_eq.
    + assert (Hne : m <> name) by (intros ->; apply Hnew; change name with ((name, d).1); by apply list_elem_of_fmap_2).
      destruct (Hs m d t' v' bad' Hin Ht' Hv') as [(c1 & H1 & H2) H3]. destruct (Hq m Hne) as [E1 E2]. split; [|by rewrite H3, E2].
      exists c1. split; [|done]. destruct (row =? 0)%nat; [done|]. by rewrite <- E1.
  - intros m [Hm1 Hm2]%not_elem_of_cons. destruct (Ho m Hm2) as [-> ->]. by apply Hq.
Qed.

(** The values of a column, and the rows that are listed, from row [k] on. *)
Definition column_values (t : Z) (j : nat) (rows : list (list (str * sql_cell))) : list (cell_value * bool) :=
  omap (fun row => x ← row !! j; convert t x.2) rows.
Fixpoint listed (k : nat) (vs : list (cell_value * bool)) : list nat :=
  match vs with [] => [] | (_, b) :: vs => (if b then [k] else []) ++ listed (S k) vs end.
Definition push_all (vs : list (cell_value * bool)) (c : TypeContainer) : TypeContainer := fold_left (fun c v => push_value v.1 c) vs c.
Definition add_listed (old : option (list nat)) (l : list nat) : option (list nat) := match l with [] => old | _ => Some (default [] old ++ l) end.

(** All rows have the columns [cols]. *)
Definition rows_ok (ct : gmap str Z) (cols : list str) (rows : list (list (str * sql_cell))) : Prop := Forall (fun row => row.*1 = cols /\ Forall (cell_ok ct) row) rows.

Lemma add_listed_app old l l' : add_listed (add_listed old l) l' = add_listed old (l ++ l').
Proof using. destruct l as [|x l]; [done|]. destruct l' as [|y l']; cbn; [by rewrite app_nil_r|]. by rewrite <- app_assoc. Qed.

Lemma row_step ct cols row cells j name t r r' : cells.*1 = cols -> Forall (cell_ok ct) cells -> cols !! j = Some name -> ct !! name = Some t ->
  row_effect ct row cells r r' -> exists v bad, column_values t j [cells] = [(v, bad)] /\ col_step row name v bad r r'.
Proof using.
  intros <- Hok Hj Ht (_ & Hs & _). rewrite list_lookup_fmap in Hj. destruct (cells !! j) as [[m c]|] eqn:E; [|done]. cbn in Hj. injection Hj as ->.
  destruct (Forall_lookup_1 _ _ _ _ Hok E) as (t' & Ht' & _ & [[v bad] Hv]). cbn in *. rewrite Ht in Ht'. injection Ht' as <-.
  exists v, bad. split; [cbn; by rewrite E; cbn; rewrite Hv|]. apply (Hs name c t v bad); [|done|done]. by eapply list_elem_of_lookup_2.
Qed.

Lemma column_values_cons t j row rows : column_values t j (row :: rows) = column_values t j [row] ++ column_values t j rows.
Proof using. cbn. by case_match. Qed.

Lemma listed_app k vs vs' : listed k (vs ++ vs') = listed k vs ++ listed (k + length vs) vs'.
Proof using.
  revert k. induction vs as [|[v b] vs IH]; intros k; cbn; [by rewrite Nat.add_0_r|]. rewrite IH, app_assoc. do 2 f_equal. lia.
Qed.

(** Later rows. *)
Lemma read_rows_effect ct cols rows k r : NoDup cols -> rows_ok ct cols rows -> (forall name, name ∈ cols -> is_Some (query_result r !! name)) ->
  exists r', read_rows show_double strtod_range ct (S k) rows r = Ret (Some r') /\ col_metas r' = col_metas r /\
    forall j name t, cols !! j = Some name -> ct !! name = Some t ->
      query_result r' !! name = push_all (column_values t j rows) <$> query_result r !! name /\
      bad_index r' !! name = add_listed (bad_index r !! name) (listed (S k) (column_values t j rows)).
Proof using.
  intros Hn Hok. revert k r. induction Hok as [|cells rows [Hcols Hcells] Hok IH]; intros k r Hr.
  { exists r. split; [done|]. split; [done|]. intros j name t Hj Ht. cbn. by rewrite option_fmap_id. }
  destruct (read_row_effect ct (S k) cells r) as (r1 & H1 & He); [by rewrite Hcols|done| |].
  { intros _ x Hx. apply Hr. rewrite <- Hcols. by apply list_elem_of_fmap_2. }
  assert (Hstep : forall j name t, cols !! j = Some name -> ct !! name = Some t -> exists v bad c, column_values t j [cells] = [(v, bad)] /\
    query_result r !! name = Some c /\ query_result r1 !! name = Some (push_value v c) /\
    bad_index r1 !! name = add_listed (bad_index r !! name) (listed (S k) [(v, bad)])).
  { intros j name t Hj Ht. destruct (row_step ct cols (S k) cells j name t r r1 Hcols Hcells Hj Ht He) as (v & bad & Ev & (c & Hc & Hc') & Hb).
    exists v, bad, c. split_and!; [done|exact Hc|done|]. rewrite Hb. by destruct bad. }
  destruct (IH (S k) r1) as (r' & H2 & Hm & Hfin).
  { intros name Hname. apply list_elem_of_lookup in Hname as [j Hj]. assert (Hj2 := Hj). rewrite <- Hcols, list_lookup_fmap in Hj.
    destruct (cells !! j) as [[m c]|] eqn:E; [|done]. injection Hj as ->. destruct (Forall_lookup_1 _ _ _ _ Hcells E) as (t & Ht & _).
    destruct (Hstep j name t Hj2 Ht) as (v & bad & c' & _ & _ & Hc' & _). by eexists. }
  exists r'. split; [cbn [read_rows]; rewrite H1; exact H2|]. split; [rewrite Hm; destruct He as [-> _]; by rewrite app_nil_r|].
  intros j name t Hj Ht. destruct (Hfin j name t Hj Ht) as [Hq Hb]. destruct (Hstep j name t Hj Ht) as (v & bad & c & Ev & Ec & Ec' & Eb).
  rewrite column_values_cons, Ev, Hq, Hb, Ec, Ec', Eb, listed_app, add_listed_app. replace (S k + length [(v, bad)])%nat with (S (S k)) by (cbn; lia). done.
Qed.

(** The array of a column. *)
Definition strings_of (vs : list (cell_value * bool)) : list str := omap (fun v => match v.1 with VString s => Some s | _ => None end) vs.
Definition ints_of (vs : list (cell_value * bool)) : list Z := omap (fun v => match v.1 with VInt z => Some z | _ => None end) vs.
Definition doubles_of (vs : list (cell_value * bool)) : list double := omap (fun v => match v.1 with VDouble d => Some d | _ => None end) vs.
Definition array_of (t : Z) (vs : list (cell_value * bool)) : mcolumn :=
  if t =? 0 then Texts [Some <$> strings_of vs] else if t =? 2 then Doubles [doubles_of vs] else Int64s [ints_of vs].

Lemma push_all_values vs c : push_all vs c = TC (string_values c ++ strings_of vs) (int_values c ++ ints_of vs) (double_values c ++ doubles_of vs).
Proof using.
  revert c. induction vs as [|[v b] vs IH]; intros c; [cbn; rewrite !app_nil_r; by destruct c|]. cbn [push_all fold_left].
  change (fold_left (fun c v => push_value v.1 c) vs (push_value v c)) with (push_all vs (push_value v c)). rewrite IH. destruct v; cbn; by rewrite <- ?app_assoc.
Qed.

Lemma result_arrays_ok result metas arrays : Forall2 (fun m a => result_array result m = Ret a) metas arrays -> result_arrays result metas = Ret arrays.
Proof using. induction 1 as [|m a metas arrays Hm _ IH]; [done|]. cbn. rewrite Hm. cbn. by rewrite IH. Qed.

(** What the query is read as: for every column, in the order of the query, the array of
    its converted cells, and the rows that had no number added to its list; the names of
    the fields are the requested ones in their own order. *)
Theorem abnormal_columns ct cols row rows index : NoDup cols -> rows_ok ct cols (row :: rows) ->
  exists arrays index', read_from_abnormal show_double strtod_range ct (row :: rows) index = Ret (Some (AT (result_fields ct) arrays, index')) /\
    length arrays = length cols /\
    forall j name t, cols !! j = Some name -> ct !! name = Some t ->
      arrays !! j = Some (array_of t (column_values t j (row :: rows))) /\
      index' !! name = add_listed (index !! name) (listed 0 (column_values t j (row :: rows))).
Proof using.
  intros Hn Hok. apply Forall_cons_1 in Hok as [[Hcols Hrow] Hok].
  destruct (read_row_effect ct 0 row (Rd ∅ [] index)) as (r1 & H1 & He); [by rewrite Hcols|done|done|].
  assert (Hstep : forall j name t, cols !! j = Some name -> ct !! name = Some t -> exists v bad, column_values t j [row] = [(v, bad)] /\
    query_result r1 !! name = Some (push_value v new_container) /\ bad_index r1 !! name = add_listed (index !! name) (listed 0 [(v, bad)])).
  { intros j name t Hj Ht. destruct (row_step ct cols 0 row j name t _ r1 Hcols Hrow Hj Ht He) as (v & bad & Ev & (c & Hc & Hc') & Hb).
    cbn in Hc. subst c. exists v, bad. split_and!; [done|done|]. rewrite Hb. by destruct bad. }
  assert (Htype : forall j name, cols !! j = Some name -> exists t, ct !! name = Some t /\ known_type t = true).
  { intros j name Hj. rewrite <- Hcols, list_lookup_fmap in Hj. destruct (row !! j) as [[m c]|] eqn:E; [|done]. injection Hj as ->.
    destruct (Forall_lookup_1 _ _ _ _ Hrow E) as (t & Ht & Hk & _). by exists t. }
  destruct (read_rows_effect ct cols rows 0 r1 Hn Hok) as (r' & H2 & Hm & Hfin).
  { intros name Hname. apply list_elem_of_lookup in Hname as [j Hj]. destruct (Htype j name Hj) as (t & Ht & _).
    destruct (Hstep j name t Hj Ht) as (v & bad & _ & Hc & _). by eexists. }
  set (metas := (fun name => (name, default 0 (ct !! name))) <$> cols).
  assert (Hmetas : col_metas r' = metas).
  { rewrite Hm. destruct He as [-> _]. cbn. unfold metas. rewrite <- Hcols, <- list_fmap_compose. done. }
  exists (imap (fun j m => array_of m.2 (column_values m.2 j (row :: rows))) metas), (bad_index r').
  assert (Hfinal : forall j name t, cols !! j = Some name -> ct !! name = Some t ->
    query_result r' !! name = Some (push_all (column_values t j (row :: rows)) new_container) /\
    bad_index r' !! name = add_listed (index !! name) (listed 0 (column_values t j (row :: rows)))).
  { intros j name t Hj Ht. destruct (Hfin j name t Hj Ht) as [Hq Hb]. destruct (Hstep j name t Hj Ht) as (v & bad & Ev & Ec & Eb).
    rewrite column_values_cons, Ev, Hq, Hb, Ec, Eb, listed_app, add_listed_app. done. }
  split_and!.
  - unfold read_from_abnormal. cbn [read_rows]. rewrite H1. cbn [mbind res_bind]. rewrite H2. cbn [mbind res_bind].
    rewrite Hmetas, (result_arrays_ok _ _ (imap (fun j m => array_of m.2 (column_values m.2 j (row :: rows))) metas)); [done|].
    apply Forall2_same_length_lookup. split; [by rewrite length_imap|]. intros j m a Hjm Hja. rewrite list_lookup_imap, Hjm in Hja. cbn in Hja. injection Hja as <-.
    unfold metas in Hjm. rewrite list_lookup_fmap in Hjm. destruct (cols !! j) as [name|] eqn:Ej; [|done]. cbn in Hjm. injection Hjm as <-.
    destruct (Htype j name Ej) as (t & Ht & _). destruct (Hfinal j name t Ej Ht) as [Hq _]. unfold result_array. cbn [fst snd]. rewrite Hq, Ht. cbn [or_undef mbind res_bind default from_option].
    unfold array_of. rewrite push_all_values. done.
  - unfold metas. by rewrite length_imap, length_fmap.
  - intros j name t Hj Ht. destruct (Hfinal j name t Hj Ht) as [_ Hb]. split; [|exact Hb]. rewrite list_lookup_imap. unfold metas. rewrite list_lookup_fmap, Hj. cbn. by rewrite Ht.
Qed.
End Facts.

(** ** Loading a database *)

(** [_LoadDatasetFromDB]: whether there is a cursor, the query's rows, and the table with
    its length. *)
Definition LoadDatasetFromDB (show_double : double -> str) (strtod_range : str -> double) (cursor : bool) (ct : gmap str Z) (rows : list (list (str * sql_cell)))
    (index : gmap str (list nat)) : res (Z * option (mtable * gmap str (list nat))) :=
  if negb cursor then Ret (-1, None)
  else
    o ← read_from_abnormal show_double strtod_range ct rows index;
    match o with
    | None => Ret (-1, None)
    | Some (t, index) =>
        let m := MTab (Z.of_nat (length rows)) (zip (at_fields t) (at_arrays t)) in
        n ← checked_length m; Ret (n, Some (m, index))
    end.

(** Every cell adds one value to the array of its column, unless the column is of type 3
    and the cell is null. *)
Lemma array_length sd sr t j rows : 0 <= t <= 2 -> Forall (fun row => exists x, row !! j = Some x /\ is_Some (convert_cell sd sr t x.2)) rows ->
  column_length (array_of t (column_values sd sr t j rows)) = Z.of_nat (length rows).
Proof.
  intros Ht HF. assert (Hc : length (column_values sd sr t j rows) = length rows /\
    Forall (fun v : cell_value * bool => match v.1 with VString _ => t = 0 | VInt _ => t = 1 | VDouble _ => t = 2 | VNothing => False end) (column_values sd sr t j rows)).
  { induction HF as [|row rows (x & Hx & [[v b] Hv]) HF [IH1 IH2]]; [done|]. unfold column_values in *. cbn [omap list_omap].
    rewrite Hx. cbn [mbind option_bind]. rewrite Hv. cbn [length]. split; [by rewrite IH1|]. constructor; [|exact IH2]. cbn [fst].
    assert (t = 0 \/ t = 1 \/ t = 2) as [-> | [-> | ->]] by lia; destruct (x.2); cbn in Hv; repeat case_match; simplify_eq; done. }
  destruct Hc as [Hl Hv]. rewrite <- Hl. unfold array_of, strings_of, ints_of, doubles_of.
  assert (t = 0 \/ t = 1 \/ t = 2) as [-> | [-> | ->]] by lia; cbn [Z.eqb Pos.eqb]; unfold column_length; cbn [concat]; rewrite app_nil_r, ?length_fmap; f_equal;
    clear -Hv; induction Hv as [|[[] b] vs H _ IH]; cbn in *; try done; lia.
Qed.

(** Columns sorted by the database in another order than by name get each other's
    names. *)
Example columns_swapped sd sr : let ct : gmap str Z := <[chars "a" := 1]> {[chars "b" := 1]} in
  read_from_abnormal sd sr ct [[(chars "b", CInt 7); (chars "a", CInt 5)]] ∅ = Ret (Some (AT [chars "a"; chars "b"] [Int64s [[7]]; Int64s [[5]]], ∅)).
Proof. vm_compute. reflexivity. Qed.

(** A null in a column of type 3 leaves its array short, and the table is refused. *)
Example long_null_short sd sr : let ct : gmap str Z := <[chars "a" := 3]> {[chars "b" := 1]} in
  exists r, LoadDatasetFromDB sd sr true ct [[(chars "a", CNull); (chars "b", CInt 5)]] ∅ = Ret (-1, Some r).
Proof. eexists. vm_compute. reflexivity. Qed.

(** A number of more than 32 bits in a text loses its upper bits. *)
Example text_number_cut sd sr : let ct : gmap str Z := {[chars "a" := 1]} in
  read_from_abnormal sd sr ct [[(chars "a", CText (chars "4294967303"))]] ∅ = Ret (Some (AT [chars "a"] [Int64s [[7]]], ∅)).
Proof. vm_compute. reflexivity. Qed.
