(* ===== verification/MissingProps.v ===== *)
(** * Correctness of filling missing values

    For integer columns read as texts: the scan finds exactly the valid numbers,
    the three parties agree on the joint maximum, minimum or average, and every
    missing or abnormal cell of each party gets that number while the valid cells
    keep theirs.  The file ends with inputs on which the code does not do this. *)

From Stdlib Require Import Ascii String ZArith Lia SpecFloat.
From stdpp Require Import base tactics list option gmap strings sorting.
From S2P Require Import Prelude ModArith Machine Doubles Json Common Aby3Op PartyProg ExprConfig ExprMpc MpcCompare MpcProg.
From S2P Require Import PsiData Psi PsiTask Statistics StatProps MpcStatistics MissingVal.

Local Open Scope Z_scope.

(** ** Numbers as texts *)

(** [std::stoll] reads back what [std::to_string] printed. *)
Lemma stoll_to_string z : in_i64 z = true -> stoll (int_to_string z) = Conv z [].
Proof.
  intros Hz. assert (Hr := proj1 (in_i64_spec z) Hz). destruct (int_to_string_read z) as (neg & s & v & n & H1 & H2 & H3); [lia|].
  unfold stoll. rewrite H1, H2. cbn iota beta. rewrite decide_False by done. by rewrite H3, Hz.
Qed.

(** ** The scan *)

(** The number a cell holds, if it holds one. *)
Definition valid (o : option str) : option Z :=
  s ← o; match strToInt64 s with inr v => Some v | inl _ => None end.

Definition vals (cells : list (option str)) : list Z := omap valid cells.

Definition is_abnormal (o : option str) : bool := match o with Some s => match strToInt64 s with inl _ => true | inr _ => false end | None => false end.

(** The abnormal rows from row [j] on. *)
Fixpoint abnormal_rows (j : nat) (l : list (option str)) : list nat :=
  match l with [] => [] | o :: l => (if is_abnormal o then [j] else []) ++ abnormal_rows (S j) l end.

Definition fold_max (m : Z) (l : list Z) : Z := fold_left (fun m v => if v >? m then v else m) l m.
Definition fold_min (m : Z) (l : list Z) : Z := fold_left (fun m v => if v <? m then v else m) l m.

Lemma scan_texts_spec j l bad s : Z.abs (sc_sum s) + abs_sum (vals l) < 2 ^ 63 ->
  scan_texts strToInt64 add_i64 Z.gtb Z.ltb j l bad s =
    Ret (bad ++ abnormal_rows j l,
         Scan (sc_sum s + zsum (vals l)) (fold_max (sc_max s) (vals l)) (fold_min (sc_min s) (vals l)) (sc_abnormal s)).
Proof.
  revert j bad s. induction l as [|[t|] l IH]; intros j bad s H; cbn [scan_texts abnormal_rows vals omap list_omap] in *.
  - destruct s. by rewrite app_nil_r, Z.add_0_r.
  - unfold vals in *. cbn [omap list_omap valid mbind option_bind is_abnormal] in *. destruct (strToInt64 t) as [e|v] eqn:Er.
    + rewrite IH by done. by rewrite <- app_assoc.
    + cbn [abs_sum foldr] in H. fold (abs_sum (omap valid l)) in H. assert (Hn := abs_sum_nonneg (omap valid l)).
      unfold scan_value, add_i64, i64. rewrite (proj2 (in_i64_spec _)) by lia. cbn [mbind res_bind]. rewrite IH by (simpl; lia).
      cbn [sc_sum sc_max sc_min sc_abnormal app zsum foldr fold_max fold_min fold_left]. do 3 f_equal. unfold zsum. lia.
  - unfold vals in *. cbn [omap list_omap valid mbind option_bind] in *. rewrite IH by done. done.
Qed.

Lemma scan_int_spec t i c0 c cells : mt_cols t !! 0%nat = Some c0 -> chunk_count c0.2 = 1%nat ->
  mt_cols t !! i = Some c -> c.2 = Texts [cells] -> mt_rows t = Z.of_nat (length cells) -> mt_rows t < 2 ^ 32 ->
  abs_sum (vals cells) < 2 ^ 63 ->
  scan_int t i false [] =
    Ret (Scan (zsum (vals cells)) (fold_max LONG_MIN (vals cells)) (fold_min LONG_MAX (vals cells)) [abnormal_rows 0 cells],
         Z.of_nat (length (vals cells))).
Proof.
  intros H0 Hc0 Hi Hc Hr Hb Hs. unfold scan_int. rewrite H0, Hi. cbn [or_undef mbind res_bind]. rewrite Hc, Hc0.
  cbn [as_texts mbind res_bind]. unfold first_chunks. rewrite decide_True by (simpl; lia). cbn [take mbind res_bind scan_chunks].
  rewrite scan_texts_spec by (simpl; lia). cbn [mbind res_bind sc_sum sc_max sc_min sc_abnormal app Z.add]. do 2 f_equal.
  unfold null_count, abnormal_count. cbn [concat]. rewrite !app_nil_r.
  assert (Hn : forall j, (length (filter (fun o => o = None) cells) + length (abnormal_rows j cells) + length (vals cells) = length cells)%nat).
  { clear. induction cells as [|[s|] cells IH]; intros j; [done| |].
    - rewrite filter_cons_False by done. unfold vals in *. cbn [abnormal_rows is_abnormal omap list_omap valid mbind option_bind length].
      destruct (strToInt64 s); cbn [app length]; specialize (IH (S j)); lia.
    - rewrite filter_cons_True by done. unfold vals in *. cbn [abnormal_rows is_abnormal omap list_omap valid mbind option_bind length app].
      specialize (IH (S j)). lia. }
  specialize (Hn 0%nat). rewrite Z.mod_small by lia. lia.
Qed.

(** ** The new column *)

Definition good_text (R : str) (o : option str) : str := match o with Some s => if is_abnormal o then R else s | None => R end.

Lemma set_rows_app {A} (v : A) a b l : set_rows v (a ++ b) l = (l ← set_rows v a l; set_rows v b l).
Proof. revert l. induction a as [|i a IH]; intros l; simpl; [done|]. destruct (set_row v i l); simpl; [apply IH|done|done]. Qed.

(** The abnormal rows of a suffix are written where they belong. *)
Lemma set_rows_abnormal R l pre :
  set_rows R (abnormal_rows (length pre) l) (pre ++ (default R <$> l)) = Ret (pre ++ (good_text R <$> l)).
Proof.
  revert pre. induction l as [|o l IH]; intros pre; cbn [abnormal_rows fmap list_fmap]; [by rewrite app_nil_r|].
  rewrite set_rows_app. assert (Hfirst : set_rows R (if is_abnormal o then [length pre] else []) (pre ++ default R o :: (default R <$> l)) =
    Ret (pre ++ good_text R o :: (default R <$> l))).
  { unfold good_text. destruct (is_abnormal o) eqn:E.
    - cbn [set_rows]. unfold set_row. rewrite decide_True by (rewrite length_app; simpl; lia). cbn [mbind res_bind].
      rewrite insert_app_r_alt, Nat.sub_diag by lia. destruct o; done.
    - cbn [set_rows]. destruct o; done. }
  rewrite Hfirst. cbn [mbind res_bind].
  specialize (IH (pre ++ [good_text R o])). rewrite length_app in IH. cbn [length] in IH. rewrite Nat.add_1_r in IH.
  rewrite <- !app_assoc in IH. exact IH.
Qed.

Lemma valid_stoll s v : strToInt64 s = inr v -> stoll s = Conv v [].
Proof. unfold strToInt64, check_conv. destruct (stoll s) as [w [|]| |]; naive_solver. Qed.

Lemma conv_all_good R l : in_i64 R = true ->
  conv_all stoll (good_text (int_to_string R) <$> l) = Ret ((fun o => default R (valid o)) <$> l).
Proof.
  intros HR. induction l as [|o l IH]; cbn [fmap list_fmap conv_all]; [done|].
  assert (Ho : stoll (good_text (int_to_string R) o) = Conv (default R (valid o)) []).
  { destruct o as [s|]; unfold good_text, valid, is_abnormal; cbn [mbind option_bind]; [|by apply stoll_to_string].
    destruct (strToInt64 s) eqn:E; [by apply stoll_to_string|by apply valid_stoll]. }
  rewrite Ho. cbn [conv_value mbind res_bind]. rewrite IH. done.
Qed.

Definition filled (R : Z) (cells : list (option str)) : mcolumn := Int64s [(fun o => default R (valid o)) <$> cells].

Lemma replaceValue_spec t i name cells R : mt_cols t !! i = Some (name, Texts [cells]) -> mt_rows t = Z.of_nat (length cells) ->
  in_i64 R = true ->
  replaceValue t i (int_to_string R) [abnormal_rows 0 cells] false [] false = Ret (set_column t i (filled R cells)).
Proof.
  intros Hi Hr HR. unfold replaceValue. rewrite Hi. cbn [or_undef mbind res_bind snd]. unfold buildNewColumn_texts.
  cbn [as_texts mbind res_bind]. rewrite decide_False by done. cbn [new_texts lookup list_lookup or_undef mbind res_bind].
  assert (S := set_rows_abnormal (int_to_string R) cells []). cbn [app length] in S. rewrite S. cbn [mbind res_bind tail].
  rewrite app_nil_r, conv_all_good by done. cbn [mbind res_bind]. unfold filled.
  replace (column_length _ =? mt_rows t) with true; [done|]. symmetry. apply Z.eqb_eq. unfold column_length. cbn [concat].
  rewrite app_nil_r, length_fmap. done.
Qed.

(** ** The protocol *)

Definition contest_winner (want_max : bool) (x : trip Z) : Z :=
  if want_max then (if at0 x <? at1 x then (if at1 x <? at2 x then 2 else 1) else (if at0 x <? at2 x then 2 else 0))
  else (if at0 x <? at1 x then (if at0 x <? at2 x then 0 else 2) else (if at1 x <? at2 x then 1 else 2)).

Lemma contest_winner_value want_max x :
  0 <= contest_winner want_max x < 3 /\ sel (contest_winner want_max x) x = if want_max then max3 x else min3 x.
Proof.
  unfold contest_winner, sel, min3, max3.
  destruct want_max; destruct (at0 x <? at1 x) eqn:E0; destruct (at0 x <? at2 x) eqn:E1; destruct (at1 x <? at2 x) eqn:E2;
    cbn [Z.eqb Pos.eqb]; lia.
Qed.

Section Protocol.
Context `{L : Aby3Laws} (add_msb : Z -> Z -> bool).
Hypothesis msb_law : forall x y, in_i64 x = true -> in_i64 y = true -> add_msb x y = bool_decide (wrap (x + y) < 0).

Lemma contest_run want_max n x : comparable x ->
  mrun3 add_msb n (contest want_max 0 (cell (at0 x))) (contest want_max 1 (cell (at1 x))) (contest want_max 2 (cell (at2 x))) =
    Some (S (S n), trip_map (fun z => Ret (contest_winner want_max x, cell z)) x).
Proof.
  intros H. destruct x as [a b c]. unfold comparable in H. cbn [at0 at1 at2] in *.
  repeat match goal with H : Forall _ (_ :: _) |- _ => apply Forall_cons in H as [? H] end. unfold contest.
  etransitivity; [exact (mrun3_bind add_msb n _ _ _ _ _ _ _ _ _ _ (compare_cells add_msb msb_law 2 n a b ltac:(lia) ltac:(done) ltac:(done) ltac:(done)))|].
  cbn [place Z.eqb Pos.eqb at0 at1 at2 default lookup list_lookup or_undef mbind mprog_mbind mprog_bind].
  assert (H02 := compare_cells add_msb msb_law 1 (S n) a c ltac:(lia) ltac:(done) ltac:(done) ltac:(done)).
  assert (H12 := compare_cells add_msb msb_law 0 (S n) b c ltac:(lia) ltac:(done) ltac:(done) ltac:(done)).
  unfold contest_winner. cbn [at0 at1 at2].
  destruct want_max; (destruct (Z.ltb_spec a b); [rewrite bool_decide_true by done|rewrite bool_decide_false by lia]); cbn [Bool.eqb Z.eqb Pos.eqb].
  1,4: etransitivity; [exact (mrun3_bind add_msb _ _ _ _ _ _ _ _ _ _ _ H12)|];
    (destruct (Z.ltb_spec b c); [rewrite bool_decide_true by done|rewrite bool_decide_false by lia]; reflexivity).
  1,2: etransitivity; [exact (mrun3_bind add_msb _ _ _ _ _ _ _ _ _ _ _ H02)|];
    (destruct (Z.ltb_spec a c); [rewrite bool_decide_true by done|rewrite bool_decide_false by lia]; reflexivity).
Qed.

(** One party shares an integer matrix. *)
Lemma share_int_call n i m : 0 <= i < 3 -> mat_ok m -> Forall (fun x => in_i64 x = true) (cells m) ->
  exists s, shares s m /\
    mrun3 add_msb n (mcall (if i =? 0 then LocalInt m else RemoteInt (rows m) (cols m)))
      (mcall (if i =? 1 then LocalInt m else RemoteInt (rows m) (cols m)))
      (mcall (if i =? 2 then LocalInt m else RemoteInt (rows m) (cols m))) = Some (S n, trip_map Ret s).
Proof.
  intros Hi Hm Hr. destruct (local_int_law n i m Hi Hm Hr) as (t & Hj & Ht). exists t. split; [done|].
  rewrite <- (mrun3_call add_msb n _ t Hj). unfold owner_calls.
  assert (i = 0 \/ i = 1 \/ i = 2) as [-> | [-> | ->]] by lia; reflexivity.
Qed.

Lemma extreme_int_run (want_max : bool) n x : comparable x ->
  let r := Ret (if want_max then max3 x else min3 x) in
  mrun3 add_msb n (extreme_of false want_max 0 (at0 x)) (extreme_of false want_max 1 (at1 x)) (extreme_of false want_max 2 (at2 x)) =
    Some ((n + 4)%nat, Trip r r r).
Proof.
  intros H r. unfold extreme_of. destruct (contest_winner_value want_max x) as [Hw Hv].
  rewrite (mrun3_bind add_msb n _ _ _ _ _ _ _ _ _ _ (contest_run want_max n x H)). unfold open_contest.
  set (w := contest_winner want_max x) in *.
  destruct (share_int_call (S (S n)) w (cell (sel w x)) Hw) as (s & Hs & R); [done| |].
  { unfold comparable in H. repeat match goal with H : Forall _ (_ :: _) |- _ => apply Forall_cons in H as [? H] end.
    repeat constructor. unfold sel. destruct (w =? 0); [done|]. by destruct (w =? 1). }
  assert (R' : mrun3 add_msb (S (S n)) (if 0 =? w then mcall (LocalInt (cell (at0 x))) else mcall (RemoteInt 1 1))
    (if 1 =? w then mcall (LocalInt (cell (at1 x))) else mcall (RemoteInt 1 1))
    (if 2 =? w then mcall (LocalInt (cell (at2 x))) else mcall (RemoteInt 1 1)) = Some (S (S (S n)), trip_map Ret s)).
  { rewrite <- R. assert (w = 0 \/ w = 1 \/ w = 2) as [-> | [-> | ->]] by lia; reflexivity. }
  etransitivity; [exact (mrun3_bind add_msb _ _ _ _ _ _ _ _ _ _ _ R')|].
  etransitivity; [exact (mrun3_bind add_msb _ _ _ _ _ _ _ _ _ _ _ (mrun3_revealAll add_msb _ s _ Hs))|].
  cbn [cells cell lookup list_lookup or_undef mrun3]. unfold r. rewrite Hv. do 2 f_equal. lia.
Qed.

Definition pair_col (p : Z * Z) : i64Matrix := Mat 2 1 [p.1; p.2].

Lemma total_int_run n (p : trip (Z * Z)) :
  Forall (fun q => in_i64 (q.1) = true /\ in_i64 (q.2) = true) [at0 p; at1 p; at2 p] ->
  let r := Ret (wrap ((at0 p).1 + (at1 p).1 + (at2 p).1), wrap ((at0 p).2 + (at1 p).2 + (at2 p).2)) in
  mrun3 add_msb n (total_of false 0 (at0 p).1 (at0 p).2) (total_of false 1 (at1 p).1 (at1 p).2) (total_of false 2 (at2 p).1 (at2 p).2) =
    Some ((n + 4)%nat, Trip r r r).
Proof.
  intros Hp r. apply Forall_cons in Hp as [[P1 P2] Hp]. apply Forall_cons in Hp as [[P3 P4] Hp]. apply Forall_cons in Hp as [[P5 P6] _].
  destruct (share_int_call n 0 (pair_col (at0 p)) ltac:(lia) ltac:(done) ltac:(by repeat constructor)) as (s0 & Hs0 & R0).
  destruct (share_int_call (S n) 1 (pair_col (at1 p)) ltac:(lia) ltac:(done) ltac:(by repeat constructor)) as (s1 & Hs1 & R1).
  destruct (share_int_call (S (S n)) 2 (pair_col (at2 p)) ltac:(lia) ltac:(done) ltac:(by repeat constructor)) as (s2 & Hs2 & R2).
  assert (Hsum := share_sum_shares _ _ _ _ _ _ Hs0 Hs1 Hs2 ltac:(done) ltac:(done)). unfold total_of.
  etransitivity; [exact (mrun3_bind add_msb n _ _ _ _ _ _ _ _ _ _ R0)|].
  etransitivity; [exact (mrun3_bind add_msb (S n) _ _ _ _ _ _ _ _ _ _ R1)|].
  etransitivity; [exact (mrun3_bind add_msb (S (S n)) _ _ _ _ _ _ _ _ _ _ R2)|].
  etransitivity; [exact (mrun3_bind add_msb _ _ _ _ _ _ _ _ _ _ _ (mrun3_revealAll add_msb _ _ _ Hsum))|].
  cbn [cells add3 mat_zip pair_col zip_with lookup list_lookup or_undef mbind mprog_mbind mprog_bind mrun3 mret mprog_ret].
  assert (Ew : forall a b c, wrap (wrap (a + b) + c) = wrap (a + b + c)) by (intros; wrap_ring).
  unfold r. rewrite !Ew. do 2 f_equal. lia.
Qed.
End Protocol.

(** ** One column of three parties *)

Lemma fold_max_spec l m : Forall (fun x => m < x) l -> l <> [] -> is_max (fold_max m l) l.
Proof.
  assert (G : forall m, (fold_max m l = m \/ fold_max m l ∈ l) /\ m <= fold_max m l /\ Forall (fun x => x <= fold_max m l) l).
  { clear. unfold fold_max. induction l as [|x l IH]; intros m; cbn [fold_left]; [auto with lia|].
    destruct (IH (if x >? m then x else m)) as (H1 & H2 & H3).
    destruct (x >? m) eqn:E; (split; [|split; [lia|constructor; [lia|done]]]); destruct H1 as [-> |H1]; set_solver. }
  intros Hl Hn. destruct (G m) as ([H1|H1] & H2 & H3); [|done]. destruct l as [|x l]; [done|]. inversion_clear Hl. inversion_clear H3. lia.
Qed.

Lemma fold_min_spec l m : Forall (fun x => x < m) l -> l <> [] -> is_min (fold_min m l) l.
Proof.
  assert (G : forall m, (fold_min m l = m \/ fold_min m l ∈ l) /\ fold_min m l <= m /\ Forall (fun x => fold_min m l <= x) l).
  { clear. unfold fold_min. induction l as [|x l IH]; intros m; cbn [fold_left]; [auto with lia|].
    destruct (IH (if x <? m then x else m)) as (H1 & H2 & H3).
    destruct (x <? m) eqn:E; (split; [|split; [lia|constructor; [lia|done]]]); destruct H1 as [-> |H1]; set_solver. }
  intros Hl Hn. destruct (G m) as ([H1|H1] & H2 & H3); [|done]. destruct l as [|x l]; [done|]. inversion_clear Hl. inversion_clear H3. lia.
Qed.

(** What the replacement promises. *)
Definition repl_ok (k : replace_kind) (v : trip (list Z)) (R : Z) : Prop :=
  match k with
  | ReplMAX => is_max R (joined v)
  | ReplMIN => is_min R (joined v)
  | ReplAVG => R = Z.quot (joint_sum v) (joint_count v)
  end.

Definition usable (l : list Z) : Prop := l <> [] /\ Forall (fun x => Z.abs x < 2 ^ 62) l.

(** The bounds under which a joint column is processed exactly. *)
Definition col_cond (k : replace_kind) (v : trip (list Z)) : Prop :=
  abs_sum (at0 v) + abs_sum (at1 v) + abs_sum (at2 v) < 2 ^ 63 /\ joint_count v < 2 ^ 63 /\
  match k with ReplAVG => 0 < joint_count v | _ => usable (at0 v) /\ usable (at1 v) /\ usable (at2 v) end.

Definition scanned (v : list Z) (bad : list nat) : scan Z := Scan (zsum v) (fold_max LONG_MIN v) (fold_min LONG_MAX v) [bad].

Lemma usable_max l : usable l -> is_max (fold_max LONG_MIN l) l /\ Z.abs (fold_max LONG_MIN l) < 2 ^ 62.
Proof.
  intros [Hn Hb]. assert (H : is_max (fold_max LONG_MIN l) l).
  { apply fold_max_spec; [|done]. eapply Forall_impl; [exact Hb|]. intros x. unfold LONG_MIN. simpl. lia. }
  split; [done|]. apply (proj1 (Forall_forall _ _) Hb), H.
Qed.

Lemma usable_min l : usable l -> is_min (fold_min LONG_MAX l) l /\ Z.abs (fold_min LONG_MAX l) < 2 ^ 62.
Proof.
  intros [Hn Hb]. assert (H : is_min (fold_min LONG_MAX l) l).
  { apply fold_min_spec; [|done]. eapply Forall_impl; [exact Hb|]. intros x. unfold LONG_MAX. simpl. lia. }
  split; [done|]. apply (proj1 (Forall_forall _ _) Hb), H.
Qed.

Lemma max3_bound x b : Z.abs (at0 x) < b -> Z.abs (at1 x) < b -> Z.abs (at2 x) < b -> Z.abs (max3 x) < b /\ Z.abs (min3 x) < b.
Proof. unfold max3, min3. lia. Qed.

Section Column.
Context `{L : Aby3Laws} (add_msb : Z -> Z -> bool).
Hypothesis msb_law : forall x y, in_i64 x = true -> in_i64 y = true -> add_msb x y = bool_decide (wrap (x + y) < 0).

Lemma replacement_run k n (v : trip (list Z)) (bad : trip (list nat)) : col_cond k v ->
  exists R, repl_ok k v R /\ in_i64 R = true /\
    mrun3 add_msb n (int_replacement k 0 (scanned (at0 v) (at0 bad)) (Z.of_nat (length (at0 v))))
      (int_replacement k 1 (scanned (at1 v) (at1 bad)) (Z.of_nat (length (at1 v))))
      (int_replacement k 2 (scanned (at2 v) (at2 bad)) (Z.of_nat (length (at2 v)))) = Some ((n + 4)%nat, Trip (Ret R) (Ret R) (Ret R)).
Proof.
  intros (Hs & Hc & Hk). assert (A0 := abs_sum_nonneg (at0 v)). assert (A1 := abs_sum_nonneg (at1 v)). assert (A2 := abs_sum_nonneg (at2 v)).
  assert (Hcmp : forall x : trip Z, Z.abs (at0 x) < 2 ^ 62 -> Z.abs (at1 x) < 2 ^ 62 -> Z.abs (at2 x) < 2 ^ 62 -> comparable x).
  { intros x ???. apply comparable_small. do 3 (constructor; [done|]). constructor. }
  destruct k; unfold int_replacement, int_max_replacement, int_min_replacement, int_avg_replacement; cbn [scanned sc_max sc_min sc_sum].
  - destruct Hk as ([M0 B0]%usable_max & [M1 B1]%usable_max & [M2 B2]%usable_max).
    set (x := Trip (fold_max LONG_MIN (at0 v)) (fold_max LONG_MIN (at1 v)) (fold_max LONG_MIN (at2 v))).
    exists (max3 x). split; [|split].
    + unfold repl_ok, joined, max3. cbn [x at0 at1 at2]. by repeat apply is_max_app.
    + destruct (max3_bound x (2 ^ 62) B0 B1 B2) as [? _]. apply in_i64_spec. lia.
    + apply (extreme_int_run add_msb msb_law true n x). by apply Hcmp.
  - destruct Hk as ([M0 B0]%usable_min & [M1 B1]%usable_min & [M2 B2]%usable_min).
    set (x := Trip (fold_min LONG_MAX (at0 v)) (fold_min LONG_MAX (at1 v)) (fold_min LONG_MAX (at2 v))).
    exists (min3 x). split; [|split].
    + unfold repl_ok, joined, min3. cbn [x at0 at1 at2]. by repeat apply is_min_app.
    + destruct (max3_bound x (2 ^ 62) B0 B1 B2) as [_ ?]. apply in_i64_spec. lia.
    + apply (extreme_int_run add_msb msb_law false n x). by apply Hcmp.
  - exists (Z.quot (joint_sum v) (joint_count v)). unfold joint_sum, joint_count in *.
    assert (Z0 := zsum_abs (at0 v)). assert (Z1 := zsum_abs (at1 v)). assert (Z2 := zsum_abs (at2 v)).
    assert (Hq : in_i64 (Z.quot (zsum (at0 v) + zsum (at1 v) + zsum (at2 v)) (Z.of_nat (length (at0 v) + length (at1 v) + length (at2 v)))) = true).
    { apply in_i64_spec. set (a := zsum (at0 v) + zsum (at1 v) + zsum (at2 v)) in *. set (b := Z.of_nat _) in *.
      assert (Hq := Z.quot_abs a b ltac:(lia)). rewrite (Z.abs_eq b) in Hq by lia.
      assert (Hle := Z.quot_le_upper_bound (Z.abs a) b (Z.abs a) ltac:(lia) ltac:(nia)). lia. }
    split; [done|]. split; [done|].
    assert (R := total_int_run add_msb n (Trip (zsum (at0 v), Z.of_nat (length (at0 v))) (zsum (at1 v), Z.of_nat (length (at1 v)))
      (zsum (at2 v), Z.of_nat (length (at2 v))))). cbn [at0 at1 at2 fst snd] in R.
    rewrite !wrap_id in R by (apply in_i64_spec; lia).
    rewrite (mrun3_bind add_msb n _ _ _ _ _ _ _ _ _ _ (R ltac:(do 3 (constructor; [split; apply in_i64_spec; simpl; lia|]); constructor))).
    cbn [mrun3]. unfold int_div. rewrite (proj2 (Z.eqb_neq _ 0)) by lia. unfold i64.
    replace (Z.of_nat (length (at0 v)) + Z.of_nat (length (at1 v)) + Z.of_nat (length (at2 v)))
      with (Z.of_nat (length (at0 v) + length (at1 v) + length (at2 v))) by lia. by rewrite Hq.
Qed.
End Column.

(** ** All columns of three parties *)

(** The table with the columns that [R] names filled. *)
Definition filled_column (R : str -> option Z) (p : str * mcolumn) : str * mcolumn :=
  match R p.1, p.2 with Some r, Texts [cells] => (p.1, filled r cells) | _, _ => p end.
Definition fill_table (R : str -> option Z) (t : mtable) : mtable := MTab (mt_rows t) (filled_column R <$> mt_cols t).

Definition only (name : str) (r : Z) (s : str) : option Z := if decide (s = name) then Some r else None.
Definition first_range (R1 R2 : str -> option Z) (s : str) : option Z := match R1 s with Some r => Some r | None => R2 s end.

Lemma fill_twice R1 R2 t : fill_table R2 (fill_table R1 t) = fill_table (first_range R1 R2) t.
Proof.
  unfold fill_table. simpl. f_equal. rewrite <- list_fmap_compose. apply list_fmap_ext. intros _ [s c] _.
  unfold filled_column, first_range. cbn [compose fst snd]. destruct (R1 s) as [r|]; [|done].
  destruct c as [[|cells [|]]| |]; cbn [fst snd]; try done; by destruct (R2 s).
Qed.

(** A party's table: distinct names, one chunk per column, as many cells as rows. *)
Record mtable_ok (p : Z) (k : replace_kind) (x : Missing) (t : mtable) : Prop := {
  to_party : ms_party x = p;
  to_db : use_db_ x = false;
  to_index : db_both_index x = ∅;
  to_kind : replace_kind_of (replace_type_ x) = Some k;
  to_names : local_col_names x = fst <$> mt_cols t;
  to_nodup : NoDup (fst <$> mt_cols t);
  to_chunks : Forall (fun c => chunk_count c.2 = 1%nat) (mt_cols t);
  to_rows : mt_rows t < 2 ^ 32
}.

Definition has_cells (t : mtable) (name : str) (cells : list (option str)) : Prop :=
  (name, Texts [cells]) ∈ mt_cols t /\ mt_rows t = Z.of_nat (length cells).

Lemma find_column (l : list (str * mcolumn)) name c : NoDup (fst <$> l) -> (name, c) ∈ l ->
  exists i, list_find (eq name) (fst <$> l) = Some (i, name) /\ l !! i = Some (name, c).
Proof.
  intros Hnd Hin. apply list_elem_of_lookup in Hin as [i Hi]. exists i. split; [|done].
  apply list_find_Some. split; [by rewrite list_lookup_fmap, Hi|]. split; [done|]. intros j y Hj Hlt ->.
  apply (NoDup_lookup _ _ i) in Hj; [lia|done|by rewrite list_lookup_fmap, Hi].
Qed.

Lemma set_column_fill t i name cells r : NoDup (fst <$> mt_cols t) -> mt_cols t !! i = Some (name, Texts [cells]) ->
  set_column t i (filled r cells) = fill_table (only name r) t.
Proof.
  intros Hnd Hi. unfold set_column, fill_table. f_equal. apply list_eq. intros j. rewrite list_lookup_fmap.
  destruct (decide (i = j)) as [<-|Hne].
  - rewrite list_lookup_alter_eq, Hi. cbn [fmap option_fmap option_map fst]. unfold filled_column, only. cbn [fst snd]. by rewrite decide_True.
  - rewrite list_lookup_alter_ne by done. destruct (mt_cols t !! j) as [[s c]|] eqn:Ej; cbn [fmap option_fmap option_map]; [|done].
    unfold filled_column, only. cbn [fst snd]. rewrite decide_False; [done|]. intros ->. apply Hne.
    apply (NoDup_lookup (fst <$> mt_cols t) i j name); [done|by rewrite list_lookup_fmap, Hi|by rewrite list_lookup_fmap, Ej].
Qed.

(** A party's work on one column is the protocol between its scan and its table. *)
Lemma process_column_prefix `{E : Aby3} p k x t name dtype cells : mtable_ok p k x t -> dtype = 1 \/ dtype = 3 -> has_cells t name cells ->
  abs_sum (vals cells) < 2 ^ 63 ->
  exists f, process_column x t name dtype =
      (v ← int_replacement k p (scanned (vals cells) (abnormal_rows 0 cells)) (Z.of_nat (length (vals cells))); f v) /\
    forall R, in_i64 R = true -> f R = MDone (Ret (fill_table (only name R) t)).
Proof.
  intros [Hp Hdb Hix Hk Hn Hnd Hch Hrow] Hd [Hin Hr] Hs. destruct (find_column _ _ _ Hnd Hin) as (i & Hf & Hi).
  assert (H0 : exists c0, mt_cols t !! 0%nat = Some c0 /\ chunk_count c0.2 = 1%nat).
  { destruct (mt_cols t) as [|c0 l]; [by apply not_elem_of_nil in Hin|]. exists c0. split; [done|]. by inversion_clear Hch. }
  destruct H0 as (c0 & H0 & Hc0). unfold process_column. rewrite Hn, Hf, Hix, lookup_empty, Hdb. cbn [default].
  replace ((dtype =? 1) || (dtype =? 3)) with true by (destruct Hd; by subst).
  rewrite (scan_int_spec t i c0 (name, Texts [cells]) cells) by done. cbn [mbind mprog_mbind mprog_bind]. rewrite Hk, Hp.
  eexists (fun v => MDone (replaceValue t i (int_to_string v) [abnormal_rows 0 cells] false [] false)). split; [done|].
  intros R HR. by rewrite (replaceValue_spec t i name cells R Hi Hr HR), (set_column_fill t i name cells R Hnd Hi).
Qed.

Lemma fill_fst R t : fst <$> (filled_column R <$> mt_cols t) = fst <$> mt_cols t.
Proof.
  rewrite <- list_fmap_compose. apply list_fmap_ext. intros _ [s c] _. unfold filled_column. cbn [compose fst snd].
  destruct (R s); [|done]. by destruct c as [[|? [|]]| |].
Qed.

Lemma mtable_ok_fill p k x t R : mtable_ok p k x t -> mtable_ok p k x (fill_table R t).
Proof.
  intros [Hp Hdb Hix Hk Hn Hnd Hch Hrow]. split; try done; cbn [fill_table mt_cols mt_rows]; rewrite ?fill_fst; try done.
  apply Forall_fmap. eapply Forall_impl; [exact Hch|]. intros [s c] Hc. unfold filled_column. cbn [compose fst snd] in *.
  destruct (R s); [|done]. by destruct c as [[|? [|]]| |].
Qed.

Lemma has_cells_fill t name cells r other : has_cells t name cells -> name <> other -> has_cells (fill_table (only other r) t) name cells.
Proof.
  intros [Hin Hr] Hne. split; [|done]. cbn [fill_table mt_cols]. apply list_elem_of_fmap. exists (name, Texts [cells]).
  split; [|done]. unfold filled_column, only. cbn [fst snd]. by rewrite decide_False.
Qed.

Section Columns.
Context `{L : Aby3Laws} (add_msb : Z -> Z -> bool).
Hypothesis msb_law : forall x y, in_i64 x = true -> in_i64 y = true -> add_msb x y = bool_decide (wrap (x + y) < 0).
Context (k : replace_kind) (x : trip Missing) (cells : str -> trip (list (option str))).

Definition tables_ok (t : trip mtable) : Prop := mtable_ok 0 k (at0 x) (at0 t) /\ mtable_ok 1 k (at1 x) (at1 t) /\ mtable_ok 2 k (at2 x) (at2 t).
(** The parties' parts of the column [name] and its type. *)
Definition joint_column (t : trip mtable) (c : str * Z) : Prop :=
  (c.2 = 1 \/ c.2 = 3) /\ has_cells (at0 t) c.1 (at0 (cells c.1)) /\ has_cells (at1 t) c.1 (at1 (cells c.1)) /\
  has_cells (at2 t) c.1 (at2 (cells c.1)) /\ col_cond k (trip_map vals (cells c.1)).

Lemma columns_run cols : forall n t, NoDup (fst <$> cols) -> tables_ok t -> Forall (joint_column t) cols ->
  exists R, (forall s, is_Some (R s) <-> s ∈ fst <$> cols) /\ (forall s r, R s = Some r -> repl_ok k (trip_map vals (cells s)) r) /\
    mrun3 add_msb n (process_columns (at0 x) cols (at0 t)) (process_columns (at1 x) cols (at1 t)) (process_columns (at2 x) cols (at2 t)) =
      Some ((n + 4 * length cols)%nat, trip_map (fun t => Ret (fill_table R t)) t).
Proof.
  induction cols as [|[name dtype] cols IH]; intros n t Hnd Ht Hcols.
  { exists (fun _ => None). split; [|split; [done|]].
    - intros s. rewrite elem_of_nil. split; [by intros [??]|done].
    - cbn [process_columns mrun3 mret mprog_ret length]. rewrite Nat.mul_0_r, Nat.add_0_r. do 2 f_equal. destruct t as [t0 t1 t2].
      assert (Hid : forall t, fill_table (fun _ => None) t = t).
      { intros [r l]. unfold fill_table. f_equal. cbn [mt_cols]. induction l; simpl; by f_equal. }
      unfold trip_map. cbn [at0 at1 at2]. by rewrite !Hid. }
  apply Forall_cons in Hcols as [(Hd & C0 & C1 & C2 & Hc) Hcols]. cbn [fst snd] in *.
  apply list.NoDup_cons in Hnd as [Hnew Hnd]. destruct Ht as (T0 & T1 & T2).
  assert (Hc' := Hc). destruct Hc' as [Hs _]. cbn [trip_map at0 at1 at2] in Hs.
  assert (A0 := abs_sum_nonneg (vals (at0 (cells name)))). assert (A1 := abs_sum_nonneg (vals (at1 (cells name)))).
  assert (A2 := abs_sum_nonneg (vals (at2 (cells name)))).
  destruct (process_column_prefix 0 k _ _ name dtype _ T0 Hd C0 ltac:(lia)) as (f0 & E0 & F0).
  destruct (process_column_prefix 1 k _ _ name dtype _ T1 Hd C1 ltac:(lia)) as (f1 & E1 & F1).
  destruct (process_column_prefix 2 k _ _ name dtype _ T2 Hd C2 ltac:(lia)) as (f2 & E2 & F2).
  destruct (replacement_run add_msb msb_law k n (trip_map vals (cells name))
    (Trip (abnormal_rows 0 (at0 (cells name))) (abnormal_rows 0 (at1 (cells name))) (abnormal_rows 0 (at2 (cells name)))) Hc)
    as (r & Hr & Hri & Hrun).
  destruct (IH (n + 4)%nat (trip_map (fill_table (only name r)) t)) as (R & HR1 & HR2 & Hrest).
  { done. }
  { split; [|split]; by apply mtable_ok_fill. }
  { apply Forall_forall. intros [s d] Hin. destruct (proj1 (Forall_forall _ _) Hcols _ Hin) as (Q1 & Q2 & Q3 & Q4 & Q5). cbn [fst snd] in *.
    assert (Hne : s <> name) by (intros ->; apply Hnew, list_elem_of_fmap; by exists (name, d)).
    split; [done|]. split_and!; try done; by apply has_cells_fill. }
  exists (first_range (only name r) R). split; [|split].
  - intros s. unfold first_range, only. cbn [fmap list_fmap fst]. rewrite elem_of_cons, <- HR1.
    destruct (decide (s = name)); [split; eauto|]. split; [auto|by intros [?|?]].
  - intros s r'. unfold first_range, only. destruct (decide (s = name)) as [-> |]; [by intros [= <-]|apply HR2].
  - cbn [process_columns]. rewrite E0, E1, E2.
    assert (H1 := mrun3_bind add_msb n _ _ _ _ _ _ _ f0 f1 f2 Hrun). rewrite F0, F1, F2 in H1 by done. cbn [mrun3] in H1.
    etransitivity; [exact (mrun3_bind add_msb n _ _ _ _ _ _ _ _ _ _ H1)|].
    etransitivity; [exact Hrest|]. unfold trip_map. cbn [at0 at1 at2 length]. rewrite !fill_twice. do 2 f_equal. lia.
Qed.

(** C21: missing and abnormal cells are filled with the joint statistic: when the three
    parties request the same integer columns (read as texts, one chunk each, every
    party with a valid number for MAX and MIN, sums within 64 bits), the three
    [execute]s fit together and return 0, and in every party's table each requested
    column becomes an integer column in which every valid number is kept and every
    missing or unreadable cell is the greatest, the least, or the truncated average
    of all valid numbers of the three parties; other columns are unchanged. *)
Theorem missing_values_filled n (t : trip mtable) cols :
  col_and_dtype_ (at0 x) = cols -> col_and_dtype_ (at1 x) = cols -> col_and_dtype_ (at2 x) = cols ->
  NoDup (fst <$> cols) -> tables_ok t -> Forall (joint_column t) cols ->
  exists R, (forall s, is_Some (R s) <-> s ∈ fst <$> cols) /\ (forall s r, R s = Some r -> repl_ok k (trip_map vals (cells s)) r) /\
    mrun3 add_msb n (missing_execute (at0 x) (snd <$> cols) (snd <$> cols) (at0 t)) (missing_execute (at1 x) (snd <$> cols) (snd <$> cols) (at1 t))
      (missing_execute (at2 x) (snd <$> cols) (snd <$> cols) (at2 t)) =
      Some ((n + 4 * length cols)%nat, trip_map (fun t => Ret (0, fill_table R t)) t).
Proof.
  intros X0 X1 X2 Hnd Ht Hcols. destruct (columns_run cols n t Hnd Ht Hcols) as (R & HR1 & HR2 & Hrun).
  exists R. split; [done|]. split; [done|]. unfold missing_execute. rewrite X0, X1, X2.
  rewrite !bool_decide_false by naive_solver. cbn [orb].
  by rewrite (mrun3_bind add_msb n _ _ _ _ _ _ _ _ _ _ Hrun).
Qed.
End Columns.

(** ** A concrete run, and where the code falls short *)

Definition text (s : string) : option str := Some (chars s).
Definition sample_missing (p : Z) (cols : list (str * Z)) : Missing := Miss p cols (fst <$> cols) (chars "MAX") false ∅.
Definition sample_cells (s : str) : trip (list (option str)) :=
  if decide (s = chars "a") then Trip [text "5"; None; text "n/a"] [text "-7"] [text "40"; None]
  else Trip [text "1"; text "2"; text "3"] [None] [text "9"; text "8"].
Definition sample_mtable (l : list (option str)) : mtable := MTab (Z.of_nat (length l)) [(chars "a", Texts [l])].
Definition sample_mtables : trip mtable := trip_map sample_mtable (sample_cells (chars "a")).

Ltac prove_mtable_ok := split; [reflexivity|reflexivity|reflexivity|reflexivity|reflexivity
  |apply (bool_decide_unpack _); vm_compute; exact I|repeat constructor|reflexivity].

Lemma missing_values_filled_witness :
  exists R, (forall s, is_Some (R s) <-> s ∈ [chars "a"]) /\ (forall s r, R s = Some r -> repl_ok ReplMAX (trip_map vals (sample_cells s)) r) /\
    mrun3 (fun x y => bool_decide (wrap (x + y) < 0)) 0
      (missing_execute (sample_missing 0 [(chars "a", 1)]) [1] [1] (at0 sample_mtables))
      (missing_execute (sample_missing 1 [(chars "a", 1)]) [1] [1] (at1 sample_mtables))
      (missing_execute (sample_missing 2 [(chars "a", 1)]) [1] [1] (at2 sample_mtables)) =
      Some (4%nat, trip_map (fun t => Ret (0, fill_table R t)) sample_mtables).
Proof.
  refine (missing_values_filled (fun x y => bool_decide (wrap (x + y) < 0)) _ ReplMAX
    (Trip (sample_missing 0 [(chars "a", 1)]) (sample_missing 1 [(chars "a", 1)]) (sample_missing 2 [(chars "a", 1)])) sample_cells 0
    sample_mtables [(chars "a", 1)] _ _ _ _ _ _).
  - intros. reflexivity.
  - reflexivity.
  - reflexivity.
  - reflexivity.
  - apply (bool_decide_unpack _). vm_compute. exact I.
  - split; [|split]; prove_mtable_ok.
  - apply Forall_cons. split; [|constructor]. split; [left; reflexivity|].
    split; [|split; [|split]]; [split; [apply list_elem_of_here|reflexivity]..|].
    split; [vm_compute; reflexivity|]. split; [vm_compute; reflexivity|].
    split; [|split]; (split; [discriminate|repeat constructor]).
Defined.

(** A party without a valid number brings [LONG_MIN] to the comparison, the
    difference overflows, and [LONG_MIN] wins against positive numbers. *)
Example missing_party_poisons_max :
  let t l := MTab 1 [(chars "a", Texts [l])] in
  let x p := sample_missing p [(chars "a", 1)] in
  mrun3 (fun x y => bool_decide (wrap (x + y) < 0)) 0 (missing_execute (x 0) [1] [1] (t [None]))
    (missing_execute (x 1) [1] [1] (t [text "5"])) (missing_execute (x 2) [1] [1] (t [text "7"])) =
  Some (4%nat, Trip (Ret (0, MTab 1 [(chars "a", Int64s [[LONG_MIN]])])) (Ret (0, MTab 1 [(chars "a", Int64s [[5]])]))
                    (Ret (0, MTab 1 [(chars "a", Int64s [[7]])]))).
Proof. vm_compute. reflexivity. Qed.

(** After the first column of a table of two chunks was replaced, the next integer
    column is scanned in its first chunk only and rebuilding it reads past the
    list of abnormal rows. *)
Example second_column_of_chunked_table :
  let t := MTab 2 [(chars "a", Int64s [[1; 2]]); (chars "b", Texts [[text "3"]; [text "bad"]])] in
  scan_int t 1 false [] = Ret (Scan 3 3 3 [[]], 2) /\ replaceValue t 1 (int_to_string 3) [[]] false [] false = Undef.
Proof. vm_compute. auto. Qed.

(** A replacement for a column of doubles goes through ["%f"] and loses what is
    below a millionth. *)
Example double_replacement_rounded :
  stod (double_to_string (ddiv (d_of_int 1) (d_of_int 10000000))) = Ret d_zero /\
  stod (double_to_string (ddiv (d_of_int (-5)) (d_of_int 4))) = Ret (ddiv (d_of_int (-5)) (d_of_int 4)).
Proof. vm_compute. auto. Qed.
