(* ===== verification/MetaService.v ===== *)
(** * The dataset meta service

    Models [service/dataset/model.{h,cc}] (a dataset's meta data, its schema and
    their JSON form), [service/dataset/meta_service/{grpc,memory}_impl.cc] and
    [localkv/storage_default.cc] (where meta data is kept), and the type numbers of
    [util/arrow_wrapper_util.cc].  The JSON text itself (nlohmann) and the answers
    of the remote service are arguments. *)

From Stdlib Require Import Ascii String ZArith Lia SpecFloat.
From stdpp Require Import base tactics list option gmap strings sorting.
From S2P Require Import Prelude ModArith Machine StrUtil Json Common ExprConfig.

Local Open Scope Z_scope.

(** ** Type numbers *)

(** [MakeArrowDataType]: the number of the type that is made.  The numbers are those
    of [arrow::Type]: 23 is DECIMAL, 24 DECIMAL256 (made as a DECIMAL), and a number
    without a case of its own gives STRING (13). *)
Definition MakeArrowDataType (type : Z) : Z :=
  if decide (type ∈ [1; 2; 3; 4; 5; 6; 7; 8; 9; 10; 11; 12; 13; 14; 16; 17; 18; 19; 20; 23]) then type
  else if type =? 24 then 23 else 13.

Definition sql_type_2_arrow_type_map : list (string * Z) :=
  [("bigint", 9); ("integer", 9); ("tinyint", 2); ("int", 7); ("mediumint", 7); ("smallint", 7); ("float", 11); ("double", 12);
   ("varchar", 13); ("char", 13); ("text", 13); ("binary", 14); ("varbinary", 14); ("blob", 14); ("datetime", 17); ("time", 20);
   ("year", 16); ("timestamp", 13); ("DEFAULT_TYPE", 13)]%string.

Definition to_lower (c : ascii) : ascii :=
  let n := nat_of_ascii c in if decide (65 <= n <= 90)%nat then ascii_of_nat (n + 32) else c.

Definition SqlType2ArrowType (sql_type : str) : Z :=
  match list_find (fun e => chars e.1 = to_lower <$> sql_type) sql_type_2_arrow_type_map with
  | Some (_, e) => e.2
  | None => 13
  end.

(** ** Schemas *)

Abbreviation schema := (list (str * Z)).

(** Conversion of a JSON number to [int]; a [double] is truncated. *)
Definition d_trunc (d : double) : option Z :=
  match d with
  | S754_zero _ => Some 0
  | S754_finite s m e => Some ((if s then -1 else 1) * (if 0 <=? e then Z.pos m * 2 ^ e else Z.pos m / 2 ^ (- e)))
  | _ => None
  end.

Definition json_int (j : json) : res Z :=
  match j with
  | JInt z => Ret ((z + 2 ^ 31) mod 2 ^ 32 - 2 ^ 31)
  | JBool b => Ret (if b then 1 else 0)
  | JNumber d => match d_trunc d with
                 | Some z => if (- 2 ^ 31 <=? z) && (z <? 2 ^ 31) then Ret z else Undef
                 | None => Undef
                 end
  | _ => Throw
  end.

(** Conversion to [uint32_t]. *)
Definition json_uint32 (j : json) : res Z :=
  match j with
  | JInt z => Ret (z mod 2 ^ 32)
  | JBool b => Ret (if b then 1 else 0)
  | JNumber d => match d_trunc d with
                 | Some z => if (0 <=? z) && (z <? 2 ^ 32) then Ret z else Undef
                 | None => Undef
                 end
  | _ => Throw
  end.

(** [items()]: the members of an object; the elements of an array under their
    position; any other value but null under the empty key. *)
Definition items (j : json) : list (str * json) :=
  match j with
  | JObject l => l
  | JArray l => imap (fun i v => (uint_to_string (Z.of_nat i), v)) l
  | JNull => []
  | _ => [([], j)]
  end.

Definition extractFields (j : json) : res (list (str * Z)) :=
  match j with
  | JArray l => mapM (fun e => z ← json_int e.2; Ret (e.1, z)) (concat (items <$> l))
  | _ => Ret []
  end.

Definition FromFields (fields : list (str * Z)) : schema := (fun e => (e.1, MakeArrowDataType e.2)) <$> fields.

(** [TableSchema::toJSON] before it is printed. *)
Definition schema_json (s : schema) : json := JArray ((fun e => JObject [(e.1, JInt e.2)]) <$> s).

(** ** Meta data *)

(** [visibility] is the number of the enumerator, [data_type] likewise (0 is TABLE). *)
Record DatasetMeta : Type := DM {
  dm_id : str;
  data_url : str;
  server_meta : str;
  access_meta : str;
  description : str;
  visibility : Z;
  driver_type : str;
  dm_schema : option schema;
  data_type : Z
}.

Section Text.
Context (dump : json -> str) (parse : str -> option json).

(** The constructor [TableSchema(std::string&)]: every exception leaves the empty
    schema. *)
Definition schema_of_text (text : str) : res schema :=
  match parse text with
  | None => Ret []
  | Some j => match extractFields j with Ret f => Ret (FromFields f) | Throw => Ret [] | Undef => Undef end
  end.

Definition NewDatasetSchema (type : Z) (text : str) : res (option schema) :=
  if type =? 0 then s ← schema_of_text text; Ret (Some s) else Ret None.

(** [DatasetMeta::toJSON]: the document, keys in their order. *)
Definition meta_json (m : DatasetMeta) : res json :=
  s ← or_undef (dm_schema m);
  Ret (JObject [(chars "access_meta", JString (access_meta m)); (chars "data_type", JInt (data_type m)); (chars "data_url", JString (data_url m));
    (chars "description", JString (description m)); (chars "driver_type", JString (driver_type m)); (chars "id", JString (dm_id m));
    (chars "schema", JString (dump (schema_json s))); (chars "server_meta", JString (server_meta m)); (chars "visibility", JInt (visibility m))]).

Definition toJSON (m : DatasetMeta) : res str := j ← meta_json m; Ret (dump j).

(** [oJson[key].get<T>()] of a missing member or one of another type throws. *)
Definition jmember (j : json) (key : string) : res json :=
  match j with
  | JObject l => Ret (default JNull (find_member (chars key) l))
  | JNull => Ret JNull
  | _ => Throw
  end.
Definition jstring (j : json) (key : string) : res str :=
  v ← jmember j key; match v with JString s => Ret s | _ => Throw end.
Definition jint (j : json) (key : string) : res Z := v ← jmember j key; json_int v.
Definition jcontains (j : json) (key : string) : bool :=
  match j with JObject l => bool_decide (is_Some (find_member (chars key) l)) | _ => false end.

(** [DatasetMeta::fromJSON] on the object [m]. *)
Definition fromJSON (m : DatasetMeta) (text : str) : res DatasetMeta :=
  match parse text with
  | None => Throw
  | Some j =>
      id ← jstring j "id";
      url ← jstring j "data_url";
      desc ← jstring j "description";
      ty ← jint j "data_type";
      vis ← jint j "visibility";
      st ← jstring j "schema";
      s ← NewDatasetSchema ty st;
      drv ← jstring j "driver_type";
      srv ← (if jcontains j "server_meta" then jstring j "server_meta" else Ret (server_meta m));
      acc ← (if jcontains j "access_meta" then jstring j "access_meta" else Ret (access_meta m));
      Ret (DM id url srv acc desc vis drv s ty)
  end.

(** [saveAsPublic]: a copy without the access information. *)
Definition saveAsPublic (m : DatasetMeta) : DatasetMeta :=
  DM (dm_id m) (data_url m) (server_meta m) [] (description m) (visibility m) (driver_type m) (dm_schema m) (data_type m).

(** A new object; [junk] stands for the members that are not initialised. *)
Definition new_DatasetMeta (junk : Z * Z) : DatasetMeta := DM [] [] [] [] [] junk.1 [] None junk.2.

(** ** The key-value store and the service in memory *)

Definition PutValue (key value : str) (values : gmap str str) : retcode * gmap str str := (SUCCESS, map_insert key value values).

Definition GetValue (key : str) (values : gmap str str) : option str := values !! key.

(** [GetValue] of several keys: the values found are not stored in the result. *)
Definition GetValues (keys : list str) (values result : gmap str str) : retcode * gmap str str :=
  (if bool_decide (Forall (fun k => is_Some (values !! k)) keys) then SUCCESS else FAIL, result).

Definition Erase (key : str) (values : gmap str str) : retcode * gmap str str := (SUCCESS, delete key values).

(** [GetAll] into a map that may hold entries already. *)
Definition GetAll (values results : gmap str str) : retcode * gmap str str := (SUCCESS, results ∪ values).

Definition memory_PutMeta (m : DatasetMeta) (values : gmap str str) : res (retcode * gmap str str) :=
  text ← toJSON m;
  Ret (SUCCESS, snd (PutValue (dm_id m) text values)).

(** [GetMeta]: the code, and the meta data the handler was called with. *)
Definition memory_GetMeta (junk : Z * Z) (id : str) (handler : DatasetMeta -> retcode) (values : gmap str str) : res (retcode * DatasetMeta) :=
  m ← fromJSON (new_DatasetMeta junk) (default [] (GetValue id values));
  Ret (if decide (handler m = SUCCESS) then SUCCESS else FAIL, m).
End Text.

(** ** The remote service *)

Record MetaInfo : Type := MI {
  mi_id : str;
  mi_driver : str;
  mi_access_info : str;
  mi_address : str;
  mi_visibility : Z;
  mi_data_type : list (str * Z)
}.

Definition MetaToPbMetaInfo (m : DatasetMeta) : res MetaInfo :=
  s ← or_undef (dm_schema m);
  Ret (MI (dm_id m) (driver_type m) (access_meta m) (server_meta m) (if visibility m =? 1 then 1 else 0) s).

(** [PbMetaInfoToMeta] on a new object. *)
Definition PbMetaInfoToMeta (p : MetaInfo) : DatasetMeta :=
  DM (mi_id p) [] (mi_address p) (mi_access_info p) [] (mi_visibility p) (mi_driver p) (Some (FromFields (mi_data_type p))) 0.

(** [do ... while (true)] around a call: [status k] is the outcome of the [k]-th
    call, [None] when the rpc failed; after [retries] more failures it gives up. *)
Fixpoint with_retry {R} (retries k : nat) (status : nat -> option R) : option R :=
  match status k with
  | Some r => Some r
  | None => match retries with O => None | S n => with_retry n (S k) status end
  end.

Definition GRPC_RETRY_MAX_TIMES : nat := 3.

Record DatasetData : Type := DD { available : bool; meta_info : MetaInfo }.
Record GetDatasetResponse : Type := GR { gr_success : bool; data_set : list DatasetData }.

(** [PutMeta]: what is sent, and the code; the answer is whether the service
    accepted it. *)
Definition grpc_PutMeta (m : DatasetMeta) (status : nat -> option bool) : res (retcode * MetaInfo) :=
  p ← MetaToPbMetaInfo m;
  Ret (match with_retry GRPC_RETRY_MAX_TIMES 0 status with Some true => SUCCESS | _ => FAIL end, p).

(** [GetMeta]: the code, and the meta data the handler was called with. *)
Definition grpc_GetMeta (handler : DatasetMeta -> retcode) (status : nat -> option GetDatasetResponse) : retcode * option DatasetMeta :=
  match with_retry GRPC_RETRY_MAX_TIMES 0 status with
  | None => (FAIL, None)
  | Some r =>
      if negb (gr_success r) then (FAIL, None)
      else match data_set r with
           | [] => (SUCCESS, None)
           | d :: _ =>
               if available d then
                 let m := PbMetaInfoToMeta (meta_info d) in
                 (if decide (handler m = SUCCESS) then SUCCESS else FAIL, Some m)
               else (FAIL, None)
           end
  end.

Definition id2tag (l : list (str * str)) : gmap str str := fold_left (fun m e => <[e.1 := e.2]> m) l ∅.

Fixpoint tagged_metas (tags : gmap str str) (l : list DatasetData) : list (DatasetMeta * str) :=
  match l with
  | [] => []
  | d :: l =>
      if available d then
        match tags !! mi_id (meta_info d) with
        | Some tag => (PbMetaInfoToMeta (meta_info d), tag) :: tagged_metas tags l
        | None => tagged_metas tags l
        end
      else tagged_metas tags l
  end.

(** [FindPeerListFromDatasets]: the code, and the list the handler was called with. *)
Definition FindPeerListFromDatasets (datasets_with_tag : list (str * str)) (status : nat -> option GetDatasetResponse)
  : res (retcode * option (list (DatasetMeta * str))) :=
  match datasets_with_tag with
  | [] => Ret (FAIL, None)
  | _ =>
      match with_retry GRPC_RETRY_MAX_TIMES 0 status with
      | None => Ret (FAIL, None)
      | Some r =>
          if negb (gr_success r) then Ret (FAIL, None)
          else
            let meta_list := tagged_metas (id2tag datasets_with_tag) (data_set r) in
            if decide (length datasets_with_tag <> length meta_list) then Throw
            else Ret (SUCCESS, Some meta_list)
      end
  end.

(** [GetAllMetas]: the available ones; on failure the caller's vector stays. *)
Definition GetAllMetas (metas : list DatasetMeta) (status : nat -> option GetDatasetResponse) : retcode * list DatasetMeta :=
  match with_retry GRPC_RETRY_MAX_TIMES 0 status with
  | None => (FAIL, metas)
  | Some r =>
      if negb (gr_success r) then (FAIL, metas)
      else (SUCCESS, (fun d => PbMetaInfoToMeta (meta_info d)) <$> filter (fun d => available d = true) (data_set r))
  end.

(** ** Facts *)

(** A schema whose types the service can make again. *)
Definition schema_ok (s : schema) : Prop := Forall (fun e => MakeArrowDataType e.2 = e.2) s.

Lemma FromFields_ok s : schema_ok s -> FromFields s = s.
Proof. induction 1 as [|[n t] s H _ IH]; [done|]. unfold FromFields in *. rewrite fmap_cons, IH. simpl in *. by rewrite H. Qed.

Lemma made_type_range t : MakeArrowDataType t = t -> 1 <= t <= 23.
Proof.
  unfold MakeArrowDataType. case_decide as H; [intros _; rewrite !elem_of_cons, elem_of_nil in H; lia|].
  destruct (Z.eqb_spec t 24); lia.
Qed.

Lemma extractFields_schema s : schema_ok s -> extractFields (schema_json s) = Ret s.
Proof.
  intros H. unfold schema_json, extractFields. induction H as [|[n t] s Ht _ IH]; [done|].
  rewrite !fmap_cons. cbn [concat items]. cbn [app mapM]. cbn [fst snd json_int].
  assert (Hr := made_type_range _ Ht). simpl in Hr. rewrite Z.mod_small by lia. cbn [mbind res_bind].
  rewrite IH. cbn [mbind res_bind mret res_ret]. do 3 f_equal. lia.
Qed.

(** The meta data a table dataset has. *)
Record table_meta (m : DatasetMeta) : Prop := {
  tm_schema : exists s, dm_schema m = Some s /\ schema_ok s;
  tm_table : data_type m = 0;
  tm_visible : visibility m = 0 \/ visibility m = 1
}.

Section Roundtrip.
Context (dump : json -> str) (parse : str -> option json).

(** The texts of the two documents of [m] are read back. *)
Definition texts_read (m : DatasetMeta) : Prop :=
  (forall s, dm_schema m = Some s -> parse (dump (schema_json s)) = Some (schema_json s)) /\
  (forall j, meta_json dump m = Ret j -> parse (dump j) = Some j).

Lemma toJSON_fromJSON m m0 : table_meta m -> texts_read m ->
  exists text, toJSON dump m = Ret text /\ fromJSON parse m0 text = Ret m.
Proof.
  intros [(s & Hs & Hok) Ht Hv] [H1 H2]. unfold toJSON. assert (Hj : exists j, meta_json dump m = Ret j) by (unfold meta_json; rewrite Hs; eauto).
  destruct Hj as [j Hj]. rewrite Hj. eexists. split; [reflexivity|]. unfold fromJSON. rewrite (H2 j Hj).
  unfold meta_json in Hj. rewrite Hs in Hj. injection Hj as <-. rewrite Ht.
  assert (Hvi : json_int (JInt (visibility m)) = Ret (visibility m)) by (unfold json_int; rewrite Z.mod_small by lia; f_equal; lia).
  match goal with |- context [jstring ?d "id"] => set (doc := d) end.
  change (jstring doc "id") with (Ret (dm_id m)). change (jstring doc "data_url") with (Ret (data_url m)).
  change (jstring doc "description") with (Ret (description m)). change (jint doc "data_type") with (Ret (A := Z) 0).
  change (jint doc "visibility") with (json_int (JInt (visibility m))). rewrite Hvi.
  change (jstring doc "schema") with (Ret (dump (schema_json s))). change (jstring doc "driver_type") with (Ret (driver_type m)).
  change (jcontains doc "server_meta") with true. change (jcontains doc "access_meta") with true.
  change (jstring doc "server_meta") with (Ret (server_meta m)). change (jstring doc "access_meta") with (Ret (access_meta m)).
  cbn [mbind res_bind]. unfold NewDatasetSchema, schema_of_text. rewrite (H1 s Hs), extractFields_schema, FromFields_ok by done. cbn.
  destruct m; simpl in *. by subst.
Qed.

(** a dataset registered with the meta service in memory under an id that is new
    there is found again: [GetMeta] hands the handler the meta data that
    [PutMeta] was given, in every member, schema included, and reports what the
    handler returns. *)
Theorem memory_meta_roundtrip m values junk handler : table_meta m -> texts_read m -> values !! dm_id m = None ->
  exists values', memory_PutMeta dump m values = Ret (SUCCESS, values') /\
    memory_GetMeta parse junk (dm_id m) handler values' = Ret (if decide (handler m = SUCCESS) then SUCCESS else FAIL, m).
Proof.
  intros Hm Ht Hnew. destruct (toJSON_fromJSON m (new_DatasetMeta junk) Hm Ht) as (text & E1 & E2).
  unfold memory_PutMeta, memory_GetMeta, GetValue. rewrite E1. cbn. eexists. split; [reflexivity|].
  rewrite map_insert_fresh, lookup_insert_eq by done. cbn. by rewrite E2.
Qed.

(** Under an id that is there already the old meta data stays, and the code is still
    [SUCCESS]. *)
Lemma memory_put_keeps_old m values old : table_meta m -> values !! dm_id m = Some old -> memory_PutMeta dump m values = Ret (SUCCESS, values).
Proof.
  intros [(s & Hs & _) _ _] Hold. unfold memory_PutMeta, toJSON, meta_json. rewrite Hs. cbn. by rewrite map_insert_present.
Qed.
End Roundtrip.

Definition sample_meta : DatasetMeta :=
  DM (chars "ds") (chars "n:ip:1:0::/tmp/a.csv") (chars "n:ip:1:0:") (chars "/tmp/a.csv") (chars "ds") 1 (chars "CSV")
    (Some [(chars "id", 9); (chars "x", 12)]) 0.

Definition sample_dump (j : json) : str := match j with JArray _ => chars "S" | _ => chars "M" end.
Definition sample_parse_meta (s : str) : option json :=
  if decide (s = chars "S") then Some (schema_json [(chars "id", 9); (chars "x", 12)])
  else match meta_json sample_dump sample_meta with Ret j => Some j | _ => None end.

Lemma sample_table_meta : table_meta sample_meta.
Proof. split; [|done|by right]. eexists. split; [reflexivity|]. repeat constructor. Qed.

Lemma memory_meta_roundtrip_witness : exists values', memory_PutMeta sample_dump sample_meta ∅ = Ret (SUCCESS, values') /\
  memory_GetMeta sample_parse_meta (5, 6) (chars "ds") (fun _ => SUCCESS) values' = Ret (SUCCESS, sample_meta).
Proof.
  refine (memory_meta_roundtrip sample_dump sample_parse_meta sample_meta ∅ (5, 6) (fun _ => SUCCESS) sample_table_meta _ _).
  - split; [intros s [= <-]; reflexivity|intros j [= <-]; vm_compute; reflexivity].
  - reflexivity.
Defined.

(** Sent to the remote service and back, the members the protocol has stay. *)
Lemma pb_roundtrip m p : table_meta m -> MetaToPbMetaInfo m = Ret p ->
  PbMetaInfoToMeta p = DM (dm_id m) [] (server_meta m) (access_meta m) [] (visibility m) (driver_type m) (dm_schema m) 0.
Proof.
  intros [(s & Hs & Hok) _ Hv] E. unfold MetaToPbMetaInfo in E. rewrite Hs in E. injection E as <-.
  unfold PbMetaInfoToMeta. cbn. rewrite FromFields_ok, Hs by done. destruct Hv as [-> | ->]; done.
Qed.

(** The access information goes to the meta server as it is. *)
Lemma access_info_published m p : MetaToPbMetaInfo m = Ret p -> mi_access_info p = access_meta m.
Proof. unfold MetaToPbMetaInfo. destruct (dm_schema m); [|done]. by intros [= <-]. Qed.

(** ** Calls with retries *)

Lemma with_retry_spec {R} n k (status : nat -> option R) :
  match with_retry n k status with
  | Some r => exists i, (k <= i <= k + n)%nat /\ status i = Some r /\ forall j, (k <= j < i)%nat -> status j = None
  | None => forall j, (k <= j <= k + n)%nat -> status j = None
  end.
Proof.
  revert k. induction n as [|n IH]; intros k; simpl; destruct (status k) as [r|] eqn:Ek.
  - exists k. split; [lia|]. split; [done|]. lia.
  - intros j Hj. by replace j with k by lia.
  - exists k. split; [lia|]. split; [done|]. lia.
  - specialize (IH (S k)). destruct (with_retry n (S k) status) as [r|].
    + destruct IH as (i & Hi & Hs & Hbefore). exists i. split; [lia|]. split; [done|]. intros j Hj.
      destruct (decide (j = k)) as [->|]; [done|]. apply Hbefore. lia.
    + intros j Hj. destruct (decide (j = k)) as [->|]; [done|]. apply IH. lia.
Qed.

Definition put_tag (m : gmap str str) (e : str * str) : gmap str str := <[e.1 := e.2]> m.

Lemma put_tags_other (l : list (str * str)) (m : gmap str str) d : d ∉ l.*1 -> fold_left put_tag l m !! d = m !! d.
Proof.
  revert m. induction l as [|[x y] l IH]; intros m Hd; simpl; [done|]. rewrite fmap_cons, not_elem_of_cons in Hd. simpl in Hd.
  rewrite IH by tauto. unfold put_tag. simpl. rewrite lookup_insert_ne by (intros ->; tauto). done.
Qed.

Lemma id2tag_lookup (l : list (str * str)) d t : NoDup l.*1 -> (d, t) ∈ l -> id2tag l !! d = Some t.
Proof.
  change (id2tag l) with (fold_left put_tag l ∅). generalize (∅ : gmap str str).
  induction l as [|[a b] l IH]; intros m Hnd Hin; [by apply elem_of_nil in Hin|].
  rewrite fmap_cons in Hnd. apply list.NoDup_cons in Hnd as [Ha Hnd]. simpl in *. apply elem_of_cons in Hin as [[= <- <-]|Hin]; [|by apply IH].
  rewrite put_tags_other by done. apply lookup_insert_eq.
Qed.

Lemma id2tag_in (l : list (str * str)) d t : id2tag l !! d = Some t -> (d, t) ∈ l.
Proof.
  change (id2tag l) with (fold_left put_tag l ∅). intros H.
  assert (G : forall m : gmap str str, fold_left put_tag l m !! d = Some t -> m !! d = Some t \/ (d, t) ∈ l).
  { clear H. induction l as [|[a b] l IH]; intros m; simpl; [by left|]. intros H%IH. destruct H as [H|H]; [|right; by right].
    unfold put_tag in H. simpl in H. apply lookup_insert_Some in H as [[<- <-]|[_ H]]; [right; left|by left]. }
  destruct (G ∅ H) as [H'|H']; [by rewrite lookup_empty in H'|done].
Qed.

Lemma tagged_all tags l : Forall (fun d => available d = true /\ is_Some (tags !! mi_id (meta_info d))) l ->
  tagged_metas tags l = (fun d => (PbMetaInfoToMeta (meta_info d), default [] (tags !! mi_id (meta_info d)))) <$> l.
Proof.
  induction 1 as [|d l [Ha [t Ht]] _ IH]; [done|]. rewrite fmap_cons. simpl. by rewrite Ha, Ht, IH.
Qed.

Lemma tagged_in tags l m t : (m, t) ∈ tagged_metas tags l ->
  exists d, d ∈ l /\ available d = true /\ m = PbMetaInfoToMeta (meta_info d) /\ tags !! dm_id m = Some t.
Proof.
  induction l as [|d l IH]; simpl; [by intros ?%elem_of_nil|].
  assert (G : (m, t) ∈ tagged_metas tags l -> exists d', d' ∈ d :: l /\ available d' = true /\ m = PbMetaInfoToMeta (meta_info d') /\ tags !! dm_id m = Some t).
  { intros H. destruct (IH H) as (d' & Hd & ?). exists d'. split; [by right|done]. }
  destruct (available d) eqn:Ea; [|done]. destruct (tags !! mi_id (meta_info d)) as [tag|] eqn:Et; [|done].
  intros [[= -> ->]|H]%elem_of_cons; [|by apply G]. exists d. split; [left|]. done.
Qed.

(** looking up the owners of the requested datasets.  The service is asked at most
    four times; when it never answers, or refuses, the handler is not called and
    the code is [FAIL].  When the handler is called, its list has one entry per
    requested dataset, and every entry is an available dataset of the answer with
    a tag the request gave for its id.  When the first answer lists every
    requested dataset once, all available and the ids distinct, the handler is
    called and every requested dataset comes with its own tag. *)
Theorem find_peers_spec ds status :
  ((forall i, (i <= 3)%nat -> status i = None) -> ds <> [] -> FindPeerListFromDatasets ds status = Ret (FAIL, None)) /\
  (forall rc l, FindPeerListFromDatasets ds status = Ret (rc, Some l) -> rc = SUCCESS /\ length l = length ds /\
     forall m t, (m, t) ∈ l -> (dm_id m, t) ∈ ds /\
       exists i r d, (i <= 3)%nat /\ status i = Some r /\ d ∈ data_set r /\ available d = true /\ m = PbMetaInfoToMeta (meta_info d)) /\
  (forall i r, (i <= 3)%nat -> status i = Some r -> (forall j, (j < i)%nat -> status j = None) -> gr_success r = true -> ds <> [] ->
     NoDup ds.*1 -> (fun d => mi_id (meta_info d)) <$> data_set r ≡ₚ ds.*1 -> Forall (fun d => available d = true) (data_set r) ->
     exists l, FindPeerListFromDatasets ds status = Ret (SUCCESS, Some l) /\ length l = length ds /\
       forall d t, (d, t) ∈ ds -> exists m, (m, t) ∈ l /\ dm_id m = d).
Proof.
  assert (Hw := with_retry_spec GRPC_RETRY_MAX_TIMES 0 status). unfold FindPeerListFromDatasets. split; [|split].
  - intros Hno Hne. destruct ds as [|e ds]; [done|]. destruct (with_retry _ 0 status) as [r|]; [|done].
    destruct Hw as (i & Hi & Hs & _). rewrite Hno in Hs by (unfold GRPC_RETRY_MAX_TIMES in Hi; lia). done.
  - intros rc l H. destruct ds as [|e ds]; [done|]. destruct (with_retry _ 0 status) as [r|]; [|done].
    destruct Hw as (i & Hi & Hs & _). destruct (gr_success r); [|done]. cbn [negb] in H. case_decide as Hlen; [done|].
    injection H as <- <-. split; [done|]. split; [by destruct (decide (length (e :: ds) = length (tagged_metas (id2tag (e :: ds)) (data_set r))))|].
    intros m t Hin. apply tagged_in in Hin as (d & Hd & Ha & -> & Ht). split; [by apply id2tag_in|].
    exists i, r, d. unfold GRPC_RETRY_MAX_TIMES in Hi. split; [lia|]. done.
  - intros i r Hi Hs Hbefore Hok Hne Hnd Hperm Hav. destruct (with_retry _ 0 status) as [r'|].
    2: { rewrite Hw in Hs by (unfold GRPC_RETRY_MAX_TIMES; lia). done. }
    destruct Hw as (i' & Hi' & Hs' & Hb'). assert (i' = i) as ->.
    { destruct (Nat.lt_trichotomy i' i) as [Hlt|[->|Hlt]]; [rewrite Hbefore in Hs' by done; done|done|rewrite Hb' in Hs by lia; done]. }
    rewrite Hs in Hs'. injection Hs' as <-. rewrite Hok. cbn [negb].
    assert (Htag : tagged_metas (id2tag ds) (data_set r) =
      (fun d => (PbMetaInfoToMeta (meta_info d), default [] (id2tag ds !! mi_id (meta_info d)))) <$> data_set r).
    { apply tagged_all, Forall_forall. intros d Hd. rewrite Forall_forall in Hav. split; [by apply Hav|].
      assert (Hin : mi_id (meta_info d) ∈ ds.*1) by (rewrite <- Hperm; apply list_elem_of_fmap; by exists d).
      apply list_elem_of_fmap in Hin as ([a b] & -> & Hab). exists b. by apply id2tag_lookup. }
    assert (Hlen : length (tagged_metas (id2tag ds) (data_set r)) = length ds).
    { rewrite Htag, length_fmap. apply Permutation_length in Hperm. rewrite !length_fmap in Hperm. done. }
    exists (tagged_metas (id2tag ds) (data_set r)). split; [|split; [done|]].
    { destruct ds as [|e ds]; [done|]. by rewrite decide_False by (by rewrite Hlen; tauto). }
    intros d t Hdt. assert (Hin : d ∈ ((fun d => mi_id (meta_info d)) <$> data_set r)).
    { rewrite Hperm. apply list_elem_of_fmap. by exists (d, t). }
    apply list_elem_of_fmap in Hin as (x & -> & Hx). exists (PbMetaInfoToMeta (meta_info x)). split; [|done].
    rewrite Htag. apply list_elem_of_fmap. exists x. split; [|done]. by rewrite (id2tag_lookup ds _ t).
Qed.

Definition sample_info_of (id : string) : MetaInfo := MI (chars id) (chars "CSV") [] (chars "n:ip:1:0:") 0 [].

Lemma find_peers_spec_witness : exists l,
  FindPeerListFromDatasets [(chars "d1", chars "Alice"); (chars "d2", chars "Bob")]
    (fun i => if decide (i = 2%nat) then Some (GR true [DD true (sample_info_of "d2"); DD true (sample_info_of "d1")]) else None) =
    Ret (SUCCESS, Some l) /\ length l = 2%nat /\ exists m, (m, chars "Bob") ∈ l /\ dm_id m = chars "d2".
Proof.
  destruct (proj2 (proj2 (find_peers_spec [(chars "d1", chars "Alice"); (chars "d2", chars "Bob")]
    (fun i => if decide (i = 2%nat) then Some (GR true [DD true (sample_info_of "d2"); DD true (sample_info_of "d1")]) else None)))
    2%nat (GR true [DD true (sample_info_of "d2"); DD true (sample_info_of "d1")])) as (l & H1 & H2 & H3).
  - lia.
  - reflexivity.
  - intros j Hj. rewrite decide_False by lia. reflexivity.
  - reflexivity.
  - discriminate.
  - apply (bool_decide_unpack _). vm_compute. exact I.
  - apply Permutation_swap.
  - repeat constructor.
  - exists l. split; [exact H1|]. split; [exact H2|]. apply H3. apply (bool_decide_unpack _). vm_compute. exact I.
Defined.
