(* ===== verification/CsvFile.v ===== *)
(** * CSV files

    Models the text side of [data_store/csv/csv_driver.cc]: the byte order mark, the
    title line that is written and read back, and the raw lines from which a schema
    is inferred.  Arrow's table reader and writer are arguments; the file system is
    a map from paths to contents. *)

From Stdlib Require Import Ascii String ZArith Lia.
From stdpp Require Import base tactics list option gmap strings.
From S2P Require Import Prelude ModArith Machine StrUtil.

Definition kBOM : str := ascii_of_nat <$> [239; 187; 191]%nat.
Definition newline : ascii := ascii_of_nat 10.
Definition carriage : ascii := ascii_of_nat 13.
Definition quotation : ascii := ascii_of_nat 34.
Definition comma : ascii := ","%char.

(** ** The byte order mark *)

(** The loop over the mark; [first] is [i == 0]. *)
Fixpoint skip_bom (first : bool) (bom origin data : str) : res str :=
  match bom with
  | [] => Ret data
  | b :: bom =>
      match data with
      | [] => if first then Ret [] else Throw
      | c :: data => if decide (c = b) then skip_bom false bom origin data else Ret origin
      end
  end.

Definition SkipUTF8BOM (origin_data : str) : res str :=
  match origin_data with [] => Ret [] | _ => skip_bom true kBOM origin_data origin_data end.

(** ** Writing *)

(** [s[s.size() - 1] = c]. *)
Definition set_last (c : ascii) (s : str) : str := take (length s - 1) s ++ [c].

Definition header_text (col_name : list str) : str := set_last newline (kBOM ++ concat ((fun n => n ++ [comma]) <$> col_name)).

Section Write.
(** [ValidateDir], whether a stream on the path opens, and Arrow's text of a table
    with or without the title line ([None] when it fails). *)
Context {T : Type} (ValidateDir writable : str -> bool) (write_csv : bool -> T -> option str) (column_names : T -> list str).

(** A stream that does not open is not noticed. *)
Definition WriteHeader (col_name : list str) (path : str) (fs : gmap str str) : retcode * gmap str str :=
  if negb (ValidateDir path) then (FAIL, fs)
  else if decide (col_name = []) then (SUCCESS, fs)
  else (SUCCESS, if writable path then <[path := header_text col_name]> fs else fs).

Definition WriteContent (t : T) (path : str) (include_header append_flag : bool) (fs : gmap str str) : res (retcode * gmap str str) :=
  if negb (ValidateDir path) then Ret (FAIL, fs)
  else if negb (writable path) then Throw
  else match write_csv include_header t with
       | None => Throw
       | Some s => Ret (SUCCESS, <[path := (if append_flag then default [] (fs !! path) else []) ++ s]> fs)
       end.

Definition WriteImpl (fields_name : list str) (t : T) (path : str) (fs : gmap str str) : res (retcode * gmap str str) :=
  match WriteHeader fields_name path fs with
  | (SUCCESS, fs) =>
      '(r, fs) ← WriteContent t path false true fs;
      Ret (match r with SUCCESS => SUCCESS | _ => FAIL end, fs)
  | (_, fs) => Ret (FAIL, fs)
  end.

(** [WriteImpl] of a table, and [CSVDriver::write]. *)
Definition csv_write (t : T) (path : str) (fs : gmap str str) : res (Z * gmap str str) :=
  '(r, fs) ← WriteImpl (column_names t) t path fs;
  Ret ((match r with SUCCESS => 0 | _ => -1 end)%Z, fs).
End Write.

(** ** Reading *)

(** [std::getline]: the line, and what is left ([None]: the end was reached). *)
Fixpoint getline (s : str) : str * option str :=
  match s with
  | [] => ([], None)
  | c :: s => if decide (c = newline) then ([], Some s) else let '(l, r) := getline s in (c :: l, r)
  end.

Fixpoint read_raw (line_number : nat) (s : option str) : str :=
  match line_number, s with
  | S k, Some s => let '(l, r) := getline s in (if decide (l = []) then [] else l ++ [newline]) ++ read_raw k r
  | _, _ => []
  end.

Definition ReadRawData (path : str) (line_number : nat) (fs : gmap str str) : res str :=
  match fs !! path with None => Throw | Some s => Ret (read_raw line_number (Some s)) end.

(** [std::find] and [erase]: the first occurrence goes. *)
Fixpoint erase_first (c : ascii) (s : str) : str :=
  match s with [] => [] | a :: s => if decide (a = c) then s else a :: erase_first c s end.

Fixpoint trim_start (c : ascii) (s : str) : str :=
  match s with a :: s' => if decide (a = c) then trim_start c s' else s | [] => [] end.

Definition trim_quotes (s : str) : str := reverse (trim_start quotation (reverse (trim_start quotation s))).

(** The last item loses its line end, then the first one its mark. *)
Definition clean_title (names : list str) : res (list str) :=
  let names := match reverse names with l :: r => reverse (erase_first carriage (erase_first newline l) :: r) | [] => [] end in
  match names with
  | [] => Ret []
  | a :: names => a ← SkipUTF8BOM a; Ret (trim_quotes <$> (a :: names))
  end.

Definition GetColumnNames (delimiter : ascii) (path : str) (fs : gmap str str) : res (retcode * list str) :=
  title ← ReadRawData path 1 fs;
  if decide (title = []) then Ret (FAIL, [])
  else names ← clean_title (split_char delimiter title); Ret (SUCCESS, names).

(** ** The lines that are read *)

Lemma getline_spec s : exists l r, getline s = (l, r) /\ (newline ∉ l) /\
  match r with Some r => s = l ++ newline :: r | None => s = l end.
Proof.
  induction s as [|c s IH]; simpl; [by exists [], None; set_solver|].
  case_decide as Hc; [exists [], (Some s); subst; set_solver|].
  destruct IH as (l & r & -> & Hl & Hr). exists (c :: l), r. split; [done|]. split; [set_solver|]. by destruct r; subst.
Qed.

Lemma split_char_free d l : d ∉ l -> split_char d l = [l].
Proof.
  induction l as [|c l IH]; intros H; [done|]. rewrite not_elem_of_cons in H. simpl.
  rewrite decide_False by (intros ->; tauto). by rewrite IH by tauto.
Qed.

Lemma split_char_at d l s : d ∉ l -> split_char d (l ++ d :: s) = l :: split_char d s.
Proof.
  induction l as [|c l IH]; intros H; simpl; [by rewrite decide_True by done|]. rewrite not_elem_of_cons in H.
  rewrite decide_False by (intros ->; tauto). by rewrite IH by tauto.
Qed.

(** What [ReadRawData] keeps: the lines that are not empty, each with a line end. *)
Definition kept_lines (n : nat) (s : str) : str :=
  concat ((fun l => l ++ [newline]) <$> filter (fun l => l <> []) (take n (split_char newline s))).

Lemma read_raw_lines n s : read_raw n (Some s) = kept_lines n s.
Proof.
  revert s. induction n as [|n IH]; intros s; [by destruct (split_char newline s)|]. cbn [read_raw].
  destruct (getline_spec s) as (l & r & -> & Hl & Hs).
  assert (Hsplit : split_char newline s = l :: match r with Some r => split_char newline r | None => [] end).
  { destruct r as [r|]; subst s; [by apply split_char_at|by apply split_char_free]. }
  unfold kept_lines. rewrite Hsplit. cbn [take]. rewrite filter_cons.
  assert (Hrest : read_raw n r = concat ((fun l => l ++ [newline]) <$>
    filter (fun l => l <> []) (take n match r with Some r => split_char newline r | None => [] end))).
  { destruct r as [r|]; [apply IH|]. by destruct n. }
  rewrite Hrest. destruct (decide (l = [])) as [->|Hne].
  - rewrite decide_False by tauto. done.
  - rewrite decide_True by done. by rewrite fmap_cons.
Qed.

(** ** The title line *)

Lemma set_last_snoc c d s : set_last c (s ++ [d]) = s ++ [c].
Proof. unfold set_last. rewrite length_app. simpl. by rewrite Nat.add_sub, take_app_length. Qed.

Lemma split_char_joined d init l : Forall (fun n => d ∉ n) init -> d ∉ l -> split_char d (concat ((fun n => n ++ [d]) <$> init) ++ l) = init ++ [l].
Proof.
  intros Hi Hl. induction Hi as [|n init Hn Hi IH]; [by apply split_char_free|].
  rewrite fmap_cons. simpl. rewrite <- !app_assoc. simpl. by rewrite split_char_at, IH.
Qed.

Lemma erase_first_free c l r : c ∉ l -> erase_first c (l ++ r) = l ++ erase_first c r.
Proof.
  induction l as [|a l IH]; intros H; [done|]. rewrite not_elem_of_cons in H. simpl.
  rewrite decide_False by (intros ->; tauto). by rewrite IH by tauto.
Qed.

(** A name that is not inside quotation marks. *)
Definition unquoted (n : str) : Prop := head n <> Some quotation /\ last n <> Some quotation.

Lemma trim_start_id c s : head s <> Some c -> trim_start c s = s.
Proof. destruct s as [|a s]; [done|]. simpl. intros H. by rewrite decide_False by congruence. Qed.

Lemma trim_quotes_id n : unquoted n -> trim_quotes n = n.
Proof.
  intros [H1 H2]. unfold trim_quotes. rewrite (trim_start_id _ _ H1), trim_start_id; [apply reverse_involutive|].
  by rewrite head_reverse.
Qed.

Lemma skip_bom_mark a : SkipUTF8BOM (kBOM ++ a) = Ret a.
Proof. reflexivity. Qed.

(** The names as they stand in the file: the first one carries the mark. *)
Definition marked (names : list str) : list str := match names with a :: r => (kBOM ++ a) :: r | [] => [] end.

Lemma header_text_lines names init l : marked names = init ++ [l] ->
  header_text names = concat ((fun n => n ++ [comma]) <$> init) ++ l ++ [newline].
Proof.
  intros Hm. unfold header_text. assert (H : kBOM ++ concat ((fun n => n ++ [comma]) <$> names) = concat ((fun n => n ++ [comma]) <$> marked names)).
  { destruct names as [|a r]; [by destruct init|]. cbn [marked]. rewrite !fmap_cons. cbn [concat]. by rewrite <- !app_assoc. }
  rewrite H, Hm, fmap_app, concat_app. cbn [fmap list_fmap concat]. rewrite app_nil_r, !app_assoc. apply set_last_snoc.
Qed.

Lemma clean_title_marked init l : carriage ∉ l -> newline ∉ l -> forall names, marked names = init ++ [l] -> Forall unquoted names ->
  clean_title (init ++ [l ++ [newline]]) = Ret names.
Proof.
  intros Hc Hn names Hm Hq. unfold clean_title. rewrite reverse_snoc, erase_first_free by done.
  cbn [erase_first]. rewrite decide_True by done. rewrite app_nil_r.
  assert (He : erase_first carriage l = l) by (rewrite <- (app_nil_r l) at 1; rewrite erase_first_free by done; apply app_nil_r).
  rewrite He, reverse_cons, reverse_involutive, <- Hm. destruct names as [|a r]; [by destruct init|]. cbn [marked].
  rewrite skip_bom_mark. cbn [mbind res_bind]. f_equal. rewrite <- (list_fmap_id (a :: r)) at 2. apply list_fmap_ext.
  intros i n Hi. apply trim_quotes_id. by apply (Forall_lookup_1 unquoted _ _ _ Hq Hi).
Qed.

Section Title.
Context {T : Type} (ValidateDir writable : str -> bool) (write_csv : bool -> T -> option str).

(** what [WriteImpl] writes is read back: when the path can be written and Arrow
    prints the rows, the write succeeds, the file holds the title line and then the
    rows, no other file changes, and [GetColumnNames] gives back the field names,
    whatever the rows are.  The names may hold anything but commas, line ends and
    enclosing quotation marks (and no carriage return in the last one). *)
Theorem csv_header_roundtrip names t path fs body :
  ValidateDir path = true -> writable path = true -> write_csv false t = Some body ->
  names <> [] -> Forall (fun n => (comma ∉ n) /\ (newline ∉ n) /\ unquoted n) names -> (forall n, last names = Some n -> carriage ∉ n) ->
  exists fs', WriteImpl ValidateDir writable write_csv names t path fs = Ret (SUCCESS, fs') /\
    fs' = <[path := header_text names ++ body]> fs /\ GetColumnNames comma path fs' = Ret (SUCCESS, names).
Proof.
  intros Hv Hw Hb Hne Hnames Hlast. exists (<[path := header_text names ++ body]> fs). split; [|split; [done|]].
  { unfold WriteImpl, WriteHeader, WriteContent. rewrite Hv, Hw, Hb, decide_False by done. cbn.
    by rewrite lookup_insert_eq, insert_insert_eq. }
  assert (Hm : exists init l, marked names = init ++ [l] /\ (carriage ∉ l)).
  { destruct names as [|a r] using rev_ind; [done|]. clear IHr. specialize (Hlast a (last_snoc _ _)).
    destruct r as [|b r]; [exists [], (kBOM ++ a)|exists ((kBOM ++ b) :: r), a]; (split; [done|]); [|done].
    rewrite not_elem_of_app. split; [by apply (bool_decide_unpack _)|done]. }
  destruct Hm as (init & l & Hm & Hcr).
  assert (Hfree : Forall (fun n => (comma ∉ n) /\ (newline ∉ n)) (init ++ [l])).
  { rewrite <- Hm. destruct names as [|a r]; [done|]. inversion_clear Hnames as [|?? (H1 & H2 & _) Hr]. constructor.
    - rewrite !not_elem_of_app. split; (split; [by apply (bool_decide_unpack _)|done]).
    - eapply Forall_impl; [exact Hr|]. by intros ? (? & ? & _). }
  apply Forall_app in Hfree as [Hi [[Hlc Hln] _]%Forall_cons].
  assert (Htitle : read_raw 1 (Some (header_text names ++ body)) = header_text names).
  { rewrite (header_text_lines names init l Hm), read_raw_lines. unfold kept_lines. rewrite <- !app_assoc. cbn [app]. rewrite app_assoc, split_char_at.
    - cbn [take]. rewrite filter_cons, decide_True; 
        [|by intros [Hc ->]%app_nil; destruct init as [|b init]; [destruct names|destruct b]].
      rewrite firstn_O. cbn. by rewrite app_nil_r, <- !app_assoc.
    - rewrite not_elem_of_app. split; [|done]. clear -Hi. induction Hi as [|n init [_ Hn] Hi IH]; [by apply not_elem_of_nil|].
      rewrite fmap_cons. cbn [concat]. rewrite !not_elem_of_app, not_elem_of_cons. split_and!; try done. by apply not_elem_of_nil. }
  unfold GetColumnNames, ReadRawData. rewrite lookup_insert_eq. cbn [mbind res_bind]. rewrite Htitle.
  rewrite decide_False by (unfold header_text, set_last; by destruct (take _ _)).
  rewrite (header_text_lines names init l Hm), split_char_joined.
  - rewrite (clean_title_marked init l Hcr Hln names Hm); [done|]. eapply Forall_impl; [exact Hnames|]. by intros ? (_ & _ & ?).
  - eapply Forall_impl; [exact Hi|]. by intros ? [? _].
  - rewrite not_elem_of_app, not_elem_of_cons. split_and!; try done. by apply not_elem_of_nil.
Qed.
End Title.

Definition sample_rows : str := chars "1" ++ [comma] ++ chars "2" ++ [newline].

Lemma csv_header_roundtrip_witness : exists fs,
  WriteImpl (fun _ => true) (fun _ => true) (fun _ _ => Some sample_rows) [chars "id"; chars "the age"] tt (chars "/d/f.csv") ∅ = Ret (SUCCESS, fs) /\
  GetColumnNames comma (chars "/d/f.csv") fs = Ret (SUCCESS, [chars "id"; chars "the age"]).
Proof.
  destruct (csv_header_roundtrip (fun _ => true) (fun _ => true) (fun _ _ => Some sample_rows) [chars "id"; chars "the age"] tt (chars "/d/f.csv") ∅ sample_rows)
    as (fs & H1 & _ & H2); [done..| | |by exists fs].
  - repeat constructor; try (apply (bool_decide_unpack _); vm_compute; exact I); done.
  - intros n [= <-]. apply (bool_decide_unpack _). vm_compute. exact I.
Defined.

(** A blank line at the start and the file counts as empty. *)
Example csv_leading_blank_line : GetColumnNames comma (chars "f") {[chars "f" := newline :: chars "a,b"]} = Ret (FAIL, []).
Proof. vm_compute. reflexivity. Qed.

(** A first name of one or two characters that begin the mark is refused. *)
Example csv_truncated_mark : SkipUTF8BOM (take 2 kBOM) = Throw.
Proof. vm_compute. reflexivity. Qed.
