(* ===== verification/Config.v ===== *)
(** * The configuration of a node

    Models [common/config/config.{h,cc}] (the structures of the configuration file and
    their [encode] and [decode] functions), [common/config/server_config.{h,cc}] (the
    configuration of the process, read once) and the identity file of a node
    ([VMNodeImpl::GetDeviceInfo] of [node/node_impl.cc], [buf_to_hex_string] of
    [util/util.cc]).  The documents are those of yaml-cpp: [Yaml] names what the code
    calls and [YamlLaws] what it relies on.  Files are a function from their path. *)

From Stdlib Require Import Ascii String ZArith Lia.
From stdpp Require Import base tactics list option strings gmap.
From S2P Require Import Prelude ModArith Machine StrUtil Common CsvFile.

Local Open Scope Z_scope.

(** ** Documents *)

(** [YAML::Node]: [y_get] is [node[key]] where it is defined, the conversions are
    [None] where [as] throws. *)
Class Yaml := {
  yaml : Type;
  y_null : yaml;
  y_set : str -> yaml -> yaml -> yaml;
  y_get : str -> yaml -> option yaml;
  y_elements : yaml -> list yaml;
  of_string : str -> yaml;
  of_bool : bool -> yaml;
  of_int : Z -> yaml;
  of_seq : list yaml -> yaml;
  as_string : yaml -> option str;
  as_bool : yaml -> option bool;
  as_int32 : yaml -> option Z;
  as_uint32 : yaml -> option Z;
}.

Class YamlLaws (Y : Yaml) : Prop := {
  get_null k : y_get k y_null = None;
  get_set k v n : y_get k (y_set k v n) = Some v;
  get_set_ne k k' v n : k' <> k -> y_get k' (y_set k v n) = y_get k' n;
  as_of_string s : as_string (of_string s) = Some s;
  as_of_bool b : as_bool (of_bool b) = Some b;
  as_of_int32 z : - 2 ^ 31 <= z < 2 ^ 31 -> as_int32 (of_int z) = Some z;
  as_of_uint32 z : 0 <= z < 2 ^ 32 -> as_uint32 (of_int z) = Some z;
  elements_of_seq l : y_elements (of_seq l) = l;
}.

(** ** The structures *)

Record DBInfo := DBI { db_name : str; table_name : str }.
Record ConfigDataset := CDS { ds_description : str; ds_model : str; ds_source : str; ds_db_info : DBInfo }.
Record LocalKV := LKV { lkv_model : str; lkv_path : str }.
Record P2P := P2p { bootstrap_nodes : list str; multi_addr : str; dht_get_value_timeout : Z }.
Record RedisConfig := Redis { use_redis : bool; redis_addr : str; redis_password : str }.
Record CertificateConfig := Cert {
  root_ca_content_ : str; key_content_ : str; cert_content_ : str; root_ca_path_ : str; key_path_ : str; cert_path_ : str }.
Record ServerInfo := SI { si_mode : str; host_info : Node }.
Record Tee := TeeC { tee_executor : bool; sgx_enable : bool; ra_server_addr : str; tee_cert_path : str }.
Record NodeConfig := NC {
  server_config : Node; meta_service_config : ServerInfo; cert_config : CertificateConfig; cfg_datasets : list ConfigDataset;
  notify_server : str; tee_conf : Tee; proxy_server_cfg : ServerInfo; storage_path : str; disable_report : bool }.

Definition empty_db : DBInfo := DBI [] [].
Definition empty_cert : CertificateConfig := Cert [] [] [] [] [] [].
Definition empty_server : ServerInfo := SI [] default_node.
Definition empty_tee : Tee := TeeC false false [] [].
Definition empty_config : NodeConfig := NC default_node empty_server empty_cert [] [] empty_tee empty_server [] false.

(** ** Encoding and decoding *)

Section Convert.
Context `{Y : Yaml}.

Abbreviation k_ x := (chars x%string).

Definition need {A} (o : option A) : res A := match o with Some a => Ret a | None => Throw end.
(** [node[key].as<T>()]. *)
Definition field {A} (key : str) (conv : yaml -> option A) (n : yaml) : res A := need (y_get key n ≫= conv).

Definition encode_redis (c : RedisConfig) : yaml :=
  y_set (k_ "redis_password") (of_string (redis_password c))
    (y_set (k_ "use_redis") (of_bool (use_redis c)) (y_set (k_ "redis_addr") (of_string (redis_addr c)) y_null)).
Definition decode_redis (n : yaml) : res RedisConfig :=
  a ← field (k_ "redis_addr") as_string n;
  p ← field (k_ "redis_password") as_string n;
  u ← field (k_ "use_redis") as_bool n;
  Ret (Redis u a p).

(** [getFileContents]: a file that cannot be opened gives no characters, and success. *)
Definition getFileContents (files : str -> option str) (fpath : str) : retcode * str := (SUCCESS, default [] (files fpath)).

Definition initCertificateConfig (files : str -> option str) (c : CertificateConfig) : retcode * CertificateConfig :=
  let '(ret, ca) := getFileContents files (root_ca_path_ c) in
  let c := Cert ca (key_content_ c) (cert_content_ c) (root_ca_path_ c) (key_path_ c) (cert_path_ c) in
  if decide (ret <> SUCCESS) then (FAIL, c)
  else
    let '(ret, key) := getFileContents files (key_path_ c) in
    let c := Cert (root_ca_content_ c) key (cert_content_ c) (root_ca_path_ c) (key_path_ c) (cert_path_ c) in
    if decide (ret <> SUCCESS) then (FAIL, c)
    else
      let '(ret, cert) := getFileContents files (cert_path_ c) in
      let c := Cert (root_ca_content_ c) (key_content_ c) cert (root_ca_path_ c) (key_path_ c) (cert_path_ c) in
      if decide (ret <> SUCCESS) then (FAIL, c) else (SUCCESS, c).

Definition encode_cert (c : CertificateConfig) : yaml :=
  y_set (k_ "cert") (of_string (cert_path_ c)) (y_set (k_ "key") (of_string (key_path_ c)) (y_set (k_ "root_ca") (of_string (root_ca_path_ c)) y_null)).
(** A [decode] that returns false makes [as] throw. *)
Definition decode_cert (files : str -> option str) (n : yaml) : res CertificateConfig :=
  r ← field (k_ "root_ca") as_string n;
  k ← field (k_ "key") as_string n;
  c ← field (k_ "cert") as_string n;
  let '(ret, cfg) := initCertificateConfig files (Cert [] [] [] r k c) in
  if decide (ret <> SUCCESS) then Throw else Ret cfg.

Definition encode_db (d : DBInfo) : yaml :=
  y_set (k_ "table_name") (of_string (table_name d)) (y_set (k_ "db_name") (of_string (db_name d)) y_null).
Definition decode_db (n : yaml) : res DBInfo :=
  d ← field (k_ "db_name") as_string n; t ← field (k_ "table_name") as_string n; Ret (DBI d t).

Definition encode_dataset (d : ConfigDataset) : yaml :=
  let n := y_set (k_ "source") (of_string (ds_source d)) (y_set (k_ "model") (of_string (ds_model d)) (y_set (k_ "description") (of_string (ds_description d)) y_null)) in
  if decide (ds_model d = k_ "sqlite") then y_set (k_ "db_info") (encode_db (ds_db_info d)) n else n.
Definition decode_dataset (n : yaml) : res ConfigDataset :=
  d ← field (k_ "description") as_string n;
  m ← field (k_ "model") as_string n;
  s ← field (k_ "source") as_string n;
  if decide (m = k_ "sqlite") then
    db ← need (y_get (k_ "db_info") n); i ← decode_db db; Ret (CDS d m s i)
  else Ret (CDS d m s empty_db).

Definition encode_lkv (l : LocalKV) : yaml := y_set (k_ "path") (of_string (lkv_path l)) (y_set (k_ "model") (of_string (lkv_model l)) y_null).
Definition decode_lkv (n : yaml) : res LocalKV :=
  m ← field (k_ "model") as_string n; p ← field (k_ "path") as_string n; Ret (LKV m p).

Fixpoint all_strings (l : list yaml) : res (list str) :=
  match l with
  | [] => Ret []
  | n :: l => s ← need (as_string n); ss ← all_strings l; Ret (s :: ss)
  end.
Definition encode_p2p (p : P2P) : yaml :=
  y_set (k_ "bootstrap_nodes") (of_seq (of_string <$> bootstrap_nodes p)) (y_set (k_ "multi_addr") (of_string (multi_addr p)) y_null).
(** Iterating over an undefined node gives nothing. *)
Definition decode_p2p (n : yaml) : res P2P :=
  b ← all_strings (match y_get (k_ "bootstrap_nodes") n with Some v => y_elements v | None => [] end);
  m ← field (k_ "multi_addr") as_string n;
  Ret (P2p b m 20).

Definition encode_server (s : ServerInfo) : yaml :=
  y_set (k_ "mode") (of_string (si_mode s)) (y_set (k_ "use_tls") (of_bool (use_tls_ (host_info s)))
    (y_set (k_ "port") (of_int (port_ (host_info s))) (y_set (k_ "ip") (of_string (ip_ (host_info s))) y_null))).
(** The port is read as a signed integer and stored in an unsigned one. *)
Definition decode_server (n : yaml) : res ServerInfo :=
  m ← field (k_ "mode") as_string n;
  i ← field (k_ "ip") as_string n;
  p ← field (k_ "port") as_int32 n;
  t ← field (k_ "use_tls") as_bool n;
  Ret (SI m (Nd [] i (p mod 2 ^ 32) t [])).

Definition encode_tee (t : Tee) : yaml :=
  y_set (k_ "cert_path") (of_string (tee_cert_path t)) (y_set (k_ "sgx_enable") (of_bool (sgx_enable t))
    (y_set (k_ "executor") (of_bool (tee_executor t)) (y_set (k_ "ra_server_addr") (of_string (ra_server_addr t)) y_null))).
Definition decode_tee (n : yaml) : res Tee :=
  r ← field (k_ "ra_server_addr") as_string n;
  e ← field (k_ "executor") as_bool n;
  s ← field (k_ "sgx_enable") as_bool n;
  c ← field (k_ "cert_path") as_string n;
  Ret (TeeC e s r c).

Definition encode_config (c : NodeConfig) : yaml :=
  let s := server_config c in
  y_set (k_ "storage_path") (of_string (storage_path c)) (y_set (k_ "tee") (encode_tee (tee_conf c))
    (y_set (k_ "use_tls") (of_bool (use_tls_ s)) (y_set (k_ "grpc_port") (of_int (port_ s))
      (y_set (k_ "location") (of_string (ip_ s)) (y_set (k_ "node") (of_string (id_ s)) y_null))))).

(** [if (node[key]) field = node[key].as<T>()]; [keep] is the field's default. *)
Definition optional {A} (key : str) (conv : yaml -> res A) (keep : A) (n : yaml) : res A :=
  match y_get key n with Some v => conv v | None => Ret keep end.

Definition decode_config (files : str -> option str) (n : yaml) : res NodeConfig :=
  id ← field (k_ "node") as_string n;
  ip ← field (k_ "location") as_string n;
  port ← field (k_ "grpc_port") as_uint32 n;
  report ← optional (k_ "disable_report") (fun v => need (as_bool v)) false n;
  path ← optional (k_ "storage_path") (fun v => need (as_string v)) [] n;
  tls ← optional (k_ "use_tls") (fun v => need (as_bool v)) false n;
  cert ← optional (k_ "certificate") (decode_cert files) empty_cert n;
  meta ← optional (k_ "meta_service") decode_server empty_server n;
  proxy ← optional (k_ "proxy_server") decode_server empty_server n;
  tee ← optional (k_ "tee") decode_tee empty_tee n;
  Ret (NC (Nd id ip port tls []) meta cert [] [] tee proxy path report).
End Convert.

(** ** The configuration of the process *)

Record ServerConfig := SC { is_init_flag : bool; config_ : NodeConfig; config_file_ : str }.
Definition fresh_config : ServerConfig := SC false empty_config [].

Section Server.
Context `{Y : Yaml}.
(** [YAML::LoadFile]: [None] where it throws. *)
Variable load_file : str -> option yaml.
Variable files : str -> option str.

Definition initServerConfig (config_file : str) (c : ServerConfig) : retcode * ServerConfig :=
  if is_init_flag c then (SUCCESS, c)
  else
    match (root ← need (load_file config_file); decode_config files root) with
    | Ret cfg => (SUCCESS, SC true cfg config_file)
    | _ => (FAIL, SC false (config_ c) config_file)
    end.

Fixpoint init_all (paths : list str) (c : ServerConfig) : list retcode * ServerConfig :=
  match paths with
  | [] => ([], c)
  | p :: paths => let '(r, c) := initServerConfig p c in let '(rs, c) := init_all paths c in (r :: rs, c)
  end.
End Server.

(** ** Round trips *)

Section RoundTrips.
Context `{L : YamlLaws}.

(** Look a key up in an encoded document. *)
Ltac look_up := unfold field, optional, need; repeat first [rewrite get_set | rewrite get_set_ne by done | rewrite get_null];
  cbn [mbind option_bind res_bind]; rewrite ?as_of_string, ?as_of_bool; cbn [mbind option_bind res_bind].

Lemma redis_roundtrip c : decode_redis (encode_redis c) = Ret c.
Proof. unfold decode_redis, encode_redis. look_up. by destruct c. Qed.

Lemma db_roundtrip d : decode_db (encode_db d) = Ret d.
Proof. unfold decode_db, encode_db. look_up. by destruct d. Qed.

(** Only an sqlite data set keeps its table. *)
Lemma dataset_roundtrip d :
  decode_dataset (encode_dataset d) = Ret (if decide (ds_model d = chars "sqlite") then d else CDS (ds_description d) (ds_model d) (ds_source d) empty_db).
Proof.
  unfold decode_dataset, encode_dataset. destruct (decide (ds_model d = chars "sqlite")); look_up.
  - rewrite decide_True by done. rewrite db_roundtrip. by destruct d.
  - by rewrite decide_False by done.
Qed.

Lemma lkv_roundtrip l : decode_lkv (encode_lkv l) = Ret l.
Proof. unfold decode_lkv, encode_lkv. look_up. by destruct l. Qed.

Lemma all_strings_of l : all_strings (of_string <$> l) = Ret l.
Proof. induction l as [|s l IH]; [done|]. cbn. rewrite as_of_string. cbn. by rewrite IH. Qed.

(** The timeout is not written. *)
Lemma p2p_roundtrip p : decode_p2p (encode_p2p p) = Ret (P2p (bootstrap_nodes p) (multi_addr p) 20).
Proof. unfold decode_p2p, encode_p2p. look_up. rewrite elements_of_seq, all_strings_of. by look_up. Qed.

Lemma tee_roundtrip t : decode_tee (encode_tee t) = Ret t.
Proof. unfold decode_tee, encode_tee. look_up. by destruct t. Qed.

Lemma server_roundtrip s : 0 <= port_ (host_info s) < 2 ^ 31 ->
  decode_server (encode_server s) = Ret (SI (si_mode s) (Nd [] (ip_ (host_info s)) (port_ (host_info s)) (use_tls_ (host_info s)) [])).
Proof. intros Hp. unfold decode_server, encode_server. look_up. rewrite as_of_int32 by lia. look_up. rewrite Z.mod_small by lia. done. Qed.

(** What survives: the certificate, the meta service, the proxy and the report
    switch are not written. *)
Definition written (c : NodeConfig) : NodeConfig :=
  let s := server_config c in NC (Nd (id_ s) (ip_ s) (port_ s) (use_tls_ s) []) empty_server empty_cert [] [] (tee_conf c) empty_server (storage_path c) false.

Lemma config_roundtrip files c : 0 <= port_ (server_config c) < 2 ^ 32 -> decode_config files (encode_config c) = Ret (written c).
Proof. intros Hp. unfold decode_config, encode_config. look_up. rewrite as_of_uint32 by done. look_up. rewrite tee_roundtrip. done. Qed.

(** Files that do not exist are taken for empty ones: a certificate section is refused
    only when a path is missing from it. *)
Lemma certificate_unchecked files n c : decode_cert files n = Ret c ->
  root_ca_content_ c = default [] (files (root_ca_path_ c)) /\ key_content_ c = default [] (files (key_path_ c)) /\
  cert_content_ c = default [] (files (cert_path_ c)).
Proof.
  unfold decode_cert, initCertificateConfig, getFileContents. destruct (field (chars "root_ca") as_string n) as [r| |]; try done. cbn [mbind res_bind].
  destruct (field (chars "key") as_string n) as [k| |]; try done. cbn [mbind res_bind]. destruct (field (chars "cert") as_string n) as [x| |]; try done. cbn [mbind res_bind].
  repeat (case_decide; try done). intros Hc. by injection Hc as <-.
Qed.

Lemma missing_certificates_accepted r k x :
  decode_cert (fun _ => None) (encode_cert (Cert [] [] [] r k x)) = Ret (Cert [] [] [] r k x).
Proof. unfold decode_cert, encode_cert. by look_up. Qed.

(** *** Reading the configuration *)

Variable load_file : str -> option yaml.
Variable files : str -> option str.

(** The configuration in a file, if it has a valid one. *)
Definition readable (p : str) : option NodeConfig :=
  match (root ← need (load_file p); decode_config files root) with Ret c => Some c | _ => None end.

Lemma init_unreadable p c : is_init_flag c = false -> readable p = None -> initServerConfig load_file files p c = (FAIL, SC false (config_ c) p).
Proof using. unfold readable, initServerConfig. intros ->. by destruct (_ ≫= _). Qed.

Lemma init_readable p c x : is_init_flag c = false -> readable p = Some x -> initServerConfig load_file files p c = (SUCCESS, SC true x p).
Proof using. unfold readable, initServerConfig. intros ->. by destruct (_ ≫= _) as [y| |]; intros [= <-]. Qed.

Lemma init_done paths c : is_init_flag c = true -> init_all load_file files paths c = (replicate (length paths) SUCCESS, c).
Proof using. intros H. induction paths as [|p paths IH]; [done|]. cbn. unfold initServerConfig at 1. rewrite H, IH. done. Qed.

(** The first file with a valid configuration decides, once and for all. *)
Lemma init_all_first bad p x rest c : is_init_flag c = false -> Forall (fun q => readable q = None) bad -> readable p = Some x ->
  init_all load_file files (bad ++ p :: rest) c = (replicate (length bad) FAIL ++ replicate (S (length rest)) SUCCESS, SC true x p).
Proof using.
  intros Hc Hb Hp. revert c Hc. induction Hb as [|q bad Hq Hb IH]; intros c Hc; cbn [app init_all].
  - rewrite (init_readable p c x Hc Hp), init_done by done. done.
  - rewrite init_unreadable by done. rewrite IH by done. done.
Qed.

(** A configuration that was written is what the process runs with, whatever files
    are named later. *)
Theorem config_file_decides bad p c rest : 0 <= port_ (server_config c) < 2 ^ 32 -> load_file p = Some (encode_config c) ->
  Forall (fun q => readable q = None) bad ->
  init_all load_file files (bad ++ p :: rest) fresh_config = (replicate (length bad) FAIL ++ replicate (S (length rest)) SUCCESS, SC true (written c) p).
Proof using L.
  intros Hc Hp Hb. apply init_all_first; [done|done|]. unfold readable. rewrite Hp. cbn [need mbind res_bind]. by rewrite config_roundtrip.
Qed.
End RoundTrips.

(** *** A concrete document *)

#[warnings="-register-all"]
Inductive doc : Type := DNull | DStr (s : str) | DBool (b : bool) | DInt (z : Z) | DSeq (l : list doc) | DMap (m : list (str * doc)).

Fixpoint doc_lookup (k : str) (m : list (str * doc)) : option doc :=
  match m with [] => None | (k', v) :: m => if decide (k = k') then Some v else doc_lookup k m end.

#[export] Instance doc_yaml : Yaml := {
  yaml := doc;
  y_null := DNull;
  y_set k v n := DMap ((k, v) :: match n with DMap m => m | _ => [] end);
  y_get k n := match n with DMap m => doc_lookup k m | _ => None end;
  y_elements n := match n with DSeq l => l | _ => [] end;
  of_string := DStr;
  of_bool := DBool;
  of_int := DInt;
  of_seq := DSeq;
  as_string n := match n with DStr s => Some s | _ => None end;
  as_bool n := match n with DBool b => Some b | _ => None end;
  as_int32 n := match n with DInt z => if decide (- 2 ^ 31 <= z < 2 ^ 31) then Some z else None | _ => None end;
  as_uint32 n := match n with DInt z => if decide (0 <= z < 2 ^ 32) then Some z else None | _ => None end;
}.

#[export] Instance doc_yaml_laws : YamlLaws doc_yaml.
Proof.
  split; try done.
  - intros k v n. cbn. by rewrite decide_True.
  - intros k k' v n H. cbn. rewrite decide_False by done. by destruct n.
  - intros z H. cbn [of_int as_int32 doc_yaml]. by rewrite decide_True.
  - intros z H. cbn [of_int as_uint32 doc_yaml]. by rewrite decide_True.
Qed.

Definition sample_node_config : NodeConfig := NC (Nd (chars "node0") (chars "127.0.0.1") 50050 true []) empty_server empty_cert [] [] (TeeC true false (chars "ra") []) empty_server (chars "/data") true.

Lemma config_file_decides_witness :
  init_all (fun p => if decide (p = chars "n.yaml") then Some (encode_config sample_node_config) else None) (fun _ => None) [chars "x"; chars "n.yaml"; chars "y"] fresh_config =
    ([FAIL; SUCCESS; SUCCESS], SC true (written sample_node_config) (chars "n.yaml")).
Proof.
  apply (config_file_decides (fun p => if decide (p = chars "n.yaml") then Some (encode_config sample_node_config) else None) (fun _ => None) [chars "x"] (chars "n.yaml") sample_node_config [chars "y"]).
  - cbn. lia.
  - reflexivity.
  - repeat constructor.
Defined.

(** ** The identity of a device *)

(** The two lower-case digits of a byte. *)
Definition hex_digit (n : nat) : ascii := nth n (chars "0123456789abcdef") "0"%char.
Definition hex_byte (c : ascii) : str := let n := nat_of_ascii c in [hex_digit (n / 16); hex_digit (n mod 16)].
Definition buf_to_hex_string (pdata : str) : str := pdata ≫= hex_byte.

(** [GetDeviceInfo]: the id kept in a file named after the node, or a new one.  [md5] is
    the digest, [uuid] the generated id, [writable] whether the file can be opened for
    writing, [fs] the files. *)
Definition device_file (md5 : str -> str) (node_info : Node) : str :=
  CompletePath (chars "./config") (chars ".device_" ++ buf_to_hex_string (md5 (node_to_string node_info))).
Definition store_id (writable : bool) (path device_id : str) (fs : gmap str str) : gmap str str :=
  if writable then <[path := device_id ++ [newline]]> fs else fs.
Definition GetDeviceInfo (md5 : str -> str) (uuid : str) (writable : bool) (node_info : Node) (fs : gmap str str) : str * str * gmap str str :=
  let file_path := device_file md5 node_info in
  match fs !! file_path with
  | None => (uuid, id_ node_info, store_id writable file_path uuid fs)
  | Some content =>
      let device_id := (getline content).1 in
      if decide (device_id = []) then (uuid, id_ node_info, store_id writable file_path uuid fs)
      else (device_id, id_ node_info, fs)
  end.

Lemma hex_digit_inj a b : (a < 16)%nat -> (b < 16)%nat -> hex_digit a = hex_digit b -> a = b.
Proof.
  assert (H : forallb (fun a => forallb (fun b => implb (bool_decide (hex_digit a = hex_digit b)) (a =? b)%nat) (seq 0 16)) (seq 0 16) = true) by (vm_compute; reflexivity).
  intros Ha Hb Heq. rewrite forallb_forall in H. specialize (H a ltac:(apply in_seq; lia)). rewrite forallb_forall in H. specialize (H b ltac:(apply in_seq; lia)).
  rewrite bool_decide_eq_true_2 in H by done. by apply Nat.eqb_eq.
Qed.

Lemma hex_byte_inj c d : hex_byte c = hex_byte d -> c = d.
Proof.
  unfold hex_byte. cbv zeta. intros H. apply (f_equal (fun l => (hd "0"%char l, hd "0"%char (tl l)))) in H. cbn [hd tl] in H. apply pair_equal_spec in H as [H1 H2]. pose proof (nat_ascii_bounded c). pose proof (nat_ascii_bounded d).
  apply hex_digit_inj in H1; [|by apply Nat.Div0.div_lt_upper_bound..]. apply hex_digit_inj in H2; [|apply Nat.mod_upper_bound; lia..].
  rewrite <- (ascii_nat_embedding c), <- (ascii_nat_embedding d). f_equal.
  rewrite (Nat.div_mod_eq (nat_of_ascii c) 16), (Nat.div_mod_eq (nat_of_ascii d) 16). congruence.
Qed.

(** The text of a digest determines it. *)
Lemma hex_string_inj a b : buf_to_hex_string a = buf_to_hex_string b -> a = b.
Proof.
  unfold buf_to_hex_string. revert b. induction a as [|c a IH]; intros [|d b]; [done|done|done|]. rewrite !bind_cons.
  change (hex_byte c ++ (a ≫= hex_byte) = hex_byte d ++ (b ≫= hex_byte) -> c :: a = d :: b). intros H.
  apply app_inj_1 in H as [Hc Hr]; [|done]. f_equal; [by apply hex_byte_inj|by apply IH].
Qed.

Lemma getline_first l rest : newline ∉ l -> (getline (l ++ newline :: rest)).1 = l.
Proof.
  induction l as [|c l IH]; intros H; cbn [app getline]; [by rewrite decide_True|]. apply not_elem_of_cons in H as [Hc Hl].
  rewrite decide_False by congruence. specialize (IH Hl). destruct (getline _) as [x r]. cbn in *. congruence.
Qed.

Lemma stored_id_read md5 uuid writable node_info fs content : fs !! device_file md5 node_info = Some content -> (getline content).1 <> [] ->
  GetDeviceInfo md5 uuid writable node_info fs = ((getline content).1, id_ node_info, fs).
Proof. intros H Hne. unfold GetDeviceInfo. by rewrite H, decide_False. Qed.

(** A device keeps its id: once it could be written, every later call gives it and
    leaves the files alone. *)
Lemma device_id_kept md5 uuid node_info fs id name fs' uuid' writable' : uuid <> [] -> newline ∉ uuid ->
  GetDeviceInfo md5 uuid true node_info fs = (id, name, fs') -> GetDeviceInfo md5 uuid' writable' node_info fs' = (id, name, fs').
Proof.
  intros Hne Hnl H. assert (exists content, fs' !! device_file md5 node_info = Some content /\ (getline content).1 = id /\ id <> [] /\ name = id_ node_info) as (c & Hc & <- & Hid & ->).
  { unfold GetDeviceInfo, store_id in H. destruct (fs !! device_file md5 node_info) as [content|] eqn:E; [case_decide|]; injection H as <- <- <-.
    - eexists. rewrite lookup_insert_eq. split; [reflexivity|]. by rewrite (getline_first uuid []).
    - by exists content.
    - eexists. rewrite lookup_insert_eq. split; [reflexivity|]. by rewrite (getline_first uuid []). }
  by apply stored_id_read.
Qed.

(** Two nodes whose digests differ use different files. *)
Lemma device_files_differ md5 a b : md5 (node_to_string a) <> md5 (node_to_string b) -> device_file md5 a <> device_file md5 b.
Proof.
  intros H Heq. apply H, hex_string_inj. unfold device_file, CompletePath in Heq. cbn in Heq. by injection Heq.
Qed.
