(* ===== verification/DataStore.v ===== *)
(** * Data drivers

    Models [data_store/driver.cc], [data_store/factory.h] and the CSV, SQLite, MySQL
    and image drivers: access information with its texts, cursors, and the tables
    they read.  Printing and parsing of JSON, Arrow's CSV reader and the database
    engines are arguments; a YAML node is what yaml-cpp answers to the calls. *)

From Stdlib Require Import Ascii String ZArith Lia Floats.SpecFloat.
From stdpp Require Import base tactics list option gmap strings.
From S2P Require Import Prelude ModArith Machine StrUtil Json Common MetaService CsvFile.

Local Open Scope Z_scope.

(** [try ... catch (std::exception&)]: undefined behaviour is not caught. *)
Definition try_catch {A} (body handler : res A) : res A := match body with Throw => handler | _ => body end.

(** ** Arrow arrays from texts *)

Definition f_prec : Z := 24.
Definition f_emax : Z := 128.

(** [m / 10 ^ k] as a [float]. *)
Definition f_of_decimal (sgn : bool) (m : Z) (k : Z) : spec_float :=
  if m =? 0 then S754_zero sgn
  else
    let '(mz, ez, lz) := SFdiv_core_binary f_prec f_emax (m * 10 ^ Z.max 0 (- k)) 0 (10 ^ Z.max 0 k) 0 in
    binary_round_aux f_prec f_emax sgn mz ez lz.

(** [std::stof] on decimal numerals. *)
Definition stof (s : str) : res spec_float :=
  let '(neg, s) := take_sign (skip_space s) in
  let '(m, n, s) := take_digits 0 0 s in
  let '(m, nf, s) :=
    match s with
    | c :: s' => if decide (c = "."%char) then take_digits m 0 s' else (m, O, s)
    | [] => (m, O, [])
    end in
  if decide (n + nf = 0)%nat then Throw
  else
    let d := f_of_decimal neg m (Z.of_nat nf - take_exponent s) in
    match d with
    | S754_infinity _ | S754_nan => Throw
    | S754_zero _ => if m =? 0 then Ret d else Throw
    | S754_finite _ mx _ => if Z.pos mx <? 2 ^ 23 then Throw else Ret d
    end.

(** A [float] as a [double]. *)
Definition d_of_float (f : spec_float) : double :=
  match f with
  | S754_finite s m e => binary_normalize d_prec d_emax (if s then Z.neg m else Z.pos m) e s
  | _ => f
  end.

Inductive arrow_array :=
| Int32Array (l : list Z)
| Int64Array (l : list Z)
| FloatArray (l : list spec_float)
| DoubleArray (l : list double)
| StringArray (l : list str).

(** A conversion that throws leaves the initial value. *)
Definition or_initial {A} (x : A) (r : res A) : A := match r with Ret v => v | _ => x end.

Definition Int32ArrowArrayBuilder (arr : list str) : arrow_array := Int32Array ((fun s => or_initial 0 (stoi s)) <$> arr).
Definition Int64ArrowArrayBuilder (arr : list str) : arrow_array := Int64Array ((fun s => or_initial 0 (stoi s)) <$> arr).
Definition FloatArrowArrayBuilder (arr : list str) : arrow_array := FloatArray ((fun s => or_initial (S754_zero false) (stof s)) <$> arr).
Definition DoubleArrowArrayBuilder (arr : list str) : arrow_array := DoubleArray ((fun s => d_of_float (or_initial (S754_zero false) (stof s))) <$> arr).
Definition StringArrowArrayBuilder (arr : list str) : arrow_array := StringArray arr.

Definition MakeArrowArray (field_type : Z) (arr : list str) : arrow_array :=
  if decide (field_type ∈ [9; 8]) then Int64ArrowArrayBuilder arr
  else if decide (field_type ∈ [7; 5; 3; 6; 4; 2]) then Int32ArrowArrayBuilder arr
  else if field_type =? 11 then FloatArrowArrayBuilder arr
  else if field_type =? 12 then DoubleArrowArrayBuilder arr
  else StringArrowArrayBuilder arr.

(** [arrow::Table]. *)
Record arrow_table : Type := ATable { at_schema : schema; at_columns : list arrow_array }.

(** ** Access information *)

(** [DatasetMetaInfo]. *)
Record DatasetMetaInfo : Type := DMI { info_id : str; info_driver : str; info_access : str; info_schema : list (str * Z) }.

Record MySQLAccessInfo : Type := MySQL {
  my_ip : str; my_port : Z; user_name : str; password : str; database : str; db_name : str; table_name : str; db_url : str; query_colums : list str
}.

(** The members of the four kinds. *)
Inductive access_members :=
| CSVAccess (file_path : str)
| SQLiteAccess (db_path tab_name : str)
| MySQLAccess (c : MySQLAccessInfo)
| ImageAccess (image_dir annotations_file : str).

Record DataSetAccessInfo : Type := Access { ai_schema : list (str * Z); arrow_schema : option schema; members : access_members }.

Definition set_members (i : DataSetAccessInfo) (c : access_members) : DataSetAccessInfo := Access (ai_schema i) (arrow_schema i) c.

(** [MakeArrowSchema] after the fields are in place. *)
Definition with_fields (i : DataSetAccessInfo) (fields : list (str * Z)) : DataSetAccessInfo := Access fields (Some (FromFields fields)) (members i).

Definition SetDatasetSchema (fields : list (str * Z)) (i : DataSetAccessInfo) : DataSetAccessInfo :=
  if decide (ai_schema i <> []) then i else with_fields i fields.

(** A range-based [for] over a JSON value. *)
Definition elements (j : json) : list json :=
  match j with JArray l => l | JObject l => l.*2 | JNull => [] | _ => [j] end.

(** [ParseSchema]: the fields read before a failure stay. *)
Fixpoint push_fields (l : list (str * json)) (acc : list (str * Z)) : res (retcode * list (str * Z)) :=
  match l with
  | [] => Ret (SUCCESS, acc)
  | (k, v) :: l => match json_int v with Ret z => push_fields l (acc ++ [(k, z)]) | Throw => Ret (FAIL, acc) | Undef => Undef end
  end.

Definition ParseSchema (js : json) (i : DataSetAccessInfo) : res (retcode * DataSetAccessInfo) :=
  if decide (ai_schema i <> []) then Ret (SUCCESS, i)
  else
    '(r, fields) ← push_fields (concat (items <$> elements js)) [];
    Ret (match r with SUCCESS => (SUCCESS, with_fields i fields) | r => (r, Access fields (arrow_schema i) (members i)) end).

(** What yaml-cpp answers for the entry of a dataset: the text or number of a member
    ([None]: the conversion throws), whether it is there, and the fields of the
    schema, when there is one. *)
Record yaml_entry : Type := Yaml {
  y_text : string -> option str;
  y_uint : string -> option Z;
  y_present : string -> bool;
  y_schema : option (list (option (str * Z)))
}.

Fixpoint yaml_fields (l : list (option (str * Z))) (acc : list (str * Z)) : retcode * list (str * Z) :=
  match l with
  | [] => (SUCCESS, acc)
  | Some f :: l => yaml_fields l (acc ++ [f])
  | None :: _ => (FAIL, acc)
  end.

Definition ParseSchema_yaml (l : list (option (str * Z))) (i : DataSetAccessInfo) : retcode * DataSetAccessInfo :=
  if decide (ai_schema i <> []) then (SUCCESS, i)
  else match yaml_fields l [] with
       | (SUCCESS, fields) => (SUCCESS, with_fields i fields)
       | (r, fields) => (r, Access fields (arrow_schema i) (members i))
       end.

(** [operator[]] of a constant value: a missing key is an assertion. *)
Definition cmember (j : json) (key : string) : res json :=
  match j with JObject l => or_undef (find_member (chars key) l) | _ => Throw end.
Definition as_text (j : json) : res str := match j with JString s => Ret s | _ => Throw end.
Definition cstring (j : json) (key : string) : res str := v ← cmember j key; as_text v.
Definition cuint32 (j : json) (key : string) : res Z := v ← cmember j key; json_uint32 v.

Definition kDriveType (c : access_members) : str :=
  match c with
  | CSVAccess _ => chars "CSV" | SQLiteAccess _ _ => chars "SQLITE" | MySQLAccess _ => chars "MYSQL" | ImageAccess _ _ => chars "IMAGE"
  end.

Section Text.
Context (dump : json -> str) (parse : str -> option json).

Definition parse_json (s : str) : res json := match parse s with Some j => Ret j | None => Throw end.

Definition SchemaToJsonString (i : DataSetAccessInfo) : str := match arrow_schema i with None => [] | Some s => dump (schema_json s) end.

(** [toString] of the four kinds before it is printed, the keys in their order. *)
Definition type_member (c : access_members) : str * json := (chars "type", JString (kDriveType c)).

Definition csv_json (i : DataSetAccessInfo) (path : str) : list (str * json) :=
  [(chars "data_path", JString path); (chars "schema", JString (SchemaToJsonString i)); type_member (members i)].
Definition sqlite_json (i : DataSetAccessInfo) (path tab : str) : list (str * json) :=
  [(chars "db_path", JString path); (chars "tableName", JString tab); type_member (members i)].
Definition mysql_json (i : DataSetAccessInfo) (c : MySQLAccessInfo) : list (str * json) :=
  [(chars "database", JString (database c)); (chars "dbName", JString (db_name c)); (chars "dbUrl", JString (db_url c));
   (chars "host", JString (my_ip c)); (chars "password", JString (password c)); (chars "port", JInt (my_port c))] ++
  (if decide (query_colums c = []) then [] else [(chars "query_index", JString (concat ((fun q => q ++ chars ",") <$> query_colums c)))]) ++
  [(chars "schema", JString (SchemaToJsonString i)); (chars "tableName", JString (table_name c)); type_member (members i);
   (chars "username", JString (user_name c))].
Definition image_json (i : DataSetAccessInfo) (dir file : str) : list (str * json) :=
  [(chars "annotations_file", JString file); (chars "image_dir", JString dir); type_member (members i)].

Definition access_json (i : DataSetAccessInfo) : json :=
  JObject match members i with
  | CSVAccess path => csv_json i path
  | SQLiteAccess path tab => sqlite_json i path tab
  | MySQLAccess c => mysql_json i c
  | ImageAccess dir file => image_json i dir file
  end.

Definition toString (i : DataSetAccessInfo) : str := dump (access_json i).

Definition opt_text (j : json) (key : string) (old : str) : res str := if jcontains j key then cstring j key else Ret old.

(** [ParseFromJsonImpl] of the four kinds. *)
Definition csv_ParseFromJson (j : json) : res access_members :=
  try_catch
    (text ← cstring j "access_meta"; js ← parse_json text; path ← jstring js "data_path"; Ret (CSVAccess path))
    (path ← cstring j "access_meta"; if decide (path = []) then Throw else Ret (CSVAccess path)).
Definition sqlite_ParseFromJson (j : json) : res access_members :=
  path ← cstring j "db_path"; tab ← cstring j "tableName"; Ret (SQLiteAccess path tab).
Definition mysql_ParseFromJson (c : MySQLAccessInfo) (j : json) : res access_members :=
  ip ← cstring j "host"; port ← cuint32 j "port"; user ← cstring j "username"; pw ← cstring j "password";
  base ← opt_text j "database" (database c);
  name ← cstring j "dbName"; tab ← cstring j "tableName";
  url ← opt_text j "dbUrl" (db_url c);
  Ret (MySQLAccess (MySQL ip port user pw base name tab url [])).
Definition image_ParseFromJson (c : access_members) (j : json) : res (retcode * access_members) :=
  try_catch (dir ← cstring j "image_dir"; file ← cstring j "annotations_file"; Ret (SUCCESS, ImageAccess dir file)) (Ret (FAIL, c)).

Definition with_success {A} (r : res A) : res (retcode * A) := a ← r; Ret (SUCCESS, a).

Definition ParseFromJsonImpl (c : access_members) (j : json) : res (retcode * access_members) :=
  match c with
  | CSVAccess _ => with_success (csv_ParseFromJson j)
  | SQLiteAccess _ _ => with_success (sqlite_ParseFromJson j)
  | MySQLAccess m => with_success (mysql_ParseFromJson m j)
  | ImageAccess _ _ => image_ParseFromJson c j
  end.

(** [CSVAccessInfo::fromJsonString] takes a text it cannot read for a path. *)
Definition csv_fromJsonString (text : str) (i : DataSetAccessInfo) : res (retcode * DataSetAccessInfo) :=
  let read_schema :=
    j ← parse_json text;
    if jcontains j "schema" then (t ← jstring j "schema"; js ← parse_json t; '(r, i) ← ParseSchema js i; Ret (j, r, i))
    else Ret (j, SUCCESS, i) in
  match read_schema with
  | Undef => Undef
  | Throw => Ret (SUCCESS, set_members i (CSVAccess text))
  | Ret (j, r, i) => try_catch ('(r', c) ← ParseFromJsonImpl (members i) j; Ret (r', set_members i c)) (Ret (r, set_members i (CSVAccess text)))
  end.

Definition base_fromJsonString (text : str) (i : DataSetAccessInfo) : res (retcode * DataSetAccessInfo) :=
  try_catch
    (j ← parse_json text;
     '(_, i) ← (if jcontains j "schema" then (t ← jstring j "schema"; js ← parse_json t; ParseSchema js i) else Ret (SUCCESS, i));
     t ← jstring j "access_meta"; js ← parse_json t;
     '(r, c) ← ParseFromJsonImpl (members i) js; Ret (r, set_members i c))
    (Ret (FAIL, i)).

Definition fromJsonString (text : str) (i : DataSetAccessInfo) : res (retcode * DataSetAccessInfo) :=
  match members i with CSVAccess _ => csv_fromJsonString text i | _ => base_fromJsonString text i end.

Definition yaml_text (y : yaml_entry) (key : string) : res str := match y_text y key with Some s => Ret s | None => Throw end.

Definition csv_ParseFromYaml (y : yaml_entry) : res access_members := path ← yaml_text y "source"; Ret (CSVAccess path).
Definition sqlite_ParseFromYaml (c : access_members) (y : yaml_entry) : res (retcode * access_members) :=
  try_catch (path ← yaml_text y "source"; tab ← yaml_text y "table_name"; Ret (SUCCESS, SQLiteAccess path tab)) (Ret (FAIL, c)).
Definition mysql_ParseFromYaml (c : MySQLAccessInfo) (y : yaml_entry) : res access_members :=
  ip ← yaml_text y "host"; port ← match y_uint y "port" with Some p => Ret p | None => Throw end;
  user ← yaml_text y "username"; pw ← yaml_text y "password";
  base ← (if y_present y "database" then yaml_text y "database" else Ret (database c));
  name ← yaml_text y "dbName"; tab ← yaml_text y "tableName";
  url ← (if y_present y "dbUrl" then yaml_text y "dbUrl" else Ret (db_url c));
  Ret (MySQLAccess (MySQL ip port user pw base name tab url (query_colums c))).
Definition image_ParseFromYaml (y : yaml_entry) : res access_members :=
  dir ← yaml_text y "image_dir"; file ← yaml_text y "annotations_file"; Ret (ImageAccess dir file).

Definition ParseFromYamlConfigImpl (c : access_members) (y : yaml_entry) : res (retcode * access_members) :=
  match c with
  | CSVAccess _ => with_success (csv_ParseFromYaml y)
  | SQLiteAccess _ _ => sqlite_ParseFromYaml c y
  | MySQLAccess m => with_success (mysql_ParseFromYaml m y)
  | ImageAccess _ _ => with_success (image_ParseFromYaml y)
  end.

Definition fromYamlConfig (y : yaml_entry) (i : DataSetAccessInfo) : res (retcode * DataSetAccessInfo) :=
  let i := match y_schema y with Some l => snd (ParseSchema_yaml l i) | None => i end in
  try_catch ('(r, c) ← ParseFromYamlConfigImpl (members i) y; Ret (r, set_members i c)) (Ret (FAIL, i)).

(** [ParseFromMetaInfoImpl] of the four kinds; [is_file] says whether a path can be
    opened. *)
Definition csv_ParseFromMetaInfo (is_file : str -> bool) (c : access_members) (text : str) : res access_members :=
  if decide (text = []) then Ret c
  else try_catch (j ← parse_json text; path ← jstring j "data_path"; Ret (CSVAccess path)) (if is_file text then Ret (CSVAccess text) else Throw).
Definition sqlite_ParseFromMetaInfo (c : access_members) (text : str) : res (retcode * access_members) :=
  if decide (text = []) then Ret (SUCCESS, c) else try_catch (j ← parse_json text; ParseFromJsonImpl c j) (Ret (FAIL, c)).
Definition mysql_ParseFromMetaInfo (c : access_members) (text : str) : res (retcode * access_members) :=
  if decide (text = []) then Ret (SUCCESS, c) else j ← parse_json text; ParseFromJsonImpl c j.
Definition image_ParseFromMetaInfo (c : access_members) (text : str) : res (retcode * access_members) :=
  try_catch (j ← parse_json text; ParseFromJsonImpl c j) (Ret (FAIL, c)).

Definition ParseFromMetaInfoImpl (is_file : str -> bool) (info : DatasetMetaInfo) (c : access_members) : res (retcode * access_members) :=
  match c with
  | CSVAccess _ => with_success (csv_ParseFromMetaInfo is_file c (info_access info))
  | SQLiteAccess _ _ => sqlite_ParseFromMetaInfo c (info_access info)
  | MySQLAccess _ => mysql_ParseFromMetaInfo c (info_access info)
  | ImageAccess _ _ => image_ParseFromMetaInfo c (info_access info)
  end.

Definition FromMetaInfo (is_file : str -> bool) (info : DatasetMetaInfo) (i : DataSetAccessInfo) : res (retcode * DataSetAccessInfo) :=
  let i := if decide (info_schema info = []) then i else with_fields i (ai_schema i ++ info_schema info) in
  '(r, c) ← ParseFromMetaInfoImpl is_file info (members i); Ret (r, set_members i c).

(** ** The factory *)

Definition to_upper (c : ascii) : ascii :=
  let n := nat_of_ascii c in if decide (97 <= n <= 122)%nat then ascii_of_nat (n - 32) else c.
Definition strToUpper (s : str) : str := to_upper <$> s.

(** [mysql] says whether the build enables the MySQL driver. *)
Definition createAccessInfoInternal (mysql : bool) (driver_type : str) : res DataSetAccessInfo :=
  let t := strToUpper driver_type in
  c ← (if decide (t = chars "CSV") then Ret (CSVAccess [])
       else if decide (t = chars "SQLITE") then Ret (SQLiteAccess [] [])
       else if decide (t = chars "MYSQL") then (if mysql then Ret (MySQLAccess (MySQL [] 0 [] [] [] [] [] [] [])) else Throw)
       else if decide (t = chars "IMAGE") then Ret (ImageAccess [] [])
       else Throw);
  Ret (Access [] None c).

Definition raise_on_fail {A} (r : retcode * A) : res A := match r with (FAIL, _) => Throw | (_, a) => Ret a end.

Definition createAccessInfo_json (mysql : bool) (driver_type meta_info : str) : res DataSetAccessInfo :=
  i ← createAccessInfoInternal mysql driver_type; r ← fromJsonString meta_info i; raise_on_fail r.
Definition createAccessInfo_yaml (mysql : bool) (driver_type : str) (y : yaml_entry) : res DataSetAccessInfo :=
  i ← createAccessInfoInternal mysql driver_type; r ← fromYamlConfig y i; raise_on_fail r.
Definition createAccessInfo (mysql : bool) (is_file : str -> bool) (driver_type : str) (info : DatasetMetaInfo) : res DataSetAccessInfo :=
  i ← createAccessInfoInternal mysql driver_type; r ← FromMetaInfo is_file info i; raise_on_fail r.
End Text.
