(* ===== verification/Drivers.v ===== *)
(** * Cursors

    Models the drivers and cursors of [data_store/csv], [data_store/sqlite],
    [data_store/mysql] and [data_store/image]: which table a driver reads, and what
    it asks the engine for. *)

From Stdlib Require Import Ascii String ZArith Lia Floats.SpecFloat.
From stdpp Require Import base tactics list option gmap strings.
From S2P Require Import Prelude ModArith Machine StrUtil Json Common MetaService CsvFile DataStore.

Local Open Scope Z_scope.

(** Arrow's [ReadOptions] and [ConvertOptions] as far as they are set. *)
Record CsvOptions : Type := CsvOpt { skip_rows : Z; opt_column_names : list str; include_columns : list str; column_types : gmap str Z }.
Definition default_options : CsvOptions := CsvOpt 0 [] [] ∅.

Inductive DriverType := CSVDriver | SQLiteDriver | MySQLDriver | ImageDriver.

(** A driver: [drv_url] is [filePath_] or [conn_info_]; [connected] whether the
    driver itself holds an open database. *)
Record DataDriver : Type := Driver {
  drv_type : DriverType; nodelet_address : str; access_info : option DataSetAccessInfo; drv_url : str; connected : bool
}.

Definition set_access_info (d : DataDriver) (i : DataSetAccessInfo) : DataDriver := Driver (drv_type d) (nodelet_address d) (Some i) (drv_url d) (connected d).
Definition set_url (d : DataDriver) (u : str) : DataDriver := Driver (drv_type d) (nodelet_address d) (access_info d) u (connected d).
Definition set_connected (d : DataDriver) : DataDriver := Driver (drv_type d) (nodelet_address d) (access_info d) (drv_url d) true.

Definition getDriverType (d : DataDriver) : str :=
  chars match drv_type d with CSVDriver => "CSV" | SQLiteDriver => "SQLITE" | MySQLDriver => "MYSQL" | ImageDriver => "IMAGE" end.

(** [getDataURL]. *)
Definition getDataURL (d : DataDriver) : str := match drv_type d with ImageDriver => [] | _ => drv_url d end.

(** [DataDirverFactory::getDriver]. *)
Definition getDriver (mysql : bool) (name addr : str) (i : option DataSetAccessInfo) : res DataDriver :=
  let t := strToUpper name in
  k ← (if decide (t = chars "CSV") then Ret CSVDriver
       else if decide (t = chars "SQLITE") then Ret SQLiteDriver
       else if decide (t = chars "MYSQL") then (if mysql then Ret MySQLDriver else Throw)
       else if decide (t = chars "IMAGE") then Ret ImageDriver
       else Throw);
  Ret (Driver k addr i [] false).

Inductive cursor :=
| CSVCursor (path : str) (selected : list Z)
| SQLiteCursor (sql : str) (selected : list Z)
| MySQLCursor (sql : str) (selected : list Z)
| ImageCursor.

(** The four [dynamic_cast]s. *)
Definition csv_access (d : DataDriver) : option (DataSetAccessInfo * str) :=
  i ← access_info d; match members i with CSVAccess p => Some (i, p) | _ => None end.
Definition sqlite_access (d : DataDriver) : option (DataSetAccessInfo * (str * str)) :=
  i ← access_info d; match members i with SQLiteAccess p t => Some (i, (p, t)) | _ => None end.
Definition mysql_access (d : DataDriver) : option (DataSetAccessInfo * MySQLAccessInfo) :=
  i ← access_info d; match members i with MySQLAccess c => Some (i, c) | _ => None end.

(** [schema[index]] after the check [index < size] on [int]s: a negative index is not
    refused.  [unsigned] is the check on [size_t]. *)
Definition field_at {A} (unsigned : bool) (fields : list A) (index : Z) : res A :=
  if Z.of_nat (length fields) <=? index then Throw
  else if index <? 0 then (if unsigned then Throw else Undef)
  else or_undef (fields !! Z.to_nat index).

Definition all_columns (i : DataSetAccessInfo) : list Z := Z.of_nat <$> seq 0 (length (ai_schema i)).

(** ["SELECT "], the quoted names and the table; the last comma becomes a blank. *)
Definition select_sql (names : list str) (from : string) (table : str) : str :=
  set_last " "%char (chars "SELECT " ++ concat ((fun n => chars "`" ++ n ++ chars "`,") <$> names)) ++ chars from ++ table.

Section Engines.
Context (fs : gmap str str) (read_csv : CsvOptions -> str -> option arrow_table).
Context (sqlite_open : str -> bool) (sqlite_exec : str -> str -> option (list (list str))).
Context (mysql_connect : MySQLAccessInfo -> bool) (mysql_exec : MySQLAccessInfo -> str -> option (nat * list (list str))).

(** ** CSV *)

Definition read_table (o : CsvOptions) (content : str) : res arrow_table := match read_csv o content with Some t => Ret t | None => Throw end.

Definition initCursor (d : DataDriver) (path : str) : cursor * DataDriver := (CSVCursor path [], set_url d path).

(** [CSVDriver::read]: without a schema, it is inferred from the first lines. *)
Definition csv_read (d : DataDriver) : res (option cursor * DataDriver) :=
  match csv_access d with
  | None => Throw
  | Some (i, path) =>
      if decide (ai_schema i <> []) then let '(c, d) := initCursor d path in Ret (Some c, d)
      else
        '(r, names) ← GetColumnNames comma path fs;
        if decide (r <> SUCCESS) then Ret (None, d)
        else
          content ← ReadRawData path 100 fs;
          t ← read_table (CsvOpt 1 names [] ∅) content;
          let '(c, d) := initCursor (set_access_info d (SetDatasetSchema (at_schema t) i)) path in
          Ret (Some c, d)
  end.

Definition csv_GetCursor (d : DataDriver) (cols : list Z) : res (option cursor * DataDriver) :=
  match csv_access d with
  | None => Throw
  | Some (_, path) => Ret (Some (CSVCursor path cols), set_url d path)
  end.

Definition add_fields (fields : schema) (o : CsvOptions) : CsvOptions :=
  CsvOpt (skip_rows o) (opt_column_names o) (include_columns o ++ fields.*1) (fold_left (fun m f => <[f.1 := f.2]> m) fields (column_types o)).

(** [BuildConvertOptions] and [MakeCsvOptions]. *)
Definition MakeCsvOptions (d : DataDriver) (selected : list Z) (data_schema : option schema) : res CsvOptions :=
  i ← or_undef (access_info d);
  s ← or_undef (arrow_schema i);
  let o := CsvOpt 1 s.*1 [] ∅ in
  match data_schema with
  | Some ds => Ret (add_fields ds o)
  | None =>
      if decide (ai_schema i = []) then Throw
      else if decide (selected = []) then Ret (add_fields s o)
      else fields ← mapM (field_at false s) selected; Ret (add_fields fields o)
  end.

Definition file_text (path : str) : res str := match fs !! path with Some s => Ret s | None => Throw end.

Definition csv_cursor_read (d : DataDriver) (path : str) (selected : list Z) (data_schema : option schema) : res arrow_table :=
  o ← MakeCsvOptions d selected data_schema; s ← file_text path; read_table o s.

Definition csv_cursor_readMeta (d : DataDriver) (path : str) (selected : list Z) : res arrow_table :=
  o ← MakeCsvOptions d selected None; s ← ReadRawData path 100 fs; read_table o s.

(** ** SQLite *)

Definition sqlite_rows (path sql : str) : res (list (list str)) := match sqlite_exec path sql with Some r => Ret r | None => Throw end.

(** A result row of the schema query: the name and the type are columns 1 and 2. *)
Definition column_info (row : list str) : res (str * str) :=
  match row with _ :: name :: ty :: _ => Ret (name, ty) | _ => Throw end.

Definition sql_schema_json (cols : list (str * str)) : json := JArray ((fun c => JObject [(c.1, JInt (SqlType2ArrowType c.2))]) <$> cols).

Definition GetDBTableSchema (path tab : str) (i : DataSetAccessInfo) : res DataSetAccessInfo :=
  rows ← sqlite_rows path (chars "PRAGMA table_info(" ++ tab ++ chars ")");
  cols ← mapM column_info rows;
  '(_, i) ← ParseSchema (sql_schema_json cols) i;
  Ret i.

Definition sqlite_read (d : DataDriver) : res (option cursor * DataDriver) :=
  match sqlite_access d with
  | None => Ret (None, d)
  | Some (i, (path, tab)) =>
      if negb (connected d || sqlite_open path) then Throw
      else
        i ← (if decide (ai_schema i = []) then GetDBTableSchema path tab i else Ret i);
        if decide (ai_schema i = []) then Throw
        else Ret (Some (SQLiteCursor (select_sql (ai_schema i).*1 "FROM " tab) (all_columns i)), set_connected (set_access_info d i))
  end.

(** [GetCursor(col_index)] does not open the database. *)
Definition sqlite_GetCursor (d : DataDriver) (cols : list Z) : res (option cursor * DataDriver) :=
  match sqlite_access d with
  | None => Ret (None, d)
  | Some (i, (_, tab)) =>
      fields ← mapM (field_at false (ai_schema i)) cols;
      Ret (Some (SQLiteCursor (select_sql fields.*1 " FROM " tab) cols), d)
  end.

(** The texts of the rows, column by column; [n] columns have room. *)
Fixpoint push_row (row : list str) (acc : list (list str)) : res (list (list str)) :=
  match row, acc with
  | [], _ => Ret acc
  | v :: row, c :: acc => acc ← push_row row acc; Ret ((c ++ [v]) :: acc)
  | _ :: _, [] => Undef
  end.
Fixpoint push_rows (rows : list (list str)) (acc : list (list str)) : res (list (list str)) :=
  match rows with [] => Ret acc | r :: rows => acc ← push_row r acc; push_rows rows acc end.

Definition sqlite_readInternal (d : DataDriver) (selected : list Z) (sql : str) : res arrow_table :=
  if negb (connected d) then Throw
  else
    i ← or_undef (access_info d);
    path ← match members i with SQLiteAccess p _ => Ret p | _ => Undef end;
    rows ← sqlite_rows path sql;
    data ← push_rows rows (replicate (length selected) []);
    s ← or_undef (arrow_schema i);
    fields ← mapM (field_at false s) selected;
    Ret (ATable fields (zip_with (fun f => MakeArrowArray f.2) fields data)).

(** ** MySQL *)

Definition mysql_rows (c : MySQLAccessInfo) (sql : str) : res (nat * list (list str)) := match mysql_exec c sql with Some r => Ret r | None => Throw end.

Definition two_texts (row : list str) : res (str * str) := match row with name :: ty :: _ => Ret (name, ty) | _ => Undef end.

Definition schema_sql (db tab : str) : str :=
  chars "SELECT `column_name`, `data_type` FROM information_schema.COLUMNS WHERE TABLE_NAME = '" ++ tab ++
  chars "' and TABLE_SCHEMA = '" ++ db ++ chars "' ORDER BY column_name ASC;".

Definition getTableSchema (c : MySQLAccessInfo) (i : DataSetAccessInfo) : res DataSetAccessInfo :=
  '(n, rows) ← mysql_rows c (schema_sql (db_name c) (table_name c));
  if decide (n <> 2%nat) then Throw
  else cols ← mapM two_texts rows; '(_, i) ← ParseSchema (sql_schema_json cols) i; Ret i.

(** The first part of both [GetCursor]s. *)
Definition mysql_schema (d : DataDriver) (i : DataSetAccessInfo) (c : MySQLAccessInfo) : res (DataSetAccessInfo * DataDriver) :=
  if decide (ai_schema i <> []) then Ret (i, d)
  else if negb (connected d || mysql_connect c) then Throw
  else
    _ ← mysql_rows c (chars "USE " ++ db_name c);
    i ← getTableSchema c i;
    Ret (i, set_connected (set_access_info d i)).

Definition mysql_GetCursor_all (d : DataDriver) : res (option cursor * DataDriver) :=
  match mysql_access d with
  | None => Throw
  | Some (i, c) => '(i, d) ← mysql_schema d i c; Ret (Some (MySQLCursor (select_sql (ai_schema i).*1 " FROM " (table_name c)) (all_columns i)), d)
  end.

Definition mysql_GetCursor (d : DataDriver) (cols : list Z) : res (option cursor * DataDriver) :=
  match mysql_access d with
  | None => Throw
  | Some (i, c) =>
      '(i, d) ← mysql_schema d i c;
      fields ← mapM (field_at true (ai_schema i)) cols;
      Ret (Some (MySQLCursor (select_sql fields.*1 " FROM " (table_name c)) cols), d)
  end.

(** A text of length 0 (and NULL) becomes "NA". *)
Definition fetched (v : str) : str := if decide (v = []) then chars "NA" else v.

Definition fetchData (d : DataDriver) (selected : list Z) (sql : str) (table_schema : schema) : res (list arrow_array) :=
  match mysql_access d with
  | None => Undef
  | Some (_, c) =>
      if negb (mysql_connect c) then Throw
      else if decide (sql = []) then Throw
      else
        '(n, rows) ← mysql_rows c sql;
        if decide (n <> length selected)%nat then Throw
        else
          data ← push_rows (List.map (List.map fetched) rows) (replicate n []);
          mapM (fun e => f ← field_at true table_schema (Z.of_nat e.1); Ret (MakeArrowArray f.2 e.2)) (zip (seq 0 n) data)
  end.

Definition makeArrowSchema (d : DataDriver) (selected : list Z) : res schema :=
  i ← or_undef (access_info d); s ← or_undef (arrow_schema i); mapM (field_at true s) selected.

Definition mysql_cursor_read (d : DataDriver) (selected : list Z) (sql : str) (data_schema : option schema) : res arrow_table :=
  s ← match data_schema with Some s => Ret s | None => makeArrowSchema d selected end;
  cols ← fetchData d selected sql s;
  Ret (ATable s cols).

(** [readMeta]: the types come from the whole schema, by position. *)
Definition mysql_cursor_readMeta (d : DataDriver) (selected : list Z) (sql : str) : res arrow_table :=
  s ← makeArrowSchema d selected;
  i ← or_undef (access_info d); whole ← or_undef (arrow_schema i);
  cols ← fetchData d selected (sql ++ chars " LIMIT 10") whole;
  Ret (ATable s cols).

(** ** Image annotations *)

Definition image_cursor_read (d : DataDriver) : res (option arrow_table) :=
  i ← or_undef (access_info d);
  match members i with
  | ImageAccess _ file => Ret (s ← fs !! file; read_csv default_options s)
  | _ => Undef
  end.

(** ** The virtual functions *)

(** [DataDriver::read()]. *)
Definition drv_read (d : DataDriver) : res (option cursor * DataDriver) :=
  match drv_type d with
  | CSVDriver => csv_read d
  | SQLiteDriver => sqlite_read d
  | MySQLDriver => mysql_GetCursor_all d
  | ImageDriver => Ret (Some ImageCursor, d)
  end.

Definition drv_GetCursor (d : DataDriver) : res (option cursor * DataDriver) :=
  match drv_type d with
  | CSVDriver => csv_read d
  | MySQLDriver => mysql_GetCursor_all d
  | SQLiteDriver | ImageDriver => Ret (None, d)
  end.

Definition drv_GetCursor_cols (d : DataDriver) (cols : list Z) : res (option cursor * DataDriver) :=
  match drv_type d with
  | CSVDriver => csv_GetCursor d cols
  | SQLiteDriver => sqlite_GetCursor d cols
  | MySQLDriver => mysql_GetCursor d cols
  | ImageDriver => Ret (None, d)
  end.

(** [DataDriver::read(path)]. *)
Definition drv_read_at (d : DataDriver) (where_ : str) : res (option cursor * DataDriver) :=
  match drv_type d with
  | CSVDriver => let '(c, d) := initCursor d where_ in Ret (Some c, d)
  | SQLiteDriver => Ret (None, d)
  | MySQLDriver => i ← or_undef (access_info d); Ret (Some (MySQLCursor [] (all_columns i)), d)
  | ImageDriver => Ret (Some ImageCursor, d)
  end.

(** [Cursor::read()], [read(schema)] and [readMeta]; [None] is a null pointer. *)
Definition cur_read (d : DataDriver) (c : cursor) : res (option arrow_table) :=
  match c with
  | CSVCursor path sel => t ← csv_cursor_read d path sel None; Ret (Some t)
  | SQLiteCursor sql sel => t ← sqlite_readInternal d sel sql; Ret (Some t)
  | MySQLCursor sql sel => t ← mysql_cursor_read d sel sql None; Ret (Some t)
  | ImageCursor => image_cursor_read d
  end.

Definition cur_read_schema (d : DataDriver) (c : cursor) (data_schema : list (str * Z)) : res (option arrow_table) :=
  let s := FromFields data_schema in
  match c with
  | CSVCursor path sel => t ← csv_cursor_read d path sel (Some s); Ret (Some t)
  | MySQLCursor sql sel => t ← mysql_cursor_read d sel sql (Some s); Ret (Some t)
  | SQLiteCursor _ _ | ImageCursor => Ret None
  end.

Definition cur_readMeta (d : DataDriver) (c : cursor) : res (option arrow_table) :=
  match c with
  | CSVCursor path sel => t ← csv_cursor_readMeta d path sel; Ret (Some t)
  | SQLiteCursor sql sel => t ← sqlite_readInternal d sel (sql ++ chars " limit 100"); Ret (Some t)
  | MySQLCursor sql sel => t ← mysql_cursor_readMeta d sel sql; Ret (Some t)
  | ImageCursor => image_cursor_read d
  end.
End Engines.
