(* ===== verification/DatasetService.v ===== *)
(** * The dataset service

    Models [service/dataset/service.cc] and the registration side of [node/ds.cc]:
    datasets are registered with their drivers, published to the meta service and
    found again.  The meta service is an interface ([MetaStore]) with two
    implementations, the one in memory and the remote one.  A driver is an object
    behind a shared pointer: the service keeps references. *)

From Stdlib Require Import Ascii String ZArith Lia.
From stdpp Require Import base tactics list option gmap strings.
From S2P Require Import Prelude ModArith Machine StrUtil Json Common ExprConfig MetaService CsvFile DataStore Drivers.

Local Open Scope Z_scope.

(** ** The meta service as the dataset service sees it *)

(** [find_meta] is [GetMeta]: the meta data its handler is called with, if it is;
    [all_metas] is [GetAllMetas] on an empty vector. *)
Class MetaStore (S : Type) := {
  put_meta : DatasetMeta -> S -> res (retcode * S);
  find_meta : str -> S -> res (option DatasetMeta);
  all_metas : S -> list DatasetMeta
}.

(** What the service uses of the meta data it finds. *)
Definition same_access (m m' : DatasetMeta) : Prop :=
  dm_id m' = dm_id m /\ driver_type m' = driver_type m /\ access_meta m' = access_meta m /\ dm_schema m' = dm_schema m.

(** What it relies on: meta data that is accepted is found under its id. *)
Class MetaStoreLaws (S : Type) `{MetaStore S} (accepts : DatasetMeta -> S -> Prop) := {
  put_then_find : forall m s, accepts m s -> exists s', put_meta m s = Ret (SUCCESS, s') /\
    exists m', find_meta (dm_id m) s' = Ret (Some m') /\ same_access m m'
}.

(** ** The service *)

Record DatasetService (S : Type) : Type := DS {
  nodelet_addr_ : str;
  driver_manager_ : gmap str nat;
  driver_objects : list DataDriver;
  meta_state : S
}.
Arguments DS {S}.
Arguments nodelet_addr_ {S}.
Arguments driver_manager_ {S}.
Arguments driver_objects {S}.
Arguments meta_state {S}.

(** An operation changes the service even when it throws. *)
Definition op (S A : Type) : Type := DatasetService S -> DatasetService S * res A.
#[global] Instance op_ret S : MRet (op S) := fun A a s => (s, Ret a).
#[global] Instance op_bind S : MBind (op S) := fun A B f c s =>
  match c s with (s, Ret a) => f a s | (s, Throw) => (s, Throw) | (s, Undef) => (s, Undef) end.
Definition pure_op {S A} (r : res A) : op S A := fun s => (s, r).
Definition catch_op {S A} (c : op S A) (h : op S A) : op S A := fun s => match c s with (s, Throw) => h s | r => r end.

Section Service.
Context {S : Type} `{MetaStore S}.
Context (dump : json -> str) (parse : str -> option json) (mysql : bool).
Context (fs : gmap str str) (read_csv : CsvOptions -> str -> option arrow_table).
Context (sqlite_open : str -> bool) (sqlite_exec : str -> str -> option (list (list str))).
Context (mysql_connect : MySQLAccessInfo -> bool) (mysql_exec : MySQLAccessInfo -> str -> option (nat * list (list str))).

Definition is_file (p : str) : bool := bool_decide (is_Some (fs !! p)).
Definition do_read (d : DataDriver) := drv_read fs read_csv sqlite_open sqlite_exec mysql_connect mysql_exec d.
Definition do_readMeta (d : DataDriver) (c : cursor) := cur_readMeta fs read_csv sqlite_exec mysql_connect mysql_exec d c.

(** A new driver object, the object of a reference, and a change of it. *)
Definition new_driver (d : DataDriver) : op S nat := fun s =>
  (DS (nodelet_addr_ s) (driver_manager_ s) (driver_objects s ++ [d]) (meta_state s), Ret (length (driver_objects s))).
Definition get_driver (r : nat) : op S DataDriver := fun s => (s, or_undef (driver_objects s !! r)).
Definition set_driver (r : nat) (d : DataDriver) : op S unit := fun s =>
  (DS (nodelet_addr_ s) (driver_manager_ s) (<[r := d]> (driver_objects s)) (meta_state s), Ret tt).

Definition get_addr : op S str := fun s => (s, Ret (nodelet_addr_ s)).

Definition registerDriver (id : str) (r : nat) : op S retcode := fun s =>
  (DS (nodelet_addr_ s) (<[id := r]> (driver_manager_ s)) (driver_objects s) (meta_state s), Ret SUCCESS).
Definition unRegisterDriver (id : str) : op S retcode := fun s =>
  (DS (nodelet_addr_ s) (delete id (driver_manager_ s)) (driver_objects s) (meta_state s), Ret SUCCESS).

Definition PutMeta (m : DatasetMeta) : op S retcode := fun s =>
  match put_meta m (meta_state s) with
  | Ret (r, ms) => (DS (nodelet_addr_ s) (driver_manager_ s) (driver_objects s) ms, Ret r)
  | Throw => (s, Throw)
  | Undef => (s, Undef)
  end.

(** The constructor of [DatasetMeta] from a dataset; visibility 0 is PUBLIC. *)
Definition dataset_meta (t : arrow_table) (d : DataDriver) (description access : str) : DatasetMeta :=
  DM description (nodelet_address d ++ chars ":" ++ getDataURL d) (nodelet_address d) access description 0 (getDriverType d) (Some (at_schema t)) 0.

(** [driver->read()] on the object. *)
Definition read_driver (r : nat) : op S (option cursor) :=
  d ← get_driver r;
  '(c, d) ← pure_op (do_read d);
  _ ← set_driver r d;
  mret c.

(** [newDataset]: the dataset, or a null pointer. *)
Definition newDataset (r : nat) (id access : str) : op S (option (arrow_table * DatasetMeta)) :=
  c ← read_driver r;
  match c with
  | None => mret None
  | Some c =>
      d ← get_driver r;
      t ← pure_op (do_readMeta d c);
      match t with
      | None => mret None
      | Some t =>
          let m := dataset_meta t d id access in
          ret ← PutMeta m;
          mret (if decide (ret <> SUCCESS) then None else Some (t, m))
      end
  end.

(** [createAccessInfo] and [DataDirverFactory::getDriver] from what the meta data
    says; an exception gives a null pointer. *)
Definition driver_of_info (info : DatasetMetaInfo) (addr : str) : res (option DataDriver) :=
  try_catch
    (i ← createAccessInfo parse mysql is_file (info_driver info) info;
     d ← getDriver mysql (info_driver info) addr (Some i);
     Ret (Some d))
    (Ret None).

(** [DatasetService::getDriver]; the first part is the request that carries the
    access information itself. *)
Definition service_getDriver (id : str) (is_access_info : bool) (s : DatasetService S) : res (option DataDriver) :=
  if is_access_info then
    j ← parse_json parse id;
    ty ← jstring j "type";
    t ← jstring j "schema"; js ← parse_json parse t;
    fields ← mapM (fun e => z ← json_int e.2; Ret (e.1, z)) (concat (items <$> elements js));
    driver_of_info (DMI [] ty id fields) (nodelet_addr_ s)
  else
    m ← find_meta id (meta_state s);
    match m with
    | None => Ret None
    | Some m =>
        fields ← or_undef (dm_schema m);
        driver_of_info (DMI (dm_id m) (driver_type m) (access_meta m) fields) (nodelet_addr_ s)
    end.

(** One turn of [loadDefaultDatasets]: [model] and [description] of the entry. *)
Definition load_dataset (addr : str) (y : yaml_entry) : op S unit :=
  catch_op
    (ty ← pure_op (yaml_text y "model");
     uid ← pure_op (yaml_text y "description");
     i ← pure_op (createAccessInfo_yaml mysql ty y);
     let text := toString dump i in
     d ← pure_op (getDriver mysql ty addr (Some i));
     r ← new_driver d;
     _ ← registerDriver uid r;
     c ← read_driver r;
     match c with
     | None => mret tt
     | Some _ => _ ← newDataset r uid text; mret tt
     end)
    (mret tt).

Fixpoint loadDefaultDatasets (addr : str) (l : list yaml_entry) : op S unit :=
  match l with [] => mret tt | y :: l => _ ← load_dataset addr y; loadDefaultDatasets addr l end.

(** One turn of [restoreDatasetFromLocalStorage]; [getDescription] is the id. *)
Definition restore_dataset (m : DatasetMeta) : op S unit :=
  catch_op
    (text ← pure_op (toJSON dump m);
     i ← pure_op (createAccessInfo_json parse mysql (driver_type m) text);
     addr ← get_addr;
     d ← pure_op (getDriver mysql (driver_type m) addr (Some i));
     r ← new_driver d;
     _ ← registerDriver (dm_id m) r;
     _ ← PutMeta (DM (dm_id m) (data_url m) addr (access_meta m) (description m) (visibility m) (driver_type m) (dm_schema m) (data_type m));
     mret tt)
    (mret tt).

Fixpoint restore_all (l : list DatasetMeta) : op S unit :=
  match l with [] => mret tt | m :: l => _ ← restore_dataset m; restore_all l end.
Definition restoreDatasetFromLocalStorage : op S unit := fun s => restore_all (all_metas (meta_state s)) s.

(** ** Requests to register a dataset ([node/ds.cc]) *)

(** The reply: its code and the URL of the dataset. *)
Record NewDatasetResponse : Type := NR { ret_code : retcode; dataset_url : str }.
Definition error_reply : NewDatasetResponse := NR FAIL [].

Definition RegisterDatasetProcess (location : str) (info : DatasetMetaInfo) : op S (retcode * NewDatasetResponse) :=
  r ← catch_op
    (i ← pure_op (createAccessInfo parse mysql is_file (info_driver info) info);
     let text := toString dump i in
     d ← pure_op (getDriver mysql (info_driver info) location (Some i));
     r ← new_driver d;
     _ ← registerDriver (info_id info) r;
     mret (Some (r, text)))
    (mret None);
  match r with
  | None => mret (FAIL, error_reply)
  | Some (r, text) =>
      catch_op
        (ds ← newDataset r (info_id info) text;
         match ds with
         | None => _ ← unRegisterDriver (info_id info); mret (FAIL, error_reply)
         | Some (_, m) => mret (SUCCESS, NR SUCCESS (data_url m))
         end)
        (mret (FAIL, error_reply))
  end.

Inductive op_type := REGISTER | UNREGISTER | UPDATE | unsupported_op.

Fixpoint has_duplicate (seen : gset str) (l : list (str * Z)) : bool :=
  match l with [] => false | (n, _) :: l => bool_decide (n ∈ seen) || has_duplicate ({[n]} ∪ seen) l end.

(** [NewDataset]: a field name used twice is refused before anything else. *)
Definition NewDataset (location : str) (o : op_type) (info : DatasetMetaInfo) : op S NewDatasetResponse :=
  if has_duplicate ∅ (info_schema info) then mret error_reply
  else match o with
       | REGISTER | UPDATE => '(_, reply) ← RegisterDatasetProcess location info; mret reply
       | UNREGISTER => mret (NR SUCCESS [])
       | unsupported_op => mret error_reply
       end.
End Service.

(** ** The two meta services *)

Section Memory.
Context (dump : json -> str) (parse : str -> option json) (junk : Z * Z).

(** In memory: the handler is called whenever the text can be read; [GetAllMetas]
    finds nothing. *)
#[local] Instance memory_store : MetaStore (gmap str str) := {
  put_meta := memory_PutMeta dump;
  find_meta id s := '(_, m) ← memory_GetMeta parse junk id (fun _ => SUCCESS) s; Ret (Some m);
  all_metas _ := []
}.

#[local] Instance memory_store_laws :
  MetaStoreLaws (gmap str str) (fun m s => table_meta m /\ texts_read dump parse m /\ s !! dm_id m = None).
Proof.
  constructor. intros m s (Hm & Ht & Hnew). destruct (toJSON_fromJSON dump parse m (new_DatasetMeta junk) Hm Ht) as (text & E1 & E2).
  eexists. split; [cbn; unfold memory_PutMeta; rewrite E1; reflexivity|]. exists m. split; [|done].
  cbn. unfold memory_GetMeta, GetValue. rewrite map_insert_fresh, lookup_insert_eq by done. cbn. by rewrite E2.
Qed.
End Memory.

Section Remote.
(** The remote service over a server that answers and keeps what it is sent. *)
#[local] Instance remote_store : MetaStore (gmap str MetaInfo) := {
  put_meta m s := '(r, p) ← grpc_PutMeta m (fun _ => Some true); Ret (r, <[mi_id p := p]> s);
  find_meta id s :=
    Ret (snd (grpc_GetMeta (fun _ => SUCCESS) (fun _ => Some (GR true match s !! id with Some p => [DD true p] | None => [] end))));
  all_metas s := snd (GetAllMetas [] (fun _ => Some (GR true (DD true <$> (map_to_list s).*2))))
}.

#[local] Instance remote_store_laws : MetaStoreLaws (gmap str MetaInfo) (fun m _ => table_meta m).
Proof.
  constructor. intros m s Hm. cbn. destruct (MetaToPbMetaInfo m) as [p| |] eqn:E;
    [|by destruct Hm as [(sc & Hs & _) _ _]; unfold MetaToPbMetaInfo in E; rewrite Hs in E..].
  assert (Hid : mi_id p = dm_id m) by (unfold MetaToPbMetaInfo in E; destruct (dm_schema m); [|done]; by injection E as <-).
  unfold grpc_PutMeta. rewrite E. cbn. rewrite Hid. eexists. split; [reflexivity|]. rewrite lookup_insert_eq. cbn.
  eexists. split; [reflexivity|]. rewrite (pb_roundtrip m p Hm E). done.
Qed.
End Remote.
