(* ===== verification/DatasetProps.v ===== *)
(** * Properties of the drivers and the dataset service

    A registered dataset is found again with its access information and schema and
    reads the same data; the tables of the SQL cursors; what becomes of numbers on
    the way from the database. *)

From Stdlib Require Import Ascii String ZArith Lia.
From stdpp Require Import base tactics list option gmap strings.
From S2P Require Import Prelude ModArith Machine StrUtil Json Common MetaService CsvFile DataStore Drivers DatasetService.

Local Open Scope Z_scope.

(** ** Access information and its text *)

(** The kind of a driver that belongs to the members, and what the text keeps of
    them. *)
Definition kind_of (c : access_members) : DriverType :=
  match c with CSVAccess _ => CSVDriver | SQLiteAccess _ _ => SQLiteDriver | MySQLAccess _ => MySQLDriver | ImageAccess _ _ => ImageDriver end.

Definition kept (c : access_members) : access_members :=
  match c with
  | MySQLAccess m => MySQLAccess (MySQL (my_ip m) (my_port m) (user_name m) (password m) (database m) (db_name m) (table_name m) (db_url m) [])
  | c => c
  end.

Definition port_ok (c : access_members) : Prop := match c with MySQLAccess m => 0 <= my_port m < 2 ^ 32 | _ => True end.

Lemma kind_of_kept c : kind_of (kept c) = kind_of c.
Proof. by destruct c. Qed.

Section Access.
Context (dump : json -> str) (parse : str -> option json).

Lemma try_catch_Ret {A} (b h : res A) a : try_catch b h = Ret a <-> b = Ret a \/ (b = Throw /\ h = Ret a).
Proof. destruct b; simpl; naive_solver. Qed.

Ltac unfold_parse := cbn [ParseFromJsonImpl]; unfold with_success, csv_ParseFromJson, sqlite_ParseFromJson, mysql_ParseFromJson, image_ParseFromJson.
Ltac inv_parse := repeat first [progress res_inv | match goal with H : try_catch _ _ = Ret _ |- _ => apply try_catch_Ret in H as [H|[_ H]] end | case_decide; simplify_eq].

Lemma ParseFromJson_kind c j r c' : ParseFromJsonImpl parse c j = Ret (r, c') -> kind_of c' = kind_of c.
Proof.
  destruct c; unfold_parse; intros H; inv_parse; by simplify_eq/=.
Qed.

Lemma json_uint32_bounds j z : json_uint32 j = Ret z -> 0 <= z < 2 ^ 32.
Proof.
  unfold json_uint32. intros H. repeat case_match; try done; simplify_eq; try lia. by apply Z.mod_pos_bound.
Qed.

Lemma ParseFromJson_port c j r c' : port_ok c -> ParseFromJsonImpl parse c j = Ret (r, c') -> port_ok c'.
Proof.
  destruct c; unfold_parse; intros Hp H; inv_parse; simplify_eq/=; try done.
  unfold cuint32 in *. res_inv. by eapply json_uint32_bounds.
Qed.

Lemma ParseFromMetaInfo_facts is_file info c r c' : port_ok c -> ParseFromMetaInfoImpl parse is_file info c = Ret (r, c') ->
  kind_of c' = kind_of c /\ port_ok c'.
Proof.
  intros Hp Hr. unfold ParseFromMetaInfoImpl, with_success, csv_ParseFromMetaInfo, sqlite_ParseFromMetaInfo, mysql_ParseFromMetaInfo, image_ParseFromMetaInfo in Hr.
  destruct c as [p|p t|m|d f]; inv_parse; try (case_match; simplify_eq); simplify_eq; try done;
    match goal with H : ParseFromJsonImpl _ _ _ = Ret _ |- _ =>
      split; [exact (ParseFromJson_kind _ _ _ _ H)|exact (ParseFromJson_port _ _ _ _ Hp H)]
    end.
Qed.

(** What an empty object of each kind is. *)
Definition blank (k : DriverType) : access_members :=
  match k with CSVDriver => CSVAccess [] | SQLiteDriver => SQLiteAccess [] [] | MySQLDriver => MySQLAccess (MySQL [] 0 [] [] [] [] [] [] []) | ImageDriver => ImageAccess [] [] end.

Definition type_text (k : DriverType) : str := chars match k with CSVDriver => "CSV" | SQLiteDriver => "SQLITE" | MySQLDriver => "MYSQL" | ImageDriver => "IMAGE" end.

(** The two functions of the factory accept the same names. *)
Lemma factory_agrees mysql ty addr oi : match createAccessInfoInternal mysql ty with
  | Ret i => exists k, i = Access [] None (blank k) /\ getDriver mysql ty addr oi = Ret (Driver k addr oi [] false)
  | _ => getDriver mysql ty addr oi = Throw
  end.
Proof.
  unfold createAccessInfoInternal, getDriver. 
  destruct (decide (strToUpper ty = chars "CSV")); [by exists CSVDriver|]. destruct (decide (strToUpper ty = chars "SQLITE")); [by exists SQLiteDriver|].
  destruct (decide (strToUpper ty = chars "MYSQL")); [destruct mysql; [by exists MySQLDriver|done]|].
  destruct (decide (strToUpper ty = chars "IMAGE")); [by exists ImageDriver|done].
Qed.

Lemma factory_kind mysql k : (k = MySQLDriver -> mysql = true) -> createAccessInfoInternal mysql (type_text k) = Ret (Access [] None (blank k)).
Proof. intros Hm. destruct k; try reflexivity. by rewrite (Hm eq_refl). Qed.

Lemma createAccessInfo_facts mysql is_file ty info i addr : createAccessInfo parse mysql is_file ty info = Ret i ->
  getDriver mysql ty addr (Some i) = Ret (Driver (kind_of (members i)) addr (Some i) [] false) /\ port_ok (members i) /\
  (kind_of (members i) = MySQLDriver -> mysql = true).
Proof.
  unfold createAccessInfo. intros (j & H1 & (rc & H2 & H3)%res_bind_Ret)%res_bind_Ret. assert (Hf := factory_agrees mysql ty addr (Some i)).
  rewrite H1 in Hf. destruct Hf as (k & -> & Hd). unfold FromMetaInfo in H2. apply res_bind_Ret in H2 as ([r c] & H2 & [= <-]).
  assert (Hb : port_ok (blank k)) by (by destruct k). assert (Hmem : members (if decide (info_schema info = []) then Access [] None (blank k)
    else with_fields (Access [] None (blank k)) ([] ++ info_schema info)) = blank k) by (by case_decide).
  cbn [ai_schema] in H2. rewrite Hmem in H2. destruct (ParseFromMetaInfo_facts _ _ _ _ _ Hb H2) as [Hk Hp].
  destruct r; [|done]. injection H3 as <-. cbn [members set_members]. rewrite Hk, Hd. split_and!; [by destruct k|done|].
  intros Hmy. destruct k; try done. destruct mysql; [done|]. unfold createAccessInfoInternal in H1. repeat case_decide; done.
Qed.

(** The text of an access information that the parser reads. *)
Definition text_read (i : DataSetAccessInfo) : Prop := toString dump i <> [] /\ parse (toString dump i) = Some (access_json dump i).

Lemma access_text_read is_file i id ty fields : text_read i -> port_ok (members i) ->
  ParseFromMetaInfoImpl parse is_file (DMI id ty (toString dump i) fields) (blank (kind_of (members i))) = Ret (SUCCESS, kept (members i)).
Proof.
  intros [Hne Hp] Hport. unfold ParseFromMetaInfoImpl, with_success, csv_ParseFromMetaInfo, sqlite_ParseFromMetaInfo, mysql_ParseFromMetaInfo, image_ParseFromMetaInfo, parse_json.
  cbn [info_access]. unfold access_json in Hp.
  destruct (members i) as [path|path tab|m|dir file]; cbn [kind_of blank]; rewrite ?Hp, ?decide_False by done; try reflexivity.
  cbn [port_ok] in Hport. assert (Hu : json_uint32 (JInt (my_port m)) = Ret (my_port m)) by (cbn; by rewrite Z.mod_small).
  cbn [mbind res_bind]. unfold ParseFromJsonImpl, with_success, mysql_ParseFromJson, cuint32, mysql_json.
  match goal with |- context [cstring ?d "host"] => set (doc := d) end.
  assert (H1 : cstring doc "host" = Ret (my_ip m)) by (unfold doc; case_decide; reflexivity).
  assert (H2 : cmember doc "port" = Ret (JInt (my_port m))) by (unfold doc; case_decide; reflexivity).
  assert (H3 : cstring doc "username" = Ret (user_name m)) by (unfold doc; case_decide; reflexivity).
  assert (H4 : cstring doc "password" = Ret (password m)) by (unfold doc; case_decide; reflexivity).
  assert (H5 : opt_text doc "database" [] = Ret (database m)) by (unfold doc; case_decide; reflexivity).
  assert (H6 : cstring doc "dbName" = Ret (db_name m)) by (unfold doc; case_decide; reflexivity).
  assert (H7 : cstring doc "tableName" = Ret (table_name m)) by (unfold doc; case_decide; reflexivity).
  assert (H8 : opt_text doc "dbUrl" [] = Ret (db_url m)) by (unfold doc; case_decide; reflexivity).
  cbn [database db_url]. rewrite H1, H2. cbn [mbind res_bind]. rewrite Hu. cbn [mbind res_bind]. by rewrite H3, H4, H5, H6, H7, H8.
Qed.

(** The access information that is made from found meta data. *)
Lemma createAccessInfo_found mysql is_file i id fields : text_read i -> port_ok (members i) -> fields <> [] ->
  (kind_of (members i) = MySQLDriver -> mysql = true) ->
  createAccessInfo parse mysql is_file (type_text (kind_of (members i))) (DMI id (type_text (kind_of (members i))) (toString dump i) fields) =
    Ret (Access fields (Some (FromFields fields)) (kept (members i))).
Proof.
  intros Ht Hp Hf Hm. unfold createAccessInfo. rewrite factory_kind by done. cbn [mbind res_bind]. unfold FromMetaInfo. cbn [info_schema].
  rewrite decide_False by done. cbn [members with_fields ai_schema app]. rewrite access_text_read by done. reflexivity.
Qed.
End Access.

(** ** Registered datasets *)

Section Registered.
Context {S : Type} `{MetaStoreLaws S accepts}.
Context (dump : json -> str) (parse : str -> option json) (mysql : bool).
Context (fs : gmap str str) (read_csv : CsvOptions -> str -> option arrow_table).
Context (sqlite_open : str -> bool) (sqlite_exec : str -> str -> option (list (list str))).
Context (mysql_connect : MySQLAccessInfo -> bool) (mysql_exec : MySQLAccessInfo -> str -> option (nat * list (list str))).

Abbreviation reads := (do_read fs read_csv sqlite_open sqlite_exec mysql_connect mysql_exec).
Abbreviation reads_meta := (do_readMeta fs read_csv sqlite_exec mysql_connect mysql_exec).
Abbreviation creates := (createAccessInfo parse mysql (is_file fs)).
Abbreviation finds_driver := (service_getDriver parse mysql fs).
Abbreviation registers := (RegisterDatasetProcess dump parse mysql fs read_csv sqlite_open sqlite_exec mysql_connect mysql_exec).

(** Reading keeps the kind of a driver and its address. *)
Lemma read_keeps d c d' : reads d = Ret (c, d') -> drv_type d' = drv_type d /\ nodelet_address d' = nodelet_address d.
Proof.
  unfold reads, do_read, drv_read. destruct (drv_type d) eqn:Ek.
  - unfold csv_read. destruct (csv_access d) as [[i p]|]; [|done]. case_decide; [intros [= <- <-]; split; [exact Ek|done]|].
    intros ([r n] & _ & Hr)%res_bind_Ret. case_decide; [by simplify_eq|]. res_inv. simplify_eq/=. split; [exact Ek|done].
  - unfold sqlite_read. destruct (sqlite_access d) as [[i [p t]]|]; [|by intros [= <- <-]]. case_match; [done|].
    intros (j & _ & Hr)%res_bind_Ret. case_decide; [done|]. simplify_eq. split; [exact Ek|done].
  - unfold mysql_GetCursor_all. destruct (mysql_access d) as [[i m]|]; [|done]. intros ([j d1] & Hs & [= <- <-])%res_bind_Ret.
    unfold mysql_schema in Hs. case_decide; [by simplify_eq|]. case_match; [done|]. res_inv. simplify_eq/=. split; [exact Ek|done].
  - intros [= <- <-]. done.
Qed.

Lemma getDriverType_text d : getDriverType d = type_text (drv_type d).
Proof. reflexivity. Qed.

(** Registration when every step of it with_success. *)
Lemma register_succeeds location info s i c d t s1 :
  creates (info_driver info) info = Ret i -> reads (Driver (kind_of (members i)) location (Some i) [] false) = Ret (Some c, d) ->
  reads_meta d c = Ret (Some t) ->
  let m := dataset_meta t d (info_id info) (toString dump i) in put_meta m (meta_state s) = Ret (SUCCESS, s1) ->
  registers location info s =
    (DS (nodelet_addr_ s) (<[info_id info := length (driver_objects s)]> (driver_manager_ s)) (driver_objects s ++ [d]) s1, Ret (SUCCESS, NR SUCCESS (data_url m))).
Proof.
  intros Hi Hr Hm m Hput. destruct (createAccessInfo_facts parse mysql _ _ _ _ location Hi) as (Hd & _).
  unfold registers, RegisterDatasetProcess, newDataset, read_driver, get_driver, set_driver, PutMeta, pure_op, mbind, op_bind, catch_op.
  rewrite Hi, Hd. cbn. rewrite lookup_app_r, Nat.sub_diag by lia. cbn. rewrite Hr. cbn. rewrite insert_app_r_alt, Nat.sub_diag by lia. cbn.
  rewrite lookup_app_r, Nat.sub_diag by lia. cbn. rewrite Hm. cbn. fold m. rewrite Hput. reflexivity.
Qed.

(** A CSV driver with the schema of the table reads the table again. *)
Lemma csv_reads_again d path i c d1 t addr : members i = CSVAccess path -> drv_type d = CSVDriver -> access_info d = Some i ->
  reads d = Ret (Some c, d1) -> reads_meta d1 c = Ret (Some t) -> arrow_schema <$> access_info d1 = Some (Some (at_schema t)) ->
  at_schema t <> [] -> schema_ok (at_schema t) ->
  exists d', reads (Driver CSVDriver addr (Some (Access (at_schema t) (Some (FromFields (at_schema t))) (CSVAccess path))) [] false) = Ret (Some c, d') /\
    reads_meta d' c = Ret (Some t).
Proof.
  intros Hi Hd Ha Hr Hm Hs Hne Hok. rewrite (FromFields_ok _ Hok).
  assert (c = CSVCursor path []) as ->.
  { unfold reads, do_read, drv_read, csv_read, csv_access in Hr. rewrite Hd, Ha in Hr. cbn in Hr. rewrite Hi in Hr. cbn in Hr.
    case_decide; [by injection Hr|]. apply res_bind_Ret in Hr as ([r n] & _ & Hr). case_decide; [done|]. res_inv. by simplify_eq/=. }
  eexists. split.
  { unfold reads, do_read, drv_read, csv_read, csv_access. cbn. rewrite decide_True by done. reflexivity. }
  rewrite <- Hm. unfold reads_meta, do_readMeta, cur_readMeta, csv_cursor_readMeta in *.
  assert (Ho : MakeCsvOptions d1 [] None = Ret (add_fields (at_schema t) (CsvOpt 1 (at_schema t).*1 [] ∅))).
  { unfold MakeCsvOptions in *. destruct (access_info d1) as [i1|]; [|done]. cbn in Hs. injection Hs as Hs. cbn in *. rewrite Hs in *. cbn in *.
    case_decide; [done|]. reflexivity. }
  rewrite Ho. unfold MakeCsvOptions. cbn. by rewrite decide_False by done.
Qed.

(** C26: a dataset whose registration request reads well is registered, and found again:
    the driver the service then gives for its id is of the same kind, with the same
    access information (all but the column list of a MySQL query) and the schema of
    the table that was read; for a CSV file, reading through it gives the same table
    once more.  The meta service may be any that keeps its promise. *)
Theorem registered_dataset_found location info s i c d t :
  creates (info_driver info) info = Ret i -> reads (Driver (kind_of (members i)) location (Some i) [] false) = Ret (Some c, d) ->
  reads_meta d c = Ret (Some t) -> at_schema t <> [] -> text_read dump parse i ->
  let m := dataset_meta t d (info_id info) (toString dump i) in accepts m (meta_state s) ->
  exists s' d', registers location info s = (s', Ret (SUCCESS, NR SUCCESS (data_url m))) /\
    driver_manager_ s' !! info_id info ≫= (fun r => driver_objects s' !! r) = Some d /\
    finds_driver (info_id info) false s' = Ret (Some d') /\ drv_type d' = drv_type d /\
    access_info d' = Some (Access (at_schema t) (Some (FromFields (at_schema t))) (kept (members i))) /\
    (drv_type d = CSVDriver -> arrow_schema <$> access_info d = Some (Some (at_schema t)) -> schema_ok (at_schema t) ->
     exists d'', reads d' = Ret (Some c, d'') /\ reads_meta d'' c = Ret (Some t)).
Proof.
  intros Hi Hr Hm Hne Ht m Hacc. destruct (put_then_find m (meta_state s) Hacc) as (s1 & Hput & m' & Hfind & Hid & Hty & Hac & Hsc).
  destruct (createAccessInfo_facts parse mysql _ _ _ _ location Hi) as (_ & Hport & Hmy).
  destruct (read_keeps _ _ _ Hr) as [Hk _]. cbn [drv_type] in Hk.
  eexists _, (Driver (kind_of (members i)) (nodelet_addr_ s) (Some (Access (at_schema t) (Some (FromFields (at_schema t))) (kept (members i)))) [] false).
  split; [exact (register_succeeds location info s i c d t s1 Hi Hr Hm Hput)|]. split; [|split; [|split; [by rewrite Hk|split; [done|]]]].
  - cbn. rewrite lookup_insert_eq. cbn. by rewrite lookup_app_r, Nat.sub_diag by lia.
  - unfold finds_driver, service_getDriver. cbn [meta_state nodelet_addr_]. change (info_id info) with (dm_id m). rewrite Hfind.
    cbn [mbind res_bind]. rewrite Hsc, Hty, Hac, Hid. subst m. cbn [dm_schema driver_type access_meta dm_id dataset_meta or_undef mbind res_bind].
    unfold driver_of_info. cbn [info_driver]. rewrite getDriverType_text, Hk.
    assert (Hc := createAccessInfo_found dump parse mysql (is_file fs) i (info_id info) (at_schema t) Ht Hport Hne Hmy).
    destruct (createAccessInfo_facts parse mysql _ _ _ _ (nodelet_addr_ s) Hc) as (Hg & _). cbn [members] in Hg. rewrite kind_of_kept in Hg.
    fold creates in Hc. rewrite Hc. cbn [mbind res_bind]. rewrite Hg. reflexivity.
  - intros Hcsv Hs Hok. rewrite Hk in Hcsv. destruct (members i) as [path| | |] eqn:Ei; try done. cbn [kind_of kept] in *.
    exact (csv_reads_again (Driver CSVDriver location (Some i) [] false) path i c d t (nodelet_addr_ s) Ei eq_refl eq_refl Hr Hm Hs Hne Hok).
Qed.
End Registered.

(** ** Tables from a database *)

(** The two forms of a schema agree. *)
Definition access_wf (i : DataSetAccessInfo) : Prop := ai_schema i <> [] -> arrow_schema i = Some (FromFields (ai_schema i)).

Lemma createAccessInfo_wf parse mysql is_file ty info i : createAccessInfo parse mysql is_file ty info = Ret i -> access_wf i.
Proof.
  unfold createAccessInfo. intros (j & H1 & ([r j'] & H2 & H3)%res_bind_Ret)%res_bind_Ret.
  assert (Hf := factory_agrees mysql ty [] None). rewrite H1 in Hf. destruct Hf as (k & -> & _).
  unfold FromMetaInfo in H2. apply res_bind_Ret in H2 as ([r' c] & _ & [= <- <-]). destruct r'; [|done]. injection H3 as <-.
  unfold access_wf. cbn. by case_decide.
Qed.

Lemma SetDatasetSchema_wf fields i : access_wf i -> access_wf (SetDatasetSchema fields i).
Proof. unfold SetDatasetSchema. intros Hi. case_decide; done. Qed.

(** The schema query of a database never fails on its types. *)
Lemma push_fields_ints (l : list (str * Z)) acc : Forall (fun e => - 2 ^ 31 <= e.2 < 2 ^ 31) l ->
  push_fields ((fun e => (e.1, JInt e.2)) <$> l) acc = Ret (SUCCESS, acc ++ l).
Proof.
  intros H. revert acc. induction H as [|[k z] l Hz _ IH]; intros acc; [by rewrite app_nil_r|]. rewrite fmap_cons. cbn [push_fields fst snd json_int].
  rewrite IH, <- app_assoc. simpl in Hz. do 3 f_equal. cbn. do 2 f_equal. rewrite Z.mod_small; lia.
Qed.

Lemma sql_type_range t : 0 <= SqlType2ArrowType t <= 20.
Proof.
  unfold SqlType2ArrowType. destruct (list_find _ _) as [[n e]|] eqn:Hf; [|lia]. apply list_find_Some in Hf as (Hl & _ & _).
  assert (He : Forall (fun e => 0 <= e.2 <= 20) sql_type_2_arrow_type_map) by (apply (bool_decide_unpack _); vm_compute; exact I).
  exact (Forall_lookup_1 _ _ _ _ He Hl).
Qed.

Lemma ParseSchema_sql cols i : ai_schema i = [] ->
  ParseSchema (sql_schema_json cols) i = Ret (SUCCESS, with_fields i ((fun c => (c.1, SqlType2ArrowType c.2)) <$> cols)).
Proof.
  intros Hi. unfold ParseSchema. rewrite decide_False by tauto. unfold sql_schema_json. cbn [elements].
  assert (He : concat (items <$> ((fun c : str * str => JObject [(c.1, JInt (SqlType2ArrowType c.2))]) <$> cols)) =
    (fun e => (e.1, JInt e.2)) <$> ((fun c => (c.1, SqlType2ArrowType c.2)) <$> cols)).
  { induction cols as [|c cols IH]; [done|]. rewrite !fmap_cons. cbn [items concat app fst snd]. by rewrite IH. }
  rewrite He, push_fields_ints; [done|]. rewrite Forall_fmap. apply Forall_true. intros c. cbn. assert (H := sql_type_range c.2). lia.
Qed.

(** Column [j] of the rows. *)
Definition column_of (rows : list (list str)) (j : nat) : list str := (fun r : list str => default [] (r !! j)) <$> rows.

Lemma push_row_spec row acc : length row = length acc -> push_row row acc = Ret (zip_with (fun v c => c ++ [v]) row acc).
Proof.
  revert acc. induction row as [|v row IH]; intros [|c acc] H; try done. simpl in *. by rewrite IH by lia.
Qed.

Lemma push_rows_spec rows n rows0 : Forall (fun r => length r = n) rows ->
  push_rows rows (column_of rows0 <$> seq 0 n) = Ret (column_of (rows0 ++ rows) <$> seq 0 n).
Proof.
  intros H. revert rows0. induction H as [|r rows Hr _ IH]; intros rows0; [by rewrite app_nil_r|]. cbn [push_rows].
  rewrite push_row_spec by (by rewrite length_fmap, length_seq). cbn [mbind res_bind].
  rewrite (cons_middle r), app_assoc, <- IH. f_equal. apply list_eq. intros j. rewrite lookup_zip_with, !list_lookup_fmap.
  destruct (decide (j < n)%nat) as [Hj|Hj].
  - rewrite lookup_seq_lt by lia. destruct (lookup_lt_is_Some_2 r j) as [v Hv]; [lia|]. rewrite Hv. cbn. f_equal.
    unfold column_of. rewrite fmap_app. cbn. by rewrite Hv.
  - rewrite lookup_seq_ge by lia. rewrite (lookup_ge_None_2 r) by lia. done.
Qed.

Lemma push_rows_columns rows n : Forall (fun r => length r = n) rows -> push_rows rows (replicate n []) = Ret (column_of rows <$> seq 0 n).
Proof.
  intros H. assert (H0 := push_rows_spec rows n [] H). cbn [app] in H0. rewrite <- H0. f_equal. apply list_eq. intros j. rewrite list_lookup_fmap.
  destruct (decide (j < n)%nat) as [Hj|Hj]; [rewrite lookup_replicate_2, lookup_seq_lt by lia; done|].
  rewrite lookup_seq_ge by lia. apply lookup_ge_None_2. rewrite length_replicate. lia.
Qed.

Lemma field_at_Ret {A} u (s : list A) k x : s !! k = Some x -> field_at u s (Z.of_nat k) = Ret x.
Proof.
  intros Hx. assert (Hk := lookup_lt_Some _ _ _ Hx). unfold field_at. destruct (Z.leb_spec (Z.of_nat (length s)) (Z.of_nat k)); [lia|].
  destruct (Z.ltb_spec (Z.of_nat k) 0); [lia|]. by rewrite Nat2Z.id, Hx.
Qed.

Lemma field_at_all {A} u (s : list A) : mapM (field_at u s) (Z.of_nat <$> seq 0 (length s)) = Ret s.
Proof.
  assert (H : forall k, (k <= length s)%nat -> mapM (field_at u s) (Z.of_nat <$> seq k (length s - k)) = Ret (drop k s)).
  { intros k Hk. remember (length s - k)%nat as n eqn:En. revert k Hk En. induction n as [|n IH]; intros k Hk En.
    - cbn. by rewrite drop_ge by lia.
    - cbn [seq]. rewrite fmap_cons. cbn [mapM]. destruct (lookup_lt_is_Some_2 s k) as [x Hx]; [lia|].
      rewrite (field_at_Ret u s k x Hx). cbn [mbind res_bind]. rewrite (IH (Datatypes.S k)) by lia. cbn. by rewrite (drop_S s x k Hx). }
  specialize (H O ltac:(lia)). by rewrite Nat.sub_0_r, drop_0 in H.
Qed.

Lemma FromFields_names fields : (FromFields fields).*1 = fields.*1.
Proof. unfold FromFields. rewrite <- list_fmap_compose. done. Qed.
Lemma FromFields_length fields : length (FromFields fields) = length fields.
Proof. apply length_fmap. Qed.

(** The table a database answers with: every column converted to its type. *)
Definition table_of (s : schema) (rows : list (list str)) : arrow_table :=
  ATable s (imap (fun j f => MakeArrowArray f.2 (column_of rows j)) s).

(** An [int] keeps its value, any other number becomes 0. *)
Definition int_or_zero (z : Z) : Z := if (- 2 ^ 31 <=? z) && (z <? 2 ^ 31) then z else 0.

Lemma int64_column zs : Forall (fun z => - 10 ^ 20 < z < 10 ^ 20) zs -> MakeArrowArray 9 (int_to_string <$> zs) = Int64Array (int_or_zero <$> zs).
Proof.
  intros H. unfold MakeArrowArray. rewrite decide_True by (by left). unfold Int64ArrowArrayBuilder. f_equal. rewrite <- list_fmap_compose. apply list_fmap_ext. intros i z Hz.
  assert (Hr := Forall_lookup_1 _ _ _ _ H Hz). simpl. rewrite stoi_to_string by done. unfold int_or_zero. by case_match.
Qed.

Lemma zip_with_imap {A B C} (f : A -> B -> C) (l : list A) (g : nat -> B) : zip_with f l (g <$> seq 0 (length l)) = imap (fun j a => f a (g j)) l.
Proof.
  apply list_eq. intros j. rewrite lookup_zip_with, list_lookup_imap, list_lookup_fmap. destruct (l !! j) as [a|] eqn:E; [|done].
  apply lookup_lt_Some in E. by rewrite lookup_seq_lt by done.
Qed.

Section Sql.
Context (fs : gmap str str) (read_csv : CsvOptions -> str -> option arrow_table).
Context (sqlite_open : str -> bool) (sqlite_exec : str -> str -> option (list (list str))).
Context (mysql_connect : MySQLAccessInfo -> bool) (mysql_exec : MySQLAccessInfo -> str -> option (nat * list (list str))).

Abbreviation drv_reads := (drv_read fs read_csv sqlite_open sqlite_exec mysql_connect mysql_exec).
Abbreviation cur_reads := (cur_read fs read_csv sqlite_exec mysql_connect mysql_exec).

Lemma sqlite_read_shape d i path tab c d1 : drv_type d = SQLiteDriver -> sqlite_access d = Some (i, (path, tab)) -> access_wf i -> drv_reads d = Ret (Some c, d1) ->
  exists i1, access_info d1 = Some i1 /\ members i1 = SQLiteAccess path tab /\ arrow_schema i1 = Some (FromFields (ai_schema i1)) /\ connected d1 = true /\
    c = SQLiteCursor (select_sql (ai_schema i1).*1 "FROM " tab) (all_columns i1) /\ (ai_schema i <> [] -> i1 = i).
Proof.
  intros Hk Ha Hwf. unfold drv_reads, drv_read, sqlite_read. rewrite Hk, Ha. case_match; [done|].
  assert (Hmem : members i = SQLiteAccess path tab).
  { unfold sqlite_access in Ha. destruct (access_info d) as [i0|]; [|done]. cbn in Ha. destruct (members i0) eqn:Em; try done. injection Ha as <- <- <-. done. }
  intros (i1 & H1 & H2)%res_bind_Ret. case_decide as Hne1; [done|]. injection H2 as <- <-. exists i1. cbn. split; [done|].
  assert (Hm : members i1 = SQLiteAccess path tab /\ arrow_schema i1 = Some (FromFields (ai_schema i1)) /\ (ai_schema i <> [] -> i1 = i)).
  { case_decide as Hne; [|injection H1 as <-; auto]. unfold GetDBTableSchema in H1. apply res_bind_Ret in H1 as (rows & _ & H1).
    apply res_bind_Ret in H1 as (cols & _ & H1). rewrite ParseSchema_sql in H1 by done. by injection H1 as <-. }
  destruct Hm as (? & ? & ?). by split_and!.
Qed.

Lemma mysql_read_shape d i m c d1 : drv_type d = MySQLDriver -> mysql_access d = Some (i, m) -> access_wf i -> drv_reads d = Ret (Some c, d1) ->
  exists i1, mysql_access d1 = Some (i1, m) /\ access_info d1 = Some i1 /\ arrow_schema i1 = Some (FromFields (ai_schema i1)) /\
    c = MySQLCursor (select_sql (ai_schema i1).*1 " FROM " (table_name m)) (all_columns i1) /\ (ai_schema i <> [] -> i1 = i).
Proof.
  intros Hk Ha Hwf. unfold drv_reads, drv_read, mysql_GetCursor_all. rewrite Hk, Ha. intros ([i1 d2] & H1 & [= <- <-])%res_bind_Ret.
  unfold mysql_access in *. destruct (access_info d) as [i0|] eqn:Ea; [|done]. cbn in Ha. destruct (members i0) as [| |m0|] eqn:Em; try done.
  injection Ha as <- <-. unfold mysql_schema in H1. case_decide as Hne.
  - injection H1 as <- <-. exists i0. rewrite Ea. cbn. rewrite Em. split_and!; try done. by apply Hwf.
  - case_match; [done|]. apply res_bind_Ret in H1 as (u & _ & H1). apply res_bind_Ret in H1 as (i2 & H2 & [= <- <-]).
    unfold getTableSchema in H2. apply res_bind_Ret in H2 as ([n rows] & _ & H2). case_decide; [done|].
    apply res_bind_Ret in H2 as (cols & _ & H2). rewrite ParseSchema_sql in H2 by done.
    injection H2 as <-. eexists. cbn. rewrite Em. by split_and!.
Qed.

Lemma mysql_columns (s : schema) (data : nat -> list str) :
  mapM (fun e => f ← field_at true s (Z.of_nat e.1); Ret (MakeArrowArray f.2 e.2)) (zip (seq 0 (length s)) (data <$> seq 0 (length s))) =
    Ret (imap (fun j f => MakeArrowArray f.2 (data j)) s).
Proof.
  assert (H : forall k, (k <= length s)%nat ->
    mapM (fun e => f ← field_at true s (Z.of_nat e.1); Ret (MakeArrowArray f.2 e.2)) (zip (seq k (length s - k)) (data <$> seq k (length s - k))) =
      Ret (imap (fun j f => MakeArrowArray f.2 (data (k + j)%nat)) (drop k s))).
  { intros k Hk. remember (length s - k)%nat as n eqn:En. revert k Hk En. induction n as [|n IH]; intros k Hk En.
    - cbn. by rewrite drop_ge by lia.
    - cbn [seq]. rewrite fmap_cons. cbn [zip zip_with mapM fst snd]. destruct (lookup_lt_is_Some_2 s k) as [x Hx]; [lia|].
      rewrite (field_at_Ret true s k x Hx). cbn [mbind res_bind]. fold (zip (seq (Datatypes.S k) n) (data <$> seq (Datatypes.S k) n)).
      rewrite (IH (Datatypes.S k)) by lia. cbn. rewrite (drop_S s x k Hx). cbn. rewrite Nat.add_0_r. do 2 f_equal. apply imap_ext. intros j y _.
      cbn. by rewrite Nat.add_succ_r. }
  specialize (H O ltac:(lia)). rewrite Nat.sub_0_r, drop_0 in H. exact H.
Qed.

Lemma select_sql_nonempty names from tab : select_sql names from tab <> [].
Proof. unfold select_sql, set_last. by destruct (take _ _). Qed.

(** C27: the table that is read from a database after [read()] has one column per field of
    the schema, in its order: the query names exactly these fields, and column [j]
    holds the [j]-th texts of the rows, converted to the type of field [j] (with MySQL
    an empty text or a NULL counts as the text NA).  An integer column keeps the
    numbers an [int] holds; every other number becomes 0. *)
Theorem sql_table_read d i c d1 : access_wf i -> drv_reads d = Ret (Some c, d1) ->
  (forall path tab, drv_type d = SQLiteDriver -> sqlite_access d = Some (i, (path, tab)) -> exists s,
     arrow_schema <$> access_info d1 = Some (Some s) /\ (ai_schema i <> [] -> s = FromFields (ai_schema i)) /\
     forall rows, sqlite_exec path (select_sql s.*1 "FROM " tab) = Some rows -> Forall (fun r => length r = length s) rows ->
       cur_reads d1 c = Ret (Some (table_of s rows))) /\
  (forall m, drv_type d = MySQLDriver -> mysql_access d = Some (i, m) -> mysql_connect m = true -> exists s,
     arrow_schema <$> access_info d1 = Some (Some s) /\ (ai_schema i <> [] -> s = FromFields (ai_schema i)) /\
     forall rows, mysql_exec m (select_sql s.*1 " FROM " (table_name m)) = Some (length s, rows) -> Forall (fun r => length r = length s) rows ->
       cur_reads d1 c = Ret (Some (table_of s (List.map (List.map fetched) rows)))) /\
  (forall s rows j f zs, s !! j = Some f -> f.2 = 9 -> column_of rows j = int_to_string <$> zs -> Forall (fun z => - 10 ^ 20 < z < 10 ^ 20) zs ->
     at_columns (table_of s rows) !! j = Some (Int64Array (int_or_zero <$> zs))).
Proof.
  intros Hwf Hr. split; [|split].
  - intros path tab Hk Ha. destruct (sqlite_read_shape _ _ _ _ _ _ Hk Ha Hwf Hr) as (i1 & Hi1 & Hm & Hs & Hc & -> & Heq).
    exists (FromFields (ai_schema i1)). split; [rewrite Hi1; cbn; by rewrite Hs|]. split; [intros Hne; by rewrite Heq|]. intros rows Hq Hlen. rewrite FromFields_names in Hq. rewrite FromFields_length in Hlen.
    unfold cur_reads, cur_read, sqlite_readInternal. rewrite Hc, Hi1. cbn [negb or_undef mbind res_bind]. rewrite Hm. cbn [mbind res_bind].
    unfold sqlite_rows. rewrite Hq. cbn [mbind res_bind]. unfold all_columns. rewrite length_fmap, length_seq, push_rows_columns by done.
    cbn [mbind res_bind]. rewrite Hs. cbn [or_undef mbind res_bind]. rewrite <- (FromFields_length (ai_schema i1)), field_at_all. cbn [mbind res_bind].
    by rewrite zip_with_imap.
  - intros m Hk Ha Hcon. destruct (mysql_read_shape _ _ _ _ _ Hk Ha Hwf Hr) as (i1 & Hi1 & Hac & Hs & -> & Heq).
    exists (FromFields (ai_schema i1)). split; [rewrite Hac; cbn; by rewrite Hs|]. split; [intros Hne; by rewrite Heq|]. intros rows Hq Hlen. rewrite FromFields_names in Hq. rewrite FromFields_length in Hlen, Hq.
    assert (Hlen' : Forall (fun r : list str => length r = length (ai_schema i1)) (List.map (List.map fetched) rows)).
    { clear -Hlen. induction Hlen as [|r rows H _ IH]; constructor; [by rewrite List.length_map|done]. }
    unfold cur_reads, cur_read, mysql_cursor_read, makeArrowSchema, fetchData. rewrite Hac. cbn [or_undef mbind res_bind]. rewrite Hs.
    cbn [or_undef mbind res_bind]. unfold all_columns. rewrite <- (FromFields_length (ai_schema i1)), field_at_all. cbn [mbind res_bind].
    rewrite Hi1, Hcon. cbn [negb]. rewrite decide_False by apply select_sql_nonempty. unfold mysql_rows. rewrite Hq. cbn [mbind res_bind].
    rewrite FromFields_length, length_fmap, length_seq, decide_False by tauto. rewrite push_rows_columns by done. cbn [mbind res_bind].
    rewrite <- (FromFields_length (ai_schema i1)), mysql_columns. done.
  - intros s rows j f zs Hf Hty Hcol Hz. cbn. rewrite list_lookup_imap, Hf. cbn. by rewrite Hty, Hcol, int64_column.
Qed.
End Sql.

(** ** What does not work *)

(** Selected columns cannot be read from SQLite: the database is not open, and reading
    with a schema gives a null pointer. *)
Lemma sqlite_selection_unreadable fs rc se mc me d cols c d1 s : drv_type d = SQLiteDriver -> connected d = false ->
  drv_GetCursor_cols mc me d cols = Ret (Some c, d1) ->
  cur_read fs rc se mc me d1 c = Throw /\ cur_read_schema fs rc mc me d1 c s = Ret None.
Proof.
  intros Hk Hc. unfold drv_GetCursor_cols. rewrite Hk. unfold sqlite_GetCursor. destruct (sqlite_access d) as [[i [p t]]|]; [|done].
  intros (f & _ & [= <- <-])%res_bind_Ret. unfold cur_read, cur_read_schema, sqlite_readInternal. by rewrite Hc.
Qed.

(** A 64-bit number and a double on their way from a database. *)
Example int64_lost : MakeArrowArray 9 [chars "3000000000"] = Int64Array [0].
Proof. vm_compute. reflexivity. Qed.
Example double_shortened : exists d, stod (chars "0.1") = Ret d /\ MakeArrowArray 12 [chars "0.1"] <> DoubleArray [d].
Proof. eexists. split; [vm_compute; reflexivity|]. vm_compute. discriminate. Qed.

(** [readMeta] of one selected MySQL column takes the type of the first field. *)
Example mysql_meta_type :
  let c := MySQL [] 0 [] [] [] [] (chars "t") [] [] in
  let d := Driver MySQLDriver [] (Some (Access [(chars "a", 13); (chars "n", 9)] (Some [(chars "a", 13); (chars "n", 9)]) (MySQLAccess c))) [] false in
  cur_readMeta ∅ (fun _ _ => None) (fun _ _ => None) (fun _ => true) (fun _ _ => Some (1%nat, [[chars "7"]])) d (MySQLCursor (chars "q") [1]) =
    Ret (Some (ATable [(chars "n", 9)] [StringArray [chars "7"]])).
Proof. vm_compute. reflexivity. Qed.

(** The text of an SQLite access information has no schema: a request that carries it
    is answered with an exception. *)
Lemma sqlite_text_refused {S} `{MetaStore S} dump parse mysql fs i p t s : members i = SQLiteAccess p t -> parse (toString dump i) = Some (access_json dump i) ->
  service_getDriver parse mysql fs (toString dump i) true s = Throw.
Proof. intros Hm Hp. unfold service_getDriver, parse_json. rewrite Hp. unfold access_json. rewrite Hm. reflexivity. Qed.

(** A field that cannot be read leaves the fields before it and no Arrow schema, and
    the failure is overwritten. *)
Example partial_schema : exists i,
  createAccessInfo_json (fun s => if decide (s = chars "M") then Some (JObject [(chars "access_meta", JString (chars "/f")); (chars "schema", JString (chars "S"))])
      else if decide (s = chars "S") then Some (JArray [JObject [(chars "a", JInt 9)]; JObject [(chars "b", JString [])]]) else None)
    false (chars "csv") (chars "M") = Ret i /\ ai_schema i = [(chars "a", 9)] /\ arrow_schema i = None.
Proof. eexists. split; [vm_compute; reflexivity|]. done. Qed.

(** A negative column number is not refused. *)
Lemma csv_negative_column d k cols : k < 0 -> arrow_schema <$> access_info d <> Some None -> access_info d <> None ->
  (forall i, access_info d = Some i -> ai_schema i <> []) -> MakeCsvOptions d (k :: cols) None = Undef.
Proof.
  intros Hk Hs Ha Hne. unfold MakeCsvOptions. destruct (access_info d) as [i|]; [|done]. cbn. destruct (arrow_schema i) as [s|]; [|done]. cbn.
  rewrite decide_False by (by apply Hne). unfold field_at. destruct (Z.leb_spec (Z.of_nat (length s)) k); [lia|]. destruct (Z.ltb_spec k 0); [done|lia].
Qed.

(** When reading the data throws, the reply is an error but the driver stays
    registered. *)
Lemma failed_registration_keeps_driver {S} `{MetaStore S} dump parse mysql fs rc so se mc me location info i (s : DatasetService S) :
  createAccessInfo parse mysql (is_file fs) (info_driver info) info = Ret i ->
  do_read fs rc so se mc me (Driver (kind_of (members i)) location (Some i) [] false) = Throw ->
  exists s', RegisterDatasetProcess dump parse mysql fs rc so se mc me location info s = (s', Ret (FAIL, error_reply)) /\
    driver_manager_ s' !! info_id info = Some (length (driver_objects s)).
Proof.
  intros Hi Hr. destruct (createAccessInfo_facts parse mysql _ _ _ _ location Hi) as (Hd & _). eexists. split.
  - unfold RegisterDatasetProcess, newDataset, read_driver, get_driver, set_driver, pure_op, mbind, op_bind, catch_op.
    rewrite Hi, Hd. cbn. rewrite lookup_app_r, Nat.sub_diag by lia. cbn. rewrite Hr. reflexivity.
  - cbn. apply lookup_insert_eq.
Qed.

(** ** The hypotheses can be met *)

Definition file_path : str := chars "/f.csv".
Definition file_info : DatasetMetaInfo := DMI (chars "ds") (chars "csv") file_path [(chars "id", 9); (chars "x", 12)].
Definition file_access : DataSetAccessInfo := Access [(chars "id", 9); (chars "x", 12)] (Some [(chars "id", 9); (chars "x", 12)]) (CSVAccess file_path).
Definition file_table : arrow_table := ATable [(chars "id", 9); (chars "x", 12)] [].
Definition file_driver : DataDriver := Driver CSVDriver (chars "n") (Some file_access) file_path false.

(** Three documents and their texts. *)
Definition doc_dump (j : json) : str :=
  match j with JArray _ => chars "S" | JObject ((k, _) :: _) => if decide (k = chars "access_meta") then chars "M" else chars "A" | _ => [] end.
Definition file_meta : DatasetMeta := dataset_meta file_table file_driver (chars "ds") (chars "A").
Definition doc_parse (s : str) : option json :=
  if decide (s = chars "S") then Some (schema_json (at_schema file_table))
  else if decide (s = chars "A") then Some (access_json doc_dump file_access)
  else if decide (s = chars "M") then match meta_json doc_dump file_meta with Ret j => Some j | _ => None end
  else None.

(** A reader that gives the columns it is asked for. *)
Definition column_reader (o : CsvOptions) (_ : str) : option arrow_table :=
  Some (ATable ((fun n => (n, default 13 (column_types o !! n))) <$> include_columns o) []).

Definition empty_service : DatasetService (gmap str str) := DS (chars "n") ∅ [] ∅.

Lemma registered_dataset_found_witness : exists s' d',
  @RegisterDatasetProcess _ (memory_store doc_dump doc_parse (0, 0)) doc_dump doc_parse false {[file_path := chars "id,x"]} column_reader
    (fun _ => false) (fun _ _ => None) (fun _ => false) (fun _ _ => None) (chars "n") file_info empty_service = (s', Ret (SUCCESS, NR SUCCESS (data_url file_meta))) /\
  @service_getDriver _ (memory_store doc_dump doc_parse (0, 0)) doc_parse false {[file_path := chars "id,x"]} (chars "ds") false s' = Ret (Some d') /\
  exists d'', do_read {[file_path := chars "id,x"]} column_reader (fun _ => false) (fun _ _ => None) (fun _ => false) (fun _ _ => None) d' = Ret (Some (CSVCursor file_path []), d'').
Proof.
  destruct (@registered_dataset_found _ (memory_store doc_dump doc_parse (0, 0)) _ (memory_store_laws doc_dump doc_parse (0, 0)) doc_dump doc_parse false
    {[file_path := chars "id,x"]} column_reader (fun _ => false) (fun _ _ => None) (fun _ => false) (fun _ _ => None)
    (chars "n") file_info empty_service file_access (CSVCursor file_path []) file_driver file_table)
    as (s' & d' & H1 & _ & H2 & _ & _ & H3).
  - vm_compute. reflexivity.
  - vm_compute. reflexivity.
  - vm_compute. reflexivity.
  - discriminate.
  - split; [discriminate|vm_compute; reflexivity].
  - split; [|split].
    + split; [|done|by left]. eexists. split; [reflexivity|]. repeat constructor.
    + split; [intros s [= <-]; vm_compute; reflexivity|intros j [= <-]; vm_compute; reflexivity].
    + reflexivity.
  - exists s', d'. split; [exact H1|]. split; [exact H2|]. destruct H3 as (d'' & H4 & _); [done|done|repeat constructor|]. by exists d''.
Defined.

Definition sqlite_driver : DataDriver :=
  Driver SQLiteDriver [] (Some (Access [(chars "n", 9)] (Some [(chars "n", 9)]) (SQLiteAccess (chars "/db") (chars "t")))) [] false.

Lemma sql_table_read_witness : exists c d1 s,
  drv_read ∅ (fun _ _ => None) (fun _ => true) (fun _ _ => Some [[chars "5"]]) (fun _ => false) (fun _ _ => None) sqlite_driver = Ret (Some c, d1) /\
  cur_read ∅ (fun _ _ => None) (fun _ _ => Some [[chars "5"]]) (fun _ => false) (fun _ _ => None) d1 c = Ret (Some (table_of s [[chars "5"]])).
Proof.
  destruct (drv_read ∅ (fun _ _ => None) (fun _ => true) (fun _ _ => Some [[chars "5"]]) (fun _ => false) (fun _ _ => None) sqlite_driver) as [[[c|] d1]| |] eqn:E;
    try (vm_compute in E; discriminate).
  destruct (sql_table_read ∅ (fun _ _ => None) (fun _ => true) (fun _ _ => Some [[chars "5"]]) (fun _ => false) (fun _ _ => None)
    sqlite_driver (Access [(chars "n", 9)] (Some [(chars "n", 9)]) (SQLiteAccess (chars "/db") (chars "t"))) c d1) as (H & _); [done|exact E|].
  destruct (H (chars "/db") (chars "t") eq_refl eq_refl) as (s & _ & Hs & Hr). exists c, d1, s. split; [done|]. apply Hr; [done|].
  rewrite Hs by discriminate. repeat constructor.
Defined.
