(* ===== verification/Worker.v ===== *)
(** * The scheduler's worker

    Models the scheduler side of [node/worker/worker.cc] and [worker.h]: the status
    reports of a task's parties, the promise that decides the task, and the queue
    the client polls.  [updateTaskStatus] is two atomic parts, the block under
    [final_status_mtx_] and the push to the queue; a history interleaves the parts
    of concurrent calls freely. *)

From Stdlib Require Import Ascii String ZArith Lia.
From stdpp Require Import base tactics list option strings countable gmap.
From S2P Require Import Prelude ModArith Machine StrUtil Common Psi.

(** [rpc::TaskStatus::StatusCode]. *)
Inductive StatusCode : Type := ST_RUNNING | ST_SUCCESS | ST_FAIL | ST_NONEXIST | ST_FINISHED.
#[export] Instance StatusCode_eq_dec : EqDecision StatusCode.
Proof. solve_decision. Defined.

(** [rpc::TaskStatus], less the task's identity. *)
Record TaskStatus : Type := TS { ts_party : str; ts_status : StatusCode; ts_message : str }.

(** [TaskStatus()]: what a failed fetch leaves in a reply. *)
Definition default_status : TaskStatus := TS [] ST_RUNNING [].

(** The scheduler members of [Worker]; a promise holds its value once set. *)
Record Worker : Type := Wk {
  final_status_ : gmap str StatusCode;
  party_count_ : nat;
  scheduler_finished : bool;
  task_finish_promise_ : option retcode;
  task_status_ : list TaskStatus
}.

Definition new_worker : Worker := Wk ∅ 0 false None [].

Definition setPartyCount (n : nat) (w : Worker) : Worker :=
  Wk (final_status_ w) n (scheduler_finished w) (task_finish_promise_ w) (task_status_ w).

(** [task_finish_promise_.set_value(c)] and [scheduler_finished.store(true)]; a
    second [set_value] throws. *)
Definition finish (c : retcode) (w : Worker) : res Worker :=
  match task_finish_promise_ w with
  | Some _ => Throw
  | None => Ret (Wk (final_status_ w) (party_count_ w) true (Some c) (task_status_ w))
  end.

(** The locked block of [updateTaskStatus]. *)
Definition update_final (st : TaskStatus) (w : Worker) : res Worker :=
  if bool_decide (ts_status st = ST_SUCCESS) || bool_decide (ts_status st = ST_FAIL) then
    let w := Wk (<[ts_party st := ts_status st]> (final_status_ w)) (party_count_ w) (scheduler_finished w)
                (task_finish_promise_ w) (task_status_ w) in
    w ← (if bool_decide (ts_status st = ST_FAIL) then if negb (scheduler_finished w) then finish FAIL w else Ret w else Ret w);
    if bool_decide (size (final_status_ w) = party_count_ w) then if negb (scheduler_finished w) then finish SUCCESS w else Ret w
    else Ret w
  else Ret w.

Definition push_status (st : TaskStatus) (w : Worker) : Worker :=
  Wk (final_status_ w) (party_count_ w) (scheduler_finished w) (task_finish_promise_ w) (task_status_ w ++ [st]).

Definition updateTaskStatus (st : TaskStatus) (w : Worker) : res (retcode * Worker) :=
  w ← update_final st w; Ret (SUCCESS, push_status st w).

(** [fetchTaskStatus]: the oldest report, or nothing. *)
Definition fetchTaskStatus (w : Worker) : retcode * option TaskStatus * Worker :=
  match task_status_ w with
  | [] => (FAIL, None, w)
  | st :: q => (SUCCESS, Some st, Wk (final_status_ w) (party_count_ w) (scheduler_finished w) (task_finish_promise_ w) q)
  end.

(** [waitUntilTaskFinish]: blocked while the promise is unset. *)
Definition waitUntilTaskFinish (w : Worker) : option retcode := task_finish_promise_ w.

(** The reply loop of [VMNodeImpl::FetchTaskStatus] on a worker it found: an entry
    is added before each fetch, so the last one stays a default entry. *)
Fixpoint fetch_all (fuel : nat) (w : Worker) : list TaskStatus * Worker :=
  match fuel with
  | O => ([], w)
  | S fuel =>
      match fetchTaskStatus w with
      | (SUCCESS, Some st, w) => let '(l, w) := fetch_all fuel w in (st :: l, w)
      | (_, _, w) => ([default_status], w)
      end
  end.

(** Which runner a request gets. *)
Inductive TaskRunMode : Type := THREAD | PROCESS.
Definition ExecuteMode (params : gmap str ParamValue) (task_run_mode_ : TaskRunMode) : TaskRunMode :=
  match params !! chars "psiTag" with
  | Some p => if bool_decide (get_int32 p = 2%Z) then THREAD else task_run_mode_
  | None => task_run_mode_
  end.

(** ** Histories *)

Inductive wop : Type :=
| OpCount (n : nat)
| OpFinal (st : TaskStatus)
| OpPush (st : TaskStatus)
| OpFetch.

(** The reports handed out so far and the worker. *)
Definition wstep (op : wop) (s : list TaskStatus * Worker) : res (list TaskStatus * Worker) :=
  let '(got, w) := s in
  match op with
  | OpCount n => Ret (got, setPartyCount n w)
  | OpFinal st => w ← update_final st w; Ret (got, w)
  | OpPush st => Ret (got, push_status st w)
  | OpFetch => match fetchTaskStatus w with (_, Some st, w) => Ret (got ++ [st], w) | (_, None, w) => Ret (got, w) end
  end.

Fixpoint wrun (ops : list wop) (s : list TaskStatus * Worker) : res (list TaskStatus * Worker) :=
  match ops with
  | [] => Ret s
  | op :: ops => s ← wstep op s; wrun ops s
  end.

(** The final reports of a history: who reported which of the two final codes. *)
Fixpoint finals (ops : list wop) : list (str * bool) :=
  match ops with
  | [] => []
  | OpFinal st :: ops =>
      match ts_status st with
      | ST_SUCCESS => (ts_party st, true) :: finals ops
      | ST_FAIL => (ts_party st, false) :: finals ops
      | _ => finals ops
      end
  | _ :: ops => finals ops
  end.

Fixpoint pushes (ops : list wop) : list TaskStatus :=
  match ops with
  | [] => []
  | OpPush st :: ops => st :: pushes ops
  | _ :: ops => pushes ops
  end.

(** The parties among some reports. *)
Definition parties (l : list (str * bool)) : gset str := list_to_set l.*1.
Definition all_success (l : list (str * bool)) : Prop := Forall (fun p => p.2 = true) l.

(** The task succeeds at the first moment [n] parties have reported success with
    no failure before it, and fails at a failure that comes earlier. *)
Definition succeeds (n : nat) (l : list (str * bool)) : Prop :=
  exists pre post, l = pre ++ post /\ all_success pre /\ size (parties pre) = n.
Definition fails (n : nat) (l : list (str * bool)) : Prop :=
  exists pre p post, l = pre ++ (p, false) :: post /\ all_success pre /\ (size (parties pre) < n)%nat.

(** The promise after some reports, [v] before them, when [seen] have reported and the
    scheduler's number of parties is [n]. *)
Fixpoint verdict_from (n : nat) (seen : gset str) (v : option retcode) (l : list (str * bool)) : option retcode :=
  match l with
  | [] => v
  | (p, b) :: l =>
      let seen := seen ∪ {[p]} in
      verdict_from n seen
        (match v with
         | Some c => Some c
         | None => if b : bool then if decide (size seen = n) then Some SUCCESS else None else Some FAIL
         end) l
  end.

(** The reports [early] come before the scheduler sets the number of parties, which is
    zero until then, and [late] after it. *)
Definition reports_verdict (n : nat) (early late : list (str * bool)) : option retcode :=
  verdict_from n (parties early) (verdict_from 0 ∅ None early) late.

(** ** The invariant *)

Lemma parties_snoc l p b : parties (l ++ [(p, b)]) = parties l ∪ {[p]}.
Proof. unfold parties. rewrite fmap_app, list_to_set_app_L. simpl. set_solver. Qed.

Lemma parties_mono l k : (size (parties l) <= size (parties (l ++ k)))%nat.
Proof. apply subseteq_size. unfold parties. rewrite fmap_app, list_to_set_app_L. set_solver. Qed.

(** The reports [l] so far and the worker agree: before a decision every report
    was a success, fewer than [n] parties made one and the map's keys are those
    parties; afterwards the promise tells which end came first. *)
Definition decided (n : nat) (l : list (str * bool)) (w : Worker) : Prop :=
  party_count_ w = n /\ dom (final_status_ w) = parties l /\ scheduler_finished w = bool_decide (is_Some (task_finish_promise_ w)) /\
  match task_finish_promise_ w with
  | None => all_success l /\ (size (parties l) < n)%nat
  | Some SUCCESS => succeeds n l
  | Some FAIL => fails n l
  end.

Lemma succeeds_snoc n l x : succeeds n l -> succeeds n (l ++ x).
Proof. intros (pre & post & -> & H). exists pre, (post ++ x). by rewrite <- app_assoc. Qed.

Lemma fails_snoc n l x : fails n l -> fails n (l ++ x).
Proof. intros (pre & p & post & -> & H). exists pre, p, (post ++ x). by rewrite <- app_assoc. Qed.

Lemma succeeds_not_fails n l : succeeds n l -> ~ fails n l.
Proof.
  intros (pre & post & -> & Hs & Hn) (pre' & p & post' & E & Hs' & Hn').
  apply app_eq_inv in E as [(k & -> & E)|(k & -> & E)].
  - destruct k as [|x k]; simpl in E.
    + rewrite app_nil_r in Hn. lia.
    + injection E as <- _. apply Forall_app in Hs as [_ Hs]. apply Forall_cons in Hs as [Hx _]. done.
  - assert (H := parties_mono pre k). lia.
Qed.

(** One report keeps the agreement and never sets the promise twice. *)
Lemma update_final_decided n l w st : decided n l w ->
  exists w', update_final st w = Ret w' /\ decided n (l ++ finals [OpFinal st]) w' /\ task_status_ w' = task_status_ w.
Proof.
  destruct w as [fs pc sf pr q], st as [p c msg]. intros (Hc & Hd & Hf & Hp). cbn in Hc, Hd, Hf, Hp. subst pc.
  assert (Hsf : sf = match pr with Some _ => true | None => false end) by (destruct pr; by rewrite Hf). clear Hf. subst sf.
  assert (Hd' : forall b, dom (<[p := c]> fs) = parties (l ++ [(p, b)])) by (intros b; rewrite parties_snoc, dom_insert_L, Hd; clear; set_solver).
  assert (Hsz : forall b, size (<[p := c]> fs) = size (parties (l ++ [(p, b)]))) by (intros b; by rewrite <- (Hd' b), size_dom).
  unfold update_final. cbn [ts_status ts_party final_status_ party_count_ scheduler_finished task_finish_promise_ task_status_].
  destruct c; cbn [finals ts_status ts_party]; rewrite ?app_nil_r.
  1, 4, 5: eexists; split_and!; [reflexivity| |reflexivity]; unfold decided; cbn; by destruct pr.
  - rewrite (bool_decide_eq_true_2 (ST_SUCCESS = ST_SUCCESS)) by done. rewrite (bool_decide_eq_false_2 (ST_SUCCESS = ST_FAIL)) by done.
    cbn [orb mbind res_bind]. destruct pr as [c|]; cbn [negb final_status_ party_count_ scheduler_finished].
    + case_bool_decide; (eexists; split_and!; [reflexivity| |reflexivity]);
        (split_and!; [done|apply Hd'|done|]); destruct c; cbn; by first [apply succeeds_snoc|apply fails_snoc].
    + destruct Hp as [Hs Hlt].
      assert (Hs' : all_success (l ++ [(p, true)])) by (apply Forall_app; split; [done|by repeat constructor]).
      rewrite (Hsz true). case_bool_decide as Hn.
      * eexists. split_and!; [reflexivity| |reflexivity]. split_and!; [done|apply Hd'|done|].
        exists (l ++ [(p, true)]), []. rewrite app_nil_r. done.
      * eexists. split_and!; [reflexivity| |reflexivity]. split_and!; [done|apply Hd'|done|]. split; [done|].
        rewrite parties_snoc in *. assert (Hu : (size (parties l ∪ {[p]}) <= size (parties l) + 1)%nat).
        { rewrite size_union_alt. assert (Hk : size ({[p]} ∖ parties l) <= size ({[p]} : gset str)) by (apply subseteq_size; clear; set_solver).
          rewrite size_singleton in Hk. lia. }
        cbn in *. lia.
  - rewrite (bool_decide_eq_true_2 (ST_FAIL = ST_FAIL)) by done. rewrite orb_true_r. destruct pr as [c|].
    + cbn [negb mbind res_bind scheduler_finished final_status_ party_count_].
      case_bool_decide; (eexists; split_and!; [reflexivity| |reflexivity]);
        (split_and!; [done|apply Hd'|done|]); destruct c; cbn; by first [apply succeeds_snoc|apply fails_snoc].
    + destruct Hp as [Hs Hlt].
      cbn [negb scheduler_finished]. unfold finish. cbn [task_finish_promise_ mbind res_bind final_status_ party_count_ scheduler_finished negb].
      case_bool_decide; (eexists; split_and!; [reflexivity| |reflexivity]);
        (split_and!; [done|apply Hd'|done|]; exists l, p, []; done).
Qed.

Definition not_count (op : wop) : bool := match op with OpCount _ => false | _ => true end.

Lemma finals_cons op ops : finals (op :: ops) = finals [op] ++ finals ops.
Proof. destruct op as [n|[p [] m]|st|]; done. Qed.

Lemma wrun_decided n ops l got w : Forall (fun op => not_count op = true) ops -> decided n l w ->
  exists got' w', wrun ops (got, w) = Ret (got', w') /\ decided n (l ++ finals ops) w' /\ got' ++ task_status_ w' = got ++ task_status_ w ++ pushes ops.
Proof.
  intros Hnc. revert l got w. induction Hnc as [|op ops Hop Hnc IH]; intros l got w Hd; cbn [wrun].
  - exists got, w. cbn. by rewrite !app_nil_r.
  - rewrite finals_cons, app_assoc. destruct op as [k|st|st|]; cbn [wstep pushes]; [done|..].
    + destruct (update_final_decided n l w st Hd) as (w1 & E & Hd1 & Hq). rewrite E. cbn [mbind res_bind].
      destruct (IH _ got w1 Hd1) as (got' & w' & Er & Hd' & Hg). exists got', w'. rewrite <- Hq. done.
    + cbn [mbind res_bind]. cbn [finals]. rewrite app_nil_r.
      destruct (IH l got (push_status st w)) as (got' & w' & Er & Hd' & Hg); [done|].
      exists got', w'. split_and!; [done..|]. rewrite Hg. cbn. by rewrite <- (app_assoc (task_status_ w)).
    + unfold fetchTaskStatus. cbn [finals]. rewrite app_nil_r. destruct (task_status_ w) as [|st q] eqn:Eq; cbn [mbind res_bind].
      * destruct (IH l got w) as (got' & w' & Er & Hd' & Hg); [done|]. exists got', w'. by rewrite Eq in Hg.
      * destruct (IH l (got ++ [st]) (Wk (final_status_ w) (party_count_ w) (scheduler_finished w) (task_finish_promise_ w) q)) as (got' & w' & Er & Hd' & Hg); [done|].
        exists got', w'. split_and!; [done..|]. rewrite Hg. cbn. by rewrite <- app_assoc.
Qed.

(** The promise as the two ends. *)
Lemma decided_outcome n l w : decided n l w ->
  (waitUntilTaskFinish w = Some SUCCESS <-> succeeds n l) /\ (waitUntilTaskFinish w = Some FAIL <-> fails n l).
Proof.
  unfold waitUntilTaskFinish. intros (_ & _ & _ & Hp). split.
  - destruct (task_finish_promise_ w) as [[]|]; split; intros H; try done.
    + by destruct (succeeds_not_fails n l).
    + destruct Hp as [_ Hlt], H as (pre & post & -> & _ & Hs). assert (Hm := parties_mono pre post). lia.
  - destruct (task_finish_promise_ w) as [[]|]; split; intros H; try done.
    + by destruct (succeeds_not_fails n l).
    + destruct Hp as [Hs _], H as (pre & p & post & -> & _). apply Forall_app in Hs as [_ Hs]. by apply Forall_cons in Hs as [? _].
Qed.

Lemma new_worker_decided n : (0 < n)%nat -> decided n [] (setPartyCount n new_worker).
Proof. intros Hn. split_and!; [done..|]. split; [constructor|done]. Qed.

(** ** The verdict when the number of parties comes late *)

(** The worker has heard of [seen] and its promise is [v]. *)
Definition tracks (v : option retcode) (seen : gset str) (w : Worker) : Prop :=
  dom (final_status_ w) = seen /\ task_finish_promise_ w = v /\ scheduler_finished w = bool_decide (is_Some v).

Lemma update_final_tracks st w v seen : tracks v seen w ->
  exists w', update_final st w = Ret w' /\ party_count_ w' = party_count_ w /\ task_status_ w' = task_status_ w /\
    tracks (verdict_from (party_count_ w) seen v (finals [OpFinal st])) (seen ∪ parties (finals [OpFinal st])) w'.
Proof.
  destruct w as [fs pc sf pr q], st as [p c msg]. intros (Hd & Hp & Hf). cbn in Hd, Hp, Hf. subst pr.
  assert (Hsf : sf = match v with Some _ => true | None => false end) by (destruct v; by rewrite Hf). clear Hf. subst sf.
  assert (Hd' : dom (<[p := c]> fs) = seen ∪ {[p]}) by (rewrite dom_insert_L, Hd; clear; set_solver).
  assert (Hsz : size (<[p := c]> fs) = size (seen ∪ {[p]})) by (by rewrite <- Hd', size_dom).
  assert (Hone : forall b, parties [(p, b)] = {[p]}) by (intros b; unfold parties; cbn; set_solver).
  unfold update_final. cbn [ts_status ts_party final_status_ party_count_ scheduler_finished task_finish_promise_ task_status_].
  destruct c; cbn [finals ts_status ts_party verdict_from]; rewrite ?Hone.
  1, 4, 5: eexists; split_and!; [reflexivity..|]; (split_and!; cbn; [unfold parties; cbn; set_solver|done|by destruct v]).
  - rewrite (bool_decide_eq_true_2 (ST_SUCCESS = ST_SUCCESS)) by done. rewrite (bool_decide_eq_false_2 (ST_SUCCESS = ST_FAIL)) by done.
    cbn [orb mbind res_bind final_status_ party_count_ scheduler_finished]. rewrite Hsz.
    destruct v as [c|]; cbn [negb]; [case_bool_decide; by eexists|]. rewrite bool_decide_decide.
    destruct (decide (size (seen ∪ {[p]}) = pc)); by eexists.
  - rewrite (bool_decide_eq_true_2 (ST_FAIL = ST_FAIL)) by done. rewrite orb_true_r.
    destruct v as [c|]; cbn [negb mbind res_bind scheduler_finished final_status_ party_count_ finish task_finish_promise_]; case_bool_decide; by eexists.
Qed.

Lemma verdict_from_app n seen v l k : verdict_from n seen v (l ++ k) = verdict_from n (seen ∪ parties l) (verdict_from n seen v l) k.
Proof.
  revert seen v. induction l as [|[p b] l IH]; intros seen v; cbn [app verdict_from].
  - unfold parties. cbn. by rewrite union_empty_r_L.
  - rewrite IH. f_equal. unfold parties. cbn. set_solver.
Qed.

Lemma parties_app l k : parties (l ++ k) = parties l ∪ parties k.
Proof. unfold parties. by rewrite fmap_app, list_to_set_app_L. Qed.

(** No report of a history throws, and the promise follows the reports. *)
Lemma wrun_tracks ops got w v seen : Forall (fun op => not_count op = true) ops -> tracks v seen w ->
  exists got' w', wrun ops (got, w) = Ret (got', w') /\ party_count_ w' = party_count_ w /\
    tracks (verdict_from (party_count_ w) seen v (finals ops)) (seen ∪ parties (finals ops)) w' /\
    got' ++ task_status_ w' = got ++ task_status_ w ++ pushes ops.
Proof.
  intros Hnc. revert got w v seen. induction Hnc as [|op ops Hop Hnc IH]; intros got w v seen Hd; cbn [wrun].
  - exists got, w. cbn. rewrite !app_nil_r. split_and!; [done..| |done]. unfold parties. cbn. by rewrite union_empty_r_L.
  - rewrite finals_cons, verdict_from_app, parties_app, union_assoc_L. destruct op as [k|st|st|]; cbn [wstep pushes]; [done|..].
    + destruct (update_final_tracks st w v seen Hd) as (w1 & E & Hc & Hq & Hd1). rewrite E. cbn [mbind res_bind].
      destruct (IH got w1 _ _ Hd1) as (got' & w' & Er & Hc' & Hd' & Hg). exists got', w'. rewrite <- Hc, <- Hq. split_and!; [done..| |done]. by rewrite Hc in Hd' |- *.
    + cbn [mbind res_bind finals verdict_from]. change (parties []) with (∅ : gset str). rewrite union_empty_r_L.
      destruct (IH got (push_status st w) v seen) as (got' & w' & Er & Hc & Hd' & Hg); [done|].
      exists got', w'. split_and!; [done..|]. rewrite Hg. cbn. by rewrite <- (app_assoc (task_status_ w)).
    + unfold fetchTaskStatus. cbn [finals verdict_from]. change (parties []) with (∅ : gset str). rewrite union_empty_r_L.
      destruct (task_status_ w) as [|st q] eqn:Eq; cbn [mbind res_bind].
      * destruct (IH got w v seen) as (got' & w' & Er & Hc & Hd' & Hg); [done|]. exists got', w'. by rewrite Eq in Hg.
      * destruct (IH (got ++ [st]) (Wk (final_status_ w) (party_count_ w) (scheduler_finished w) (task_finish_promise_ w) q) v seen) as (got' & w' & Er & Hc & Hd' & Hg); [done|].
        exists got', w'. split_and!; [done..|]. rewrite Hg. cbn. by rewrite <- app_assoc.
Qed.

Lemma finals_app l k : finals (l ++ k) = finals l ++ finals k.
Proof. induction l as [|op l IH]; [done|]. cbn [app]. rewrite finals_cons, (finals_cons op l), IH. by rewrite app_assoc. Qed.

Lemma pushes_ops_app l k : pushes (l ++ k) = pushes l ++ pushes k.
Proof. induction l as [|[] l IH]; cbn [app pushes]; by rewrite ?IH. Qed.

(** A history in which the number of parties comes somewhere. *)
Lemma wrun_late_count n pre post : Forall (fun op => not_count op = true) pre -> Forall (fun op => not_count op = true) post ->
  exists got w, wrun (pre ++ OpCount n :: post) ([], new_worker) = Ret (got, w) /\
    waitUntilTaskFinish w = reports_verdict n (finals pre) (finals post) /\ got ++ task_status_ w = pushes (pre ++ post).
Proof.
  intros Hpre Hpost. destruct (wrun_tracks pre [] new_worker None ∅ Hpre) as (g1 & w1 & E1 & Hc1 & Hd1 & Hg1); [by split_and!|].
  destruct (wrun_tracks post g1 (setPartyCount n w1) (verdict_from 0 ∅ None (finals pre)) (parties (finals pre)) Hpost) as (g2 & w2 & E2 & Hc2 & (Hd2 & Hp2 & _) & Hg2).
  { destruct Hd1 as (Hd & Hp & Hf). rewrite union_empty_l_L in Hd. by split_and!. }
  exists g2, w2. split_and!.
  - assert (Hrun : forall a b s, wrun (a ++ b) s = wrun a s ≫= wrun b).
    { intros a b. induction a as [|op a IH]; intros s; [done|]. cbn [app wrun]. destruct (wstep op s); [apply IH|done|done]. }
    rewrite Hrun, E1. cbn [mbind res_bind wrun wstep]. exact E2.
  - exact Hp2.
  - rewrite Hg2, pushes_ops_app. cbn [setPartyCount task_status_]. rewrite app_assoc. by f_equal.
Qed.

Lemma verdict_kept n seen c l : verdict_from n seen (Some c) l = Some c.
Proof. revert seen. induction l as [|[p b] l IH]; intros seen; [done|apply IH]. Qed.

(** Successes before the number is set decide nothing. *)
Lemma verdict_zero seen l : all_success l -> verdict_from 0 seen None l = None.
Proof.
  intros H. revert seen. induction H as [|[p b] l Hb _ IH]; intros seen; [done|]. cbn in Hb. subst b. cbn [verdict_from].
  rewrite decide_False; [apply IH|]. intros Hz. apply size_empty_inv in Hz. set_solver.
Qed.

(** The last success decides when it completes the number. *)
Lemma verdict_success n seen l : all_success l -> l <> [] -> size (seen ∪ parties l) = n -> verdict_from n seen None l = Some SUCCESS.
Proof.
  intros H. revert seen. induction H as [|[p b] l Hb Hs IH]; intros seen Hne Hn; [done|]. cbn in Hb. subst b. cbn [verdict_from].
  assert (E : seen ∪ parties ((p, true) :: l) = seen ∪ {[p]} ∪ parties l) by (unfold parties; cbn; set_solver). rewrite E in Hn.
  destruct l as [|x l].
  - change (parties []) with (∅ : gset str) in Hn. rewrite union_empty_r_L in Hn. by rewrite decide_True.
  - case_decide; [apply verdict_kept|]. by apply IH.
Qed.

(** A failure decides while fewer have reported success. *)
Lemma verdict_failure n seen pre p post : all_success pre -> (size (seen ∪ parties pre) < n)%nat ->
  verdict_from n seen None (pre ++ (p, false) :: post) = Some FAIL.
Proof.
  intros H. revert seen. induction H as [|[q b] pre Hb Hs IH]; intros seen Hn; cbn [app verdict_from]; [apply verdict_kept|]. cbn in Hb. subst b.
  assert (E : seen ∪ parties ((q, true) :: pre) = seen ∪ {[q]} ∪ parties pre) by (unfold parties; cbn; set_solver). rewrite E in Hn.
  rewrite decide_False; [by apply IH|]. assert (Hsub : size (seen ∪ {[q]}) <= size (seen ∪ {[q]} ∪ parties pre)) by (apply subseteq_size; set_solver). lia.
Qed.

(** With all successes in, the task is decided unless all of them came early. *)
Lemma late_success n early late : all_success (early ++ late) -> size (parties (early ++ late)) = n ->
  reports_verdict n early late = if decide (late = []) then None else Some SUCCESS.
Proof.
  unfold reports_verdict, all_success. intros [He Hl]%Forall_app Hn. rewrite parties_app in Hn. rewrite verdict_zero by done.
  case_decide as E; [by rewrite E|]. by apply verdict_success.
Qed.

(** A failure decides whenever it comes. *)
Lemma late_failure n early late : fails n (early ++ late) -> reports_verdict n early late = Some FAIL.
Proof.
  intros (pre & p & post & E & Hs & Hn). unfold reports_verdict. apply app_eq_inv in E as [(k & -> & E)|(k & -> & E)].
  - destruct k as [|x k]; cbn in E.
    + subst late. rewrite app_nil_r. rewrite verdict_zero by done. apply (verdict_failure n _ []); [constructor|]. change (parties []) with (∅ : gset str). by rewrite union_empty_r_L.
    + injection E as <- _. rewrite verdict_from_app, verdict_zero by done. cbn [verdict_from]. by rewrite !verdict_kept.
  - subst late. apply Forall_app in Hs as [Hs1 Hs2]. rewrite verdict_zero by done. apply verdict_failure; [done|]. by rewrite <- parties_app.
Qed.

(** C7: a task's outcome.  Once the scheduler knows how many parties take part, and
    whatever the interleaving of their reports and of the client's polls, no
    report throws; the promise is set to success exactly when that many parties
    reported success with no failure before, to failure exactly when a failure
    came before that, and stays unset otherwise; and the client receives the
    reports in the order they were queued, none lost and none twice. *)
Theorem worker_outcome n ops : (0 < n)%nat -> Forall (fun op => not_count op = true) ops ->
  exists got w, wrun (OpCount n :: ops) ([], new_worker) = Ret (got, w) /\
    (waitUntilTaskFinish w = Some SUCCESS <-> succeeds n (finals ops)) /\
    (waitUntilTaskFinish w = Some FAIL <-> fails n (finals ops)) /\
    got ++ task_status_ w = pushes ops.
Proof.
  intros Hn Hnc. cbn [wrun wstep mbind res_bind].
  destruct (wrun_decided n ops [] [] (setPartyCount n new_worker) Hnc (new_worker_decided n Hn)) as (got & w & E & Hd & Hg).
  destruct (decided_outcome n (finals ops) w Hd) as [H1 H2]. by exists got, w.
Qed.

Definition sample_reports : list wop :=
  [OpFinal (TS (chars "A") ST_SUCCESS []); OpPush (TS (chars "A") ST_SUCCESS []); OpFetch; OpFinal (TS (chars "B") ST_SUCCESS [])].

Lemma worker_outcome_witness :
  exists got w, wrun (OpCount 2 :: sample_reports) ([], new_worker) = Ret (got, w) /\ waitUntilTaskFinish w = Some SUCCESS.
Proof.
  destruct (worker_outcome 2 sample_reports) as (got & w & E & [_ H] & _); [lia|repeat constructor|].
  exists got, w. split; [exact E|]. apply H. exists [(chars "A", true); (chars "B", true)], []. split_and!; [reflexivity|repeat constructor|reflexivity].
Defined.

(** a scheduler that learns the number of parties only after they have all
    reported success does not decide the task: whatever the number, no report
    throws and every party is on record, but the promise stays unset. *)
Theorem late_party_count_undecided sts n : Forall (fun st => ts_status st = ST_SUCCESS) sts ->
  exists w, wrun ((OpFinal <$> sts) ++ [OpCount n]) ([], new_worker) = Ret ([], w) /\ waitUntilTaskFinish w = None /\
    dom (final_status_ w) = list_to_set (ts_party <$> sts).
Proof.
  intros Hs. assert (H : forall fs, exists w, wrun ((OpFinal <$> sts) ++ [OpCount n]) ([], Wk fs 0 false None []) = Ret ([], w) /\
    waitUntilTaskFinish w = None /\ dom (final_status_ w) = dom fs ∪ list_to_set (ts_party <$> sts)).
  2: { destruct (H ∅) as (w & E & Hw & Hdom). exists w. split_and!; [done..|]. rewrite Hdom. set_solver. }
  induction Hs as [|st sts Hst _ IH]; intros fs.
  - exists (Wk fs n false None []). split_and!; [done..|]. simpl. set_solver.
  - destruct (IH (<[ts_party st := ST_SUCCESS]> fs)) as (w & E & Hw & Hdom). exists w. split_and!; [|done|].
    + cbn [fmap list_fmap app wrun wstep]. unfold update_final. rewrite Hst.
      rewrite (bool_decide_eq_true_2 (ST_SUCCESS = ST_SUCCESS)), (bool_decide_eq_false_2 (ST_SUCCESS = ST_FAIL)) by done.
      cbn [orb mbind res_bind final_status_ party_count_]. rewrite bool_decide_eq_false_2; [exact E|].
      intros Hz. apply map_size_empty_inv in Hz. by apply insert_non_empty in Hz.
    + rewrite Hdom, dom_insert_L. cbn [fmap list_fmap list_to_set]. set_solver.
Qed.

Lemma late_party_count_undecided_witness :
  exists w, wrun ((OpFinal <$> [TS (chars "A") ST_SUCCESS []; TS (chars "B") ST_SUCCESS []]) ++ [OpCount 2]) ([], new_worker) = Ret ([], w) /\
    waitUntilTaskFinish w = None.
Proof.
  destruct (late_party_count_undecided [TS (chars "A") ST_SUCCESS []; TS (chars "B") ST_SUCCESS []] 2) as (w & E & H & _); [repeat constructor|].
  exists w. exact (conj E H).
Defined.
