(* ===== verification/NodeImpl.v ===== *)
(** * The node

    Models the task bookkeeping of [node/node_impl.cc]: the duplicate filter, the
    queue of add/delete/kill operations and the map of running workers it drives,
    the cache of finished tasks, the scheduler's workers, and the data plane that
    moves messages between a task's link queues.  Workers are heap objects: the
    maps hold references.  A dispatch has two steps, entering the worker in the map and
    setting its party count, and reports of the parties may arrive in between. *)

From Stdlib Require Import Ascii String ZArith Lia.
From stdpp Require Import base tactics list option strings countable gmap.
From S2P Require Import Prelude ModArith Machine StrUtil Common Worker.

Local Open Scope Z_scope.

(** ** The duplicate filter *)

Definition task_id_timeout_s_ : Z := 30.

(** [request_id + "_" + sub_task_id]. *)
Definition task_uid (request_id sub_task_id : str) : str := request_id ++ chars "_" ++ sub_task_id.

Definition CleanDuplicateTaskIdFilter (now : Z) (f : gmap str Z) : gmap str Z :=
  filter (fun p : str * Z => ~ now - p.2 > task_id_timeout_s_) f.

Definition IsDuplicateTask (now : Z) (uid : str) (f : gmap str Z) : bool * gmap str Z :=
  match f !! uid with
  | Some _ => (true, f)
  | None => (false, <[uid := now]> f)
  end.

(** The entry checks of [ExecuteTask]: the two functions read the clock in turn. *)
Definition accept_task (t1 t2 : Z) (uid : str) (f : gmap str Z) : bool * gmap str Z :=
  let '(dup, f) := IsDuplicateTask t2 uid (CleanDuplicateTaskIdFilter t1 f) in (negb dup, f).

(** ** Task operations *)

Inductive OperateTaskType : Type := kUnknown | kAdd | kDel | kKill.
#[export] Instance OperateTaskType_eq_dec : EqDecision OperateTaskType.
Proof. solve_decision. Defined.

(** A reference to a worker object. *)
Abbreviation wref := nat.

(** [task_manage_t]: the worker id, the executor (null for delete and kill), the
    operation. *)
Record task_manage : Type := TM { tm_id : str; tm_worker : option wref; tm_op : OperateTaskType }.

(** [task_executor_map_] and the queues to the cleaning and the killing thread. *)
Record executors : Type := Ex {
  task_executor_map_ : gmap str (list (option wref));
  finished_task_queue_ : list (list (option wref));
  kill_task_queue_ : list (list (option wref))
}.

(** Both branches: an existing container grows, a new one is made. *)
Definition ExecuteAddTaskOperation (t : task_manage) (e : executors) : executors :=
  match task_executor_map_ e !! tm_id t with
  | Some q => Ex (<[tm_id t := q ++ [tm_worker t]]> (task_executor_map_ e)) (finished_task_queue_ e) (kill_task_queue_ e)
  | None => Ex (<[tm_id t := [tm_worker t]]> (task_executor_map_ e)) (finished_task_queue_ e) (kill_task_queue_ e)
  end.

Definition ExecuteDelTaskOperation (t : task_manage) (e : executors) : executors :=
  match task_executor_map_ e !! tm_id t with
  | Some q => Ex (delete (tm_id t) (task_executor_map_ e)) (finished_task_queue_ e ++ [q]) (kill_task_queue_ e)
  | None => e
  end.

Definition ExecuteKillTaskOperation (t : task_manage) (e : executors) : executors :=
  match task_executor_map_ e !! tm_id t with
  | Some q => Ex (delete (tm_id t) (task_executor_map_ e)) (finished_task_queue_ e) (kill_task_queue_ e ++ [q])
  | None => e
  end.

(** One turn of the [ManageTaskOperatorThread] loop. *)
Definition manage_one (t : task_manage) (e : executors) : executors :=
  match tm_op t with
  | kAdd => ExecuteAddTaskOperation t e
  | kDel => ExecuteDelTaskOperation t e
  | kKill => ExecuteKillTaskOperation t e
  | kUnknown => e
  end.

Definition manage_all (q : list task_manage) (e : executors) : executors := fold_left (fun e t => manage_one t e) q e.

(** One turn of [ProcessKillTaskThread]: the workers that receive [kill_task]. *)
Definition kill_turn (e : executors) : list wref * executors :=
  match kill_task_queue_ e with
  | [] => ([], e)
  | q :: rest => (omap id q, Ex (task_executor_map_ e) (finished_task_queue_ e) rest)
  end.

(** One turn of [CleanFinishedTaskThread]. *)
Definition clean_turn (e : executors) : executors :=
  match finished_task_queue_ e with
  | [] => e
  | _ :: rest => Ex (task_executor_map_ e) rest (kill_task_queue_ e)
  end.

Definition StopTask (id : str) (q : list task_manage) : list task_manage := q ++ [TM id None kDel].

(** [GetWorker]: the front of the container, which must not be empty. *)
Definition GetWorker (id : str) (e : executors) : res (option wref) :=
  match task_executor_map_ e !! id with
  | Some q => or_undef (head q)
  | None => Ret None
  end.

Definition IsTaskWorkerReady (write_flag : bool) (id : str) (e : executors) : bool :=
  if write_flag then false else bool_decide (is_Some (task_executor_map_ e !! id)).

(** ** Finished tasks *)

Definition cached_task_status_timeout_ : Z := 5.

Definition CacheLastTaskStatus (now : Z) (id : str) (st : StatusCode) (c : gmap str (StatusCode * Z)) : gmap str (StatusCode * Z) :=
  <[id := (st, now)]> c.

Definition IsFinishedTask (id : str) (c : gmap str (StatusCode * Z)) : bool * StatusCode :=
  match c !! id with Some (st, _) => (true, st) | None => (false, ST_FINISHED) end.

(** One turn of [CleanTimeoutCachedTaskStatusThread]. *)
Definition clean_cached (now : Z) (c : gmap str (StatusCode * Z)) : gmap str (StatusCode * Z) :=
  filter (fun p : str * (StatusCode * Z) => ~ now - p.2.2 > cached_task_status_timeout_) c.

(** ** The scheduler *)

(** [task_scheduler_map_] and the worker objects. *)
Record scheduler : Type := Sch { task_scheduler_map_ : gmap str wref; workers : gmap wref Worker }.

(** What became of parsing and dispatching a task. *)
Inductive dispatch : Type := no_parser | not_dispatched | dispatched (task_server : list Node) | threw.

Definition GetSchedulerWorker (id : str) (s : scheduler) : option wref := task_scheduler_map_ s !! id.

(** [VMNodeImpl::UpdateTaskStatus]. *)
Definition UpdateTaskStatus (id : str) (st : TaskStatus) (s : scheduler) : res (retcode * scheduler) :=
  match GetSchedulerWorker id s with
  | None => Ret (FAIL, s)
  | Some r =>
      w ← or_undef (workers s !! r);
      '(_, w) ← updateTaskStatus st w;
      Ret (SUCCESS, Sch (task_scheduler_map_ s) (<[r := w]> (workers s)))
  end.

(** A series of reports for one task. *)
Fixpoint report_all (id : str) (sts : list TaskStatus) (s : scheduler) : res scheduler :=
  match sts with
  | [] => Ret s
  | st :: sts => '(_, s) ← UpdateTaskStatus id st s; report_all id sts s
  end.

(** The first part of [DispatchTask]: a new worker object [w] is entered; [insert]
    keeps an existing entry. *)
Definition begin_dispatch (id : str) (w : wref) (s : scheduler) : scheduler :=
  Sch (match task_scheduler_map_ s !! id with Some _ => task_scheduler_map_ s | None => <[id := w]> (task_scheduler_map_ s) end)
      (<[w := new_worker]> (workers s)).

(** The part after parsing and sending: the number of parties goes to the new object. *)
Definition end_dispatch (w : wref) (d : dispatch) (s : scheduler) : retcode * Z * scheduler :=
  match d with
  | no_parser | not_dispatched => (FAIL, 1, s)
  | dispatched servers => (SUCCESS, 0, Sch (task_scheduler_map_ s) (alter (setPartyCount (length servers)) w (workers s)))
  | threw => (SUCCESS, 2, s)
  end.

(** [DispatchTask]: parties that already have their request report, [early], before the
    number of parties is known. *)
Definition DispatchTask (id : str) (w : wref) (early : list TaskStatus) (d : dispatch) (s : scheduler) : res (retcode * Z * scheduler) :=
  s ← report_all id early (begin_dispatch id w s);
  Ret (end_dispatch w d s).

(** [VMNodeImpl::FetchTaskStatus]: every queued report and the entry the last,
    failing fetch leaves behind. *)
Definition FetchTaskStatus (id : str) (s : scheduler) : res (retcode * list TaskStatus * scheduler) :=
  match GetSchedulerWorker id s with
  | None => Ret (SUCCESS, [TS [] ST_NONEXIST (chars "No shecudler found for task")], s)
  | Some r =>
      w ← or_undef (workers s !! r);
      let '(l, w) := fetch_all (S (length (task_status_ w))) w in
      Ret (SUCCESS, l, Sch (task_scheduler_map_ s) (<[r := w]> (workers s)))
  end.

Definition ROLE_SCHEDULER : str := chars "SCHEDULER".

(** [KillTask]: the client's kill is a failure report to the scheduler's worker,
    any other one an operation for the manage thread. *)
Definition KillTask (by_client : bool) (id : str) (cache : gmap str (StatusCode * Z)) (q : list task_manage) (s : scheduler) :
    res (retcode * list task_manage * scheduler) :=
  if (IsFinishedTask id cache).1 then Ret (SUCCESS, q, s)
  else if by_client then
    match GetSchedulerWorker id s with
    | None => Ret (SUCCESS, q, s)
    | Some r =>
        w ← or_undef (workers s !! r);
        '(_, w) ← updateTaskStatus (TS ROLE_SCHEDULER ST_FAIL (chars "kill task by client actively")) w;
        Ret (SUCCESS, q, Sch (task_scheduler_map_ s) (<[r := w]> (workers s)))
    end
  else Ret (SUCCESS, q ++ [TM id None kKill], s).


Definition GetAllParties (party_access_info : list (str * Node)) (auxiliary_server : gmap str Node) : list Node :=
  party_access_info.*2 ++ match auxiliary_server !! AUX_COMPUTE_NODE with Some n => [n] | None => [] end.

(** The two loops of [scheduler_func] that collect who is told to kill a task. *)
Fixpoint add_new_parties (seen : gset str) (ns : list Node) : list Node * gset str :=
  match ns with
  | [] => ([], seen)
  | n :: ns =>
      if decide (node_to_string n ∈ seen) then add_new_parties seen ns
      else let '(l, seen) := add_new_parties ({[node_to_string n]} ∪ seen) ns in (n :: l, seen)
  end.

Definition kill_targets (all_party parties : list Node) : list Node :=
  let '(l1, seen) := add_new_parties ∅ all_party in
  let '(l2, _) := add_new_parties seen parties in
  l1 ++ l2.

(** [scheduler_func] after the promise was set: whom it sends a kill, and the id it
    reports as finished. *)
Definition scheduler_func (ret : retcode) (id : str) (all_party parties : list Node) (finished : list str) : list Node * list str :=
  (if decide (ret <> SUCCESS) then kill_targets all_party parties else [], finished ++ [id]).

(** ** The duplicate filter lets a task in once per window *)

(** Calls with the two clock readings of each. *)
Record call : Type := Call { c_t1 : Z; c_t2 : Z; c_uid : str }.

(** The verdicts of a series of calls. *)
Fixpoint accept_all (cs : list call) (f : gmap str Z) : list bool * gmap str Z :=
  match cs with
  | [] => ([], f)
  | c :: cs =>
      let '(b, f) := accept_task (c_t1 c) (c_t2 c) (c_uid c) f in
      let '(bs, f) := accept_all cs f in (b :: bs, f)
  end.

(** The clock does not go back. *)
Fixpoint clock_ok (now : Z) (cs : list call) : Prop :=
  match cs with
  | [] => True
  | c :: cs => now <= c_t1 c <= c_t2 c /\ clock_ok (c_t2 c) cs
  end.

(** When the accepted calls of a series were stamped. *)
Definition accepted (cs : list call) (bs : list bool) : list (str * Z) :=
  (fun p : call * bool => (c_uid (p.1), c_t2 (p.1))) <$> filter (fun p : call * bool => p.2 = true) (zip cs bs).

(** The filter remembers the accepted stamps that are not too old. *)
Definition filter_inv (now : Z) (acc : list (str * Z)) (f : gmap str Z) : Prop :=
  (forall u t, f !! u = Some t -> (u, t) ∈ acc) /\
  (forall u t, (u, t) ∈ acc -> t <= now) /\
  (forall u t, (u, t) ∈ acc -> f !! u = Some t \/ now - t > task_id_timeout_s_).

Lemma clean_lookup now f u t : CleanDuplicateTaskIdFilter now f !! u = Some t <-> f !! u = Some t /\ ~ now - t > task_id_timeout_s_.
Proof. unfold CleanDuplicateTaskIdFilter. by rewrite map_lookup_filter_Some. Qed.

Lemma accept_step now acc f t1 t2 u b f' : filter_inv now acc f -> now <= t1 <= t2 -> accept_task t1 t2 u f = (b, f') ->
  (b = true <-> forall t, (u, t) ∈ acc -> t1 - t > task_id_timeout_s_) /\
  filter_inv t2 (if b then acc ++ [(u, t2)] else acc) f'.
Proof.
  intros (Ha & Ht & Hb) Hnow. unfold accept_task, IsDuplicateTask.
  destruct (CleanDuplicateTaskIdFilter t1 f !! u) as [t|] eqn:E; intros [= <- <-]; cbn [negb].
  - apply clean_lookup in E as [E Hn]. split.
    + split; [done|]. intros H. specialize (H t (Ha _ _ E)). lia.
    + split_and!.
      * intros v s [Hv _]%clean_lookup. by apply Ha.
      * intros v s Hv. apply Ht in Hv. lia.
      * intros v s Hv. destruct (Hb v s Hv) as [Hf|Hf]; [|right; lia].
        destruct (decide (t1 - s > task_id_timeout_s_)); [right; lia|left; by apply clean_lookup].
  - assert (Hfree : forall t, (u, t) ∈ acc -> t1 - t > task_id_timeout_s_).
    { intros t Hin. destruct (Hb u t Hin) as [Hf|Hf]; [|lia].
      destruct (decide (t1 - t > task_id_timeout_s_)); [done|]. assert (Hc : CleanDuplicateTaskIdFilter t1 f !! u = Some t) by (by apply clean_lookup). congruence. }
    split; [done|]. split_and!.
    + intros v s [[<- <-]|[Hne [Hv _]%clean_lookup]]%lookup_insert_Some; rewrite elem_of_app; [right; set_solver|left; by apply Ha].
    + intros v s [Hv|Hv]%elem_of_app; [apply Ht in Hv; lia|]. apply list_elem_of_singleton in Hv. simplify_eq. lia.
    + intros v s [Hv|Hv]%elem_of_app; [|apply list_elem_of_singleton in Hv; simplify_eq; left; apply lookup_insert_eq].
      destruct (decide (u = v)) as [<-|Hne]; [right; specialize (Hfree s Hv); lia|].
      destruct (Hb v s Hv) as [Hf|Hf]; [|right; lia]. rewrite lookup_insert_ne by done.
      destruct (decide (t1 - s > task_id_timeout_s_)); [right; lia|left; by apply clean_lookup].
Qed.

Lemma accept_all_inv now acc f cs bs f' : filter_inv now acc f -> clock_ok now cs -> accept_all cs f = (bs, f') ->
  forall i c b, cs !! i = Some c -> bs !! i = Some b ->
    (b = true <-> forall t, (c_uid c, t) ∈ acc ++ accepted (take i cs) (take i bs) -> c_t1 c - t > task_id_timeout_s_).
Proof.
  revert now acc f bs f'. induction cs as [|c0 cs IH]; intros now acc f bs f' Hinv Hclk Hall i c b Hc Hb; [done|].
  cbn [accept_all] in Hall. destruct (accept_task (c_t1 c0) (c_t2 c0) (c_uid c0) f) as [b0 f0] eqn:E0.
  destruct (accept_all cs f0) as [bs0 f1] eqn:E1. injection Hall as <- <-. destruct Hclk as [Ht Hclk].
  destruct (accept_step now acc f _ _ _ _ _ Hinv Ht E0) as [Hb0 Hinv0]. destruct i as [|i]; simpl in Hc, Hb.
  - simplify_eq. cbn [take]. unfold accepted. cbn. rewrite app_nil_r. exact Hb0.
  - rewrite (IH _ _ _ _ _ Hinv0 Hclk E1 i c b Hc Hb). cbn [take]. unfold accepted. cbn [zip zip_with].
    rewrite (filter_cons (fun p : call * bool => p.2 = true)). cbn [snd]. destruct b0.
    + rewrite decide_True by done. rewrite fmap_cons. cbn [fst]. rewrite <- app_assoc. done.
    + rewrite decide_False by done. done.
Qed.

(** C37: the duplicate filter.  In any series of [ExecuteTask] calls with a clock
    that does not go back, a call is let in exactly when every earlier call that
    was let in with the same task id was stamped more than thirty seconds before
    it: a resent task runs once per window, and only resent tasks are refused. *)
Theorem duplicate_filter_window cs bs f : clock_ok 0 cs -> accept_all cs ∅ = (bs, f) ->
  forall i c b, cs !! i = Some c -> bs !! i = Some b ->
    (b = true <-> forall t, (c_uid c, t) ∈ accepted (take i cs) (take i bs) -> c_t1 c - t > task_id_timeout_s_).
Proof.
  intros Hclk Hall i c b. apply (accept_all_inv 0 [] ∅ cs bs f); [|done..].
  split_and!; intros u t Hx; [by rewrite lookup_empty in Hx|by apply not_elem_of_nil in Hx..].
Qed.

Definition sample_calls : list call :=
  [Call 0 1 (chars "r_0"); Call 20 20 (chars "r_0"); Call 25 25 (chars "r_1"); Call 40 40 (chars "r_0")].

Example sample_calls_verdicts : (accept_all sample_calls ∅).1 = [true; false; true; true].
Proof. vm_compute. reflexivity. Qed.

Lemma duplicate_filter_window_witness :
  true = true <-> forall t, (chars "r_0", t) ∈ accepted (take 3 sample_calls) [true; false; true] -> 40 - t > task_id_timeout_s_.
Proof.
  destruct (accept_all sample_calls ∅) as [bs f] eqn:E.
  assert (Eb : bs = [true; false; true; true]) by (change bs with (bs, f).1; rewrite <- E; vm_compute; reflexivity). subst bs.
  exact (duplicate_filter_window sample_calls _ f ltac:(repeat split; simpl; lia) E 3 (Call 40 40 (chars "r_0")) true eq_refl eq_refl).
Defined.

(** ** The manage thread *)

(** Every worker reference the executors hold. *)
Definition held (e : executors) : list (option wref) :=
  concat ((map_to_list (task_executor_map_ e)).*2) ++ concat (finished_task_queue_ e) ++ concat (kill_task_queue_ e).

Fixpoint added (q : list task_manage) : list (option wref) :=
  match q with
  | [] => []
  | t :: q => if decide (tm_op t = kAdd) then tm_worker t :: added q else added q
  end.

(** The last effective operation on an id. *)
Fixpoint last_op (id : str) (q : list task_manage) (acc : option OperateTaskType) : option OperateTaskType :=
  match q with
  | [] => acc
  | t :: q => last_op id q (if decide (tm_id t = id /\ tm_op t <> kUnknown) then Some (tm_op t) else acc)
  end.

Definition containers_ok (e : executors) : Prop := map_Forall (fun _ q => q <> []) (task_executor_map_ e).

Lemma concat_perm {A} (l k : list (list A)) : l ≡ₚ k -> concat l ≡ₚ concat k.
Proof.
  induction 1; simpl; [done|by apply Permutation_app_head|by rewrite !app_assoc, (Permutation_app_comm x y)|by etransitivity].
Qed.

Lemma held_take (m : gmap str (list (option wref))) id q : m !! id = Some q -> concat ((map_to_list m).*2) ≡ₚ q ++ concat ((map_to_list (delete id m)).*2).
Proof.
  intros H. rewrite <- (insert_delete_id m id q H) at 1.
  rewrite (concat_perm _ ((id, q) :: map_to_list (delete id m)).*2); [done|].
  apply fmap_Permutation, map_to_list_insert. apply lookup_delete_eq.
Qed.

Lemma held_put (m : gmap str (list (option wref))) id q : m !! id = None -> concat ((map_to_list (<[id := q]> m)).*2) ≡ₚ q ++ concat ((map_to_list m).*2).
Proof.
  intros H. rewrite (concat_perm _ ((id, q) :: map_to_list m).*2); [done|]. apply fmap_Permutation, map_to_list_insert, H.
Qed.

(** One operation keeps every reference it finds and adds its own. *)
Lemma manage_one_held t e : held (manage_one t e) ≡ₚ held e ++ added [t].
Proof.
  unfold manage_one, held. destruct t as [id w []]; cbn [tm_op added]; rewrite ?decide_False by done; rewrite ?app_nil_r; try done.
  - rewrite decide_True by done. unfold ExecuteAddTaskOperation. cbn [tm_id tm_worker].
    destruct (task_executor_map_ e !! id) as [q|] eqn:E; cbn.
    + rewrite <- insert_delete_eq. rewrite held_put by apply lookup_delete_eq. rewrite (held_take _ _ _ E). solve_Permutation.
    + rewrite held_put by done. solve_Permutation.
  - unfold ExecuteDelTaskOperation. cbn [tm_id]. destruct (task_executor_map_ e !! id) as [q|] eqn:E; cbn; [|done].
    rewrite (held_take _ _ _ E), concat_app. cbn [concat]. rewrite app_nil_r. solve_Permutation.
  - unfold ExecuteKillTaskOperation. cbn [tm_id]. destruct (task_executor_map_ e !! id) as [q|] eqn:E; cbn; [|done].
    rewrite (held_take _ _ _ E), concat_app. cbn [concat]. rewrite app_nil_r. solve_Permutation.
Qed.

Lemma manage_one_containers t e : containers_ok e -> containers_ok (manage_one t e).
Proof.
  unfold manage_one, containers_ok. intros H. destruct t as [id w []]; cbn [tm_op]; [done|..].
  - unfold ExecuteAddTaskOperation. cbn [tm_id tm_worker]. destruct (task_executor_map_ e !! id) as [q|]; cbn; apply map_Forall_insert_2; try done.
    by destruct q.
  - unfold ExecuteDelTaskOperation. cbn [tm_id]. destruct (task_executor_map_ e !! id); cbn; [by apply map_Forall_delete|done].
  - unfold ExecuteKillTaskOperation. cbn [tm_id]. destruct (task_executor_map_ e !! id); cbn; [by apply map_Forall_delete|done].
Qed.

Lemma manage_one_dom t e id : is_Some (task_executor_map_ (manage_one t e) !! id) <->
  if decide (tm_id t = id /\ tm_op t <> kUnknown) then tm_op t = kAdd else is_Some (task_executor_map_ e !! id).
Proof.
  unfold manage_one. destruct t as [i w op]; cbn [tm_op tm_id]. destruct (decide (i = id)) as [->|Hne].
  - destruct op; [rewrite decide_False by naive_solver; done|rewrite decide_True by done..].
    + unfold ExecuteAddTaskOperation. cbn [tm_id tm_worker]. destruct (task_executor_map_ e !! id); cbn; rewrite lookup_insert_eq; naive_solver.
    + unfold ExecuteDelTaskOperation. cbn [tm_id]. destruct (task_executor_map_ e !! id) eqn:E; cbn; rewrite ?lookup_delete_eq, ?E; split; [intros []|..]; done.
    + unfold ExecuteKillTaskOperation. cbn [tm_id]. destruct (task_executor_map_ e !! id) eqn:E; cbn; rewrite ?lookup_delete_eq, ?E; split; [intros []|..]; done.
  - rewrite decide_False by naive_solver. destruct op; [done|..].
    + unfold ExecuteAddTaskOperation. cbn [tm_id tm_worker]. destruct (task_executor_map_ e !! i); cbn; by rewrite lookup_insert_ne.
    + unfold ExecuteDelTaskOperation. cbn [tm_id]. destruct (task_executor_map_ e !! i); cbn; [by rewrite lookup_delete_ne|done].
    + unfold ExecuteKillTaskOperation. cbn [tm_id]. destruct (task_executor_map_ e !! i); cbn; [by rewrite lookup_delete_ne|done].
Qed.

Lemma last_op_dom q id e acc : (match acc with Some op => op = kAdd <-> is_Some (task_executor_map_ e !! id) | None => True end) ->
  match last_op id q acc with
  | Some op => is_Some (task_executor_map_ (manage_all q e) !! id) <-> op = kAdd
  | None => is_Some (task_executor_map_ (manage_all q e) !! id) <-> is_Some (task_executor_map_ e !! id)
  end.
Proof.
  revert e acc. induction q as [|t q IH]; intros e acc Hacc; cbn [last_op manage_all fold_left]; [destruct acc; naive_solver|].
  fold (manage_all q (manage_one t e)). assert (Hd := manage_one_dom t e id). specialize (IH (manage_one t e)).
  destruct (decide (tm_id t = id /\ tm_op t <> kUnknown)) as [Ht|Ht].
  - specialize (IH (Some (tm_op t))). cbn beta iota in IH. assert (H : tm_op t = kAdd <-> is_Some (task_executor_map_ (manage_one t e) !! id)) by (by rewrite Hd).
    specialize (IH H). destruct (last_op id q (Some (tm_op t))) eqn:E; [done|].
    exfalso. clear -E. revert E. generalize (tm_op t). induction q as [|u q IHq]; intros o E; cbn in E; [done|]. case_decide; by eapply IHq.
  - specialize (IH acc). destruct acc as [o|].
    + specialize (IH ltac:(by rewrite Hd)). destruct (last_op id q (Some o)) eqn:E; [done|]. by rewrite IH, Hd.
    + specialize (IH I). destruct (last_op id q None) eqn:E; [done|]. by rewrite IH, Hd.
Qed.

(** C12: the manage thread.  Processing any queue of operations keeps every
    container non-empty, so that asking for a worker is always defined; a task id
    has a worker afterwards exactly when the last operation on it was an add (or
    none touched it and it had one); and the worker references are conserved:
    what was held and what was added is, each once, in the map, with the cleaning
    thread or with the killing thread. *)
Theorem manage_queue_spec q e : containers_ok e ->
  let e' := manage_all q e in
  containers_ok e' /\ (forall id, GetWorker id e' <> Undef) /\ held e' ≡ₚ held e ++ added q /\
  forall id, is_Some (task_executor_map_ e' !! id) <->
    match last_op id q None with Some op => op = kAdd | None => is_Some (task_executor_map_ e !! id) end.
Proof.
  intros Hok e'. assert (Hok' : containers_ok e').
  { unfold e', manage_all. revert e Hok e'. induction q as [|t q IH]; intros e Hok; [done|]. apply IH. by apply manage_one_containers. }
  split_and!; [done|..].
  - intros id. unfold GetWorker. destruct (task_executor_map_ e' !! id) as [l|] eqn:E; [|done]. specialize (Hok' id l E). by destruct l.
  - clear Hok Hok'. subst e'. revert e. induction q as [|t q IH]; intros e; cbn [manage_all fold_left]; [cbn; by rewrite app_nil_r|].
    fold (manage_all q (manage_one t e)). rewrite IH, manage_one_held, <- app_assoc. f_equiv. cbn [added]. by case_decide.
  - intros id. assert (H := last_op_dom q id e None I). destruct (last_op id q None); exact H.
Qed.

Lemma manage_queue_spec_witness :
  let e := Ex ∅ [] [] in let q := [TM (chars "a") None kDel; TM (chars "a") (Some 0%nat) kAdd; TM (chars "b") (Some 1%nat) kAdd; TM (chars "b") None kKill] in
  containers_ok (manage_all q e) /\ is_Some (task_executor_map_ (manage_all q e) !! chars "a") /\ kill_task_queue_ (manage_all q e) = [[Some 1%nat]].
Proof.
  intros e q. destruct (manage_queue_spec q e ltac:(apply map_Forall_empty)) as (H1 & _ & _ & H2).
  split; [exact H1|]. split; [apply H2; reflexivity|reflexivity].
Defined.

(** ** The scheduler *)

(** What a series of reports does to the worker that gets them. *)
Definition report_series (sts : list TaskStatus) : list wop := concat ((fun st => [OpFinal st; OpPush st]) <$> sts).

Lemma series_finals sts : finals (report_series sts) = finals (OpFinal <$> sts).
Proof.
  induction sts as [|st sts IH]; [done|]. unfold report_series in *. rewrite !fmap_cons. cbn [concat app finals]. by rewrite IH.
Qed.

Lemma series_pushes sts : pushes (report_series sts) = sts.
Proof. induction sts as [|st sts IH]; [done|]. unfold report_series in *. rewrite fmap_cons. cbn [concat app pushes]. by rewrite IH. Qed.

Lemma series_no_count sts : Forall (fun op => not_count op = true) (report_series sts).
Proof. unfold report_series. apply Forall_concat, Forall_fmap, Forall_forall. intros st _. by repeat constructor. Qed.

Lemma wrun_series_got sts got w got' w' : wrun (report_series sts) (got, w) = Ret (got', w') -> got' = got.
Proof.
  revert w. induction sts as [|st sts IH]; intros w; [by intros [= <- _]|]. unfold report_series. rewrite fmap_cons. cbn [concat app wrun wstep].
  destruct (update_final st w) as [w1| |]; [|done..]. cbn [mbind res_bind]. apply IH.
Qed.

(** Reports go to the worker the map names and leave the others alone. *)
Lemma report_all_wrun id r sts s w w' : task_scheduler_map_ s !! id = Some r -> workers s !! r = Some w -> wrun (report_series sts) ([], w) = Ret ([], w') ->
  exists s', report_all id sts s = Ret s' /\ task_scheduler_map_ s' = task_scheduler_map_ s /\ workers s' !! r = Some w' /\
    forall x, x <> r -> workers s' !! x = workers s !! x.
Proof.
  revert s w. induction sts as [|st sts IH]; intros s w Hm Hw Hr; cbn [report_all].
  - injection Hr as <-. by exists s.
  - unfold report_series in Hr. rewrite fmap_cons in Hr. cbn [concat app wrun wstep] in Hr. destruct (update_final st w) as [w1| |] eqn:E; [|done..].
    cbn [mbind res_bind] in Hr. unfold UpdateTaskStatus, GetSchedulerWorker. rewrite Hm, Hw. cbn [or_undef mbind res_bind]. unfold updateTaskStatus. rewrite E. cbn [mbind res_bind].
    destruct (IH (Sch (task_scheduler_map_ s) (<[r := push_status st w1]> (workers s))) (push_status st w1)) as (s' & Er & Hm' & Hw' & Ho); [done|apply lookup_insert_eq|exact Hr|].
    exists s'. split_and!; [done..|]. intros x Hx. rewrite Ho by done. cbn. by rewrite lookup_insert_ne.
Qed.

Lemma report_all_decided id r n sts s l w : task_scheduler_map_ s !! id = Some r -> workers s !! r = Some w -> decided n l w ->
  exists s' w', report_all id sts s = Ret s' /\ task_scheduler_map_ s' = task_scheduler_map_ s /\ workers s' !! r = Some w' /\
    decided n (l ++ finals (OpFinal <$> sts)) w' /\ task_status_ w' = task_status_ w ++ sts /\
    forall x, x <> r -> workers s' !! x = workers s !! x.
Proof.
  intros Hm Hw Hd. destruct (wrun_decided n (report_series sts) l [] w (series_no_count sts) Hd) as (got & w' & E & Hd' & Hq).
  assert (got = []) as -> by (by eapply wrun_series_got). destruct (report_all_wrun id r sts s w w' Hm Hw E) as (s' & Er & Hm' & Hw' & Ho).
  rewrite series_finals in Hd'. rewrite series_pushes in Hq. by exists s', w'.
Qed.

Lemma report_all_tracks id r sts s v seen w : task_scheduler_map_ s !! id = Some r -> workers s !! r = Some w -> tracks v seen w ->
  exists s' w', report_all id sts s = Ret s' /\ task_scheduler_map_ s' = task_scheduler_map_ s /\ workers s' !! r = Some w' /\ party_count_ w' = party_count_ w /\
    tracks (verdict_from (party_count_ w) seen v (finals (OpFinal <$> sts))) (seen ∪ parties (finals (OpFinal <$> sts))) w' /\ task_status_ w' = task_status_ w ++ sts /\
    forall x, x <> r -> workers s' !! x = workers s !! x.
Proof.
  intros Hm Hw Hd. destruct (wrun_tracks (report_series sts) [] w v seen (series_no_count sts) Hd) as (got & w' & E & Hc & Hd' & Hq).
  assert (got = []) as -> by (by eapply wrun_series_got). destruct (report_all_wrun id r sts s w w' Hm Hw E) as (s' & Er & Hm' & Hw' & Ho).
  rewrite series_finals in Hd'. rewrite series_pushes in Hq. by exists s', w'.
Qed.

(** A task under a new id: its worker before the number of parties is set. *)
Lemma dispatch_begun id w early s : task_scheduler_map_ s !! id = None ->
  exists s0 w0, report_all id early (begin_dispatch id w s) = Ret s0 /\ task_scheduler_map_ s0 !! id = Some w /\ workers s0 !! w = Some w0 /\
    task_status_ w0 = early /\ tracks (verdict_from 0 ∅ None (finals (OpFinal <$> early))) (parties (finals (OpFinal <$> early))) w0.
Proof.
  intros Hid. unfold begin_dispatch. rewrite Hid.
  destruct (report_all_tracks id w early (Sch (<[id := w]> (task_scheduler_map_ s)) (<[w := new_worker]> (workers s))) None ∅ new_worker)
    as (s0 & w0 & E & Hm & Hw & Hc & Hd & Hq & _); [apply lookup_insert_eq|apply lookup_insert_eq|by split_and!|].
  exists s0, w0. rewrite Hm. cbn [task_scheduler_map_]. rewrite lookup_insert_eq, union_empty_l_L in *. by split_and!.
Qed.

(** The same worker after [DispatchTask]. *)
Lemma dispatch_fresh id w early servers s : task_scheduler_map_ s !! id = None ->
  exists s1 w1, DispatchTask id w early (dispatched servers) s = Ret (SUCCESS, 0, s1) /\ task_scheduler_map_ s1 !! id = Some w /\ workers s1 !! w = Some w1 /\
    party_count_ w1 = length servers /\ task_status_ w1 = early /\
    tracks (verdict_from 0 ∅ None (finals (OpFinal <$> early))) (parties (finals (OpFinal <$> early))) w1.
Proof.
  intros Hid. destruct (dispatch_begun id w early s Hid) as (s0 & w0 & E & Hm & Hw & Hq & Hd). unfold DispatchTask. rewrite E.
  cbn [mbind res_bind end_dispatch]. eexists _, (setPartyCount (length servers) w0). split; [reflexivity|]. cbn [task_scheduler_map_ workers].
  rewrite Hm, lookup_alter_eq, Hw. done.
Qed.

(** One whose parties report no end before the number is known. *)
Lemma dispatch_decided id w servers s : task_scheduler_map_ s !! id = None -> servers <> [] ->
  exists s1, DispatchTask id w [] (dispatched servers) s = Ret (SUCCESS, 0, s1) /\ task_scheduler_map_ s1 !! id = Some w /\
    workers s1 !! w = Some (setPartyCount (length servers) new_worker) /\ decided (length servers) [] (setPartyCount (length servers) new_worker).
Proof.
  intros Hid Hs. unfold DispatchTask, begin_dispatch. rewrite Hid. cbn [report_all mbind res_bind end_dispatch task_scheduler_map_ workers].
  eexists. split; [reflexivity|]. cbn [task_scheduler_map_ workers]. rewrite lookup_alter_eq, !lookup_insert_eq. split_and!; [done..|].
  apply new_worker_decided. destruct servers; [done|simpl; lia].
Qed.

Lemma fetch_all_ok w : (fetch_all (S (length (task_status_ w))) w).1 = task_status_ w ++ [default_status].
Proof.
  destruct w as [fs pc sf pr q]. cbn [task_status_]. induction q as [|st q IH]; [done|].
  assert (E : forall k, fetch_all (S k) (Wk fs pc sf pr (st :: q)) = (st :: (fetch_all k (Wk fs pc sf pr q)).1, (fetch_all k (Wk fs pc sf pr q)).2))
    by (intros k; cbn -[fetch_all]; cbn [fetch_all fetchTaskStatus task_status_ final_status_ party_count_ scheduler_finished task_finish_promise_]; by destruct (fetch_all k _)).
  rewrite E. cbn [fst length]. by rewrite IH.
Qed.

(** C10: from dispatch to verdict.  A task is dispatched under a new id to some servers,
    and its parties report, some before the scheduler has set their number and some
    after; no report throws.  The promise is then what [reports_verdict] says: a
    failure decides the task when fewer than all have reported success, also before
    the number is known, while successes decide only at a report after it.  With no
    final report before, that is the contract of the worker: success exactly when all
    of them reported success, failure exactly when a failure came first, undecided
    otherwise.  One poll returns every report in order, followed by one empty entry. *)
Theorem scheduler_outcome id w servers s early sts : task_scheduler_map_ s !! id = None -> servers <> [] ->
  exists s1 s2 wk s3, DispatchTask id w early (dispatched servers) s = Ret (SUCCESS, 0, s1) /\ report_all id sts s1 = Ret s2 /\
    workers s2 !! w = Some wk /\
    waitUntilTaskFinish wk = reports_verdict (length servers) (finals (OpFinal <$> early)) (finals (OpFinal <$> sts)) /\
    (finals (OpFinal <$> early) = [] ->
      (waitUntilTaskFinish wk = Some SUCCESS <-> succeeds (length servers) (finals (OpFinal <$> sts))) /\
      (waitUntilTaskFinish wk = Some FAIL <-> fails (length servers) (finals (OpFinal <$> sts)))) /\
    FetchTaskStatus id s2 = Ret (SUCCESS, early ++ sts ++ [default_status], s3).
Proof.
  intros Hid Hs. destruct (dispatch_fresh id w early servers s Hid) as (s1 & w1 & E1 & Hm1 & Hw1 & Hc1 & Hq1 & Hd1).
  destruct (report_all_tracks id w sts s1 _ _ w1 Hm1 Hw1 Hd1) as (s2 & wk & E2 & Hm2 & Hw2 & Hc2 & (Hdom & Hp & Hf) & Hq2 & _). rewrite Hc1 in Hp.
  exists s1, s2, wk, (Sch (task_scheduler_map_ s2) (<[w := (fetch_all (S (length (task_status_ wk))) wk).2]> (workers s2))).
  split_and!; [exact E1|exact E2|exact Hw2|exact Hp| |].
  - intros He. destruct (report_all_decided id w (length servers) sts s1 [] w1 Hm1 Hw1) as (s2' & wk' & E2' & _ & Hw2' & Hd' & _).
    { rewrite He in Hd1. destruct Hd1 as (D1 & D2 & D3). cbn [verdict_from] in D2, D3. split_and!; [done|done|by rewrite D3, D2|]. rewrite D2. split; [constructor|].
      change (parties []) with (∅ : gset str). rewrite size_empty. destruct servers; [done|simpl; lia]. }
    rewrite E2 in E2'. injection E2' as <-. rewrite Hw2 in Hw2'. injection Hw2' as <-. exact (decided_outcome _ _ _ Hd').
  - unfold FetchTaskStatus, GetSchedulerWorker. rewrite Hm2, Hm1, Hw2. cbn [or_undef mbind res_bind].
    assert (Hl := fetch_all_ok wk). destruct (fetch_all _ wk) as [l w']. cbn in Hl. subst l. rewrite Hq2, Hq1, <- app_assoc. done.
Qed.

Definition one_server : list Node := [default_node].

(** The only party reports before its number is known: the task is not decided. *)
Lemma scheduler_outcome_witness :
  exists s1 s2 wk, DispatchTask (chars "r") 0%nat [TS (chars "A") ST_SUCCESS []] (dispatched one_server) (Sch ∅ ∅) = Ret (SUCCESS, 0, s1) /\
    report_all (chars "r") [] s1 = Ret s2 /\ workers s2 !! 0%nat = Some wk /\ waitUntilTaskFinish wk = None.
Proof.
  destruct (scheduler_outcome (chars "r") 0%nat one_server (Sch ∅ ∅) [TS (chars "A") ST_SUCCESS []] []) as (s1 & s2 & wk & s3 & H1 & H2 & H3 & H4 & _);
    [reflexivity|discriminate|]. exists s1, s2, wk. exact (conj H1 (conj H2 (conj H3 H4))).
Defined.

(** a task dispatched under an id the scheduler still holds is never decided.
    The reports for the id reach the old worker, so after any of them the new
    task's promise is still unset. *)
Theorem redispatch_undecided id w r v seen wr servers s early sts : task_scheduler_map_ s !! id = Some r -> r <> w ->
  workers s !! r = Some wr -> tracks v seen wr ->
  exists s1 s2 wk, DispatchTask id w early (dispatched servers) s = Ret (SUCCESS, 0, s1) /\ report_all id sts s1 = Ret s2 /\
    workers s2 !! w = Some wk /\ waitUntilTaskFinish wk = None /\ final_status_ wk = ∅.
Proof.
  intros Hid Hne Hr Hd. unfold DispatchTask, begin_dispatch. rewrite Hid.
  destruct (report_all_tracks id r early (Sch (task_scheduler_map_ s) (<[w := new_worker]> (workers s))) v seen wr)
    as (s0 & w0 & E0 & Hm0 & Hw0 & _ & Hd0 & _ & Ho0); [done|cbn; by rewrite lookup_insert_ne|done|]. rewrite E0. cbn [mbind res_bind end_dispatch].
  assert (Hnew : workers s0 !! w = Some new_worker) by (rewrite Ho0 by done; apply lookup_insert_eq).
  edestruct (report_all_tracks id r sts (Sch (task_scheduler_map_ s0) (alter (setPartyCount (length servers)) w (workers s0))))
    as (s2 & w' & Er & _ & _ & _ & _ & _ & Ho); [by rewrite Hm0|cbn; by rewrite lookup_alter_ne|exact Hd0|].
  eexists _, s2, (setPartyCount (length servers) new_worker). split_and!; [reflexivity|exact Er| |done..].
  rewrite Ho by done. cbn. by rewrite lookup_alter_eq, Hnew.
Qed.

Lemma redispatch_undecided_witness :
  exists s1 s2 wk, DispatchTask (chars "r") 1%nat [] (dispatched one_server) (Sch {[chars "r" := 0%nat]} {[0%nat := setPartyCount 1 new_worker]}) = Ret (SUCCESS, 0, s1) /\
    report_all (chars "r") [TS (chars "A") ST_SUCCESS []] s1 = Ret s2 /\ workers s2 !! 1%nat = Some wk /\ waitUntilTaskFinish wk = None.
Proof.
  destruct (redispatch_undecided (chars "r") 1%nat 0%nat None ∅ (setPartyCount 1 new_worker) one_server
    (Sch {[chars "r" := 0%nat]} {[0%nat := setPartyCount 1 new_worker]}) [] [TS (chars "A") ST_SUCCESS []]) as (s1 & s2 & wk & H1 & H2 & H3 & H4 & _);
    [reflexivity|discriminate|reflexivity|by split_and!|]. exists s1, s2, wk. exact (conj H1 (conj H2 (conj H3 H4))).
Defined.

(** ** Whom a failed task is killed at *)

Lemma add_new_parties_spec seen ns l seen' : add_new_parties seen ns = (l, seen') ->
  NoDup (node_to_string <$> l) /\ (forall t, t ∈ (node_to_string <$> l) -> t ∉ seen) /\
  seen' = seen ∪ list_to_set (node_to_string <$> l) /\ (forall t, t ∈ (node_to_string <$> ns) -> t ∈ seen') /\ (forall x, x ∈ l -> x ∈ ns).
Proof.
  revert seen l seen'. induction ns as [|n ns IH]; intros seen l seen'; cbn [add_new_parties].
  - intros [= <- <-]. split_and!; [constructor|set_solver|set_solver|set_solver|set_solver].
  - case_decide as Hin.
    + intros E. destruct (IH _ _ _ E) as (H1 & H2 & H3 & H4 & H5). split_and!; [done..| |set_solver].
      intros t. rewrite fmap_cons, elem_of_cons. intros [->|Ht]; [rewrite H3; set_solver|by apply H4].
    + destruct (add_new_parties ({[node_to_string n]} ∪ seen) ns) as [l0 seen0] eqn:E. intros [= <- <-].
      destruct (IH _ _ _ E) as (H1 & H2 & H3 & H4 & H5). rewrite fmap_cons. split_and!.
      * apply list.NoDup_cons. split; [|done]. intros Hx. apply H2 in Hx. set_solver.
      * intros t [->|Ht]%elem_of_cons; [done|]. apply H2 in Ht. set_solver.
      * rewrite H3. cbn [list_to_set]. set_solver.
      * intros t. rewrite fmap_cons, elem_of_cons. intros [->|Ht]; [rewrite H3; set_solver|by apply H4].
      * set_solver.
Qed.

(** a failed task is killed everywhere, once.  The scheduler sends its kill to
    exactly the nodes of the request's parties, of the auxiliary compute node and
    of the servers the task was dispatched to, each address once; a successful
    task is killed nowhere; and both are reported to the cleaning thread. *)
Theorem kill_targets_once ret id party_access_info auxiliary_server servers finished :
  let all := GetAllParties party_access_info auxiliary_server in
  let '(targets, finished') := scheduler_func ret id all servers finished in
  finished' = finished ++ [id] /\
  (ret = SUCCESS -> targets = []) /\
  (ret = FAIL -> NoDup (node_to_string <$> targets) /\
    forall t, t ∈ (node_to_string <$> targets) <-> t ∈ (node_to_string <$> all ++ servers)).
Proof.
  intros all. unfold scheduler_func, kill_targets.
  destruct (add_new_parties ∅ all) as [l1 seen] eqn:E1. destruct (add_new_parties seen servers) as [l2 seen2] eqn:E2.
  destruct (add_new_parties_spec _ _ _ _ E1) as (H1 & _ & H3 & H4 & H5). destruct (add_new_parties_spec _ _ _ _ E2) as (K1 & K2 & K3 & K4 & K5).
  split_and!; [done|intros ->; by rewrite decide_False by naive_solver|]. intros ->. rewrite decide_True by done. split.
  - rewrite fmap_app. apply NoDup_app. split_and!; [done| |done]. intros t Ht Hk. apply K2 in Hk. apply Hk. rewrite H3. set_solver.
  - intros t. rewrite !fmap_app, !elem_of_app. split.
    + intros [Ht|Ht]; apply list_elem_of_fmap in Ht as (x & -> & Hx); [left|right]; apply list_elem_of_fmap; eauto.
    + intros [Ht|Ht]; [apply H4 in Ht; rewrite H3 in Ht; set_solver|]. apply K4 in Ht. rewrite K3, H3 in Ht. set_solver.
Qed.
