(* ===== verification/Dispatch.v ===== *)
(** * From a request to the parties

    Models [task/language/*.cc] (which datasets a request names, the access
    information of its parties), [task/semantic/parser.cc] (finding the owners of the
    datasets, choosing a scheduler) and [task/semantic/scheduler/*.cc] (sending the
    task to every party).  [walk] is the order in which a protobuf map is walked,
    [execute_task] what the node of a party answers ([None] when the call fails).
    The threads of a scheduler share the error flag and the list of task servers:
    a run is an interleaving of their writes.  The error messages are kept for no
    reader and left out. *)

From Stdlib Require Import Ascii String ZArith Lia.
From stdpp Require Import base tactics list option gmap strings sorting.
From S2P Require Import Prelude ModArith Machine StrUtil Json Common ExprConfig Parallel Psi PsiTask MetaService Worker NodeImpl.

Local Open Scope Z_scope.

(** ** Requests *)

Inductive LinkType := SERVER | CLIENT.
Record EndPoint : Type := EP { ep_ip : str; ep_port : Z; ep_name : str; ep_type : LinkType }.
Record VirtualMachine : Type := VM { vm_party_id : Z; vm_next : option EndPoint; vm_prev : option EndPoint }.

(** [rpc::Node]. *)
Record pbNode : Type := PN { pn_node : Node; pn_party_id : Z; pn_vm : list VirtualMachine }.

(** [node2PbNode] on a new message; [pbNode2Node] is [pn_node]. *)
Definition node2PbNode (n : Node) : pbNode := PN n 0 [].

Inductive Language := PYTHON | JAVA | CPP | PROTO.
Inductive TaskType := ACTOR_TASK | NODE_TASK | PIR_TASK | PSI_TASK | NODE_PIR_TASK | NODE_PSI_TASK | TEE_TASK | TEE_EXECUTOR_TASK | TEE_DATAPROVIDER_TASK.
#[export] Instance TaskType_eq_dec : EqDecision TaskType.
Proof. solve_decision. Defined.

(** The task of a [PushTaskRequest]. *)
Record PushTask : Type := PTask {
  pt_language : Language;
  pt_type : TaskType;
  pt_code : str;
  pt_job_id : str;
  pt_task_id : str;
  pt_party_name : str;
  pt_access : gmap str pbNode;
  pt_aux : gmap str pbNode;
  pt_node_map : gmap str pbNode;
  pt_params : gmap str ParamValue;
  pt_datasets : gmap str (gmap str str)
}.

Definition set_type (t : PushTask) (ty : TaskType) : PushTask :=
  PTask (pt_language t) ty (pt_code t) (pt_job_id t) (pt_task_id t) (pt_party_name t) (pt_access t) (pt_aux t) (pt_node_map t) (pt_params t) (pt_datasets t).
Definition set_party_name (t : PushTask) (p : str) : PushTask :=
  PTask (pt_language t) (pt_type t) (pt_code t) (pt_job_id t) (pt_task_id t) p (pt_access t) (pt_aux t) (pt_node_map t) (pt_params t) (pt_datasets t).
Definition set_access (t : PushTask) (m : gmap str pbNode) : PushTask :=
  PTask (pt_language t) (pt_type t) (pt_code t) (pt_job_id t) (pt_task_id t) (pt_party_name t) m (pt_aux t) (pt_node_map t) (pt_params t) (pt_datasets t).
Definition set_aux (t : PushTask) (m : gmap str pbNode) : PushTask :=
  PTask (pt_language t) (pt_type t) (pt_code t) (pt_job_id t) (pt_task_id t) (pt_party_name t) (pt_access t) m (pt_node_map t) (pt_params t) (pt_datasets t).
Definition set_node_map (t : PushTask) (m : gmap str pbNode) : PushTask :=
  PTask (pt_language t) (pt_type t) (pt_code t) (pt_job_id t) (pt_task_id t) (pt_party_name t) (pt_access t) (pt_aux t) m (pt_params t) (pt_datasets t).
Definition set_params (t : PushTask) (m : gmap str ParamValue) : PushTask :=
  PTask (pt_language t) (pt_type t) (pt_code t) (pt_job_id t) (pt_task_id t) (pt_party_name t) (pt_access t) (pt_aux t) (pt_node_map t) m (pt_datasets t).

Definition SCHEDULER_NODE : str := chars "SCHEDULER_NODE".

(** [AddSchedulerNode]: the sender's own address. *)
Definition AddSchedulerNode (local : Node) (t : PushTask) : PushTask :=
  set_aux t (<[SCHEDULER_NODE := node2PbNode local]> (pt_aux t)).

Section Dispatch.
Context (walk : forall A : Type, gmap str A -> list (str * A)).

(** ** The language parsers *)

(** [ProtoParser::parseDatasets]: dataset id and party. *)
Definition proto_parseDatasets (t : PushTask) : list (str * str) :=
  e ← walk _ (pt_datasets t);
  d ← walk _ e.2;
  if decide (d.2 = []) then [] else [(d.2, e.1)].

(** [PyParser::parseDatasets] skips a pair whose texts were seen, glued together. *)
Fixpoint drop_seen (seen : gset str) (l : list (str * str)) : list (str * str) :=
  match l with
  | [] => []
  | (id, party) :: l =>
      if decide (party ++ id ∈ seen) then drop_seen seen l
      else (id, party) :: drop_seen ({[party ++ id]} ∪ seen) l
  end.
Definition py_parseDatasets (t : PushTask) : list (str * str) := drop_seen ∅ (proto_parseDatasets t).

(** [LanguageParserFactory::Create] and [parseDatasets]: [None] without a parser. *)
Definition parse_datasets (t : PushTask) : option (list (str * str)) :=
  match pt_language t with
  | PROTO => Some (proto_parseDatasets t)
  | PYTHON => Some (py_parseDatasets t)
  | _ => None
  end.

(** [MergePartyAccessInfo]: what the request says about a party stays; then the
    parties are numbered in the order of their names. *)
Definition merged_nodes (t : PushTask) (found : gmap str Node) : gmap str Node := (pn_node <$> pt_access t) ∪ found.

Definition party_order {A} (m : gmap str A) : list str := sort_names (map_to_list m).*1.

Definition MergePartyAccessInfo (found : gmap str Node) (t : PushTask) : PushTask :=
  let m := merged_nodes t found in
  set_access t (list_to_map (imap (fun i name => (name, PN (default default_node (m !! name)) (Z.of_nat i) [])) (party_order m))).

(** ** The semantic parser *)

Definition node_of_text (text : str) : res Node := '(_, n) ← node_fromString default_node text; Ret n.

(** [metasToPartyAccessInfo]: a later entry of a party replaces an earlier one. *)
Fixpoint metasToPartyAccessInfo (l : list (DatasetMeta * str)) (m : gmap str Node) : res (gmap str Node) :=
  match l with
  | [] => Ret m
  | (meta, party) :: l => n ← node_of_text (server_meta meta); metasToPartyAccessInfo l (<[party := n]> m)
  end.

Definition jbool (j : json) (key : string) : res bool :=
  v ← jmember j key; match v with JBool b => Ret b | _ => Throw end.
Definition juint32 (j : json) (key : string) : res Z := v ← jmember j key; json_uint32 v.

(** [ProcessAuxiliaryServer]; [parse] is the JSON parser, [status] the answers of the
    meta service.  When the dataset is not found the node stays empty and is
    entered all the same. *)
Definition ProcessAuxiliaryServer (parse : str -> option json) (status : nat -> option GetDatasetResponse) (t : PushTask) : res PushTask :=
  match pt_params t !! chars "auxiliary_server" with
  | None => Ret t
  | Some p =>
      j ← match parse (get_string p) with Some j => Ret j | None => Throw end;
      is_dataset ← jbool j "is_dataset";
      n ← (if is_dataset : bool then
             id ← jstring j "dataset_id";
             '(_, metas) ← FindPeerListFromDatasets [(id, chars "default")] status;
             match metas with
             | Some [(m, _)] => node_of_text (server_meta m)
             | _ => Ret default_node
             end
           else
             ip ← jstring j "ip";
             port ← juint32 j "port";
             tls ← jbool j "use_tls";
             Ret (Nd [] ip port tls []));
      Ret (set_aux t (<[AUX_COMPUTE_NODE := node2PbNode n]> (pt_aux t)))
  end.

(** [ParseDatasetToPartyAccessInfo]: the code of the lookup is not looked at. *)
Definition ParseDatasetToPartyAccessInfo (parse : str -> option json) (status aux_status : nat -> option GetDatasetResponse)
    (datasets : list (str * str)) (t : PushTask) : res PushTask :=
  '(_, metas) ← FindPeerListFromDatasets datasets status;
  t ← match metas with
      | Some l => found ← metasToPartyAccessInfo l ∅; Ret (MergePartyAccessInfo found t)
      | None => Ret t
      end;
  ProcessAuxiliaryServer parse aux_status t.

(** ** Sending the task *)

(** What the node of a party answers when [VMNodeImpl::ExecuteTask] ends with [ret]: the
    call is answered either way ([VMNodeInterface::ExecuteTask] returns OK), and only
    a node that takes the task adds its address as a task server. *)
Definition ExecuteTask_reply (service : Node) (ret : retcode) : list pbNode := if decide (ret = SUCCESS) then [node2PbNode service] else [].

Section Send.
Context (local : Node) (execute_task : Node -> PushTask -> option (list pbNode)).

(** [parseNotifyServer] makes nodes without an id. *)
Definition as_server (p : pbNode) : Node := let n := pn_node p in Nd [] (ip_ n) (port_ n) (use_tls_ n) (role_ n).

Inductive ev := SetError | AddTaskServer (n : Node).

(** The schedulers that send with [executeTask]. *)
Inductive kind := VMScheduler | ABY3Scheduler | FLScheduler | PIRScheduler.

#[global] Instance kind_eq_dec : EqDecision kind.
Proof. solve_decision. Defined.

Definition cleared : ParamValue := PV value_other false.

(** The request a party receives. *)
Definition request_for (k : kind) (party : str) (t : PushTask) : PushTask :=
  let t := set_party_name t party in
  let t := match k with
           | PIRScheduler =>
               if decide (party = PARTY_SERVER) then
                 match pt_params t !! chars "clientData" with
                 | Some _ => set_params t (<[chars "clientData" := cleared]> (pt_params t))
                 | None => t
                 end
               else t
           | _ => t
           end in
  AddSchedulerNode local t.

(** [ScheduleTask] in the thread of a party: what it writes.  [FLScheduler] does not
    set the flag. *)
Definition ScheduleTask (k : kind) (t : PushTask) (e : str * pbNode) : list ev :=
  match execute_task (pn_node e.2) (request_for k e.1 t) with
  | Some servers => (fun p => AddTaskServer (as_server p)) <$> servers
  | None => match k with FLScheduler => [] | _ => [SetError] end
  end.

(** The requests that go out: the party, its node and the request. *)
Definition sent_requests (k : kind) (t : PushTask) : list (str * Node * PushTask) :=
  (fun e => (e.1, pn_node e.2, request_for k e.1 t)) <$> walk _ (pt_access t).

Definition is_error (e : ev) : bool := match e with SetError => true | _ => false end.
Definition server_of (e : ev) : option Node := match e with AddTaskServer n => Some n | SetError => None end.

(** After the threads: the flag decides.  A node that refuses a task answers the call,
    without a task server, and sets no flag. *)
Definition dispatch_outcome (l : list ev) : retcode * list Node := (if existsb is_error l then FAIL else SUCCESS, omap server_of l).

(** A run of the threads of all parties. *)
Definition send_parties (k : kind) (t : PushTask) (out : retcode * list Node) : Prop :=
  exists l, interleave (ScheduleTask k t <$> walk _ (pt_access t)) l /\ out = dispatch_outcome l.

(** ** The preparations *)

(** [ABY3Scheduler::add_vm]; [party_nodes] are in the order of the walk. *)
Definition aby3_endpoint (t : PushTask) (party_nodes : list pbNode) (me other : Z) : res EndPoint :=
  if other <? 0 then Undef
  else
    n ← or_undef (party_nodes !! Z.to_nat other);
    let lo := Z.min me other in let hi := Z.max me other in
    Ret (EP (ip_ (pn_node n)) (lo + 12120) (pt_job_id t ++ chars "_" ++ pt_task_id t ++ chars "_" ++ uint_to_string lo ++ uint_to_string hi)
      (if me <? other then SERVER else CLIENT)).

Definition aby3_add_vm (t : PushTask) (party_nodes : list pbNode) (node : pbNode) : res pbNode :=
  let i := pn_party_id node in
  nx ← aby3_endpoint t party_nodes i (Z.rem (i + 1) 3);
  pv ← aby3_endpoint t party_nodes i (Z.rem (i + 2) 3);
  Ret (PN (pn_node node) i (pn_vm node ++ [VM i (Some nx) (Some pv)])).

Fixpoint aby3_vms (t : PushTask) (party_nodes : list pbNode) (l : list (str * pbNode)) (m : gmap str pbNode) : res (gmap str pbNode) :=
  match l with
  | [] => Ret m
  | (name, node) :: l => node ← aby3_add_vm t party_nodes node; aby3_vms t party_nodes l (<[name := node]> m)
  end.

(** [ABY3Scheduler::dispatch] up to the threads. *)
Definition aby3_prepare (t : PushTask) : res PushTask :=
  if decide (pt_type t = ACTOR_TASK) then
    let party_info := walk _ (pt_access t) in
    let nodes : gset str := list_to_set ((fun e => node_to_string (pn_node e.2)) <$> party_info) in
    let names : gset str := list_to_set party_info.*1 in
    if decide (size nodes <> 3%nat) then Throw
    else if decide (size names <> 3%nat) then Throw
    else m ← aby3_vms t party_info.*2 party_info (pt_access t); Ret (set_access t m)
  else Ret t.

(** [PIRScheduler::dispatch] up to the threads. *)
Definition pir_prepare (t : PushTask) : res PushTask :=
  let t := match pt_params t !! chars "clientData" with
           | Some v =>
               if is_array v then
                 let old := default (PN default_node 0 []) (pt_access t !! PARTY_CLIENT) in
                 set_access t (<[PARTY_CLIENT := PN local (pn_party_id old) (pn_vm old)]> (pt_access t))
               else t
           | None => t
           end in
  match pt_params t !! chars "DbInfo" with
  | Some _ => Ret t
  | None =>
      let nodes : gset str := list_to_set ((fun e => node_to_string (pn_node e.2)) <$> walk _ (pt_access t)) in
      if decide (size nodes < 2)%nat then Throw else Ret t
  end.

Definition prepare_request (k : kind) (t : PushTask) : res PushTask :=
  match k with ABY3Scheduler => aby3_prepare t | PIRScheduler => pir_prepare t | _ => Ret t end.
End Send.

(** ** The schedulers of the two-party and three-party network tasks *)

Section Mpc.
Context (local : Node) (submit_task : Node -> PushTask -> option (list pbNode)).

Definition ip_of (peers : list pbNode) (i : nat) : res str := n ← or_undef (peers !! i); Ret (ip_ (pn_node n)).

(** [CRYPTFLOW2Scheduler::add_vm]. *)
Definition cryptflow2_add_vm (peers : list pbNode) (i : nat) : res (list VirtualMachine) :=
  match i with
  | O => ip ← ip_of peers 0; Ret [VM 0 (Some (EP ip 30020 (chars "CRYPTFLOW2_Server") SERVER)) None]
  | S j => ip ← ip_of peers j; Ret [VM (Z.of_nat i) (Some (EP ip 30020 (chars "CRYPTFLOW2_Client") CLIENT)) None]
  end.

(** [FalconScheduler::add_vm]: two machines, the first listens, the second connects. *)
Definition falcon_add_vm (peers : list pbNode) (i : nat) : res (list VirtualMachine) :=
  let ep (p : nat) port name ty := ip ← ip_of peers p; Ret (EP ip port (chars name) ty) in
  let vms (n0 p0 n1 p1 : res EndPoint) :=
    n0 ← n0; p0 ← p0; n1 ← n1; p1 ← p1;
    Ret [VM (Z.of_nat i) (Some n0) (Some p0); VM (Z.of_nat i) (Some n1) (Some p1)] in
  match i with
  | 0%nat => vms (ep i 32003 "Falcon_server_0" SERVER) (ep i 32006 "Falcon_server_1" SERVER)
                 (ep 1%nat 32001 "Falcon_client_0" CLIENT) (ep 2%nat 32002 "Falcon_client_1" CLIENT)
  | 1%nat => vms (ep i 32001 "Falcon_server_2" SERVER) (ep i 32007 "Falcon_server_3" SERVER)
                 (ep 0%nat 32003 "Falcon_client_2" CLIENT) (ep 2%nat 32005 "Falcon_client_3" CLIENT)
  | _ => vms (ep i 32002 "Falcon_server_4" SERVER) (ep i 32005 "Falcon_server_5" SERVER)
             (ep 0%nat 32006 "Falcon_client_4" CLIENT) (ep 1%nat 32007 "Falcon_client_4" CLIENT)
  end%string.

(** The datasets of a peer become string parameters. *)
Definition add_datasets (l : list (str * str)) (t : PushTask) : PushTask :=
  set_params t (fold_left (fun m d => <[d.2 := PV (value_string d.1) false]> m) l (pt_params t)).

(** [push_task]: a failed call leaves no trace. *)
Definition push_task (datasets : gmap str (list (str * str))) (t : PushTask) (id : str) (dest : Node) : list ev :=
  match datasets !! id with
  | None => []
  | Some l =>
      match submit_task dest (AddSchedulerNode local (add_datasets l t)) with
      | Some servers => (fun p => AddTaskServer (as_server p)) <$> servers
      | None => []
      end
  end.

(** The peers with their machines, entered in [node_map]. *)
Fixpoint enter_peers (add_vm : list pbNode -> nat -> res (list VirtualMachine)) (peers : list pbNode) (idx : list nat) (m : gmap str pbNode)
  : res (gmap str pbNode) :=
  match idx with
  | [] => Ret m
  | i :: idx =>
      n ← or_undef (peers !! i);
      vms ← add_vm peers i;
      enter_peers add_vm peers idx (<[id_ (pn_node n) := PN (pn_node n) (pn_party_id n) (pn_vm n ++ vms)]> m)
  end.

(** The loop that starts the threads.  A missing node ends it: with a thread already
    started the destructor of that thread terminates the program. *)
Fixpoint start_threads (datasets : gmap str (list (str * str))) (t : PushTask) (idx : list nat) (started : list (list ev)) : res (option (list (list ev))) :=
  match idx with
  | [] => Ret (Some started)
  | i :: idx =>
      let id := chars "node" ++ uint_to_string (Z.of_nat i) in
      match pt_node_map t !! id with
      | None => match started with [] => Ret None | _ => Undef end
      | Some n => start_threads datasets t idx (started ++ [push_task datasets t id (pn_node n)])
      end
  end.

(** [MPCScheduler::dispatch]: [None] is the early [FAIL], otherwise the threads. *)
Definition mpc_dispatch (add_vm : list pbNode -> nat -> res (list VirtualMachine)) (peers : list pbNode) (party_num : nat)
    (datasets : gmap str (list (str * str))) (t : PushTask) : res (option (list (list ev))) :=
  if decide (pt_type t = ACTOR_TASK) then
    if decide (length peers <> party_num) then Ret None
    else
      m ← enter_peers add_vm peers (seq 0 party_num) (pt_node_map t);
      start_threads datasets (set_node_map (set_type t NODE_TASK) m) (seq 0 party_num) []
  else start_threads datasets t (seq 0 party_num) [].

(** [TEEScheduler::add_vm]: the machines of the executor and of a data provider. *)
Definition tee_add_vm (t : PushTask) (executor dpv : pbNode) (party_id : Z) : pbNode * pbNode :=
  let prefix := pt_job_id t ++ chars "_" ++ pt_task_id t ++ chars "_" in
  (PN (pn_node executor) (pn_party_id executor)
     (pn_vm executor ++ [VM party_id (Some (EP (ip_ (pn_node dpv)) 12120 (prefix ++ uint_to_string party_id) CLIENT)) None]),
   PN (pn_node dpv) (pn_party_id dpv)
     (pn_vm dpv ++ [VM 0 (Some (EP (ip_ (pn_node executor)) 12120 (prefix ++ uint_to_string 0) SERVER)) None])).

(** The loop over the peers: both nodes are entered before [add_vm] changes the local
    copies, so the machines are not sent_requests. *)
Fixpoint tee_peers (t : PushTask) (executor : pbNode) (party_id : Z) (peers : list pbNode) (m : gmap str pbNode) : pbNode * gmap str pbNode :=
  match peers with
  | [] => (executor, m)
  | n :: peers =>
      let '(executor, _) := tee_add_vm t executor n party_id in
      tee_peers t executor (party_id + 1) peers (<[id_ (pn_node n) := n]> m)
  end.

Definition tee_prepare (t : PushTask) (peers : list pbNode) : pbNode * PushTask :=
  if decide (pt_type t = TEE_TASK) then
    let t' := set_type t TEE_DATAPROVIDER_TASK in
    match peers with
    | [] => (PN default_node 0 [], t')
    | n :: peers =>
        let '(executor, m) := tee_peers t' n 1 peers (<[id_ (pn_node n) := n]> (pt_node_map t')) in
        (executor, set_node_map t' m)
    end
  else (PN default_node 0 [], t).

(** [TEEScheduler::dispatch]: the requests that go out; the function ends without a
    return. *)
Definition tee_dispatch (peers : list pbNode) (datasets : gmap str (list (str * str))) (t : PushTask) : list (Node * PushTask) * res retcode :=
  let '(executor, t) := tee_prepare t peers in
  (omap (fun e => if decide (id_ (pn_node executor) = id_ (pn_node e.2)) then None
                  else l ← datasets !! e.1; Some (pn_node e.2, AddSchedulerNode local (add_datasets l t))) (walk _ (pt_node_map t)),
   Undef).
End Mpc.

(** ** Choosing a scheduler *)

Inductive scheduler_kind := Sends (k : kind) | CRYPTFLOW2Scheduler | FalconScheduler | TEEScheduler.

Definition CreateMPCScheduler (t : PushTask) : scheduler_kind :=
  if decide (pt_code t = chars "maxpool") then CRYPTFLOW2Scheduler
  else if decide (pt_code t = chars "lenet") then FalconScheduler
  else Sends ABY3Scheduler.

Definition CreateProtoScheduler (t : PushTask) : option scheduler_kind :=
  match pt_type t with
  | ACTOR_TASK => Some (CreateMPCScheduler t)
  | PSI_TASK => Some (Sends VMScheduler)
  | PIR_TASK => Some (Sends PIRScheduler)
  | TEE_TASK => Some TEEScheduler
  | _ => None
  end.

Definition CreateScheduler (t : PushTask) : option scheduler_kind :=
  match pt_language t with
  | PYTHON => Some (Sends FLScheduler)
  | PROTO => CreateProtoScheduler t
  | _ => None
  end.

Section Schedule.
Context (local : Node) (execute_task submit_task : Node -> PushTask -> option (list pbNode)).
Context (parse : str -> option json) (status aux_status : nat -> option GetDatasetResponse).

(** [dispatch] of the scheduler the factory makes.  It has no peers and no datasets
    of its own; [junk] is the uninitialised number of parties. *)
Definition run_scheduler (junk : nat) (s : scheduler_kind) (t : PushTask) (out : res (retcode * list Node)) : Prop :=
  let mpc add_vm :=
    match mpc_dispatch local submit_task add_vm [] junk ∅ t with
    | Ret None => out = Ret (FAIL, [])
    | Ret (Some threads) => exists l, interleave threads l /\ out = Ret (dispatch_outcome l)
    | Throw => out = Throw
    | Undef => out = Undef
    end in
  match s with
  | Sends k =>
      match prepare_request local k t with
      | Ret t => exists o, send_parties local execute_task k t o /\ out = Ret o
      | Throw => out = Throw
      | Undef => out = Undef
      end
  | CRYPTFLOW2Scheduler => mpc cryptflow2_add_vm
  | FalconScheduler => mpc falcon_add_vm
  | TEEScheduler => out = Undef
  end.

(** [scheduleProtoTask] and [schedulePythonTask] (the same text), with the task
    servers of the parser. *)
Definition scheduleTask (junk : nat) (datasets : list (str * str)) (t : PushTask) (out : res (retcode * list Node)) : Prop :=
  match ParseDatasetToPartyAccessInfo parse status aux_status datasets t with
  | Throw => out = Throw
  | Undef => out = Undef
  | Ret t =>
      if decide (pt_access t = ∅) then out = Ret (FAIL, [])
      else match CreateScheduler t with
           | None => out = Ret (FAIL, [])
           | Some s => run_scheduler junk s t out
           end
  end.

(** The language parser and [parseTaskSyntaxTree] inside [DispatchTask]'s [try]:
    what becomes of a request.  Undefined behaviour may end in any of them. *)
Definition parse_and_dispatch (junk : nat) (t : PushTask) (d : NodeImpl.dispatch) : Prop :=
  match parse_datasets t with
  | None => d = no_parser
  | Some datasets =>
      exists out, scheduleTask junk datasets t out /\
        match out with
        | Ret (SUCCESS, servers) => d = dispatched servers
        | Ret (_, _) => d = not_dispatched
        | Throw => d = threw
        | Undef => True
        end
  end.

(** [prepareReply]. *)
Definition prepareReply (task_server : list Node) : list pbNode :=
  (fun n => node2PbNode (Nd [] (ip_ n) (port_ n) (use_tls_ n) (role_ n))) <$> task_server.
End Schedule.
End Dispatch.
