(* ===== verification/DispatchProps.v ===== *)
(** * Properties of task dispatch

    Every party of a task gets one request, its own, and the scheduler waits for the
    parties whose nodes took it, not for those that refused; the parties are numbered in the
    order of their names, which is what the arithmetic task relies on; the links of
    the three-party protocol fit together; a PIR server does not see the client's
    queries; and what the schedulers of the network tasks do. *)

From Stdlib Require Import Ascii String ZArith Lia.
From stdpp Require Import base tactics list option gmap strings sorting.
From S2P Require Import Prelude ModArith Machine StrUtil Json Common ExprConfig Parallel Psi PsiTask MetaService Arithmetic ArithProps.
From S2P Require Import Worker NodeImpl Dispatch.

Local Open Scope Z_scope.

Section Walk.
Context (walk : forall A : Type, gmap str A -> list (str * A)).
Hypothesis walk_law : forall A (m : gmap str A), walk A m ≡ₚ map_to_list m.

Lemma walk_elem {A} (m : gmap str A) k v : (k, v) ∈ walk A m <-> m !! k = Some v.
Proof. by rewrite walk_law, elem_of_map_to_list. Qed.

Lemma walk_NoDup {A} (m : gmap str A) : NoDup (walk A m).*1.
Proof. rewrite walk_law. apply NoDup_fst_map_to_list. Qed.

(** ** Sending to every party *)

Section Send.
Context (local : Node) (execute_task : Node -> PushTask -> option (list pbNode)).

(** The call to the node of the party is answered, whether or not the node takes the
    task. *)
Definition node_answers (k : kind) (t : PushTask) (e : str * pbNode) : Prop :=
  is_Some (execute_task (pn_node e.2) (request_for local k e.1 t)).

Definition replies (k : kind) (t : PushTask) (e : str * pbNode) : list Node :=
  as_server <$> default [] (execute_task (pn_node e.2) (request_for local k e.1 t)).

Lemma schedule_servers k t e : omap server_of (ScheduleTask local execute_task k t e) = replies k t e.
Proof.
  unfold ScheduleTask, replies. destruct (execute_task _ _) as [l|]; simpl; [|by destruct k].
  induction l as [|p l IH]; [done|]. rewrite !fmap_cons. simpl. by f_equal.
Qed.

Lemma schedule_error k t e : k <> FLScheduler -> existsb is_error (ScheduleTask local execute_task k t e) = false <-> node_answers k t e.
Proof.
  intros Hk. unfold ScheduleTask, node_answers. destruct (execute_task _ _) as [l|]; simpl.
  - split; [by eexists|]. intros _. induction l as [|p l IH]; [done|]. rewrite fmap_cons. simpl. done.
  - split; [by destruct k|by intros [? ?]].
Qed.

Lemma existsb_perm {A} (f : A -> bool) l l' : l ≡ₚ l' -> existsb f l = existsb f l'.
Proof.
  intros H. apply Bool.eq_iff_eq_true. rewrite !existsb_exists. by setoid_rewrite <- list_elem_of_In; setoid_rewrite H.
Qed.

Lemma existsb_concat {A} (f : A -> bool) ls : existsb f (concat ls) = false <-> Forall (fun l => existsb f l = false) ls.
Proof.
  induction ls as [|l ls IH]; simpl; [by split|]. rewrite existsb_app, orb_false_iff, IH, Forall_cons. done.
Qed.

Lemma send_parties_spec k t ret servers : send_parties walk local execute_task k t (ret, servers) ->
  (k <> FLScheduler -> (ret = SUCCESS <-> forall name n, pt_access t !! name = Some n -> node_answers k t (name, n))) /\
  (k = FLScheduler -> ret = SUCCESS) /\ (ret = SUCCESS \/ ret = FAIL) /\
  servers ≡ₚ concat (replies k t <$> walk _ (pt_access t)).
Proof.
  intros (l & Hl & [= -> ->]). apply interleave_perm in Hl.
  assert (He : existsb is_error l = false <-> Forall (fun e => existsb is_error (ScheduleTask local execute_task k t e) = false) (walk _ (pt_access t))).
  { rewrite (existsb_perm _ _ _ Hl), existsb_concat, Forall_fmap. done. }
  split; [|split; [|split]].
  - intros Hk. transitivity (existsb is_error l = false); [destruct (existsb is_error l); split; congruence|]. rewrite He, Forall_forall. split.
    + intros H name n Hn. apply schedule_error; [done|]. apply H. by apply walk_elem.
    + intros H [name n] Hin. apply schedule_error; [done|]. apply H. by apply walk_elem.
  - intros ->. rewrite (proj2 He); [done|]. apply Forall_forall. intros e _. unfold ScheduleTask. destruct (execute_task _ _) as [q|]; [|done].
    induction q as [|p q IH]; [done|]. rewrite fmap_cons. done.
  - destruct (existsb is_error l); auto.
  - rewrite Hl. clear. generalize (walk _ (pt_access t)). intros w. induction w as [|e w IH]; [done|].
    rewrite !fmap_cons. simpl. rewrite omap_app, IH, schedule_servers. done.
Qed.

(** A run exists: one thread after the other. *)
Lemma send_parties_exists k t : exists out, send_parties walk local execute_task k t out.
Proof. eexists _, _. split; [apply interleave_seq|reflexivity]. Qed.

Lemma request_for_fields k party t :
  pt_party_name (request_for local k party t) = party /\ pt_access (request_for local k party t) = pt_access t /\
  pt_aux (request_for local k party t) !! SCHEDULER_NODE = Some (node2PbNode local).
Proof.
  unfold request_for, AddSchedulerNode. cbn [pt_party_name pt_access pt_aux set_aux]. rewrite lookup_insert_eq.
  destruct k; try done. case_decide; [case_match|]; done.
Qed.

(** C23: a scheduler sends every party of the task exactly one request: to the node of
    that party, with that party's name, the access information of all parties and
    the scheduler's own address.  Whatever the interleaving of its threads, it
    reports success exactly when the call to every party's node was answered, be it
    with a refusal; the federated-learning scheduler, which does not record failures,
    reports success always.  The task servers it collects are those the answers
    name, each once. *)
Theorem dispatch_reaches_every_party k t : 
  (forall name, (exists n q, (name, n, q) ∈ sent_requests walk local k t) <-> is_Some (pt_access t !! name)) /\
  NoDup ((fun e => e.1.1) <$> sent_requests walk local k t) /\
  (forall name n q, (name, n, q) ∈ sent_requests walk local k t -> pn_node <$> pt_access t !! name = Some n /\ pt_party_name q = name /\
     pt_access q = pt_access t /\ pt_aux q !! SCHEDULER_NODE = Some (node2PbNode local)) /\
  (exists out, send_parties walk local execute_task k t out) /\
  (forall ret servers, send_parties walk local execute_task k t (ret, servers) ->
     (ret = SUCCESS <-> k = FLScheduler \/ forall name n, pt_access t !! name = Some n -> node_answers k t (name, n)) /\
     servers ≡ₚ concat (replies k t <$> walk _ (pt_access t))).
Proof.
  assert (Hs : forall name n q, (name, n, q) ∈ sent_requests walk local k t <->
    exists p, pt_access t !! name = Some p /\ n = pn_node p /\ q = request_for local k name t).
  { intros name n q. unfold sent_requests. rewrite list_elem_of_fmap. split.
    - intros ([nm p] & [= -> -> ->] & Hin%walk_elem). eauto.
    - intros (p & Hp & -> & ->). exists (name, p). by rewrite walk_elem. }
  split; [|split; [|split; [|split]]].
  - intros name. split; [intros (n & q & (p & Hp & _)%Hs); by eexists|]. intros [p Hp]. eexists _, _. apply Hs. eauto.
  - unfold sent_requests. rewrite <- list_fmap_compose. apply walk_NoDup.
  - intros name n q (p & Hp & -> & ->)%Hs. rewrite Hp. split; [done|]. apply request_for_fields.
  - apply send_parties_exists.
  - intros ret servers H. destruct (send_parties_spec _ _ _ _ H) as (H1 & H2 & _ & H4). split; [|done].
    destruct (decide (k = FLScheduler)) as [->|Hk]; [split; [by left|intros _; by apply H2]|]. rewrite H1 by done. tauto.
Qed.
End Send.
End Walk.

(** ** The numbers of the parties *)

Section Number.
Context (walk : forall A : Type, gmap str A -> list (str * A)).
Hypothesis walk_law : forall A (m : gmap str A), walk A m ≡ₚ map_to_list m.

Lemma party_order_NoDup {A} (m : gmap str A) : NoDup (party_order m).
Proof. unfold party_order, sort_names. rewrite merge_sort_Permutation. apply NoDup_fst_map_to_list. Qed.

Lemma party_order_elem {A} (m : gmap str A) k : k ∈ party_order m <-> is_Some (m !! k).
Proof.
  unfold party_order. rewrite sort_names_elem, list_elem_of_fmap. split.
  - intros ([k' v] & -> & H%elem_of_map_to_list). by exists v.
  - intros [v H]. exists (k, v). by rewrite elem_of_map_to_list.
Qed.

(** The entries a merge writes. *)
Definition numbered (m : gmap str Node) : list (str * pbNode) :=
  imap (fun i name => (name, PN (default default_node (m !! name)) (Z.of_nat i) [])) (party_order m).

Lemma numbered_keys m : (numbered m).*1 = party_order m.
Proof. unfold numbered. rewrite fmap_imap. apply list_eq. intros i. rewrite list_lookup_imap. by destruct (party_order m !! i). Qed.

Lemma merge_lookup found t name p : pt_access (MergePartyAccessInfo found t) !! name = Some p <->
  exists i n, party_order (merged_nodes t found) !! i = Some name /\ merged_nodes t found !! name = Some n /\ p = PN n (Z.of_nat i) [].
Proof.
  unfold MergePartyAccessInfo. cbn [pt_access set_access]. fold (numbered (merged_nodes t found)).
  set (m := merged_nodes t found). rewrite <- elem_of_list_to_map by (rewrite numbered_keys; apply party_order_NoDup).
  unfold numbered. rewrite elem_of_lookup_imap. split.
  - intros (i & k & [= -> ->] & Hi). assert (Hk : is_Some (m !! k)) by (apply party_order_elem, list_elem_of_lookup; eauto).
    destruct Hk as [n Hn]. rewrite Hn. eauto 10.
  - intros (i & n & Hi & Hn & ->). exists i, name. by rewrite Hn.
Qed.

Definition party_ids (t : PushTask) : list (str * Z) := (fun e => (e.1, pn_party_id e.2)) <$> walk _ (pt_access t).

Lemma party_ids_merged found t : party_ids (MergePartyAccessInfo found t) ≡ₚ imap (fun i name => (name, Z.of_nat i)) (party_order (merged_nodes t found)).
Proof.
  unfold party_ids. rewrite walk_law. unfold MergePartyAccessInfo. cbn [pt_access set_access]. fold (numbered (merged_nodes t found)).
  rewrite map_to_list_to_map by (rewrite numbered_keys; apply party_order_NoDup).
  unfold numbered. rewrite fmap_imap. done.
Qed.

(** C25: after the access information is merged, the parties are those of the request and
    the owners of its datasets, each with the node the request gives, or else the
    dataset's; their numbers are 0, 1, ... in the order of their names, each once.
    Three parties are thus numbered as the arithmetic task expects its requests. *)
Theorem party_numbering found t :
  let t' := MergePartyAccessInfo found t in
  let names := party_order (merged_nodes t found) in
  (forall name, pn_node <$> pt_access t' !! name = match pt_access t !! name with Some p => Some (pn_node p) | None => found !! name end) /\
  (forall name p, pt_access t' !! name = Some p -> 0 <= pn_party_id p < Z.of_nat (length names) /\ names !! Z.to_nat (pn_party_id p) = Some name) /\
  (forall i, (i < length names)%nat -> exists name p, pt_access t' !! name = Some p /\ pn_party_id p = Z.of_nat i) /\
  (length names = 3%nat -> three_parties (party_ids t') (fun i => default [] (names !! Z.to_nat i))).
Proof.
  intros t' names. split; [|split; [|split]].
  - intros name. destruct (pt_access t' !! name) as [p|] eqn:E; simpl.
    + apply merge_lookup in E as (i & n & _ & Hn & ->). unfold merged_nodes in Hn. rewrite lookup_union, lookup_fmap in Hn. simpl.
      destruct (pt_access t !! name) as [q|] eqn:Eq; simpl in Hn; [by destruct (found !! name); simplify_eq/=|].
      rewrite left_id_L in Hn; [done|apply _].
    + destruct (merged_nodes t found !! name) as [n|] eqn:En.
      * assert (Hin : name ∈ names) by (apply party_order_elem; by rewrite En). apply list_elem_of_lookup in Hin as [i Hi].
        assert (pt_access t' !! name = Some (PN n (Z.of_nat i) [])) by (apply merge_lookup; eauto 10). congruence.
      * unfold merged_nodes in En. apply lookup_union_None in En as [En1 En2]. rewrite lookup_fmap in En1.
        by destruct (pt_access t !! name).
  - intros name p (i & n & Hi & _ & ->)%merge_lookup. simpl. rewrite Nat2Z.id. split; [|done]. apply lookup_lt_Some in Hi. fold names in Hi. lia.
  - intros i Hi. destruct (lookup_lt_is_Some_2 names i Hi) as [name Hn].
    assert (Hm : is_Some (merged_nodes t found !! name)) by (apply party_order_elem, list_elem_of_lookup; eauto).
    destruct Hm as [n Hm]. exists name, (PN n (Z.of_nat i) []). split; [|done]. apply merge_lookup. eauto 10.
  - intros Hlen. assert (Hnd := party_order_NoDup (merged_nodes t found)). assert (Hp := party_ids_merged found t). fold names t' in Hnd, Hp.
    destruct names as [|a [|b [|c [|]]]]; try done.
Qed.

(** ** What a PIR server sees *)

Definition with_client_data (t : PushTask) (v : ParamValue) : PushTask := set_params t (<[chars "clientData" := v]> (pt_params t)).

Lemma pir_prepare_data local t v v' t1 : is_array v = is_array v' -> pir_prepare walk local (with_client_data t v) = Ret t1 ->
  exists a, t1 = set_access (with_client_data t v) a /\ pir_prepare walk local (with_client_data t v') = Ret (set_access (with_client_data t v') a).
Proof.
  intros Ha. unfold pir_prepare, with_client_data. cbn [pt_params set_params]. rewrite !lookup_insert_eq, <- Ha.
  destruct (is_array v); cbn [pt_params pt_access set_params set_access]; rewrite !lookup_insert_ne by done;
    (destruct (pt_params t !! chars "DbInfo"); [|case_decide; [done|]]); intros [= <-]; eexists; (split; [|reflexivity]); reflexivity.
Qed.

(** C24: the server of a PIR task learns nothing of the client's queries from its
    request: two tasks that differ in the client's data only (both lists, or both
    not) are dispatched alike, and the requests sent_requests to the party [SERVER] are the
    same, with the client's data cleared. *)
Theorem pir_server_blind local t v v' t1 : is_array v = is_array v' -> prepare_request walk local PIRScheduler (with_client_data t v) = Ret t1 ->
  exists t2, prepare_request walk local PIRScheduler (with_client_data t v') = Ret t2 /\ pt_access t2 = pt_access t1 /\
    forall n q, (PARTY_SERVER, n, q) ∈ sent_requests walk local PIRScheduler t1 ->
      (PARTY_SERVER, n, q) ∈ sent_requests walk local PIRScheduler t2 /\ pt_params q !! chars "clientData" = Some cleared.
Proof.
  intros Ha H. destruct (pir_prepare_data local t v v' t1 Ha H) as (a & -> & H2). eexists. split; [exact H2|]. split; [done|].
  intros n q Hin. unfold sent_requests in *. rewrite list_elem_of_fmap in Hin. destruct Hin as ([nm p] & [= <- -> ->] & Hp).
  assert (Hreq : forall w, request_for local PIRScheduler PARTY_SERVER (set_access (with_client_data t w) a) =
    AddSchedulerNode local (set_params (set_party_name (set_access t a) PARTY_SERVER) (<[chars "clientData" := cleared]> (pt_params t)))).
  { intros w. unfold request_for, with_client_data. rewrite decide_True by done. cbn [pt_params set_party_name set_access set_params].
    rewrite lookup_insert_eq. cbn [pt_params set_party_name set_access set_params]. by rewrite insert_insert_eq. }
  cbn [fst snd] in *. rewrite Hreq. split.
  - apply list_elem_of_fmap. exists (PARTY_SERVER, p). split; [|done]. cbn [fst snd]. by rewrite Hreq.
  - cbn [pt_params AddSchedulerNode set_aux set_params]. apply lookup_insert_eq.
Qed.
End Number.

(** ** The links of the three-party protocol *)

(** The next link of [a] and the previous link of [b] are one connection. *)
Definition linked (a b : VirtualMachine) : Prop :=
  exists x y, vm_next a = Some x /\ vm_prev b = Some y /\ ep_port x = ep_port y /\ ep_name x = ep_name y /\
    (ep_type x = SERVER /\ ep_type y = CLIENT \/ ep_type x = CLIENT /\ ep_type y = SERVER).

Section Links.
Context (walk : forall A : Type, gmap str A -> list (str * A)).
Hypothesis walk_law : forall A (m : gmap str A), walk A m ≡ₚ map_to_list m.

Definition aby3_name (t : PushTask) (lo hi : Z) : str := pt_job_id t ++ chars "_" ++ pt_task_id t ++ chars "_" ++ uint_to_string lo ++ uint_to_string hi.

Definition aby3_vm (t : PushTask) (ips : list str) (i : Z) : VirtualMachine :=
  let ep o := EP (default [] (ips !! Z.to_nat o)) (Z.min i o + 12120) (aby3_name t (Z.min i o) (Z.max i o)) (if i <? o then SERVER else CLIENT) in
  VM i (Some (ep (Z.rem (i + 1) 3))) (Some (ep (Z.rem (i + 2) 3))).

Lemma aby3_add_vm_ok t nodes node : length nodes = 3%nat -> 0 <= pn_party_id node < 3 ->
  aby3_add_vm t nodes node =
    Ret (PN (pn_node node) (pn_party_id node) (pn_vm node ++ [aby3_vm t ((fun n => ip_ (pn_node n)) <$> nodes) (pn_party_id node)])).
Proof.
  intros Hn Hi. destruct nodes as [|a [|b [|c [|]]]]; try done. unfold aby3_add_vm, aby3_vm.
  assert (pn_party_id node = 0 \/ pn_party_id node = 1 \/ pn_party_id node = 2) as [-> | [-> | ->]] by lia; reflexivity.
Qed.

Lemma aby3_vms_ok t nodes l m (f : pbNode -> pbNode) : NoDup l.*1 -> Forall (fun e => aby3_add_vm t nodes e.2 = Ret (f e.2)) l ->
  exists m', aby3_vms t nodes l m = Ret m' /\ (forall name n, (name, n) ∈ l -> m' !! name = Some (f n)) /\
    (forall name, name ∉ l.*1 -> m' !! name = m !! name).
Proof.
  revert m. induction l as [|[nm n] l IH]; intros m Hnd Hf; simpl.
  { exists m. split; [done|]. split; [by intros ? ? ?%elem_of_nil|done]. }
  rewrite fmap_cons in Hnd. apply list.NoDup_cons in Hnd as [Hnm Hnd]. inversion_clear Hf as [|?? Hn Hf']. simpl in Hn, Hnm. rewrite Hn.
  cbn [mbind res_bind]. destruct (IH (<[nm := f n]> m) Hnd Hf') as (m' & -> & H1 & H2). exists m'. split; [done|]. split.
  - intros name x [[= -> ->]|Hin]%elem_of_cons; [|by apply H1]. rewrite H2 by done. apply lookup_insert_eq.
  - intros name Hno. rewrite not_elem_of_cons in Hno. simpl in Hno. rewrite H2 by tauto. apply lookup_insert_ne. intros ->. tauto.
Qed.

Lemma aby3_linked t ips i : 0 <= i < 3 -> linked (aby3_vm t ips i) (aby3_vm t ips ((i + 1) mod 3)).
Proof.
  intros Hi. assert (i = 0 \/ i = 1 \/ i = 2) as [-> | [-> | ->]] by lia; unfold linked, aby3_vm; eexists _, _;
    (split; [reflexivity|]); (split; [reflexivity|]); (split; [reflexivity|]); (split; [reflexivity|]); simpl; auto.
Qed.

(** a three-party MPC task over three different nodes whose parties are numbered 0,
    1 and 2 is prepared: every party gets one virtual machine, and around the ring
    the next link of each party and the previous link of its successor are the same
    connection: one port, one session name, one side listening and the other
    connecting. *)
Theorem aby3_links_match t a b c na nb nc :
  pt_type t = ACTOR_TASK -> map_to_list (pt_access t) ≡ₚ [(na, a); (nb, b); (nc, c)] ->
  pn_party_id a = 0 -> pn_party_id b = 1 -> pn_party_id c = 2 -> pn_vm a = [] -> pn_vm b = [] -> pn_vm c = [] ->
  NoDup [node_to_string (pn_node a); node_to_string (pn_node b); node_to_string (pn_node c)] ->
  exists t' va vb vc, aby3_prepare walk t = Ret t' /\
    pt_access t' !! na = Some (PN (pn_node a) 0 [va]) /\ pt_access t' !! nb = Some (PN (pn_node b) 1 [vb]) /\
    pt_access t' !! nc = Some (PN (pn_node c) 2 [vc]) /\ linked va vb /\ linked vb vc /\ linked vc va.
Proof.
  intros Hty Hperm Ia Ib Ic Va Vb Vc Hnodes. set (w := walk _ (pt_access t)).
  assert (Hw : w ≡ₚ [(na, a); (nb, b); (nc, c)]) by (unfold w; by rewrite walk_law).
  assert (Hnames : NoDup w.*1) by (unfold w; rewrite walk_law; apply NoDup_fst_map_to_list).
  set (ips := (fun n => ip_ (pn_node n)) <$> w.*2).
  set (f n := PN (pn_node n) (pn_party_id n) (pn_vm n ++ [aby3_vm t ips (pn_party_id n)])).
  assert (Hlen : length w = 3%nat) by (by rewrite (Permutation_length Hw)).
  destruct (aby3_vms_ok t w.*2 w (pt_access t) f Hnames) as (m' & Hm & Hin & _).
  { apply Forall_forall. intros [nm n] H. rewrite Hw, !elem_of_cons, elem_of_nil in H. apply aby3_add_vm_ok; [by rewrite length_fmap|].
    destruct H as [[= -> ->]|[[= -> ->]|[[= -> ->]|[]]]]; simpl; lia. }
  assert (Hget : forall nm n, (nm, n) ∈ [(na, a); (nb, b); (nc, c)] -> m' !! nm = Some (f n)).
  { intros nm n H. apply Hin. by rewrite Hw. }
  exists (set_access t m'), (aby3_vm t ips 0), (aby3_vm t ips 1), (aby3_vm t ips 2). split.
  - unfold aby3_prepare. rewrite decide_True by done. fold w.
    rewrite decide_False, decide_False, Hm; [done|..].
    + rewrite size_list_to_set, length_fmap by done. lia.
    + rewrite size_list_to_set; [rewrite length_fmap; lia|]. rewrite Hw. done.
  - cbn [pt_access set_access]. rewrite (Hget na a), (Hget nb b), (Hget nc c) by set_solver.
    unfold f. rewrite Ia, Ib, Ic, Va, Vb, Vc. split_and!; [done..| | |].
    + exact (aby3_linked t ips 0 ltac:(lia)).
    + exact (aby3_linked t ips 1 ltac:(lia)).
    + exact (aby3_linked t ips 2 ltac:(lia)).
Qed.
End Links.

(** The address a link names comes from the position of the neighbour in the walk of
    the map, not from its number: walked in another order, party 0's next link names
    its own address. *)
Example aby3_link_address :
  let n i ip := PN (Nd [] (chars ip) 1 false []) i [] in
  let nodes := [n 2 "c"; n 0 "a"; n 1 "b"]%string in
  exists p, aby3_add_vm (PTask PROTO ACTOR_TASK [] [] [] [] ∅ ∅ ∅ ∅ ∅) nodes (n 0 "a"%string) = Ret p /\
    match pn_vm p with [VM _ (Some x) _] => ep_ip x = chars "a" | _ => False end.
Proof. eexists. split; [vm_compute; reflexivity|reflexivity]. Qed.

(** ** Network tasks *)

Definition endpoints (ty : LinkType) (vms : list VirtualMachine) : list (str * Z) :=
  e ← concat ((fun v => option_list (vm_next v) ++ option_list (vm_prev v)) <$> vms);
  match ep_type e, ty with SERVER, SERVER | CLIENT, CLIENT => [(ep_ip e, ep_port e)] | _, _ => [] end.

(** In a three-party network task every connecting end has a listening end. *)
Lemma falcon_links_match a b c : exists v0 v1 v2, falcon_add_vm [a; b; c] 0 = Ret v0 /\ falcon_add_vm [a; b; c] 1 = Ret v1 /\
  falcon_add_vm [a; b; c] 2 = Ret v2 /\ endpoints CLIENT (v0 ++ v1 ++ v2) ≡ₚ endpoints SERVER (v0 ++ v1 ++ v2).
Proof.
  eexists _, _, _. split; [reflexivity|]. split; [reflexivity|]. split; [reflexivity|].
  cbn. generalize (ip_ (pn_node a)) (ip_ (pn_node b)) (ip_ (pn_node c)). intros x y z.
  apply (Permutation_cons_app [_; _] [_; _; _]), (Permutation_cons_app [_; _; _] [_]), (Permutation_cons_app [] [_; _; _]).
  apply (Permutation_cons_app [_; _] []), (Permutation_cons_app [] [_]). reflexivity.
Qed.

(** A network task (maxpool, lenet) reaches nobody: the scheduler the factory makes has
    no peers, so its number of parties, whatever it happens to be, does not fit. *)
Lemma network_task_reaches_nobody walk local ex sub junk s t out : s = CRYPTFLOW2Scheduler \/ s = FalconScheduler -> pt_type t = ACTOR_TASK ->
  run_scheduler walk local ex sub junk s t out -> out = Ret (if decide (junk = 0%nat) then SUCCESS else FAIL, []).
Proof.
  intros Hs Hty H. assert (G : forall add_vm, match mpc_dispatch local sub add_vm [] junk ∅ t with
    | Ret None => out = Ret (FAIL, []) | Ret (Some threads) => exists l, interleave threads l /\ out = Ret (dispatch_outcome l)
    | Throw => out = Throw | Undef => out = Undef end -> out = Ret (if decide (junk = 0%nat) then SUCCESS else FAIL, [])).
  { intros add_vm. unfold mpc_dispatch. rewrite decide_True by done. cbn [length]. destruct (decide (junk = 0%nat)) as [->|Hj].
    - rewrite decide_False by tauto. cbn. intros (l & Hl & ->). apply interleave_perm in Hl. simpl in Hl. apply Permutation_nil_r in Hl. by subst.
    - rewrite decide_True by lia. done. }
  destruct Hs as [-> | ->]; by apply G in H.
Qed.

(** Two datasets of a Python task are taken for one when party name and id read the
    same one after the other. *)
Example python_datasets_collide :
  drop_seen ∅ [(chars "Bx", chars "A"); (chars "x", chars "AB")] = [(chars "Bx", chars "A")].
Proof. vm_compute. reflexivity. Qed.

(** ** A request, from the scheduler node to its parties *)

Section Request.
Context (walk : forall A : Type, gmap str A -> list (str * A)).
Hypothesis walk_law : forall A (m : gmap str A), walk A m ≡ₚ map_to_list m.
Context (local : Node) (execute_task submit_task : Node -> PushTask -> option (list pbNode)).
Context (parse : str -> option json) (status aux_status : nat -> option GetDatasetResponse) (junk : nat).



End Request.

(** ** The hypotheses can be met *)

Definition list_walk (A : Type) (m : gmap str A) : list (str * A) := map_to_list m.

Lemma list_walk_law A (m : gmap str A) : list_walk A m ≡ₚ map_to_list m.
Proof. done. Qed.

Definition sample_node (ip : string) : Node := Nd (chars ip) (chars ip) 50050 false [].

(** Two parties with a dataset each. *)
Definition sample_psi : PushTask :=
  PTask PROTO PSI_TASK [] (chars "job") (chars "task") [] ∅ ∅ ∅ ∅
    (<[chars "SERVER" := {[chars "SERVER" := chars "d2"]}]> {[chars "CLIENT" := {[chars "CLIENT" := chars "d1"]}]}).


Definition sample_accept (n : Node) (q : PushTask) : option (list pbNode) := Some [node2PbNode n].

Lemma dispatch_reaches_every_party_witness :
  let t := set_access sample_psi {[chars "CLIENT" := node2PbNode (sample_node "a")]} in
  exists n q, (chars "CLIENT", n, q) ∈ sent_requests list_walk (sample_node "s") VMScheduler t.
Proof.
  intros t. refine (proj2 (proj1 (dispatch_reaches_every_party list_walk list_walk_law (sample_node "s") sample_accept VMScheduler t) (chars "CLIENT")) _).
  by eexists.
Defined.

Lemma party_numbering_witness :
  let found : gmap str Node := <[chars "A" := sample_node "a"]> (<[chars "C" := sample_node "c"]> {[chars "B" := sample_node "b"]}) in
  let names := [chars "A"; chars "B"; chars "C"] in
  three_parties (party_ids list_walk (MergePartyAccessInfo found sample_psi)) (fun i => default [] (names !! Z.to_nat i)).
Proof.
  intros found names. assert (Hn : party_order (merged_nodes sample_psi found) = names) by (vm_compute; reflexivity).
  rewrite <- Hn. refine (proj2 (proj2 (proj2 (party_numbering list_walk list_walk_law found sample_psi))) _). by rewrite Hn.
Defined.

Definition sample_pir : PushTask :=
  PTask PROTO PIR_TASK [] (chars "job") (chars "task") [] {[PARTY_SERVER := node2PbNode (sample_node "b")]} ∅ ∅ ∅ ∅.

Lemma pir_server_blind_witness :
  let v := PV (value_string_array [chars "secret"]) true in let v' := PV (value_string_array [chars "other"]) true in
  exists t1 t2, prepare_request list_walk (sample_node "s") PIRScheduler (with_client_data sample_pir v) = Ret t1 /\
    prepare_request list_walk (sample_node "s") PIRScheduler (with_client_data sample_pir v') = Ret t2 /\
    exists n q, (PARTY_SERVER, n, q) ∈ sent_requests list_walk (sample_node "s") PIRScheduler t1 /\ (PARTY_SERVER, n, q) ∈ sent_requests list_walk (sample_node "s") PIRScheduler t2.
Proof.
  intros v v'. set (t1 := set_access (with_client_data sample_pir v)
    (<[PARTY_CLIENT := node2PbNode (sample_node "s")]> {[PARTY_SERVER := node2PbNode (sample_node "b")]})).
  assert (H1 : prepare_request list_walk (sample_node "s") PIRScheduler (with_client_data sample_pir v) = Ret t1) by (vm_compute; reflexivity).
  destruct (pir_server_blind list_walk (sample_node "s") sample_pir v v' t1 eq_refl H1) as (t2 & H2 & _ & H3). exists t1, t2.
  split; [done|]. split; [done|]. exists (sample_node "b"), (request_for (sample_node "s") PIRScheduler PARTY_SERVER t1).
  assert (Hin : (PARTY_SERVER, sample_node "b", request_for (sample_node "s") PIRScheduler PARTY_SERVER t1) ∈ sent_requests list_walk (sample_node "s") PIRScheduler t1).
  { unfold sent_requests. apply list_elem_of_fmap. exists (PARTY_SERVER, node2PbNode (sample_node "b")). split; [done|].
    unfold list_walk. apply elem_of_map_to_list. vm_compute. reflexivity. }
  split; [done|]. by apply H3.
Defined.

Definition sample_peer (ip : string) (i : Z) : pbNode := PN (sample_node ip) i [].
Definition sample_mpc : PushTask :=
  PTask PROTO ACTOR_TASK [] (chars "job") (chars "task") []
    (<[chars "A" := sample_peer "a" 0]> (<[chars "B" := sample_peer "b" 1]> {[chars "C" := sample_peer "c" 2]})) ∅ ∅ ∅ ∅.

Lemma aby3_links_match_witness : exists t' va vb, aby3_prepare list_walk sample_mpc = Ret t' /\
  pt_access t' !! chars "A" = Some (PN (sample_node "a") 0 [va]) /\ pt_access t' !! chars "B" = Some (PN (sample_node "b") 1 [vb]) /\ linked va vb.
Proof.
  destruct (aby3_links_match list_walk list_walk_law sample_mpc (sample_peer "a" 0) (sample_peer "b" 1) (sample_peer "c" 2) (chars "A") (chars "B") (chars "C"))
    as (t' & va & vb & vc & H & Ha & Hb & _ & Hl & _); try reflexivity.
  - unfold sample_mpc. cbn [pt_access]. rewrite !map_to_list_insert by (vm_compute; reflexivity). by rewrite map_to_list_singleton.
  - apply (bool_decide_unpack _). vm_compute. exact I.
  - eauto 10.
Defined.


