(* ===== verification/Peers.v ===== *)
(** * The peers of a task

    Models the functions of [task/semantic/parser.cc] that make the peers of a task from
    the meta data of its data sets ([metasToDatasetAndOwner], [metasToPeerList],
    [metasToPeerDatasetMap], [metasToPeerWithTagAndPort], [metasToPeerWithTagList]) and
    [DataURLToDetail] of [service/dataset/util.hpp] that takes a data URL apart. *)

From Stdlib Require Import Ascii String ZArith Lia.
From stdpp Require Import base tactics list option strings gmap.
From S2P Require Import Prelude ModArith Machine StrUtil Common MetaService Dispatch.

Local Open Scope Z_scope.

(** ** Data URLs *)

(** [DataURLToDetail] on given variables: an invalid URL leaves them as they are, and
    the result is success either way. *)
Definition DataURLToDetail (url : str) (node : Node) (path : str) : res (retcode * Node * str) :=
  let v := split_char ":"%char url in
  if decide (length v < 5)%nat then Ret (SUCCESS, node, path)
  else
    id ← or_undef (v !! 0%nat);
    ip ← or_undef (v !! 1%nat);
    p ← or_undef (v !! 2%nat);
    port ← stoi p;
    tls ← or_undef (v !! 3%nat);
    let node := Nd id ip (port mod 2 ^ 32) (bool_decide (tls = chars "1")) (chars "default") in
    path ← or_undef (v !! (if decide (length v = 5)%nat then 4%nat else 5%nat));
    Ret (SUCCESS, node, path).

(** ** Peers *)

Abbreviation metas := (list (DatasetMeta * str)).

(** The first owner of a description stays ([std::map::insert]). *)
Fixpoint metasToDatasetAndOwner (l : metas) (owner : gmap str str) : res (gmap str str) :=
  match l with
  | [] => Ret owner
  | (meta, _) :: l =>
      '(_, node, _) ← DataURLToDetail (data_url meta) default_node [];
      metasToDatasetAndOwner l (match owner !! dm_id meta with Some _ => owner | None => <[dm_id meta := id_ node]> owner end)
  end.

(** The search for a peer with the id of a node, and the new peer at the end. *)
Fixpoint is_new_peer {A} (key : A -> str) (id : str) (peers : list A) : bool :=
  match peers with
  | [] => true
  | p :: peers => if decide (key p = id) then false else is_new_peer key id peers
  end.
Definition add_peer {A} (key : A -> str) (x : A) (peers : list A) : list A :=
  if is_new_peer key (key x) peers then peers ++ [x] else peers.

Definition pb_id (n : pbNode) : str := id_ (pn_node n).

Fixpoint peers_of (l : metas) (peers : list pbNode) : res (list pbNode) :=
  match l with
  | [] => Ret peers
  | (meta, _) :: l => n ← node_of_text (server_meta meta); peers_of l (add_peer pb_id (node2PbNode n) peers)
  end.
Definition metasToPeerList (l : metas) (peers : list pbNode) : res (list pbNode) := peers_of l [].

Abbreviation PeerDatasetMap := (gmap str (list (str * str))).
Fixpoint metasToPeerDatasetMap (l : metas) (m : PeerDatasetMap) : res PeerDatasetMap :=
  match l with
  | [] => Ret m
  | (meta, tag) :: l =>
      n ← node_of_text (server_meta meta);
      metasToPeerDatasetMap l
        (match m !! id_ n with
         | None => <[id_ n := [(dm_id meta, tag)]]> m
         | Some ds => <[id_ n := ds ++ [(dm_id meta, tag)]]> m
         end)
  end.

(** [peer_context_map]: the ports of the data sets of a role; the entry of a role that
    is not there is read past the end of the map. *)
Fixpoint metasToPeerWithTagAndPort (contexts : gmap str (gmap str str)) (l : metas) (peers : list (pbNode * str)) : res (list (pbNode * str)) :=
  match l with
  | [] => Ret peers
  | (meta, tag) :: l =>
      n ← node_of_text (server_meta meta);
      ports ← or_undef (contexts !! tag);
      match ports !! dm_id meta with
      | None => Ret peers
      | Some _ => metasToPeerWithTagAndPort contexts l (add_peer (fun p => pb_id p.1) (node2PbNode n, tag) peers)
      end
  end.

Fixpoint tagged_peers (l : metas) (peers : list (pbNode * str)) : res (list (pbNode * str)) :=
  match l with
  | [] => Ret peers
  | (meta, tag) :: l =>
      '(_, n, _) ← DataURLToDetail (data_url meta) default_node [];
      tagged_peers l (add_peer (fun p => pb_id p.1) (node2PbNode n, tag) peers)
  end.
Definition metasToPeerWithTagList (l : metas) (peers : list (pbNode * str)) : res (list (pbNode * str)) := tagged_peers l [].

(** ** Facts *)

(** The first element of every key, in order. *)
Fixpoint firsts {A} (key : A -> str) (seen : list str) (l : list A) : list A :=
  match l with
  | [] => []
  | x :: l => if decide (key x ∈ seen) then firsts key seen l else x :: firsts key (key x :: seen) l
  end.

Lemma is_new_peer_spec {A} (key : A -> str) id peers : is_new_peer key id peers = bool_decide (id ∉ key <$> peers).
Proof.
  induction peers as [|p peers IH]; [done|]. cbn. destruct (decide (key p = id)) as [<- |Hne].
  - symmetry. apply bool_decide_eq_false_2. rewrite elem_of_cons. tauto.
  - rewrite IH. apply bool_decide_ext. rewrite elem_of_cons. naive_solver.
Qed.

Lemma firsts_ext {A} (key : A -> str) s s' l : (forall k, k ∈ s <-> k ∈ s') -> firsts key s l = firsts key s' l.
Proof.
  revert s s'. induction l as [|x l IH]; intros s s' H; [done|]. cbn. destruct (decide (key x ∈ s)) as [Hs|Hs].
  - rewrite decide_True by (by apply H). by apply IH.
  - rewrite decide_False by (by rewrite <- H). f_equal. apply IH. intros k. rewrite !elem_of_cons, H. done.
Qed.

Lemma add_peers_firsts {A} (key : A -> str) l peers : fold_left (fun p x => add_peer key x p) l peers = peers ++ firsts key (key <$> peers) l.
Proof.
  revert peers. induction l as [|x l IH]; intros peers; cbn [fold_left firsts]; [by rewrite app_nil_r|]. rewrite IH. unfold add_peer.
  rewrite is_new_peer_spec. destruct (decide (key x ∈ key <$> peers)) as [H|H].
  - rewrite bool_decide_eq_false_2 by tauto. done.
  - rewrite bool_decide_eq_true_2 by done. rewrite <- app_assoc. cbn. f_equal. f_equal. apply firsts_ext. intros k.
    rewrite fmap_app, elem_of_app, !elem_of_cons. cbn. rewrite elem_of_cons, elem_of_nil. tauto.
Qed.

Lemma firsts_keys {A} (key : A -> str) seen l : NoDup (key <$> firsts key seen l) /\ (forall k, k ∈ key <$> firsts key seen l <-> k ∈ key <$> l /\ k ∉ seen).
Proof.
  revert seen. induction l as [|x l IH]; intros seen; cbn [firsts].
  - split; [constructor|]. intros k. cbn. rewrite elem_of_nil. tauto.
  - case_decide as Hx.
    + destruct (IH seen) as [H1 H2]. split; [done|]. intros k. rewrite H2. cbn. rewrite elem_of_cons. naive_solver.
    + destruct (IH (key x :: seen)) as [H1 H2]. cbn [fmap list_fmap]. split.
      * constructor; [|done]. rewrite H2, elem_of_cons. tauto.
      * intros k. rewrite !elem_of_cons, H2, elem_of_cons. destruct (decide (k = key x)) as [-> |]; tauto.
Qed.

(** The nodes of the meta data, when all can be read. *)
Fixpoint nodes_of (l : metas) : res (list Node) :=
  match l with
  | [] => Ret []
  | (meta, _) :: l => n ← node_of_text (server_meta meta); ns ← nodes_of l; Ret (n :: ns)
  end.

Lemma peers_of_nodes l peers ns : nodes_of l = Ret ns -> peers_of l peers = Ret (fold_left (fun p x => add_peer pb_id x p) (node2PbNode <$> ns) peers).
Proof.
  revert peers ns. induction l as [|[meta tag] l IH]; intros peers ns H; cbn in *; [by injection H as <-|].
  destruct (node_of_text (server_meta meta)) as [n| |]; try done. cbn in *. destruct (nodes_of l) as [ns'| |]; try done. injection H as <-.
  by rewrite (IH _ ns').
Qed.

(** The peers of a task: every node that has a data set, once, in the order of the
    data sets, as its first data set describes it; the list that was there is gone. *)
Theorem peer_list_spec l old ns : nodes_of l = Ret ns ->
  exists peers, metasToPeerList l old = Ret peers /\ peers = node2PbNode <$> firsts id_ [] ns /\
    NoDup (pb_id <$> peers) /\ (forall i, i ∈ pb_id <$> peers <-> i ∈ id_ <$> ns).
Proof.
  intros H. exists (firsts pb_id [] (node2PbNode <$> ns)). unfold metasToPeerList. rewrite (peers_of_nodes l [] ns H), add_peers_firsts.
  split; [done|]. destruct (firsts_keys pb_id [] (node2PbNode <$> ns)) as [H1 H2]. split_and!; [|done|].
  - clear. generalize (@nil str). induction ns as [|n ns IH]; intros seen; [done|]. cbn. change (pb_id (node2PbNode n)) with (id_ n). case_decide; [apply IH|]. cbn. by rewrite IH.
  - intros i. rewrite H2. rewrite <- list_fmap_compose. rewrite elem_of_nil. cbn. tauto.
Qed.

(** The data sets of a peer. *)
Definition datasets_at (i : str) (l : list (Node * (str * str))) : list (str * str) := snd <$> filter (fun x => id_ x.1 = i) l.

Definition tagged (l : metas) : list (str * str) := (fun x => (dm_id x.1, x.2)) <$> l.

(** Every peer gets its data sets with their tags, in order, after those it had. *)
Theorem peer_datasets_spec l m ns : nodes_of l = Ret ns ->
  exists m', metasToPeerDatasetMap l m = Ret m' /\
    forall i, m' !! i = match default [] (m !! i) ++ datasets_at i (zip ns (tagged l)) with [] => m !! i | ds => Some ds end.
Proof.
  revert m ns. induction l as [|[meta tag] l IH]; intros m ns H; cbn in *.
  - injection H as <-. exists m. split; [done|]. intros i. cbn. rewrite app_nil_r. destruct (m !! i) as [[]|]; done.
  - destruct (node_of_text (server_meta meta)) as [n| |]; try done. cbn in *. destruct (nodes_of l) as [ns'| |]; try done. injection H as <-.
    edestruct IH as (m' & Hm & Hl); [done|]. exists m'. split; [exact Hm|]. intros i. rewrite Hl. clear Hl Hm IH.
    unfold datasets_at. cbn [tagged fmap list_fmap zip zip_with]. rewrite filter_cons. cbn [fst snd].
    destruct (decide (id_ n = i)) as [<- |Hne].
    + destruct (m !! id_ n) as [ds|]; rewrite lookup_insert_eq; cbn; rewrite <- ?app_assoc; [|done]. by destruct ds.
    + destruct (m !! id_ n) as [ds|]; by rewrite lookup_insert_ne by done.
Qed.

(** A data URL made from the address of a node and a path gives them back, with the role
    replaced by the default, as long as the path has no colon. *)
Lemma data_url_roundtrip n path node0 path0 : ":"%char ∉ id_ n -> ":"%char ∉ ip_ n -> ":"%char ∉ role_ n -> ":"%char ∉ path -> 0 <= port_ n < 2 ^ 31 ->
  DataURLToDetail (node_to_string n ++ chars ":" ++ path) node0 path0 = Ret (SUCCESS, Nd (id_ n) (ip_ n) (port_ n) (use_tls_ n) (chars "default"), path).
Proof.
  intros Hi Hp Hr Hpath Hport. unfold DataURLToDetail.
  assert (E : node_to_string n ++ chars ":" ++ path = join [":"%char] [id_ n; ip_ n; uint_to_string (port_ n); chars (if use_tls_ n then "1" else "0"); role_ n; path]).
  { unfold node_to_string. rewrite <- !app_assoc. reflexivity. }
  rewrite E, split_char_join; [|done|].
  2: { repeat constructor; try done; [apply no_colon_digits; lia|destruct (use_tls_ n); simpl; set_solver]. }
  cbn [length]. rewrite decide_False by lia. cbn [lookup list_lookup or_undef mbind res_bind]. rewrite stoi_digits by done. cbn [mbind res_bind].
  rewrite decide_False by lia. cbn [lookup list_lookup or_undef mbind res_bind]. rewrite (Z.mod_small (port_ n)) by lia. by destruct (use_tls_ n).
Qed.

(** A path with a colon is cut. *)
Example data_url_cut : exists n, DataURLToDetail (chars "n:1.2.3.4:5:0:r:db:table") default_node [] = Ret (SUCCESS, n, chars "db").
Proof. eexists. vm_compute. reflexivity. Qed.

(** Of a node with two roles only the first is kept, and its other data sets do not
    appear. *)
Example second_role_lost tag1 tag2 : let meta := DM (chars "d") (chars "n:1.2.3.4:5:0:/f") [] [] [] 0 [] None 0 in
  metasToPeerWithTagList [(meta, tag1); (meta, tag2)] [] = Ret [(node2PbNode (Nd (chars "n") (chars "1.2.3.4") 5 false (chars "default")), tag1)].
Proof. reflexivity. Qed.

(** An unreadable URL makes the node without a name a peer. *)
Example unreadable_url_peer tag : let meta := DM (chars "d") (chars "file") [] [] [] 0 [] None 0 in
  metasToPeerWithTagList [(meta, tag)] [] = Ret [(node2PbNode default_node, tag)].
Proof. reflexivity. Qed.

(** The peers are those before the first data set without a port; a role without a
    context is undefined behaviour. *)
Lemma ports_cut contexts l1 meta tag l2 peers n ports : metasToPeerWithTagAndPort contexts l1 peers = Ret n ->
  Forall (fun x => exists ports, contexts !! x.2 = Some ports /\ is_Some (ports !! dm_id x.1)) l1 ->
  (exists node, node_of_text (server_meta meta) = Ret node) -> contexts !! tag = Some ports -> ports !! dm_id meta = None ->
  metasToPeerWithTagAndPort contexts (l1 ++ (meta, tag) :: l2) peers = Ret n.
Proof.
  intros H HF [node Hn] Hc Hp. revert peers H. induction HF as [|[m1 t1] l1 (p1 & Hp1 & [x1 Hx1]) HF IH]; intros peers H; cbn in *.
  - injection H as <-. by rewrite Hn, Hc; cbn; rewrite Hp.
  - destruct (node_of_text (server_meta m1)) as [n1| |]; try done. cbn in *. rewrite Hp1 in *. cbn in *. rewrite Hx1 in *. by apply IH.
Qed.

Lemma role_without_context contexts meta tag l peers node : node_of_text (server_meta meta) = Ret node -> contexts !! tag = None ->
  metasToPeerWithTagAndPort contexts ((meta, tag) :: l) peers = Undef.
Proof. intros Hn Hc. cbn. by rewrite Hn, Hc. Qed.

(** The owner of a description is that of its first data set. *)
Lemma owner_kept l owner owner' d o : metasToDatasetAndOwner l owner = Ret owner' -> owner !! d = Some o -> owner' !! d = Some o.
Proof.
  revert owner. induction l as [|[meta tag] l IH]; intros owner H Ho; cbn in *; [by injection H as <-|].
  destruct (DataURLToDetail _ _ _) as [[[r n] p]| |]; try done. cbn in *. apply (IH _ H). destruct (owner !! dm_id meta) eqn:E; [done|].
  rewrite lookup_insert_ne; [done|]. congruence.
Qed.
