(* ===== verification/Grpc.v ===== *)
(** * Messages between nodes

    Models the data path of [util/network/grpc_link_context.cc] (splitting into
    packages, sending with retries, fetching), of [node/node_interface.cc] (the
    server side of [Send] and [ForwardRecv]), of the data functions of
    [node/node_impl.cc] and of the queues of [util/network/link_context.cc] and
    [util/threadsafe_queue.h]; and the retry loops of the control commands.  What
    a remote call does is given by the list of its outcomes: answered, lost before the
    node saw it, failed after the node processed it, or broken off between packages. *)

From Stdlib Require Import Ascii String ZArith Lia.
From stdpp Require Import base tactics list option strings countable gmap.
From S2P Require Import Prelude ModArith Machine StrUtil Common Worker NodeImpl.

Local Open Scope Z_scope.

(** ** Packages *)

Definition LIMITED_PACKAGE_SIZE : Z := 3 * 1024 * 1024.

(** The splitting loop: one package at least, and a next one while data is left.
    Every turn but the last takes [size] bytes, so the length bounds the turns. *)
Fixpoint split_packages (fuel size : nat) (rest : str) : list str :=
  match fuel with
  | O => []
  | S fuel => take size rest :: match drop size rest with [] => [] | r => split_packages fuel size r end
  end.

(** [rpc::TaskRequest]. *)
Record TaskRequest : Type := TR { tr_id : str; tr_role : str; tr_data_len : Z; tr_data : str }.

(** [GrpcChannel::buildTaskRequest] and [VMNodeInterface::BuildTaskRequest]. *)
Definition buildTaskRequest (size : Z) (id role data : str) : list TaskRequest :=
  TR id role (Z.of_nat (length data)) <$> split_packages (S (length data)) (Z.to_nat size) data.

(** The read loop of [VMNodeInterface::Send]: id and key of the first package, the
    data of all. *)
Definition receive_stream (reqs : list TaskRequest) : str * str * str :=
  (match reqs with r :: _ => tr_id r | [] => [] end, match reqs with r :: _ => tr_role r | [] => [] end, concat (tr_data <$> reqs)).

(** ** Queues *)

Record queue (A : Type) : Type := Qu { items : list A; stopped : bool }.
Arguments Qu {A} items stopped.
Arguments items {A} q.
Arguments stopped {A} q.

Definition queue_push {A} (x : A) (q : queue A) : queue A := Qu (items q ++ [x]) (stopped q).
Definition queue_shutdown {A} (q : queue A) : queue A := Qu (items q) true.

(** [wait_and_pop]: nothing while it waits; a stopped queue returns no item. *)
Definition wait_and_pop {A} (q : queue A) : option (option A * queue A) :=
  if stopped q then Some (None, q)
  else match items q with [] => None | x :: xs => Some (Some x, Qu xs false) end.

(** [LinkContext]: the receive and completion queues by key, the stop flag. *)
Record link : Type := Lk {
  in_data_queue : gmap str (queue str);
  complete_queue : gmap str (queue retcode);
  link_stop_ : bool
}.

(** [GetRecvQueue]: a queue made after the stop is shut down at once. *)
Definition GetRecvQueue (key : str) (l : link) : queue str :=
  match in_data_queue l !! key with
  | Some q => q
  | None => Qu [] (link_stop_ l)
  end.

(** [GetCompleteQueue]: a new queue is open, stop or no stop. *)
Definition GetCompleteQueue (key : str) (l : link) : queue retcode := default (Qu [] false) (complete_queue l !! key).

Definition set_recv (key : str) (q : queue str) (l : link) : link := Lk (<[key := q]> (in_data_queue l)) (complete_queue l) (link_stop_ l).
Definition set_complete (key : str) (q : queue retcode) (l : link) : link := Lk (in_data_queue l) (<[key := q]> (complete_queue l)) (link_stop_ l).

(** [LinkContext::Clean]. *)
Definition link_clean (l : link) : link := Lk (queue_shutdown <$> in_data_queue l) (queue_shutdown <$> complete_queue l) true.

(** ** The node's data functions *)

Record data_node : Type := DN {
  dn_executors : executors;
  dn_finished : gmap str (StatusCode * Z);
  dn_links : gmap wref link
}.

Definition set_link (w : wref) (l : link) (n : data_node) : data_node :=
  DN (dn_executors n) (dn_finished n) (<[w := l]> (dn_links n)).

(** [WaitUntilWorkerReady]: the answers of [IsTaskWorkerReady] with the time that
    had passed; nothing while it is still waiting. *)
Fixpoint WaitUntilWorkerReady (timeout_ms : Z) (polls : list (bool * Z)) : option retcode :=
  match polls with
  | [] => None
  | (true, _) :: _ => Some SUCCESS
  | (false, elapsed) :: polls =>
      if timeout_ms =? -1 then WaitUntilWorkerReady timeout_ms polls
      else if elapsed >? timeout_ms then Some FAIL else WaitUntilWorkerReady timeout_ms polls
  end.

Definition WAIT_TASK_WORKER_READY_TIMEOUT_MS : Z := 5 * 1000.

(** The guards the data functions share: [None] while waiting, [Some None] when the
    request is refused, the worker's link otherwise. *)
Definition locate (polls : list (bool * Z)) (id : str) (n : data_node) : res (option (option (wref * link))) :=
  if (IsFinishedTask id (dn_finished n)).1 then Ret (Some None)
  else
    match WaitUntilWorkerReady WAIT_TASK_WORKER_READY_TIMEOUT_MS polls with
    | None => Ret None
    | Some FAIL => Ret (Some None)
    | Some SUCCESS =>
        w ← GetWorker id (dn_executors n);
        Ret (Some (r ← w; l ← dn_links n !! r; Some (r, l)))
    end.

Definition ProcessReceivedData (polls : list (bool * Z)) (id key data : str) (n : data_node) : res (option (retcode * data_node)) :=
  o ← locate polls id n;
  Ret (match o with
       | None => None
       | Some None => Some (FAIL, n)
       | Some (Some (w, l)) => Some (SUCCESS, set_link w (set_recv key (queue_push data (GetRecvQueue key l)) l) n)
       end).

Definition ProcessForwardData (polls : list (bool * Z)) (id key : str) (n : data_node) : res (option (retcode * str * data_node)) :=
  o ← locate polls id n;
  Ret (match o with
       | None => None
       | Some None => Some (FAIL, [], n)
       | Some (Some (w, l)) =>
           '(x, q) ← wait_and_pop (GetRecvQueue key l);
           let l := set_recv key q l in
           Some (SUCCESS, default [] x, set_link w (set_complete key (queue_push SUCCESS (GetCompleteQueue key l)) l) n)
       end).

(** ** The two ends of a send *)

(** [VMNodeInterface::Send]: the code set for a refused message is overwritten. *)
Definition ServerSend (polls : list (bool * Z)) (reqs : list TaskRequest) (n : data_node) : res (option (retcode * data_node)) :=
  let '(id, key, data) := receive_stream reqs in
  o ← ProcessReceivedData polls id key data n;
  Ret (match o with
       | None => None
       | Some (ret, n) =>
           let ret_code := if decide (ret <> SUCCESS) then FAIL else SUCCESS in
           let ret_code := SUCCESS in Some (ret_code, n)
       end).

(** What became of one remote call: answered, failed before the server got any of it,
    failed after the server had processed it, or, for a call that streams packages,
    broken off after the first [S k] of them: the server's read loop then ends as at
    the end of the stream, and it processes what it has.  A call of one package that
    is broken off after it is one that failed late. *)
Inductive rpc : Type := rpc_ok | rpc_lost | rpc_late | rpc_cut (k : nat).
#[export] Instance rpc_eq_dec : EqDecision rpc.
Proof. solve_decision. Defined.

Definition retry_max_times_ : nat := 3.

(** The loop of [GrpcChannel::send] with [retry_time] failures behind it. *)
Fixpoint send_loop (retry_time : nat) (polls : list (bool * Z)) (reqs : list TaskRequest) (calls : list rpc) (n : data_node) :
    res (option (retcode * data_node)) :=
  match calls with
  | [] => Ret None
  | rpc_ok :: _ =>
      o ← ServerSend polls reqs n;
      Ret ('(code, n) ← o; Some (if decide (code <> SUCCESS) then FAIL else SUCCESS, n))
  | c :: calls =>
      o ← (match c with rpc_lost => Ret (Some (SUCCESS, n)) | rpc_cut k => ServerSend polls (take (S k) reqs) n | _ => ServerSend polls reqs n end);
      match o with
      | None => Ret None
      | Some (_, n) =>
          if decide (S retry_time < retry_max_times_)%nat then send_loop (S retry_time) polls reqs calls n else Ret (Some (FAIL, n))
      end
  end.

Definition send (polls : list (bool * Z)) (id key data : str) (calls : list rpc) (n : data_node) : res (option (retcode * data_node)) :=
  send_loop 0 polls (buildTaskRequest LIMITED_PACKAGE_SIZE id key data) calls n.

(** [VMNodeInterface::ForwardRecv] and [GrpcChannel::forwardRecv]: the packages are
    put together again; a refused request gives one empty package.  The call is made
    once; when it fails the text is empty, and after the server's part the message
    is gone. *)
Definition forwardRecv (polls : list (bool * Z)) (id key : str) (c : rpc) (n : data_node) : res (option (str * data_node)) :=
  match c with
  | rpc_lost => Ret (Some ([], n))
  | _ =>
      o ← ProcessForwardData polls id key n;
      Ret ('(ret, data, n) ← o;
           let received := concat (tr_data <$> (if decide (ret <> SUCCESS) then [TR [] [] 0 []] else buildTaskRequest LIMITED_PACKAGE_SIZE id key data)) in
           Some (if decide (c = rpc_ok) then received else [], n))
  end.

(** ** Control commands *)

(** The loop of [executeTask], [StopTask], [killTask], [updateTaskStatus],
    [fetchTaskStatus], [CheckSendCompleteStatus] and [NewDataset]: the code and the
    number of calls made. *)
Fixpoint control_loop (retry_time : nat) (calls : list bool) : option (retcode * nat) :=
  match calls with
  | [] => None
  | true :: _ => Some (SUCCESS, S retry_time)
  | false :: calls => if decide (S retry_time < retry_max_times_)%nat then control_loop (S retry_time) calls else Some (FAIL, S retry_time)
  end.

(** [submitTask]: its loop ends with [while (0)], so that [continue] leaves it. *)
Definition submitTask (calls : list bool) : option (retcode * nat) :=
  match calls with
  | [] => None
  | true :: _ => Some (SUCCESS, 1%nat)
  | false :: _ => if decide (1 < retry_max_times_)%nat then Some (SUCCESS, 1%nat) else Some (FAIL, 1%nat)
  end.

(** ** Packages are put together again *)

Lemma split_packages_concat fuel size rest : (0 < size)%nat -> (length rest < fuel)%nat -> concat (split_packages fuel size rest) = rest.
Proof.
  intros Hs. revert rest. induction fuel as [|fuel IH]; intros rest Hf; [lia|]. cbn [split_packages concat].
  destruct (drop size rest) as [|c r] eqn:E; [rewrite app_nil_r; rewrite <- (take_drop size rest) at 2; by rewrite E, app_nil_r|].
  rewrite IH; [rewrite <- E; apply take_drop|]. rewrite <- E, length_drop. assert (Hl := f_equal length E). rewrite length_drop in Hl. simpl in Hl. lia.
Qed.

Lemma package_data size id key data : 0 < size -> concat (tr_data <$> buildTaskRequest size id key data) = data.
Proof.
  intros Hs. unfold buildTaskRequest. rewrite <- list_fmap_compose. rewrite (list_fmap_ext _ (fun x => x)); [|done].
  rewrite list_fmap_id. apply split_packages_concat; lia.
Qed.

Lemma receive_packages size id key data : 0 < size -> receive_stream (buildTaskRequest size id key data) = (id, key, data).
Proof. intros Hs. unfold receive_stream. rewrite package_data by done. done. Qed.

(** The first packages hold the start of the data, and one package all of a short one. *)
Definition cut_text (k : nat) (data : str) : str := take (S k * Z.to_nat LIMITED_PACKAGE_SIZE) data.

Lemma split_packages_take k fuel size rest : (0 < size)%nat -> (length rest < fuel)%nat -> concat (take k (split_packages fuel size rest)) = take (k * size) rest.
Proof.
  intros Hs. revert k rest. induction fuel as [|fuel IH]; intros k rest Hf; [lia|]. destruct k as [|k]; [done|]. cbn [split_packages take concat].
  rewrite Nat.mul_succ_l, Nat.add_comm, <- take_take_drop. f_equal. destruct (drop size rest) as [|c r] eqn:E; [by rewrite !take_nil|].
  apply IH. rewrite <- E, length_drop. assert (Hl := f_equal length E). rewrite length_drop in Hl. simpl in Hl. lia.
Qed.

Lemma cut_text_short k data : (length data <= Z.to_nat LIMITED_PACKAGE_SIZE)%nat -> cut_text k data = data.
Proof. intros H. apply take_ge. rewrite Nat.mul_succ_l. lia. Qed.

Lemma receive_cut k id key data :
  receive_stream (take (S k) (buildTaskRequest LIMITED_PACKAGE_SIZE id key data)) = (id, key, cut_text k data).
Proof.
  assert (H : concat (tr_data <$> take (S k) (buildTaskRequest LIMITED_PACKAGE_SIZE id key data)) = cut_text k data).
  { unfold buildTaskRequest, cut_text. rewrite <- fmap_take, <- list_fmap_compose, (list_fmap_ext _ (fun x => x)) by done.
    rewrite list_fmap_id. apply split_packages_take; [unfold LIMITED_PACKAGE_SIZE; lia|lia]. }
  unfold receive_stream. rewrite H. done.
Qed.

(** No package is larger than the limit. *)
Lemma package_limit size id key data : Forall (fun r => (length (tr_data r) <= Z.to_nat size)%nat) (buildTaskRequest size id key data).
Proof.
  unfold buildTaskRequest. apply Forall_fmap. generalize (Z.of_nat (length data)) as len. intros len. generalize (S (length data)) as fuel. intros fuel.
  unfold compose. cbn [tr_data]. revert data.
  induction fuel as [|fuel IH]; intros data; cbn [split_packages]; [constructor|]. constructor; [rewrite length_take; lia|].
  destruct (drop (Z.to_nat size) data); [constructor|apply IH].
Qed.

(** ** A task's queue *)

(** The node serves [id]: not finished, its worker ready, the link of the first
    worker open. *)
Record serving (polls : list (bool * Z)) (id key : str) (w : wref) (q : list str) (n : data_node) : Prop := {
  sv_running : dn_finished n !! id = None;
  sv_ready : WaitUntilWorkerReady WAIT_TASK_WORKER_READY_TIMEOUT_MS polls = Some SUCCESS;
  sv_worker : exists rest, task_executor_map_ (dn_executors n) !! id = Some (Some w :: rest);
  sv_queue : exists l, dn_links n !! w = Some l /\ GetRecvQueue key l = Qu q false
}.

Lemma locate_serving polls id key w q n : serving polls id key w q n ->
  exists l, locate polls id n = Ret (Some (Some (w, l))) /\ dn_links n !! w = Some l /\ GetRecvQueue key l = Qu q false.
Proof.
  intros [H1 H2 [rest H3] (l & H4 & H5)]. exists l. split_and!; [|done..].
  unfold locate, IsFinishedTask, GetWorker. rewrite H1, H2, H3. cbn. by rewrite H4.
Qed.

(** Replacing the served queue. *)
Lemma serving_set polls id key w q q' n l : serving polls id key w q n -> GetRecvQueue key l = Qu q' false -> serving polls id key w q' (set_link w l n).
Proof. intros [H1 H2 H3 H4] Hl. split; [done..|]. exists l. split; [apply lookup_insert_eq|done]. Qed.

Lemma get_set_recv key q l : GetRecvQueue key (set_recv key q l) = q.
Proof. unfold GetRecvQueue, set_recv. cbn. by rewrite lookup_insert_eq. Qed.

Lemma get_set_recv_ne key key' q l : key <> key' -> GetRecvQueue key' (set_recv key q l) = GetRecvQueue key' l.
Proof. intros H. unfold GetRecvQueue, set_recv. cbn. by rewrite lookup_insert_ne. Qed.

Lemma serving_worker polls id key w q key' w' q' n : serving polls id key w q n -> serving polls id key' w' q' n -> w = w'.
Proof. intros [_ _ [r H] _] [_ _ [r' H'] _]. congruence. Qed.

Lemma serving_frame polls id key w q key' w' q' n l' : serving polls id key w q n -> serving polls id key' w' q' n ->
  (forall l, dn_links n !! w = Some l -> GetRecvQueue key' l' = GetRecvQueue key' l) -> serving polls id key' w' q' (set_link w l' n).
Proof.
  intros H H' Hl. assert (w = w') as <- by (by eapply serving_worker). destruct H' as [H1 H2 H3 (l & H4 & H5)]. split; [done..|].
  exists l'. split; [apply lookup_insert_eq|]. rewrite (Hl l H4). done.
Qed.

(** The other keys of the task are left alone. *)
Definition others_kept (polls : list (bool * Z)) (id key : str) (n n' : data_node) : Prop :=
  forall key' w' q', key <> key' -> serving polls id key' w' q' n -> serving polls id key' w' q' n'.

Lemma received_serving polls id key w q n reqs data : serving polls id key w q n -> receive_stream reqs = (id, key, data) ->
  exists n', ServerSend polls reqs n = Ret (Some (SUCCESS, n')) /\
    serving polls id key w (q ++ [data]) n' /\ others_kept polls id key n n'.
Proof.
  intros Hs Hr. destruct (locate_serving _ _ _ _ _ _ Hs) as (l & E & Hl & Hq). unfold ServerSend. rewrite Hr.
  unfold ProcessReceivedData. rewrite E. cbn [mbind res_bind]. eexists. split; [reflexivity|]. split.
  - apply (serving_set _ _ _ _ q); [done|]. rewrite get_set_recv, Hq. done.
  - intros key' w' q' Hk H'. apply (serving_frame polls id key w q); [done..|]. intros l0 H0. rewrite get_set_recv_ne by done. congruence.
Qed.

Lemma forward_serving polls id key c w x q n : serving polls id key w (x :: q) n -> c <> rpc_lost ->
  exists n', forwardRecv polls id key c n = Ret (Some (if decide (c = rpc_ok) then x else [], n')) /\
    serving polls id key w q n' /\ others_kept polls id key n n'.
Proof.
  intros Hs Hc. destruct (locate_serving _ _ _ _ _ _ Hs) as (l & E & Hl & Hq).
  assert (Ef : exists n', ProcessForwardData polls id key n = Ret (Some (SUCCESS, x, n')) /\ serving polls id key w q n' /\ others_kept polls id key n n').
  { unfold ProcessForwardData. rewrite E. cbn [mbind res_bind]. rewrite Hq. cbn [wait_and_pop stopped items mbind option_bind default from_option].
    eexists. split; [reflexivity|]. split.
    - apply (serving_set _ _ _ _ (x :: q)); [done|]. unfold set_complete, GetRecvQueue. cbn. by rewrite lookup_insert_eq.
    - intros key' w' q' Hk H'. apply (serving_frame polls id key w (x :: q)); [done..|]. intros l0 H0. assert (l0 = l) as -> by congruence.
      unfold GetRecvQueue at 1. cbn. rewrite lookup_insert_ne by done. done. }
  destruct Ef as (n' & Ef & Hk). exists n'. split; [|done]. unfold forwardRecv. rewrite Ef. cbn [mbind res_bind option_bind].
  rewrite (decide_False (P := SUCCESS <> SUCCESS)) by naive_solver. rewrite package_data by done. by destruct c.
Qed.

Lemma forward_waits polls id key c w n : serving polls id key w [] n -> c <> rpc_lost -> forwardRecv polls id key c n = Ret None.
Proof.
  intros Hs Hc. destruct (locate_serving _ _ _ _ _ _ Hs) as (l & E & Hl & Hq). unfold forwardRecv, ProcessForwardData. rewrite E.
  cbn [mbind res_bind]. rewrite Hq. by destruct c.
Qed.

(** ** Retries *)

(** The calls a loop with [k] turns left makes: up to the first answered one. *)
Fixpoint used (k : nat) (calls : list rpc) : list rpc :=
  match k, calls with
  | O, _ | _, [] => []
  | S k, rpc_ok :: _ => [rpc_ok]
  | S k, c :: calls => c :: used k calls
  end.

(** How many of them the server processed. *)
Definition processed (calls : list rpc) : nat := length (filter (fun c => c <> rpc_lost) calls).

(** What a send reports, and the texts that arrive: the message, or the start of it when
    the call broke off; [calls] are outcomes enough for the loop. *)
Definition send_code (calls : list rpc) : retcode := if decide (rpc_ok ∈ take retry_max_times_ calls) then SUCCESS else FAIL.
Definition arrival (data : str) (c : rpc) : list str := match c with rpc_lost => [] | rpc_cut k => [cut_text k data] | _ => [data] end.
Definition arrivals (calls : list rpc) (data : str) : list str := concat (arrival data <$> used retry_max_times_ calls).
Definition enough_calls (k : nat) (calls : list rpc) : Prop := (k <= length calls)%nat \/ rpc_ok ∈ take k calls.

Lemma enough_tail k c calls : c <> rpc_ok -> enough_calls (S k) (c :: calls) -> enough_calls k calls.
Proof. intros Hc [H|H]; [left; simpl in H; lia|right; simpl in H; set_solver]. Qed.

(** One call that was not answered. *)
Lemma failed_call polls id key w data q n c : serving polls id key w q n -> c <> rpc_ok ->
  let reqs := buildTaskRequest LIMITED_PACKAGE_SIZE id key data in
  exists n', match c with rpc_lost => Ret (Some (SUCCESS, n)) | rpc_cut k => ServerSend polls (take (S k) reqs) n | _ => ServerSend polls reqs n end =
    Ret (Some (SUCCESS, n')) /\ serving polls id key w (q ++ arrival data c) n' /\ others_kept polls id key n n'.
Proof.
  intros Hs Hc reqs. destruct c as [| | |k]; [done|..|by apply received_serving, receive_cut].
  - exists n. cbn. rewrite app_nil_r. split_and!; [done..|by intros key' w' q' _].
  - by apply received_serving, receive_packages.
Qed.

Lemma send_loop_spec polls id key w data k t q n calls : serving polls id key w q n -> (k + t = retry_max_times_)%nat -> (0 < k)%nat -> enough_calls k calls ->
  exists n', send_loop t polls (buildTaskRequest LIMITED_PACKAGE_SIZE id key data) calls n =
    Ret (Some (if decide (rpc_ok ∈ take k calls) then SUCCESS else FAIL, n')) /\
    serving polls id key w (q ++ concat (arrival data <$> used k calls)) n' /\ others_kept polls id key n n'.
Proof.
  revert t q n calls. induction k as [|k IH]; intros t q n calls Hs Hk Hpos Hc; [lia|].
  destruct calls as [|c calls]; [destruct Hc as [Hc|Hc]; [simpl in Hc; lia|by apply not_elem_of_nil in Hc]|].
  destruct (decide (c = rpc_ok)) as [->|Hne].
  - destruct (received_serving _ _ _ _ _ _ _ data Hs (receive_packages LIMITED_PACKAGE_SIZE id key data eq_refl)) as (n1 & E & Hs1 & Ho1). cbn [take used send_loop].
    rewrite E. cbn [mbind res_bind option_bind]. rewrite (decide_False (P := SUCCESS <> SUCCESS)) by naive_solver.
    rewrite decide_True by set_solver. by exists n1.
  - destruct (failed_call _ _ _ _ data _ _ c Hs Hne) as (n1 & E & Hs1 & Ho1). cbn zeta in E.
    assert (Hu : used (S k) (c :: calls) = c :: used k calls) by (by destruct c). rewrite Hu. cbn [fmap list_fmap concat take].
    assert (Hstep : send_loop t polls (buildTaskRequest LIMITED_PACKAGE_SIZE id key data) (c :: calls) n =
      if decide (S t < retry_max_times_)%nat then send_loop (S t) polls (buildTaskRequest LIMITED_PACKAGE_SIZE id key data) calls n1 else Ret (Some (FAIL, n1))).
    { destruct c; [done|..]; cbn [send_loop]; by rewrite E. }
    rewrite Hstep. destruct (decide (S t < retry_max_times_)%nat) as [Ht|Ht].
    + destruct (IH (S t) _ n1 calls Hs1) as (n' & Er & Hs' & Ho); [lia|unfold retry_max_times_ in *; lia|by eapply (enough_tail k)|].
      exists n'. rewrite <- app_assoc in Hs'. split; [|split; [done|intros key' w' q' Hk' H'; by apply Ho, Ho1]]. rewrite Er.
      do 3 f_equal. apply decide_ext. rewrite elem_of_cons. clear -Hne. naive_solver.
    + assert (k = 0)%nat as -> by (unfold retry_max_times_ in *; lia). rewrite decide_False by (rewrite elem_of_cons, elem_of_nil; clear -Hne; naive_solver). exists n1. cbn. by rewrite app_nil_r.
Qed.

Lemma send_serving polls id key w q n data calls : serving polls id key w q n -> enough_calls retry_max_times_ calls ->
  exists n', send polls id key data calls n = Ret (Some (send_code calls, n')) /\
    serving polls id key w (q ++ arrivals calls data) n' /\ others_kept polls id key n n'.
Proof. intros Hs Hc. apply send_loop_spec; [done|lia|unfold retry_max_times_; lia|done]. Qed.

(** what a send reports and what it does.  While the receiving node serves the
    task, a send makes at most three calls and reports success exactly when one
    of them was answered; the message is queued once for every call the server
    processed, so a call that failed late makes a duplicate, and a call that broke off
    between two packages queues the start of the message.  For a task the node
    has already finished the message is dropped, and the send reports success
    all the same. *)
Theorem grpc_send_spec polls id key data w q n calls : (retry_max_times_ <= length calls)%nat ->
  (serving polls id key w q n ->
   exists n', send polls id key data calls n = Ret (Some (if decide (rpc_ok ∈ take retry_max_times_ calls) then SUCCESS else FAIL, n')) /\
     serving polls id key w (q ++ arrivals calls data) n') /\
  (is_Some (dn_finished n !! id) -> head calls = Some rpc_ok -> send polls id key data calls n = Ret (Some (SUCCESS, n))).
Proof.
  intros Hc. split.
  - intros Hs. destruct (send_serving polls id key w q n data calls Hs) as (n' & E & Hs' & _); [by left|]. by exists n'.
  - intros [[st t] Hf] Hh. destruct calls as [|c calls]; [done|]. simpl in Hh. injection Hh as ->. unfold send. cbn [send_loop].
    unfold ServerSend. rewrite receive_packages by done. unfold ProcessReceivedData, locate, IsFinishedTask. rewrite Hf. cbn [fst mbind res_bind option_bind].
    by rewrite (decide_False (P := SUCCESS <> SUCCESS)) by naive_solver.
Qed.

Definition sample_data_node : data_node :=
  DN (Ex {[chars "r" := [Some 0%nat]]} [] []) ∅ {[0%nat := Lk ∅ ∅ false]}.

Lemma sample_serving : serving [(true, 0)] (chars "r") (chars "k") 0%nat [] sample_data_node.
Proof. split; [reflexivity|reflexivity|by exists []|eexists; split; reflexivity]. Qed.

Lemma grpc_send_spec_witness :
  exists n', send [(true, 0)] (chars "r") (chars "k") (chars "m") [rpc_late; rpc_ok; rpc_ok] sample_data_node = Ret (Some (SUCCESS, n')) /\
    serving [(true, 0)] (chars "r") (chars "k") 0%nat [chars "m"; chars "m"] n'.
Proof.
  destruct (grpc_send_spec [(true, 0)] (chars "r") (chars "k") (chars "m") 0%nat [] sample_data_node [rpc_late; rpc_ok; rpc_ok]) as [H _];
    [unfold retry_max_times_; simpl; lia|]. exact (H sample_serving).
Defined.

(** ** Messages and fetches on one key *)

(** A send with the outcomes of its calls, a fetch with the outcome of its call. *)
Inductive msg_op : Type := Put (data : str) (calls : list rpc) | Get (c : rpc).

(** The codes and texts the operations end with; nothing while one waits. *)
Fixpoint msg_run (polls : list (bool * Z)) (id key : str) (ops : list msg_op) (n : data_node) : res (option (list (retcode * str) * data_node)) :=
  match ops with
  | [] => Ret (Some ([], n))
  | op :: ops =>
      o ← match op with
          | Put d calls => o ← send polls id key d calls n; Ret ('(code, n) ← o; Some (code, [], n))
          | Get c => o ← forwardRecv polls id key c n; Ret ('(x, n) ← o; Some (SUCCESS, x, n))
          end;
      match o with
      | None => Ret None
      | Some (code, x, n) => o ← msg_run polls id key ops n; Ret ('(l, n) ← o; Some ((code, x) :: l, n))
      end
  end.

(** The specification: one first-in first-out queue. *)
Definition qstep (op : msg_op) (q : list str) : option (retcode * str * list str) :=
  match op with
  | Put d calls => Some (send_code calls, [], q ++ arrivals calls d)
  | Get c =>
      if decide (c = rpc_lost) then Some (SUCCESS, [], q)
      else match q with [] => None | x :: q => Some (SUCCESS, if decide (c = rpc_ok) then x else [], q) end
  end.

Fixpoint qrun (ops : list msg_op) (q : list str) : option (list (retcode * str) * list str) :=
  match ops with
  | [] => Some ([], q)
  | op :: ops => '(code, x, q) ← qstep op q; '(l, q) ← qrun ops q; Some ((code, x) :: l, q)
  end.

Definition calls_enough (op : msg_op) : Prop := match op with Put _ calls => enough_calls retry_max_times_ calls | Get _ => True end.

(** The calls are answered at once. *)
Definition answered (op : msg_op) : Prop := match op with Put _ calls => head calls = Some rpc_ok | Get c => c = rpc_ok end.

(** The messages sent, and the texts the fetches of a run gave. *)
Definition sent (ops : list msg_op) : list str := omap (fun o => match o with Put d _ => Some d | Get _ => None end) ops.
Definition got_texts (ops : list msg_op) (l : list (retcode * str)) : list str :=
  omap (fun p : msg_op * (retcode * str) => match p.1 with Put _ _ => None | Get _ => Some p.2.2 end) (zip ops l).

Lemma answered_arrivals calls d : head calls = Some rpc_ok -> enough_calls retry_max_times_ calls /\ arrivals calls d = [d] /\ send_code calls = SUCCESS.
Proof.
  destruct calls as [|c calls]; [done|]. intros [= ->]. assert (Hin : rpc_ok ∈ take retry_max_times_ (rpc_ok :: calls)) by (cbn; set_solver).
  split_and!; [by right|done|]. unfold send_code. by rewrite decide_True.
Qed.

(** With every call answered a run of the queue loses, repeats and reorders nothing. *)
Lemma qrun_answered ops q l q' : Forall answered ops -> qrun ops q = Some (l, q') -> got_texts ops l ++ q' = q ++ sent ops.
Proof.
  intros Ha. revert q l. induction Ha as [|op ops Hop _ IH]; intros q l; cbn [qrun].
  - intros [= <- <-]. cbn. by rewrite app_nil_r.
  - intros ([[code x] q1] & Hs & H)%bind_Some. apply bind_Some in H as ([l1 q2] & Hr & [= <- <-]). apply IH in Hr.
    destruct op as [d calls|c]; cbn [qstep answered] in *.
    + destruct (answered_arrivals calls d Hop) as (_ & Hk & _). rewrite Hk in Hs. injection Hs as <- <- <-.
      unfold got_texts in *. cbn [zip zip_with omap list_omap fst]. rewrite Hr, <- app_assoc. done.
    + subst c. rewrite decide_False in Hs by done. destruct q as [|y q]; [done|]. rewrite decide_True in Hs by done. injection Hs as <- <- <-.
      unfold got_texts in *. cbn [zip zip_with omap list_omap fst snd app]. by rewrite Hr.
Qed.

(** C13: the message path of one key is a first-in first-out queue.  While a node serves
    a task, any series of sends and fetches on a key ends as on one queue of texts,
    whatever becomes of the calls: a send reports success exactly when one of its (at
    most three) calls was answered and queues its message once for every call the node
    processed, none or several times when calls fail, and only its first packages for
    a call that broke off between two packages; a fetch takes the
    oldest text and gives it back put together from its packages, waits exactly
    when there is none, and gives an empty text when its only call fails, which
    loses the message when the node had already taken it.  When every call is
    answered, the texts fetched, followed by what is still queued, are what was
    queued at the start followed by the messages sent, each once and in order. *)
Theorem messages_in_order polls id key w q n ops : serving polls id key w q n -> Forall calls_enough ops ->
  match qrun ops q with
  | None => msg_run polls id key ops n = Ret None
  | Some (l, q') => (exists n', msg_run polls id key ops n = Ret (Some (l, n')) /\ serving polls id key w q' n') /\
      (Forall answered ops -> got_texts ops l ++ q' = q ++ sent ops)
  end.
Proof.
  intros Hs Hc. assert (H : match qrun ops q with None => msg_run polls id key ops n = Ret None
    | Some (l, q') => exists n', msg_run polls id key ops n = Ret (Some (l, n')) /\ serving polls id key w q' n' end).
  { revert q n Hs. induction Hc as [|op ops Hop _ IH]; intros q n Hs; cbn [qrun msg_run]; [by exists n|].
    destruct op as [d calls|c]; cbn [qstep calls_enough] in *.
    - destruct (send_serving _ _ _ _ _ _ d calls Hs Hop) as (n1 & E & Hs1 & _). rewrite E. cbn [mbind res_bind option_bind].
      specialize (IH _ _ Hs1). destruct (qrun ops _) as [[l q']|]; cbn [mbind option_bind]; [|by rewrite IH].
      destruct IH as (n' & -> & Hs'). by exists n'.
    - destruct (decide (c = rpc_lost)) as [->|Hl].
      + cbn [forwardRecv mbind res_bind option_bind]. specialize (IH _ _ Hs). destruct (qrun ops q) as [[l q']|]; cbn [mbind option_bind]; [|by rewrite IH].
        destruct IH as (n' & -> & Hs'). by exists n'.
      + destruct q as [|x q]; [by rewrite (forward_waits _ _ _ _ _ _ Hs)|].
        destruct (forward_serving _ _ _ c _ _ _ _ Hs Hl) as (n1 & E & Hs1 & _). rewrite E. cbn [mbind res_bind option_bind].
        specialize (IH _ _ Hs1). destruct (qrun ops q) as [[l q']|]; cbn [mbind option_bind]; [|by rewrite IH].
        destruct IH as (n' & -> & Hs'). by exists n'. }
  destruct (qrun ops q) as [[l q']|] eqn:E; [|done]. split; [done|]. intros Ha. by apply (qrun_answered ops q).
Qed.

Definition sample_messages : list msg_op :=
  [Put (chars "a") [rpc_late; rpc_ok]; Put (chars "b") [rpc_ok]; Get rpc_ok; Get rpc_late; Get rpc_ok].

Lemma messages_in_order_witness :
  exists n', msg_run [(true, 0)] (chars "r") (chars "k") sample_messages sample_data_node =
      Ret (Some ([(SUCCESS, []); (SUCCESS, []); (SUCCESS, chars "a"); (SUCCESS, []); (SUCCESS, chars "b")], n')) /\
    serving [(true, 0)] (chars "r") (chars "k") 0%nat [] n'.
Proof.
  refine (proj1 (messages_in_order [(true, 0)] (chars "r") (chars "k") 0%nat [] sample_data_node sample_messages sample_serving _)).
  repeat constructor; right; cbn; set_solver.
Defined.

Lemma control_loop_spec k t calls : (k + t = retry_max_times_)%nat -> (0 < k <= length calls)%nat ->
  exists c, control_loop t calls = Some (if decide (true ∈ take k calls) then SUCCESS else FAIL, c) /\ (t < c <= retry_max_times_)%nat.
Proof.
  revert t calls. induction k as [|k IH]; intros t calls Hk Hc; [lia|]. destruct calls as [|[] calls]; [simpl in Hc; lia|..]; cbn [control_loop take].
  - rewrite decide_True by set_solver. exists (S t). split; [done|lia].
  - destruct (decide (S t < retry_max_times_)%nat) as [Ht|Ht].
    + destruct (IH (S t) calls) as (c & -> & Hb); [lia|simpl in Hc; lia|]. exists c. split; [|lia]. do 2 f_equal. apply decide_ext. set_solver.
    + assert (k = 0)%nat as -> by lia. rewrite decide_False by set_solver. exists (S t). split; [done|lia].
Qed.

(** control commands.  Every command but one makes up to three calls and
    reports success exactly when one of the first three was answered; submitting a
    task makes a single call and reports success whether or not it was answered. *)
Theorem control_command_spec calls : (retry_max_times_ <= length calls)%nat ->
  (exists c, control_loop 0 calls = Some (if decide (true ∈ take retry_max_times_ calls) then SUCCESS else FAIL, c) /\ (0 < c <= retry_max_times_)%nat) /\
  submitTask calls = Some (SUCCESS, 1%nat).
Proof.
  intros Hc. split; [apply control_loop_spec; unfold retry_max_times_ in *; lia|].
  destruct calls as [|[] calls]; [simpl in Hc; unfold retry_max_times_ in Hc; lia|done|]. unfold submitTask.
  by rewrite decide_True by (unfold retry_max_times_; lia).
Qed.

Lemma control_command_spec_witness : submitTask [false; false; false] = Some (SUCCESS, 1%nat).
Proof. apply (control_command_spec [false; false; false]). unfold retry_max_times_. simpl. lia. Defined.
