(* ===== verification/Channels.v ===== *)
(** * Channels between the parties of an MPC task

    Models [ABY3PartyConfig] and [AlgorithmBase::initPartyComm] of
    [algorithm/base.{h,cc}] (the build without [MPC_SOCKET_CHANNEL]), the channel they
    make ([util/network/mpc_channel.{h,cc}]), the channel in memory
    ([util/network/mem_channel.{h,cc}]) and the socket adapter
    ([util/network/message_interface.{h,cc}]).  A channel of [MPCTaskChannel] sends to
    the node of the peer and fetches from the party's own proxy, through the message
    path of [Grpc]; what keeps the channels of a task apart is the key. *)

From Stdlib Require Import Ascii String ZArith Lia.
From stdpp Require Import base tactics list option strings countable gmap.
From S2P Require Import Prelude ModArith Machine StrUtil Common Parallel PsiNet Worker NodeImpl Grpc.

Local Open Scope Z_scope.

(** ** The ring of parties *)

Definition ABY3_TOTAL_PARTY_NUM : Z := 3.

(** [ABY3PartyConfig]: the party's name and number, and the two maps. *)
Record ABY3PartyConfig : Type := APC {
  ap_name : str;
  ap_id : Z;
  ap_names : gmap Z str;
  ap_nodes : gmap str Node
}.

Definition NextPartyId (c : ABY3PartyConfig) : Z := (ap_id c + 1) mod ABY3_TOTAL_PARTY_NUM.
Definition PrevPartyId (c : ABY3PartyConfig) : Z := (ap_id c + 2) mod ABY3_TOTAL_PARTY_NUM.
(** [operator[]] of a map makes an empty entry. *)
Definition NextPartyName (c : ABY3PartyConfig) : str := default [] (ap_names c !! NextPartyId c).
Definition PrevPartyName (c : ABY3PartyConfig) : str := default [] (ap_names c !! PrevPartyId c).
Definition PartyName2PartyInfo (c : ABY3PartyConfig) (name : str) : Node := default default_node (ap_nodes c !! name).
Definition NextPartyInfo (c : ABY3PartyConfig) : Node := PartyName2PartyInfo c (NextPartyName c).
Definition PrevPartyInfo (c : ABY3PartyConfig) : Node := PartyName2PartyInfo c (PrevPartyName c).

(** ** Channels *)

(** [MPCTaskChannel]. *)
Record MPCTaskChannel : Type := MTC {
  send_key_ : str;
  recv_key_ : str;
  send_channel_ : Node;
  recv_channel_ : Node
}.

Definition channel_key (request_id sub_task_id a b : str) : str :=
  request_id ++ chars "_" ++ sub_task_id ++ chars "_" ++ a ++ chars "_" ++ b.

Definition new_MPCTaskChannel (request_id sub_task_id local peer : str) (send recv : Node) : MPCTaskChannel :=
  MTC (channel_key request_id sub_task_id local peer) (channel_key request_id sub_task_id peer local) send recv.

(** [AlgorithmBase::initPartyComm]: -1 without a link context, else the channels to
    the previous and to the next party. *)
Definition initPartyComm (link_ctx : option (str * str)) (c : ABY3PartyConfig) (proxy_node_ : Node) : Z * option (MPCTaskChannel * MPCTaskChannel) :=
  match link_ctx with
  | None => (-1, None)
  | Some (request_id, sub_task_id) =>
      (0, Some (new_MPCTaskChannel request_id sub_task_id (ap_name c) (PrevPartyName c) (PrevPartyInfo c) proxy_node_,
                new_MPCTaskChannel request_id sub_task_id (ap_name c) (NextPartyName c) (NextPartyInfo c) proxy_node_))
  end.

(** [initPartyComm] with given channels. *)
Definition initPartyComm_given {C} (channels : list C) : Z * option (C * C) :=
  match channels with
  | prev :: next :: _ => (0, Some (prev, next))
  | _ => (-1, None)
  end.

(** The nodes that are reached. *)
Abbreviation world := (gmap Node data_node).

(** [MPCTaskChannel::SendImpl] with the outcomes of the calls [GrpcChannel::send] makes;
    a node that is not reached fails. *)
Definition SendImpl (polls : list (bool * Z)) (id : str) (ch : MPCTaskChannel) (calls : list rpc) (data : str) (W : world) : res (option (retcode * world)) :=
  match W !! send_channel_ ch with
  | None => Ret (Some (FAIL, W))
  | Some n =>
      o ← send polls id (send_key_ ch) data calls n;
      Ret ('(code, n) ← o; Some (if decide (code <> SUCCESS) then FAIL else SUCCESS, <[send_channel_ ch := n]> W))
  end.

(** What the proxy hands out; nothing when it is not reached. *)
Definition fetch (polls : list (bool * Z)) (id : str) (ch : MPCTaskChannel) (c : rpc) (W : world) : res (option (str * world)) :=
  match W !! recv_channel_ ch with
  | None => Ret (Some ([], W))
  | Some n =>
      o ← forwardRecv polls id (recv_key_ ch) c n;
      Ret ('(data, n) ← o; Some (data, <[recv_channel_ ch := n]> W))
  end.

(** [RecvImpl] into a string reports success whatever it got. *)
Definition RecvImpl (polls : list (bool * Z)) (id : str) (ch : MPCTaskChannel) (c : rpc) (W : world) : res (option (retcode * str * world)) :=
  o ← fetch polls id ch c W;
  Ret ('(data, W) ← o; Some (SUCCESS, data, W)).

(** [RecvImpl] into a buffer of a given size; the message is gone either way. *)
Definition RecvImpl_sized (polls : list (bool * Z)) (id : str) (ch : MPCTaskChannel) (c : rpc) (size : nat) (W : world) : res (option (retcode * str * world)) :=
  o ← fetch polls id ch c W;
  Ret ('(data, W) ← o; Some (if decide (length data = size) then (SUCCESS, data) else (FAIL, []), W)).

(** ** Runs of three parties *)

(** An operation of party [i] on its channel to the next or the previous party, with
    the outcomes of its remote calls. *)
Inductive cop : Type :=
| CSend (i : Z) (next : bool) (data : str) (calls : list rpc)
| CRecv (i : Z) (next : bool) (c : rpc)
| CRecvSized (i : Z) (next : bool) (size : nat) (c : rpc).

Definition neighbour (i : Z) (next : bool) : Z := if next then (i + 1) mod 3 else (i + 2) mod 3.

(** The three parties as they know each other. *)
Record ring : Type := Ring {
  rg_name : Z -> str;
  rg_node : Z -> Node;
  rg_request : str;
  rg_sub_task : str
}.

Definition ring_config (g : ring) (i : Z) : ABY3PartyConfig :=
  APC (rg_name g i) i (<[0 := rg_name g 0]> (<[1 := rg_name g 1]> {[2 := rg_name g 2]}))
    (<[rg_name g 0 := rg_node g 0]> (<[rg_name g 1 := rg_node g 1]> {[rg_name g 2 := rg_node g 2]})).

(** A party's channel as [initPartyComm] makes it; the proxy of a party is its node. *)
Definition ring_channel (g : ring) (i : Z) (next : bool) : res MPCTaskChannel :=
  match initPartyComm (Some (rg_request g, rg_sub_task g)) (ring_config g i) (rg_node g i) with
  | (_, Some (prev, nxt)) => Ret (if next then nxt else prev)
  | _ => Undef
  end.

(** Nothing while an operation waits. *)
Definition cstep (polls : list (bool * Z)) (g : ring) (op : cop) (W : world) : res (option (retcode * str * world)) :=
  match op with
  | CSend i next data calls =>
      ch ← ring_channel g i next;
      o ← SendImpl polls (rg_request g) ch calls data W;
      Ret ('(code, W) ← o; Some (code, [], W))
  | CRecv i next c => ch ← ring_channel g i next; RecvImpl polls (rg_request g) ch c W
  | CRecvSized i next size c => ch ← ring_channel g i next; RecvImpl_sized polls (rg_request g) ch c size W
  end.

Fixpoint crun (polls : list (bool * Z)) (g : ring) (ops : list cop) (W : world) : res (option (list (retcode * str) * world)) :=
  match ops with
  | [] => Ret (Some ([], W))
  | op :: ops =>
      o ← cstep polls g op W;
      match o with
      | None => Ret None
      | Some (c, data, W) => o ← crun polls g ops W; Ret ('(l, W) ← o; Some ((c, data) :: l, W))
      end
  end.

(** The specification: a queue for every ordered pair of parties, each as [qstep] of
    [Grpc] describes the queue of one key. *)
Definition pair_queue (q : gmap (Z * Z) (list str)) (i j : Z) : list str := default [] (q !! (i, j)).

Definition astep (op : cop) (q : gmap (Z * Z) (list str)) : option (retcode * str * gmap (Z * Z) (list str)) :=
  match op with
  | CSend i next data calls =>
      '(code, x, l) ← qstep (Put data calls) (pair_queue q i (neighbour i next)); Some (code, x, <[(i, neighbour i next) := l]> q)
  | CRecv i next c =>
      '(code, x, l) ← qstep (Get c) (pair_queue q (neighbour i next) i); Some (code, x, <[(neighbour i next, i) := l]> q)
  | CRecvSized i next size c =>
      '(code, x, l) ← qstep (Get c) (pair_queue q (neighbour i next) i);
      Some (if decide (length x = size) then (SUCCESS, x) else (FAIL, []), <[(neighbour i next, i) := l]> q)
  end.

Fixpoint arun (ops : list cop) (q : gmap (Z * Z) (list str)) : option (list (retcode * str) * gmap (Z * Z) (list str)) :=
  match ops with
  | [] => Some ([], q)
  | op :: ops => '(c, data, q) ← astep op q; '(l, q) ← arun ops q; Some ((c, data) :: l, q)
  end.

(** ** Keys keep channels apart *)

Definition is_party (i : Z) : Prop := 0 <= i < 3.

(** Names that differ and of which none is another with an underscore and more. *)
Definition names_clear (g : ring) : Prop :=
  forall i j, is_party i -> is_party j -> i <> j -> rg_name g i <> rg_name g j /\ forall x, rg_name g i <> rg_name g j ++ chars "_" ++ x.

Definition ring_key (g : ring) (i j : Z) : str := channel_key (rg_request g) (rg_sub_task g) (rg_name g i) (rg_name g j).

Lemma split_name g i j i' j' k : names_clear g -> is_party i -> is_party i' ->
  rg_name g i = rg_name g i' ++ k -> chars "_" ++ rg_name g j' = k ++ chars "_" ++ rg_name g j -> i = i' /\ rg_name g j = rg_name g j'.
Proof.
  intros Hc Hi Hi' E1 E2. destruct k as [|c k].
  - rewrite app_nil_r in E1. destruct (decide (i = i')) as [->|Hne]; [|by destruct (Hc i i' Hi Hi' Hne)]. cbn in E2. injection E2 as E2. done.
  - cbn in E2. injection E2 as <- _. destruct (decide (i = i')) as [->|Hne].
    + apply (f_equal length) in E1. rewrite length_app in E1. cbn in E1. lia.
    + destruct (Hc i i' Hi Hi' Hne) as [_ H]. by destruct (H k).
Qed.

Lemma ring_key_inj g i j i' j' : names_clear g -> is_party i -> is_party j -> is_party i' -> is_party j' ->
  ring_key g i j = ring_key g i' j' -> i = i' /\ j = j'.
Proof.
  intros Hc Hi Hj Hi' Hj' E. unfold ring_key, channel_key in E. do 4 apply app_inv_head in E.
  assert (H : i = i' /\ rg_name g j = rg_name g j').
  { apply app_eq_inv in E as [(k & E1 & E2)|(k & E1 & E2)]; [by apply (split_name g i j i' j' k)|].
    destruct (split_name g i' j' i j k) as [-> ->]; done. }
  destruct H as [-> H]. split; [done|]. destruct (decide (j = j')) as [->|Hne]; [done|]. by destruct (Hc j j' Hj Hj' Hne).
Qed.

(** ** The channels of a ring *)

Lemma neighbour_party i next : is_party i -> is_party (neighbour i next) /\ neighbour i next <> i.
Proof.
  intros [H1 H2]. assert (Hi : i = 0 \/ i = 1 \/ i = 2) by lia.
  destruct Hi as [-> | [-> | ->]], next; (split; [split|]; vm_compute; congruence).
Qed.

Lemma ring_channel_ok g i next : names_clear g -> is_party i ->
  ring_channel g i next = Ret (MTC (ring_key g i (neighbour i next)) (ring_key g (neighbour i next) i) (rg_node g (neighbour i next)) (rg_node g i)).
Proof.
  intros Hc Hi. assert (Hnd : forall a b, is_party a -> is_party b -> a <> b -> rg_name g a <> rg_name g b) by (intros a b Ha Hb Hab; by destruct (Hc a b Ha Hb Hab)).
  assert (Hname : forall j, is_party j -> default [] (ap_names (ring_config g i) !! j) = rg_name g j).
  { intros j Hj. cbn. assert (E : j = 0 \/ j = 1 \/ j = 2) by (unfold is_party in Hj; lia). destruct E as [-> | [-> | ->]]; by simplify_map_eq. }
  assert (Hnode : forall j, is_party j -> PartyName2PartyInfo (ring_config g i) (rg_name g j) = rg_node g j).
  { intros j Hj. unfold PartyName2PartyInfo. cbn.
    assert (H01 := Hnd 0 1 ltac:(unfold is_party; lia) ltac:(unfold is_party; lia) ltac:(lia)).
    assert (H02 := Hnd 0 2 ltac:(unfold is_party; lia) ltac:(unfold is_party; lia) ltac:(lia)).
    assert (H12 := Hnd 1 2 ltac:(unfold is_party; lia) ltac:(unfold is_party; lia) ltac:(lia)).
    assert (E : j = 0 \/ j = 1 \/ j = 2) by (unfold is_party in Hj; lia). destruct E as [-> | [-> | ->]]; by simplify_map_eq. }
  destruct (neighbour_party i next Hi) as [Hn _]. unfold ring_channel, initPartyComm, NextPartyInfo, PrevPartyInfo, NextPartyName, PrevPartyName, NextPartyId, PrevPartyId, ABY3_TOTAL_PARTY_NUM.
  change (ap_id (ring_config g i)) with i. unfold ring_key, neighbour in *. destruct next; rewrite Hname, Hnode by done; done.
Qed.

(** Every ordered pair of parties has its queue at the receiver's node. *)
Definition ring_inv (polls : list (bool * Z)) (g : ring) (ws : Z -> wref) (q : gmap (Z * Z) (list str)) (W : world) : Prop :=
  forall i j, is_party i -> is_party j -> i <> j ->
    exists n, W !! rg_node g j = Some n /\ serving polls (rg_request g) (ring_key g i j) (ws j) (pair_queue q i j) n.

(** Replacing one node and one queue. *)
Lemma ring_inv_set polls g ws q W i j xs n n' : names_clear g -> ring_inv polls g ws q W -> is_party i -> is_party j -> i <> j -> W !! rg_node g j = Some n ->
  serving polls (rg_request g) (ring_key g i j) (ws j) xs n' ->
  (forall key' w' q', ring_key g i j <> key' -> serving polls (rg_request g) key' w' q' n -> serving polls (rg_request g) key' w' q' n') ->
  ring_inv polls g ws (<[(i, j) := xs]> q) (<[rg_node g j := n']> W).
Proof.
  intros Hc H Hi Hj Hij Hn Hs Hf i' j' Hi' Hj' Hij'. destruct (H i' j' Hi' Hj' Hij') as (n0 & E0 & S0). unfold pair_queue in *.
  destruct (decide ((i, j) = (i', j'))) as [[= <- <-]|Hne].
  - exists n'. rewrite !lookup_insert_eq. done.
  - rewrite (lookup_insert_ne q) by done. destruct (decide (rg_node g j = rg_node g j')) as [En|En].
    + exists n'. rewrite En, lookup_insert_eq. split; [done|]. apply Hf; [|congruence]. intros Ek. apply ring_key_inj in Ek as [-> ->]; done.
    + exists n0. by rewrite lookup_insert_ne.
Qed.

Definition op_party (op : cop) : Z := match op with CSend i _ _ _ | CRecv i _ _ | CRecvSized i _ _ _ => i end.

(** A party of the ring, and outcomes enough for the calls of a send. *)
Definition op_ok (op : cop) : Prop := is_party (op_party op) /\ match op with CSend _ _ _ calls => enough_calls retry_max_times_ calls | _ => True end.

Section Ring.
Context (polls : list (bool * Z)) (g : ring) (ws : Z -> wref) (Hc : names_clear g).

(** What a fetch finds. *)
Lemma ring_fetch q W i next c : ring_inv polls g ws q W -> is_party i ->
  let ch := MTC (ring_key g i (neighbour i next)) (ring_key g (neighbour i next) i) (rg_node g (neighbour i next)) (rg_node g i) in
  match qstep (Get c) (pair_queue q (neighbour i next) i) with
  | None => fetch polls (rg_request g) ch c W = Ret None
  | Some (code, x, xs) => code = SUCCESS /\ exists W', fetch polls (rg_request g) ch c W = Ret (Some (x, W')) /\
      ring_inv polls g ws (<[(neighbour i next, i) := xs]> q) W'
  end.
Proof using Hc.
  intros H Hi ch. destruct (neighbour_party i next Hi) as [Hn Hne]. destruct (H (neighbour i next) i Hn Hi Hne) as (n & En & Hs).
  unfold fetch. subst ch. cbn [recv_channel_ recv_key_ qstep]. rewrite En. case_decide as Hl.
  - subst c. split; [done|]. cbn [forwardRecv mbind res_bind option_bind]. eexists. split; [reflexivity|].
    by apply (ring_inv_set polls g ws q W _ _ _ n n); try done.
  - destruct (pair_queue q (neighbour i next) i) as [|x xs].
    + by rewrite (forward_waits _ _ _ _ _ _ Hs).
    + destruct (forward_serving _ _ _ c _ _ _ _ Hs Hl) as (n' & E & Hs' & Hf). rewrite E. cbn [mbind res_bind option_bind]. split; [done|].
      eexists. split; [reflexivity|]. by apply (ring_inv_set polls g ws q W _ _ xs n n').
Qed.

Lemma ring_step op q W : ring_inv polls g ws q W -> op_ok op ->
  match astep op q with
  | None => cstep polls g op W = Ret None
  | Some (c, data, q') => exists W', cstep polls g op W = Ret (Some (c, data, W')) /\ ring_inv polls g ws q' W'
  end.
Proof using Hc.
  intros H [Hi Hcalls]. destruct op as [i next data calls|i next c|i next size c]; cbn [op_party astep cstep] in *; rewrite ring_channel_ok by done; cbn [mbind res_bind].
  - destruct (neighbour_party i next Hi) as [Hn Hne]. destruct (H i (neighbour i next) Hi Hn (not_eq_sym Hne)) as (n & En & Hs).
    unfold SendImpl. cbn [send_channel_ send_key_]. rewrite En. destruct (send_serving _ _ _ _ _ _ data calls Hs Hcalls) as (n' & E & Hs' & Hf). rewrite E.
    cbn [mbind res_bind option_bind qstep]. replace (if decide (send_code calls <> SUCCESS) then FAIL else SUCCESS) with (send_code calls) by (unfold send_code; by repeat case_decide).
    eexists. split; [reflexivity|]. by apply (ring_inv_set polls g ws q W i (neighbour i next) _ n n').
  - assert (Hf := ring_fetch q W i next c H Hi). cbn zeta in Hf. unfold RecvImpl. destruct (qstep (Get c) _) as [[[code x] xs]|]; cbn [mbind option_bind].
    + destruct Hf as (-> & W' & -> & HW). by exists W'.
    + by rewrite Hf.
  - assert (Hf := ring_fetch q W i next c H Hi). cbn zeta in Hf. unfold RecvImpl_sized. destruct (qstep (Get c) _) as [[[code x] xs]|]; cbn [mbind option_bind].
    + destruct Hf as (-> & W' & -> & HW). cbn [mbind res_bind option_bind]. destruct (decide (length x = size)); by exists W'.
    + by rewrite Hf.
Qed.

(** C14: the channels of three parties are queues of their own.  Let the names of the
    parties be clear: they differ, and none is another one followed by an underscore
    and more (without this two pairs of parties can share a key, [keys_collide]); and
    let every party's node serve the task.  Then, whatever sends and receives the
    parties make on the channels [initPartyComm] gave them, in any order, also when
    parties share a node and whatever becomes of the remote calls, every operation
    ends as on separate first-in first-out queues, one for each ordered pair of
    parties: a message goes to the queue of its pair only, once for every call that
    was processed (its first packages for a call that broke off), a receive takes from the queue of its pair, and it waits exactly
    when that queue is empty. *)
Theorem channels_refine_queues ops q W : ring_inv polls g ws q W -> Forall op_ok ops ->
  match arun ops q with
  | None => crun polls g ops W = Ret None
  | Some (l, q') => exists W', crun polls g ops W = Ret (Some (l, W')) /\ ring_inv polls g ws q' W'
  end.
Proof using Hc.
  intros H Ho. revert q W H. induction Ho as [|op ops Hop Ho IH]; intros q W H; cbn [arun crun]; [by exists W|].
  assert (Hs := ring_step op q W H Hop). destruct (astep op q) as [[[c data] q1]|]; cbn [mbind option_bind].
  - destruct Hs as (W1 & -> & H1). cbn [mbind res_bind]. assert (Hr := IH q1 W1 H1). destruct (arun ops q1) as [[l q2]|]; cbn [mbind option_bind].
    + destruct Hr as (W2 & -> & H2). by exists W2.
    + by rewrite Hr.
  - by rewrite Hs.
Qed.
End Ring.

(** Three parties, two of them at one node. *)
Definition sample_ring : ring :=
  Ring (fun i => if decide (i = 0) then chars "PARTY0" else if decide (i = 1) then chars "PARTY1" else chars "PARTY2")
    (fun i => if decide (i = 2) then Nd (chars "n2") (chars "10.0.0.2") 50052 false (chars "r2") else default_node) (chars "r") (chars "0").

Definition sample_world : world := {[rg_node sample_ring 0 := sample_data_node; rg_node sample_ring 2 := sample_data_node]}.

Lemma sample_ring_clear : names_clear sample_ring.
Proof.
  intros i j [Hi1 Hi2] [Hj1 Hj2] Hij. assert (Ei : i = 0 \/ i = 1 \/ i = 2) by lia. assert (Ej : j = 0 \/ j = 1 \/ j = 2) by lia.
  destruct Ei as [-> | [-> | ->]], Ej as [-> | [-> | ->]]; try done; (split; [done|]; intros x; vm_compute; congruence).
Qed.

Lemma sample_ring_inv : ring_inv [(true, 0)] sample_ring (fun _ => 0%nat) ∅ sample_world.
Proof.
  intros i j [Hi1 Hi2] [Hj1 Hj2] Hij. assert (Ej : j = 0 \/ j = 1 \/ j = 2) by lia. exists sample_data_node. split.
  - unfold sample_world. destruct Ej as [-> | [-> | ->]]; [apply lookup_insert_eq..|]. rewrite lookup_insert_ne by done. apply lookup_singleton_eq.
  - unfold pair_queue. rewrite lookup_empty. split; [reflexivity|reflexivity|by exists []|eexists; split; reflexivity].
Qed.

(** The first send's answer is lost once, the second receive loses a message. *)
Definition sample_cops : list cop :=
  [CSend 0 true (chars "a") [rpc_late; rpc_ok]; CSend 2 false (chars "bb") [rpc_ok]; CSend 0 true (chars "c") [rpc_ok];
   CRecv 1 false rpc_ok; CRecvSized 1 true 1 rpc_ok; CRecv 1 false rpc_late; CRecv 1 false rpc_ok].

Lemma channels_refine_queues_witness :
  exists W', crun [(true, 0)] sample_ring sample_cops sample_world =
    Ret (Some ([(SUCCESS, []); (SUCCESS, []); (SUCCESS, []); (SUCCESS, chars "a"); (FAIL, []); (SUCCESS, []); (SUCCESS, chars "c")], W')).
Proof.
  destruct (channels_refine_queues [(true, 0)] sample_ring (fun _ => 0%nat) sample_ring_clear sample_cops ∅ sample_world sample_ring_inv) as (W' & E & _).
  - repeat (constructor; [split; [unfold is_party; cbn; lia|first [exact I|right; cbn; set_solver]]|]). constructor.
  - exists W'. exact E.
Defined.

(** Names that are not clear: messages of two pairs get one key. *)
Lemma keys_collide : channel_key (chars "r") (chars "0") (chars "A") (chars "B_A") = channel_key (chars "r") (chars "0") (chars "A_B") (chars "A").
Proof. reflexivity. Qed.

(** ** The channel in memory *)

(** [SimpleMemoryChannel]: its keys in the common storage. *)
Record SimpleMemoryChannel : Type := SMC { mc_send_key : str; mc_recv_key : str }.

Definition mem_key (request_id a b : str) : str := request_id ++ chars "_" ++ a ++ chars "_" ++ b.

(** The storage; queues here are never shut down. *)
Abbreviation StorageType := (gmap str (list str)).

(** The constructor: it throws without a storage and makes both queues. *)
Definition new_SimpleMemoryChannel (request_id local peer : str) (storage : option StorageType) : res (SimpleMemoryChannel * StorageType) :=
  match storage with
  | None => Throw
  | Some m =>
      let sk := mem_key request_id local peer in let rk := mem_key request_id peer local in
      let m := <[sk := default [] (m !! sk)]> m in
      Ret (SMC sk rk, <[rk := default [] (m !! rk)]> m)
  end.

Definition mem_SendImpl (ch : SimpleMemoryChannel) (data : str) (m : StorageType) : retcode * StorageType :=
  (SUCCESS, <[mc_send_key ch := default [] (m !! mc_send_key ch) ++ [data]]> m).

(** Nothing while it waits. *)
Definition mem_RecvImpl (ch : SimpleMemoryChannel) (m : StorageType) : option (retcode * str * StorageType) :=
  match default [] (m !! mc_recv_key ch) with
  | [] => None
  | x :: xs => Some (SUCCESS, x, <[mc_recv_key ch := xs]> m)
  end.

Definition mem_RecvImpl_sized (ch : SimpleMemoryChannel) (size : nat) (m : StorageType) : option (retcode * str * StorageType) :=
  match default [] (m !! mc_recv_key ch) with
  | [] => None
  | x :: xs => Some (if decide (length x = size) then (SUCCESS, x) else (FAIL, []), <[mc_recv_key ch := xs]> m)
  end.

Definition mem_channel (g : ring) (i : Z) (next : bool) : SimpleMemoryChannel :=
  SMC (mem_key (rg_request g) (rg_name g i) (rg_name g (neighbour i next))) (mem_key (rg_request g) (rg_name g (neighbour i next)) (rg_name g i)).

Definition mstep (g : ring) (op : cop) (m : StorageType) : option (retcode * str * StorageType) :=
  match op with
  | CSend i next data _ => let '(c, m) := mem_SendImpl (mem_channel g i next) data m in Some (c, [], m)
  | CRecv i next _ => mem_RecvImpl (mem_channel g i next) m
  | CRecvSized i next size _ => mem_RecvImpl_sized (mem_channel g i next) size m
  end.

Fixpoint mrun (g : ring) (ops : list cop) (m : StorageType) : option (list (retcode * str) * StorageType) :=
  match ops with
  | [] => Some ([], m)
  | op :: ops => '(c, data, m) ← mstep g op m; '(l, m) ← mrun g ops m; Some ((c, data) :: l, m)
  end.

Definition storage_inv (g : ring) (q : gmap (Z * Z) (list str)) (m : StorageType) : Prop :=
  forall i j, is_party i -> is_party j -> i <> j -> default [] (m !! mem_key (rg_request g) (rg_name g i) (rg_name g j)) = pair_queue q i j.

Lemma mem_key_inj g i j i' j' : names_clear g -> is_party i -> is_party j -> is_party i' -> is_party j' ->
  mem_key (rg_request g) (rg_name g i) (rg_name g j) = mem_key (rg_request g) (rg_name g i') (rg_name g j') -> i = i' /\ j = j'.
Proof.
  intros Hc Hi Hj Hi' Hj' E. apply (ring_key_inj g i j i' j' Hc Hi Hj Hi' Hj'). unfold ring_key, channel_key. unfold mem_key in E.
  do 2 apply app_inv_head in E. by rewrite E.
Qed.

Lemma storage_inv_set g q m i j xs : names_clear g -> storage_inv g q m -> is_party i -> is_party j -> i <> j ->
  storage_inv g (<[(i, j) := xs]> q) (<[mem_key (rg_request g) (rg_name g i) (rg_name g j) := xs]> m).
Proof.
  intros Hc H Hi Hj Hij i' j' Hi' Hj' Hij'. unfold pair_queue. destruct (decide ((i, j) = (i', j'))) as [[= <- <-]|Hne]; [by rewrite !lookup_insert_eq|].
  rewrite (lookup_insert_ne q) by done. rewrite lookup_insert_ne; [by apply H|]. intros E. apply mem_key_inj in E as [-> ->]; done.
Qed.

(** No call fails in memory. *)
Definition op_answered (op : cop) : Prop := match op with CSend _ _ data calls => answered (Put data calls) | CRecv _ _ c | CRecvSized _ _ _ c => c = rpc_ok end.

(** The channels in memory are such queues too. *)
Lemma memory_channels_refine g ops q m : names_clear g -> storage_inv g q m -> Forall (fun op => is_party (op_party op) /\ op_answered op) ops ->
  match arun ops q with
  | None => mrun g ops m = None
  | Some (l, q') => exists m', mrun g ops m = Some (l, m') /\ storage_inv g q' m'
  end.
Proof.
  intros Hc H Ho. revert q m H. induction Ho as [|op ops Hop Ho IH]; intros q m H; cbn [arun mrun]; [by exists m|].
  assert (Hs : match astep op q with None => mstep g op m = None | Some (c, data, q') => exists m', mstep g op m = Some (c, data, m') /\ storage_inv g q' m' end).
  { destruct Hop as [Hop Hans]. destruct op as [i next data calls|i next c|i next size c]; cbn [op_party op_answered astep mstep qstep] in *; destruct (neighbour_party i next Hop) as [Hn Hne].
    - destruct (answered_arrivals calls data Hans) as (_ & -> & ->). cbn [mbind option_bind]. eexists. split; [reflexivity|]. cbn [mc_send_key mem_channel].
      rewrite (H i (neighbour i next)) by done. by apply storage_inv_set.
    - subst c. rewrite decide_False by done. unfold mem_RecvImpl. cbn [mc_recv_key mem_channel]. rewrite (H (neighbour i next) i) by done.
      destruct (pair_queue q (neighbour i next) i) as [|x xs]; [done|]. rewrite decide_True by done. cbn [mbind option_bind]. eexists. split; [reflexivity|]. by apply storage_inv_set.
    - subst c. rewrite decide_False by done. unfold mem_RecvImpl_sized. cbn [mc_recv_key mem_channel]. rewrite (H (neighbour i next) i) by done.
      destruct (pair_queue q (neighbour i next) i) as [|x xs]; [done|]. rewrite decide_True by done. cbn [mbind option_bind].
      destruct (decide (length x = size)); (eexists; split; [reflexivity|]; by apply storage_inv_set). }
  destruct (astep op q) as [[[c data] q1]|]; cbn [mbind option_bind].
  - destruct Hs as (m1 & -> & H1). cbn [mbind option_bind]. assert (Hr := IH q1 m1 H1). destruct (arun ops q1) as [[l q2]|]; cbn [mbind option_bind].
    + destruct Hr as (m2 & -> & H2). by exists m2.
    + by rewrite Hr.
  - by rewrite Hs.
Qed.

(** ** The socket adapter *)

(** Error codes of [boost::system::errc] the adapter reports. *)
Inductive errc : Type := no_error | operation_canceled | broken_pipe | interrupted | message_size.

(** [_channelSend]: what the channel says to each buffer and whether the task was
    cancelled before it; code, bytes sent, messages sent, and whether the count of
    running sends is taken back. *)
Fixpoint channel_send (buffers : list str) (rets : list (bool * retcode)) (bytes : nat) (sent : list str) (last_cancel : bool) : errc * nat * list str * bool :=
  match buffers, rets with
  | b :: buffers, (false, SUCCESS) :: rets => channel_send buffers rets (bytes + length b) (sent ++ [b]) last_cancel
  | b :: buffers, (false, FAIL) :: rets => (if last_cancel then operation_canceled else broken_pipe, bytes, sent, false)
  | b :: buffers, (true, _) :: rets => (operation_canceled, bytes, sent, false)
  | _, _ => if last_cancel then (operation_canceled, bytes, sent, false) else (no_error, bytes, sent, true)
  end.

(** [_channelRecv]: the sizes of the buffers, whether the task was cancelled before
    each, and the messages that come; code, bytes and the buffers filled. *)
Fixpoint channel_recv (sizes : list nat) (cancels : list bool) (msgs : list str) (bytes : nat) (got : list str) : option (errc * nat * list str * list str) :=
  match sizes with
  | [] => Some (no_error, bytes, got, msgs)
  | size :: sizes =>
      if default false (head cancels) then Some (operation_canceled, bytes, got, msgs)
      else
        match msgs with
        | [] => None
        | x :: msgs =>
            if decide (length x = 0%nat) then Some (interrupted, bytes, got, msgs)
            else if decide (length x = size) then channel_recv sizes (tail cancels) msgs (bytes + size) (got ++ [x])
            else Some (message_size, bytes, got, msgs)
        end
  end.

Lemma channel_send_all buffers rets bytes sent : length rets = length buffers -> Forall (fun r => r = (false, SUCCESS)) rets ->
  channel_send buffers rets bytes sent false = (no_error, bytes + length (concat buffers), sent ++ buffers, true)%nat.
Proof.
  intros Hl Hr. revert rets Hl Hr bytes sent. induction buffers as [|b buffers IH]; intros [|r rets] Hl Hr bytes sent; try done; cbn [channel_send].
  - by rewrite app_nil_r, Nat.add_0_r.
  - apply Forall_cons in Hr as [-> Hr]. rewrite IH by (cbn in Hl; (lia || done)). cbn [concat]. rewrite length_app, <- app_assoc, Nat.add_assoc. done.
Qed.

(** Buffers that are not empty arrive in buffers of the same sizes. *)
Lemma channel_recv_all buffers rest bytes got : Forall (fun b => b <> []) buffers ->
  channel_recv (length <$> buffers) [] (buffers ++ rest) bytes got = Some (no_error, bytes + length (concat buffers), got ++ buffers, rest)%nat.
Proof.
  intros H. revert bytes got. induction H as [|b buffers Hb H IH]; intros bytes got; cbn [channel_recv fmap list_fmap app].
  - by rewrite app_nil_r, Nat.add_0_r.
  - rewrite decide_False by (by destruct b). rewrite decide_True by done. cbn [head default from_option tail]. fold (length <$> buffers). rewrite IH. cbn [concat].
    rewrite length_app, <- app_assoc, Nat.add_assoc. done.
Qed.

(** An empty buffer is sent and taken for a shut down queue by the receiver. *)
Lemma empty_buffer_interrupts : (channel_send [[]] [(false, SUCCESS)] 0 [] false).1.1.1 = no_error /\ channel_recv [0%nat] [] [[]] 0 [] = Some (interrupted, 0%nat, [], []).
Proof. done. Qed.

(** Receives that start side by side: the entry of [_channelRecv] waits in line only
    when somebody is in line already. *)
Definition recv_enter (t : nat) (recv_wait_queue_ : list nat) : bool * list nat :=
  match recv_wait_queue_ with [] => (true, []) | q => (false, q ++ [t]) end.

Definition recv_leave (recv_wait_queue_ : list nat) : list nat := tail recv_wait_queue_.

Inductive recv_op : Type := Enter (t : nat) | Leave.

Fixpoint recv_line (ops : list recv_op) (q : list nat) : list (nat * bool) * list nat :=
  match ops with
  | [] => ([], q)
  | Enter t :: ops => let '(b, q) := recv_enter t q in let '(l, q) := recv_line ops q in ((t, b) :: l, q)
  | Leave :: ops => recv_line ops (recv_leave q)
  end.

(** Nobody ever gets in line: every receive goes on at once, in whatever order the
    threads come to it. *)
Lemma nobody_waits ops : (recv_line ops []).2 = [] /\ Forall (fun p => p.2 = true) (recv_line ops []).1.
Proof.
  induction ops as [|[t|] ops [IH1 IH2]]; cbn [recv_line recv_enter recv_leave tail]; [by split|split|by split].
  - by destruct (recv_line ops []).
  - destruct (recv_line ops []). by constructor.
Qed.

(** The constructor makes these channels and changes no queue. *)
Lemma new_memory_channel g i next m : exists m', new_SimpleMemoryChannel (rg_request g) (rg_name g i) (rg_name g (neighbour i next)) (Some m) = Ret (mem_channel g i next, m') /\
  forall k, default [] (m' !! k) = default [] (m !! k).
Proof.
  eexists. split; [reflexivity|]. intros k.
  assert (H : forall (n : StorageType) key, default [] (<[key := default [] (n !! key)]> n !! k) = default [] (n !! k)).
  { intros n key. destruct (decide (key = k)) as [->|Hne]; [by rewrite lookup_insert_eq|by rewrite lookup_insert_ne]. }
  rewrite !H. done.
Qed.
