(* ===== verification/Exchange.v ===== *)
(** * Requests with answers, and completed sends

    Models the send and completion queues of a task: [ProcessSendData] and
    [ProcessCompleteStatus] of [node/node_impl.cc], the [Recv], [SendRecv], [ForwardRecv] and
    [CompleteStatus] calls of [node/node_interface.cc], their callers in
    [util/network/grpc_link_context.cc], the receiving side of
    [util/network/link_context.cc] and [task/semantic/task.cc].  What a thread does to
    the queues of an open link is a program of posts and fetches ([PsiNet]); whether the
    node has an unfinished, ready worker with a link for the request ([Grpc.locate]) is
    the argument [located] of the node's functions. *)

From Stdlib Require Import Ascii String ZArith Lia.
From stdpp Require Import base tactics list option strings countable gmap.
From S2P Require Import Prelude ModArith Machine StrUtil Common PsiNet Worker NodeImpl Grpc.

Local Open Scope Z_scope.

(** The queues of a link. *)
Inductive qloc : Type := QIn (key : str) | QOut (key : str) | QComplete (key : str).
#[export] Instance qloc_eq_dec : EqDecision qloc.
Proof. solve_decision. Defined.
#[export] Instance qloc_countable : Countable qloc.
Proof.
  refine (inj_countable' (fun q => match q with QIn k => inl (inl k) | QOut k => inl (inr k) | QComplete k => inr k end)
    (fun x => match x with inl (inl k) => QIn k | inl (inr k) => QOut k | inr k => QComplete k end) _). by intros [].
Qed.

Abbreviation queued := (act_at qloc).

Definition push_to (q : qloc) (x : str) : queued retcode := Post q x (fun c => Done (Ret c)).
Definition pop_from (q : qloc) : queued str := Fetch q (fun x => Done (Ret x)).

(** The entry of a completion queue; its value is never looked at. *)
Definition completion : str := [].

(** ** The node *)

(** [ProcessReceivedData]. *)
Definition ReceivedData (located : bool) (key data : str) : queued retcode :=
  if located then _ ← push_to (QIn key) data; Done (Ret SUCCESS) else Done (Ret FAIL).

(** [ProcessSendData]. *)
Definition ProcessSendData (located : bool) (key : str) : queued (retcode * str) :=
  if located then
    data ← pop_from (QOut key);
    _ ← push_to (QComplete key) completion;
    Done (Ret (SUCCESS, data))
  else Done (Ret (FAIL, [])).

(** [ProcessForwardData]. *)
Definition ForwardData (located : bool) (key : str) : queued (retcode * str) :=
  if located then
    data ← pop_from (QIn key);
    _ ← push_to (QComplete key) completion;
    Done (Ret (SUCCESS, data))
  else Done (Ret (FAIL, [])).

(** [ProcessCompleteStatus]. *)
Fixpoint complete_loop (key : str) (missing : nat) : queued retcode :=
  match missing with
  | O => Done (Ret SUCCESS)
  | S n => _ ← pop_from (QComplete key); complete_loop key n
  end.
Definition ProcessCompleteStatus (located : bool) (key : str) (expected_complete_num : nat) : queued retcode :=
  if located then complete_loop key expected_complete_num else Done (Ret FAIL).

(** [rpc::TaskResponse]. *)
Record TaskResponse : Type := TRes { rs_code : retcode; rs_data_len : Z; rs_data : str }.

(** [BuildTaskResponse]. *)
Definition BuildTaskResponse (size : Z) (data : str) : list TaskResponse :=
  TRes SUCCESS (Z.of_nat (length data)) <$> split_packages (S (length data)) (Z.to_nat size) data.

(** [VMNodeInterface::Recv]. *)
Definition ServerRecv (located : bool) (size : Z) (key : str) : queued (list TaskResponse) :=
  '(ret, data) ← ProcessSendData located key;
  Done (Ret (if decide (ret <> SUCCESS) then [TRes FAIL 0 []] else BuildTaskResponse size data)).

(** [VMNodeInterface::SendRecv]: the worker is looked for twice. *)
Definition ServerSendRecv (located located' : bool) (size : Z) (reqs : list TaskRequest) : queued (list TaskResponse) :=
  let '(_, key, data) := receive_stream reqs in
  ret ← ReceivedData located key data;
  if decide (ret <> SUCCESS) then Done (Ret [TRes FAIL 0 []])
  else ServerRecv located' size key.

(** [VMNodeInterface::ForwardRecv] and what [GrpcChannel::forwardRecv] makes of it. *)
Definition ForwardRecv (located : bool) (size : Z) (id key : str) : queued str :=
  '(ret, data) ← ForwardData located key;
  Done (Ret (concat (tr_data <$> (if decide (ret <> SUCCESS) then [TR [] [] 0 []] else buildTaskRequest size id key data)))).

(** ** The callers *)

(** [GrpcChannel::sendRecv]: the data of all responses, whatever their codes. *)
Definition sendRecv (located located' : bool) (size : Z) (id key data : str) : queued (retcode * str) :=
  rs ← ServerSendRecv located located' size (buildTaskRequest size id key data);
  Done (Ret (SUCCESS, concat (rs_data <$> rs))).

(** [GrpcChannel::send] when it is answered at once. *)
Definition chan_send (located : bool) (size : Z) (id key data : str) : queued retcode :=
  let '(_, key, data) := receive_stream (buildTaskRequest size id key data) in
  _ ← ReceivedData located key data; Done (Ret SUCCESS).

(** [GrpcChannel::CheckSendCompleteStatus] through [CompleteStatus], which answers OK
    whatever [ProcessCompleteStatus] returns. *)
Definition CheckSendCompleteStatus (located : bool) (key : str) (n : nat) : queued retcode := _ ← ProcessCompleteStatus located key n; Done (Ret SUCCESS).

(** ** The task *)

(** [LinkContext::SendRecv] of the receiver. *)
Definition link_SendRecv (key send_buf : str) : queued (retcode * str) :=
  recv ← pop_from (QIn key);
  _ ← push_to (QOut key) send_buf;
  _ ← pop_from (QComplete key);
  Done (Ret (SUCCESS, recv)).

(** [TaskBase::pushDataToSendQueue]. *)
Definition pushDataToSendQueue (key send_data : str) : queued retcode :=
  if decide (send_data = []) then Done (Ret FAIL)
  else
    _ ← push_to (QOut key) send_data;
    _ ← pop_from (QComplete key);
    Done (Ret SUCCESS).

(** [TaskBase::recv] into a buffer of a given length. *)
Definition task_recv_sized (key : str) (length_ : nat) : queued (retcode * str) :=
  data ← pop_from (QIn key);
  Done (Ret (if decide (length data = length_) then (SUCCESS, data) else (FAIL, []))).

(** ** Exchanges, one after the other *)

Fixpoint requests (size : Z) (id key : str) (ms : list str) : queued (list str) :=
  match ms with
  | [] => Done (Ret [])
  | d :: ms => '(_, r) ← sendRecv true true size id key d; rs ← requests size id key ms; Done (Ret (r :: rs))
  end.

Fixpoint answers (key : str) (rs : list str) : queued (list str) :=
  match rs with
  | [] => Done (Ret [])
  | r :: rs => '(_, d) ← link_SendRecv key r; ms ← answers key rs; Done (Ret (d :: ms))
  end.

(** The three queues of a key are empty. *)
Definition idle (key : str) (m : mail_at qloc) : Prop := mailbox m (QIn key) = [] /\ mailbox m (QOut key) = [] /\ mailbox m (QComplete key) = [].

Lemma response_data size data : 0 < size -> concat (rs_data <$> BuildTaskResponse size data) = data.
Proof.
  intros Hs. unfold BuildTaskResponse. rewrite <- list_fmap_compose. rewrite (list_fmap_ext _ (fun x => x)); [|done].
  rewrite list_fmap_id. apply split_packages_concat; lia.
Qed.

Ltac queue_facts := rewrite ?mailbox_eq; repeat (rewrite mailbox_ne by done; rewrite ?mailbox_eq).

(** One exchange. *)
Lemma exchange_run size id key d r m : 0 < size -> idle key m ->
  exists m', run 6 (Sys (sendRecv true true size id key d) (link_SendRecv key r) m) (Sys (Done (Ret (SUCCESS, r))) (Done (Ret (SUCCESS, d))) m') /\ idle key m'.
Proof.
  intros Hs (H1 & H2 & H3). unfold sendRecv, ServerSendRecv. rewrite receive_packages by done. unfold ReceivedData, ServerRecv, ProcessSendData, link_SendRecv, push_to, pop_from. act_go.
  eexists. split.
  - eapply run_post0. act_go. eapply run_fetch1; [queue_facts; rewrite H1; reflexivity|]. act_go. eapply run_post1. act_go.
    eapply run_fetch0; [queue_facts; rewrite H2; reflexivity|]. act_go. eapply run_post0. act_go.
    eapply run_fetch1; [queue_facts; rewrite H3; reflexivity|]. act_go. rewrite response_data by done. constructor.
  - unfold idle. split_and!; queue_facts; done.
Qed.

Lemma exchanges_run size id key ms rs m : 0 < size -> length ms = length rs -> idle key m ->
  exists m', run (6 * length ms) (Sys (requests size id key ms) (answers key rs) m) (Sys (Done (Ret rs)) (Done (Ret ms)) m') /\ idle key m'.
Proof.
  intros Hs. revert rs m. induction ms as [|d ms IH]; intros [|r rs] m Hl Hi; try done; [exists m; split; [constructor|done]|].
  destruct (exchange_run size id key d r m Hs Hi) as (m1 & R1 & Hi1). destruct (IH rs m1 ltac:(cbn in Hl; lia) Hi1) as (m2 & R2 & Hi2).
  exists m2. split; [|done]. cbn [requests answers length]. replace (6 * S (length ms))%nat with (6 + 6 * length ms)%nat by lia. eapply run_app.
  - apply (run_bind 6 _ _ (fun '(_, x) => xs ← requests size id key ms; Done (Ret (x :: xs))) (fun '(_, y) => ys ← answers key rs; Done (Ret (y :: ys))) _ _ _ _ R1).
  - eapply (run_bind _ _ _ (fun xs => Done (Ret (r :: xs))) (fun ys => Done (Ret (d :: ys))) _ _ _ _ R2).
Qed.

Definition client_reads (key : str) (q : qloc) : Prop := q = QOut key.
Definition task_reads (key : str) (q : qloc) : Prop := q = QIn key \/ q = QComplete key.

Lemma push_disciplined (to from : qloc -> Prop) q x : to q -> disciplined to from (push_to q x).
Proof. by split. Qed.

Lemma pop_disciplined (to from : qloc -> Prop) q : from q -> disciplined to from (pop_from q).
Proof. by split. Qed.

Ltac queue_disciplined :=
  repeat first
    [ exact I
    | apply push_disciplined; first [by left | by right | done]
    | apply pop_disciplined; first [by left | by right | done]
    | apply disciplined_bind
    | progress intros
    | match goal with |- disciplined _ _ (if ?b then _ else _) => destruct b end
    | match goal with |- disciplined _ _ (match ?x with _ => _ end) => destruct x end ].

Lemma requests_disciplined size id key ms : 0 < size -> disciplined (task_reads key) (client_reads key) (requests size id key ms).
Proof.
  intros Hs. induction ms as [|d ms IH]; cbn [requests]; [exact I|]. unfold sendRecv, ServerSendRecv. rewrite receive_packages by done.
  unfold ReceivedData, ServerRecv, ProcessSendData. queue_disciplined. exact IH.
Qed.

Lemma answers_disciplined key rs : disciplined (client_reads key) (task_reads key) (answers key rs).
Proof. induction rs as [|r rs IH]; cbn [answers]; [exact I|]. unfold link_SendRecv. queue_disciplined. exact IH. Qed.

(** requests with answers keep step.  A client that sends requests one after the
    other and a task that answers as many, through the three queues of one key, come
    to an end under every schedule: the client has the answers and the task the
    requests, each in order and put together from its packages, and no queue keeps
    anything. *)
Theorem exchanges_in_step size id key ms rs : 0 < size -> length ms = length rs ->
  exists m', inevitable (6 * length ms) (Sys (requests size id key ms) (answers key rs) ∅) (Sys (Done (Ret rs)) (Done (Ret ms)) m') /\ idle key m'.
Proof.
  intros Hs Hl. destruct (exchanges_run size id key ms rs ∅ Hs Hl) as (m' & R & Hi); [by repeat split; rewrite mailbox_empty|].
  exists m'. split; [|done]. apply (one_run_decides (client_reads key) (task_reads key)); [|exact R|apply stuck_done].
  split; [intros q -> [[=]|[=]]|]. split; [by apply requests_disciplined|apply answers_disciplined].
Qed.

Lemma exchanges_in_step_witness :
  exists m', inevitable 12 (Sys (requests 2 (chars "r") (chars "k") [chars "abc"; chars "d"]) (answers (chars "k") [chars "x"; chars "yz"]) ∅)
    (Sys (Done (Ret [chars "x"; chars "yz"])) (Done (Ret [chars "abc"; chars "d"])) m').
Proof.
  destruct (exchanges_in_step 2 (chars "r") (chars "k") [chars "abc"; chars "d"] [chars "x"; chars "yz"]) as (m' & H & _); [lia|done|]. exists m'. exact H.
Defined.

(** ** Two clients on one key *)

(** Two clients at once: the answer to the first request may go to the second
    client. *)
Lemma answer_goes_astray size id key d1 d2 r1 : 0 < size ->
  exists m1 m2 m3 k,
    act_step ∅ (sendRecv true true size id key d1) = Some (m1, ServerRecv true size key ≫= fun rs => Done (Ret (SUCCESS, concat (rs_data <$> rs)))) /\
    act_step m1 (sendRecv true true size id key d2) = Some (m2, ServerRecv true size key ≫= fun rs => Done (Ret (SUCCESS, concat (rs_data <$> rs)))) /\
    run 2 (Sys (link_SendRecv key r1) (Done Undef) m2) (Sys k (Done Undef) m3) /\ mailbox m3 (QIn key) = [d2] /\ mailbox m3 (QOut key) = [r1].
Proof.
  intros Hs. unfold sendRecv, ServerSendRecv. rewrite !receive_packages by done. unfold ReceivedData, ServerRecv, ProcessSendData, link_SendRecv, push_to, pop_from. act_go.
  eexists _, _, _, _. split_and!; [reflexivity..| | |].
  - eapply run_fetch0; [queue_facts; rewrite mailbox_empty; reflexivity|]. act_go. eapply run_post0. act_go. constructor.
  - queue_facts. done.
  - queue_facts. by rewrite mailbox_empty.
Qed.

(** ** Completed sends *)

Fixpoint post_all (size : Z) (id key : str) (ms : list str) : queued retcode :=
  match ms with
  | [] => Done (Ret SUCCESS)
  | d :: ms => _ ← chan_send true size id key d; post_all size id key ms
  end.

(** The receiver; [got] is what it has. *)
Fixpoint fetch_each (size : Z) (id key : str) (n : nat) (got : list str) : queued (list str) :=
  match n with
  | O => Done (Ret got)
  | S n => d ← ForwardRecv true size id key; fetch_each size id key n (got ++ [d])
  end.

(** The sender: all messages, then the check. *)
Definition checked_send (size : Z) (id key : str) (ms : list str) : queued (list str) :=
  _ ← post_all size id key ms; _ ← CheckSendCompleteStatus true key (length ms); Done (Ret []).

Lemma post_all_run size id key ms (q : queued (list str)) (f : retcode -> queued (list str)) m : 0 < size ->
  exists m', run (length ms) (Sys (post_all size id key ms ≫= f) q m) (Sys (f SUCCESS) q m') /\
    mailbox m' (QIn key) = mailbox m (QIn key) ++ ms /\ (forall l, l <> QIn key -> mailbox m' l = mailbox m l).
Proof.
  intros Hs. revert m. induction ms as [|d ms IH]; intros m.
  - exists m. split; [constructor|]. by rewrite app_nil_r.
  - destruct (IH (<[QIn key := mailbox m (QIn key) ++ [d]]> m)) as (m' & R & Hin & Ho). exists m'. split_and!.
    + cbn [post_all length]. unfold chan_send. rewrite receive_packages by done. unfold ReceivedData, push_to. act_go. eapply run_post0. act_go. exact R.
    + rewrite Hin, mailbox_eq, <- app_assoc. done.
    + intros l Hl. rewrite Ho, mailbox_ne by done. done.
Qed.

Lemma fetch_each_run size id key ms got (p : queued (list str)) m rest : 0 < size -> mailbox m (QIn key) = ms ++ rest ->
  exists m', run (2 * length ms) (Sys p (fetch_each size id key (length ms) got) m) (Sys p (Done (Ret (got ++ ms))) m') /\
    mailbox m' (QIn key) = rest /\ mailbox m' (QComplete key) = mailbox m (QComplete key) ++ replicate (length ms) completion.
Proof.
  intros Hs. revert m got. induction ms as [|d ms IH]; intros m got Hm.
  - exists m. rewrite app_nil_r. split_and!; [constructor|done|]. by rewrite app_nil_r.
  - destruct (IH (<[QComplete key := mailbox m (QComplete key) ++ [completion]]> (<[QIn key := ms ++ rest]> m)) (got ++ [d])) as (m' & R & Hin & Hcp).
    { by queue_facts. }
    exists m'. split_and!; [|done|].
    + cbn [length fetch_each]. replace (2 * S (length ms))%nat with (S (S (2 * length ms))) by lia. unfold ForwardRecv, ForwardData, push_to, pop_from. act_go.
      eapply run_fetch1; [exact Hm|]. act_go. eapply run_post1. act_go. rewrite package_data by done. queue_facts.
      rewrite <- app_assoc in R. exact R.
    + rewrite Hcp. queue_facts. by rewrite <- app_assoc.
Qed.

Lemma complete_run {A} key n k (q : queued A) (f : retcode -> queued A) m : mailbox m (QComplete key) = replicate (n + k) completion ->
  exists m', run n (Sys (ProcessCompleteStatus true key n ≫= f) q m) (Sys (f SUCCESS) q m') /\ mailbox m' (QComplete key) = replicate k completion /\
    (forall l, l <> QComplete key -> mailbox m' l = mailbox m l).
Proof.
  unfold ProcessCompleteStatus. revert m. induction n as [|n IH]; intros m Hm; [by exists m; split_and!; [constructor|..]|].
  destruct (IH (<[QComplete key := replicate (n + k) completion]> m)) as (m' & R & Hc & Ho); [apply mailbox_eq|]. exists m'. split_and!; [|done|].
  - cbn [complete_loop]. unfold pop_from. act_go. eapply run_fetch0; [exact Hm|]. exact R.
  - intros l Hl. rewrite Ho, mailbox_ne by done. done.
Qed.

Definition sender_reads (key : str) (q : qloc) : Prop := q = QComplete key.
Definition receiver_reads (key : str) (q : qloc) : Prop := q = QIn key.

Lemma checked_disciplined size id key ms : 0 < size -> disciplined (receiver_reads key) (sender_reads key) (checked_send size id key ms).
Proof.
  intros Hs. unfold checked_send, CheckSendCompleteStatus, ProcessCompleteStatus. repeat (apply disciplined_bind; [|intros ?]); [|..|exact I].
  - induction ms as [|d ms IH]; [exact I|]. cbn [post_all]. unfold chan_send. rewrite receive_packages by done. unfold ReceivedData. queue_disciplined. exact IH.
  - generalize (length ms). intros n. induction n as [|n IH]; [exact I|]. cbn [complete_loop]. queue_disciplined. exact IH.
  - exact I.
Qed.

Lemma fetch_each_disciplined size id key n got : disciplined (sender_reads key) (receiver_reads key) (fetch_each size id key n got).
Proof. revert got. induction n as [|n IH]; intros got; [exact I|]. cbn [fetch_each]. unfold ForwardRecv, ForwardData. queue_disciplined. apply IH. Qed.

(** A send that is checked: under every schedule the sender goes on, and by then the
    receiver has fetched every message. *)
Lemma checked_send_complete size id key ms : 0 < size ->
  exists n m', inevitable n (Sys (checked_send size id key ms) (fetch_each size id key (length ms) []) ∅) (Sys (Done (Ret [])) (Done (Ret ms)) m') /\
    mailbox m' (QIn key) = [] /\ mailbox m' (QComplete key) = [].
Proof.
  intros Hs.
  destruct (post_all_run size id key ms (fetch_each size id key (length ms) []) (fun _ => _ ← CheckSendCompleteStatus true key (length ms); Done (Ret [])) ∅ Hs) as (m1 & R1 & Hi1 & Ho1).
  rewrite mailbox_empty in Hi1. cbn [app] in Hi1.
  destruct (fetch_each_run size id key ms [] (_ ← CheckSendCompleteStatus true key (length ms); Done (Ret [])) m1 [] Hs) as (m2 & R2 & Hi2 & Hc2); [by rewrite app_nil_r|].
  rewrite Ho1, mailbox_empty in Hc2 by done. cbn [app] in Hc2.
  destruct (complete_run key (length ms) 0 (Done (Ret SUCCESS)) (fun _ => Done (Ret SUCCESS)) m2) as (m3 & R3 & Hc3 & Ho3); [by rewrite Nat.add_0_r|].
  exists (length ms + (2 * length ms + length ms))%nat, m3. split; [|split; [by rewrite Ho3|exact Hc3]].
  apply (one_run_decides (sender_reads key) (receiver_reads key)); [|eapply run_app; [exact R1|eapply run_app; [exact R2|]]|apply stuck_done].
  - split; [by intros q -> [=]|]. split; [by apply checked_disciplined|apply fetch_each_disciplined].
  - exact (run_bind _ _ _ (fun _ => Done (Ret [])) (fun _ => Done (Ret ms)) _ _ _ _ R3).
Qed.

(** ** Refused requests *)

(** A node without the worker refuses every call at once, and the caller is told of
    success: an empty answer, a delivered message, a completed send. *)
Lemma refusals_unnoticed size id key data n located' : 0 < size ->
  sendRecv false located' size id key data = Done (Ret (SUCCESS, [])) /\
  sendRecv true false size id key data = Post (QIn key) data (fun _ => Done (Ret (SUCCESS, []))) /\
  ForwardRecv false size id key = Done (Ret []) /\
  chan_send false size id key data = Done (Ret SUCCESS) /\
  CheckSendCompleteStatus false key n = Done (Ret SUCCESS).
Proof.
  intros Hs. unfold sendRecv, ServerSendRecv, chan_send. rewrite !receive_packages by done. by split_and!.
Qed.

(** Completions nobody waited for, of [k] earlier fetches, let a later check pass
    although its messages are still in the queue. *)
Lemma stale_completions key n k (q : queued retcode) m : mailbox m (QComplete key) = replicate (n + k) completion ->
  exists m', run n (Sys (CheckSendCompleteStatus true key n) q m) (Sys (Done (Ret SUCCESS)) q m') /\
    mailbox m' (QIn key) = mailbox m (QIn key).
Proof. intros Hm. destruct (complete_run key n k q (fun _ => Done (Ret SUCCESS)) m Hm) as (m' & R & _ & Ho). exists m'. split; [exact R|by apply Ho]. Qed.
