(* ===== verification/Download.v ===== *)
(** * Downloading files

    Models [DownloadData] of [node/ds.cc]: a thread cuts the files into blocks and
    pushes them on a queue, the handler pops them and writes the responses.  The
    steps of the two threads interleave freely; the error flag is read twice for
    every response.  The function of the reading thread has no return after its catch
    block: a run that gets there has undefined behaviour and no further state.  A file
    is its content under its completed path. *)

From Stdlib Require Import Ascii String ZArith Lia.
From stdpp Require Import base tactics list option gmap strings relations.
From S2P Require Import Prelude ModArith Machine StrUtil Common Worker NodeImpl Parallel Wire Grpc.

Record DataBlock : Type := Block { blk_data : str; is_last_block : bool; blk_file : str }.
Definition empty_block : DataBlock := Block [] false [].
Definition end_block : DataBlock := Block [] true [].

(** The blocks of a file: [size / n] whole ones and the rest. *)
Definition file_blocks (n : nat) (name content : str) : list DataBlock :=
  let k := (length content / n)%nat in
  ((fun i => Block (take n (drop (i * n) content)) false name) <$> seq 0 k) ++
  (if decide (length content mod n = 0)%nat then [] else [Block (drop (k * n) content) false name]).

(** What the reading thread does to the shared state, in its order. *)
Inductive reader_event := PushBlock (b : DataBlock) | SetDownloadError | ShutdownQueue | FallsOff.

(** [DownloadDataImpl] inside the thread: the end mark follows every file; a missing
    file throws, and the catch block falls off the end of the function. *)
Fixpoint DownloadDataImpl (n : nat) (fs : gmap str str) (storage : str) (files : list str) : list reader_event :=
  match files with
  | [] => []
  | f :: files =>
      match fs !! CompletePath storage f with
      | None => [SetDownloadError; ShutdownQueue; FallsOff]
      | Some s => (PushBlock <$> (file_blocks n f s ++ [end_block])) ++ DownloadDataImpl n fs storage files
      end
  end.

Inductive DownloadRespone := RespFail | RespData (file data : str).

(** The handler: waiting for a block, holding one, or about to look at the flag
    again. *)
Inductive writer_phase := Waiting | Holding (b : DataBlock) | Written | Finished.

Record download : Type := DL { reader : list reader_event; resp_queue : queue DataBlock; dl_error : bool; writer : writer_phase; responses : list DownloadRespone }.

Inductive dl_step : download -> download -> Prop :=
| dl_push b t q e w r : dl_step (DL (PushBlock b :: t) q e w r) (DL t (queue_push b q) e w r)
| dl_fail t q e w r : dl_step (DL (SetDownloadError :: t) q e w r) (DL t q true w r)
| dl_shutdown t q e w r : dl_step (DL (ShutdownQueue :: t) q e w r) (DL t (queue_shutdown q) e w r)
| dl_pop t q e r x q' : wait_and_pop q = Some (x, q') -> dl_step (DL t q e Waiting r) (DL t q' e (Holding (default empty_block x)) r)
| dl_end t q e r b : is_last_block b = true -> dl_step (DL t q e (Holding b) r) (DL t q e Finished r)
| dl_write t q e r b : is_last_block b = false ->
    dl_step (DL t q e (Holding b) r) (DL t q e Written (r ++ [if e then RespFail else RespData (blk_file b) (blk_data b)]))
| dl_check t q e r : dl_step (DL t q e Written r) (DL t q e (if e then Finished else Waiting) r).

(** The steps of a download: [None] once the reading thread fell off its function. *)
Inductive dl_machine : option download -> option download -> Prop :=
| dl_live d d' : dl_step d d' -> dl_machine (Some d) (Some d')
| dl_undefined t q e w r : dl_machine (Some (DL (FallsOff :: t) q e w r)) None.

(** [DownloadData]: without files, one failure. *)
Definition DownloadData (n : nat) (fs : gmap str str) (storage : str) (files : list str) : download :=
  match files with
  | [] => DL [] (Qu [] false) false Finished [RespFail]
  | _ => DL (DownloadDataImpl n fs storage files) (Qu [] false) false Waiting []
  end.

(** ** Blocks *)

Lemma whole_blocks n name content k : (k * n <= length content)%nat ->
  concat (blk_data <$> ((fun i => Block (take n (drop (i * n) content)) false name) <$> seq 0 k)) = take (k * n) content.
Proof.
  induction k as [|k IH]; intros Hk; [done|]. rewrite seq_S, !fmap_app, concat_app, IH by lia. cbn. rewrite app_nil_r.
  replace (n + k * n)%nat with (k * n + n)%nat by lia. by rewrite take_take_drop.
Qed.

Lemma file_blocks_content n name content : (0 < n)%nat -> concat (blk_data <$> file_blocks n name content) = content.
Proof.
  intros Hn. unfold file_blocks. assert (Hd := Nat.div_mod_eq (length content) n). rewrite fmap_app, concat_app, whole_blocks by lia.
  case_decide as Hr; cbn.
  - rewrite app_nil_r. apply take_ge. lia.
  - by rewrite app_nil_r, take_drop.
Qed.

Lemma file_blocks_size n name content : (0 < n)%nat -> Forall (fun b => (0 < length (blk_data b) <= n)%nat /\ is_last_block b = false) (file_blocks n name content).
Proof.
  intros Hn. unfold file_blocks. assert (Hd := Nat.div_mod_eq (length content) n). assert (Hm := Nat.mod_upper_bound (length content) n ltac:(lia)).
  apply Forall_app. split.
  - rewrite Forall_fmap. apply Forall_forall. intros i [_ Hi]%elem_of_seq. cbn. rewrite length_take, length_drop. split; [|done].
    assert ((i + 1) * n <= length content / n * n)%nat by (apply Nat.mul_le_mono_r; lia). nia.
  - case_decide; [done|]. constructor; [|done]. cbn. rewrite length_drop. split; [|done]. nia.
Qed.

(** ** The invariant of a download *)

Definition pushed_blocks (t : list reader_event) : list DataBlock := omap (fun e => match e with PushBlock b => Some b | _ => None end) t.

(** The blocks still on their way to the handler. *)
Definition stream (d : download) : list DataBlock :=
  (match writer d with Holding b => [b] | _ => [] end) ++ items (resp_queue d) ++ pushed_blocks (reader d).

Definition resp_of (b : DataBlock) : DownloadRespone := RespData (blk_file b) (blk_data b).

(** The queue is only shut down after the flag is set. *)
Definition flagged (t : list reader_event) : Prop := forall t1 t2, t = t1 ++ ShutdownQueue :: t2 -> SetDownloadError ∈ t1.

Section Blocks.
Context (bl : list DataBlock) (more : list DataBlock).
Hypothesis whole : Forall (fun b => is_last_block b = false) bl.

Definition dl_inv (d : download) : Prop :=
  (stopped (resp_queue d) = true -> dl_error d = true) /\ (dl_error d = false -> flagged (reader d)) /\
  exists k, (k <= length bl)%nat /\
    (responses d = resp_of <$> take k bl /\
       (dl_error d = false -> writer d = Finished /\ k = length bl \/ writer d <> Finished /\ stream d = drop k bl ++ end_block :: more) \/
     dl_error d = true /\ responses d = (resp_of <$> take k bl) ++ [RespFail] /\ (writer d = Written \/ writer d = Finished)).

Lemma flagged_tail e t : flagged (e :: t) -> e <> SetDownloadError -> flagged t.
Proof. intros H He t1 t2 ->. specialize (H (e :: t1) t2 eq_refl). set_solver. Qed.

(** The block the handler holds, while nothing failed. *)
Lemma held_block k b r : (k <= length bl)%nat -> b :: r = drop k bl ++ end_block :: more ->
  if is_last_block b then k = length bl else bl !! k = Some b /\ r = drop (S k) bl ++ end_block :: more.
Proof.
  intros Hk H. destruct (decide (k = length bl)) as [->|Hne].
  - rewrite drop_all in H. by injection H as -> _.
  - destruct (lookup_lt_is_Some_2 bl k) as [x Hx]; [lia|]. rewrite (drop_S bl x k Hx) in H. injection H as -> ->.
    by rewrite (Forall_lookup_1 _ _ _ _ whole Hx).
Qed.

Lemma dl_inv_step d d' : dl_step d d' -> dl_inv d -> dl_inv d'.
Proof.
  intros Hs (Hst & Hfl & k & Hk & Hr). destruct Hs as [b t q e w r|t q e w r|t q e w r|t q e r x q' Hp|t q e r b Hb|t q e r b Hb|t q e r];
    unfold dl_inv, stream in *; cbn [reader resp_queue dl_error writer responses] in *.
  - split; [done|]. split; [intros He; by eapply flagged_tail; [apply Hfl|]|]. exists k. split; [done|]. cbn [queue_push items].
    replace ((items q ++ [b]) ++ pushed_blocks t) with (items q ++ b :: pushed_blocks t) by (by rewrite <- app_assoc). done.
  - split; [done|]. split; [done|]. exists k. split; [done|]. destruct Hr as [[Hr _]|(_ & Hr)]; [by left|by right].
  - assert (e = true) as -> by (destruct e; [done|]; specialize (Hfl eq_refl [] t eq_refl); set_solver). split; [done|]. split; [done|].
    exists k. split; [done|]. destruct Hr as [[Hr _]|Hr]; [by left|by right].
  - assert (Hq : stopped q' = stopped q) by (unfold wait_and_pop in Hp; destruct (stopped q) eqn:Eq; [by simplify_eq|]; destruct (items q); by simplify_eq).
    rewrite Hq. split; [done|]. split; [done|]. exists k. split; [done|]. destruct Hr as [[Hr1 Hr2]|(_ & _ & [?|?])]; [|done..]. left. split; [done|].
    intros He. right. split; [done|]. destruct (Hr2 He) as [[? _]|[_ <-]]; [done|]. destruct (stopped q) eqn:Eq; [by rewrite Hst in He|].
    unfold wait_and_pop in Hp. rewrite Eq in Hp. destruct (items q) as [|y ys]; [done|]. by injection Hp as <- <-.
  - split; [done|]. split; [done|]. exists k. split; [done|]. destruct Hr as [[Hr1 Hr2]|(_ & _ & [?|?])]; [|done..]. left. split; [done|].
    intros He. left. split; [done|]. destruct (Hr2 He) as [[? _]|[_ H]]; [done|]. apply held_block in H; [|done]. by rewrite Hb in H.
  - split; [done|]. split; [done|]. destruct Hr as [[-> Hr2]|(_ & _ & [?|?])]; [|done..]. destruct e; [exists k; split; [done|]; right; auto|].
    destruct (Hr2 eq_refl) as [[? _]|[_ H]]; [done|]. apply held_block in H; [|done]. rewrite Hb in H. destruct H as [Hx Hrest].
    exists (S k). split; [apply lookup_lt_Some in Hx; lia|]. left. split; [by rewrite (take_S_r _ _ _ Hx), fmap_app|]. intros _. by right.
  - split; [done|]. split; [done|]. exists k. split; [done|]. destruct e; destruct Hr as [[-> Hr2]|(? & -> & _)]; try done.
    + by left.
    + right. auto.
    + left. split; [done|]. intros _. right. split; [done|]. by destruct (Hr2 eq_refl) as [[? _]|[_ ?]].
Qed.
End Blocks.

Lemma pushes_app t t' : pushed_blocks (t ++ t') = pushed_blocks t ++ pushed_blocks t'.
Proof. apply omap_app. Qed.
Lemma pushes_blocks l : pushed_blocks (PushBlock <$> l) = l.
Proof. induction l as [|b l IH]; [done|]. rewrite fmap_cons. cbn. by rewrite <- IH at 2. Qed.

Lemma flagged_pushes l t : flagged t -> flagged ((PushBlock <$> l) ++ t).
Proof.
  induction l as [|b l IH]; intros H; [done|]. intros [|e t1] t2 E; [done|]. injection E as <- E. right. by apply (IH H t1 t2).
Qed.

Lemma flagged_reader n fs storage files : flagged (DownloadDataImpl n fs storage files).
Proof.
  induction files as [|f files IH]; cbn [DownloadDataImpl]; [by intros [] ?|]. case_match; [by apply flagged_pushes|].
  intros [|e t1] t2 E; [done|]. injection E as <- _. left.
Qed.

(** A missing file leads there, and only a missing file does. *)
Lemma reader_falls_off n fs storage files : FallsOff ∈ DownloadDataImpl n fs storage files <-> ~ Forall (fun f => is_Some (fs !! CompletePath storage f)) files.
Proof.
  induction files as [|f files IH]; cbn [DownloadDataImpl]; [split; [by intros H%not_elem_of_nil|intros H; by destruct H]|]. rewrite list.Forall_cons.
  destruct (fs !! CompletePath storage f) as [s|].
  - rewrite elem_of_app, IH, list_elem_of_fmap. split; [|intros H; right; intros Hf; apply H; split; [by eexists|done]].
    intros [(b & [=] & _)|H]. by intros [_ Hf].
  - split; [by intros _ [[? [=]] _]|]. intros _. set_solver.
Qed.

(** Without a missing file nothing ever fails. *)
Lemma reader_no_error n fs storage files : Forall (fun f => is_Some (fs !! CompletePath storage f)) files -> SetDownloadError ∉ DownloadDataImpl n fs storage files.
Proof.
  induction 1 as [|f files [s Hs] _ IH]; cbn [DownloadDataImpl]; [set_solver|]. rewrite Hs, elem_of_app, list_elem_of_fmap. naive_solver.
Qed.

Lemma no_error_step d d' : dl_step d d' -> (SetDownloadError ∉ reader d) /\ dl_error d = false -> (SetDownloadError ∉ reader d') /\ dl_error d' = false.
Proof. intros Hs [H1 H2]. destruct Hs; cbn in *; subst; set_solver. Qed.

(** ** Every run ends *)

Definition phase_weight (e : bool) (w : writer_phase) : nat :=
  match w with Waiting => if e then 7 else 3 | Holding _ => 6 | Written => 5 | Finished => 0 end.
Definition dl_measure (d : download) : nat := 5 * length (reader d) + 4 * length (items (resp_queue d)) + phase_weight (dl_error d) (writer d).

Lemma dl_measure_step d d' : (stopped (resp_queue d) = true -> dl_error d = true) -> dl_step d d' -> (dl_measure d' < dl_measure d)%nat.
Proof.
  intros Hst Hs. destruct Hs as [b t q e w r|t q e w r|t q e w r|t q e r x q' Hp|t q e r b Hb|t q e r b Hb|t q e r];
    unfold dl_measure; cbn [reader resp_queue dl_error writer responses length items queue_push queue_shutdown] in *.
  - rewrite length_app. cbn. lia.
  - destruct w, e; cbn; lia.
  - lia.
  - unfold wait_and_pop in Hp. destruct (stopped q) eqn:Eq; [rewrite Hst by done; simplify_eq; cbn; lia|].
    destruct (items q) as [|y ys]; [done|]. injection Hp as <- <-. destruct e; cbn; lia.
  - cbn. lia.
  - cbn. lia.
  - destruct e; cbn; lia.
Qed.

Definition dl_stuck (x : option download) : Prop := forall y, ~ dl_machine x y.

(** Only the end of the reader can hold the handler up. *)
Lemma dl_can_step d : writer d <> Finished -> (writer d = Waiting -> reader d = [] -> items (resp_queue d) <> []) -> exists y, dl_machine (Some d) y.
Proof.
  destruct d as [[|[b| | |] t] q e w r]; cbn; intros Hw Hi.
  2: eexists; apply dl_live, dl_push. 2: eexists; apply dl_live, dl_fail. 2: eexists; apply dl_live, dl_shutdown. 2: eexists; apply dl_undefined.
  destruct w as [|b| |]; [|destruct (is_last_block b) eqn:Hb; eexists; apply dl_live; by constructor|eexists; apply dl_live, dl_check|done].
  assert (Hp : exists x q', wait_and_pop q = Some (x, q')).
  { unfold wait_and_pop. destruct (stopped q); [by eauto|]. destruct (items q); [by destruct (Hi eq_refl eq_refl)|eauto]. }
  destruct Hp as (x & q' & Hp). eexists. apply dl_live. by constructor.
Qed.

(** The reader is never held up. *)
Lemma reader_steps d : reader d <> [] -> exists y, dl_machine (Some d) y.
Proof.
  destruct d as [[|[b| | |] t] q e w r]; cbn; intros Hr; [done|eexists; apply dl_live, dl_push|eexists; apply dl_live, dl_fail|eexists; apply dl_live, dl_shutdown|eexists; apply dl_undefined].
Qed.

Lemma falls_off_kept d d' : dl_step d d' -> FallsOff ∈ reader d -> FallsOff ∈ reader d'.
Proof. intros []; cbn; rewrite ?elem_of_cons; naive_solver. Qed.

(** A state that is still defined was reached by steps alone. *)
Lemma machine_steps d x : rtc dl_machine (Some d) x -> match x with Some d' => rtc dl_step d d' | None => True end.
Proof.
  intros H. remember (Some d) as y eqn:Ey. revert d Ey. induction H as [y|y z x Hs Hr IH]; intros d ->; [done|].
  destruct z as [d1|]; [|inversion Hr as [|? ? ? Hn _]; subst; [done|inversion Hn]]. inversion Hs as [? ? Hd|]; subst. specialize (IH d1 eq_refl).
  destruct x; [|done]. by eapply rtc_l.
Qed.

Section Runs.
Context (n : nat) (fs : gmap str str) (storage : str) (f : str) (rest : list str) (s : str).
Hypothesis Hn : (0 < n)%nat.
Hypothesis Hf : fs !! CompletePath storage f = Some s.

Definition first_blocks : list DataBlock := file_blocks n f s.

Lemma first_blocks_whole : Forall (fun b => is_last_block b = false) first_blocks.
Proof. eapply Forall_impl; [apply (file_blocks_size n f s Hn)|]. by intros b [_ ?]. Qed.

Lemma dl_inv_start : dl_inv first_blocks (pushed_blocks (DownloadDataImpl n fs storage rest)) (DownloadData n fs storage (f :: rest)).
Proof.
  unfold DownloadData. split; [done|]. split; [intros _; apply flagged_reader|]. exists O. split; [lia|]. left. split; [done|]. intros _. right.
  split; [done|]. unfold stream. cbn [writer reader resp_queue items DownloadDataImpl app]. rewrite Hf, pushes_app, pushes_blocks, <- app_assoc. done.
Qed.

Lemma dl_inv_reachable d : rtc dl_step (DownloadData n fs storage (f :: rest)) d -> dl_inv first_blocks (pushed_blocks (DownloadDataImpl n fs storage rest)) d.
Proof.
  intros H. assert (H0 := dl_inv_start). revert H0. induction H as [d|d d1 d2 Hs _ IH]; [done|]. intros H0. apply IH.
  by eapply dl_inv_step; [apply first_blocks_whole|..].
Qed.

(** Every run ends: each step takes the measure down. *)
Lemma machine_ends d : rtc dl_step (DownloadData n fs storage (f :: rest)) d -> Acc (flip dl_machine) (Some d).
Proof using Hn Hf.
  remember (dl_measure d) as m eqn:Em. revert d Em. induction m as [m IH] using lt_wf_ind. intros d -> Hd. constructor. intros y Hs. inversion Hs as [? d' Hs'|]; subst.
  - destruct (dl_inv_reachable d Hd) as (Hst & _). eapply IH; [by eapply dl_measure_step|done|by eapply rtc_r].
  - constructor. intros z Hz. inversion Hz.
Qed.

(** A run of a request whose files all exist ends with the first file sent. *)
Lemma download_whole d : Forall (fun g => is_Some (fs !! CompletePath storage g)) rest -> rtc dl_step (DownloadData n fs storage (f :: rest)) d -> dl_stuck (Some d) ->
  writer d = Finished /\ responses d = resp_of <$> first_blocks.
Proof using Hn Hf.
  intros Hall Hd Hstuck. assert (He : (SetDownloadError ∉ reader d) /\ dl_error d = false).
  { assert (H0 : (SetDownloadError ∉ reader (DownloadData n fs storage (f :: rest))) /\ dl_error (DownloadData n fs storage (f :: rest)) = false).
    { split; [|done]. apply reader_no_error. constructor; [by eexists|done]. }
    clear Hstuck. revert H0. induction Hd as [d|d d1 d2 Hs _ IH]; [done|]. intros H0. apply IH. by eapply no_error_step. }
  destruct He as [_ He]. destruct (dl_inv_reachable d Hd) as (_ & _ & k & Hk & [[Hr1 Hr2]|(? & _)]); [|congruence].
  destruct (Hr2 He) as [[Hw ->]|[Hw Hstream]]; [by rewrite take_ge in Hr1 by lia|]. exfalso.
  destruct (dl_can_step d Hw) as [d' Hs]; [|by apply (Hstuck d')]. intros Hwait Hread Hi. unfold stream in Hstream.
  rewrite Hwait, Hread, Hi in Hstream. by destruct (drop k first_blocks).
Qed.

Lemma no_falls_off d : FallsOff ∉ reader (DownloadData n fs storage (f :: rest)) -> rtc dl_step (DownloadData n fs storage (f :: rest)) d -> FallsOff ∉ reader d.
Proof. intros H0 Hd. revert H0. induction Hd as [d|d d1 d2 Hs _ IH]; [done|]. intros H0. apply IH. destruct Hs; cbn in *; set_solver. Qed.

(** With all files there a run stays defined, with one missing it does not. *)
Lemma machine_defined x : Forall (fun g => is_Some (fs !! CompletePath storage g)) rest -> rtc dl_machine (Some (DownloadData n fs storage (f :: rest))) x -> x <> None.
Proof using Hn Hf.
  intros Hall H ->. apply rtc_inv_r in H as [[=]|(y & H & Hs)]. inversion Hs as [|t q e w r]; subst. apply machine_steps in H.
  apply no_falls_off in H; [cbn in H; set_solver|]. change (FallsOff ∉ DownloadDataImpl n fs storage (f :: rest)). rewrite reader_falls_off.
  intros Hno. apply Hno. constructor; [by eexists|done].
Qed.

Lemma machine_undefined x : ~ Forall (fun g => is_Some (fs !! CompletePath storage g)) rest -> rtc dl_machine (Some (DownloadData n fs storage (f :: rest))) x -> dl_stuck x -> x = None.
Proof.
  intros Hno H Hst. destruct x as [d|]; [|done]. exfalso. apply machine_steps in H.
  assert (H0 : FallsOff ∈ reader (DownloadData n fs storage (f :: rest))).
  { change (FallsOff ∈ DownloadDataImpl n fs storage (f :: rest)). apply reader_falls_off. by intros [_ Hr]%list.Forall_cons. }
  assert (Hin : FallsOff ∈ reader d) by (clear Hst; revert H0; induction H as [d|d d1 d2 Hs _ IH]; [done|]; intros H0; apply IH; by eapply falls_off_kept).
  destruct (reader_steps d) as [y Hy]; [intros E; rewrite E in Hin; by apply not_elem_of_nil in Hin|]. by apply (Hst y).
Qed.

(** C28: a download whose first file exists.  Every run ends, whatever the interleaving.
    As long as the behaviour is defined, what was sent are blocks of the first file of
    the request, in order and without gaps, and at most one failure after them; the
    blocks of that file together are its content, and none is empty or larger than
    the package size.  When all files of the request exist, every run stays defined
    and ends with exactly the blocks of the first file.  When another file is missing,
    every run ends in undefined behaviour: the reading thread throws, and its function
    falls off its end after the catch block. *)
Theorem download_first_file : let start := Some (DownloadData n fs storage (f :: rest)) in
  Acc (flip dl_machine) start /\
  (forall d, rtc dl_machine start (Some d) ->
    exists k, responses d = resp_of <$> take k first_blocks \/ responses d = (resp_of <$> take k first_blocks) ++ [RespFail]) /\
  (Forall (fun g => is_Some (fs !! CompletePath storage g)) rest -> forall x, rtc dl_machine start x -> dl_stuck x ->
    exists d, x = Some d /\ writer d = Finished /\ responses d = resp_of <$> first_blocks) /\
  (~ Forall (fun g => is_Some (fs !! CompletePath storage g)) rest -> forall x, rtc dl_machine start x -> dl_stuck x -> x = None) /\
  concat (blk_data <$> first_blocks) = s /\ Forall (fun b => (0 < length (blk_data b) <= n)%nat /\ is_last_block b = false) first_blocks.
Proof using Hn Hf.
  intros start. split_and!; [by apply machine_ends| | | |by apply file_blocks_content|by apply file_blocks_size].
  - intros d Hd%machine_steps. destruct (dl_inv_reachable d Hd) as (_ & _ & k & _ & Hr). exists k. naive_solver.
  - intros Hall x Hx Hst. assert (Hne := machine_defined x Hall Hx). destruct x as [d|]; [|done]. exists d. split; [done|].
    apply machine_steps in Hx. by apply download_whole.
  - intros Hno x. by apply machine_undefined.
Qed.
End Runs.

Lemma download_first_file_witness :
  let fs : gmap str str := {[chars "/data/a" := chars "abc"]} in
  exists d, rtc dl_machine (Some (DownloadData 2 fs (chars "/data") [chars "a"])) (Some d) /\ dl_stuck (Some d) /\
    responses d = [RespData (chars "a") (chars "ab"); RespData (chars "a") (chars "c")].
Proof.
  intros fs. destruct (download_first_file 2 fs (chars "/data") (chars "a") [] (chars "abc") ltac:(lia) eq_refl) as (_ & _ & H & _).
  assert (Hr : exists d, rtc dl_machine (Some (DownloadData 2 fs (chars "/data") [chars "a"])) (Some d) /\ dl_stuck (Some d)).
  { unfold DownloadData. change (DownloadDataImpl 2 fs (chars "/data") [chars "a"]) with
      [PushBlock (Block (chars "ab") false (chars "a")); PushBlock (Block (chars "c") false (chars "a")); PushBlock end_block].
    eexists. split.
    - do 3 (eapply rtc_l; [apply dl_live, dl_push|]).
      do 2 (eapply rtc_l; [by apply dl_live, dl_pop|]; eapply rtc_l; [by apply dl_live, dl_write|]; eapply rtc_l; [apply dl_live, dl_check|]).
      eapply rtc_l; [by apply dl_live, dl_pop|]. eapply rtc_l; [by apply dl_live, dl_end|]. reflexivity.
    - intros d' Hs. inversion Hs as [? ? Hs'|]. inversion Hs'. }
  destruct Hr as (d & Hd & Hs). exists d. split; [done|]. split; [done|]. by destruct (H (Forall_nil_2 _) (Some d) Hd Hs) as (d' & [= <-] & _ & ->).
Defined.

(** A failure between the two looks at the flag ends the download early, and the client
    is not told. *)
Example truncated_download :
  let fs : gmap str str := {[chars "/a" := chars "xy"]} in
  exists d, rtc dl_machine (Some (DownloadData 1 fs [] [chars "/a"; chars "/b"])) (Some d) /\ writer d = Finished /\ responses d = [RespData (chars "/a") (chars "x")].
Proof.
  intros fs. unfold DownloadData. change (DownloadDataImpl 1 fs [] [chars "/a"; chars "/b"]) with
    [PushBlock (Block (chars "x") false (chars "/a")); PushBlock (Block (chars "y") false (chars "/a")); PushBlock end_block; SetDownloadError; ShutdownQueue; FallsOff].
  eexists. split; [|split].
  - do 3 (eapply rtc_l; [apply dl_live, dl_push|]). eapply rtc_l; [by apply dl_live, dl_pop|]. eapply rtc_l; [by apply dl_live, dl_write|].
    eapply rtc_l; [apply dl_live, dl_fail|]. eapply rtc_l; [apply dl_live, dl_check|]. eapply rtc_l; [apply dl_live, dl_shutdown|]. reflexivity.
  - reflexivity.
  - reflexivity.
Qed.
