(* ===== verification/Commands.v ===== *)
(** * Commands to other nodes

    Models the command functions of [util/network/grpc_link_context.cc] ([StopTask],
    [killTask], [updateTaskStatus], [fetchTaskStatus], [NewDataset], [DownloadData]) with
    the functions of the node that serve them ([NodeImpl], [Download]), and the table of
    channels ([getChannel]).  A command is repeated until it is answered, three times at
    most; a call can fail before the node gets it ([rpc_lost]) or after it was served
    ([rpc_late]; a command is one message, so [rpc_cut] is the same for it). *)

From Stdlib Require Import Ascii String ZArith Lia.
From stdpp Require Import base tactics list option strings gmap relations.
From S2P Require Import Prelude ModArith Machine StrUtil Common Worker NodeImpl Grpc Download.

(** ** The loop of a command *)

Section Command.
Context {S R : Type} (serve : S -> res (R * S)).

(** [retry_time] failures are behind; [None]: the calls are used up. *)
Fixpoint command_loop (retry_time : nat) (calls : list rpc) (s : S) : res (option (retcode * option R * S)) :=
  match calls with
  | [] => Ret None
  | rpc_ok :: _ => '(r, s) ← serve s; Ret (Some (SUCCESS, Some r, s))
  | c :: calls =>
      s ← (match c with rpc_lost => Ret s | _ => '(_, s) ← serve s; Ret s end);
      if decide (Datatypes.S retry_time < retry_max_times_)%nat then command_loop (Datatypes.S retry_time) calls s
      else Ret (Some (FAIL, None, s))
  end.
End Command.

(** The commands; the server's return code is not sent. *)
Definition stop_task (id : str) (calls : list rpc) (q : list task_manage) : res (option (retcode * option unit * list task_manage)) :=
  command_loop (fun q => Ret (tt, StopTask id q)) 0 calls q.

Definition kill_task (by_client : bool) (id : str) (cache : gmap str (StatusCode * Z)) (calls : list rpc) (q : list task_manage) (s : scheduler) :
    res (option (retcode * option unit * (list task_manage * scheduler))) :=
  command_loop (fun qs : list task_manage * scheduler => '(_, q, s) ← KillTask by_client id cache qs.1 qs.2; Ret (tt, (q, s))) 0 calls (q, s).

Definition update_task_status (id : str) (st : TaskStatus) (calls : list rpc) (s : scheduler) : res (option (retcode * option unit * scheduler)) :=
  command_loop (fun s => '(_, s) ← UpdateTaskStatus id st s; Ret (tt, s)) 0 calls s.

Definition fetch_task_status (id : str) (calls : list rpc) (s : scheduler) : res (option (retcode * option (list TaskStatus) * scheduler)) :=
  command_loop (fun s => '(_, l, s) ← FetchTaskStatus id s; Ret (l, s)) 0 calls s.

(** [NewDataset], over what the data service does. *)
Definition new_dataset {S R : Type} (NewDataset : S -> res (R * S)) (calls : list rpc) (s : S) : res (option (retcode * option R * S)) :=
  command_loop NewDataset 0 calls s.

(** ** Channels *)

(** [getChannel]: channels are kept under the text of a node; a new one is number
    [next]. *)
Definition getChannel (node : Node) (table : gmap str nat) (next : nat) : nat * gmap str nat * nat :=
  match table !! node_to_string node with
  | Some c => (c, table, next)
  | None => (next, <[node_to_string node := next]> table, Datatypes.S next)
  end.

(** ** Downloads *)

(** The reading loop of [GrpcChannel::DownloadData]: a failure ends it. *)
Fixpoint read_blocks (l : list DownloadRespone) (data : list str) : bool * list str :=
  match l with
  | [] => (false, data)
  | RespFail :: _ => (true, data)
  | RespData _ d :: l => read_blocks l (data ++ [d])
  end.
Definition client_DownloadData (status_ok : bool) (l : list DownloadRespone) : retcode * list str :=
  let '(has_error, data) := read_blocks l [] in
  if status_ok then if has_error then (FAIL, data) else (SUCCESS, data) else (FAIL, data).

(** ** Facts *)

(** *** Served at least once *)

Fixpoint serve_times {S R} (serve : S -> res (R * S)) (k : nat) (s : S) : res S :=
  match k with O => Ret s | Datatypes.S k => '(_, s) ← serve s; serve_times serve k s end.

(** Calls that are looked at: at most [k], up to the first that is answered. *)
Lemma command_served {S R} (serve : S -> res (R * S)) k t calls s s' code r :
  (k + t = retry_max_times_)%nat -> (0 < k)%nat -> command_loop serve t calls s = Ret (Some (code, r, s')) ->
  serve_times serve (processed (used k calls)) s = Ret s' /\ (code = SUCCESS <-> rpc_ok ∈ take k calls) /\ (code = SUCCESS -> (0 < processed (used k calls))%nat).
Proof.
  revert t calls s. induction k as [|k IH]; intros t calls s Hk Hp H; [lia|]. destruct calls as [|c calls]; [done|]. destruct c; cbn [command_loop used take] in *.
  3-4: unfold processed; rewrite filter_cons, decide_True by done; cbn [length serve_times]; fold (processed (used k calls)).
  3-4: destruct (serve s) as [[r0 s0]| |] eqn:E; try done; cbn [mbind res_bind] in *; case_decide as Ht.
  3,5: destruct (IH (Datatypes.S t) calls s0 ltac:(lia) ltac:(unfold retry_max_times_ in *; lia) H) as (H1 & H2 & H3);
    split; [done|]; split; [|lia]; rewrite H2, elem_of_cons; naive_solver.
  3-4: injection H as <- <- <-; assert (k = 0)%nat as -> by (unfold retry_max_times_ in *; lia); cbn; split; [done|]; split; [|done];
    rewrite elem_of_cons, elem_of_nil; naive_solver.
  - destruct (serve s) as [[r0 s0]| |] eqn:E; try done. cbn in H. injection H as <- <- <-. unfold processed. rewrite filter_cons, decide_True by done. cbn.
    rewrite E. split; [done|]. split; [|lia]. rewrite elem_of_cons. tauto.
  - cbn [mbind res_bind] in H. unfold processed. rewrite filter_cons, decide_False by naive_solver. fold (processed (used k calls)).
    case_decide as Ht.
    + destruct (IH (Datatypes.S t) calls s ltac:(lia) ltac:(unfold retry_max_times_ in *; lia) H) as (H1 & H2 & H3). split; [done|].
      split; [|done]. rewrite H2, elem_of_cons. naive_solver.
    + injection H as <- <- <-. assert (k = 0)%nat as -> by (unfold retry_max_times_ in *; lia). cbn. split; [done|]. split; [|done].
      rewrite elem_of_cons, elem_of_nil. naive_solver.
Qed.

(** *** Reports delivered more than once *)

(** The same final report again changes nothing. *)
Lemma update_final_again st w w' : update_final st w = Ret w' -> update_final st w' = Ret w'.
Proof.
  unfold update_final, finish. destruct w as [fs pc sf pr q]. cbn [final_status_ party_count_ scheduler_finished task_finish_promise_ task_status_].
  pose proof (insert_insert_eq fs (ts_party st) (ts_status st) (ts_status st)) as Hi. remember (<[ts_party st := ts_status st]> fs) as fs' eqn:E. clear E.
  destruct (bool_decide (ts_status st = ST_SUCCESS) || bool_decide (ts_status st = ST_FAIL)) eqn:E1; [|intros H; injection H as <-; cbn [final_status_ party_count_ scheduler_finished task_finish_promise_ task_status_]; reflexivity].
  destruct (bool_decide (ts_status st = ST_FAIL)) eqn:E2, sf, pr, (bool_decide (size fs' = pc)) eqn:E3; cbn [negb mbind res_bind final_status_ party_count_ scheduler_finished task_finish_promise_ task_status_];
    rewrite ?E3; cbn [negb]; intros H; try done; injection H as <-;
    cbn [final_status_ party_count_ scheduler_finished task_finish_promise_ task_status_]; rewrite Hi;
    cbn [negb mbind res_bind final_status_ party_count_ scheduler_finished task_finish_promise_ task_status_]; by rewrite E3.
Qed.

(** The queue plays no part in the decision. *)
Lemma update_final_push st x w : update_final st (push_status x w) = (w' ← update_final st w; Ret (push_status x w')).
Proof.
  unfold update_final, finish, push_status. destruct w as [fs pc sf pr q]. cbn [final_status_ party_count_ scheduler_finished task_finish_promise_ task_status_].
  remember (<[ts_party st := ts_status st]> fs) as fs' eqn:E. clear E.
  destruct (bool_decide (ts_status st = ST_SUCCESS) || bool_decide (ts_status st = ST_FAIL)); [|done].
  destruct (bool_decide (ts_status st = ST_FAIL)), sf, pr, (bool_decide (size fs' = pc)) eqn:E3; cbn [negb mbind res_bind final_status_ party_count_ scheduler_finished task_finish_promise_ task_status_];
    rewrite ?E3; done.
Qed.

Lemma update_final_pushed j st w : update_final st w = Ret w -> update_final st (Nat.iter j (push_status st) w) = Ret (Nat.iter j (push_status st) w).
Proof. intros H. induction j as [|j IH]; [done|]. cbn [Nat.iter nat_rect]. rewrite update_final_push. unfold Nat.iter in IH. by rewrite IH. Qed.

Definition served_status (id : str) (st : TaskStatus) (s : scheduler) : res (unit * scheduler) := '(_, s) ← UpdateTaskStatus id st s; Ret (tt, s).

Lemma served_step id st s r w w' : GetSchedulerWorker id s = Some r -> workers s !! r = Some w -> update_final st w = Ret w' ->
  served_status id st s = Ret (tt, Sch (task_scheduler_map_ s) (<[r := push_status st w']> (workers s))).
Proof. intros Hr Hw Hu. unfold served_status, UpdateTaskStatus, updateTaskStatus. rewrite Hr, Hw. cbn. by rewrite Hu. Qed.

Lemma served_more k j id st s r w : GetSchedulerWorker id s = Some r -> workers s !! r = Some (Nat.iter j (push_status st) w) -> update_final st w = Ret w ->
  serve_times (served_status id st) k s = Ret (Sch (task_scheduler_map_ s) (<[r := Nat.iter (k + j) (push_status st) w]> (workers s))).
Proof.
  revert j s. induction k as [|k IH]; intros j s Hr Hw Hu; cbn [serve_times].
  - rewrite insert_id by done. by destruct s.
  - rewrite (served_step id st s r _ _ Hr Hw (update_final_pushed j st w Hu)). cbn [mbind res_bind].
    rewrite (IH (S j)); [|done|by cbn; rewrite lookup_insert_eq|done]. cbn [task_scheduler_map_ workers]. rewrite insert_insert_eq.
    by replace (k + S j)%nat with (S k + j)%nat by lia.
Qed.

(** A report that was served more than once: the decision is that of one report, the
    client sees as many copies. *)
Theorem reports_idempotent k id st s r w w' : GetSchedulerWorker id s = Some r -> workers s !! r = Some w -> update_final st w = Ret w' ->
  serve_times (served_status id st) (S k) s = Ret (Sch (task_scheduler_map_ s) (<[r := Nat.iter (S k) (push_status st) w']> (workers s))).
Proof.
  intros Hr Hw Hu. cbn [serve_times]. rewrite (served_step id st s r w w' Hr Hw Hu). cbn [mbind res_bind].
  rewrite (served_more k 1 id st _ r w'); [|done|by cbn; rewrite lookup_insert_eq|by eapply update_final_again]. cbn [task_scheduler_map_ workers].
  rewrite insert_insert_eq. by replace (k + 1)%nat with (S k) by lia.
Qed.

Lemma iter_push_decision k st w : let w' := Nat.iter k (push_status st) w in
  waitUntilTaskFinish w' = waitUntilTaskFinish w /\ final_status_ w' = final_status_ w /\ task_status_ w' = task_status_ w ++ replicate k st.
Proof.
  induction k as [|k (IH1 & IH2 & IH3)]; [by cbn; rewrite app_nil_r|].
  change (Nat.iter (S k) (push_status st) w) with (push_status st (Nat.iter k (push_status st) w)). generalize dependent (Nat.iter k (push_status st) w).
  intros w1 H1 H2 H3. cbn [push_status waitUntilTaskFinish final_status_ task_status_ task_finish_promise_]. split; [exact H1|]. split; [exact H2|].
  by rewrite H3, <- app_assoc, <- replicate_S_end.
Qed.

(** A report of a party that reaches the scheduler in at least one of three calls
    decides as one report does. *)
Lemma report_survives_retries id st calls s s' code o r w w' : GetSchedulerWorker id s = Some r -> workers s !! r = Some w -> update_final st w = Ret w' ->
  update_task_status id st calls s = Ret (Some (code, o, s')) -> (0 < processed (used 3 calls))%nat ->
  exists w2, workers s' !! r = Some w2 /\ waitUntilTaskFinish w2 = waitUntilTaskFinish w' /\ final_status_ w2 = final_status_ w' /\
    task_status_ w2 = task_status_ w' ++ replicate (processed (used 3 calls)) st.
Proof.
  intros Hr Hw Hu H Hp. unfold update_task_status in H. destruct (command_served (served_status id st) 3 0 calls s s' code o eq_refl ltac:(lia) H) as (Hs & _).
  destruct (processed (used 3 calls)) as [|k]; [lia|]. rewrite (reports_idempotent k id st s r w w' Hr Hw Hu) in Hs. injection Hs as <-.
  exists (Nat.iter (S k) (push_status st) w'). cbn [workers]. rewrite lookup_insert_eq. split; [done|]. apply iter_push_decision.
Qed.

Lemma fetched_empty w : task_status_ (fetch_all (S (length (task_status_ w))) w).2 = [].
Proof.
  destruct w as [fs pc sf pr q]. cbn [task_status_]. induction q as [|st q IH]; [done|].
  assert (E : forall k, (fetch_all (S k) (Wk fs pc sf pr (st :: q))).2 = (fetch_all k (Wk fs pc sf pr q)).2)
    by (intros k; cbn -[fetch_all]; cbn [fetch_all fetchTaskStatus task_status_ final_status_ party_count_ scheduler_finished task_finish_promise_]; by destruct (fetch_all k _)).
  by rewrite E.
Qed.

Lemma fetch_known id s r w : GetSchedulerWorker id s = Some r -> workers s !! r = Some w ->
  FetchTaskStatus id s = Ret (SUCCESS, task_status_ w ++ [default_status], Sch (task_scheduler_map_ s) (<[r := (fetch_all (S (length (task_status_ w))) w).2]> (workers s))).
Proof. intros Hr Hw. unfold FetchTaskStatus. rewrite Hr, Hw, <- fetch_all_ok. cbn [or_undef mbind res_bind]. by destruct (fetch_all _ w). Qed.

(** Polling is not repeatable: when the first answer is lost, the reports are gone. *)
Lemma lost_answer_loses_reports id s r w : GetSchedulerWorker id s = Some r -> workers s !! r = Some w ->
  exists s', fetch_task_status id [rpc_late; rpc_ok] s = Ret (Some (SUCCESS, Some [default_status], s')).
Proof.
  intros Hr Hw. unfold fetch_task_status. cbn [command_loop]. rewrite (fetch_known id s r w Hr Hw). cbn [mbind res_bind].
  rewrite decide_True by (unfold retry_max_times_; lia). cbn [command_loop]. rewrite (fetch_known id _ r (fetch_all (S (length (task_status_ w))) w).2); [|exact Hr|cbn [workers]; by rewrite lookup_insert_eq].
  rewrite fetched_empty. cbn [mbind res_bind app]. by eexists.
Qed.

(** *** Channels *)

Lemma channel_kept node table next c table' next' : getChannel node table next = (c, table', next') -> getChannel node table' next' = (c, table', next').
Proof.
  unfold getChannel. destruct (table !! node_to_string node) as [x|] eqn:E; intros [= <- <- <-]; [by rewrite E|by rewrite lookup_insert_eq].
Qed.

(** *** Downloads *)

Lemma read_blocks_data bl data : read_blocks (resp_of <$> bl) data = (false, data ++ (blk_data <$> bl)).
Proof. revert data. induction bl as [|b bl IH]; intros data; cbn; [by rewrite app_nil_r|]. by rewrite IH, <- app_assoc. Qed.

(** A client that downloads files that all exist gets the content of the first, in
    blocks; an answer cut short by the network is a failure. *)
Lemma download_delivers n fs storage f rest s d : (0 < n)%nat -> fs !! CompletePath storage f = Some s ->
  Forall (fun g => is_Some (fs !! CompletePath storage g)) rest -> rtc dl_step (DownloadData n fs storage (f :: rest)) d -> dl_stuck (Some d) ->
  exists data, client_DownloadData true (responses d) = (SUCCESS, data) /\ concat data = s /\ (client_DownloadData false (responses d)).1 = FAIL.
Proof.
  intros Hn Hf Hall Hd Hst. destruct (download_whole n fs storage f rest s Hn Hf d Hall Hd Hst) as [_ ->]. unfold client_DownloadData.
  rewrite read_blocks_data. eexists. split; [reflexivity|]. split; [|done]. cbn. by apply file_blocks_content.
Qed.
