(* ===== verification/Cli.v ===== *)
(** * The command line client

    Models [cli/*.{h,cc}]: the client reads a configuration file, turns it into a
    task request ([BuildRequestWithTaskConfig]) or into requests that register data
    sets, submits it, polls the scheduler's node until the task has ended
    ([CheckTaskStauts]), downloads the results and saves them.  The JSON reader and
    printer are the library's; an exception of the library ends a function with
    [FAIL], an access to a missing member of a constant value is undefined. *)

From Stdlib Require Import Ascii String ZArith Lia SpecFloat.
From stdpp Require Import base tactics list option gmap strings sorting.
From S2P Require Import Prelude ModArith Machine Doubles StrUtil Json Common Psi PsiTask MetaService Worker NodeImpl Dispatch.

Local Open Scope Z_scope.

(** ** JSON values, as the client reads them *)

(** [operator[]] of a constant value. *)
Definition jat (j : json) (key : string) : res json :=
  match j with JObject l => or_undef (find_member (chars key) l) | _ => Throw end.

Definition get_text (j : json) : res str := match j with JString s => Ret s | _ => Throw end.
Definition get_bool (j : json) : res bool := match j with JBool b => Ret b | _ => Throw end.

(** [get<int64_t>], [get<double>] and [get<float>]; only the last takes a boolean. *)
Definition get_i64 (j : json) : res Z :=
  match j with
  | JInt z => Ret (wrap z)
  | JNumber d => match d_trunc d with Some z => if in_i64 z then Ret z else Undef | None => Undef end
  | _ => Throw
  end.
Definition get_double (j : json) : res double :=
  match j with JInt z => Ret (d_of_int z) | JNumber d => Ret d | _ => Throw end.

(** Rounding to binary32. *)
Definition to_float (d : double) : double :=
  match d with S754_finite s m e => binary_normalize 24 128 (if s then - Z.pos m else Z.pos m) e s | _ => d end.
Definition get_float (j : json) : res double :=
  match j with
  | JInt z => Ret (binary_normalize 24 128 z 0 false)
  | JNumber d => Ret (to_float d)
  | JBool b => Ret (binary_normalize 24 128 (if b then 1 else 0) 0 false)
  | _ => Throw
  end.

Definition jelements (j : json) : list json := (MetaService.items j).*2.

(** ** Parameters *)

Section Text.
Context (dump : json -> str).

(** [fillParamByArray] and [fillParamByScalar]: an unknown type sets no value. *)
Definition fillParamByArray (value_type : str) (obj : json) : res ParamValue :=
  let l := jelements obj in
  v ← (if decide (value_type = chars "STRING") then value_string_array <$> mapM get_text l
       else if decide (value_type = chars "INT32") then value_int32_array <$> mapM json_int l
       else if decide (value_type = chars "INT64") then value_int64_array <$> mapM get_i64 l
       else if decide (value_type = chars "BOOL") then value_bool_array <$> mapM get_bool l
       else if decide (value_type = chars "FLOAT") then value_float_array <$> mapM get_float l
       else if decide (value_type = chars "DOUBLE") then value_double_array <$> mapM get_double l
       else if decide (value_type = chars "OBJECT") then Ret (value_string_array (dump <$> l))
       else Ret value_other);
  Ret (PV v true).

Definition fillParamByScalar (value_type : str) (obj : json) : res ParamValue :=
  v ← (if decide (value_type = chars "STRING") then value_string <$> get_text obj
       else if decide (value_type = chars "INT32") then value_int32 <$> json_int obj
       else if decide (value_type = chars "INT64") then value_int64 <$> get_i64 obj
       else if decide (value_type = chars "BOOL") then value_bool <$> get_bool obj
       else if decide (value_type = chars "FLOAT") then value_float <$> get_float obj
       else if decide (value_type = chars "DOUBLE") then value_double <$> get_double obj
       else if decide (value_type = chars "OBJECT") then Ret (value_string (dump obj))
       else Ret value_other);
  Ret (PV v false).

Definition read_param (value_info : json) : res ParamValue :=
  t ← jat value_info "type"; value_type ← get_text t;
  v ← jat value_info "value";
  match v with JArray _ => fillParamByArray value_type v | _ => fillParamByScalar value_type v end.

(** The members of an object, entered into a map one after the other. *)
Fixpoint enter_members {A} (read : json -> res A) (l : list (str * json)) (m : gmap str A) : res (gmap str A) :=
  match l with
  | [] => Ret m
  | (key, v) :: l => a ← read v; enter_members read l (<[key := a]> m)
  end.

(** ** The request *)

(** [rpc::PushTaskRequest]: the task, its name and the id of the request. *)
Record TaskFlow : Type := TF { tf_task : PushTask; tf_name : str; tf_request_id : str }.

Definition empty_task : PushTask := PTask PYTHON ACTOR_TASK [] [] [] [] ∅ ∅ ∅ ∅ ∅.

Definition set_language (t : PushTask) (l : Language) : PushTask :=
  PTask l (pt_type t) (pt_code t) (pt_job_id t) (pt_task_id t) (pt_party_name t) (pt_access t) (pt_aux t) (pt_node_map t) (pt_params t) (pt_datasets t).
Definition set_code (t : PushTask) (c : str) : PushTask :=
  PTask (pt_language t) (pt_type t) c (pt_job_id t) (pt_task_id t) (pt_party_name t) (pt_access t) (pt_aux t) (pt_node_map t) (pt_params t) (pt_datasets t).
Definition set_ids (t : PushTask) (task_id job_id : str) : PushTask :=
  PTask (pt_language t) (pt_type t) (pt_code t) job_id task_id (pt_party_name t) (pt_access t) (pt_aux t) (pt_node_map t) (pt_params t) (pt_datasets t).
Definition set_datasets (t : PushTask) (m : gmap str (gmap str str)) : PushTask :=
  PTask (pt_language t) (pt_type t) (pt_code t) (pt_job_id t) (pt_task_id t) (pt_party_name t) (pt_access t) (pt_aux t) (pt_node_map t) (pt_params t) m.

(** [ProtoTypeMgr::GetTaskType]: three of the types have a name. *)
Definition GetTaskType (s : str) : option TaskType :=
  if decide (s = chars "ACTOR_TASK") then Some ACTOR_TASK
  else if decide (s = chars "PIR_TASK") then Some PIR_TASK
  else if decide (s = chars "PSI_TASK") then Some PSI_TASK
  else None.

Definition GetLanguage (s : str) : option Language :=
  if decide (s = chars "proto") then Some PROTO else if decide (s = chars "python") then Some PYTHON else None.

(** An address: [port] is read as a 32-bit number, signed or not; the field of the
    message is signed. *)
Definition read_node (host : json) : res pbNode :=
  ip ← jat host "ip"; ip ← get_text ip;
  port ← jat host "port"; port ← json_int port;
  tls ← jat host "use_tls"; tls ← get_bool tls;
  Ret (PN (Nd [] ip port tls []) 0 []).
Definition read_party_node (host : json) : res pbNode :=
  ip ← jat host "ip"; ip ← get_text ip;
  port ← jat host "port"; port ← json_uint32 port;
  tls ← jat host "use_tls"; tls ← get_bool tls;
  Ret (PN (Nd [] ip (to_int32 port) tls []) 0 []).

(** An entry that is there keeps what the configuration does not set. *)
Definition update_node (n : pbNode) (old : option pbNode) : pbNode :=
  match old with
  | Some o => PN (Nd (id_ (pn_node o)) (ip_ (pn_node n)) (port_ (pn_node n)) (use_tls_ (pn_node n)) (role_ (pn_node o))) (pn_party_id o) (pn_vm o)
  | None => n
  end.

Fixpoint enter_party_info (all_parties : gset str) (l : list (str * json)) (m : gmap str pbNode) : res (gmap str pbNode) :=
  match l with
  | [] => Ret m
  | (name, host) :: l =>
      if decide (name ∈ all_parties) then
        n ← read_party_node host; enter_party_info all_parties l (<[name := update_node n (m !! name)]> m)
      else enter_party_info all_parties l m
  end.

(** The data set of every party that has one; an empty name enters the party only. *)
Fixpoint enter_role_datasets (role_params : json) (parties : list str) (m : gmap str (gmap str str)) : res (gmap str (gmap str str)) :=
  match parties with
  | [] => Ret m
  | p :: parties =>
      match role_params with
      | JObject l =>
          match find_member p l with
          | None => enter_role_datasets role_params parties m
          | Some role_param =>
              if jcontains role_param "data_set" then
                key ← jat role_param "data_set"; key ← get_text key;
                let old := default ∅ (m !! p) in
                enter_role_datasets role_params parties (<[p := if decide (key = []) then old else <[chars "data_set" := key]> old]> m)
              else enter_role_datasets role_params parties m
          end
      | _ => enter_role_datasets role_params parties m
      end
  end.

(** [BuildFederatedRequest]; the parties of a [std::set] come in their order. *)
Definition BuildFederatedRequest (js : json) (t : PushTask) : res PushTask :=
  if negb (jcontains js "component_params") then Ret t
  else
    component_params ← jat js "component_params";
    roles ← jat component_params "roles";
    names ← mapM get_text (concat (jelements <$> jelements roles));
    let all_parties : gset str := list_to_set names in
    access ← (if jcontains js "party_info" then info ← jat js "party_info"; enter_party_info all_parties (MetaService.items info) (pt_access t)
              else Ret (pt_access t));
    let t := set_params (set_access t access) (<[chars "component_params" := PV (value_string (dump component_params)) false]> (pt_params t)) in
    role_params ← jat component_params "role_params";
    datasets ← enter_role_datasets role_params (sort_names (elements all_parties)) (pt_datasets t);
    Ret (set_datasets t datasets).

(** A step of the builder: the next request, or [FAIL]. *)
Abbreviation built := (res (option PushTask)).
Definition then_build (p : built) (f : PushTask -> built) : built :=
  o ← p; match o with Some t => f t | None => Ret None end.

Definition build_type (js : json) (t : PushTask) : built :=
  if jcontains js "task_type" then
    j ← jat js "task_type"; s ← get_text j; Ret (set_type t <$> GetTaskType s)
  else Ret (Some t).

Definition build_name (js : json) : res str :=
  if jcontains js "task_name" then j ← jat js "task_name"; get_text j else Ret (chars "demoTask").

Definition build_language (js : json) (t : PushTask) : built :=
  if jcontains js "task_lang" then
    j ← jat js "task_lang"; s ← get_text j; Ret (set_language t <$> GetLanguage s)
  else Ret (Some t).

Definition build_params (js : json) (t : PushTask) : built :=
  if jcontains js "params" then
    j ← jat js "params"; m ← enter_members read_param (MetaService.items j) (pt_params t); Ret (Some (set_params t m))
  else Ret (Some t).

(** The code comes from a file or from the configuration; [read_file] is the file
    system. *)
Definition build_code (read_file : str -> option str) (js : json) (t : PushTask) : built :=
  if jcontains js "task_code" then
    j ← jat js "task_code"; p ← jat j "code_file_path"; path ← get_text p;
    if decide (path = []) then c ← jat j "code"; code ← get_text c; Ret (Some (set_code t code))
    else Ret (set_code t <$> read_file path)
  else Ret (Some t).

(** The datasets of a party are added to those it has. *)
Fixpoint enter_datasets (l : list (str * json)) (m : gmap str (gmap str str)) : res (gmap str (gmap str str)) :=
  match l with
  | [] => Ret m
  | (party, list) :: l =>
      d ← enter_members get_text (MetaService.items list) (default ∅ (m !! party));
      enter_datasets l (<[party := d]> m)
  end.

Definition build_datasets (js : json) (t : PushTask) : built :=
  if jcontains js "party_datasets" then
    j ← jat js "party_datasets"; m ← enter_datasets (MetaService.items j) (pt_datasets t); Ret (Some (set_datasets t m))
  else Ret (Some t).

Definition build_access (js : json) (t : PushTask) : built :=
  if jcontains js "party_access_info" then
    j ← jat js "party_access_info"; m ← enter_members read_node (MetaService.items j) (pt_access t); Ret (Some (set_access t m))
  else Ret (Some t).

(** [BuildRequestWithTaskConfig]: the ids are fixed, [uuid] is the random request
    id.  Every exception ends it with [FAIL]. *)
Definition catch_fail {A} (p : res (option A)) : res (option A) := match p with Throw => Ret None | _ => p end.

Definition BuildRequestWithTaskConfig (read_file : str -> option str) (uuid : str) (js : json) : res (option TaskFlow) :=
  catch_fail (
    o ← build_type js empty_task;
    match o with
    | None => Ret None
    | Some t =>
        name ← build_name js;
        o ← then_build (build_language js t) (fun t => then_build (build_params js t) (fun t => then_build (build_code read_file js t)
              (fun t => then_build (build_datasets js t) (build_access js))));
        match o with
        | None => Ret None
        | Some t => t ← BuildFederatedRequest js t; Ret (Some (TF (set_ids t (chars "100") (chars "200")) name uuid))
        end
    end).
End Text.

(** ** Downloads *)

Record DownloadFileInfo : Type := DF { remote_file_path : str; save_as : str }.

Definition read_download (item : json) : res DownloadFileInfo :=
  r ← jat item "remote_file_path"; r ← get_text r; s ← jat item "save_as"; s ← get_text s; Ret (DF r s).

Definition ParseDownFileConfig (js : json) : res (list DownloadFileInfo) :=
  if jcontains js "download" then
    j ← jat js "download"; match j with JArray l => mapM read_download l | _ => Ret [] end
  else Ret [].

(** ** Files *)

(** [ReadFileContents]: an empty file is refused; [fs] holds the files. *)
Definition ReadFileContents (fs : gmap str str) (path : str) : option str :=
  if decide (path = []) then None
  else match fs !! path with Some [] => None | o => o end.

(** The directory of a path: what comes before its last slash. *)
Fixpoint dir_of (s : str) : option str :=
  match s with
  | [] => None
  | c :: s => match dir_of s with Some d => Some (c :: d) | None => if decide (c = "/"%char) then Some [] else None end
  end.

(** [ValidateDir]: [present] says which directories exist, [shell] what the command
    returns; the code and the commands it ran. *)
Definition ValidateDir (present : str -> bool) (shell : str -> Z) (path : str) : Z * list str :=
  if decide (path = []) then (-1, [])
  else match dir_of path with
       | Some d => if decide (d = []) then (0, [])
                   else if present d then (0, [])
                   else let cmd := chars "mkdir -p " ++ d in (if shell cmd =? 0 then 0 else -1, [cmd])
       | None => (0, [])
       end.

(** ** The client *)

(** [ParseTaskConfigFile] of the task: [parse] throws on a text that is no JSON. *)
Definition ParseTaskConfigFile (dump : json -> str) (parse : str -> option json) (fs : gmap str str) (uuid : str) (path : str)
  : res (option (TaskFlow * list DownloadFileInfo)) :=
  match ReadFileContents fs path with
  | None => Ret None
  | Some text =>
      catch_fail (
        js ← match parse text with Some j => Ret j | None => Throw end;
        o ← BuildRequestWithTaskConfig dump (fun p => fs !! p) uuid js;
        match o with
        | None => Ret None
        | Some t => d ← ParseDownFileConfig js; Ret (Some (t, d))
        end)
  end.

(** *** Polling *)

Definition is_end (st : TaskStatus) : bool := bool_decide (ts_status st = ST_SUCCESS) || bool_decide (ts_status st = ST_FAIL).

(** One reply of [CheckTaskStauts]: who has ended, and whether to stop; the scan
    stops where all parties have. *)
Fixpoint scan_status (party_count : nat) (l : list TaskStatus) (task_status : gmap str str) (is_finished : bool) : gmap str str * bool :=
  match l with
  | [] => (task_status, is_finished)
  | st :: l =>
      let task_status := if is_end st && negb (bool_decide (ts_party st = AUX_COMPUTE_NODE)) then <[ts_party st := ts_message st]> task_status else task_status in
      let is_finished := is_finished || (is_end st && bool_decide (ts_status st = ST_FAIL)) in
      if bool_decide (size task_status = party_count) then (task_status, true)
      else scan_status party_count l task_status is_finished
  end.

Section Poll.
Context {S : Type} (env : nat -> S -> res S) (fetch : S -> res (retcode * list TaskStatus * S)).

(** [CheckTaskStauts]: [env] is what happens to the server before each poll.  The
    code of the function, or [None] while it still polls when the fuel is used up. *)
Fixpoint CheckTaskStauts (party_count fuel turn : nat) (task_status : gmap str str) (s : S) : res (option retcode * S) :=
  match fuel with
  | O => Ret (None, s)
  | Datatypes.S fuel =>
      s ← env turn s;
      '(ret, l, s) ← fetch s;
      if decide (ret <> SUCCESS) then Ret (Some FAIL, s)
      else
        let '(task_status, is_finished) := scan_status party_count l task_status false in
        if is_finished then Ret (Some SUCCESS, s) else CheckTaskStauts party_count fuel (Datatypes.S turn) task_status s
  end.
End Poll.

(** *** A whole run *)

(** What the server answers: the reply to a submission (the number of parties) and
    the data of a file; and whether a file can be written. *)
Record server : Type := Srv {
  sv_submit : TaskFlow -> option Z;
  sv_download : str -> str -> option (list str);
  sv_write : str -> bool
}.

(** [SDKClient::SubmitTask]: a reply without parties is a failure. *)
Definition SubmitTask (sv : server) (t : TaskFlow) : option nat :=
  n ← sv_submit sv t; if decide (n mod 2 ^ 64 < 1) then None else Some (Z.to_nat (n mod 2 ^ 64)).

(** [SDKClient::SaveData]. *)
Definition SaveData (present : str -> bool) (shell : str -> Z) (sv : server) (file : str) (data : list str) : option str :=
  if negb ((ValidateDir present shell file).1 =? 0) then None
  else if sv_write sv file then Some (concat data) else None.

(** [DownloadData] of the configuration's files, until one fails: the files saved. *)
Fixpoint cli_download (present : str -> bool) (shell : str -> Z) (sv : server) (request_id : str) (l : list DownloadFileInfo)
  : retcode * list (str * str) :=
  match l with
  | [] => (SUCCESS, [])
  | f :: l =>
      match sv_download sv request_id (remote_file_path f) with
      | None => (FAIL, [])
      | Some data =>
          match SaveData present shell sv (save_as f) data with
          | None => (FAIL, [])
          | Some content => let '(ret, saved) := cli_download present shell sv request_id l in (ret, (save_as f, content) :: saved)
          end
      end
  end.

(** [RunTask]: the files it leaves; [None] while it still polls.  The server starts
    in the state [s] after the submission. *)
Definition RunTask {S} (env : nat -> S -> res S) (fetch : S -> res (retcode * list TaskStatus * S)) (s : S) (fuel : nat)
    (dump : json -> str) (parse : str -> option json) (fs : gmap str str) (uuid : str) (present : str -> bool) (shell : str -> Z)
    (sv : server) (config : str) : res (option (list (str * str))) :=
  if decide (config = []) then Ret (Some [])
  else
    o ← ParseTaskConfigFile dump parse fs uuid config;
    match o with
    | None => Ret (Some [])
    | Some (t, downloads) =>
        match SubmitTask sv t with
        | None => Ret (Some [])
        | Some n =>
            '(r, _) ← CheckTaskStauts env fetch n fuel 0 ∅ s;
            match r with
            | None => Ret None
            | Some SUCCESS => Ret (Some (cli_download present shell sv (tf_request_id t) downloads).2)
            | Some FAIL => Ret (Some [])
            end
        end
    end.

(** [Common::GetNode]. *)
Definition GetNode (server_info : str) (use_tls : bool) : res Node :=
  match split_char ":" server_info with
  | ip :: port :: _ => p ← stoi port; Ret (Nd [] ip (p mod 2 ^ 32) use_tls (chars "default"))
  | _ => Undef
  end.

(** ** Registering data sets *)

(** [rpc::NewDatasetRequest] as the client fills it: id, driver, access information,
    and the fields with their types. *)
Record NewDatasetRequest : Type := NDR { nd_id : str; nd_driver : str; nd_access : str; nd_types : list (str * str) }.

Definition plain_data_types : list str := chars <$> ["INT32"; "INT64"; "STRING"; "DOUBLE"; "FLOAT"; "BOOL"]%string.

Fixpoint read_field_types (l : list (str * json)) : res (option (list (str * str))) :=
  match l with
  | [] => Ret (Some [])
  | (name, t) :: l =>
      t ← get_text t;
      if decide (t ∈ plain_data_types) then o ← read_field_types l; Ret (option_map (cons (name, t)) o) else Ret None
  end.

Definition read_meta (dump : json -> str) (j : json) : res (option NewDatasetRequest) :=
  id ← jat j "id"; id ← get_text id;
  type ← jat j "type"; type ← get_text type;
  a ← jat j "access_info";
  let access := match a with JString s => s | _ => dump a end in
  if jcontains j "schema" then
    s ← jat j "schema"; o ← read_field_types (MetaService.items s);
    Ret (option_map (NDR id type access) o)
  else Ret (Some (NDR id type access [])).

Fixpoint read_metas (dump : json -> str) (l : list json) : res (option (list NewDatasetRequest)) :=
  match l with
  | [] => Ret (Some [])
  | j :: l => o ← read_meta dump j;
      match o with None => Ret None | Some r => os ← read_metas dump l; Ret (option_map (cons r) os) end
  end.

Definition ParseDatasetMetaInfo (dump : json -> str) (parse : str -> option json) (fs : gmap str str) (path : str)
  : res (option (list NewDatasetRequest)) :=
  match ReadFileContents fs path with
  | None => Ret None
  | Some text => catch_fail (js ← match parse text with Some j => Ret j | None => Throw end; read_metas dump (jelements js))
  end.

(** [RegisterDataset]: the requests sent, each of them whatever the others return. *)
Definition cli_RegisterDataset (dump : json -> str) (parse : str -> option json) (fs : gmap str str) (config : str) : res (list NewDatasetRequest) :=
  if decide (config = []) then Ret [] else o ← ParseDatasetMetaInfo dump parse fs config; Ret (default [] o).
