(* ===== verification/CliProps.v ===== *)
(** * Properties of the command line client

    A configuration written from a request is read back as that request, and a
    client polls exactly as long as the scheduler has no verdict, when the reports
    come after the party count and none is the auxiliary node's. *)

From Stdlib Require Import Ascii String ZArith Lia SpecFloat.
From stdpp Require Import base tactics list option gmap strings sorting.
From S2P Require Import Prelude ModArith Machine Doubles StrUtil Json Common Psi PsiTask MetaService Worker NodeImpl Dispatch Cli.

Local Open Scope Z_scope.

(** ** Writing a configuration *)

Definition jobj (l : list (string * json)) : json := JObject ((fun e => (chars e.1, e.2)) <$> l).

(** The type and the value of a parameter. *)
Definition param_text (p : ParamValue) : string * json :=
  match value p with
  | value_int32 z => ("INT32", JInt z)
  | value_int64 z => ("INT64", JInt z)
  | value_string s => ("STRING", JString s)
  | value_int32_array l => ("INT32", JArray (JInt <$> l))
  | value_int64_array l => ("INT64", JArray (JInt <$> l))
  | value_string_array l => ("STRING", JArray (JString <$> l))
  | value_float d => ("FLOAT", JNumber d)
  | value_float_array l => ("FLOAT", JArray (JNumber <$> l))
  | value_double d => ("DOUBLE", JNumber d)
  | value_double_array l => ("DOUBLE", JArray (JNumber <$> l))
  | value_bool b => ("BOOL", JBool b)
  | value_bool_array l => ("BOOL", JArray (JBool <$> l))
  | value_other => ("NONE", if is_array p then JArray [] else JNull)
  end%string.
Definition param_json (p : ParamValue) : json := jobj [("type", JString (chars (param_text p).1)); ("value", (param_text p).2)]%string.

Definition is_int32 (z : Z) : Prop := - 2 ^ 31 <= z < 2 ^ 31.

(** A value of the width of its member, with its flag. *)
Definition param_ok (p : ParamValue) : Prop :=
  match value p with
  | value_int32 z => is_int32 z /\ is_array p = false
  | value_int64 z => in_i64 z = true /\ is_array p = false
  | value_string _ | value_double _ | value_bool _ => is_array p = false
  | value_float d => to_float d = d /\ is_array p = false
  | value_int32_array l => Forall is_int32 l /\ is_array p = true
  | value_int64_array l => Forall (fun z => in_i64 z = true) l /\ is_array p = true
  | value_string_array _ | value_double_array _ | value_bool_array _ => is_array p = true
  | value_float_array l => Forall (fun d => to_float d = d) l /\ is_array p = true
  | value_other => True
  end.

Lemma mapM_read {A} (read : json -> res A) (print : A -> json) l :
  Forall (fun a => read (print a) = Ret a) l -> mapM read (print <$> l) = Ret l.
Proof. induction 1 as [|a l Ha _ IH]; [done|]. rewrite fmap_cons. cbn [mapM]. rewrite Ha. cbn [mbind res_bind]. by rewrite IH. Qed.

Lemma jelements_array l : jelements (JArray l) = l.
Proof.
  unfold jelements. cbn [MetaService.items]. apply list_eq. intros i. rewrite list_lookup_fmap, list_lookup_imap. by destruct (l !! i).
Qed.

Lemma json_int_ok z : is_int32 z -> json_int (JInt z) = Ret z.
Proof. intros H. unfold is_int32 in H. unfold json_int. rewrite Z.mod_small by lia. f_equal. lia. Qed.

Section Config.
Context (dump : json -> str).

(** The branch of a type, with what it reads. *)
Lemma scalar_branch ty j (f : json -> res pvalue) v :
  fillParamByScalar dump ty j = (v ← f j; Ret (PV v false)) -> f j = Ret v -> fillParamByScalar dump ty j = Ret (PV v false).
Proof. intros -> ->. done. Qed.

Lemma array_branch {A} ty (read : json -> res A) (print : A -> json) (c : list A -> pvalue) l :
  fillParamByArray dump ty (JArray (print <$> l)) = (v ← (c <$> mapM read (jelements (JArray (print <$> l)))); Ret (PV v true)) ->
  Forall (fun a => read (print a) = Ret a) l -> fillParamByArray dump ty (JArray (print <$> l)) = Ret (PV (c l) true).
Proof. intros -> H. rewrite jelements_array, mapM_read by done. done. Qed.

Lemma get_i64_ok z : in_i64 z = true -> get_i64 (JInt z) = Ret z.
Proof. intros H. unfold get_i64. by rewrite wrap_id. Qed.

Lemma read_param_json p : param_ok p -> read_param dump (param_json p) = Ret p.
Proof.
  intros H. assert (Ht : jat (param_json p) "type" = Ret (JString (chars (param_text p).1))) by done.
  assert (Hv : jat (param_json p) "value" = Ret (param_text p).2) by done. unfold read_param. rewrite Ht, Hv. cbn [mbind res_bind get_text].
  clear Ht Hv. destruct p as [v a]. unfold param_ok, param_text in *. cbn [value is_array] in *.
  destruct v as [z|z|t|l|l|l|d|l|d|l|b|l|]; cbn [fst snd].
  - destruct H as [H ->]. apply (scalar_branch _ _ (fun j => value_int32 <$> json_int j)); [reflexivity|]. by rewrite json_int_ok.
  - destruct H as [H ->]. apply (scalar_branch _ _ (fun j => value_int64 <$> get_i64 j)); [reflexivity|]. by rewrite get_i64_ok.
  - subst a. reflexivity.
  - destruct H as [H ->]. apply (array_branch _ json_int); [reflexivity|]. eapply Forall_impl; [exact H|]. apply json_int_ok.
  - subst a. apply (array_branch _ get_text); [reflexivity|]. by apply Forall_true.
  - destruct H as [H ->]. apply (array_branch _ get_i64); [reflexivity|]. eapply Forall_impl; [exact H|]. apply get_i64_ok.
  - destruct H as [H ->]. apply (scalar_branch _ _ (fun j => value_float <$> get_float j)); [reflexivity|]. cbn [get_float]. by rewrite H.
  - destruct H as [H ->]. apply (array_branch _ get_float); [reflexivity|]. eapply Forall_impl; [exact H|]. intros d Hd. cbn [get_float]. by rewrite Hd.
  - subst a. reflexivity.
  - subst a. apply (array_branch _ get_double); [reflexivity|]. by apply Forall_true.
  - subst a. reflexivity.
  - subst a. apply (array_branch _ get_bool); [reflexivity|]. by apply Forall_true.
  - by destruct a.
Qed.

(** Members read back into a map. *)
Lemma enter_members_json {A B} (read : json -> res B) (print : A -> json) (view : A -> B) l m :
  NoDup l.*1 -> Forall (fun e => read (print e.2) = Ret (view e.2)) l -> (forall k, k ∈ l.*1 -> m !! k = None) ->
  enter_members read ((fun e => (e.1, print e.2)) <$> l) m = Ret ((view <$> (list_to_map l : gmap str A)) ∪ m).
Proof.
  revert m. induction l as [|[k a] l IH]; intros m Hnd HF Hm; [simpl; by rewrite fmap_empty, (left_id_L ∅ (∪))|].
  rewrite fmap_cons in Hnd. apply NoDup_cons in Hnd as [Hk Hnd]. inversion_clear HF as [|?? Ha HF']. rewrite fmap_cons. cbn [enter_members].
  cbn [snd fst] in *. rewrite Ha. cbn [mbind res_bind]. rewrite IH; [|done..|].
  - rewrite list_to_map_cons, fmap_insert, <- insert_union_r, insert_union_l; [done|]. rewrite lookup_fmap, not_elem_of_list_to_map_1 by done. done.
  - intros k' Hk'. rewrite lookup_insert_ne by (by intros ->). apply Hm. rewrite fmap_cons. by right.
Qed.

(** *** A request and its configuration *)

Definition task_type_text (t : TaskType) : string :=
  match t with PIR_TASK => "PIR_TASK" | PSI_TASK => "PSI_TASK" | _ => "ACTOR_TASK" end.
Definition language_text (l : Language) : string := match l with PYTHON => "python" | _ => "proto" end.
Definition node_json (n : Node) : json := jobj [("ip", JString (ip_ n)); ("port", JInt (port_ n)); ("use_tls", JBool (use_tls_ n))]%string.
Definition members {A} (print : A -> json) (l : list (str * A)) : json := JObject ((fun e => (e.1, print e.2)) <$> l).

Record task_config : Type := TC {
  tc_type : TaskType;
  tc_name : str;
  tc_language : Language;
  tc_params : list (str * ParamValue);
  tc_code : str;
  tc_datasets : list (str * list (str * str));
  tc_access : list (str * Node)
}.

Definition config_json (c : task_config) : json := jobj [
  ("task_type", JString (chars (task_type_text (tc_type c))));
  ("task_name", JString (tc_name c));
  ("task_lang", JString (chars (language_text (tc_language c))));
  ("params", members param_json (tc_params c));
  ("task_code", jobj [("code_file_path", JString []); ("code", JString (tc_code c))]);
  ("party_datasets", members (members JString) (tc_datasets c));
  ("party_access_info", members node_json (tc_access c))]%string.

(** A request the client can be asked for: names of a map are used once, the numbers
    fit, and the node of a party is an address only. *)
Record config_ok (c : task_config) : Prop := {
  co_type : tc_type c = ACTOR_TASK \/ tc_type c = PIR_TASK \/ tc_type c = PSI_TASK;
  co_language : tc_language c = PYTHON \/ tc_language c = PROTO;
  co_params : NoDup (tc_params c).*1 /\ Forall (fun e => param_ok e.2) (tc_params c);
  co_datasets : NoDup (tc_datasets c).*1 /\ Forall (fun e => NoDup e.2.*1) (tc_datasets c);
  co_access : NoDup (tc_access c).*1 /\ Forall (fun e => e.2 = Nd [] (ip_ e.2) (port_ e.2) (use_tls_ e.2) [] /\ is_int32 (port_ e.2)) (tc_access c)
}.

Definition task_of (c : task_config) : PushTask :=
  PTask (tc_language c) (tc_type c) (tc_code c) (chars "200") (chars "100") [] (node2PbNode <$> (list_to_map (tc_access c) : gmap str Node)) ∅ ∅
    (list_to_map (tc_params c)) (list_to_map <$> (list_to_map (tc_datasets c) : gmap str (list (str * str)))).

Lemma read_node_json n : n = Nd [] (ip_ n) (port_ n) (use_tls_ n) [] -> is_int32 (port_ n) -> read_node (node_json n) = Ret (node2PbNode n).
Proof.
  intros Hn Hp. unfold read_node, node_json. assert (Hi := json_int_ok _ Hp).
  change (jat (jobj _) "ip") with (Ret (JString (ip_ n))). change (jat (jobj _) "port") with (Ret (JInt (port_ n))).
  change (jat (jobj _) "use_tls") with (Ret (JBool (use_tls_ n))). cbn [mbind res_bind get_text get_bool]. rewrite Hi. cbn [mbind res_bind].
  unfold node2PbNode. by rewrite <- Hn.
Qed.

Lemma enter_datasets_json (l : list (str * list (str * str))) m : NoDup l.*1 -> Forall (fun e => NoDup e.2.*1) l ->
  (forall k, k ∈ l.*1 -> m !! k = None) ->
  enter_datasets ((fun e => (e.1, members JString e.2)) <$> l) m = Ret ((list_to_map <$> (list_to_map l : gmap str (list (str * str)))) ∪ m).
Proof.
  revert m. induction l as [|[k d] l IH]; intros m Hnd HF Hm; [simpl; by rewrite fmap_empty, (left_id_L ∅ (∪))|].
  rewrite fmap_cons in Hnd. apply NoDup_cons in Hnd as [Hk Hnd]. inversion_clear HF as [|?? Hd HF']. rewrite fmap_cons. cbn [enter_datasets].
  cbn [snd fst members MetaService.items] in *. rewrite (Hm k) by (rewrite fmap_cons; left). cbn [default].
  rewrite (enter_members_json get_text JString id) by (done || by apply Forall_true). cbn [mbind res_bind].
  rewrite map_fmap_id, (right_id_L ∅ (∪)). rewrite IH; [|done..|].
  - rewrite list_to_map_cons, fmap_insert, <- insert_union_r, insert_union_l; [done|]. rewrite lookup_fmap, not_elem_of_list_to_map_1 by done. done.
  - intros k' Hk'. rewrite lookup_insert_ne by (by intros ->). apply Hm. rewrite fmap_cons. by right.
Qed.

(** C40: a task configuration is read back.  The JSON document written from a
    request (type, name, language, parameters of every type with numbers of their
    width, code, data sets and addresses of the parties) is turned into exactly
    that request, with the fixed task and job ids of the client and the new request
    id. *)
Theorem task_config_roundtrip read_file uuid c : config_ok c ->
  BuildRequestWithTaskConfig dump read_file uuid (config_json c) = Ret (Some (TF (task_of c) (tc_name c) uuid)).
Proof.
  intros [Hty Hl [P1 P2] [D1 D2] [A1 A2]]. set (js := config_json c). unfold BuildRequestWithTaskConfig.
  assert (Ety : build_type js empty_task = Ret (Some (set_type empty_task (tc_type c)))).
  { unfold js, config_json, build_type. destruct Hty as [-> |[-> | ->]]; reflexivity. }
  rewrite Ety. cbn [mbind res_bind]. change (build_name js) with (Ret (tc_name c)). cbn [mbind res_bind]. unfold then_build.
  assert (Elang : forall t, build_language js t = Ret (Some (set_language t (tc_language c)))).
  { intros t. unfold js, config_json, build_language. destruct Hl as [-> | ->]; reflexivity. }
  rewrite Elang. cbn [mbind res_bind].
  assert (Epar : forall t, pt_params t = ∅ -> build_params dump js t = Ret (Some (set_params t (list_to_map (tc_params c))))).
  { intros t Ht. unfold build_params. change (jcontains js "params") with true.
    change (jat js "params") with (Ret (members param_json (tc_params c))). cbn [mbind res_bind MetaService.items members].
    rewrite Ht, (enter_members_json _ param_json id); [by rewrite map_fmap_id, (right_id_L ∅ (∪))|done| |done].
    eapply Forall_impl; [exact P2|]. intros e He. by apply read_param_json. }
  rewrite Epar by done. cbn [mbind res_bind]. change (build_code read_file js ?t) with (Ret (Some (set_code t (tc_code c)))). cbn [mbind res_bind].
  assert (Eds : forall t, pt_datasets t = ∅ -> build_datasets js t = Ret (Some (set_datasets t (list_to_map <$> (list_to_map (tc_datasets c) : gmap str (list (str * str))))))).
  { intros t Ht. unfold build_datasets. change (jcontains js "party_datasets") with true.
    change (jat js "party_datasets") with (Ret (members (members JString) (tc_datasets c))). cbn [mbind res_bind MetaService.items members].
    rewrite Ht, enter_datasets_json by done. by rewrite (right_id_L ∅ (∪)). }
  rewrite Eds by done. cbn [mbind res_bind].
  assert (Eac : forall t, pt_access t = ∅ -> build_access js t = Ret (Some (set_access t (node2PbNode <$> (list_to_map (tc_access c) : gmap str Node))))).
  { intros t Ht. unfold build_access. change (jcontains js "party_access_info") with true.
    change (jat js "party_access_info") with (Ret (members node_json (tc_access c))). cbn [mbind res_bind MetaService.items members].
    rewrite Ht, (enter_members_json _ node_json node2PbNode); [by rewrite (right_id_L ∅ (∪))|done| |done].
    eapply Forall_impl; [exact A2|]. intros e [He Hp]. by apply read_node_json. }
  rewrite Eac by done. cbn [mbind res_bind]. reflexivity.
Qed.
End Config.

Definition sample_task_config : task_config := TC PSI_TASK (chars "psi") PROTO
  [(chars "psiTag", PV (value_int32 1) false); (chars "clientIndex", PV (value_int32_array [0; 2]) true); (chars "ratio", PV (value_double (d_of_int 3)) false);
   (chars "names", PV (value_string_array [chars "a"; chars "b"]) true); (chars "flag", PV (value_bool true) false)]
  [] [(chars "CLIENT", [(chars "Data_File", chars "ds_client")]); (chars "SERVER", [(chars "Data_File", chars "ds_server")])]
  [(chars "CLIENT", Nd [] (chars "10.0.0.1") 50050 false [])].

Lemma sample_task_config_ok : config_ok sample_task_config.
Proof.
  split; try tauto; try (split; [apply (bool_decide_unpack _); vm_compute; exact I|]); cbn; repeat constructor; cbn; unfold is_int32; try done; try lia.
  all: repeat constructor; unfold is_int32; try lia; set_solver.
Qed.

Lemma task_config_roundtrip_witness : BuildRequestWithTaskConfig (fun _ => []) (fun _ => None) (chars "id") (config_json sample_task_config) =
  Ret (Some (TF (task_of sample_task_config) (chars "psi") (chars "id"))).
Proof. apply (task_config_roundtrip (fun _ => []) (fun _ => None) (chars "id") sample_task_config). exact sample_task_config_ok. Defined.

(** ** Polling *)










Section Polls.
Context (id : str) (w n : nat) (rounds : nat -> list TaskStatus).
Hypothesis no_aux : forall i, Forall (fun st => ts_party st <> AUX_COMPUTE_NODE) (rounds i).





End Polls.




(** ** Where the client goes wrong *)

(** The auxiliary node's report counts for the scheduler, not for the client: with
    two servers, one success and one of the auxiliary node decide the task and the
    client goes on polling. *)
Example auxiliary_report_decides :
  match '(_, s) ← DispatchTask (chars "r") 0%nat [] (dispatched [default_node; default_node]) (Sch ∅ ∅);
        report_all (chars "r") [TS AUX_COMPUTE_NODE ST_SUCCESS []; TS (chars "A") ST_SUCCESS []] s with
  | Ret s => (waitUntilTaskFinish <$> workers s !! 0%nat,
              match CheckTaskStauts (fun _ s => Ret s) (FetchTaskStatus (chars "r")) 2 1 0 ∅ s with Ret (r, _) => r | _ => Some FAIL end)
  | _ => (None, None)
  end = (Some (Some SUCCESS), None).
Proof. vm_compute. reflexivity. Qed.

(** A task the scheduler does not know is polled for ever. *)
Lemma unknown_task_polled_forever id n fuel s : task_scheduler_map_ s !! id = None -> n <> 0%nat ->
  forall turn, CheckTaskStauts (fun _ s => Ret s) (FetchTaskStatus id) n fuel turn ∅ s = Ret (None, s).
Proof.
  intros Hid Hn. induction fuel as [|fuel IH]; intros turn; [done|]. cbn [CheckTaskStauts mbind res_bind]. unfold FetchTaskStatus, GetSchedulerWorker.
  rewrite Hid. cbn [mbind res_bind]. rewrite decide_False by (intros HF; by apply HF).
  assert (Hscan : scan_status n [TS [] ST_NONEXIST (chars "No shecudler found for task")] ∅ false = (∅, false)).
  { cbn [scan_status is_end ts_status ts_party]. rewrite bool_decide_eq_false_2; [done|]. cbn. by intros <-. }
  rewrite Hscan. apply IH.
Qed.

(** A task in which a party fails is reported like one that succeeds. *)
Example failed_task_reported_as_success :
  CheckTaskStauts (S := unit) (fun _ s => Ret s) (fun s => Ret (SUCCESS, [TS (chars "A") ST_FAIL []], s)) 2 1 0 ∅ tt = Ret (Some SUCCESS, tt).
Proof. reflexivity. Qed.

(** The directory of a file goes into a shell command as it is. *)
Example path_runs_commands present : present (chars "/tmp;reboot") = false ->
  (ValidateDir present (fun _ => 0) (chars "/tmp;reboot/f")).2 = [chars "mkdir -p /tmp;reboot"].
Proof. intros H. unfold ValidateDir. change (dir_of (chars "/tmp;reboot/f")) with (Some (chars "/tmp;reboot")). rewrite !decide_False by done. by rewrite H. Qed.
