(* ===== verification/Execute.v ===== *)
(** * Running a task at a node

    Models [VMNodeImpl::ExecuteTask] with its executor thread and the reports it
    makes ([node/node_impl.cc]), the runners of [node/worker/worker.cc], the process
    that runs a task ([task_engine/task_executor.cc], [task_engine/main.cc]) and the
    choice of the task ([task/semantic/factory.h]).  The caller and the executor
    thread run side by side: what they do to the scheduler, to the cache and to the
    operation queue is a list of events each, and a trace interleaves them from the
    moment the task is ready.  The tasks themselves, the serialisation of a request
    and the start of a process are the class [TaskEnv]. *)

From Stdlib Require Import Ascii String ZArith Lia.
From stdpp Require Import base tactics list option strings countable gmap.
From S2P Require Import Prelude ModArith Machine StrUtil Common Parallel Psi PsiTask Worker NodeImpl Dispatch Grpc Cli.

Local Open Scope Z_scope.

(** ** Exceptions with their text *)

Inductive out (A : Type) : Type := Done (a : A) | Raised (what : str).
Arguments Done {A} a.
Arguments Raised {A} what.

#[export] Instance out_ret : MRet out := fun A a => Done a.
#[export] Instance out_bind : MBind out := fun A B f x => match x with Done a => f a | Raised w => Raised w end.

(** ** Requests *)

(** [rpc::PushTaskRequest]: the task, its identity, and the parties whose data sets
    carry access texts instead of ids ([dataset_detail]). *)
Record ExecRequest : Type := EReq {
  rq_task : PushTask;
  rq_request_id : str;
  rq_sub_task_id : str;
  rq_manual_launch : bool;
  rq_detail : gset str
}.

Definition set_task (r : ExecRequest) (t : PushTask) : ExecRequest := EReq t (rq_request_id r) (rq_sub_task_id r) (rq_manual_launch r) (rq_detail r).
Inductive task_kind : Type := FL_TASK | MPC_TASK | PSI | PIR.

(** [TaskFactory::Create]: the class of the task, or none. *)
Definition TaskFactory_kind (t : PushTask) : option task_kind :=
  match pt_language t with
  | PYTHON => Some FL_TASK
  | PROTO =>
      match pt_type t with
      | ACTOR_TASK => Some MPC_TASK
      | PSI_TASK => Some PSI
      | PIR_TASK => Some PIR
      | _ => None
      end
  | _ => None
  end.

(** What the runners use: the text a data set's driver gives ([None] without a
    driver or access information), construction and execution of the tasks, the
    text of a request and how it is read, the start of a process, the server
    configuration of the process, and whether it dies early, after so many reports
    and with which code. *)
Class TaskEnv : Type := {
  access_text : str -> out (option str);
  construct : task_kind -> ExecRequest -> out unit;
  run_task : task_kind -> ExecRequest -> out Z;
  request_text : ExecRequest -> option str;
  read_request : str -> option ExecRequest;
  launch : out unit;
  server_config_ok : bool;
  died : option (nat * Z)
}.

(** ** Reports *)

Definition GetSchedulerNode (t : PushTask) : option Node := pn_node <$> pt_aux t !! SCHEDULER_NODE.

(** [GrpcChannel::updateTaskStatus] at the node: its code, and the report once for
    every call the scheduler processed. *)
Definition channel_update (calls : list rpc) (dest : Node) (st : TaskStatus) : option (retcode * list (Node * TaskStatus)) :=
  '(code, _) ← control_loop 0 ((fun c => bool_decide (c = rpc_ok)) <$> calls);
  Some (code, replicate (processed (used retry_max_times_ calls)) (dest, st)).

(** [NotifyTaskStatus]. *)
Definition NotifyTaskStatus (calls : list rpc) (r : ExecRequest) (status : StatusCode) (message : str) : retcode * list (Node * TaskStatus) :=
  match GetSchedulerNode (rq_task r) with
  | None => (FAIL, [])
  | Some dest => default (FAIL, []) (channel_update calls dest (TS (pt_party_name (rq_task r)) status message))
  end.

(** ** The process *)

Section Process.
Context `{E : TaskEnv}.

(** [TaskEngine::UpdateStatus]: the code of the channel is dropped. *)
Definition UpdateStatus (calls : list rpc) (r : ExecRequest) (status : StatusCode) (msg : str) : retcode * list (Node * TaskStatus) :=
  match GetSchedulerNode (rq_task r) with
  | None => (FAIL, [])
  | Some dest => (SUCCESS, default [] (snd <$> channel_update calls dest (TS (pt_party_name (rq_task r)) status msg)))
  end.

(** [TaskEngine::CreateTask]. *)
Definition CreateTask (calls : list rpc) (r : ExecRequest) : option task_kind * list (Node * TaskStatus) :=
  match TaskFactory_kind (rq_task r) with
  | None => (None, [])
  | Some k =>
      match construct k r with
      | Done _ => (Some k, [])
      | Raised w => (None, (UpdateStatus calls r ST_FAIL w).2)
      end
  end.

(** [TaskEngine::Init]: the request and the task. *)
Definition EngineInit (calls : list rpc) (request : str) : option (ExecRequest * task_kind) * list (Node * TaskStatus) :=
  match read_request request with
  | None => (None, [])
  | Some r =>
      if server_config_ok then let '(k, l) := CreateTask calls r in ((r,.) <$> k, l)
      else (None, [])
  end.

(** [TaskEngine::Execute]. *)
Definition EngineExecute (calls : list rpc) (r : ExecRequest) (k : task_kind) : retcode * list (Node * TaskStatus) :=
  match run_task k r with
  | Raised w => (FAIL, (UpdateStatus calls r ST_FAIL w).2)
  | Done ret => if ret =? 0 then (SUCCESS, (UpdateStatus calls r ST_SUCCESS (chars "SUCCESS")).2) else (FAIL, [])
  end.

(** [main] of the process: its exit code and its reports. *)
Definition process_main (calls : list rpc) (request : str) : Z * list (Node * TaskStatus) :=
  if bool_decide (request = []) then (255, [])
  else if server_config_ok then
    match EngineInit calls request with
    | (None, l) => (255, l)
    | (Some (r, k), l) => let '(ret, l') := EngineExecute calls r k in (if decide (ret = SUCCESS) then 0 else 255, l ++ l')
    end
  else (255, []).

(** What the parent sees of it. *)
Definition process_run (calls : list rpc) (request : str) : Z * list (Node * TaskStatus) :=
  let '(code, l) := process_main calls request in
  match died with Some (n, code) => (code, take n l) | None => (code, l) end.

(** ** The runners *)

(** The data sets of the party: an id becomes a parameter and the access text takes
    its place.  The entries have different names, so their order is free. *)
Fixpoint replace_datasets (l : list (str * str)) (acc : gmap str ParamValue * gmap str str) : out (gmap str ParamValue * gmap str str) :=
  match l with
  | [] => Done acc
  | (name, id) :: l =>
      o ← access_text id;
      replace_datasets l match o with
        | None => acc
        | Some text => (<[name := PV (value_string id) false]> acc.1, <[name := text]> acc.2)
        end
  end.

(** The request the process gets. *)
Definition detailed_request (r : ExecRequest) : out ExecRequest :=
  let t := rq_task r in
  match pt_datasets t !! pt_party_name t with
  | None => Done r
  | Some m =>
      '(ps, m) ← replace_datasets (map_to_list m) (pt_params t, m);
      Done (EReq (set_datasets (set_params t ps) (<[pt_party_name t := m]> (pt_datasets t))) (rq_request_id r) (rq_sub_task_id r) (rq_manual_launch r)
        ({[pt_party_name t]} ∪ rq_detail r))
  end.

(** What the executor thread and the caller do. *)
Inductive event : Type :=
| EReport (dest : Node) (st : TaskStatus)
| EReady (ready : bool)
| ECache (st : StatusCode)
| EManage (t : task_manage).

Definition report_events (l : list (Node * TaskStatus)) : list event := (fun p => EReport p.1 p.2) <$> l.

(** [ExecuteTaskByThread]; an exception leaves the promise unset. *)
Definition ExecuteTaskByThread (r : ExecRequest) : list event * out retcode :=
  match TaskFactory_kind (rq_task r) with
  | None => ([EReady false], Done FAIL)
  | Some k =>
      match construct k r with
      | Raised w => ([], Raised w)
      | Done _ => ([EReady true], ret ← run_task k r; Done (if ret =? 0 then SUCCESS else FAIL))
      end
  end.

(** [ExecuteTaskByProcess]: the promise is set once the process is started. *)
Definition ExecuteTaskByProcess (calls : list rpc) (r : ExecRequest) : list event * out retcode :=
  match detailed_request r with
  | Raised w => ([], Raised w)
  | Done r =>
      match request_text r with
      | None => ([], Done FAIL)
      | Some text =>
          match launch with
          | Raised w => ([], Raised w)
          | Done _ => let '(code, l) := process_run calls text in (EReady true :: report_events l, Done (if code =? 0 then SUCCESS else FAIL))
          end
      end
  end.

Definition worker_execute (mode : TaskRunMode) (calls : list rpc) (r : ExecRequest) : list event * out retcode :=
  match ExecuteMode (pt_params (rq_task r)) mode with
  | THREAD => ExecuteTaskByThread r
  | PROCESS => ExecuteTaskByProcess calls r
  end.

(** ** The executor thread *)

(** The outcomes of the calls made for the four reports. *)
Record report_calls : Type := RC { rc_running : list rpc; rc_child : list rpc; rc_final : list rpc; rc_init : list rpc }.

Definition with_proxy (proxy : Node) (r : ExecRequest) : ExecRequest :=
  set_task r (set_aux (rq_task r) (<[PROXY_NODE := node2PbNode proxy]> (pt_aux (rq_task r)))).

(** Status and message after the task; the text of an exception is cut. *)
Definition final_status (o : out retcode) : StatusCode * str :=
  match o with
  | Done SUCCESS => (ST_SUCCESS, chars "task finished")
  | Done FAIL => (ST_FAIL, chars "task execute encountes error")
  | Raised w => (ST_FAIL, take 1024 w)
  end.

(** [executor_func]. *)
Definition executor_func (mode : TaskRunMode) (c : report_calls) (proxy : Node) (r : ExecRequest) : list event :=
  let r := with_proxy proxy r in
  let running := (NotifyTaskStatus (rc_running c) r ST_RUNNING (chars "task is running")).2 in
  let '(evs, o) := worker_execute mode (rc_child c) r in
  let '(st, msg) := final_status o in
  report_events running ++ evs ++ report_events (NotifyTaskStatus (rc_final c) r st msg).2 ++
  (if rq_manual_launch r then [] else [ECache st; EManage (TM (rq_request_id r) None kDel)]).

(** The caller after [waitForTaskReady]. *)
Definition handler (c : report_calls) (w : wref) (r : ExecRequest) (ready : bool) : list event :=
  if ready then [EManage (TM (rq_request_id r) (Some w) kAdd)]
  else report_events (NotifyTaskStatus (rc_init c) r ST_FAIL (chars "Initialize task failed.")).2.

Definition is_ready (e : event) : Prop := match e with EReady _ => True | _ => False end.
#[global] Instance is_ready_dec e : Decision (is_ready e).
Proof. destruct e; cbn; apply _. Defined.

(** [ExecuteTask] of an accepted request: what happens, and what it returns, if it
    does.  The caller waits for the promise. *)
Inductive NodeExecuteTask (mode : TaskRunMode) (c : report_calls) (proxy : Node) (w : wref) (r : ExecRequest) : list event -> option retcode -> Prop :=
| exec_stuck : Forall (fun e => ~ is_ready e) (executor_func mode c proxy r) -> NodeExecuteTask mode c proxy w r (executor_func mode c proxy r) None
| exec_returns pre ready post l : executor_func mode c proxy r = pre ++ EReady ready :: post -> Forall (fun e => ~ is_ready e) pre ->
    interleave [post; handler c w r ready] l -> NodeExecuteTask mode c proxy w r (pre ++ l) (Some (if ready then SUCCESS else FAIL)).
End Process.

(** ** The scheduler's cleaning thread *)

Definition SCHEDULE_WORKER_TIMEOUT_S : Z := 20.

(** One finished task with the time it is taken from the queue: the finished tasks
    kept, and those whose time is over. *)
Definition note_finished (id : str) (now : Z) (finished : gmap str Z) (timeouted : gset str) : gmap str Z * gset str :=
  let finished := <[id := now]> finished in
  (filter (fun p : str * Z => ~ now - p.2 > SCHEDULE_WORKER_TIMEOUT_S) finished,
   dom (filter (fun p : str * Z => now - p.2 > SCHEDULE_WORKER_TIMEOUT_S) finished) ∪ timeouted).

(** [CleanFinishedSchedulerWorkerThread] over the ids it is given: entries of the map
    go once more than a hundred are due. *)
Fixpoint clean_schedulers (pops : list (str * Z)) (finished : gmap str Z) (timeouted : gset str) (m : gmap str wref) : gmap str Z * gset str * gmap str wref :=
  match pops with
  | [] => (finished, timeouted, m)
  | (id, now) :: pops =>
      let '(finished, timeouted) := note_finished id now finished timeouted in
      if decide (100 < size timeouted)%nat then clean_schedulers pops finished ∅ (filter (fun p : str * wref => p.1 ∉ timeouted) m)
      else clean_schedulers pops finished timeouted m
  end.
