(* ===== verification/ExecuteProps.v ===== *)
(** * What becomes of a task

    The reports of a party agree with how its task ended, so that the scheduler's
    verdict is failure when some party's task failed and, if a final report comes
    after the party count, success when all succeeded; when the call that starts a
    task returns and what is reported when it cannot; and what the order of two queue
    entries decides. *)

From Stdlib Require Import Ascii String ZArith Lia.
From stdpp Require Import base tactics list option strings countable gmap.
From S2P Require Import Prelude ModArith Machine StrUtil Common Parallel Psi PsiTask Worker NodeImpl Dispatch Grpc Cli Execute.

Local Open Scope Z_scope.

(** ** Reports of one party *)

(** A report of the party [p] that is no final one, or the final one [c]. *)
Definition agrees (p : str) (c : retcode) (st : TaskStatus) : Prop :=
  ts_party st = p /\ (ts_status st = ST_RUNNING \/ ts_status st = if decide (c = SUCCESS) then ST_SUCCESS else ST_FAIL).

Definition report_agrees (p : str) (c : retcode) (e : event) : Prop := match e with EReport _ st => agrees p c st | _ => True end.

(** The call reached the scheduler. *)
Definition delivered (calls : list rpc) : Prop :=
  is_Some (control_loop 0 ((fun c => bool_decide (c = rpc_ok)) <$> calls)) /\ (0 < processed (used retry_max_times_ calls))%nat.

Lemma channel_update_all calls dest st l c : channel_update calls dest st = Some (c, l) -> Forall (fun p => p.2 = st) l.
Proof.
  unfold channel_update. intros H. apply bind_Some in H as ([c' k] & _ & H). injection H as _ <-. apply Forall_forall. by intros p [-> _]%elem_of_replicate.
Qed.

Lemma notify_agrees p c calls r st msg : pt_party_name (rq_task r) = p -> agrees p c (TS p st msg) ->
  Forall (report_agrees p c) (report_events (NotifyTaskStatus calls r st msg).2).
Proof.
  intros Hp Ha. unfold NotifyTaskStatus, report_events. destruct (GetSchedulerNode (rq_task r)) as [dest|]; [|constructor]. rewrite Hp.
  destruct (channel_update calls dest (TS p st msg)) as [[c' l]|] eqn:E; [|constructor]. apply channel_update_all in E. cbn [default snd].
  apply Forall_fmap. eapply Forall_impl; [exact E|]. cbn. by intros x ->.
Qed.

Lemma notify_delivered p calls r st msg : pt_party_name (rq_task r) = p -> is_Some (GetSchedulerNode (rq_task r)) -> delivered calls ->
  exists dest, EReport dest (TS p st msg) ∈ report_events (NotifyTaskStatus calls r st msg).2.
Proof.
  intros Hp [dest Hd] [[[c k] Hc] Hn]. exists dest. unfold NotifyTaskStatus, channel_update. rewrite Hd, Hc, Hp. unfold report_events.
  destruct (processed (used retry_max_times_ calls)); [lia|]. apply elem_of_cons. by left.
Qed.

Section Party.
Context `{E : TaskEnv}.

(** The process reads the request it was given, and when it dies early it does so before
    its first report. *)
Definition faithful_process (r : ExecRequest) : Prop :=
  (died = None \/ exists code, died = Some (0%nat, code)) /\ forall r' text, detailed_request r = Done r' -> request_text r' = Some text -> read_request text = Some r'.

Lemma update_agrees p c calls r st msg : pt_party_name (rq_task r) = p -> agrees p c (TS p st msg) ->
  Forall (report_agrees p c) (report_events (UpdateStatus calls r st msg).2).
Proof.
  intros Hp Ha. unfold UpdateStatus, report_events. destruct (GetSchedulerNode (rq_task r)) as [dest|]; [|constructor]. rewrite Hp.
  destruct (channel_update calls dest (TS p st msg)) as [[c' l]|] eqn:E1; [|constructor]. apply channel_update_all in E1. cbn [default fmap option_fmap option_map snd].
  apply Forall_fmap. eapply Forall_impl; [exact E1|]. cbn. by intros x ->.
Qed.

Lemma agrees_fail p msg : agrees p FAIL (TS p ST_FAIL msg).
Proof. split; [done|by right]. Qed.

Lemma agrees_success p msg : agrees p SUCCESS (TS p ST_SUCCESS msg).
Proof. split; [done|by right]. Qed.

Lemma process_agrees p calls r0 r text code l : faithful_process r0 -> detailed_request r0 = Done r -> request_text r = Some text -> pt_party_name (rq_task r) = p -> process_run calls text = (code, l) ->
  Forall (report_agrees p (if code =? 0 then SUCCESS else FAIL)) (report_events l).
Proof.
  intros [Hd Hr] H0 Ht Hp. unfold process_run. destruct (process_main calls text) as [code' l'] eqn:Em.
  destruct Hd as [->|(code0 & ->)]; [|intros [= <- <-]; constructor]. intros [= <- <-]. revert Em.
  unfold process_main, EngineInit, CreateTask. rewrite (Hr r text H0 Ht).
  case_bool_decide; [intros [= <- <-]; constructor|]. destruct server_config_ok; [|intros [= <- <-]; constructor].
  destruct (TaskFactory_kind (rq_task r)) as [k|]; [|intros [= <- <-]; constructor].
  destruct (construct k r) as [u|w]; cbn [fmap option_fmap option_map].
  - unfold EngineExecute. destruct (run_task k r) as [ret|w].
    + destruct (ret =? 0); intros [= <- <-]; [|constructor]. apply update_agrees; [done|apply agrees_success].
    + intros [= <- <-]. apply update_agrees; [done|apply agrees_fail].
  - intros [= <- <-]. apply update_agrees; [done|apply agrees_fail].
Qed.

Lemma detailed_party r r' : detailed_request r = Done r' -> pt_party_name (rq_task r') = pt_party_name (rq_task r).
Proof.
  unfold detailed_request. destruct (pt_datasets (rq_task r) !! pt_party_name (rq_task r)) as [m|]; [|by intros [= <-]].
  destruct (replace_datasets _ _) as [[ps m']|w]; [|done]. by intros [= <-].
Qed.

(** How a run ended. *)
Definition verdict (o : out retcode) : retcode := match o with Done c => c | Raised _ => FAIL end.

Lemma execute_agrees mode calls r evs o : faithful_process r -> worker_execute mode calls r = (evs, o) ->
  Forall (report_agrees (pt_party_name (rq_task r)) (verdict o)) evs.
Proof.
  intros Hf. unfold worker_execute. destruct (ExecuteMode _ _).
  - unfold ExecuteTaskByThread. destruct (TaskFactory_kind _); [destruct (construct _ _)|]; intros [= <- <-]; by repeat constructor.
  - unfold ExecuteTaskByProcess. destruct (detailed_request r) as [r'|w] eqn:Ed; [|intros [= <- <-]; constructor].
    destruct (request_text r') as [text|] eqn:Et; [|intros [= <- <-]; constructor]. destruct launch; [|intros [= <- <-]; constructor].
    destruct (process_run calls text) as [code l] eqn:Ep. intros [= <- <-]. constructor; [exact I|]. cbn [verdict].
    apply (process_agrees _ calls r r' text code l Hf Ed Et (detailed_party r r' Ed) Ep).
Qed.

(** How the task of a request ends. *)
Definition task_verdict (mode : TaskRunMode) (c : report_calls) (proxy : Node) (r : ExecRequest) : retcode :=
  verdict (worker_execute mode (rc_child c) (with_proxy proxy r)).2.

Lemma final_agrees p o : agrees p (verdict o) (TS p (final_status o).1 (final_status o).2).
Proof. destruct o as [[]|w]; split; try done; by right. Qed.

Lemma executor_agrees mode c proxy r : faithful_process (with_proxy proxy r) ->
  Forall (report_agrees (pt_party_name (rq_task r)) (task_verdict mode c proxy r)) (executor_func mode c proxy r).
Proof.
  intros Hf. unfold executor_func, task_verdict. destruct (worker_execute mode (rc_child c) (with_proxy proxy r)) as [evs o] eqn:Ee.
  apply execute_agrees in Ee; [|done]. change (pt_party_name (rq_task (with_proxy proxy r))) with (pt_party_name (rq_task r)) in Ee. cbn [snd].
  assert (Hl := final_agrees (pt_party_name (rq_task r)) o). destruct (final_status o) as [st msg]. cbn [fst snd] in Hl.
  apply Forall_app. split; [apply notify_agrees; [done|split; [done|by left]]|].
  apply Forall_app. split; [done|]. apply Forall_app. split; [by apply notify_agrees|].
  destruct (rq_manual_launch (with_proxy proxy r)); by repeat constructor.
Qed.

(** Not ready, not successful. *)
Lemma unready_fails mode calls r evs o : worker_execute mode calls r = (evs, o) -> EReady false ∈ evs -> verdict o = FAIL.
Proof.
  unfold worker_execute. destruct (ExecuteMode _ _).
  - unfold ExecuteTaskByThread. destruct (TaskFactory_kind _) as [k|]; [|by intros [= _ <-]].
    destruct (construct _ _); intros [= <- <-]; intros H; [by apply list_elem_of_singleton in H|by apply not_elem_of_nil in H].
  - unfold ExecuteTaskByProcess. destruct (detailed_request r) as [r'|w]; [|intros [= <- <-] H; by apply not_elem_of_nil in H].
    destruct (request_text r') as [text|]; [|by intros [= <- <-]]. destruct launch; [|by intros [= <- <-]].
    destruct (process_run calls text) as [code l]. intros [= <- <-] H. apply elem_of_cons in H as [[=]|H].
    unfold report_events in H. apply list_elem_of_fmap in H as (x & [=] & _).
Qed.

Lemma reports_not_ready l b : EReady b ∉ report_events l.
Proof. unfold report_events. by intros (x & [=] & _)%list_elem_of_fmap. Qed.

Lemma executor_unready mode c proxy r : EReady false ∈ executor_func mode c proxy r -> task_verdict mode c proxy r = FAIL.
Proof.
  unfold executor_func, task_verdict. destruct (worker_execute mode (rc_child c) (with_proxy proxy r)) as [evs o] eqn:Ee. cbn [snd].
  destruct (final_status o) as [st msg]. rewrite !elem_of_app. intros [H|[H|[H|H]]]; [by apply reports_not_ready in H|by eapply unready_fails|by apply reports_not_ready in H|].
  destruct (rq_manual_launch _); [by apply not_elem_of_nil in H|]. apply elem_of_cons in H as [[=]|H]. by apply list_elem_of_singleton in H as [=].
Qed.

(** Every report of a trace agrees with the verdict. *)
Lemma trace_agrees mode c proxy w r l ret : faithful_process (with_proxy proxy r) -> NodeExecuteTask mode c proxy w r l ret ->
  Forall (report_agrees (pt_party_name (rq_task r)) (task_verdict mode c proxy r)) l.
Proof.
  intros Hf H. assert (He := executor_agrees mode c proxy r Hf). destruct H as [Hn|pre ready post l Hx Hn Hi]; [done|].
  assert (Hu : ready = false -> task_verdict mode c proxy r = FAIL).
  { intros ->. apply executor_unready. rewrite Hx. set_solver. }
  rewrite Hx in He. apply Forall_app in He as [He1 He2]. apply Forall_cons in He2 as [_ He2]. apply Forall_app. split; [done|].
  apply interleave_perm in Hi. rewrite Hi. cbn [concat]. rewrite app_nil_r. apply Forall_app. split; [done|].
  unfold handler. destruct ready; [by repeat constructor|]. rewrite (Hu eq_refl). apply notify_agrees; [done|apply agrees_fail].
Qed.

Lemma with_proxy_scheduler proxy r : is_Some (GetSchedulerNode (rq_task r)) -> is_Some (GetSchedulerNode (rq_task (with_proxy proxy r))).
Proof. unfold GetSchedulerNode. cbn. by rewrite lookup_insert_ne by done. Qed.

(** The final report is made. *)
Lemma trace_final mode c proxy w r l ret : NodeExecuteTask mode c proxy w r l ret -> is_Some (GetSchedulerNode (rq_task r)) -> delivered (rc_final c) ->
  exists dest msg, EReport dest (TS (pt_party_name (rq_task r)) (if decide (task_verdict mode c proxy r = SUCCESS) then ST_SUCCESS else ST_FAIL) msg) ∈ l.
Proof.
  intros H Hs Hd.
  assert (He : exists dest msg, EReport dest (TS (pt_party_name (rq_task r)) (if decide (task_verdict mode c proxy r = SUCCESS) then ST_SUCCESS else ST_FAIL) msg)
    ∈ executor_func mode c proxy r).
  { unfold executor_func, task_verdict. destruct (worker_execute mode (rc_child c) (with_proxy proxy r)) as [evs o] eqn:Ee. cbn [snd].
    destruct (final_status o) as [st msg] eqn:Ef.
    destruct (notify_delivered (pt_party_name (rq_task r)) (rc_final c) (with_proxy proxy r) st msg eq_refl (with_proxy_scheduler proxy r Hs) Hd) as (dest & Hin).
    exists dest, msg. replace (if decide (verdict o = SUCCESS) then ST_SUCCESS else ST_FAIL) with st by (destruct o as [[]|]; by injection Ef).
    rewrite !elem_of_app. by right; right; left. }
  destruct He as (dest & msg & He). exists dest, msg. destruct H as [Hn|pre ready post l Hx Hn Hi]; [done|].
  rewrite Hx in He. apply elem_of_app in He as [He|He]; [rewrite elem_of_app; by left|]. apply elem_of_cons in He as [[=]|He].
  rewrite elem_of_app. right. apply interleave_perm in Hi. rewrite Hi. cbn [concat]. rewrite elem_of_app. by left.
Qed.
End Party.

(** ** The verdict on a task *)

(** One party's run: its node, its request and what happened. *)
Record party_run : Type := PR {
  pr_env : TaskEnv;
  pr_mode : TaskRunMode;
  pr_calls : report_calls;
  pr_proxy : Node;
  pr_ref : wref;
  pr_request : ExecRequest;
  pr_events : list event;
  pr_return : option retcode
}.

Definition pr_name (x : party_run) : str := pt_party_name (rq_task (pr_request x)).
Definition pr_verdict (x : party_run) : retcode := task_verdict (E := pr_env x) (pr_mode x) (pr_calls x) (pr_proxy x) (pr_request x).

(** The run is one of [ExecuteTask], the request names the scheduler, and the final
    report reaches it. *)
Record run_ok (x : party_run) : Prop := {
  ro_faithful : faithful_process (E := pr_env x) (with_proxy (pr_proxy x) (pr_request x));
  ro_run : NodeExecuteTask (E := pr_env x) (pr_mode x) (pr_calls x) (pr_proxy x) (pr_ref x) (pr_request x) (pr_events x) (pr_return x);
  ro_scheduler : is_Some (GetSchedulerNode (rq_task (pr_request x)));
  ro_delivered : delivered (rc_final (pr_calls x))
}.

(** What a party's reports do at the scheduler. *)
Definition report_ops (l : list event) : list wop :=
  concat ((fun e => match e with EReport _ st => [OpFinal st; OpPush st] | _ => [] end) <$> l).

Lemma elem_of_concat {A} (x : A) (ls : list (list A)) : x ∈ concat ls <-> exists l, x ∈ l /\ l ∈ ls.
Proof.
  induction ls as [|l ls IH]; cbn; [split; [by intros H%not_elem_of_nil|by intros (l & _ & H%not_elem_of_nil)]|].
  rewrite elem_of_app, IH. setoid_rewrite elem_of_cons. naive_solver.
Qed.

Lemma report_ops_final st l : OpFinal st ∈ report_ops l <-> exists dest, EReport dest st ∈ l.
Proof.
  unfold report_ops. rewrite elem_of_concat. split.
  - intros (ops & Hi & Ho). apply list_elem_of_fmap in Ho as (e & -> & He). destruct e as [dest st'|b|s|t]; [|by apply not_elem_of_nil in Hi..].
    apply elem_of_cons in Hi as [[= ->]|Hi]; [by exists dest|]. by apply list_elem_of_singleton in Hi as [=].
  - intros (dest & He). exists [OpFinal st; OpPush st]. split; [set_solver|]. apply list_elem_of_fmap. by exists (EReport dest st).
Qed.

Lemma report_ops_no_count l : Forall (fun op => not_count op = true) (report_ops l).
Proof. unfold report_ops. apply Forall_concat, Forall_fmap, Forall_forall. intros [] _; by repeat constructor. Qed.

Lemma finals_elem ops p b : (p, b) ∈ finals ops <-> exists st, OpFinal st ∈ ops /\ ts_party st = p /\ ts_status st = if b : bool then ST_SUCCESS else ST_FAIL.
Proof.
  induction ops as [|op ops IH]; [split; [by intros H%not_elem_of_nil|by intros (st & H%not_elem_of_nil & _)]|].
  rewrite finals_cons, elem_of_app, IH. clear IH. split.
  - intros [H|(st & H & Hp)]; [|exists st; set_solver]. destruct op as [k|st|st|]; try by apply not_elem_of_nil in H.
    exists st. cbn in H. destruct (ts_status st) eqn:Es; try by apply not_elem_of_nil in H; [].
    all: apply list_elem_of_singleton in H as [= -> ->]; split; [set_solver|done].
  - intros (st & [<-|H]%elem_of_cons & Hp & Hs); [|right; by exists st]. left. cbn. rewrite Hs, Hp. destruct b; set_solver.
Qed.

Lemma first_failure (l : list (str * bool)) : (exists p, (p, false) ∈ l) -> exists pre p post, l = pre ++ (p, false) :: post /\ all_success pre.
Proof.
  induction l as [|[q b] l IH]; intros (p & Hp); [by apply not_elem_of_nil in Hp|]. destruct b.
  - apply elem_of_cons in Hp as [[=]|Hp]. destruct IH as (pre & p' & post & -> & Hs); [by exists p|].
    exists ((q, true) :: pre), p', post. split; [done|by constructor].
  - exists [], q, l. split; [done|constructor].
Qed.

Lemma name_inj (runs : list party_run) x y : NoDup (pr_name <$> runs) -> x ∈ runs -> y ∈ runs -> pr_name x = pr_name y -> x = y.
Proof.
  induction runs as [|z runs IH]; intros Hnd Hx Hy E; [by apply not_elem_of_nil in Hx|]. rewrite fmap_cons in Hnd. apply NoDup_cons in Hnd as [Hz Hnd].
  apply elem_of_cons in Hx as [->|Hx], Hy as [->|Hy]; [done|exfalso..|by apply IH]; apply Hz, list_elem_of_fmap; by eexists.
Qed.

Section Verdict.
Context (runs : list party_run) (Hok : Forall run_ok runs) (Hnd : NoDup (pr_name <$> runs)).
Context (fetches : nat) (l : list wop) (Hl : interleave (replicate fetches OpFetch :: (report_ops ∘ pr_events <$> runs)) l).

(** The final reports that arrive are those of the parties, with their verdicts. *)
Lemma arrived_iff p b : (p, b) ∈ finals l <-> exists x, x ∈ runs /\ pr_name x = p /\ bool_decide (pr_verdict x = SUCCESS) = b.
Proof using Hok Hl.
  rewrite finals_elem. setoid_rewrite (interleave_perm _ _ Hl). cbn [concat]. setoid_rewrite elem_of_app. setoid_rewrite elem_of_concat. rewrite Forall_forall in Hok. split.
  - intros (st & [H|(ops & Hi & Ho)] & Hp & Hs); [by apply elem_of_replicate in H as [[=] _]|].
    apply list_elem_of_fmap in Ho as (x & -> & Hx). apply report_ops_final in Hi as [dest Hi]. exists x. split; [done|].
    destruct (Hok x Hx) as [Hf Hr _ _]. assert (Ha := trace_agrees (E := pr_env x) _ _ _ _ _ _ _ Hf Hr). rewrite Forall_forall in Ha.
    destruct (Ha _ Hi) as [Hp' Hs']. split; [by rewrite <- Hp|]. fold (pr_verdict x) in Hs'.
    destruct Hs' as [Hs'|Hs']; rewrite Hs in Hs'; [by destruct b|]. destruct (decide (pr_verdict x = SUCCESS)) as [Hv|Hv], b; try done;
      [by apply bool_decide_eq_true_2|by apply bool_decide_eq_false_2].
  - intros (x & Hx & Hp & Hb). destruct (Hok x Hx) as [_ Hr Hs Hd].
    destruct (trace_final (E := pr_env x) _ _ _ _ _ _ _ Hr Hs Hd) as (dest & msg & Hin). fold (pr_verdict x) in Hin.
    eexists. split; [right; exists (report_ops (pr_events x)); split; [apply report_ops_final; by exists dest|apply list_elem_of_fmap; by exists x]|].
    cbn [ts_party ts_status]. split; [exact Hp|]. destruct (decide (pr_verdict x = SUCCESS)) as [Hv|Hv]; subst b.
    + by rewrite bool_decide_eq_true_2.
    + by rewrite bool_decide_eq_false_2.
Qed.

Lemma ops_no_count : Forall (fun op => not_count op = true) l.
Proof using Hl.
  rewrite (interleave_perm _ _ Hl). cbn [concat]. apply Forall_app. split; [by apply Forall_replicate|]. apply Forall_concat, Forall_fmap, Forall_forall.
  intros x _. apply report_ops_no_count.
Qed.

Lemma parties_names k : parties k ⊆ list_to_set (pr_name <$> runs) -> (size (parties k) <= length runs)%nat.
Proof using Hnd.
  intros H. apply subseteq_size in H. rewrite size_list_to_set in H by exact Hnd. by rewrite length_fmap in H.
Qed.

Lemma all_successes : Forall (fun x => pr_verdict x = SUCCESS) runs -> all_success (finals l).
Proof using Hok Hl.
  intros Ha. rewrite Forall_forall in Ha. apply Forall_forall. intros [p b] Hin. apply arrived_iff in Hin as (x & Hx & _ & <-). cbn.
  rewrite (Ha x Hx). by apply bool_decide_eq_true_2.
Qed.

Lemma all_parties : size (parties (finals l)) = length runs.
Proof using Hok Hnd Hl.
  assert (E : parties (finals l) = list_to_set (pr_name <$> runs)).
  { apply set_eq. intros p. unfold parties. rewrite !elem_of_list_to_set. rewrite list_elem_of_fmap. split.
    - intros ([q b] & -> & Hin). apply arrived_iff in Hin as (x & Hx & <- & _). apply list_elem_of_fmap. by exists x.
    - intros Hin. apply list_elem_of_fmap in Hin as (x & -> & Hx). exists (pr_name x, bool_decide (pr_verdict x = SUCCESS)). split; [done|]. apply arrived_iff. by exists x. }
  rewrite E, size_list_to_set by exact Hnd. by rewrite length_fmap.
Qed.

Lemma some_fails : Exists (fun x => pr_verdict x = FAIL) runs -> fails (length runs) (finals l).
Proof using Hok Hnd Hl.
  intros (x & Hx & Hv)%Exists_exists. destruct (first_failure (finals l)) as (pre & p & post & El & Hs).
  { exists (pr_name x). apply arrived_iff. exists x. split_and!; [done..|]. rewrite Hv. by apply bool_decide_eq_false_2. }
  exists pre, p, post. split; [done|]. split; [done|].
  assert (Hp : (p, false) ∈ finals l) by (rewrite El; set_solver). apply arrived_iff in Hp as (y & Hy & Hyp & Hyv).
  assert (Hn : p ∉ parties pre).
  { unfold parties. rewrite elem_of_list_to_set, list_elem_of_fmap. intros ([q b] & Eq & Hin). cbn in Eq. subst q.
    unfold all_success in Hs. rewrite Forall_forall in Hs. assert (Hb := Hs _ Hin). cbn in Hb. subst b.
    assert (Hin' : (p, true) ∈ finals l) by (rewrite El; set_solver). apply arrived_iff in Hin' as (z & Hz & Hzp & Hzv).
    assert (z = y) as -> by (apply (name_inj runs); [done..|by rewrite Hzp, Hyp]). congruence. }
  assert (Hsub : parties pre ∪ {[p]} ⊆ list_to_set (pr_name <$> runs)).
  { intros q [Hq|Hq]%elem_of_union.
    - unfold parties in Hq. rewrite elem_of_list_to_set, list_elem_of_fmap in Hq. destruct Hq as ([q' b] & -> & Hin).
      assert (Hin' : (q', b) ∈ finals l) by (rewrite El; set_solver). apply arrived_iff in Hin' as (z & Hz & <- & _).
      rewrite elem_of_list_to_set, list_elem_of_fmap. by exists z.
    - apply elem_of_singleton in Hq as ->. rewrite elem_of_list_to_set, list_elem_of_fmap. by exists y. }
  apply subseteq_size in Hsub. rewrite size_list_to_set, length_fmap in Hsub by exact Hnd. rewrite size_union in Hsub by set_solver.
  rewrite size_singleton in Hsub. lia.
Qed.
End Verdict.

(** C11: the scheduler's verdict is the parties' own, once the scheduler knows their
    number in time.  Every party runs its request at its node, in a thread or in a
    process (which reads the request as it was written and, should it die by itself,
    dies before its first report), and reports to the scheduler when it starts, from
    within the process and at the end, some calls failing and being repeated; the
    final report gets through.  The reports of all parties and the client's polls
    reach the scheduler in any interleaving, [pre] before and [post] after it sets the
    number of parties.  No report throws.  When some party's task failed the promise
    is failure.  When every party's task succeeded it is success if a final report
    arrives after the number is set; if all of them come before, the task is never
    decided. *)
Theorem verdict_of_parties runs fetches pre post : Forall run_ok runs -> NoDup (pr_name <$> runs) ->
  interleave (replicate fetches OpFetch :: (report_ops ∘ pr_events <$> runs)) (pre ++ post) ->
  exists got w, wrun (pre ++ OpCount (length runs) :: post) ([], new_worker) = Ret (got, w) /\
    waitUntilTaskFinish w =
      if decide (Forall (fun x => pr_verdict x = SUCCESS) runs) then if decide (finals post = []) then None else Some SUCCESS else Some FAIL.
Proof.
  intros Hok Hnd Hl. assert (Hnc := ops_no_count runs fetches _ Hl). apply Forall_app in Hnc as [Hnc1 Hnc2].
  destruct (wrun_late_count (length runs) pre post Hnc1 Hnc2) as (got & w & E & Hw & _). exists got, w. split; [exact E|]. rewrite Hw. destruct (decide _) as [Ha|Ha].
  - apply late_success; rewrite <- finals_app.
    + by apply (all_successes runs Hok fetches _ Hl).
    + by apply (all_parties runs Hok Hnd fetches _ Hl).
  - apply late_failure. rewrite <- finals_app. apply (some_fails runs Hok Hnd fetches _ Hl). apply not_Forall_Exists in Ha; [|intros x; apply _].
    eapply Exists_impl; [exact Ha|]. cbn. intros x. by destruct (pr_verdict x).
Qed.

(** Two parties: one runs its task in a thread, the other in a process; [code] is
    what its task returns. *)
Definition sample_request (name : string) : ExecRequest :=
  EReq (PTask PROTO ACTOR_TASK [] [] [] (chars name) ∅ {[SCHEDULER_NODE := node2PbNode default_node]} ∅ ∅ ∅) (chars "r") (chars "0") false ∅.

Definition sample_env (name : string) (code : Z) : TaskEnv := {|
  access_text _ := Done None;
  construct _ _ := Done tt;
  run_task _ _ := Done code;
  request_text _ := Some (chars "q");
  read_request _ := Some (with_proxy default_node (sample_request name));
  launch := Done tt;
  server_config_ok := true;
  died := None
|}.

Definition sample_report_calls : report_calls := RC [rpc_ok] [rpc_late; rpc_ok] [rpc_lost; rpc_ok] [rpc_ok].

(** What happens when the caller is not overtaken. *)
Definition sample_run (name : string) (code : Z) (mode : TaskRunMode) : party_run :=
  let evs := executor_func (E := sample_env name code) mode sample_report_calls default_node (sample_request name) in
  PR (sample_env name code) mode sample_report_calls default_node 0%nat (sample_request name)
    (take 1 evs ++ EManage (TM (chars "r") (Some 0%nat) kAdd) :: drop 2 evs) (Some SUCCESS).

Lemma sample_run_ok name code mode : run_ok (sample_run name code mode).
Proof.
  split; [split; [by left|]; intros r' text [= <-] _; done| |by eexists|split; [by eexists|vm_compute; lia]].
  set (evs := executor_func (E := sample_env name code) mode sample_report_calls default_node (sample_request name)).
  assert (Hs : exists x post, evs = x :: EReady true :: post /\ ~ is_ready x) 
    by (exists (EReport default_node (TS (chars name) ST_RUNNING (chars "task is running"))), (drop 2 evs); split; [destruct mode, code; vm_compute; reflexivity|cbn; tauto]).
  unfold sample_run. fold evs. cbn [pr_env pr_mode pr_calls pr_proxy pr_ref pr_request pr_events pr_return].
  destruct Hs as (x & post & Ex & Hx). rewrite Ex. apply (exec_returns _ _ _ _ _ [x] true post).
  - exact Ex.
  - by constructor.
  - cbn [drop]. apply (interleave_step [post] [] []). rewrite <- (app_nil_r post) at 2. exact (interleave_seq [post; []]).
Qed.

(** The first party's reports come before the number of parties. *)
Lemma verdict_of_parties_witness :
  let ops name code mode := report_ops (pr_events (sample_run name code mode)) in
  exists got w, wrun ((OpFetch :: ops "A"%string 0 THREAD) ++ OpCount 2 :: ops "B"%string 0 PROCESS) ([], new_worker) = Ret (got, w) /\ waitUntilTaskFinish w = Some SUCCESS.
Proof.
  intros ops. set (runs := [sample_run "A" 0 THREAD; sample_run "B" 0 PROCESS]).
  destruct (verdict_of_parties runs 1 (OpFetch :: ops "A"%string 0 THREAD) (ops "B"%string 0 PROCESS)) as (got & w & E & H).
  - repeat constructor; apply sample_run_ok.
  - apply (bool_decide_unpack _). vm_compute. exact I.
  - assert (Hc := interleave_seq ([OpFetch] :: (report_ops ∘ pr_events <$> runs))). cbn [concat fmap list_fmap runs] in Hc. unfold compose in Hc at 2 3. rewrite app_nil_r in Hc. exact Hc.
  - exists got, w. split; [exact E|]. rewrite H. rewrite decide_True; [|repeat constructor; vm_compute; reflexivity]. rewrite decide_False; [done|]. vm_compute. discriminate.
Defined.

(** ** When the caller returns *)

Section Caller.
Context `{E : TaskEnv}.

(** The promise is kept: the task could be looked up and made, or the process
    started. *)
Definition starts (mode : TaskRunMode) (r : ExecRequest) : Prop :=
  match ExecuteMode (pt_params (rq_task r)) mode with
  | THREAD => match TaskFactory_kind (rq_task r) with Some k => construct k r = Done tt | None => True end
  | PROCESS => exists r', detailed_request r = Done r' /\ is_Some (request_text r') /\ launch = Done tt
  end.

Lemma reports_no_ready l : Forall (fun e => ~ is_ready e) (report_events l).
Proof. unfold report_events. apply Forall_fmap, Forall_forall. by intros x _ H. Qed.

Lemma execute_ready mode calls r :
  (starts mode r /\ exists b post, (worker_execute mode calls r).1 = EReady b :: report_events post) \/
  (~ starts mode r /\ (worker_execute mode calls r).1 = [] /\ verdict (worker_execute mode calls r).2 = FAIL).
Proof.
  unfold starts, worker_execute. destruct (ExecuteMode _ _).
  - unfold ExecuteTaskByThread. destruct (TaskFactory_kind _) as [k|]; [|left; split; [done|by exists false, []]].
    destruct (construct k r) as [[]|w]; [left; split; [done|by exists true, []]|right; split_and!; done].
  - unfold ExecuteTaskByProcess. destruct (detailed_request r) as [r'|w]; [|right; split_and!; [by intros (? & [=] & _)|done..]].
    destruct (request_text r') as [text|] eqn:Et; [|right; split_and!; [intros (? & [= <-] & [? [=]] & _); congruence|done..]].
    destruct launch as [[]|w]; [|right; split_and!; [by intros (? & _ & _ & [=])|done..]].
    destruct (process_run calls text) as [code l]. left. split; [exists r'; by rewrite Et|]. by exists true, l.
Qed.

(** The caller of [ExecuteTask] gets an answer exactly when the promise is kept; a
    request that cannot be read for its data sets, written out or started leaves it
    waiting for ever, after the failure was reported. *)
Lemma caller_returns mode c proxy w r : (exists l ret, NodeExecuteTask mode c proxy w r l (Some ret)) <-> starts mode (with_proxy proxy r).
Proof.
  assert (Hx := execute_ready mode (rc_child c) (with_proxy proxy r)).
  assert (He : executor_func mode c proxy r = report_events (NotifyTaskStatus (rc_running c) (with_proxy proxy r) ST_RUNNING (chars "task is running")).2 ++
    (worker_execute mode (rc_child c) (with_proxy proxy r)).1 ++
    (report_events (NotifyTaskStatus (rc_final c) (with_proxy proxy r) (final_status (worker_execute mode (rc_child c) (with_proxy proxy r)).2).1
      (final_status (worker_execute mode (rc_child c) (with_proxy proxy r)).2).2).2 ++
    (if rq_manual_launch r then [] else [ECache (final_status (worker_execute mode (rc_child c) (with_proxy proxy r)).2).1; EManage (TM (rq_request_id r) None kDel)]))).
  { unfold executor_func. destruct (worker_execute mode (rc_child c) (with_proxy proxy r)) as [evs o]. cbn [fst snd]. by destruct (final_status o). }
  split.
  - intros (l & ret & H). destruct Hx as [[Hs _]|(_ & Hx & _)]; [done|]. exfalso. inversion H as [|pre ready post l' Hp Hn Hi]; subst.
    assert (Hf : Forall (fun e => ~ is_ready e) (executor_func mode c proxy r)).
    { rewrite He, Hx. apply Forall_app. split; [apply reports_no_ready|]. cbn [app]. apply Forall_app. split; [apply reports_no_ready|].
      destruct (rq_manual_launch r); repeat constructor; by intros []. }
    rewrite Hp in Hf. apply Forall_app in Hf as [_ Hf]. apply Forall_cons in Hf as [Hf _]. by apply Hf.
  - intros Hs. destruct Hx as [[_ (b & post & Hx)]|[Hn _]]; [|done]. rewrite Hx in He. cbn [app] in He.
    eexists _, _. eapply exec_returns; [exact He|apply reports_no_ready|apply interleave_seq].
Qed.

(** ** The two queue entries *)

Definition manage_ops (l : list event) : list task_manage := omap (fun e => match e with EManage t => Some t | _ => None end) l.

Lemma manage_ops_reports l : manage_ops (report_events l) = [].
Proof. induction l as [|x l IH]; [done|exact IH]. Qed.

Lemma executor_manage mode c proxy r : rq_manual_launch r = false ->
  exists evs, executor_func mode c proxy r = evs ++ [EManage (TM (rq_request_id r) None kDel)] /\ manage_ops evs = [].
Proof.
  intros Hm. unfold executor_func. assert (Hx := execute_ready mode (rc_child c) (with_proxy proxy r)).
  destruct (worker_execute mode (rc_child c) (with_proxy proxy r)) as [evs o]. cbn [fst snd] in Hx. destruct (final_status o) as [st msg].
  change (rq_manual_launch (with_proxy proxy r)) with (rq_manual_launch r). rewrite Hm.
  assert (Hev : manage_ops evs = []) by (destruct Hx as [[_ (b & post & ->)]|(_ & -> & _)]; [apply (manage_ops_reports post)|done]).
  exists (report_events (NotifyTaskStatus (rc_running c) (with_proxy proxy r) ST_RUNNING (chars "task is running")).2 ++ evs ++
    report_events (NotifyTaskStatus (rc_final c) (with_proxy proxy r) st msg).2 ++ [ECache st]).
  split; [by rewrite <- !app_assoc|]. unfold manage_ops in *. rewrite !omap_app, Hev. by rewrite !manage_ops_reports.
Qed.

(** The entries of a task that was started: the caller adds the worker, the executor
    deletes it.  In this order the worker is let go; in the other one, which nothing
    prevents, it is kept for ever. *)
Lemma worker_released mode c proxy w r l e : NodeExecuteTask mode c proxy w r l (Some SUCCESS) -> rq_manual_launch r = false ->
  task_executor_map_ e !! rq_request_id r = None ->
  let add := TM (rq_request_id r) (Some w) kAdd in let del := TM (rq_request_id r) None kDel in
  (manage_ops l = [add; del] /\ task_executor_map_ (manage_all (manage_ops l) e) !! rq_request_id r = None) \/
  (manage_ops l = [del; add] /\ task_executor_map_ (manage_all (manage_ops l) e) !! rq_request_id r = Some [Some w]).
Proof.
  intros H Hm He add del. destruct (executor_manage mode c proxy r Hm) as (evs & Ex & Hev).
  inversion H as [|pre ready post l' Hp Hn Hi Hl Hr]; subst. destruct ready; [|done].
  assert (Hq : manage_ops pre = [] /\ manage_ops post = [del]).
  { rewrite Ex in Hp. destruct (rev_ind (fun post => post = [] \/ exists k x, post = k ++ [x]) (or_introl eq_refl) (fun x k _ => or_intror (ex_intro _ k (ex_intro _ x eq_refl))) post)
      as [->|(k & x & ->)].
    - apply app_inj_tail in Hp as [_ [=]].
    - rewrite app_comm_cons, app_assoc in Hp. apply app_inj_tail in Hp as [Hp1 Hp2]. subst evs x. unfold manage_ops in *. rewrite omap_app in Hev |- *.
      apply app_eq_nil in Hev as [-> Hk]. cbn in Hk. by rewrite Hk. }
  destruct Hq as [Hq1 Hq2]. apply interleave_perm in Hi. cbn [concat handler] in Hi.
  assert (Hperm : manage_ops l' ≡ₚ [del; add]).
  { unfold manage_ops. rewrite Hi, omap_app. fold (manage_ops post). by rewrite Hq2. }
  assert (Hl : manage_ops (pre ++ l') = manage_ops l') by (unfold manage_ops in *; by rewrite omap_app, Hq1). rewrite Hl.
  symmetry in Hperm. apply Permutation_length_2_inv in Hperm as [-> | ->]; [right|left]; (split; [done|]); unfold manage_all, manage_one, add, del; cbn [fold_left tm_op].
  - unfold ExecuteDelTaskOperation at 1. cbn [tm_id]. rewrite He. unfold ExecuteAddTaskOperation. cbn [tm_id]. rewrite He. apply lookup_insert_eq.
  - unfold ExecuteAddTaskOperation at 1. cbn [tm_id tm_worker]. rewrite He. unfold ExecuteDelTaskOperation. cbn [tm_id task_executor_map_]. rewrite lookup_insert_eq.
    cbn [task_executor_map_]. apply lookup_delete_eq.
Qed.
(** The events of a task that is not started: the first and the last report. *)
Lemma stuck_events mode c proxy r : ~ starts mode (with_proxy proxy r) -> exists msg,
  executor_func mode c proxy r = report_events (NotifyTaskStatus (rc_running c) (with_proxy proxy r) ST_RUNNING (chars "task is running")).2 ++
    report_events (NotifyTaskStatus (rc_final c) (with_proxy proxy r) ST_FAIL msg).2 ++
    (if rq_manual_launch r then [] else [ECache ST_FAIL; EManage (TM (rq_request_id r) None kDel)]).
Proof.
  intros Hs. destruct (execute_ready mode (rc_child c) (with_proxy proxy r)) as [[Hn _]|(_ & Hx & Hv)]; [done|]. unfold executor_func.
  destruct (worker_execute mode (rc_child c) (with_proxy proxy r)) as [evs o]. cbn [fst snd] in Hx, Hv. subst evs. exists (final_status o).2.
  by destruct o as [[]|e].
Qed.

(** A task type that is not known is refused in the thread mode. *)
Lemma unknown_type_refused mode c proxy w r l ret : ExecuteMode (pt_params (rq_task r)) mode = THREAD -> TaskFactory_kind (rq_task r) = None ->
  NodeExecuteTask mode c proxy w r l ret -> ret = Some FAIL.
Proof.
  intros Hm Hk H. assert (Hx : exists rest, executor_func mode c proxy r =
    report_events (NotifyTaskStatus (rc_running c) (with_proxy proxy r) ST_RUNNING (chars "task is running")).2 ++ EReady false :: rest /\ EReady true ∉ rest).
  { unfold executor_func, worker_execute, ExecuteTaskByThread. change (pt_params (rq_task (with_proxy proxy r))) with (pt_params (rq_task r)). rewrite Hm.
    change (TaskFactory_kind (rq_task (with_proxy proxy r))) with (TaskFactory_kind (rq_task r)). rewrite Hk. cbn [final_status].
    eexists. split; [reflexivity|]. rewrite elem_of_app. intros [Ht|Ht]; [by apply reports_not_ready in Ht|].
    destruct (rq_manual_launch _); [by apply not_elem_of_nil in Ht|]. apply elem_of_cons in Ht as [[=]|Ht]. by apply list_elem_of_singleton in Ht as [=]. }
  destruct Hx as (rest & Hx & Hr). destruct H as [Hn|pre ready post l Hp Hn Hi].
  - rewrite Hx in Hn. apply Forall_app in Hn as [_ Hn]. apply Forall_cons in Hn as [Hn _]. by destruct Hn.
  - destruct ready; [|done]. exfalso. assert (Hin : EReady true ∈ executor_func mode c proxy r) by (rewrite Hp, elem_of_app, elem_of_cons; auto).
    rewrite Hx, elem_of_app, elem_of_cons in Hin. destruct Hin as [Hin|[[=]|Hin]]; [by apply reports_not_ready in Hin|done].
Qed.
End Caller.

(** A task that ends before its caller goes on: its worker stays. *)
Lemma late_add_leaks :
  let r := sample_request "A" in
  exists l, NodeExecuteTask (E := sample_env "A" 0) PROCESS sample_report_calls default_node 7%nat r l (Some SUCCESS) /\
    task_executor_map_ (manage_all (manage_ops l) (Ex ∅ [] [])) !! rq_request_id r = Some [Some 7%nat].
Proof.
  intros r. eexists. split; [|shelve]. apply (exec_returns _ _ _ _ _ [EReport default_node (TS (chars "A") ST_RUNNING (chars "task is running"))] true
    (drop 2 (executor_func (E := sample_env "A" 0) PROCESS sample_report_calls default_node r))); [vm_compute; reflexivity|by repeat constructor; cbn; tauto|apply interleave_seq].
  Unshelve. vm_compute. reflexivity.
Qed.

(** C38: errors before the start.  When the data sets of a request cannot be looked up,
    the request cannot be written out, the process cannot be launched or the task's
    constructor throws, the promise the caller waits for is never set: the call that
    delivered the task never returns and no worker is recorded for it.  What the
    scheduler is told is that the task runs and that it failed, never a success, and
    the failure is among the reports when the scheduler is known and the last report
    gets through.  In all other cases the call returns; a task of a type that is not
    known, run in a thread, is refused with [FAIL]. *)
Theorem failed_start_blocks_caller `{E : TaskEnv} mode c proxy w r :
  ((exists l ret, NodeExecuteTask mode c proxy w r l (Some ret)) <-> starts mode (with_proxy proxy r)) /\
  (~ starts mode (with_proxy proxy r) -> forall l ret, NodeExecuteTask mode c proxy w r l ret ->
    ret = None /\ Forall (fun t => tm_op t = kDel) (manage_ops l) /\
    Forall (fun e => match e with EReport _ st => ts_status st = ST_RUNNING \/ ts_status st = ST_FAIL | _ => True end) l /\
    (is_Some (GetSchedulerNode (rq_task r)) -> delivered (rc_final c) -> exists dest msg, EReport dest (TS (pt_party_name (rq_task r)) ST_FAIL msg) ∈ l)) /\
  (ExecuteMode (pt_params (rq_task r)) mode = THREAD -> TaskFactory_kind (rq_task r) = None -> forall l ret, NodeExecuteTask mode c proxy w r l ret -> ret = Some FAIL).
Proof.
  split_and!; [apply caller_returns| |intros Hm Hk l ret; by apply unknown_type_refused]. intros Hs l ret H.
  assert (Hr : ret = None) by (destruct ret as [x|]; [|done]; exfalso; apply Hs, (caller_returns mode c proxy w r); by exists l, x). subst ret. split; [done|].
  inversion H as [Hn Hl|]; subst. destruct (stuck_events mode c proxy r Hs) as [msg Hx]. rewrite Hx. split_and!.
  - unfold manage_ops. rewrite !omap_app. fold (manage_ops (report_events (NotifyTaskStatus (rc_running c) (with_proxy proxy r) ST_RUNNING (chars "task is running")).2)).
    fold (manage_ops (report_events (NotifyTaskStatus (rc_final c) (with_proxy proxy r) ST_FAIL msg).2)). rewrite !manage_ops_reports.
    destruct (rq_manual_launch r); by repeat constructor.
  - assert (Ha : forall st m calls, st = ST_RUNNING \/ st = ST_FAIL -> Forall (report_agrees (pt_party_name (rq_task r)) FAIL) (report_events (NotifyTaskStatus calls (with_proxy proxy r) st m).2)).
    { intros st m calls Hst. apply notify_agrees; [done|]. split; [done|]. exact Hst. }
    assert (Hall : Forall (report_agrees (pt_party_name (rq_task r)) FAIL) (executor_func mode c proxy r)).
    { rewrite Hx. apply Forall_app. split; [by apply Ha; left|]. apply Forall_app. split; [by apply Ha; right|]. destruct (rq_manual_launch r); by repeat constructor. }
    rewrite Hx in Hall. eapply Forall_impl; [exact Hall|]. intros [dest st|b|st|t]; [|done..]. by intros [_ Hst].
  - intros Hsch Hd. destruct (notify_delivered (pt_party_name (rq_task r)) (rc_final c) (with_proxy proxy r) ST_FAIL msg eq_refl (with_proxy_scheduler proxy r Hsch) Hd) as [dest Hin].
    exists dest, msg. rewrite !elem_of_app. by right; left.
Qed.

(** An installation without the program of the task process. *)
Definition no_program_env : TaskEnv := {|
  access_text _ := Done None;
  construct _ _ := Done tt;
  run_task _ _ := Done 0;
  request_text _ := Some (chars "q");
  read_request _ := None;
  launch := Raised (chars "File not found");
  server_config_ok := true;
  died := None
|}.

Definition sample_stuck : list event := executor_func (E := no_program_env) PROCESS sample_report_calls default_node (sample_request "A").

Lemma failed_start_blocks_caller_witness :
  NodeExecuteTask (E := no_program_env) PROCESS sample_report_calls default_node 0%nat (sample_request "A") sample_stuck None /\
  Forall (fun t => tm_op t = kDel) (manage_ops sample_stuck) /\ exists dest msg, EReport dest (TS (chars "A") ST_FAIL msg) ∈ sample_stuck.
Proof.
  assert (H : NodeExecuteTask (E := no_program_env) PROCESS sample_report_calls default_node 0%nat (sample_request "A") sample_stuck None).
  { apply exec_stuck. vm_compute. repeat constructor; tauto. }
  split; [exact H|].
  destruct (proj1 (proj2 (failed_start_blocks_caller (E := no_program_env) PROCESS sample_report_calls default_node 0%nat (sample_request "A")))) with (l := sample_stuck) (ret := @None retcode)
    as (_ & Hdel & _ & Hfail).
  - vm_compute. by intros (r' & _ & _ & [=]).
  - exact H.
  - split; [exact Hdel|]. apply Hfail; [by eexists|split; [by eexists|vm_compute; lia]].
Defined.

(** ** The scheduler's cleaning thread *)

(** The two collections hold reported tasks only, and the due ones are overdue. *)
Definition clean_inv (pops : list (str * Z)) (now : Z) (finished : gmap str Z) (timeouted : gset str) : Prop :=
  (forall id t, finished !! id = Some t -> (id, t) ∈ pops) /\
  (forall id, id ∈ timeouted -> exists t, (id, t) ∈ pops /\ now - t > SCHEDULE_WORKER_TIMEOUT_S).

Lemma note_finished_inv pops last id now finished timeouted : clean_inv pops last finished timeouted -> last <= now ->
  clean_inv (pops ++ [(id, now)]) now (note_finished id now finished timeouted).1 (note_finished id now finished timeouted).2.
Proof.
  intros [H1 H2] Hn. unfold note_finished. cbn [fst snd]. assert (Hi : forall i t, <[id := now]> finished !! i = Some t -> (i, t) ∈ pops ++ [(id, now)]).
  { intros i t [[<- <-]|[_ H]]%lookup_insert_Some; rewrite elem_of_app; [right; by apply elem_of_cons; left|left; by apply H1]. }
  split.
  - intros i t [H _]%map_lookup_filter_Some. by apply Hi.
  - intros i [Hd|Ht]%elem_of_union.
    + apply elem_of_dom in Hd as [t Hd]. apply map_lookup_filter_Some in Hd as [H Ho]. exists t. split; [by apply Hi|done].
    + destruct (H2 i Ht) as (t & Hin & Ho). exists t. split; [rewrite elem_of_app; by left|lia].
Qed.

(** The clock does not go back. *)
Fixpoint times_ok (last : Z) (pops : list (str * Z)) : Prop :=
  match pops with [] => True | (_, now) :: pops => last <= now /\ times_ok now pops end.

(** A scheduler's entry is dropped only when its task was reported finished and more
    than twenty seconds have passed since. *)
Lemma clean_only_finished pops seen last finished timeouted m finished' timeouted' m' id : clean_inv seen last finished timeouted -> times_ok last pops ->
  clean_schedulers pops finished timeouted m = (finished', timeouted', m') -> is_Some (m !! id) -> m' !! id = None ->
  exists t now, (id, t) ∈ seen ++ pops /\ now ∈ pops.*2 /\ now - t > SCHEDULE_WORKER_TIMEOUT_S.
Proof.
  revert seen last finished timeouted m. induction pops as [|[i now] pops IH]; intros seen last fin tos m Hinv Ht Hc Hm Hm'; cbn [clean_schedulers] in Hc.
  { injection Hc as _ _ <-. by rewrite Hm' in Hm; destruct Hm. }
  destruct Ht as [Hl Ht]. assert (Hinv' := note_finished_inv seen last i now fin tos Hinv Hl). destruct (note_finished i now fin tos) as [fin1 tos1]. cbn [fst snd] in Hinv'.
  assert (Hrest : (exists t n', (id, t) ∈ (seen ++ [(i, now)]) ++ pops /\ n' ∈ pops.*2 /\ n' - t > SCHEDULE_WORKER_TIMEOUT_S) ->
    exists t n', (id, t) ∈ seen ++ (i, now) :: pops /\ n' ∈ ((i, now) :: pops).*2 /\ n' - t > SCHEDULE_WORKER_TIMEOUT_S).
  { intros (t & n' & H1 & H2 & H3). exists t, n'. rewrite <- app_assoc in H1. split; [exact H1|]. split; [|done]. rewrite fmap_cons. apply elem_of_cons. by right. }
  destruct (decide (100 < size tos1)%nat).
  - destruct (decide (id ∈ tos1)) as [Hin|Hin].
    + destruct Hinv' as [_ H2]. destruct (H2 id Hin) as (t & Hs & Ho). exists t, now. split; [|split; [rewrite fmap_cons; apply elem_of_cons; by left|done]].
      apply elem_of_app in Hs as [Hs|Hs]; rewrite elem_of_app; [by left|right]. apply list_elem_of_singleton in Hs. rewrite Hs. apply elem_of_cons. by left.
    + apply Hrest. apply (IH _ now fin1 ∅ (filter (fun p : str * wref => p.1 ∉ tos1) m)); [|done|done| |done].
      * destruct Hinv' as [H1 _]. split; [exact H1|]. intros x Hx. by apply elem_of_empty in Hx.
      * destruct Hm as [w Hw]. exists w. by apply map_lookup_filter_Some.
  - apply Hrest. by apply (IH _ now fin1 tos1 m).
Qed.

(** Fewer than a hundred due tasks stay where they are, however long ago they
    finished. *)
Lemma few_schedulers_kept pops finished timeouted m : (size (timeouted ∪ dom finished ∪ list_to_set pops.*1) <= 100)%nat ->
  (clean_schedulers pops finished timeouted m).2 = m.
Proof.
  revert finished timeouted. induction pops as [|[i now] pops IH]; intros fin tos Hs; [done|]. cbn [clean_schedulers].
  destruct (note_finished i now fin tos) as [fin1 tos1] eqn:E. unfold note_finished in E. injection E as E1 E2.
  assert (Hd1 : dom fin1 ⊆ {[i]} ∪ dom fin) by (subst fin1; etransitivity; [apply dom_filter_subseteq|]; by rewrite dom_insert_L).
  assert (Hd2 : tos1 ⊆ {[i]} ∪ dom fin ∪ tos).
  { subst tos1. apply union_mono_r. etransitivity; [apply dom_filter_subseteq|]. by rewrite dom_insert_L. }
  assert (Hsub : tos1 ∪ dom fin1 ∪ list_to_set pops.*1 ⊆ tos ∪ dom fin ∪ list_to_set ((i, now) :: pops).*1) by (cbn; set_solver).
  apply subseteq_size in Hsub. rewrite decide_False; [apply IH; lia|].
  assert (Ht : tos1 ⊆ tos1 ∪ dom fin1 ∪ list_to_set pops.*1) by set_solver. apply subseteq_size in Ht. lia.
Qed.
