(* ===== verification/PirOperator.v ===== *)
(** * The keyword PIR operator

    Models [kernel/pir/operator]: the options, the factory, the client
    ([keyword_pir_impl/keyword_pir_client.cc]) and the server
    ([keyword_pir_server.cc]).  The two are programs of messages over mailboxes
    that are named by a node and a key.  What the code takes from APSI, SEAL and
    the OPRF is the class [ApsiLib]; what it relies on is the class [ApsiLaws]. *)

From Stdlib Require Import Ascii String ZArith Lia.
From stdpp Require Import base tactics list option strings countable gmap.
From S2P Require Import Prelude ModArith Machine StrUtil Common Wire PsiNet CsvFile.

Local Open Scope Z_scope.

(** ** Options and operators *)

(** [PirDataType], an [unordered_map]. *)
Abbreviation PirDataType := (gmap str (list str)).

(** A mailbox: [LinkContext] keeps one queue per key, a node one link per task. *)
Abbreviation slot := (Node * str)%type.

Inductive Role := RoleClient | RoleServer.
#[export] Instance Role_eq_dec : EqDecision Role.
Proof. solve_decision. Defined.

(** [Options]; [role] has no initial value. *)
Record PirOptions : Type := PO {
  po_party_info : gmap str Node;
  po_self_party : str;
  role : option Role;
  use_cache : bool;
  generate_db : bool;
  db_path : str;
  peer_node : Node;
  po_proxy_node : Node
}.

Definition new_options : PirOptions := PO ∅ [] None false false [] default_node default_node.

(** [PirType]. *)
Definition ID_PIR : Z := 0.
Definition KEY_PIR : Z := 1.

Inductive pir_operator := KeywordPirOperatorClient | KeywordPirOperatorServer.

(** [Factory::Create]: reading a role that was never set is undefined. *)
Definition pir_Create (pir_type : Z) (o : PirOptions) : res (option pir_operator) :=
  if pir_type =? ID_PIR then Ret None
  else if pir_type =? KEY_PIR then
    r ← or_undef (role o);
    Ret (Some (match r with RoleClient => KeywordPirOperatorClient | RoleServer => KeywordPirOperatorServer end))
  else Ret None.

Definition key_ : str := chars "pir_key".
Definition response_key_ : str := chars "response_pir_key".
Definition key_task_end_ : str := chars "pir_task_end".
Definition PackageCountKey (request_id : str) : str := chars "pack_count".

(** ** The libraries *)

(** A node of the graph of powers: a power the query brings, or a product of two. *)
Record PowersNode : Type := PN { power : nat; parents : option (nat * nat) }.

Record MatchRecord : Type := MR { found : bool; label : option str }.

Record package (C M : Type) : Type := Pkg {
  rp_compr : M; rp_bundle_idx : nat; rp_nonce_byte_count : Z; rp_label_byte_count : Z; psi_result : C; label_result : list C
}.
Arguments Pkg {C M} _ _ _ _ _ _.
Arguments rp_bundle_idx {C M} _.
Arguments psi_result {C M} _.
Arguments label_result {C M} _.

(** What [Receiver], [SenderDB], [OPRFSender], [PSIParams], [PowersDag] and SEAL's
    [Evaluator] do; [Throw] is an exception of theirs. *)
Class ApsiLib := {
  rng : Type;
  psi_params : Type;
  params_of_json : str -> res psi_params;
  params_save : psi_params -> str;
  params_load : str -> res psi_params;
  bundle_idx_count : psi_params -> nat;
  max_items_per_bin : psi_params -> nat;
  ps_low_degree : psi_params -> nat;
  query_powers : psi_params -> list nat;
  oprf_key : Type;
  new_oprf_key : rng -> oprf_key;
  hashed_item : Type;
  label_key : Type;
  oprf_receiver : Type;
  CreateOPRFReceiver : rng -> list str -> oprf_receiver;
  query_data : oprf_receiver -> str;
  ProcessQueries : str -> oprf_key -> res str;
  process_responses : oprf_receiver -> str -> res (list hashed_item * list label_key);
  sender_db : Type;
  new_sender_db : rng -> psi_params -> nat -> nat -> bool -> res sender_db;
  set_data : list (str * str) -> sender_db -> res sender_db;
  get_oprf_key : sender_db -> oprf_key;
  get_params : sender_db -> psi_params;
  get_bin_bundle_count : sender_db -> Z;
  get_nonce_byte_count : sender_db -> Z;
  get_label_byte_count : sender_db -> Z;
  db_save : sender_db -> str;
  db_load : str -> res sender_db;
  using_keyswitching : sender_db -> bool;
  bin_cache : Type;
  get_cache_at : sender_db -> nat -> list bin_cache;
  polyn : Type;
  batched_matching_polyn : bin_cache -> polyn;
  batched_interp_polyns : bin_cache -> list polyn;
  coeff_count : polyn -> Z;
  seal_object : Type;
  ciphertext : Type;
  empty_ciphertext : ciphertext;
  extract : sender_db -> seal_object -> ciphertext;
  is_valid_for : sender_db -> ciphertext -> bool;
  relin_keys : Type;
  empty_relin_keys : relin_keys;
  square : ciphertext -> res ciphertext;
  multiply : ciphertext -> ciphertext -> res ciphertext;
  relinearize : relin_keys -> ciphertext -> res ciphertext;
  mod_switch_to : nat -> ciphertext -> res ciphertext;
  transform_to_ntt : ciphertext -> res ciphertext;
  create_powers_set : nat -> nat -> list nat;
  configure : list nat -> list nat -> list PowersNode;
  eval_powers : polyn -> list ciphertext -> res seal_object;
  eval_patstock : polyn -> list ciphertext -> nat -> res seal_object;
  compr_mode : Type;
  package_save : package seal_object compr_mode -> str;
  package_load : psi_params -> str -> res (package seal_object compr_mode);
  pir_query : Type;
  itt : Type;
  create_query : rng -> psi_params -> list hashed_item -> res (pir_query * itt);
  query_save : pir_query -> str;
  query_load : sender_db -> str -> res pir_query;
  query_compr : pir_query -> compr_mode;
  query_cts : pir_query -> list (nat * list seal_object);
  process_result : psi_params -> list label_key -> itt -> list (package seal_object compr_mode) -> res (list MatchRecord)
}.

Abbreviation ResultPackage := (package seal_object compr_mode).

(** What a party ends with: the code, the result map and the files. *)
Abbreviation outcome := (retcode * (PirDataType * gmap str str))%type.

(** The memory image of a [uint32_t] on the little-endian machines the node runs on. *)
Definition le_bytes32 (z : Z) : str := reverse (be_bytes 4 z).
Definition of_le_bytes32 (s : str) : Z := of_be_bytes (reverse s).

Definition uint32 (z : Z) : Z := z mod 2 ^ 32.
(** [seal::util::safe_cast<uint32_t>]. *)
Definition safe_cast32 (z : Z) : res Z := if (0 <=? z) && (z <? 2 ^ 32) then Ret z else Throw.

Section Operator.
Context `{ApsiLib} (stop_ : bool) (o : PirOptions).
(** The order in which an [unordered_map] is walked. *)
Context (iter : PirDataType -> list (str * list str)).

(** ** The client *)

Definition peer_slot (key : str) : slot := (peer_node o, key).
Definition proxy_slot (key : str) : slot := (po_proxy_node o, key).

(** [RequestType::PsiParam] is 0. *)
Definition psi_param_request : str := [byte_of 0].

(** [RequestPSIParams]: the code of the receive is not looked at. *)
Definition RequestPSIParams : act_at slot (retcode * option psi_params) :=
  if stop_ then lift (Ret (FAIL, None))
  else
    ret ← link_send (peer_slot key_) psi_param_request;
    if decide (ret <> SUCCESS) then lift (Ret (ret, None))
    else
      '(_, response) ← link_recv (peer_slot response_key_);
      p ← lift (params_load response);
      lift (Ret (SUCCESS, Some p)).

(** [RequestOprf]. *)
Definition RequestOprf (sd : rng) (items : list str) : act_at slot (retcode * (list hashed_item * list label_key)) :=
  if stop_ then lift (Ret (FAIL, ([], [])))
  else
    let receiver := CreateOPRFReceiver sd items in
    ret ← link_send (peer_slot key_) (query_data receiver);
    if decide (ret <> SUCCESS) then lift (Ret (ret, ([], [])))
    else
      '(ret, response) ← link_recv (peer_slot response_key_);
      if bool_decide (ret <> SUCCESS) || bool_decide (response = []) then lift (Ret (FAIL, ([], [])))
      else r ← lift (process_responses receiver response); lift (Ret (SUCCESS, r)).

(** [ExtractResult] from position [i] on: a record that is not there is read past
    the end of the vector. *)
Fixpoint extract_from (items : list str) (intersection : list MatchRecord) (result : PirDataType) : res PirDataType :=
  match items, intersection with
  | [], _ => Ret result
  | _ :: _, [] => Undef
  | key :: items, r :: intersection =>
      extract_from items intersection
        (if found r then
           match label r with
           | Some text => <[key := default [] (result !! key) ++ str_split text DATA_RECORD_SEP]> result
           | None => result
           end
         else result)
  end.

Definition ExtractResult (items : list str) (intersection : list MatchRecord) (result : PirDataType) : res (retcode * PirDataType) :=
  if stop_ then Ret (FAIL, result) else r ← extract_from items intersection result; Ret (SUCCESS, r).

(** The loop that receives the packages. *)
Fixpoint recv_packages (p : psi_params) (n : nat) (acc : list ResultPackage) : act_at slot (retcode * list ResultPackage) :=
  match n with
  | O => lift (Ret (SUCCESS, acc))
  | S n =>
      '(ret, data) ← link_recv (peer_slot response_key_);
      if decide (ret <> SUCCESS) then lift (Ret (FAIL, acc))
      else pk ← lift (package_load p data); recv_packages p n (acc ++ [pk])
  end.

(** [Recv] into a [uint32_t]. *)
Definition recv_count : act_at slot (retcode * Z) :=
  '(ret, data) ← link_recv (peer_slot (PackageCountKey []));
  lift (Ret (if bool_decide (ret <> SUCCESS) || bool_decide (length data <> 4)%nat then (FAIL, 0) else (SUCCESS, of_le_bytes32 data))).

(** [KeywordPirOperatorClient::OnExecute]. *)
Definition ClientOnExecute (sd : rng) (input result : PirDataType) (fs : gmap str str) : act_at slot outcome :=
  let stop_with := lift (Ret (FAIL, (result, fs))) in
  '(ret, p) ← RequestPSIParams;
  if decide (ret <> SUCCESS) then stop_with
  else
    p ← lift (or_undef p);
    let orig_item := (iter input).*1 in
    '(ret, (oprf_items, label_keys)) ← RequestOprf sd orig_item;
    if decide (ret <> SUCCESS) then stop_with
    else if stop_ then stop_with
    else
      '(q, table) ← lift (create_query sd p oprf_items);
      ret ← link_send (peer_slot key_) (query_save q);
      if decide (ret <> SUCCESS) then stop_with
      else
        '(ret, count) ← recv_count;
        if decide (ret <> SUCCESS) then stop_with
        else
          '(ret, packages) ← recv_packages p (Z.to_nat count) [];
          if decide (ret <> SUCCESS) then stop_with
          else
            query_result ← lift (process_result p label_keys table packages);
            '(_, result) ← lift (ExtractResult orig_item query_result result);
            ret ← link_send (peer_slot key_task_end_) (chars "SUCCESS");
            if decide (ret <> SUCCESS) then lift (Ret (FAIL, (result, fs)))
            else lift (Ret (SUCCESS, (result, fs))).
(** ** The server *)

(** The label of one key: the rows with the separator between them; an empty vector
    makes [size() - 1] wrap around. *)
Definition db_label (labels : list str) : res str :=
  last_label ← or_undef (last labels);
  Ret (concat ((fun l => l ++ DATA_RECORD_SEP) <$> take (length labels - 1) labels) ++ last_label).

(** [CreateDb]. *)
Definition CreateDb (input : PirDataType) : res (list (str * str)) :=
  mapM (fun e => l ← db_label e.2; Ret (e.1, l)) (iter input).

(** [CreateSenderDb]: the longest label gives the label size; an exception of the
    library gives a null pointer.  [max_element] of nothing is dereferenced. *)
Definition CreateSenderDb (sd : rng) (p : psi_params) (data : list (str * str)) : res (option sender_db) :=
  if stop_ then Ret None
  else if decide (data = []) then Undef
  else
    let label_byte_count := max_list (length <$> data.*2) in
    match (db ← new_sender_db sd p label_byte_count 16 false; set_data data db) with
    | Ret db => Ret (Some db)
    | Throw => Ret None
    | Undef => Undef
    end.

Definition config_path : str := chars "config/pir_server_config.json".

(** The lines of the file, each ended by a newline. *)
Definition config_text (s : str) : str :=
  if decide (s = []) then [] else if decide (last s = Some newline) then s else s ++ [newline].

(** [SetPsiParams]. *)
Definition SetPsiParams (fs : gmap str str) : res (option (psi_params * str)) :=
  if stop_ then Ret None
  else match fs !! config_path with
       | None => Ret None
       | Some text => p ← params_of_json (config_text text); Ret (Some (p, params_save p))
       end.

(** [ProcessPSIParams] and [ProcessOprf]: an empty request would be reported with
    the code of the receive. *)
Definition ProcessPSIParams (psi_params_str : str) : act_at slot retcode :=
  if stop_ then lift (Ret FAIL)
  else
    '(ret, _) ← link_recv (proxy_slot key_);
    if decide (ret <> SUCCESS) then lift (Ret FAIL)
    else
      ret ← link_send (proxy_slot response_key_) psi_params_str;
      lift (Ret (if decide (ret <> SUCCESS) then FAIL else SUCCESS)).

Definition ProcessOprf (key : oprf_key) : act_at slot retcode :=
  if stop_ then lift (Ret FAIL)
  else
    '(ret, req) ← link_recv (proxy_slot key_);
    if bool_decide (ret <> SUCCESS) || bool_decide (req = []) then lift (Ret ret)
    else
      response ← lift (ProcessQueries req key);
      link_send (proxy_slot response_key_) response.

(** The ciphertexts of the query, by exponent; [None] when one is not valid. *)
Definition extract_cts (db : sender_db) (q : pir_query) : option (list (nat * list ciphertext)) :=
  mapM (fun e => cts ← mapM (fun c => let c := extract db c in if is_valid_for db c then Some c else None) e.2; Some (e.1, cts)) (query_cts q).

(** Writing a slot of a vector. *)
Definition set_slot {A} (i : nat) (a : A) (l : list A) : res (list A) :=
  if decide (i < length l)%nat then Ret (<[i := a]> l) else Undef.

Abbreviation CiphertextPowers := (list ciphertext).

Definition initial_powers (p : psi_params) : list CiphertextPowers :=
  replicate (bundle_idx_count p) (replicate (S (max_items_per_bin p)) empty_ciphertext).

(** The powers the query brings, for one bundle index. *)
Fixpoint load_powers (cts : list (nat * list ciphertext)) (b : nat) (powers : CiphertextPowers) : res CiphertextPowers :=
  match cts with
  | [] => Ret powers
  | (exponent, v) :: cts => c ← or_undef (v !! b); powers ← set_slot exponent c powers; load_powers cts b powers
  end.

(** The function [parallel_apply] runs on every node, parents first. *)
Definition apply_node (relin : bool) (keys : relin_keys) (n : PowersNode) (powers : CiphertextPowers) : res CiphertextPowers :=
  match parents n with
  | None => Ret powers
  | Some (a, b) =>
      x ← or_undef (powers !! a);
      prod ← (if decide (a = b) then square x else y ← or_undef (powers !! b); multiply x y);
      prod ← (if relin then relinearize keys prod else Ret prod);
      set_slot (power n) prod powers
  end.

Fixpoint apply_nodes (relin : bool) (keys : relin_keys) (nodes : list PowersNode) (powers : CiphertextPowers) : res CiphertextPowers :=
  match nodes with
  | [] => Ret powers
  | n :: nodes => powers ← apply_node relin keys n powers; apply_nodes relin keys nodes powers
  end.

(** The last step for one target power: modulus switch, and the transform for the
    powers that are multiplied with plaintexts. *)
Definition finish_power (low : nat) (t : nat) (powers : CiphertextPowers) : res CiphertextPowers :=
  x ← or_undef (powers !! t);
  x ← (if decide (low = 0)%nat then y ← mod_switch_to 1 x; transform_to_ntt y
       else if decide (t <= low)%nat then y ← mod_switch_to 2 x; transform_to_ntt y
       else mod_switch_to 1 x);
  set_slot t x powers.

Fixpoint finish_powers (low : nat) (targets : list nat) (powers : CiphertextPowers) : res CiphertextPowers :=
  match targets with
  | [] => Ret powers
  | t :: targets => powers ← finish_power low t powers; finish_powers low targets powers
  end.

(** [ComputePowers] for the bundle index [b]; its code is not looked at. *)
Definition ComputePowers (db : sender_db) (keys : relin_keys) (nodes : list PowersNode) (targets : list nat) (b : nat)
    (powers : CiphertextPowers) : res (retcode * CiphertextPowers) :=
  if stop_ then Ret (FAIL, powers)
  else if decide (get_cache_at db b = []) then Ret (FAIL, powers)
  else
    powers ← apply_nodes (using_keyswitching db) keys nodes powers;
    powers ← finish_powers (ps_low_degree (get_params db)) targets powers;
    Ret (SUCCESS, powers).

(** One polynomial, by Paterson-Stockmeyer or directly. *)
Definition evaluate (low : nat) (f : polyn) (powers : CiphertextPowers) : res seal_object :=
  n ← safe_cast32 (coeff_count f);
  if (1 <? Z.of_nat low) && (Z.of_nat low <? uint32 (n - 1)) then eval_patstock f powers low else eval_powers f powers.

(** [ProcessBinBundleCache]. *)
Definition ProcessBinBundleCache (db : sender_db) (c : bin_cache) (powers : CiphertextPowers) (b : nat) (compr : compr_mode) :
    res (option ResultPackage) :=
  if stop_ then Ret None
  else
    nonce ← safe_cast32 (get_nonce_byte_count db);
    size ← safe_cast32 (get_label_byte_count db);
    let low := ps_low_degree (get_params db) in
    m ← evaluate low (batched_matching_polyn c) powers;
    ls ← mapM (fun f => evaluate low f powers) (batched_interp_polyns c);
    Ret (Some (Pkg compr b nonce size m ls)).

(** The powers of every bundle index. *)
Definition all_powers (db : sender_db) (cts : list (nat * list ciphertext)) (b : nat) : res CiphertextPowers :=
  let p := get_params db in
  let targets := create_powers_set (ps_low_degree p) (max_items_per_bin p) in
  powers ← or_undef (initial_powers p !! b);
  powers ← load_powers cts b powers;
  '(_, powers) ← ComputePowers db empty_relin_keys (configure (query_powers p) targets) targets b powers;
  Ret powers.

(** The packages of one bundle index.  A task that throws never fills the queue, so
    the sender waits for ever (see below). *)
Definition bundle_packages (db : sender_db) (q : pir_query) (e : nat * CiphertextPowers) : res (list (option ResultPackage)) :=
  match mapM (fun c => ProcessBinBundleCache db c e.2 e.1 (query_compr q)) (get_cache_at db e.1) with Ret l => Ret l | _ => Undef end.

(** The sender: it takes [n] packages from the queue and stops at the first that
    cannot be sent.  When a package is missing it waits for ever: no outcome. *)
Fixpoint send_packages (n : nat) (queue : list ResultPackage) : act_at slot unit :=
  match n, queue with
  | O, _ => lift (Ret tt)
  | S _, [] => lift Undef
  | S n, pk :: queue =>
      ret ← link_send (proxy_slot response_key_) (package_save pk);
      if decide (ret <> SUCCESS) then lift (Ret tt) else send_packages n queue
  end.

(** [ProcessQuery]: the tasks that fill the queue run concurrently; [finished] is
    the order in which they end. *)
Definition ProcessQuery (finished : list ResultPackage -> list ResultPackage) (db : sender_db) : act_at slot retcode :=
  if stop_ then lift (Ret FAIL)
  else
    '(ret, response) ← link_recv (proxy_slot key_);
    if decide (ret <> SUCCESS) then lift (Ret FAIL)
    else if decide (response = []) then lift (Ret FAIL)
    else
      match query_load db response with
      | Undef => lift Undef
      | Throw => lift (Ret FAIL)
      | Ret q =>
          match extract_cts db q with
          | None => lift (Ret FAIL)
          | Some cts =>
              package_count ← lift (safe_cast32 (get_bin_bundle_count db));
              ret ← link_send (proxy_slot (PackageCountKey [])) (le_bytes32 package_count);
              if decide (ret <> SUCCESS) then lift (Ret FAIL)
              else
                let bundles := seq 0 (bundle_idx_count (get_params db)) in
                powers ← lift (mapM (all_powers db cts) bundles);
                packages ← lift (mapM (bundle_packages db q) (zip bundles powers));
                _ ← send_packages (Z.to_nat package_count) (finished (omap id (concat packages)));
                lift (Ret SUCCESS)
          end
      end.

(** [KeywordPirOperatorServer::OnExecute]. *)
Definition ServerOnExecute (sd : rng) (finished : list ResultPackage -> list ResultPackage) (input result : PirDataType) (fs : gmap str str) :
    act_at slot outcome :=
  let end_with (ret : retcode) := lift (Ret (ret, (result, fs))) in
  let key := new_oprf_key sd in
  params ← lift (SetPsiParams fs);
  match params with
  | None => end_with FAIL
  | Some (p, psi_params_str) =>
      if generate_db o then
        data ← lift (CreateDb input);
        db ← lift (CreateSenderDb sd p data);
        match db with
        | None => end_with FAIL
        | Some db => lift (Ret (SUCCESS, (result, <[db_path o := db_save db]> fs)))
        end
      else
        ret ← ProcessPSIParams psi_params_str;
        if decide (ret <> SUCCESS) then end_with FAIL
        else
          db ← lift (match fs !! db_path o with
                     | Some text => Some <$> db_load text
                     | None => data ← CreateDb input; CreateSenderDb sd p data
                     end);
          match db with
          | None => end_with FAIL
          | Some db =>
              let key := get_oprf_key db in
              ret ← ProcessOprf key;
              if decide (ret <> SUCCESS) then end_with FAIL
              else
                ret ← ProcessQuery finished db;
                if decide (ret <> SUCCESS) then end_with FAIL
                else
                  '(ret, _) ← link_recv (proxy_slot key_task_end_);
                  if decide (ret <> SUCCESS) then end_with FAIL else end_with SUCCESS
          end
  end.

(** [BasePirOperator::Execute] of the operator the factory made. *)
Definition pir_Execute (op : pir_operator) (sd : rng) (finished : list ResultPackage -> list ResultPackage) (input result : PirDataType)
    (fs : gmap str str) : act_at slot outcome :=
  match op with
  | KeywordPirOperatorClient => ClientOnExecute sd input result fs
  | KeywordPirOperatorServer => ServerOnExecute sd finished input result fs
  end.
End Operator.
