(* ===== verification/PirProps.v ===== *)
(** * What a keyword query answers

    The laws of the libraries the PIR operator calls, the powers the server
    computes, the run of the two operators, and a library that satisfies the laws. *)

From Stdlib Require Import Ascii String ZArith Lia.
From stdpp Require Import base tactics list option strings countable gmap.
From S2P Require Import Prelude ModArith Machine StrUtil Common Wire PsiNet Psi CsvFile PirOperator.

Local Open Scope Z_scope.

(** ** Laws of the libraries *)

(** The form a power ends in: the level it is switched to and whether it is
    transformed. *)
Definition final_form (low t : nat) : nat * bool :=
  if decide (low = 0)%nat then (1, true)%nat else if decide (t <= low)%nat then (2, true)%nat else (1, false)%nat.

(** A graph of powers: parents come first and their powers add up. *)
Definition dag_ok (sources targets : list nat) (nodes : list PowersNode) : Prop :=
  (forall pre n post, nodes = pre ++ n :: post ->
     power n ∈ targets /\
     match parents n with None => power n ∈ sources | Some (a, b) => a ∈ power <$> pre /\ b ∈ power <$> pre /\ power n = (a + b)%nat end) /\
  (forall s, s ∈ sources -> s ∈ targets) /\ (forall t, t ∈ targets -> t ∈ power <$> nodes).

Definition all_caches `{ApsiLib} (db : sender_db) : list (nat * bin_cache) :=
  concat ((fun b => pair b <$> get_cache_at db b) <$> seq 0 (bundle_idx_count (get_params db))).

Definition ps_used `{ApsiLib} (low : nat) (f : polyn) : bool := (1 <? Z.of_nat low) && (Z.of_nat low <? uint32 (coeff_count f - 1)).

(** [item]'s label in the database. *)
Definition find_label (data : list (str * str)) (item : str) : option str := (list_to_map data : gmap str str) !! item.

(** Labels are stored with the size [n] of the longest one: [pad n l]. *)
Definition match_record (pad : nat -> str -> str) (n : nat) (data : list (str * str)) (item : str) : MatchRecord :=
  match find_label data item with
  | Some l => MR true (if decide (pad n l = []) then None else Some (pad n l))
  | None => MR false None
  end.

Class ApsiLaws `{ApsiLib} := {
  params_valid : psi_params -> Prop;
  params_of_json_valid text p : params_of_json text = Ret p -> params_valid p;
  params_load_save p : params_load (params_save p) = Ret p;
  params_save_ne p : params_save p <> [];
  (** The OPRF gives the hash of every item under the server's key. *)
  hash_of : oprf_key -> str -> hashed_item;
  key_of : oprf_key -> str -> label_key;
  oprf_ok sd k items : items <> [] ->
    let r := CreateOPRFReceiver sd items in
    query_data r <> [] /\ exists resp, ProcessQueries (query_data r) k = Ret resp /\ resp <> [] /\
      process_responses r resp = Ret (hash_of k <$> items, key_of k <$> items);
  (** What a database holds, with its label size. *)
  db_holds : sender_db -> nat -> list (str * str) -> Prop;
  set_data_ok sd p n db0 data db : new_sender_db sd p n 16 false = Ret db0 -> set_data data db0 = Ret db ->
    get_params db = p /\ db_holds db n data;
  db_load_save db : db_load (db_save db) = Ret db;
  bundle_count_ok db : get_bin_bundle_count db = Z.of_nat (length (all_caches db));
  (** A query travels unchanged and brings its source powers, valid and fresh. *)
  encrypts : pir_query -> nat -> nat -> nat * bool -> ciphertext -> Prop;
  query_ok sd p hs q t db : create_query sd p hs = Ret (q, t) -> get_params db = p ->
    query_save q <> [] /\ query_load db (query_save q) = Ret q /\ NoDup (query_cts q).*1 /\
    (forall e, e ∈ (query_cts q).*1 <-> e ∈ query_powers p) /\
    forall e v, (e, v) ∈ query_cts q -> length v = bundle_idx_count p /\
      forall b c, v !! b = Some c -> is_valid_for db (extract db c) = true /\ encrypts q b e (0%nat, false) (extract db c);
  square_ok q b e c : encrypts q b e (0%nat, false) c -> exists c', square c = Ret c' /\ encrypts q b (e + e) (0%nat, false) c';
  multiply_ok q b e e' c c' : encrypts q b e (0%nat, false) c -> encrypts q b e' (0%nat, false) c' ->
    exists d, multiply c c' = Ret d /\ encrypts q b (e + e') (0%nat, false) d;
  mod_switch_ok q b e l c : encrypts q b e (0%nat, false) c -> exists c', mod_switch_to l c = Ret c' /\ encrypts q b e (l, false) c';
  ntt_ok q b e l c : encrypts q b e (l, false) c -> exists c', transform_to_ntt c = Ret c' /\ encrypts q b e (l, true) c';
  powers_ok p : params_valid p ->
    let targets := create_powers_set (ps_low_degree p) (max_items_per_bin p) in
    dag_ok (query_powers p) targets (configure (query_powers p) targets) /\ NoDup targets /\ Forall (fun t => t <= max_items_per_bin p)%nat targets;
  (** A polynomial is evaluated on the powers. *)
  answers : pir_query -> polyn -> seal_object -> Prop;
  evaluate_ok db q b c f powers : params_valid (get_params db) -> c ∈ get_cache_at db b -> f = batched_matching_polyn c \/ f ∈ batched_interp_polyns c ->
    let low := ps_low_degree (get_params db) in
    (forall t, t ∈ create_powers_set low (max_items_per_bin (get_params db)) -> exists x, powers !! t = Some x /\ encrypts q b t (final_form low t) x) ->
    exists r, (if ps_used low f then eval_patstock f powers low else eval_powers f powers) = Ret r /\ answers q f r;
  package_ok p pk : package_save pk <> [] /\ package_load p (package_save pk) = Ret pk;
  (** The padding does not look like a separator and leaves the longest label alone. *)
  pad : nat -> str -> str;
  pad_app n l : exists fill, pad n l = l ++ fill /\ no_hash fill;
  pad_full n l : length l = n -> pad n l = l;
  (** One package per bin bundle tells for every item whether it is there, with its
      label. *)
  process_result_ok sd db n data items q t pks pks' :
    db_holds db n data -> NoDup data.*1 -> create_query sd (get_params db) (hash_of (get_oprf_key db) <$> items) = Ret (q, t) ->
    Forall2 (fun e pk => rp_bundle_idx pk = e.1 /\ answers q (batched_matching_polyn e.2) (psi_result pk) /\
                         Forall2 (answers q) (batched_interp_polyns e.2) (label_result pk)) (all_caches db) pks' ->
    pks ≡ₚ pks' ->
    process_result (get_params db) (key_of (get_oprf_key db) <$> items) t pks = Ret (match_record pad n data <$> items)
}.

(** ** The powers of a query *)

Section Powers.
Context `{ApsiLaws} (q : pir_query) (b : nat).

(** The slots [es] hold their powers in the given form. *)
Definition holds (form : nat -> nat * bool) (powers : list ciphertext) (e : nat) : Prop :=
  exists x, powers !! e = Some x /\ encrypts q b e (form e) x.

Definition fresh (_ : nat) : nat * bool := (0%nat, false).

Lemma set_slot_ok {A} i (a : A) l : (i < length l)%nat -> set_slot i a l = Ret (<[i := a]> l).
Proof. intros Hi. unfold set_slot. by rewrite decide_True. Qed.

Lemma holds_insert form powers e x e' : (e < length powers)%nat -> encrypts q b e (form e) x ->
  e' = e \/ holds form powers e' -> holds form (<[e := x]> powers) e'.
Proof.
  intros Hl Hx He. destruct (decide (e' = e)) as [->|Hne]; [exists x; by rewrite list_lookup_insert_eq|].
  destruct He as [->|(y & Hy & Hey)]; [done|]. exists y. by rewrite list_lookup_insert_ne by done.
Qed.

Lemma holds_insert_other form powers e x e' : e' <> e -> holds form (<[e := x]> powers) e' <-> holds form powers e'.
Proof. intros Hne. unfold holds. by rewrite list_lookup_insert_ne by done. Qed.

(** The loop over the query's powers. *)
Lemma load_powers_ok cts powers :
  Forall (fun e => e.1 < length powers /\ exists c, e.2 !! b = Some c /\ encrypts q b e.1 (0, false) c)%nat cts ->
  exists powers', load_powers cts b powers = Ret powers' /\ length powers' = length powers /\
    (forall e, e ∈ cts.*1 -> holds fresh powers' e) /\ (forall e, holds fresh powers e -> holds fresh powers' e).
Proof.
  revert powers. induction cts as [|[e v] cts IH]; intros powers Hc; [exists powers; set_solver|].
  apply Forall_cons in Hc as [(Hl & c & Hb & Hec) Hc]. simpl in Hl, Hb, Hec. cbn [load_powers]. rewrite Hb. cbn [or_undef mbind res_bind].
  rewrite set_slot_ok by done. cbn [mbind res_bind]. destruct (IH (<[e := c]> powers)) as (p' & -> & Hlen & Hin & Hmono).
  { eapply Forall_impl; [exact Hc|]. intros a. by rewrite length_insert. }
  rewrite length_insert in Hlen. exists p'. split_and!; [done..| |].
  - intros e'. rewrite fmap_cons, elem_of_cons. intros [->|He]; [|by apply Hin]. apply Hmono, (holds_insert fresh); naive_solver.
  - intros e' He. apply Hmono, (holds_insert fresh); naive_solver.
Qed.

(** One node of the graph, when no relinearisation is asked for. *)
Lemma apply_node_ok keys n powers : (power n < length powers)%nat ->
  match parents n with None => holds fresh powers (power n) | Some (a, c) => holds fresh powers a /\ holds fresh powers c /\ power n = (a + c)%nat end ->
  exists powers', apply_node false keys n powers = Ret powers' /\ length powers' = length powers /\
    holds fresh powers' (power n) /\ forall e, holds fresh powers e -> holds fresh powers' e.
Proof.
  intros Hl Hp. unfold apply_node. destruct (parents n) as [[a c]|]; [|by exists powers].
  destruct Hp as ((x & Hx & Ex) & (y & Hy & Ey) & Hn). rewrite Hx. cbn [or_undef mbind res_bind].
  assert (Hprod : exists d, (if decide (a = c) then square x else y ← or_undef (powers !! c); multiply x y) = Ret d /\
                            encrypts q b (power n) (0, false)%nat d).
  { rewrite Hn. case_decide as Ha.
    - subst c. rewrite Hx in Hy. simplify_eq. by apply square_ok.
    - rewrite Hy. cbn [or_undef mbind res_bind]. by apply multiply_ok. }
  destruct Hprod as (d & -> & Ed). cbn [mbind res_bind]. rewrite set_slot_ok by done. eexists. split; [reflexivity|].
  rewrite length_insert. split; [done|]. split; intros; apply (holds_insert fresh); naive_solver.
Qed.

Lemma apply_nodes_ok keys sources targets nodes pre powers : dag_ok sources targets (pre ++ nodes) ->
  Forall (fun t => t < length powers)%nat targets -> (forall e, e ∈ sources \/ e ∈ power <$> pre -> holds fresh powers e) ->
  exists powers', apply_nodes false keys nodes powers = Ret powers' /\ length powers' = length powers /\
    forall e, e ∈ power <$> (pre ++ nodes) -> holds fresh powers' e.
Proof.
  revert pre powers. induction nodes as [|n nodes IH]; intros pre powers Hd Ht Hh.
  { exists powers. rewrite app_nil_r. naive_solver. }
  destruct (proj1 Hd pre n nodes eq_refl) as [Hn Hp]. cbn [apply_nodes].
  destruct (apply_node_ok keys n powers) as (p' & -> & Hlen & Hnew & Hmono).
  { rewrite Forall_forall in Ht. by apply Ht. }
  { destruct (parents n) as [[a c]|]; [|apply Hh; by left]. naive_solver. }
  cbn [mbind res_bind]. destruct (IH (pre ++ [n]) p') as (p'' & -> & Hlen' & Hall).
  - by rewrite <- app_assoc.
  - by rewrite Hlen.
  - intros e. rewrite fmap_app, elem_of_app. cbn [fmap list_fmap]. rewrite list_elem_of_singleton. intros [?|[?| ->]]; [apply Hmono, Hh; naive_solver..|done].
  - exists p''. rewrite <- app_assoc in Hall. split_and!; [done|congruence|done].
Qed.

(** The last step, one target at a time. *)
Lemma finish_power_ok low t powers : holds fresh powers t ->
  exists x, finish_power low t powers = Ret (<[t := x]> powers) /\ encrypts q b t (final_form low t) x.
Proof.
  intros (x & Hx & Ex). unfold finish_power, final_form. rewrite Hx. cbn [or_undef mbind res_bind].
  assert (Hl : (t < length powers)%nat) by (by eapply lookup_lt_Some).
  repeat case_decide; (edestruct mod_switch_ok as (y & -> & Ey); [exact Ex|]); cbn [mbind res_bind];
    try (edestruct ntt_ok as (z & -> & Ez); [exact Ey|]); cbn [mbind res_bind]; rewrite set_slot_ok by done; eauto.
Qed.

Lemma finish_powers_ok low targets powers : NoDup targets -> (forall t, t ∈ targets -> holds fresh powers t) ->
  exists powers', finish_powers low targets powers = Ret powers' /\ length powers' = length powers /\
    (forall t, t ∈ targets -> holds (final_form low) powers' t) /\
    forall t, t ∉ targets -> forall form, holds form powers' t <-> holds form powers t.
Proof.
  revert powers. induction targets as [|t targets IH]; intros powers Hnd Hh; [exists powers; set_solver|].
  apply list.NoDup_cons in Hnd as [Hnot Hnd]. cbn [finish_powers].
  assert (Ht : holds fresh powers t) by (apply Hh; set_solver).
  destruct (finish_power_ok low t powers Ht) as (x & -> & Ex). cbn [mbind res_bind].
  assert (Hl : (t < length powers)%nat) by (destruct Ht as (? & ? & _); by eapply lookup_lt_Some).
  destruct (IH (<[t := x]> powers)) as (p' & -> & Hlen & Hdone & Hkeep); [done| |].
  { intros t' Ht'. apply holds_insert_other; [set_solver|]. apply Hh. set_solver. }
  rewrite length_insert in Hlen. exists p'. split_and!; [done..| |].
  - intros t'. rewrite elem_of_cons. intros [->|Ht']; [|by apply Hdone]. apply Hkeep; [done|]. apply holds_insert; [done..|by left].
  - intros t' Ht' form. apply not_elem_of_cons in Ht' as [Hne Ht']. rewrite (Hkeep t' Ht' form). by apply holds_insert_other.
Qed.
End Powers.

(** ** The packages of a query *)

Lemma mapM_Ret {A B} (f : A -> res B) (R : A -> B -> Prop) l : (forall a, a ∈ l -> exists x, f a = Ret x /\ R a x) ->
  exists xs, mapM f l = Ret xs /\ Forall2 R l xs.
Proof.
  induction l as [|a l IH]; intros Hf; [by exists []|].
  destruct (Hf a) as (x & Hx & HR); [set_solver|]. destruct IH as (xs & Hxs & Hall); [set_solver|].
  exists (x :: xs). cbn [mapM]. rewrite Hx. cbn [mbind res_bind]. rewrite Hxs. split; [done|by constructor].
Qed.

(** The sizes the server casts to 32 bits. *)
Definition fits32 `{ApsiLib} (db : sender_db) : Prop :=
  0 <= get_nonce_byte_count db < 2 ^ 32 /\ 0 <= get_label_byte_count db < 2 ^ 32 /\ 0 <= get_bin_bundle_count db < 2 ^ 32 /\
  forall b c f, c ∈ get_cache_at db b -> f = batched_matching_polyn c \/ f ∈ batched_interp_polyns c -> 0 <= coeff_count f < 2 ^ 32.

Lemma safe_cast32_ok z : 0 <= z < 2 ^ 32 -> safe_cast32 z = Ret z.
Proof. intros Hz. unfold safe_cast32. by rewrite (proj2 (Z.leb_le 0 z)), (proj2 (Z.ltb_lt z _)) by lia. Qed.

(** A package answers for a cache. *)
Definition package_for `{ApsiLaws} (q : pir_query) (e : nat * bin_cache) (pk : ResultPackage) : Prop :=
  rp_bundle_idx pk = e.1 /\ answers q (batched_matching_polyn e.2) (psi_result pk) /\ Forall2 (answers q) (batched_interp_polyns e.2) (label_result pk).

Section Packages.
Context `{ApsiLaws} (sd : rng) (db : sender_db) (hs : list hashed_item) (q : pir_query) (t : itt).
Context (Hq : create_query sd (get_params db) hs = Ret (q, t)) (Hv : params_valid (get_params db)).
Context (Hks : using_keyswitching db = false) (Hfit : fits32 db).

Definition server_cts : list (nat * list ciphertext) := (fun e : nat * list seal_object => (e.1, extract db <$> e.2)) <$> query_cts q.

Lemma extract_cts_ok : extract_cts db q = Some server_cts.
Proof using H0 Hq.
  destruct (query_ok _ _ _ _ _ db Hq eq_refl) as (_ & _ & _ & _ & Hc). unfold extract_cts, server_cts. apply mapM_Some_2, Forall2_fmap_r, Forall_Forall2_diag.
  rewrite Forall_forall. intros [e v] He. destruct (Hc e v He) as [_ Hb]. cbn [fst snd].
  rewrite (proj2 (mapM_Some _ v (extract db <$> v))); [done|]. apply Forall2_fmap_r, Forall_Forall2_diag, Forall_lookup. intros i c Hi.
  destruct (Hb i c Hi) as [Hval _]. by rewrite Hval.
Qed.

Lemma all_powers_ok b : (b < bundle_idx_count (get_params db))%nat -> exists powers, all_powers false db server_cts b = Ret powers /\
  (get_cache_at db b <> [] -> forall e, e ∈ create_powers_set (ps_low_degree (get_params db)) (max_items_per_bin (get_params db)) ->
     holds q b (final_form (ps_low_degree (get_params db))) powers e).
Proof using Hq Hv Hks Hfit.
  intros Hb. destruct (query_ok _ _ _ _ _ db Hq eq_refl) as (_ & _ & _ & Hexp & Hc).
  destruct (powers_ok _ Hv) as (Hdag & Hnd & Hmax). unfold all_powers, initial_powers. rewrite lookup_replicate_2 by done. cbn [or_undef mbind res_bind].
  set (targets := create_powers_set _ _) in *. set (powers0 := replicate _ empty_ciphertext).
  assert (Hlen0 : length powers0 = S (max_items_per_bin (get_params db))) by apply length_replicate.
  clearbody powers0. destruct (load_powers_ok q b server_cts powers0) as (p1 & -> & Hl1 & Hh1 & _).
  { unfold server_cts. rewrite Forall_fmap, Forall_forall. intros [e v] He. cbn [fst snd]. destruct (Hc e v He) as [Hlv Hcv]. split.
    - rewrite Hlen0. assert (e ∈ targets) as Het by (apply Hdag, Hexp, list_elem_of_fmap; by exists (e, v)).
      rewrite Forall_forall in Hmax. apply Hmax in Het. cbn in Het |- *. lia.
    - destruct (lookup_lt_is_Some_2 v b) as [c Hcb]; [lia|]. exists (extract db c). cbn [fst snd]. rewrite list_lookup_fmap, Hcb. split; [done|]. by apply Hcv. }
  cbn [mbind res_bind]. unfold ComputePowers. case_decide as Hcache; [exists p1; by split|]. rewrite Hks.
  destruct (apply_nodes_ok q b empty_relin_keys (query_powers (get_params db)) targets (configure (query_powers (get_params db)) targets) [] p1)
    as (p2 & -> & Hl2 & Hh2); [done| | |].
  { eapply Forall_impl; [exact Hmax|]. intros e He. cbn in He. rewrite Hl1, Hlen0. lia. }
  { intros e [He|He]; [|set_solver]. apply Hh1. unfold server_cts. rewrite <- list_fmap_compose. by apply Hexp. }
  cbn [mbind res_bind]. destruct (finish_powers_ok q b (ps_low_degree (get_params db)) targets p2) as (p3 & -> & _ & Hh3 & _); [done| |].
  { intros e He. apply Hh2. destruct Hdag as (_ & _ & Hall). by apply Hall. }
  cbn [mbind res_bind]. exists p3. by split.
Qed.

Lemma evaluate_run b c f powers : c ∈ get_cache_at db b -> f = batched_matching_polyn c \/ f ∈ batched_interp_polyns c ->
  (forall e, e ∈ create_powers_set (ps_low_degree (get_params db)) (max_items_per_bin (get_params db)) ->
     holds q b (final_form (ps_low_degree (get_params db))) powers e) ->
  exists r, evaluate (ps_low_degree (get_params db)) f powers = Ret r /\ answers q f r.
Proof using Hq Hv Hks Hfit.
  intros Hc Hf Hh. unfold evaluate. destruct Hfit as (_ & _ & _ & Hco). rewrite safe_cast32_ok by (by eapply Hco). cbn [mbind res_bind].
  by apply (evaluate_ok db q b c f powers).
Qed.

Lemma bundle_packages_ok b powers : (get_cache_at db b <> [] -> forall e, e ∈ create_powers_set (ps_low_degree (get_params db)) (max_items_per_bin (get_params db)) ->
     holds q b (final_form (ps_low_degree (get_params db))) powers e) ->
  exists pks, bundle_packages false db q (b, powers) = Ret (Some <$> pks) /\ Forall2 (package_for q) (pair b <$> get_cache_at db b) pks.
Proof using Hq Hv Hks Hfit.
  intros Hp. unfold bundle_packages. cbn [fst snd].
  destruct (mapM_Ret (fun c => ProcessBinBundleCache false db c powers b (query_compr q)) (fun c o => exists pk, o = Some pk /\ package_for q (b, c) pk) (get_cache_at db b))
    as (os & -> & Hos).
  { intros c Hc. unfold ProcessBinBundleCache. destruct Hfit as (Hn & Hl & _ & _). rewrite !safe_cast32_ok by done. cbn [mbind res_bind].
    assert (Hne : get_cache_at db b <> []) by (intros E; rewrite E in Hc; set_solver). specialize (Hp Hne).
    destruct (evaluate_run b c (batched_matching_polyn c) powers) as (r & -> & Hr); [done|by left|done|]. cbn [mbind res_bind].
    destruct (mapM_Ret (fun f => evaluate (ps_low_degree (get_params db)) f powers) (answers q) (batched_interp_polyns c)) as (ls & -> & Hls).
    { intros f Hf. apply (evaluate_run b c); [done|by right|done]. }
    cbn [mbind res_bind]. eexists. split; [reflexivity|]. eexists. split; [reflexivity|]. split_and!; done. }
  assert (Hpks : exists pks, os = Some <$> pks /\ Forall2 (package_for q) (pair b <$> get_cache_at db b) pks).
  { clear Hp. induction Hos as [|c o cs os (pk & -> & Hpk) _ (pks & -> & IH)]; [by exists []|]. exists (pk :: pks). split; [done|by constructor]. }
  destruct Hpks as (pks & -> & Hpks). by exists pks.
Qed.
(** All the packages the tasks put into the queue. *)
Lemma server_packages : let bundles := seq 0 (bundle_idx_count (get_params db)) in
  exists powers packages pks, mapM (all_powers false db (server_cts)) bundles = Ret powers /\
    mapM (bundle_packages false db q) (zip bundles powers) = Ret packages /\ omap id (concat packages) = pks /\
    Forall2 (package_for q) (all_caches db) pks.
Proof using Hq Hv Hks Hfit.
  intros bundles. unfold all_caches. fold bundles.
  destruct (mapM_Ret (all_powers false db (server_cts)) (fun b powers => get_cache_at db b <> [] ->
      forall e, e ∈ create_powers_set (ps_low_degree (get_params db)) (max_items_per_bin (get_params db)) ->
      holds q b (final_form (ps_low_degree (get_params db))) powers e) bundles) as (powers & Hp & Hall).
  { intros b Hb. eapply all_powers_ok; try done. unfold bundles in Hb. apply elem_of_seq in Hb. lia. }
  exists powers. rewrite Hp. clear Hp. clearbody bundles. induction Hall as [|b pw bs pws Hb _ (packages & pks & _ & Hpk & Eo & Hf)]; [by exists [], []|].
  destruct (bundle_packages_ok b pw Hb) as (l & Hl & Hfl). exists ((Some <$> l) :: packages), (l ++ pks). split; [done|].
  cbn [zip mapM]. change (zip_with pair bs pws) with (zip bs pws). rewrite Hl. cbn [mbind res_bind]. rewrite Hpk. split; [done|]. split.
  - cbn [concat]. rewrite omap_app, Eo. f_equal. clear. induction l as [|x l IH]; [done|]. cbn. by rewrite IH.
  - cbn [fmap list_fmap concat]. by apply Forall2_app.
Qed.
End Packages.

(** ** The run *)

Lemma le_bytes32_ok z : 0 <= z < 2 ^ 32 -> of_le_bytes32 (le_bytes32 z) = z /\ length (le_bytes32 z) = 4%nat.
Proof.
  intros Hz. unfold of_le_bytes32, le_bytes32. rewrite reverse_involutive, length_reverse, be_bytes_length. split; [|done].
  unfold of_be_bytes. rewrite of_be_bytes_step. change (256 ^ Z.of_nat 4) with (2 ^ 32). rewrite Z.mod_small by done. done.
Qed.

(** The mail after every package was posted and fetched. *)
Definition drained `{ApsiLib} (s : slot) (pks : list ResultPackage) (m : mail_at slot) : mail_at slot :=
  fold_left (fun m pk => <[s := []]> (<[s := [package_save pk]]> m)) pks m.

Lemma drained_ne `{ApsiLib} s s' pks m : s' <> s -> mailbox (drained s pks m) s' = mailbox m s'.
Proof. intros Hs. unfold drained. revert m. induction pks as [|pk pks IH]; intros m; cbn [fold_left]; [done|]. by rewrite IH, !mailbox_ne. Qed.

(** The packages pass from the server's sender to the client's loop. *)
Lemma run_packages `{ApsiLaws} {A B} (n : nat) (oc os : PirOptions) (p : psi_params) (pks acc : list ResultPackage) (f : retcode * list ResultPackage -> act_at slot A)
    (g : unit -> act_at slot B) (h : B -> act_at slot A) (m : mail_at slot) (t : sys_at slot A) :
  peer_node oc = po_proxy_node os -> mailbox m (peer_slot oc response_key_) = [] ->
  run n (Sys (f (SUCCESS, acc ++ pks)) (g tt ≫= h) (drained (peer_slot oc response_key_) pks m)) t ->
  run (2 * length pks + n) (Sys (recv_packages oc p (length pks) acc ≫= f) ((send_packages os (length pks) pks ≫= g) ≫= h) m) t.
Proof.
  intros Hn. revert acc m. induction pks as [|pk pks IH]; intros acc m Hm Hr; [by rewrite app_nil_r in Hr|].
  destruct (package_ok p pk) as [Hne Hload]. cbn [length].
  replace (2 * S (length pks) + n)%nat with (S (S (2 * length pks + n))) by lia. cbn [recv_packages send_packages]. act_go.
  assert (Hslot : proxy_slot os response_key_ = peer_slot oc response_key_) by (unfold proxy_slot, peer_slot; by rewrite Hn). rewrite Hslot.
  eapply run_post1. rewrite Hm. cbn [app]. eapply run_fetch0; [apply mailbox_eq|]. rewrite (decide_False (P := package_save pk = [])) by done. act_go.
  rewrite Hload. act_go. apply IH; [apply mailbox_eq|]. by rewrite <- app_assoc.
Qed.

(** Where the server takes its database from, what it holds and its label size. *)
Inductive serves `{ApsiLaws} (o : PirOptions) (iter : PirDataType -> list (str * list str)) (sd : rng) (fs : gmap str str) (p : psi_params) (input : PirDataType) :
    sender_db -> nat -> list (str * str) -> Prop :=
| serves_built data db : fs !! db_path o = None -> CreateDb iter input = Ret data -> CreateSenderDb false sd p data = Ret (Some db) ->
    serves o iter sd fs p input db (max_list (length <$> data.*2)) data
| serves_cached db n data : fs !! db_path o = Some (db_save db) -> get_params db = p -> db_holds db n data ->
    serves o iter sd fs p input db n data.

Lemma sender_db_ok `{ApsiLaws} sd p data db : CreateSenderDb false sd p data = Ret (Some db) ->
  get_params db = p /\ db_holds db (max_list (length <$> data.*2)) data.
Proof.
  unfold CreateSenderDb. case_decide; [done|]. destruct (new_sender_db sd p _ 16 false) as [db0| |] eqn:E; cbn [mbind res_bind]; [|done..].
  destruct (set_data data db0) as [db'| |] eqn:E'; [|done..]. intros [= <-]. by eapply set_data_ok.
Qed.

Lemma serves_ok `{ApsiLaws} o iter sd fs p input db n data : serves o iter sd fs p input db n data -> get_params db = p /\ db_holds db n data.
Proof. intros [d db' _ _ Hdb|db' n' d _ Hp Hd]; [by eapply sender_db_ok|done]. Qed.

Lemma serves_db `{ApsiLaws} o iter sd fs p input db n data : serves o iter sd fs p input db n data ->
  match fs !! db_path o with Some s => Some <$> db_load s | None => d ← CreateDb iter input; CreateSenderDb false sd p d end = Ret (Some db).
Proof. intros [d db' Ef Ec Edb|db' n' d Ef _ _]; rewrite Ef; [by rewrite Ec|]. by rewrite db_load_save. Qed.

Section Run.
Context `{ApsiLaws} (oc os : PirOptions) (iter : PirDataType -> list (str * list str)).
Context (Hn : peer_node oc = po_proxy_node os).

(** The client reads the answers and the count, the server the requests and the end. *)
Definition client_box (s : slot) : Prop := s ∈ [peer_slot oc response_key_; peer_slot oc (PackageCountKey [])].
Definition server_box (s : slot) : Prop := s ∈ [peer_slot oc key_; peer_slot oc key_task_end_].

Lemma boxes_apart s : client_box s -> server_box s -> False.
Proof. unfold client_box, server_box, peer_slot. intros Hc Hs. set_unfold. naive_solver. Qed.

Ltac in_box := unfold client_box, server_box, proxy_slot; rewrite <- ?Hn; unfold peer_slot; set_solver.

Lemma recv_packages_disciplined p n acc : disciplined server_box client_box (recv_packages oc p n acc).
Proof using Hn.
  revert acc. induction n as [|n IH]; intros acc; cbn [recv_packages]; act_disciplined; [split; [in_box|done]|apply IH].
Qed.

Lemma send_packages_disciplined n pks : disciplined client_box server_box (send_packages os n pks).
Proof using Hn.
  revert pks. induction n as [|n IH]; intros pks; cbn [send_packages]; act_disciplined; [split; [in_box|done]|apply IH].
Qed.

Lemma pir_client_disciplined sd input result fs : disciplined server_box client_box (ClientOnExecute false oc iter sd input result fs).
Proof using Hn.
  unfold ClientOnExecute, RequestPSIParams, RequestOprf, recv_count. act_disciplined; first [apply recv_packages_disciplined|split; [in_box|done]].
Qed.

Lemma pir_server_disciplined sd finished input result fs : disciplined client_box server_box (ServerOnExecute false os iter sd finished input result fs).
Proof using Hn.
  unfold ServerOnExecute, ProcessPSIParams, ProcessOprf, ProcessQuery. act_disciplined; first [apply send_packages_disciplined|split; [in_box|done]].
Qed.

Context (sdc sds : rng) (finished : list ResultPackage -> list ResultPackage) (queries input : PirDataType) (fsc fss : gmap str str).
Context (p : psi_params) (text : str) (db : sender_db) (n : nat) (data : list (str * str)) (q : pir_query) (t : itt).
Context (Hfin : forall l, finished l ≡ₚ l) (Hitems : (iter queries).*1 <> []).
Context (Hgen : generate_db os = false) (Hconf : fss !! config_path = Some text) (Hjson : params_of_json (config_text text) = Ret p).
Context (Hserve : serves os iter sds fss p input db n data) (Hnd : NoDup data.*1).
Context (Hq : create_query sdc p (hash_of (get_oprf_key db) <$> (iter queries).*1) = Ret (q, t)).
Context (Hks : using_keyswitching db = false) (Hfit : fits32 db).

Lemma slot_ne k k' : k <> k' -> peer_slot oc k <> peer_slot oc k'.
Proof. unfold peer_slot. naive_solver. Qed.

(** One message: a post, a fetch of the text just posted, a test that it is there. *)
Ltac mail_now := repeat first [rewrite mailbox_eq | rewrite mailbox_empty | rewrite mailbox_ne by (apply slot_ne; done)]; cbn [app].
Ltac post0 := eapply run_post0; act_go; mail_now.
Ltac post1 := eapply run_post1; act_go; mail_now.
Ltac fetch0 := eapply run_fetch0; [mail_now; reflexivity|]; act_go.
Ltac fetch1 := eapply run_fetch1; [mail_now; reflexivity|]; act_go.
Ltac got x := rewrite ?(decide_False (P := x = [])) by done; rewrite ?(bool_decide_eq_false_2 (x = [])) by done; act_go.

(** One schedule of the two operators: the client ends with the records the library
    finds for its items. *)
Lemma keyword_pir_run R : extract_from (iter queries).*1 (match_record pad n data <$> (iter queries).*1) ∅ = Ret R ->
  exists m, run (12 + (2 * length (all_caches db) + 2)) (Sys (ClientOnExecute false oc iter sdc queries ∅ fsc) (ServerOnExecute false os iter sds finished input ∅ fss) ∅)
    (Sys (Done (Ret (SUCCESS, (R, fsc)))) (Done (Ret (SUCCESS, (∅, fss)))) m).
Proof using Hn Hfin Hitems Hgen Hconf Hjson Hserve Hnd Hq Hks Hfit.
  intros HR. destruct (serves_ok _ _ _ _ _ _ _ _ _ Hserve) as [Hp Hdata]. assert (Hv := params_of_json_valid _ _ Hjson). subst p.
  destruct (query_ok _ _ _ _ _ db Hq eq_refl) as (Hqne & Hqload & _).
  destruct (oprf_ok sdc (get_oprf_key db) (iter queries).*1 Hitems) as (Hodne & resp & Horesp & Hrne & Hoproc).
  destruct (server_packages sdc db _ q t Hq Hv Hks Hfit) as (powers & packages & pks & Epow & Epk & Eo & Hpks).
  assert (Hcount : get_bin_bundle_count db = Z.of_nat (length (finished pks))).
  { rewrite bundle_count_ok, (Hfin pks). f_equal. by eapply Forall2_length. }
  assert (Hc32 : 0 <= get_bin_bundle_count db < 2 ^ 32) by apply Hfit. destruct (le_bytes32_ok _ Hc32) as [Hle Hlelen].
  assert (Hlene : le_bytes32 (get_bin_bundle_count db) <> []) by (intros E; by rewrite E in Hlelen).
  assert (Hproc := process_result_ok sdc db n data _ q t (finished pks) pks Hdata Hnd Hq Hpks (Hfin pks)).
  assert (Hslot : forall k, proxy_slot os k = peer_slot oc k) by (intros k; unfold proxy_slot, peer_slot; by rewrite Hn).
  unfold ClientOnExecute, ServerOnExecute, SetPsiParams. rewrite Hconf, Hjson. cbn [mbind res_bind]. act_go. rewrite Hgen.
  unfold RequestPSIParams, ProcessPSIParams. act_go. rewrite !Hslot. eexists. cbn [Nat.add].
  post0. fetch1. got psi_param_request. post1. rewrite (serves_db _ _ _ _ _ _ _ _ _ Hserve). act_go.
  fetch0. rewrite params_load_save. act_go. cbn [or_undef]. unfold RequestOprf, ProcessOprf, ProcessQuery. act_go. rewrite !Hslot.
  post0. fetch1. got (query_data (CreateOPRFReceiver sdc (iter queries).*1)). rewrite Horesp. act_go. post1.
  fetch0. got resp. rewrite (bool_decide_eq_false_2 (SUCCESS <> SUCCESS)) by naive_solver. cbn [orb]. rewrite Hoproc. act_go. rewrite Hq. act_go.
  post0. fetch1. got (query_save q). rewrite Hqload, (extract_cts_ok sdc db _ q t Hq), safe_cast32_ok by done. act_go. post1.
  rewrite Epow. act_go. rewrite Epk. act_go. rewrite Eo. unfold recv_count. act_go. fetch0.
  got (le_bytes32 (get_bin_bundle_count db)). rewrite Hlelen, Hle, Hcount, Nat2Z.id.
  rewrite (bool_decide_eq_false_2 (SUCCESS <> SUCCESS)) by naive_solver. change (bool_decide (4 <> 4)%nat) with false. cbn [orb]. act_go.
  assert (Hlen : length (all_caches db) = length (finished pks)) by (rewrite (Hfin pks); by eapply Forall2_length).
  rewrite Hlen, ?Nat2Z.id. eapply run_packages; [done|by mail_now|]. cbn [app]. act_go. rewrite Hproc. act_go.
  unfold ExtractResult. rewrite HR. cbn [mbind res_bind]. act_go. post0. eapply run_fetch1; [rewrite drained_ne by (by apply slot_ne); mail_now; reflexivity|].
  got (chars "SUCCESS"). constructor.
Qed.

(** Every schedule ends there. *)
Lemma keyword_pir_inevitable R : extract_from (iter queries).*1 (match_record pad n data <$> (iter queries).*1) ∅ = Ret R ->
  exists m, inevitable (14 + 2 * length (all_caches db))
    (Sys (ClientOnExecute false oc iter sdc queries ∅ fsc) (ServerOnExecute false os iter sds finished input ∅ fss) ∅)
    (Sys (Done (Ret (SUCCESS, (R, fsc)))) (Done (Ret (SUCCESS, (∅, fss)))) m).
Proof using Hn Hfin Hitems Hgen Hconf Hjson Hserve Hnd Hq Hks Hfit.
  intros HR. destruct (keyword_pir_run R HR) as [m Hm]. exists m. apply (one_run_decides client_box server_box); [| |apply stuck_done].
  - split_and!; [apply boxes_apart|apply pir_client_disciplined|apply pir_server_disciplined].
  - by replace (14 + 2 * length (all_caches db))%nat with (12 + (2 * length (all_caches db) + 2))%nat by lia.
Qed.
End Run.

(** ** The rows of an answer *)

(** The labels of the server's rows. *)
Definition labels_of (rows : list (str * list str)) : list (str * str) := (fun e => (e.1, join DATA_RECORD_SEP e.2)) <$> rows.

Lemma join_snoc sep fs f : fs <> [] -> join sep (fs ++ [f]) = concat ((fun l => l ++ sep) <$> fs) ++ f.
Proof.
  induction fs as [|a fs IH]; intros Hne; [done|]. destruct fs as [|b fs]; [by simpl; rewrite app_nil_r, <- app_assoc|].
  change (join sep ((a :: b :: fs) ++ [f])) with (a ++ sep ++ join sep ((b :: fs) ++ [f])). rewrite IH by done.
  cbn [fmap list_fmap concat]. by rewrite <- !app_assoc.
Qed.

Lemma db_label_join labels : labels <> [] -> db_label labels = Ret (join DATA_RECORD_SEP labels).
Proof.
  intros Hne. destruct labels as [|f fs _] using rev_ind; [done|]. unfold db_label. rewrite last_snoc. cbn [or_undef mbind res_bind].
  rewrite length_app. cbn [length]. rewrite Nat.add_sub, take_app_length. f_equal.
  destruct (decide (fs = [])) as [->|Hfs]; [done|]. by rewrite join_snoc.
Qed.

Lemma CreateDb_labels iter input : Forall (fun e => e.2 <> []) (iter input) -> CreateDb iter input = Ret (labels_of (iter input)).
Proof.
  unfold CreateDb, labels_of. induction (iter input) as [|e l IH]; intros Hl; [done|]. apply Forall_cons in Hl as [He Hl].
  cbn [mapM fmap list_fmap]. rewrite db_label_join by done. cbn [mbind res_bind]. by rewrite IH.
Qed.

(** Rows of which the last is followed by [fill]. *)
Definition with_fill (fill : str) (rows : list str) : list str :=
  match last rows with Some r => take (length rows - 1) rows ++ [r ++ fill] | None => [] end.

Lemma with_fill_nil rows : with_fill [] rows = rows.
Proof.
  unfold with_fill. destruct rows as [|r rows _] using rev_ind; [done|]. rewrite last_snoc, length_app. cbn [length].
  by rewrite Nat.add_sub, take_app_length, app_nil_r.
Qed.

Lemma join_with_fill fill rows : rows <> [] -> join DATA_RECORD_SEP rows ++ fill = join DATA_RECORD_SEP (with_fill fill rows).
Proof.
  intros Hne. destruct rows as [|r rows _] using rev_ind; [done|]. unfold with_fill. rewrite last_snoc, length_app. cbn [length].
  rewrite Nat.add_sub, take_app_length. destruct (decide (rows = [])) as [->|Hr]; [done|]. rewrite !join_snoc by done. by rewrite app_assoc.
Qed.

(** A row that survives the label text. *)
Definition plain_row (r : str) : Prop := no_hash r /\ r <> [].

Lemma split_with_fill fill rows : rows <> [] -> Forall plain_row rows -> no_hash fill ->
  str_split (join DATA_RECORD_SEP rows ++ fill) DATA_RECORD_SEP = with_fill fill rows.
Proof.
  intros Hne Hrows Hfill. rewrite join_with_fill by done. destruct rows as [|r rows _] using rev_ind; [done|].
  apply Forall_app in Hrows as [Hrows [[Hr Hrne] _]%Forall_cons]. unfold with_fill. rewrite last_snoc, length_app. cbn [length]. rewrite Nat.add_sub, take_app_length.
  apply split_join.
  - by destruct rows.
  - apply Forall_app. split; [eapply Forall_impl; [exact Hrows|by intros ? []]|]. constructor; [|done]. unfold no_hash in *. set_solver.
  - rewrite last_snoc. intros [= E]. by apply app_nil in E as [-> _].
Qed.

Section Answer.
Context `{ApsiLaws} (n : nat) (data : list (str * str)).

(** The rows the client puts into the map for a label. *)
Definition label_rows (l : str) : option (list str) :=
  if decide (pad n l = []) then None else Some (str_split (pad n l) DATA_RECORD_SEP).

Lemma extract_from_ok items acc : NoDup items -> (forall k, k ∈ items -> acc !! k = None) ->
  exists R, extract_from items (match_record pad n data <$> items) acc = Ret R /\
    forall k, R !! k = if decide (k ∈ items) then find_label data k ≫= label_rows else acc !! k.
Proof.
  revert acc. induction items as [|i items IH]; intros acc Hnd Hacc; [by exists acc|].
  apply list.NoDup_cons in Hnd as [Hi Hnd]. cbn [fmap list_fmap extract_from].
  set (acc' := if found _ then _ else acc).
  assert (Hacc' : forall k, acc' !! k = if decide (k = i) then find_label data k ≫= label_rows else acc !! k).
  { intros k. unfold acc', match_record. case_decide as Hk.
    - subst k. destruct (find_label data i) as [l|] eqn:E; cbn [found mbind option_bind]; [|apply Hacc; set_solver]. cbn [label]. unfold label_rows.
      case_decide; [apply Hacc; set_solver|]. rewrite lookup_insert_eq, (Hacc i) by set_solver. done.
    - destruct (find_label data i); cbn [found label]; [|done]. case_decide; [done|]. by rewrite lookup_insert_ne. }
  destruct (IH acc') as (R & HR & Hk); [done|intros k Hk; rewrite Hacc', decide_False by set_solver; apply Hacc; set_solver|].
  exists R. split; [done|]. intros k. rewrite Hk, Hacc'. destruct (decide (k = i)) as [->|Hne].
  - rewrite (decide_False (P := i ∈ items)), (decide_True (P := i ∈ i :: items)) by set_solver. done.
  - destruct (decide (k ∈ items)); [rewrite decide_True by set_solver; done|]. rewrite decide_False by set_solver. done.
Qed.
End Answer.

(** The padding of a key's rows in a database with labels of size [n]. *)
Definition fill_of `{ApsiLaws} (n : nat) (rows : list str) : str := drop (length (join DATA_RECORD_SEP rows)) (pad n (join DATA_RECORD_SEP rows)).

Lemma label_rows_ok `{ApsiLaws} n rows : rows <> [] -> Forall plain_row rows ->
  label_rows n (join DATA_RECORD_SEP rows) = Some (with_fill (fill_of n rows) rows).
Proof.
  intros Hne Hrows. unfold label_rows, fill_of. destruct (pad_app n (join DATA_RECORD_SEP rows)) as (fill & -> & Hf). rewrite drop_app_length.
  rewrite split_with_fill by done. rewrite decide_False; [done|]. intros [E _]%app_nil.
  destruct rows as [|r rows]; [done|]. apply Forall_cons in Hrows as [[_ Hr] _]. destruct rows; cbn [join] in E; [done|]. by apply app_nil in E as [-> _].
Qed.

Lemma fill_longest `{ApsiLaws} n rows : length (join DATA_RECORD_SEP rows) = n -> with_fill (fill_of n rows) rows = rows.
Proof. intros Hl. unfold fill_of. rewrite pad_full, drop_all by done. apply with_fill_nil. Qed.

Lemma iter_keys (iter : PirDataType -> list (str * list str)) m k : (forall m, iter m ≡ₚ map_to_list m) -> k ∈ (iter m).*1 <-> is_Some (m !! k).
Proof.
  intros Hi. rewrite (Hi m), list_elem_of_fmap. split.
  - intros ([k' v] & -> & Hin). exists v. by apply elem_of_map_to_list.
  - intros [v Hv]. exists (k, v). split; [done|]. by apply elem_of_map_to_list.
Qed.

Lemma iter_nodup (iter : PirDataType -> list (str * list str)) m : (forall m, iter m ≡ₚ map_to_list m) -> NoDup (iter m).*1.
Proof. intros Hi. rewrite (Hi m). apply NoDup_fst_map_to_list. Qed.

(** The label of a key is the text of its rows. *)
Lemma find_labels (iter : PirDataType -> list (str * list str)) m k : (forall m, iter m ≡ₚ map_to_list m) ->
  find_label (labels_of (iter m)) k = join DATA_RECORD_SEP <$> m !! k.
Proof.
  intros Hi. unfold find_label, labels_of. assert (Hm : list_to_map (iter m) = m).
  { transitivity (list_to_map (map_to_list m) : PirDataType); [|apply list_to_map_to_list]. apply list_to_map_proper; [by apply iter_nodup|by rewrite (Hi m)]. }
  transitivity ((join DATA_RECORD_SEP <$> (list_to_map (iter m) : PirDataType)) !! k); [|by rewrite lookup_fmap, Hm].
  f_equal. rewrite <- list_to_map_fmap. f_equal.
Qed.

(** ** The answer of a query *)

(** A keyword query is answered completely and correctly.  Take a client that has
    queries to make and a server that listens at the client's peer, reads its
    parameters from the configuration file and works with a database that holds the
    labels of its rows (freshly built or loaded from the cache); let the library
    accept the query and the sizes fit 32 bits, and let no relinearisation be needed
    (as with the parameters the repository ships).  Then, in whatever order the
    concurrent tasks finish and the two parties are scheduled, both end with success
    after the same number of steps, the server's result and all files are unchanged,
    and the client's result maps exactly the queried keys the server has to the
    server's rows, the last one followed by the padding of the label; for a key with
    the longest label the padding is empty. *)
Theorem keyword_pir_answers `{ApsiLaws} (oc os : PirOptions) (iter : PirDataType -> list (str * list str)) (sdc sds : rng)
    (finished : list ResultPackage -> list ResultPackage) (queries server input : PirDataType) (fsc fss : gmap str str)
    (p : psi_params) (text : str) (db : sender_db) (n : nat) (q : pir_query) (t : itt) :
  peer_node oc = po_proxy_node os -> (forall l, finished l ≡ₚ l) -> (forall m, iter m ≡ₚ map_to_list m) -> queries <> ∅ ->
  generate_db os = false -> fss !! config_path = Some text -> params_of_json (config_text text) = Ret p ->
  serves os iter sds fss p input db n (labels_of (iter server)) ->
  (forall key rows, server !! key = Some rows -> rows <> [] /\ Forall plain_row rows) ->
  create_query sdc p (hash_of (get_oprf_key db) <$> (iter queries).*1) = Ret (q, t) -> using_keyswitching db = false -> fits32 db ->
  exists R m,
    inevitable (14 + 2 * length (all_caches db))
      (Sys (ClientOnExecute false oc iter sdc queries ∅ fsc) (ServerOnExecute false os iter sds finished input ∅ fss) ∅)
      (Sys (Done (Ret (SUCCESS, (R, fsc)))) (Done (Ret (SUCCESS, (∅, fss)))) m) /\
    (forall key, R !! key = (_ ← queries !! key; rows ← server !! key; Some (with_fill (fill_of n rows) rows))) /\
    forall key rows, key ∈ dom queries -> server !! key = Some rows -> length (join DATA_RECORD_SEP rows) = n -> R !! key = Some rows.
Proof.
  intros Hn Hfin Hiter Hq0 Hgen Hconf Hjson Hserve Hrows Hq Hks Hfit.
  assert (Hkeys : forall m k, k ∈ (iter m).*1 <-> is_Some (m !! k)) by (intros; by apply iter_keys).
  assert (Hnd : forall m, NoDup (iter m).*1) by (intros; by apply iter_nodup).
  destruct (extract_from_ok n (labels_of (iter server)) (iter queries).*1 ∅) as (R & HR & Hl); [apply Hnd|done|].
  destruct (keyword_pir_inevitable oc os iter Hn sdc sds finished queries input fsc fss p text db n (labels_of (iter server)) q t) with (R := R) as [m Hm]; try done.
  { intros E. apply Hq0, map_empty. intros k. destruct (queries !! k) eqn:Ek; [|done]. assert (Hk : k ∈ (iter queries).*1) by (apply Hkeys; eauto).
    rewrite E in Hk. by apply elem_of_nil in Hk. }
  { unfold labels_of. rewrite <- list_fmap_compose. apply (Hnd server). }
  assert (HRk : forall key, R !! key = (_ ← queries !! key; rows ← server !! key; Some (with_fill (fill_of n rows) rows))).
  { intros key. rewrite Hl. destruct (queries !! key) eqn:Ek; [rewrite decide_True by (apply Hkeys; eauto)|rewrite decide_False by (rewrite Hkeys, Ek; by intros []); done].
    rewrite find_labels by done. cbn [mbind option_bind]. destruct (server !! key) as [rows|] eqn:Es; [|done]. cbn [fmap option_fmap option_map mbind option_bind].
    destruct (Hrows key rows Es). by apply label_rows_ok. }
  exists R, m. split_and!; [done|done|]. intros key rows Hk Es Hlen. rewrite HRk. apply elem_of_dom in Hk as [? ->]. cbn [mbind option_bind].
  rewrite Es. cbn [mbind option_bind]. f_equal. by apply fill_longest.
Qed.

(** ** A library that satisfies the laws

    No secrecy: a query carries its items, ciphertexts say which power they are, and
    one bin bundle answers for the whole database. *)

Definition nul_pad (n : nat) (l : str) : str := l ++ replicate (n - length l) "000"%char.

Definition open_answer (f : nat * list (str * str)) (items : list str) : list (str * option str) :=
  (fun x => (x, nul_pad f.1 <$> find_label f.2 x)) <$> items.

Definition open_record (e : str * option str) : MatchRecord :=
  match e.2 with Some l => MR true (if decide (l = []) then None else Some l) | None => MR false None end.

Abbreviation open_cipher := (option (list str * nat * (nat * bool))).

Definition open_mul (x y : open_cipher) : res open_cipher :=
  match x, y with Some (i, a, f), Some (_, b, _) => Ret (Some (i, (a + b)%nat, f)) | _, _ => Throw end.

Definition pack_fields (pk : package (list (str * option str)) unit) : nat * Z * Z * list (str * option str) * list (list (str * option str)) :=
  match pk with Pkg _ b nb lb r ls => (b, nb, lb, r, ls) end.
Definition unpack_fields (x : nat * Z * Z * list (str * option str) * list (list (str * option str))) : package (list (str * option str)) unit :=
  match x with (b, nb, lb, r, ls) => Pkg tt b nb lb r ls end.

Definition open_apsi : ApsiLib := {|
  rng := unit; psi_params := unit; params_of_json _ := Ret tt; params_save _ := chars "p"; params_load _ := Ret tt;
  bundle_idx_count _ := 1%nat; max_items_per_bin _ := 2%nat; ps_low_degree _ := 0%nat; query_powers _ := [1%nat];
  oprf_key := unit; new_oprf_key _ := tt; hashed_item := str; label_key := unit;
  oprf_receiver := list str; CreateOPRFReceiver _ l := l; query_data := plain_text; ProcessQueries s _ := Ret s;
  process_responses r s := Ret (plain_read [] s, (fun _ => tt) <$> r);
  sender_db := nat * list (str * str); new_sender_db _ _ n _ _ := Ret (n, []); set_data d db := Ret (db.1, d);
  get_oprf_key _ := tt; get_params _ := tt; get_bin_bundle_count _ := 1; get_nonce_byte_count _ := 16; get_label_byte_count db := Z.of_nat db.1;
  db_save := plain_text; db_load s := Ret (plain_read (0%nat, []) s); using_keyswitching _ := false;
  bin_cache := nat * list (str * str); get_cache_at db b := if decide (b = 0)%nat then [db] else [];
  polyn := nat * list (str * str); batched_matching_polyn c := c; batched_interp_polyns _ := []; coeff_count _ := 3;
  seal_object := list (str * option str); ciphertext := open_cipher; empty_ciphertext := None;
  extract _ s := Some (s.*1, 1%nat, (0%nat, false)); is_valid_for _ _ := true; relin_keys := unit; empty_relin_keys := tt;
  square x := open_mul x x; multiply := open_mul; relinearize _ _ := Throw;
  mod_switch_to l x := match x with Some (i, e, (_, b)) => Ret (Some (i, e, (l, b))) | None => Throw end;
  transform_to_ntt x := match x with Some (i, e, (l, _)) => Ret (Some (i, e, (l, true))) | None => Throw end;
  create_powers_set _ _ := [1; 2]%nat; configure _ _ := [PN 1 None; PN 2 (Some (1, 1)%nat)];
  eval_powers f powers := match powers !! 2%nat with Some (Some (i, _, _)) => Ret (open_answer f i) | _ => Throw end;
  eval_patstock _ _ _ := Throw; compr_mode := unit;
  package_save pk := plain_text (pack_fields pk); package_load _ s := Ret (unpack_fields (plain_read (0%nat, 0, 0, [], []) s));
  pir_query := list str; itt := list str; create_query _ _ hs := Ret (hs, hs); query_save := plain_text; query_load _ s := Ret (plain_read [] s);
  query_compr _ := tt; query_cts q := [(1%nat, [(fun x => (x, None)) <$> q])];
  process_result _ _ _ pks := match pks with [pk] => Ret (open_record <$> psi_result pk) | _ => Throw end
|}.

Lemma open_answer_records n data items : open_record <$> open_answer (n, data) items = match_record nul_pad n data <$> items.
Proof.
  unfold open_answer. rewrite <- list_fmap_compose. apply list_fmap_ext. intros i x _. unfold open_record, match_record. cbn. by destruct (find_label data x).
Qed.

Lemma nul_pad_app n l : exists fill, nul_pad n l = l ++ fill /\ no_hash fill.
Proof. eexists. split; [reflexivity|]. intros Hin. by apply elem_of_replicate in Hin as [? _]. Qed.

Lemma open_laws : @ApsiLaws open_apsi.
Proof.
  refine (@Build_ApsiLaws open_apsi (fun _ => True) _ _ _ (fun _ x => x) (fun _ _ => tt) _ (fun db n data => db = (n, data)) _ _ _
    (fun q _ e f c => c = Some (q, e, f)) _ _ _ _ _ _ (fun q f r => r = open_answer f q) _ _ nul_pad _ _ _); cbn.
  - done.
  - by intros [].
  - done.
  - intros _ _ items Hne. split; [apply pos_text_ne|]. eexists. split_and!; [reflexivity|apply pos_text_ne|]. by rewrite plain_read_text, list_fmap_id.
  - intros _ p n db0 data db [= <-] [= <-]. by destruct p.
  - intros db. by rewrite plain_read_text.
  - done.
  - intros _ p hs q t db [= <- <-] _. split_and!; [apply pos_text_ne|by rewrite plain_read_text|apply NoDup_singleton|done|].
    intros e v Hin. apply list_elem_of_singleton in Hin as [= -> ->]. split; [done|]. intros [|b] c; [|done]. intros [= <-]. split; [done|].
    rewrite <- list_fmap_compose. by rewrite list_fmap_id.
  - intros q b e c ->. by eexists.
  - intros q b e e' c c' -> ->. by eexists.
  - intros q b e l c ->. by eexists.
  - intros q b e l c ->. by eexists.
  - intros _ _. split_and!; [|by apply (bool_decide_unpack _)|by repeat constructor]. split; [|split; [set_solver|set_solver]].
    intros pre n post E. destruct pre as [|a [|c pre]]; simplify_eq/=; [split; set_solver..|]. by destruct pre.
  - intros db q b c f powers _ Hc Hf Hp. destruct Hf as [->|Hf]; [|by apply elem_of_nil in Hf]. destruct (Hp 2%nat) as (x & -> & ->); [set_solver|].
    eexists. split; reflexivity.
  - intros p pk. split; [apply pos_text_ne|]. rewrite plain_read_text. by destruct pk as [[]].
  - apply nul_pad_app.
  - intros n l <-. unfold nul_pad. by rewrite Nat.sub_diag, app_nil_r.
  - intros _ db n data items q t pks pks' -> _ [= <- <-] Hf Hperm. unfold all_caches in Hf. cbn in Hf.
    apply Forall2_cons_inv_l in Hf as (pk & rest & (_ & Hpk & _) & Hf & ->). apply Forall2_nil_inv_l in Hf as ->. cbn in Hpk.
    apply Permutation_singleton_r in Hperm as ->. by rewrite Hpk, list_fmap_id, open_answer_records.
Defined.

Definition pir_server_node : Node := Nd (chars "node1") (chars "10.0.0.2") 50051 false (chars "default").
Definition sample_client_options : PirOptions := PO ∅ PARTY_CLIENT (Some RoleClient) false false [] pir_server_node default_node.
Definition sample_server_options : PirOptions := PO ∅ PARTY_SERVER (Some RoleServer) false false (chars "data/cache/d_0") default_node pir_server_node.
Definition sample_pir_rows : PirDataType :=
  {[chars "ann" := [chars "ann,1"; chars "ann,2"]; chars "bob" := [chars "bob,3"]]}.
Definition sample_pir_files : gmap str str := {[config_path := chars "{}"]}.

(** ** Databases made beforehand *)

(** An offline run of the server writes the database to its path, and a later run that
    is given the same path serves the same rows from it, whatever it is fed. *)
Lemma offline_database_serves `{ApsiLaws} (o o' : PirOptions) (iter : PirDataType -> list (str * list str)) (sd sd' : rng) (finished : list ResultPackage -> list ResultPackage)
    (fs : gmap str str) (server input : PirDataType) p text db :
  generate_db o = true -> db_path o' = db_path o -> fs !! config_path = Some text -> params_of_json (config_text text) = Ret p ->
  Forall (fun e => e.2 <> []) (iter server) -> CreateSenderDb false sd p (labels_of (iter server)) = Ret (Some db) ->
  let fs' := <[db_path o := db_save db]> fs in
  ServerOnExecute false o iter sd finished server ∅ fs = Done (Ret (SUCCESS, (∅, fs'))) /\
  serves o' iter sd' fs' p input db (max_list (length <$> (labels_of (iter server)).*2)) (labels_of (iter server)).
Proof.
  intros Hgen Hpath Hconf Hjson Hne Hdb fs'. destruct (sender_db_ok _ _ _ _ Hdb) as [Hp Hholds]. split.
  - unfold ServerOnExecute, SetPsiParams. rewrite Hconf, Hjson. cbn [mbind res_bind]. act_go. rewrite Hgen, CreateDb_labels by done. act_go. by rewrite Hdb.
  - apply serves_cached; [|done..]. unfold fs'. by rewrite Hpath, lookup_insert_eq.
Qed.
