(* ===== verification/PirTask.v ===== *)
(** * The PIR task

    Models [task/semantic/pir_task.cc]: the parameters of a request, the options of
    the operator, loading the queries or the server's rows, running the operator and
    saving the answer.  Datasets come from the dataset service and its drivers. *)

From Stdlib Require Import Ascii String ZArith Lia.
From stdpp Require Import base tactics list option strings countable gmap.
From S2P Require Import Prelude ModArith Machine StrUtil Json Common Wire PsiData PsiNet Psi PsiTask MetaService CsvFile DataStore Drivers DatasetService PirOperator.

Local Open Scope Z_scope.

(** The members of [PirTask]. *)
Record pir_task : Type := PirT {
  pir_type_ : Z;
  pir_dataset_id_ : str;
  pir_detail_ : bool;
  pir_result_path_ : str;
  pir_elements_ : PirDataType;
  pir_result_ : PirDataType;
  pir_options_ : PirOptions;
  server_dataset_schema_ : list str;
  server_key_columns_ : list Z;
  server_label_columns_ : list Z;
  client_key_columns_ : list Z
}.

Definition new_pir_task : pir_task := PirT KEY_PIR [] false [] ∅ ∅ new_options [] [] [] [].
Definition db_cache_dir_ : str := chars "data/cache".

Definition set_pir_type (z : Z) (t : pir_task) : pir_task :=
  PirT z (pir_dataset_id_ t) (pir_detail_ t) (pir_result_path_ t) (pir_elements_ t) (pir_result_ t) (pir_options_ t) (server_dataset_schema_ t)
    (server_key_columns_ t) (server_label_columns_ t) (client_key_columns_ t).
Definition set_pir_dataset (id : str) (detail : bool) (t : pir_task) : pir_task :=
  PirT (pir_type_ t) id detail (pir_result_path_ t) (pir_elements_ t) (pir_result_ t) (pir_options_ t) (server_dataset_schema_ t)
    (server_key_columns_ t) (server_label_columns_ t) (client_key_columns_ t).
Definition set_result_path (path : str) (t : pir_task) : pir_task :=
  PirT (pir_type_ t) (pir_dataset_id_ t) (pir_detail_ t) path (pir_elements_ t) (pir_result_ t) (pir_options_ t) (server_dataset_schema_ t)
    (server_key_columns_ t) (server_label_columns_ t) (client_key_columns_ t).
Definition set_elements (m : PirDataType) (t : pir_task) : pir_task :=
  PirT (pir_type_ t) (pir_dataset_id_ t) (pir_detail_ t) (pir_result_path_ t) m (pir_result_ t) (pir_options_ t) (server_dataset_schema_ t)
    (server_key_columns_ t) (server_label_columns_ t) (client_key_columns_ t).
Definition set_options (o : PirOptions) (t : pir_task) : pir_task :=
  PirT (pir_type_ t) (pir_dataset_id_ t) (pir_detail_ t) (pir_result_path_ t) (pir_elements_ t) (pir_result_ t) o (server_dataset_schema_ t)
    (server_key_columns_ t) (server_label_columns_ t) (client_key_columns_ t).
Definition set_columns (schema : list str) (keys labels client : list Z) (t : pir_task) : pir_task :=
  PirT (pir_type_ t) (pir_dataset_id_ t) (pir_detail_ t) (pir_result_path_ t) (pir_elements_ t) (pir_result_ t) (pir_options_ t) schema keys labels client.

(** ** Reading the request *)

Definition ParsePirType (task : Task) (t : pir_task) : pir_task :=
  match params task !! chars "pirType" with Some v => set_pir_type (get_int32 v) t | None => t end.

Definition ParseDataset (task : Task) (t : pir_task) : pir_task :=
  match party_datasets task !! party_name task with
  | None => t
  | Some ds => set_pir_dataset (default (pir_dataset_id_ t) (data ds !! party_name task)) (dataset_detail ds || pir_detail_ t) t
  end.

(** [ParsePirRole]; a party of another name leaves the role as it is. *)
Definition ParsePirRole (party : str) (r : option Role) : retcode * option Role :=
  if IsClient party then (SUCCESS, Some RoleClient) else if IsServer party then (SUCCESS, Some RoleServer) else (FAIL, r).

Definition ParseResultPathConfig (storage : str) (task : Task) (t : pir_task) : retcode * pir_task :=
  if IsClient (party_name task) then
    match params task !! chars "outputFullFilename" with
    | Some v => (SUCCESS, set_result_path (CompletePath storage (get_string v)) t)
    | None => (FAIL, t)
    end
  else (SUCCESS, t).

(** The label columns: every column of the server's schema, unless some were set. *)
Definition default_labels (labels : list Z) (schema : list str) : list Z :=
  if decide (labels = []) then Z.of_nat <$> seq 0 (length schema) else labels.

(** The loop over the server's key columns: a number that was seen is skipped. *)
Fixpoint push_keys (dup : list Z) (l : list json) (keys : list Z) : res (list Z) :=
  match l with
  | [] => Ret keys
  | j :: l => k ← json_int j; if decide (k ∈ dup) then push_keys dup l keys else push_keys (k :: dup) l (keys ++ [k])
  end.

(** The path of the cached database of an online server. *)
Definition cache_path (name : str) (keys : list Z) : str :=
  db_cache_dir_ ++ chars "/" ++ name ++ concat ((fun k => chars "_" ++ int_to_string k) <$> keys).

(** The part of [BuildOptions] that concerns the server's database. *)
Definition server_options (fs : gmap str str) (task : Task) (t : pir_task) (o : PirOptions) : retcode * PirOptions :=
  let with_db gen cache path := PO (po_party_info o) (po_self_party o) (role o) cache gen path (peer_node o) (po_proxy_node o) in
  match params task !! chars "DbInfo" with
  | Some v =>
      let path := get_string v in
      if decide (pir_dataset_id_ t = []) then (FAIL, with_db (generate_db o) (use_cache o) path)
      else (SUCCESS, with_db true (use_cache o) path)
  | None =>
      if decide (pir_dataset_id_ t = []) then (FAIL, o)
      else
        let online name :=
          let path := cache_path name (server_key_columns_ t) in
          (SUCCESS, with_db (generate_db o) (use_cache o || bool_decide (is_Some (fs !! path))) path) in
        if pir_detail_ t then
          match params task !! party_name task with
          | Some v => online (get_string v)
          | None => (FAIL, with_db (generate_db o) (use_cache o) (db_cache_dir_ ++ chars "/"))
          end
        else online (pir_dataset_id_ t)
  end.

(** [BuildOptions]. *)
Definition pir_BuildOptions (fs : gmap str str) (task : Task) (t : pir_task) (o : PirOptions) : retcode * PirOptions :=
  let party := party_name task in
  let info := list_to_map (party_access_info task) ∪ po_party_info o in
  let o := PO info party (ParsePirRole party (role o)).2 (use_cache o) (generate_db o) (db_path o) (peer_node o) (po_proxy_node o) in
  let '(ret, o) := if IsServer party then server_options fs task t o else (SUCCESS, o) in
  if decide (ret <> SUCCESS) then (FAIL, o)
  else
    let peer_party_name := if IsServer party then PARTY_CLIENT else if IsClient party then PARTY_SERVER else [] in
    let with_nodes peer proxy := PO info party (role o) (use_cache o) (generate_db o) (db_path o) peer proxy in
    let peer := default (peer_node o) (info !! peer_party_name) in
    match auxiliary_server task !! PROXY_NODE with
    | Some proxy => (SUCCESS, with_nodes peer proxy)
    | None => (FAIL, with_nodes peer (po_proxy_node o))
    end.

(** ** With the dataset service *)

Section Service.
Context {S : Type} `{MetaStore S}.
Context (parse : str -> option json) (mysql : bool).
Context (fs : gmap str str) (read_csv : CsvOptions -> str -> option arrow_table).
Context (sqlite_open : str -> bool) (sqlite_exec : str -> str -> option (list (list str))).
Context (mysql_connect : MySQLAccessInfo -> bool) (mysql_exec : MySQLAccessInfo -> str -> option (nat * list (list str))).
Context (storage : str) (service : DatasetService S).

Definition pir_getDriver (id : str) (detail : bool) : res (option DataDriver) := service_getDriver parse mysql fs id detail service.

(** [GetServerDataSetSchema]. *)
Definition GetServerDataSetSchema (task : Task) (t : pir_task) : res (retcode * pir_task) :=
  let add names := set_columns (server_dataset_schema_ t ++ names) (server_key_columns_ t) (server_label_columns_ t) (client_key_columns_ t) t in
  match party_datasets task !! PARTY_SERVER with
  | None => Ret (FAIL, t)
  | Some ds =>
      match data ds !! PARTY_SERVER with
      | None => Ret (FAIL, t)
      | Some id =>
          if dataset_detail ds then
            acc ← parse_json parse id; text ← jstring acc "schema"; fields ← parse_json parse text;
            Ret (SUCCESS, add ((concat (items <$> elements fields)).*1))
          else
            driver ← pir_getDriver id false;
            match driver ≫= access_info with
            | None => Ret (FAIL, t)
            | Some i => Ret (SUCCESS, add ((ai_schema i).*1))
            end
      end
  end.

(** [ParseQueryConfig]. *)
Definition ParseQueryConfig (task : Task) (t : pir_task) : res (retcode * pir_task) :=
  '(_, t) ← GetServerDataSetSchema task t;
  let schema := server_dataset_schema_ t in
  match params task !! chars "QueryConfig" with
  | None =>
      let keys := if decide (server_key_columns_ t = []) then [0] else server_key_columns_ t in
      Ret (SUCCESS, set_columns schema keys (default_labels (server_label_columns_ t) schema) (client_key_columns_ t) t)
  | Some v =>
      conf ← parse_json parse (get_string v);
      t ← (if jcontains conf "SERVER" then
             info ← cmember conf "SERVER";
             keys ← (if jcontains info "key_columns" then l ← cmember info "key_columns"; push_keys [] (elements l) (server_key_columns_ t)
                     else Ret (server_key_columns_ t));
             let labels := default_labels (server_label_columns_ t) schema in
             if decide (labels = []) then Throw else Ret (set_columns schema keys labels (client_key_columns_ t) t)
           else Ret t);
      t ← (if jcontains conf "CLIENT" then
             info ← cmember conf "CLIENT";
             if jcontains info "key_columns" then
               l ← cmember info "key_columns"; ks ← mapM json_int (elements l);
               Ret (set_columns (server_dataset_schema_ t) (server_key_columns_ t) (server_label_columns_ t) (client_key_columns_ t ++ ks) t)
             else Ret t
           else Ret t);
      Ret (SUCCESS, t)
  end.

(** [LoadParams]: only the code of [BuildOptions] counts. *)
Definition pir_LoadParams (task : Task) (t : pir_task) : res (retcode * pir_task) :=
  let t := ParsePirType task t in
  '(_, t) ← ParseQueryConfig task t;
  let t := ParseDataset task t in
  let '(ret, o) := pir_BuildOptions fs task t (pir_options_ t) in
  let t := set_options o t in
  if decide (ret <> SUCCESS) then Ret (FAIL, t)
  else Ret (SUCCESS, (ParseResultPathConfig storage task t).2).

(** ** Loading rows *)

(** [LoadDataSetInternal]: every field is read as a string. *)
Definition LoadDataSetInternal (id : str) (detail : bool) : res (option arrow_table) :=
  driver ← pir_getDriver id detail;
  match driver with
  | None => Ret None
  | Some d =>
      '(c, d) ← drv_GetCursor fs read_csv mysql_connect mysql_exec d;
      match c with
      | None => Ret None
      | Some c =>
          i ← or_undef (access_info d);
          cur_read_schema fs read_csv mysql_connect mysql_exec d c ((fun f => (f.1, 13)) <$> ai_schema i)
      end
  end.

(** A column of a table that was read as strings, in one chunk; the cast of another
    array is undefined. *)
Definition string_chunks (a : arrow_array) : res (list (list str)) := match a with StringArray l => Ret [l] | _ => Undef end.

(** A column by its number: one past the end throws, a negative one is undefined. *)
Definition column_at {A} (cols : list A) (k : Z) : res A :=
  if Z.of_nat (length cols) <=? k then Throw else if k <? 0 then Undef else or_undef (cols !! Z.to_nat k).

(** Appending a further column: the row written to must be there. *)
Fixpoint append_rows (content values : list str) : res (list str) :=
  match content, values with
  | content, [] => Ret content
  | [], _ :: _ => Undef
  | s :: content, v :: values => rest ← append_rows content values; Ret ((s ++ chars "," ++ v) :: rest)
  end.

Fixpoint append_columns (cols : list (list (list str))) (sel : list Z) (content : list str) : res (list str) :=
  match sel with
  | [] => Ret content
  | k :: sel => c ← column_at cols k; content ← append_rows content (concat c); append_columns cols sel content
  end.

(** [GetSelectedContent] on the columns of a table, each a list of chunks. *)
Definition GetSelectedContent (cols : list (list (list str))) (sel : list Z) : res (list str) :=
  match sel with
  | [] => Ret []
  | k :: sel => c ← column_at cols k; append_columns cols sel (concat c)
  end.

(** [elements_[item]]: the key is there afterwards. *)
Definition touch (k : str) (m : PirDataType) : PirDataType := match m !! k with Some _ => m | None => <[k := []]> m end.

(** [ClientLoadDataset]. *)
Definition ClientLoadDataset (task : Task) (t : pir_task) : res (retcode * pir_task) :=
  match params task !! chars "clientData" with
  | Some v =>
      if is_array v then
        let m := fold_left (fun m k => touch k m) (get_string_array v) (pir_elements_ t) in
        Ret (if decide (m = ∅) then FAIL else SUCCESS, set_elements m t)
      else Ret (SUCCESS, set_elements (touch (get_string v) (pir_elements_ t)) t)
  | None =>
      if decide (pir_dataset_id_ t = []) then Ret (FAIL, t)
      else
        tab ← LoadDataSetInternal (pir_dataset_id_ t) (pir_detail_ t);
        match tab with
        | None => Ret (FAIL, t)
        | Some tab =>
            cols ← mapM string_chunks (at_columns tab);
            keys ← GetSelectedContent cols (client_key_columns_ t);
            Ret (SUCCESS, set_elements (fold_left (fun m k => touch k m) keys (pir_elements_ t)) t)
        end
  end.

(** A row of the server: a new key starts a vector. *)
Definition push_row_at (k v : str) (m : PirDataType) : PirDataType :=
  match m !! k with Some vec => <[k := vec ++ [v]]> m | None => <[k := [v]]> m end.

(** The loop over the keys: [value_array[i]] must be there. *)
Fixpoint group_rows (keys labels : list str) (m : PirDataType) : res PirDataType :=
  match keys, labels with
  | [], _ => Ret m
  | _ :: _, [] => Undef
  | k :: keys, v :: labels => group_rows keys labels (push_row_at k v m)
  end.

(** [ServerLoadDataset]. *)
Definition ServerLoadDataset (t : pir_task) : res (retcode * pir_task) :=
  if use_cache (pir_options_ t) then Ret (SUCCESS, t)
  else
    tab ← LoadDataSetInternal (pir_dataset_id_ t) (pir_detail_ t);
    match tab with
    | None => Throw
    | Some tab =>
        if (length (at_columns tab) <? 2)%nat then Throw
        else if decide (server_key_columns_ t = []) then Throw
        else
          cols ← mapM string_chunks (at_columns tab);
          keys ← GetSelectedContent cols (server_key_columns_ t);
          if decide (server_label_columns_ t = []) then Throw
          else
            labels ← GetSelectedContent cols (server_label_columns_ t);
            m ← group_rows keys labels (pir_elements_ t);
            Ret (SUCCESS, set_elements m t)
    end.

Definition pir_LoadDataset (stop : bool) (task : Task) (t : pir_task) : res (retcode * pir_task) :=
  if stop then Ret (FAIL, t)
  else if IsClient (party_name task) then ClientLoadDataset task t
  else if IsServer (party_name task) then ServerLoadDataset t
  else Ret (SUCCESS, t).

(** ** Running the operator and saving *)

Definition pir_NeedSaveResult (party : str) : bool := IsClient party.

Section Save.
Context (ValidateDir writable : str -> bool) (iter : PirDataType -> list (str * list str)).
(** Arrow's text of a table with one column [value] of the given rows. *)
Context (write_csv : bool -> list str -> option str).

(** [SaveResult]: the titles are the server's label columns. *)
Definition pir_SaveResult (party : str) (t : pir_task) (fs : gmap str str) : res (retcode * gmap str str) :=
  if negb (pir_NeedSaveResult party) then Ret (SUCCESS, fs)
  else
    let rows := concat (snd <$> iter (pir_result_ t)) in
    titles ← mapM (fun k => if k <? 0 then Undef else or_undef (server_dataset_schema_ t !! Z.to_nat k)) (server_label_columns_ t);
    '(r, fs) ← WriteImpl ValidateDir writable write_csv titles rows (pir_result_path_ t) fs;
    Ret (match r with SUCCESS => SUCCESS | _ => FAIL end, fs).

Definition pir_InitOperator (t : pir_task) : res (retcode * option pir_operator) :=
  op ← pir_Create (pir_type_ t) (pir_options_ t); Ret (match op with Some _ => SUCCESS | None => FAIL end, op).

Context `{ApsiLib}.

(** [PirTask::execute]: the files afterwards; any failure is thrown. *)
Definition pir_execute (task : Task) (sd : rng) (finished : list ResultPackage -> list ResultPackage) : act_at slot (gmap str str) :=
  '(ret, t) ← lift (pir_LoadParams task new_pir_task);
  if decide (ret <> SUCCESS) then lift Throw
  else
    '(ret, t) ← lift (pir_LoadDataset false task t);
    if decide (ret <> SUCCESS) then lift Throw
    else
      '(ret, op) ← lift (pir_InitOperator t);
      if decide (ret <> SUCCESS) then lift Throw
      else
        op ← lift (or_undef op);
        '(ret, (result, fs')) ← pir_Execute false (pir_options_ t) iter op sd finished (pir_elements_ t) (pir_result_ t) fs;
        if decide (ret <> SUCCESS) then lift Throw
        else
          let t := PirT (pir_type_ t) (pir_dataset_id_ t) (pir_detail_ t) (pir_result_path_ t) (pir_elements_ t) result (pir_options_ t)
            (server_dataset_schema_ t) (server_key_columns_ t) (server_label_columns_ t) (client_key_columns_ t) in
          '(ret, fs'') ← lift (pir_SaveResult (party_name task) t fs');
          if decide (ret <> SUCCESS) then lift Throw else lift (Ret fs'').
End Save.
End Service.
