(* ===== verification/PirTaskProps.v ===== *)
(** * Properties of the PIR task

    What the server loads, what the request decides, and the run of a client task
    with a server task up to the file the client writes. *)

From Stdlib Require Import Ascii String ZArith Lia.
From stdpp Require Import base tactics list option strings countable gmap.
From S2P Require Import Prelude ModArith Machine StrUtil Json Common Wire PsiData PsiNet Psi PsiTask MetaService CsvFile DataStore Drivers DatasetService.
From S2P Require Import PirOperator PirProps PirTask.

Local Open Scope Z_scope.

(** ** The rows of a table *)

(** The cell of column [k] in row [i], and the text of the selected cells of a row. *)
Definition cell_at (cols : list (list (list str))) (i : nat) (k : Z) : str := default [] (concat (default [] (cols !! Z.to_nat k)) !! i).
Definition row_text (cols : list (list (list str))) (sel : list Z) (i : nat) : str := join (chars ",") (cell_at cols i <$> sel).

(** [n] rows in every column, and columns that are there. *)
Definition in_table (n : nat) (cols : list (list (list str))) (sel : list Z) : Prop :=
  Forall (fun c => length (concat c) = n) cols /\ Forall (fun k => 0 <= k < Z.of_nat (length cols)) sel.

Lemma column_at_ok {A} (cols : list A) k : 0 <= k < Z.of_nat (length cols) -> exists c, column_at cols k = Ret c /\ cols !! Z.to_nat k = Some c.
Proof.
  intros Hk. unfold column_at. rewrite (proj2 (Z.leb_gt _ _)), (proj2 (Z.ltb_ge _ _)) by lia.
  destruct (lookup_lt_is_Some_2 cols (Z.to_nat k)) as [c Hc]; [lia|]. exists c. by rewrite Hc.
Qed.

(** A column one past the end is refused, a negative number is not. *)
Lemma column_at_bounds {A} (cols : list A) k : (Z.of_nat (length cols) <= k -> column_at cols k = Throw) /\ (k < 0 -> column_at cols k = Undef).
Proof.
  unfold column_at. split; intros Hk.
  - by rewrite (proj2 (Z.leb_le _ _)) by lia.
  - by rewrite (proj2 (Z.leb_gt _ _)), (proj2 (Z.ltb_lt _ _)) by lia.
Qed.

Lemma append_rows_zip content values : length values = length content -> append_rows content values = Ret (zip_with (fun s v => s ++ chars "," ++ v) content values).
Proof.
  revert values. induction content as [|s content IH]; intros [|v values] Hl; try done. cbn [append_rows zip_with].
  rewrite IH by (simpl in Hl; lia). done.
Qed.

Lemma append_columns_ok n cols sel content : in_table n cols sel -> length content = n ->
  append_columns cols sel content = Ret (imap (fun i s => s ++ concat ((fun k => chars "," ++ cell_at cols i k) <$> sel)) content).
Proof.
  intros [Hc Hs] <-. revert content Hc. induction Hs as [|k sel Hk Hs IH]; intros content Hc; cbn [append_columns].
  { f_equal. apply list_eq. intros i. rewrite list_lookup_imap. destruct (content !! i); [cbn; by rewrite app_nil_r|done]. }
  destruct (column_at_ok cols k Hk) as (c & -> & Ec). cbn [mbind res_bind].
  assert (Hl : length (concat c) = length content) by (rewrite Forall_forall in Hc; by apply Hc; eapply list_elem_of_lookup_2).
  rewrite append_rows_zip by done. cbn [mbind res_bind]. rewrite IH by (by rewrite length_zip_with, Hl, Nat.min_id). f_equal.
  apply list_eq. intros i. rewrite !list_lookup_imap, lookup_zip_with. destruct (content !! i) as [s|] eqn:Es; [|done]. cbn [mbind option_bind].
  destruct (lookup_lt_is_Some_2 (concat c) i) as [v Hv]; [rewrite Hl; by eapply lookup_lt_Some|].
  rewrite Hv. cbn. unfold cell_at. rewrite Ec. cbn [default from_option id]. rewrite Hv. cbn. by rewrite <- !app_assoc.
Qed.

Lemma join_cons_concat sep f fs : join sep (f :: fs) = f ++ concat ((fun g => sep ++ g) <$> fs).
Proof.
  revert f. induction fs as [|g fs IH]; intros f; [by rewrite app_nil_r|]. change (join sep (f :: g :: fs)) with (f ++ sep ++ join sep (g :: fs)).
  rewrite IH. cbn [fmap list_fmap concat]. by rewrite <- app_assoc.
Qed.

(** The selected columns of every row, whatever the chunks. *)
Lemma GetSelectedContent_ok n cols sel : sel <> [] -> in_table n cols sel -> GetSelectedContent cols sel = Ret (row_text cols sel <$> seq 0 n).
Proof.
  intros Hne [Hc Hs]. destruct sel as [|k sel]; [done|]. apply Forall_cons in Hs as [Hk Hs]. cbn [GetSelectedContent].
  destruct (column_at_ok cols k Hk) as (c & -> & Ec). cbn [mbind res_bind].
  assert (Hl : length (concat c) = n) by (rewrite Forall_forall in Hc; by apply Hc; eapply list_elem_of_lookup_2).
  rewrite (append_columns_ok n) by done. f_equal. apply list_eq. intros i. rewrite list_lookup_imap, list_lookup_fmap.
  destruct (decide (i < n)%nat) as [Hi|Hi].
  - destruct (lookup_lt_is_Some_2 (concat c) i) as [v Hv]; [lia|]. rewrite Hv, lookup_seq_lt by done. cbn [fmap option_fmap option_map]. f_equal. unfold row_text.
    assert (Hcell : cell_at cols i k = v) by (unfold cell_at; rewrite Ec; simpl; by rewrite Hv).
    cbn [fmap list_fmap Nat.add]. by rewrite join_cons_concat, Hcell, <- list_fmap_compose.
  - rewrite (lookup_ge_None_2 (concat c)), (lookup_ge_None_2 (seq 0 n)) by (rewrite ?length_seq; lia). done.
Qed.

(** ** The server's rows *)

(** The values that go with a key, in order; nothing when there are none. *)
Definition rows_of (k : str) (l : list (str * str)) : option (list str) :=
  match (filter (fun e => e.1 = k) l).*2 with [] => None | vs => Some vs end.

Lemma group_rows_ok keys labels m : length labels = length keys -> exists m', group_rows keys labels m = Ret m' /\
  forall k, m' !! k = match m !! k with Some vs => Some (vs ++ (filter (fun e => e.1 = k) (zip keys labels)).*2) | None => rows_of k (zip keys labels) end.
Proof.
  revert labels m. induction keys as [|k0 keys IH]; intros [|v labels] m Hl; try done.
  { exists m. split; [done|]. intros k. destruct (m !! k); [by rewrite app_nil_r|done]. }
  cbn [group_rows]. destruct (IH labels (push_row_at k0 v m)) as (m' & -> & Hm'); [simpl in Hl; lia|]. exists m'. split; [done|]. intros k. rewrite Hm'.
  change (zip (k0 :: keys) (v :: labels)) with ((k0, v) :: zip keys labels). unfold rows_of. rewrite filter_cons. unfold push_row_at. cbn [fst].
  destruct (decide (k = k0)) as [->|Hne].
  - rewrite decide_True by done. destruct (m !! k0) as [vs|]; rewrite lookup_insert_eq; [by rewrite <- app_assoc|done].
  - rewrite decide_False by done. destruct (m !! k0); by rewrite lookup_insert_ne.
Qed.

Lemma string_chunks_columns cols : mapM string_chunks (StringArray <$> cols) = Ret ((fun c => [c]) <$> cols).
Proof. induction cols as [|c cols IH]; [done|]. cbn [fmap list_fmap mapM string_chunks mbind res_bind]. by rewrite IH. Qed.

Lemma zip_fmap_seq {A B} (f : nat -> A) (g : nat -> B) l : zip (f <$> l) (g <$> l) = (fun i => (f i, g i)) <$> l.
Proof. induction l as [|x l IH]; [done|]. cbn [fmap list_fmap zip]. by rewrite <- IH. Qed.

Section Load.
Context {S : Type} `{MetaStore S} (parse : str -> option json) (mysql : bool) (fs : gmap str str) (read_csv : CsvOptions -> str -> option arrow_table).
Context (mysql_connect : MySQLAccessInfo -> bool) (mysql_exec : MySQLAccessInfo -> str -> option (nat * list (list str))) (service : DatasetService S).

(** the server groups its rows by keyword.  When no cached database is used and
    the dataset is read as a table of strings with [n] rows, at least two columns and
    the key and label columns in range, loading succeeds, and the map it builds has
    for every text exactly the label texts of the rows whose key text it is, in table
    order, and no entry for any other text; a key or label text is the selected cells
    joined by commas. *)
Theorem server_rows_grouped (t : pir_task) (names : schema) (cols : list (list str)) (n : nat) :
  use_cache (pir_options_ t) = false -> pir_elements_ t = ∅ ->
  LoadDataSetInternal parse mysql fs read_csv mysql_connect mysql_exec service (pir_dataset_id_ t) (pir_detail_ t) = Ret (Some (ATable names (StringArray <$> cols))) ->
  (2 <= length cols)%nat -> Forall (fun c => length c = n) cols ->
  server_key_columns_ t <> [] -> server_label_columns_ t <> [] ->
  Forall (fun k => 0 <= k < Z.of_nat (length cols)) (server_key_columns_ t ++ server_label_columns_ t) ->
  exists m, ServerLoadDataset parse mysql fs read_csv mysql_connect mysql_exec service t = Ret (SUCCESS, set_elements m t) /\
    let chunked := (fun c => [c]) <$> cols in
    forall k, m !! k = rows_of k ((fun i => (row_text chunked (server_key_columns_ t) i, row_text chunked (server_label_columns_ t) i)) <$> seq 0 n).
Proof.
  intros Hcache Hel Hload Hlen Hrows Hkey Hlabel Hrange. apply Forall_app in Hrange as [Hrk Hrl].
  unfold ServerLoadDataset. rewrite Hcache, Hload. cbn [mbind res_bind at_columns]. rewrite length_fmap, (proj2 (Nat.ltb_ge _ _)), decide_False by done.
  rewrite string_chunks_columns. cbn [mbind res_bind]. set (chunked := (fun c => [c]) <$> cols).
  assert (Hc : Forall (fun c => length (concat c) = n) chunked).
  { unfold chunked. rewrite Forall_fmap. eapply Forall_impl; [exact Hrows|]. intros c <-. cbn. by rewrite app_nil_r. }
  assert (Hlc : length chunked = length cols) by apply length_fmap.
  rewrite <- Hlc in Hrk, Hrl. rewrite (GetSelectedContent_ok n _ _ Hkey (conj Hc Hrk)). cbn [mbind res_bind]. rewrite decide_False by done.
  rewrite (GetSelectedContent_ok n _ _ Hlabel (conj Hc Hrl)). cbn [mbind res_bind].
  destruct (group_rows_ok (row_text chunked (server_key_columns_ t) <$> seq 0 n) (row_text chunked (server_label_columns_ t) <$> seq 0 n) (pir_elements_ t)) as (m & -> & Hm).
  { by rewrite !length_fmap. }
  cbn [mbind res_bind]. exists m. split; [done|]. intros k. rewrite Hm, Hel, lookup_empty, zip_fmap_seq. done.
Qed.
End Load.

(** ** A client task and a server task *)

(** What the parts of the loading may change. *)
Definition columns_changed (t t' : pir_task) : Prop := exists schema keys labels client, t' = set_columns schema keys labels client t.

Lemma columns_refl t : columns_changed t t.
Proof. exists (server_dataset_schema_ t), (server_key_columns_ t), (server_label_columns_ t), (client_key_columns_ t). by destruct t. Qed.
Lemma columns_set schema keys labels client t t' : columns_changed t t' -> columns_changed t (set_columns schema keys labels client t').
Proof. intros (? & ? & ? & ? & ->). by eexists _, _, _, _. Qed.

Lemma schema_changes_columns `{MetaStore M} parse mysql fs (service : DatasetService M) task t r t' :
  GetServerDataSetSchema parse mysql fs service task t = Ret (r, t') -> columns_changed t t'.
Proof.
  unfold GetServerDataSetSchema. intros E. repeat case_match; simplify_eq; try apply columns_refl;
    repeat match goal with E : (_ ≫= _) = Ret _ |- _ => apply res_bind_Ret in E as (? & _ & E) end; repeat case_match; simplify_eq;
    try apply columns_set; apply columns_refl.
Qed.

Lemma query_changes_columns `{MetaStore M} parse mysql fs (service : DatasetService M) task t r t' :
  ParseQueryConfig parse mysql fs service task t = Ret (r, t') -> columns_changed t t'.
Proof.
  unfold ParseQueryConfig. intros ([r1 t1] & E1%schema_changes_columns & E)%res_bind_Ret.
  case_match; [|simplify_eq; by apply columns_set]. apply res_bind_Ret in E as (conf & _ & (t2 & E2 & (t3 & E3 & [= _ <-])%res_bind_Ret)%res_bind_Ret).
  assert (Ht2 : columns_changed t t2).
  { destruct (jcontains conf "SERVER"); [|by simplify_eq]. apply res_bind_Ret in E2 as (info & _ & (ks & _ & E2)%res_bind_Ret).
    cbv zeta in E2. case_decide; simplify_eq. by apply columns_set. }
  destruct (jcontains conf "CLIENT"); [|by simplify_eq]. apply res_bind_Ret in E3 as (info & _ & E3).
  destruct (jcontains info "key_columns"); [|by simplify_eq]. apply res_bind_Ret in E3 as (l & _ & (ks & _ & [= <-])%res_bind_Ret). by apply columns_set.
Qed.

(** The parameters of a request that is accepted. *)
Lemma params_ok `{MetaStore M} parse mysql fs storage (service : DatasetService M) task t :
  pir_LoadParams parse mysql fs storage service task new_pir_task = Ret (SUCCESS, t) ->
  pir_result_ t = ∅ /\ pir_elements_ t = ∅ /\ role (pir_options_ t) = (ParsePirRole (party_name task) None).2 /\
  auxiliary_server task !! PROXY_NODE = Some (po_proxy_node (pir_options_ t)) /\
  (IsServer (party_name task) = false -> forall n, IsClient (party_name task) = true -> (list_to_map (party_access_info task) : gmap str Node) !! PARTY_SERVER = Some n ->
     peer_node (pir_options_ t) = n) /\
  (IsServer (party_name task) = true -> params task !! chars "DbInfo" = None -> generate_db (pir_options_ t) = false).
Proof.
  unfold pir_LoadParams. intros ([r1 t1] & (schema & keys & labels & client & ->)%query_changes_columns & E)%res_bind_Ret.
  set (t2 := ParseDataset task _) in E.
  assert (H2 : pir_result_ t2 = ∅ /\ pir_elements_ t2 = ∅ /\ pir_options_ t2 = new_options).
  { unfold t2, ParseDataset, ParsePirType. by destruct (party_datasets task !! _), (params task !! _). }
  clearbody t2. destruct H2 as (Hr & He & Ho). rewrite Ho in E. destruct (pir_BuildOptions fs task t2 new_options) as [ret o] eqn:Eb.
  case_decide as Hret; [simplify_eq|]. assert (Hs : ret = SUCCESS) by (by destruct ret; [|destruct Hret]). subst ret.
  assert (Ht : pir_result_ t = ∅ /\ pir_elements_ t = ∅ /\ pir_options_ t = o).
  { injection E as <-. unfold ParseResultPathConfig. repeat case_match; done. }
  destruct Ht as (-> & -> & ->). split; [done|]. split; [done|]. clear E. unfold pir_BuildOptions in Eb.
  assert (Hsrv : forall o1 ret o2, server_options fs task t2 o1 = (ret, o2) -> role o2 = role o1 /\
    (params task !! chars "DbInfo" = None -> generate_db o2 = generate_db o1)).
  { intros o1 ret o2. unfold server_options. repeat case_match; intros; simplify_eq/=; try done. }
  destruct (IsServer (party_name task)) eqn:Es.
  - destruct (server_options fs task t2 _) as [ret' o'] eqn:E'. apply Hsrv in E' as [Hrole Hgen]. case_decide; [simplify_eq|].
    destruct (auxiliary_server task !! PROXY_NODE) as [proxy|]; simplify_eq/=. split_and!; [done|done|done|]. intros _ Hdb. by rewrite Hgen.
  - destruct (auxiliary_server task !! PROXY_NODE) as [proxy|]; rewrite (decide_False (P := SUCCESS <> SUCCESS)) in Eb by naive_solver; simplify_eq/=.
    split_and!; [done|done| |done]. intros _ n Hc Hn. rewrite Hc, map_union_empty, Hn. done.
Qed.

Lemma dataset_sets_elements `{MetaStore M} parse mysql fs read_csv mc me (service : DatasetService M) task t r t' :
  pir_LoadDataset parse mysql fs read_csv mc me service false task t = Ret (r, t') -> exists m, t' = set_elements m t.
Proof.
  assert (Hid : t = set_elements (pir_elements_ t) t) by (by destruct t).
  unfold pir_LoadDataset, ClientLoadDataset, ServerLoadDataset. intros E. repeat first [case_match | case_decide]; simplify_eq; eauto;
    apply res_bind_Ret in E as (? & _ & E); repeat first [case_match | case_decide]; simplify_eq; eauto;
    repeat match goal with E : (_ ≫= _) = Ret _ |- _ => apply res_bind_Ret in E as (? & _ & E) end; repeat (case_decide || case_match); simplify_eq; eauto;
    repeat match goal with E : (_ ≫= _) = Ret _ |- _ => apply res_bind_Ret in E as (? & _ & E) end; simplify_eq; eauto.
Qed.

Definition op_of (r : Role) : pir_operator := match r with RoleClient => KeywordPirOperatorClient | RoleServer => KeywordPirOperatorServer end.

Section Shape.
Context `{MetaStore M} (parse : str -> option json) (mysql : bool) (fs : gmap str str) (read_csv : CsvOptions -> str -> option arrow_table).
Context (mysql_connect : MySQLAccessInfo -> bool) (mysql_exec : MySQLAccessInfo -> str -> option (nat * list (list str))).
Context (storage : str) (service : DatasetService M) (ValidateDir writable : str -> bool) (iter : PirDataType -> list (str * list str)).
Context (write_csv : bool -> list str -> option str) `{ApsiLib}.
Context (task : Task) (t1 t : pir_task) (r : Role) (sd : rng) (finished : list ResultPackage -> list ResultPackage).
Context (Hparams : pir_LoadParams parse mysql fs storage service task new_pir_task = Ret (SUCCESS, t1)).
Context (Hdata : pir_LoadDataset parse mysql fs read_csv mysql_connect mysql_exec service false task t1 = Ret (SUCCESS, t)).
Context (Htype : pir_type_ t = KEY_PIR) (Hrole : role (pir_options_ t) = Some r).

Abbreviation this_execute := (pir_execute parse mysql fs read_csv mysql_connect mysql_exec storage service ValidateDir writable iter write_csv task sd finished).

(** A task that loaded its parameters and its data is the operator's program followed
    by the save. *)
Lemma pir_execute_shape : exists k,
  this_execute = pir_Execute false (pir_options_ t) iter (op_of r) sd finished (pir_elements_ t) ∅ fs ≫= k /\
  (forall to from x, disciplined to from (k x)) /\
  (IsClient (party_name task) = false -> forall result fs', k (SUCCESS, (result, fs')) = Done (Ret fs')) /\
  (IsClient (party_name task) = true -> ValidateDir (pir_result_path_ t) = true -> writable (pir_result_path_ t) = true ->
     forall titles, titles <> [] -> mapM (fun i => if i <? 0 then Undef else or_undef (server_dataset_schema_ t !! Z.to_nat i)) (server_label_columns_ t) = Ret titles ->
     forall result fs' body, write_csv false (concat (snd <$> iter result)) = Some body ->
       k (SUCCESS, (result, fs')) = Done (Ret (<[pir_result_path_ t := header_text titles ++ body]> fs'))).
Proof using Hparams Hdata Htype Hrole.
  assert (Hres : pir_result_ t = ∅).
  { destruct (dataset_sets_elements _ _ _ _ _ _ _ _ _ _ _ Hdata) as [m ->]. by destruct (params_ok _ _ _ _ _ _ _ Hparams) as [Hr _]. }
  unfold pir_execute. rewrite Hparams. act_go. rewrite Hdata. act_go. unfold pir_InitOperator, pir_Create. rewrite Htype, Hrole.
  change (KEY_PIR =? ID_PIR) with false. change (KEY_PIR =? KEY_PIR) with true. cbn iota. cbn [or_undef mbind res_bind]. act_go. cbn [or_undef]. rewrite Hres.
  eexists. split_and!; [by destruct r|..].
  - intros to from [ret [result fs']]. act_disciplined.
  - intros Hc result fs'. act_go. unfold pir_SaveResult, pir_NeedSaveResult. rewrite Hc. cbn [negb]. by act_go.
  - intros Hc Hv Hw titles Hne Ht result fs' body Hb. act_go. unfold pir_SaveResult, pir_NeedSaveResult. rewrite Hc. cbn [negb].
    cbn [server_dataset_schema_ server_label_columns_ pir_result_ pir_result_path_]. rewrite Ht. cbn [mbind res_bind].
    unfold WriteImpl, WriteHeader, WriteContent. rewrite Hv, Hw. cbn [negb]. rewrite decide_False by done. rewrite Hb. cbn [mbind res_bind].
    act_go. rewrite lookup_insert_eq. cbn [default from_option id]. by rewrite insert_insert_eq.
Qed.
End Shape.

Section Tasks.
Context `{ApsiLaws} (iter : PirDataType -> list (str * list str)) (finished : list ResultPackage -> list ResultPackage) (sdc sds : rng).
(** The client's node and its request. *)
Context `{MetaStore Mc} (parse_c : str -> option json) (mysql_c : bool) (fsc : gmap str str) (read_c : CsvOptions -> str -> option arrow_table).
Context (connect_c : MySQLAccessInfo -> bool) (exec_c : MySQLAccessInfo -> str -> option (nat * list (list str))) (storage_c : str) (service_c : DatasetService Mc).
Context (ValidateDir writable : str -> bool) (write_csv : bool -> list str -> option str) (task_c : Task) (tc1 tc : pir_task).
(** The server's node and its request. *)
Context `{MetaStore Ms} (parse_s : str -> option json) (mysql_s : bool) (fss : gmap str str) (read_s : CsvOptions -> str -> option arrow_table).
Context (connect_s : MySQLAccessInfo -> bool) (exec_s : MySQLAccessInfo -> str -> option (nat * list (list str))) (storage_s : str) (service_s : DatasetService Ms).
Context (task_s : Task) (ts1 ts : pir_task).

Abbreviation client_task := (pir_execute parse_c mysql_c fsc read_c connect_c exec_c storage_c service_c ValidateDir writable iter write_csv task_c sdc finished).
Abbreviation server_task := (pir_execute parse_s mysql_s fss read_s connect_s exec_s storage_s service_s ValidateDir writable iter write_csv task_s sds finished).

(** C6: a client task and a server task together answer the client's queries into the
    client's result file.  Let both requests be accepted and their data be loaded, let
    the client find the server at the node the server listens at, and let the server
    be online with a database that holds the labels of [server] (its rows, when the
    database is built from what it loaded); let every row be free of the separator,
    the library accept the query, the sizes fit and no relinearisation be needed.
    Then every schedule of the two tasks ends after the same number of steps: the
    client's files have the result file with the titles of the label columns and the
    body that Arrow writes for the rows of the answers, the server's files are
    unchanged, and the answers map exactly the queried keys the server has to the
    server's rows, the last one with the label's padding. *)
Theorem pir_task_answers (server : PirDataType) (node : Node) (p : psi_params) (text : str) (db : sender_db) (n : nat) (q : pir_query) (t : itt) (titles : list str) :
  pir_LoadParams parse_c mysql_c fsc storage_c service_c task_c new_pir_task = Ret (SUCCESS, tc1) ->
  pir_LoadDataset parse_c mysql_c fsc read_c connect_c exec_c service_c false task_c tc1 = Ret (SUCCESS, tc) ->
  pir_LoadParams parse_s mysql_s fss storage_s service_s task_s new_pir_task = Ret (SUCCESS, ts1) ->
  pir_LoadDataset parse_s mysql_s fss read_s connect_s exec_s service_s false task_s ts1 = Ret (SUCCESS, ts) ->
  party_name task_c = PARTY_CLIENT -> party_name task_s = PARTY_SERVER -> pir_type_ tc = KEY_PIR -> pir_type_ ts = KEY_PIR ->
  (list_to_map (party_access_info task_c) : gmap str Node) !! PARTY_SERVER = Some node -> auxiliary_server task_s !! PROXY_NODE = Some node ->
  params task_s !! chars "DbInfo" = None -> pir_elements_ tc <> ∅ ->
  (forall l, finished l ≡ₚ l) -> (forall m, iter m ≡ₚ map_to_list m) ->
  fss !! config_path = Some text -> params_of_json (config_text text) = Ret p ->
  serves (pir_options_ ts) iter sds fss p (pir_elements_ ts) db n (labels_of (iter server)) ->
  (forall key rows, server !! key = Some rows -> rows <> [] /\ Forall plain_row rows) ->
  create_query sdc p (hash_of (get_oprf_key db) <$> (iter (pir_elements_ tc)).*1) = Ret (q, t) -> using_keyswitching db = false -> fits32 db ->
  ValidateDir (pir_result_path_ tc) = true -> writable (pir_result_path_ tc) = true -> titles <> [] ->
  mapM (fun i => if i <? 0 then Undef else or_undef (server_dataset_schema_ tc !! Z.to_nat i)) (server_label_columns_ tc) = Ret titles ->
  (forall rows, is_Some (write_csv false rows)) ->
  exists R body m,
    inevitable (14 + 2 * length (all_caches db)) (Sys client_task server_task ∅)
      (Sys (Done (Ret (<[pir_result_path_ tc := header_text titles ++ body]> fsc))) (Done (Ret fss)) m) /\
    write_csv false (concat (snd <$> iter R)) = Some body /\
    forall key, R !! key = (_ ← pir_elements_ tc !! key; rows ← server !! key; Some (with_fill (fill_of n rows) rows)).
Proof.
  intros Hpc Hdc Hps Hds Hc Hs Htc Hts Hpeer Hproxy Hdb Hel Hfin Hiter Hconf Hjson Hserve Hrows Hq Hks Hfit Hv Hw Hne Htit Hcsv.
  destruct (dataset_sets_elements _ _ _ _ _ _ _ _ _ _ _ Hdc) as [mc Ec]. destruct (dataset_sets_elements _ _ _ _ _ _ _ _ _ _ _ Hds) as [ms Es].
  destruct (params_ok _ _ _ _ _ _ _ Hpc) as (_ & _ & Hrc & _ & Hpn & _). destruct (params_ok _ _ _ _ _ _ _ Hps) as (_ & _ & Hrs & Hpx & _ & Hgen).
  rewrite Hc in Hrc, Hpn. rewrite Hs in Hrs, Hgen. assert (Hoc : pir_options_ tc = pir_options_ tc1) by (by rewrite Ec). assert (Hos : pir_options_ ts = pir_options_ ts1) by (by rewrite Es).
  specialize (Hpn eq_refl node eq_refl Hpeer). rewrite Hproxy in Hpx. injection Hpx as Hpx. specialize (Hgen eq_refl Hdb).
  rewrite <- Hoc in Hrc, Hpn. rewrite <- Hos in Hrs, Hpx, Hgen.
  destruct (pir_execute_shape parse_c mysql_c fsc read_c connect_c exec_c storage_c service_c ValidateDir writable iter write_csv task_c tc1 tc RoleClient sdc finished Hpc Hdc Htc Hrc)
    as (kc & -> & Hdisc & _ & Hsave).
  destruct (pir_execute_shape parse_s mysql_s fss read_s connect_s exec_s storage_s service_s ValidateDir writable iter write_csv task_s ts1 ts RoleServer sds finished Hps Hds Hts Hrs)
    as (ks & -> & Hdiss & Hkeep & _).
  assert (Hn : peer_node (pir_options_ tc) = po_proxy_node (pir_options_ ts)) by congruence.
  destruct (keyword_pir_answers (pir_options_ tc) (pir_options_ ts) iter sdc sds finished (pir_elements_ tc) server (pir_elements_ ts) fsc fss p text db n q t)
    as (R & m & [_ Hrun] & HR & _); try done.
  destruct (Hrun 0%nat _ (run_nil _)) as [_ Hone]. rewrite Nat.sub_0_r in Hone. destruct (Hcsv (concat (snd <$> iter R))) as [body Hbody].
  apply (run_bind _ _ _ kc ks) in Hone. rewrite Hs in Hkeep. rewrite (Hkeep eq_refl) in Hone. rewrite Hc in Hsave. rewrite (Hsave eq_refl Hv Hw titles Hne Htit R fsc body Hbody) in Hone.
  exists R, body, m. split_and!; [|done|done]. apply (one_run_decides (client_box (pir_options_ tc)) (server_box (pir_options_ tc))); [|done|apply stuck_done].
  split_and!; [by eapply (boxes_apart _ (pir_options_ ts))|apply disciplined_bind; [by apply (pir_client_disciplined _ (pir_options_ ts))|apply Hdisc]|apply disciplined_bind; [by apply pir_server_disciplined|apply Hdiss]].
Qed.
End Tasks.

(** ** A query from end to end *)

(** A meta service with one dataset. *)
#[local] Instance fixed_store : MetaStore (option DatasetMeta) := {
  put_meta _ s := Ret (SUCCESS, s);
  find_meta _ s := Ret s;
  all_metas s := option_list s
}.

Definition pir_dataset (access : str) : DatasetMeta :=
  DM (chars "d") [] [] access [] 0 (chars "csv") (Some [(chars "id", 13); (chars "x", 9)]) 0.
Definition pir_service (access : str) : DatasetService (option DatasetMeta) := DatasetService.DS [] ∅ [] (Some (pir_dataset access)).

Definition pir_columns : list (list str) := [[chars "ann"; chars "ann"; chars "bob"]; [chars "1"; chars "2"; chars "3"]].
Definition pir_table : arrow_table := ATable [(chars "id", 13); (chars "x", 13)] (StringArray <$> pir_columns).
Definition pir_files : gmap str str := <[chars "/d.csv" := chars "id,x"]> sample_pir_files.

Definition pir_request (party : str) : Task := {|
  party_name := party;
  party_access_info := [(PARTY_SERVER, pir_server_node)];
  auxiliary_server := {[PROXY_NODE := pir_server_node]};
  params := <[chars "clientData" := PV (value_string_array [chars "ann"; chars "eve"]) true]> {[chars "outputFullFilename" := PV (value_string (chars "/r.csv")) false]};
  party_datasets := {[PARTY_SERVER := PsiTask.DS {[PARTY_SERVER := chars "d"]} false]}
|}.

Definition or_new (r : res (retcode * pir_task)) : pir_task := match r with Ret (_, t) => t | _ => new_pir_task end.

Definition server_loaded : pir_task := or_new (pir_LoadParams (fun _ => None) false pir_files [] (pir_service (chars "/d.csv")) (pir_request PARTY_SERVER) new_pir_task).

Lemma server_rows_grouped_witness : exists m,
  ServerLoadDataset (fun _ => None) false pir_files (fun _ _ => Some pir_table) (fun _ => false) (fun _ _ => None) (pir_service (chars "/d.csv")) server_loaded =
    Ret (SUCCESS, set_elements m server_loaded) /\ m !! chars "ann" = Some [chars "ann,1"; chars "ann,2"].
Proof.
  destruct (server_rows_grouped (fun _ => None) false pir_files (fun _ _ => Some pir_table) (fun _ => false) (fun _ _ => None) (pir_service (chars "/d.csv"))
    server_loaded [(chars "id", 13); (chars "x", 13)] pir_columns 3) as (m & Hm & Hk).
  - vm_compute. reflexivity.
  - vm_compute. reflexivity.
  - vm_compute. reflexivity.
  - vm_compute. lia.
  - repeat constructor.
  - vm_compute. discriminate.
  - vm_compute. discriminate.
  - vm_compute. repeat constructor; discriminate.
  - exists m. split; [exact Hm|]. rewrite Hk. vm_compute. reflexivity.
Defined.

Definition client_params : pir_task := or_new (pir_LoadParams (fun _ => None) false ∅ [] (pir_service []) (pir_request PARTY_CLIENT) new_pir_task).
Definition client_loaded : pir_task :=
  or_new (pir_LoadDataset (fun _ => None) false ∅ (fun _ _ => None) (fun _ => false) (fun _ _ => None) (pir_service []) false (pir_request PARTY_CLIENT) client_params).
Definition server_ready : pir_task :=
  or_new (pir_LoadDataset (fun _ => None) false pir_files (fun _ _ => Some pir_table) (fun _ => false) (fun _ _ => None) (pir_service (chars "/d.csv")) false (pir_request PARTY_SERVER) server_loaded).
Definition titles_text (rows : list str) : str := concat ((fun r => r ++ [newline]) <$> rows).

Lemma pir_task_answers_witness : exists (R : PirDataType) m,
  inevitable 16
    (Sys (@pir_execute _ fixed_store (fun _ => None) false ∅ (fun _ _ => None) (fun _ => false) (fun _ _ => None) [] (pir_service []) (fun _ => true) (fun _ => true) map_to_list
            (fun _ rows => Some (titles_text rows)) open_apsi (pir_request PARTY_CLIENT) tt reverse)
         (@pir_execute _ fixed_store (fun _ => None) false pir_files (fun _ _ => Some pir_table) (fun _ => false) (fun _ _ => None) [] (pir_service (chars "/d.csv")) (fun _ => true) (fun _ => true)
            map_to_list (fun _ rows => Some (titles_text rows)) open_apsi (pir_request PARTY_SERVER) tt reverse) ∅)
    (Sys (Done (Ret (<[chars "/r.csv" := header_text [chars "id"; chars "x"] ++ titles_text (concat (snd <$> map_to_list R))]> ∅))) (Done (Ret pir_files)) m) /\
  R !! chars "ann" = Some [chars "ann,1"; chars "ann,2"] /\ R !! chars "bob" = None /\ R !! chars "eve" = None.
Proof.
  destruct (@pir_task_answers open_apsi open_laws map_to_list reverse tt tt
    _ fixed_store (fun _ => None) false ∅ (fun _ _ => None) (fun _ => false) (fun _ _ => None) [] (pir_service []) (fun _ => true) (fun _ => true)
    (fun _ rows => Some (titles_text rows)) (pir_request PARTY_CLIENT) client_params client_loaded
    _ fixed_store (fun _ => None) false pir_files (fun _ _ => Some pir_table) (fun _ => false) (fun _ _ => None) [] (pir_service (chars "/d.csv"))
    (pir_request PARTY_SERVER) server_loaded server_ready
    sample_pir_rows pir_server_node tt (chars "{}") (14%nat, labels_of (map_to_list sample_pir_rows)) 14
    (map_to_list (pir_elements_ client_loaded)).*1 (map_to_list (pir_elements_ client_loaded)).*1 [chars "id"; chars "x"])
    as (R & body & m & Hrun & [= <-] & HR).
  - vm_compute. reflexivity.
  - vm_compute. reflexivity.
  - vm_compute. reflexivity.
  - vm_compute. reflexivity.
  - reflexivity.
  - reflexivity.
  - vm_compute. reflexivity.
  - vm_compute. reflexivity.
  - vm_compute. reflexivity.
  - vm_compute. reflexivity.
  - vm_compute. reflexivity.
  - vm_compute. discriminate.
  - intros l. apply reverse_Permutation.
  - done.
  - vm_compute. reflexivity.
  - reflexivity.
  - refine (@serves_built open_apsi open_laws _ map_to_list tt pir_files tt _ (labels_of (map_to_list sample_pir_rows)) _ _ _ _); vm_compute; reflexivity.
  - intros key rows. unfold sample_pir_rows. rewrite lookup_insert_Some. intros [[<- <-]|[_ E]].
    + split; [done|]. by repeat constructor; apply (bool_decide_unpack _).
    + apply lookup_singleton_Some in E as [<- <-]. split; [done|]. by repeat constructor; apply (bool_decide_unpack _).
  - reflexivity.
  - reflexivity.
  - unfold fits32. cbn. split_and!; intros; lia.
  - reflexivity.
  - reflexivity.
  - discriminate.
  - vm_compute. reflexivity.
  - intros rows. by eexists.
  - exists R, m. split_and!; [exact Hrun|rewrite HR; vm_compute; reflexivity..].
Defined.

(** ** Requests the task accepts or refuses *)

(** A client that names a dataset but no key column asks for nothing. *)
Lemma client_without_columns `{MetaStore M} parse mysql fs read_csv mc me (service : DatasetService M) task t tab cols :
  params task !! chars "clientData" = None -> pir_dataset_id_ t <> [] -> client_key_columns_ t = [] ->
  LoadDataSetInternal parse mysql fs read_csv mc me service (pir_dataset_id_ t) (pir_detail_ t) = Ret (Some tab) -> mapM string_chunks (at_columns tab) = Ret cols ->
  ClientLoadDataset parse mysql fs read_csv mc me service task t = Ret (SUCCESS, set_elements (pir_elements_ t) t).
Proof. intros Hd Hid Hk Hl Hc. unfold ClientLoadDataset. rewrite Hd, decide_False by done. rewrite Hl. cbn [mbind res_bind]. by rewrite Hc, Hk. Qed.

(** Without the parameter of the result file the client goes on with an empty path. *)
Lemma client_without_path storage task t : IsClient (party_name task) = true -> params task !! chars "outputFullFilename" = None ->
  ParseResultPathConfig storage task t = (FAIL, t).
Proof. intros Hc Hp. unfold ParseResultPathConfig. by rewrite Hc, Hp. Qed.

(** A dataset of an SQLite table is never read. *)
Lemma sqlite_not_loaded `{MetaStore M} parse mysql fs read_csv mc me (service : DatasetService M) id detail d :
  pir_getDriver parse mysql fs service id detail = Ret (Some d) -> drv_type d = SQLiteDriver ->
  LoadDataSetInternal parse mysql fs read_csv mc me service id detail = Ret None.
Proof. intros Hd Ht. unfold LoadDataSetInternal. rewrite Hd. cbn [mbind res_bind]. unfold drv_GetCursor. by rewrite Ht. Qed.

(** A party that is neither client nor server has no role, and the factory reads it. *)
Lemma other_party_no_role party : IsClient party = false -> IsServer party = false ->
  ParsePirRole party None = (FAIL, None) /\ pir_Create KEY_PIR (PO ∅ party None false false [] default_node default_node) = Undef.
Proof. intros Hc Hs. unfold ParsePirRole. by rewrite Hc, Hs. Qed.

(** The server multiplies with the keys of an empty key set: where the library refuses
    them, a query that needs a product fails. *)
Lemma product_needs_keys `{ApsiLib} n a b powers x : parents n = Some (a, b) -> powers !! a = Some x -> is_Some (powers !! b) ->
  (forall c, relinearize empty_relin_keys c = Throw) -> (forall c d, exists e, multiply c d = Ret e) -> (forall c, exists e, square c = Ret e) ->
  apply_node true empty_relin_keys n powers = Throw.
Proof.
  intros Hp Ha [y Hb] Hr Hm Hs. unfold apply_node. rewrite Hp, Ha. cbn [or_undef mbind res_bind]. case_decide.
  - destruct (Hs x) as [e ->]. cbn [mbind res_bind]. by rewrite Hr.
  - rewrite Hb. cbn [or_undef mbind res_bind]. destruct (Hm x y) as [e ->]. cbn [mbind res_bind]. by rewrite Hr.
Qed.
